(* ===== verification/_CoqProject ===== *)
-Q . S2P
Prelude.v
SupTypes.v
ObjReg.v
MemTrack.v
MemApi.v
Loader.v
Factory.v
GipPage.v
Gip.v
Cpu.v
FuncTable.v
Logger.v
Request.v
HandleTab.v
Sem.v
Driver.v
Idc.v
IOCtl.v
System.v
SpinMutex.v
MemObj.v
MemObjLnx.v
RtMemObj.v
MemObjSafe.v
MemObjCalls.v
MemObjDriver.v
UsbExpr.v
UsbFilter.v
UsbMatch.v
UsbFilterMgr.v
HeapSimple.v
HeapRep.v
HeapOps.v
HeapSpec.v
HeapClient.v
