(* ===== verification/Prelude.v ===== *)
(** * The host drivers: the ring-0 support driver, and USB filters

    A verification of the support driver of the repository, the kernel module through which
    the user processes of the virtual machine monitor, and other kernel modules, reach the
    ring-0 code: src/src/VBox/HostDrivers/Support (SUPDrv.c, SUPDrvSem.c, SUPDrvInternal.h,
    SUPDrvIOC.h, SUPDrvIDC.h, the IDC client library SUPR0Idc*.c and the entry points of
    linux/SUPDrv-linux.c), with the parts of the ring-0 runtime (src/src/VBox/Runtime) it is
    built on: the handle tables, the generic memory objects, the spinning mutex and the simple
    heap that executable memory comes from.  The
    host is 64-bit Linux.  Beside it stand the USB filters, which the USB drivers and the USB
    service of the hosts share: src/src/VBox/HostDrivers/VBoxUSB (USBFilter.cpp,
    VBoxUSBFilterMgr.cpp).

    ** The program

    The driver has one device extension and any number of sessions, one for each open file
    or connected driver.  A session makes requests: ring 3 by I/O control
    ([VBoxDrvLinuxIOCtlSlow], [supdrvIOCtl], [supdrvIOCtlFast]), other drivers by IDC
    ([SUPDrvLinuxIDC], [supdrvIDC]).  A request is checked, and then served by one of the
    components: reference counted objects shared by sessions (and, among them, event
    semaphores, named by handles), memory tracked for a session, ring-0 images with their
    usage counts and the VMMR0 entry points in them, component factories, and the global
    info page, which is mapped read-only into every process and updated by a timer.  When a
    session is closed, whatever it still holds is given back.

    A USB filter asks for devices by up to eleven properties, with numbers, numeric
    expressions, strings and patterns; it is a flat structure with its strings in a table,
    which ring 3 fills in ([USBFilterSet*]) and passes to the driver.  There the manager
    validates and keeps it for its owner, in one of four lists by type, and a device that
    appears gets the first filter that matches.

    ** The files

    - Prelude: machine integers, status codes, sums over finite maps, list lemmas, tactics.
    - SupTypes: what every component sees of a session.
    - ObjReg: [SUPR0ObjRegister] to [SUPR0ObjVerifyAccess].  The objects and usage records
      are a heap and lists of addresses, as the [pNext] links visit them.
    - MemTrack, MemApi: the bundles of memory references of a session, and the memory
      services over them ([SUPR0LockMem] to [SUPR0PageFree]).  They are proved against the
      interface [MemObjApi] with the laws [MemObjLaws], which MemObjDriver implements.
    - Loader: [supdrvIOCtl_LdrOpen] to [supdrvIDC_LdrGetSymbol], [supdrvLdrFree], the VMMR0
      entry points and [supdrvIOCtl_CallServiceModule].
    - Factory: [SUPR0ComponentRegisterFactory], its inverse and the query.
    - GipPage, Gip: the global info page, store by store; its users, timers, creation and
      destruction.
    - Cpu, FuncTable, Logger: paging mode and VT-x questions, the exported functions, the
      logger settings.
    - HandleTab, Sem: the runtime's handle tables (common/misc/handletable*.cpp) and, on them
      and the objects, the semaphores of SUPDrvSem.c.
    - SpinMutex: the spinning mutex (r0drv/generic/semspinmutex-r0drv-generic.c), as steps of
      threads.
    - MemObj, MemObjLnx, RtMemObj: the memory objects of the runtime.  MemObj has the data,
      the class [LinuxKernel] and a monad of computations on the objects in memory, the kernel and
      a ledger of what is held of it, with its program logic [wp]; MemObjLnx the native half
      (r0drv/linux/memobj-r0drv-linux.c); RtMemObj the generic one (r0drv/memobj-r0drv.cpp).
    - MemObjSafe, MemObjCalls: freeing, the calls as a transition system, and the theorems about
      the states it reaches.
    - HeapSimple: the simple heap of the runtime (common/alloc/heapsimple.cpp), on words of
      memory; HeapRep, HeapOps: the memory as a sequence of blocks, with its two linked lists,
      and what every operation does to that sequence; HeapSpec: the same for the allocations,
      and the consistency check; HeapClient: the clients, moves of the heap, and the theorems.
    - MemObjDriver: the memory objects as an instance of [MemObjApi], and the driver's
      allocations on top of them.
    - Driver: the device extension as the record of all these states, its initialisation and
      deletion, creation, cleanup and closing of sessions.
    - Request, IOCtl: the 27 requests, first the checks on the bytes of the buffer, then what
      is executed and stored.
    - Idc: the requests of other drivers, and their client library.
    - System: the driver as a transition system, and the theorems about all of it.
    - UsbExpr: the numeric expressions and the patterns of filters.
    - UsbFilter: the structure, setters and queries; UsbMatch: validation, matching, and the
      filter that is made of a device (Main, USBProxyService.cpp).
    - UsbFilterMgr: the manager, as a transition system on lists in memory.

    ** State and operations

    An operation of the source is a function of the state it can reach, to its status, its
    results, the new state and, where calls out of the driver matter, the list of them in
    order.  C structures are records with the members the source has; an address is a [Z],
    and what lies at an address is in a finite map of the component that owns it.  Members of
    SUPDRVSESSION and SUPDRVDEVEXT are split over the components, by the address of the
    session.  Integers are [Z] with the wrap-around of their width written out ([u32],
    [s32], [u64]) wherever the source can wrap.  Results of allocations, of the operating
    system and of functions of loaded modules are arguments or functions in an environment
    record or class ([SemApi], [LogApi], [GipEnv], [IoEnv], [LinuxKernel]), so that the theorems hold for all of
    them.  A lookup that in the source would follow a dangling pointer gives [None]: that no
    operation of a reachable state does is part of what is proved.  The same goes for a read
    or write outside of the string table of a filter, or of a string.

    Concurrency is explicit where the source allows it.  Where a function drops a lock in the
    middle (to allocate, or to destroy), what other threads do meanwhile is an argument
    restricted only to keep the component's invariant (ObjReg, HandleTab, MemTrack); for the
    objects the sections between are steps of their own as well ([obj_step]).  A waiting semaphore call
    is two steps (Sem).  Readers of the info page see the state after any single store
    (GipPage).  The spinning mutex is interleaved access by access (SpinMutex).  Everything
    else runs under a lock for its whole length, and is one step.

    ** What is shown

    - Invariants: every reachable state of the objects, the loader, the page's users, the
      handle tables, the semaphores, the memory objects, and of the driver as a whole is well
      formed; in particular usage counts are exact and nothing refers to what has been freed.
      For the objects this is interleaved to the sections under the spinlock, cleanups
      included.
    - Refinement: adding and releasing references, tracking and releasing memory, allocating
      handles and updating the page are compared with abstract specifications (maps and
      counts, or a reference function).
    - Resources: what the memory objects hold of the kernel is what they account for, through
      every failure, but for the mappings into processes that frees from another process
      leave, which are computed; the driver's allocations give it back, by release or when
      they fail.
    - Sessions: a session can only change what is its own; closing it removes what it has,
      frees its memory, and leaves the others as they were; its share of the count of the
      page's users goes only under a condition that is stated.  A failing initialisation of
      the device extension undoes what it did, and the deletion undoes an initialisation but
      for the notification of processors.
    - Requests: without the cookies nothing is executed; checks and execution stay in the
      buffer and in the declared output, for any bytes; every request returns.
    - USB filters: expressions and patterns are compared with grammars, the packed string
      table with eleven independent criteria, both ways of matching with one another, and the
      linked lists of the manager with sequences of filters; owners do not disturb each other,
      and what ring 3 passes in is validated and matched without a read outside of it, where
      its string offsets are in its table.
    - The simple heap: to its clients it is a map of independent arrays, through any sequence of
      requests and moves; the consistency check always passes, a request fails only without
      room, and freeing everything gives one block of the original size.
    - Liveness, progress: the page's creation, the requests, and the spinning mutex.

    ** What is assumed, and why

    Every theorem states its conditions; those that many share are these.  Where a condition
    is there because the code is wrong without it, a lemma shows a run that breaks the claim.

    - Allocations return memory that is not in use, and reference counts stay below [2^32]
      (the driver, the objects, the loader, the semaphores, Idc.[idc_fresh]).
    - IOCtl.[env_ok]: a request is handled to its end before the next; only the tracking of
      memory is interleaved with it.  System.[buf_ok]: the request is in its buffer; the Linux entry
      does not make sure of that ([linux_short_request_overread],
      [linux_double_fetch_overread]).  [init_ok]: the timer has a resolution, and the
      allocation of the page no nil handle.
    - [drv_reach true], for the calls into VMMR0 only: load requests give the base of the image
      as the handle ([vmmr0_handle_not_base_dangles]).  All other theorems about the driver
      are for either value of the flag.
    - Loader, [idc_own]: other drivers ask for symbols of the support driver itself only
      ([idc_symbol_use_after_free]).
    - ObjReg: no thread takes a reference to an object that a cleanup has unlinked and not yet
      destroyed ([cleanup_window_addref]).
    - MemObjCalls.[op_ok]: handles of objects in memory, not those of mappings that went with
      what they mapped ([free_keeps_handles]), no more than 4 TB locked at once, process memory
      handled from its process; [op_exact], for one theorem: physical memory is aligned to a
      page ([misaligned_leaks_object]).
    - [offsets_checked]: a filter has a string in its table or else all offsets in it
      ([validation_hole]).  [device_fits]: the strings of a device fit in a filter
      ([long_strings_differ]).
    - HeapClient.[hop_ok]: requests of at most [2^64 - 32] bytes, aligned to zero or a power
      of two not above their size and 32 ([heap_size_wraps], [heap_align_wraps]); and, for the
      one block at the end, to 32 ([hreach true], [heap_aligned_leak]).

    ** Bounds and fuel

    Recursion is structural, but for loops with fuel.  The walk over the usage list at
    session cleanup ([cleanup_usages]) has the length of the list, and each round removes a
    record.  The rounding of the page's update interval ([interval_loop]) has the 10 ms it
    rounds up to, in units of the timer resolution.  The claiming of a page entry
    ([claim_tries], 33 tries) and the TSC scan ([async_loop], 8 rounds) have the constants
    the source counts down from.  The handle allocation ([alloc_loop]) uses up one
    environment per expansion of the table.  The order of a page block ([order_loop]) has
    the 64 bits of the page count, and the physical address of a page asks a mapping and
    then what it maps ([rtR0MemObjNativeGetPagePhysAddr]).  Of the USB filters, the loops over
    an expression or a pattern ([validate_loop], [match_num_loop], [match_pattern_loop]) have
    its length, since every round uses up a character; the walk over the strings of a table
    ([validate_strings]) has the size of the table; and those over a list of the manager
    ([find_walk], [purge_walk], [free_chain]) have the number of allocated nodes.  The loops of
    the simple heap ([heap_alloc_loop], [find_right], [relocate_loop], [assert_loop]) have the
    number of words in memory, of which every block has four.  The requests are for buffers below 2^31 bytes;
    the Linux entry refuses more than 16 MB.

    ** Not modelled

    The Linux module glue and the other hosts' SUPDrv-*.c, which connect the entry points to
    kernel interfaces that are not part of the sources; the same goes for the USB drivers of
    Windows, Solaris, Darwin and OS/2 around the filters.  The ring-3 side (SUPLib.cpp), which
    issues the requests.  Of the runtime, the lists and strings the driver does not use and
    everything under user mode.  The native semaphores, which are wrappers of kernel
    functions, and the ring-0 allocator over the heaps of the kernel and the simple heap, which is
    taken with its contract.  The other host drivers, the monitor,
    the recompiler, devices, storage, Main and the frontends are programs of their own.
    Assertions that only print, lock validation, tracing and statistics have no part in the
    model. *)

From Stdlib Require Export ZArith Lia.
From stdpp Require Export base list list_numbers fin_maps gmap strings.

#[export] Set Default Goal Selector "!".

(** * Machine integers *)

Declare Scope sup_scope.
Delimit Scope sup_scope with sup.

Local Open Scope Z_scope.

(** Addresses are unsigned 64-bit integers; [NULL] is 0. *)
Abbreviation ptr := Z (only parsing).

Definition NULL : ptr := 0.

Definition u8 (x : Z) : Z := x mod 2 ^ 8.
Definition u16 (x : Z) : Z := x mod 2 ^ 16.
Definition u32 (x : Z) : Z := x mod 2 ^ 32.
Definition u64 (x : Z) : Z := x mod 2 ^ 64.

(** Two's complement reading of the low 32 bits, the C cast to [int32_t]. *)
Definition s32 (x : Z) : Z :=
  let y := u32 x in if y <? 2 ^ 31 then y else y - 2 ^ 32.

(** [RT_BIT(n)] *)
Definition RT_BIT (n : Z) : Z := Z.shiftl 1 n.

(** C truth values of a bit test [x & m]. *)
Definition tst (x m : Z) : bool := negb (Z.land x m =? 0).

Infix "#&" := tst (at level 40) : sup_scope.

(** * Status codes *)

Definition VINF_SUCCESS : Z := 0.
Definition VINF_OBJECT_DESTROYED : Z := 85.
Definition VERR_GENERAL_FAILURE : Z := -1.
Definition VERR_INVALID_PARAMETER : Z := -2.
Definition VERR_INVALID_MAGIC : Z := -3.
Definition VERR_INVALID_HANDLE : Z := -4.
Definition VERR_INVALID_POINTER : Z := -6.
Definition VERR_NO_MEMORY : Z := -8.
Definition VERR_ALREADY_LOADED : Z := -9.
Definition VERR_PERMISSION_DENIED : Z := -10.
Definition VERR_VERSION_MISMATCH : Z := -11.
Definition VERR_WRONG_ORDER : Z := -22.
Definition VERR_INVALID_FUNCTION : Z := -36.
Definition VERR_NOT_SUPPORTED : Z := -37.
Definition VERR_ACCESS_DENIED : Z := -38.
Definition VERR_TRY_AGAIN : Z := -52.
Definition VERR_NOT_FOUND : Z := -78.
Definition VERR_NO_MORE_HANDLES : Z := -81.
Definition VERR_PAGE_COUNT_OUT_OF_RANGE : Z := -84.
Definition VERR_DANGLING_OBJECTS : Z := -86.
Definition VERR_NO_EXEC_MEMORY : Z := -96.
Definition VERR_ALREADY_EXISTS : Z := -105.
Definition VERR_INTERNAL_ERROR : Z := -225.
Definition VERR_INTERNAL_ERROR_2 : Z := -226.
Definition VERR_INTERNAL_ERROR_3 : Z := -227.
Definition VERR_INTERNAL_ERROR_4 : Z := -228.
Definition VERR_INTERNAL_ERROR_5 : Z := -229.
Definition VERR_MODULE_NOT_FOUND : Z := -610.
Definition VERR_CPU_OFFLINE : Z := -800.
Definition VERR_CPU_NOT_FOUND : Z := -801.
Definition VERR_UNSUPPORTED_CPU : Z := -1002.
Definition VERR_TOO_MANY_CPUS : Z := -1019.
Definition VERR_SUPDRV_COMPONENT_NOT_FOUND : Z := -3700.
Definition VERR_SUPDRV_INTERFACE_NOT_SUPPORTED : Z := -3701.
Definition VERR_SUPDRV_SERVICE_NOT_FOUND : Z := -3702.
Definition VERR_VMX_NO_VMX : Z := -4009.
Definition VERR_VMX_MSR_LOCKED_OR_DISABLED : Z := -4013.
Definition VERR_SVM_NO_SVM : Z := -4052.
Definition VERR_SVM_DISABLED : Z := -4053.

Definition RT_SUCCESS (rc : Z) : bool := 0 <=? rc.
Definition RT_FAILURE (rc : Z) : bool := rc <? 0.

(** [RT_VALID_PTR] for ring-0 code on AMD64: not in the first or the last
    page of the address space, and canonical. *)
Definition VALID_PTR (p : ptr) : bool :=
  (0x2000 <=? u64 (p + 0x1000))
  && ((Z.land p 0xffff800000000000 =? 0xffff800000000000)
      || (Z.land p 0xffff800000000000 =? 0)).

(** [AssertPtrNullReturn] accepts NULL. *)
Definition VALID_PTR_OR_NULL (p : ptr) : bool := (p =? NULL) || VALID_PTR p.

Definition PAGE_SIZE : Z := 4096.
Definition PAGE_SHIFT : Z := 12.
Definition PAGE_OFFSET_MASK : Z := 0xfff.

(** * Effects on code outside the model

    The calls whose effect lies outside the modelled state, in the order in
    which they are made. *)
Inductive event : Type :=
| EvMemFree (p : ptr)                                  (* RTMemFree *)
| EvDestructor (pfn pvObj pvUser1 pvUser2 : ptr)       (* pfnDestructor(...) *)
| EvMemObjFree (h : Z) (fFreeMappings : bool)          (* RTR0MemObjFree *)
| EvMemObjProtect (h off cb fProt : Z)                 (* RTR0MemObjProtect *)
| EvCopyImage (dst cb : Z)                             (* memcpy of the image bits *)
| EvModuleInit (pfn : ptr)                             (* pfnModuleInit() *)
| EvModuleTerm (pfn : ptr)                             (* pfnModuleTerm() *)
| EvOSLdrUnload (pImage : ptr)                         (* supdrvOSLdrUnload *)
| EvExecFree (p cb : Z)                                (* RTMemExecFree *)
| EvTimerStart                                         (* RTTimerStart *)
| EvTimerStop                                          (* RTTimerStop *)
| EvTimerDestroy                                       (* RTTimerDestroy *)
| EvGranularityRelease (grant : Z)                     (* RTTimerReleaseSystemGranularity *)
| EvMpDeregister                                       (* RTMpNotificationDeregister *)
| EvSpinlockDestroy (h : Z)                            (* RTSpinlockDestroy *)
| EvMutexDestroy (h : Z)                               (* RTSemFastMutexDestroy *)
| EvFastEntry (pfn pVM idCpu op : Z)                   (* pfnVMMR0EntryFast *)
| EvServiceCall (pfn pSession op arg pReq : Z)         (* pfnServiceReqHandler *)
| EvEntryEx (pfn pVM idCpu op pReq arg pSession : Z)   (* pfnVMMR0EntryEx *)
| EvLogFlags (p : ptr)                                 (* RTLogFlags *)
| EvLogGroups (p : ptr)                                (* RTLogGroupSettings *)
| EvLogDestroy (p : ptr)                               (* RTLogDestroy *)
| EvSemDestroy (kind h : Z)                            (* RTSemEvent[Multi]Destroy *)
| EvSemSignal (kind h : Z)                             (* RTSemEvent[Multi]Signal *)
| EvSemReset (kind h : Z)                              (* RTSemEventMultiReset *)
| EvSemWait (kind h fFlags uTimeout : Z).              (* RTSemEvent[Multi]WaitEx *)

#[export] Instance event_eq_dec : EqDecision event.
Proof. solve_decision. Defined.

(** * Lists *)

(** The first element that satisfies [f], with what precedes and follows it:
    how every search of a linked list in the driver ends. *)
Fixpoint find_split {A} (f : A → bool) (l : list A) : option (list A * A * list A) :=
  match l with
  | [] => None
  | x :: l' =>
      if f x then Some ([], x, l')
      else match find_split f l' with
           | Some (pre, y, post) => Some (x :: pre, y, post)
           | None => None
           end
  end.

(** Unlinking a node from a singly linked list: the head is compared first,
    then every [pNext]. *)
Fixpoint list_unlink (p : ptr) (l : list ptr) : list ptr :=
  match l with
  | [] => []
  | x :: l' => if x =? p then l' else x :: list_unlink p l'
  end.

(** Sum of [f] over a list and over the values of a map. *)
Definition lsum {A} (f : A → Z) (l : list A) : Z := foldr (λ x acc, f x + acc) 0 l.

Definition gsum {A} (f : A → Z) (m : gmap Z A) : Z := map_fold (λ _ x acc, f x + acc) 0 m.

(** Usage lists: records with a key (what is used) and a count. *)
Section reflist.
Context {A : Type} (key cnt : A → Z).

Definition rcount (p : Z) (l : list A) : Z := lsum (λ u, if key u =? p then cnt u else 0) l.
Definition rtotal (m : gmap Z (list A)) (p : Z) : Z := gsum (rcount p) m.
Definition rlist_ok (l : list A) : Prop := NoDup (key <$> l) ∧ Forall (λ u, 1 ≤ cnt u) l.
End reflist.

Section find_split.
Context {A : Type} (f : A → bool).
Implicit Types l : list A.

Lemma find_split_Some l pre x post :
  find_split f l = Some (pre, x, post) ↔
  l = pre ++ x :: post ∧ f x = true ∧ Forall (λ y, f y = false) pre.
Proof.
  revert pre. induction l as [|y l IH]; intros pre; simpl.
  - split; [done|]. intros (?&_). by destruct pre.
  - destruct (f y) eqn:E.
    + split.
      * intros [= <- <- <-]. auto.
      * intros (Hl&Hx&Hpre). destruct pre as [|z pre]; simplify_list_eq; [done|].
        inversion Hpre; congruence.
    + destruct (find_split f l) as [[[pre' x'] post']|] eqn:F; split.
      * intros [= <- <- <-]. destruct (proj1 (IH pre') eq_refl) as (->&?&?). auto.
      * intros (Hl&Hx&Hpre). destruct pre as [|z pre]; simplify_list_eq; [congruence|].
        inversion Hpre; subst. assert (Some (pre', x', post') = Some (pre, x, post)) as [= -> -> ->];
          [by apply IH|done].
      * done.
      * intros (Hl&Hx&Hpre). destruct pre as [|z pre]; simplify_list_eq; [congruence|].
        inversion Hpre; subst. assert (None = Some (pre, x, post)); [|done]. by apply IH.
Qed.

Lemma find_split_None l : find_split f l = None ↔ Forall (λ y, f y = false) l.
Proof.
  induction l as [|y l IH]; simpl; [done|]. destruct (f y) eqn:E.
  - split; [done|]. intros H; inversion H; congruence.
  - destruct (find_split f l) as [[[] ]|]; split; intros H; try done.
    + inversion H; subst. by apply IH in H3.
    + constructor; [done|]. by apply IH.
Qed.
End find_split.

Lemma list_unlink_app p l1 l2 : p ∉ l1 → list_unlink p (l1 ++ p :: l2) = l1 ++ l2.
Proof.
  induction l1 as [|x l1 IH]; simpl; intros Hp.
  - by rewrite Z.eqb_refl.
  - apply not_elem_of_cons in Hp as [Hx Hp]. destruct (Z.eqb_spec x p); [congruence|].
    by rewrite IH.
Qed.

Lemma list_unlink_id p l : p ∉ l → list_unlink p l = l.
Proof.
  induction l as [|x l IH]; simpl; intros Hp; [done|].
  apply not_elem_of_cons in Hp as [Hx Hp]. destruct (Z.eqb_spec x p); [congruence|].
  by rewrite IH.
Qed.

Lemma elem_of_list_unlink p q l : NoDup l → q ∈ list_unlink p l ↔ q ∈ l ∧ q ≠ p.
Proof.
  induction l as [|x l IH]; simpl; intros Hnd; [set_solver|].
  inversion Hnd; subst. destruct (Z.eqb_spec x p).
  - set_solver.
  - rewrite !elem_of_cons, IH by done. naive_solver.
Qed.

Lemma NoDup_list_unlink p l : NoDup l → NoDup (list_unlink p l).
Proof.
  induction l as [|x l IH]; simpl; intros Hnd; [done|].
  inversion Hnd; subst. destruct (x =? p); [done|]. constructor; [|auto].
  intros H. apply elem_of_list_unlink in H; naive_solver.
Qed.

(** * Sums *)

Section sums.
Context {A : Type} (f : A → Z).

Lemma lsum_app l1 l2 : lsum f (l1 ++ l2) = lsum f l1 + lsum f l2.
Proof. induction l1 as [|x l1 IH]; simpl; lia. Qed.

Lemma lsum_nonneg l : Forall (λ x, 0 ≤ f x) l → 0 ≤ lsum f l.
Proof. induction 1; simpl; lia. Qed.

Lemma lsum_elem l x : Forall (λ x, 0 ≤ f x) l → x ∈ l → f x ≤ lsum f l.
Proof.
  intros H. induction H as [|y l Hy Hl IH]; intros Hx; [by apply not_elem_of_nil in Hx|].
  pose proof (lsum_nonneg _ Hl). apply elem_of_cons in Hx as [->|Hx]; simpl; [lia|].
  specialize (IH Hx). lia.
Qed.

Lemma lsum_zero l : Forall (λ x, f x = 0) l → lsum f l = 0.
Proof. induction 1; simpl; lia. Qed.

Lemma gsum_insert_new m k x : m !! k = None → gsum f (<[k:=x]> m) = f x + gsum f m.
Proof.
  intros H. unfold gsum. rewrite map_fold_insert_L; [done| |done].
  intros; lia.
Qed.

Lemma gsum_delete m k x : m !! k = Some x → gsum f m = f x + gsum f (delete k m).
Proof.
  intros H. rewrite <- (insert_delete_id m k x H) at 1.
  rewrite gsum_insert_new; [done|apply lookup_delete_eq].
Qed.

Lemma gsum_insert m k x :
  gsum f (<[k:=x]> m) = gsum f m - from_option f 0 (m !! k) + f x.
Proof.
  destruct (m !! k) as [y|] eqn:E; simpl.
  - rewrite (gsum_delete m k y E). rewrite <- insert_delete_eq.
    rewrite gsum_insert_new; [lia|apply lookup_delete_eq].
  - rewrite gsum_insert_new by done. lia.
Qed.

Lemma gsum_empty : gsum f ∅ = 0.
Proof. unfold gsum. apply map_fold_empty. Qed.

Lemma gsum_nonneg m : (∀ k x, m !! k = Some x → 0 ≤ f x) → 0 ≤ gsum f m.
Proof.
  induction m as [|k x m Hk IH] using map_ind; intros H; [by rewrite gsum_empty|].
  rewrite gsum_insert_new by done.
  assert (0 ≤ f x) by (apply (H k); apply lookup_insert_eq).
  assert (0 ≤ gsum f m); [|lia]. apply IH. intros k' x' Hx'. apply (H k').
  rewrite lookup_insert_ne; [done|congruence].
Qed.

Lemma gsum_zero m : (∀ k x, m !! k = Some x → f x = 0) → gsum f m = 0.
Proof.
  induction m as [|k x m Hk IH] using map_ind; intros H; [apply gsum_empty|].
  rewrite gsum_insert_new by done. rewrite (H k x) by apply lookup_insert_eq.
  rewrite IH; [done|]. intros k' x' Hx'. apply (H k').
  rewrite lookup_insert_ne; [done|congruence].
Qed.

(** Entries of value 0 do not matter. *)
Lemma gsum_ext m1 : ∀ m2,
  (∀ k, from_option f 0 (m1 !! k) = from_option f 0 (m2 !! k)) → gsum f m1 = gsum f m2.
Proof.
  induction m1 as [|k x m1 Hk IH] using map_ind; intros m2 H.
  { rewrite gsum_empty. symmetry. apply gsum_zero. intros k x Hx. specialize (H k).
    rewrite Hx, lookup_empty in H. by simpl in H. }
  rewrite gsum_insert_new by done. rewrite (IH (delete k m2)).
  - specialize (H k). rewrite lookup_insert_eq in H. destruct (m2 !! k) as [y|] eqn:E.
    + rewrite (gsum_delete m2 k y E). simpl in H. lia.
    + rewrite delete_id by done. simpl in H. lia.
  - intros k'. destruct (decide (k' = k)) as [->|Hne].
    + by rewrite Hk, lookup_delete_eq.
    + specialize (H k'). by rewrite lookup_insert_ne, lookup_delete_ne in * by done.
Qed.

Lemma gsum_elem m k x :
  (∀ k x, m !! k = Some x → 0 ≤ f x) → m !! k = Some x → f x ≤ gsum f m.
Proof.
  intros H Hk. rewrite (gsum_delete m k x Hk). assert (0 ≤ gsum f (delete k m)); [|lia].
  apply gsum_nonneg. intros k' x' [_ Hx']%lookup_delete_Some. by apply (H k').
Qed.
End sums.

Lemma lsum_ext {A} (f g : A → Z) l : (∀ x, x ∈ l → f x = g x) → lsum f l = lsum g l.
Proof.
  induction l as [|x l IH]; simpl; intros H; [done|].
  rewrite H by set_solver. rewrite IH; [done|]. intros; apply H. set_solver.
Qed.

Lemma lsum_fmap {A B} (g : A → B) (f : B → Z) l : lsum f (g <$> l) = lsum (f ∘ g) l.
Proof. unfold lsum. induction l as [|x l IH]; [done|]. simpl. by f_equal. Qed.

(** * Usage lists *)

#[global] Arguments rcount : simpl never.

Section reflist_lemmas.
Context {A : Type} (key cnt : A → Z).
Abbreviation rcount := (rcount key cnt).
Abbreviation rlist_ok := (rlist_ok key cnt).
Implicit Types l : list A.

Lemma rcount_app p l1 l2 : rcount p (l1 ++ l2) = rcount p l1 + rcount p l2.
Proof. apply lsum_app. Qed.

Lemma rcount_cons p u l : rcount p (u :: l) = (if key u =? p then cnt u else 0) + rcount p l.
Proof. done. Qed.

Lemma rcount_nonneg p l : rlist_ok l → 0 ≤ rcount p l.
Proof.
  intros [_ H]. apply lsum_nonneg. eapply Forall_impl; [exact H|]. intros u Hu; simpl in *.
  destruct (_ =? _); lia.
Qed.

Lemma rcount_notin p l : p ∉ key <$> l → rcount p l = 0.
Proof.
  intros H. apply lsum_zero, Forall_forall. intros u Hu. destruct (Z.eqb_spec (key u) p) as [<-|]; [|done].
  exfalso. apply H, list_elem_of_fmap. eauto.
Qed.

Lemma rcount_elem l u : rlist_ok l → u ∈ l → cnt u ≤ rcount (key u) l.
Proof.
  intros [_ Hok] Hu.
  assert (Forall (λ v, 0 ≤ if key v =? key u then cnt v else 0) l) as H.
  { eapply Forall_impl; [exact Hok|]. intros v Hv; simpl in *. destruct (_ =? _); lia. }
  pose proof (lsum_elem _ _ _ H Hu) as Hle. simpl in Hle. by rewrite Z.eqb_refl in Hle.
Qed.

Lemma rlist_ok_app_cons pre u post :
  rlist_ok (pre ++ u :: post) →
  1 ≤ cnt u ∧ rlist_ok (pre ++ post) ∧ key u ∉ key <$> pre ++ post.
Proof.
  intros [Hnd Hok]. rewrite fmap_app, fmap_cons, NoDup_app, NoDup_cons in Hnd.
  rewrite Forall_app, Forall_cons in Hok. destruct Hok as (?&?&?). split; [done|]. split.
  - split; [rewrite fmap_app, NoDup_app; set_solver|by apply Forall_app].
  - rewrite fmap_app, elem_of_app. set_solver.
Qed.

Lemma rlist_ok_insert pre u post :
  rlist_ok (pre ++ post) → 1 ≤ cnt u → key u ∉ key <$> pre ++ post →
  rlist_ok (pre ++ u :: post).
Proof.
  intros [Hnd Hok] Hu Hn. rewrite fmap_app, elem_of_app in Hn. rewrite fmap_app, NoDup_app in Hnd.
  rewrite Forall_app in Hok. split.
  - rewrite fmap_app, fmap_cons, NoDup_app, NoDup_cons. set_solver.
  - rewrite Forall_app, Forall_cons. tauto.
Qed.

Lemma rtotal_insert m s l p :
  rtotal key cnt (<[s := l]> m) p = rtotal key cnt m p - rcount p (default [] (m !! s)) + rcount p l.
Proof. unfold rtotal. rewrite gsum_insert. destruct (m !! s); simpl; [lia|]. change (rcount p []) with 0. lia. Qed.

Lemma rcount_le_total m s p :
  (∀ s l, m !! s = Some l → rlist_ok l) → rcount p (default [] (m !! s)) ≤ rtotal key cnt m p.
Proof.
  intros H. assert (∀ k x, m !! k = Some x → 0 ≤ rcount p x) as Hn.
  { intros k x Hx. eapply rcount_nonneg, H, Hx. }
  unfold rtotal. destruct (m !! s) eqn:E; simpl.
  - by apply (gsum_elem (rcount p) m s).
  - by apply gsum_nonneg.
Qed.
End reflist_lemmas.

(** * Integer facts *)

Lemma u32_small x : 0 ≤ x < 2 ^ 32 → u32 x = x.
Proof. intros; unfold u32. by apply Z.mod_small. Qed.

Lemma u32_range x : 0 ≤ u32 x < 2 ^ 32.
Proof. unfold u32. by apply Z.mod_pos_bound. Qed.

Lemma u64_small x : 0 ≤ x < 2 ^ 64 → u64 x = x.
Proof. intros; unfold u64. by apply Z.mod_small. Qed.

Lemma u64_range x : 0 ≤ u64 x < 2 ^ 64.
Proof. unfold u64. by apply Z.mod_pos_bound. Qed.

Lemma u16_small x : 0 ≤ x < 2 ^ 16 → u16 x = x.
Proof. intros; unfold u16. by apply Z.mod_small. Qed.

(** [if (RT_SUCCESS(rc)) rc = next;] *)
Lemma RT_SUCCESS_seq rc next :
  RT_SUCCESS (if RT_SUCCESS rc then next else rc) = true →
  RT_SUCCESS rc = true ∧ RT_SUCCESS next = true.
Proof. destruct (RT_SUCCESS rc) eqn:E; [done|]. congruence. Qed.

(** [if (RT_FAILURE(rc)) return rc;] *)
Lemma RT_FAILURE_seq rc next :
  RT_FAILURE (if RT_FAILURE rc then rc else next) = false →
  RT_FAILURE rc = false ∧ RT_FAILURE next = false.
Proof. destruct (RT_FAILURE rc) eqn:E; [congruence|done]. Qed.

Lemma RT_FAILURE_negb rc : RT_FAILURE rc = negb (RT_SUCCESS rc).
Proof. unfold RT_FAILURE, RT_SUCCESS. destruct (Z.ltb_spec rc 0), (Z.leb_spec 0 rc); simpl; lia. Qed.

Lemma RT_FAILURE_SUCCESS rc : RT_FAILURE rc = true → RT_SUCCESS rc = false.
Proof. rewrite RT_FAILURE_negb. apply negb_true_iff. Qed.

(** * Automation *)

Create HintDb sup discriminated.
#[export] Hint Constants Opaque : sup.
#[export] Hint Resolve u32_range u64_range NoDup_list_unlink : sup.

Create Rewrite HintDb supint.
#[export] Hint Rewrite u32_small u64_small u16_small using lia : supint.

(** Case analysis on the boolean tests of the code, turning the integer
    comparisons into facts [lia] can use. *)
Ltac zbool :=
  repeat match goal with
  | H : _ && _ = true |- _ => apply andb_true_iff in H as [? ?]
  | H : _ && _ = false |- _ => apply andb_false_iff in H
  | H : _ || _ = true |- _ => apply orb_true_iff in H
  | H : _ || _ = false |- _ => apply orb_false_iff in H as [? ?]
  | H : negb _ = true |- _ => apply negb_true_iff in H
  | H : negb _ = false |- _ => apply negb_false_iff in H
  | H : (_ =? _) = true |- _ => apply Z.eqb_eq in H
  | H : (_ =? _) = false |- _ => apply Z.eqb_neq in H
  | H : (_ <? _) = true |- _ => apply Z.ltb_lt in H
  | H : (_ <? _) = false |- _ => apply Z.ltb_ge in H
  | H : (_ <=? _) = true |- _ => apply Z.leb_le in H
  | H : (_ <=? _) = false |- _ => apply Z.leb_gt in H
  end.

(** Split on the next [if] or [match] of the goal. *)
Ltac step_if :=
  match goal with
  | |- context [if ?b then _ else _] => let E := fresh "E" in destruct b eqn:E
  end.

(** The same in a hypothesis, as the code's early returns are taken apart. *)
Ltac step_in H :=
  match type of H with
  | context [if ?b then _ else _] => let E := fresh "E" in destruct b eqn:E
  | context [match ?b with _ => _ end] => let E := fresh "E" in destruct b eqn:E
  end.

Lemma bind_ext_in {A B} (f g : A → list B) (l : list A) :
  (∀ x, x ∈ l → f x = g x) → l ≫= f = l ≫= g.
Proof.
  induction l as [|x l IH]; intros H; [done|]. rewrite !bind_cons, (H x) by set_solver.
  f_equal. apply IH. intros; apply H; set_solver.
Qed.

Lemma filter_all {A} (P : A → Prop) `{∀ x, Decision (P x)} (l : list A) :
  Forall P l → filter P l = l.
Proof.
  induction 1 as [|x l Hx Hl IH]; [done|]. rewrite filter_cons. case_decide; [|done]. by f_equal.
Qed.

(** A decidable property of a finite range, checked by evaluation. *)
Lemma forallb_seqZ (P : Z → bool) n :
  forallb P (seqZ 0 n) = true → ∀ r, 0 ≤ r < n → P r = true.
Proof.
  intros H r Hr. rewrite forallb_forall in H. apply H, list_elem_of_In, elem_of_seqZ. lia.
Qed.

Lemma list_alter_as_insert {A} (f : A → A) (l : list A) i x :
  l !! i = Some x → alter f i l = <[i := f x]> l.
Proof.
  revert i. induction l as [|y l IH]; intros [|i] Hi; simplify_eq/=; [done|]. f_equal. by apply IH.
Qed.
