(* ===== verification/SupTypes.v ===== *)
(** What every component of the support driver sees of a session: the members of
    [SUPDRVSESSION] that identify it (SUPDrvInternal.h), the cookies, and
    [SUP_IS_SESSION_VALID].  The members that belong to one component only (the object
    usage list, the memory bundles, the loader usage list, the GIP members) live in that
    component's state, keyed by the address of the session. *)

From S2P Require Import Prelude.
Local Open Scope Z_scope.

(** ['bird'] and ['drib'] *)
Definition BIRD : Z := 0x64726962.
Definition BIRD_INV : Z := 0x62697264.

Definition NIL_RTUID : Z := 2 ^ 32 - 1.
Definition NIL_RTGID : Z := 2 ^ 32 - 1.
Definition NIL_RTPROCESS : Z := 2 ^ 32 - 1.
Definition NIL_RTR0PROCESS : Z := 2 ^ 64 - 1.
Definition NIL_RTR0MEMOBJ : Z := 0.
Definition NIL_RTHCPHYS : Z := 2 ^ 64 - 1.
Definition NIL_RTCPUID : Z := 2 ^ 32 - 1.
Definition NIL_RTR3PTR : ptr := 0.
Definition NIL_RTR0PTR : ptr := 0.

(** [(RTR3PTR)-1], [(void * )-1]: any address will do. *)
Definition PTR_ANY : ptr := 2 ^ 64 - 1.

Definition RTMEM_PROT_NONE : Z := 0.
Definition RTMEM_PROT_READ : Z := 1.
Definition RTMEM_PROT_WRITE : Z := 2.
Definition RTMEM_PROT_EXEC : Z := 4.

(** The identity of a session. [s_self] is the address of the structure, the value the
    driver's entry points take as [pSession]. *)
Record SUPDRVSESSION := mkSession {
  s_self : ptr;
  s_u32Cookie : Z;
  s_pVM : ptr;
  s_hHandleTable : ptr;
  s_Uid : Z;
  s_Gid : Z;
  s_Process : Z;
  s_R0Process : Z;
}.

Definition SUP_IS_SESSION_VALID (pSession : SUPDRVSESSION) : bool :=
  VALID_PTR (s_self pSession) && (s_u32Cookie pSession =? BIRD_INV).
