(* ===== verification/ObjReg.v ===== *)
(** The object registry of SUPDrv.c: [SUPR0ObjRegister], [SUPR0ObjAddRef(Ex)],
    [SUPR0ObjRelease], [SUPR0ObjVerifyAccess] and the object part of
    [supdrvCleanupSession].

    State: the [SUPDRVOBJ] structures in memory ([o_heap]), the device extension's lists
    [pObjs] and [pUsageFree], and each session's list [pUsage].  A linked list is the list
    of the addresses its [pNext] members visit.  Every definition is one run of the C
    function; where the C function drops the spinlock, to allocate or, in the cleanup, to
    destroy an object, the argument [others] says what the other threads did to the registry
    in that window.  [obj_step] has the sections under the spinlock, and the destructions
    outside of it, as steps of their own. *)

From S2P Require Import Prelude SupTypes.
Local Open Scope Z_scope.

(** * Data *)

Definition SUPDRVOBJ_MAGIC : Z := 0x18900915.
Definition SUPDRVOBJ_MAGIC_DEAD : Z := 0x19760112.

Definition SUPDRVOBJTYPE_INVALID : Z := 0.
Definition SUPDRVOBJTYPE_SEM_EVENT : Z := 4.
Definition SUPDRVOBJTYPE_SEM_EVENT_MULTI : Z := 5.
Definition SUPDRVOBJTYPE_END : Z := 7.

Record SUPDRVOBJ := mkObj {
  obj_u32Magic : Z;
  obj_enmType : Z;
  obj_pfnDestructor : ptr;
  obj_pvUser1 : ptr;
  obj_pvUser2 : ptr;
  obj_cUsage : Z;
  obj_CreatorUid : Z;
  obj_CreatorGid : Z;
  obj_CreatorProcess : Z;
}.

(** A per-session usage record; [us_self] is its address. *)
Record SUPDRVUSAGE := mkUsage {
  us_self : ptr;
  us_pObj : ptr;
  us_cUsage : Z;
}.

Record ObjState := mkObjState {
  o_heap : gmap Z SUPDRVOBJ;
  pObjs : list ptr;
  pUsageFree : list ptr;
  pUsage : gmap Z (list SUPDRVUSAGE);
}.

Definition obj_init : ObjState := mkObjState ∅ [] [] ∅.

Definition set_magic (m : Z) (o : SUPDRVOBJ) : SUPDRVOBJ :=
  mkObj m (obj_enmType o) (obj_pfnDestructor o) (obj_pvUser1 o) (obj_pvUser2 o)
    (obj_cUsage o) (obj_CreatorUid o) (obj_CreatorGid o) (obj_CreatorProcess o).

Definition set_objUsage (n : Z) (o : SUPDRVOBJ) : SUPDRVOBJ :=
  mkObj (obj_u32Magic o) (obj_enmType o) (obj_pfnDestructor o) (obj_pvUser1 o)
    (obj_pvUser2 o) n (obj_CreatorUid o) (obj_CreatorGid o) (obj_CreatorProcess o).

Definition set_destructor (f : ptr) (o : SUPDRVOBJ) : SUPDRVOBJ :=
  mkObj (obj_u32Magic o) (obj_enmType o) f (obj_pvUser1 o)
    (obj_pvUser2 o) (obj_cUsage o) (obj_CreatorUid o) (obj_CreatorGid o)
    (obj_CreatorProcess o).

Definition set_usUsage (n : Z) (u : SUPDRVUSAGE) : SUPDRVUSAGE :=
  mkUsage (us_self u) (us_pObj u) n.

(** The usage list of the session at [s]. *)
Definition sess_usage (st : ObjState) (s : ptr) : list SUPDRVUSAGE :=
  default [] (pUsage st !! s).

Definition set_heap (h : gmap Z SUPDRVOBJ) (st : ObjState) : ObjState :=
  mkObjState h (pObjs st) (pUsageFree st) (pUsage st).
Definition set_pObjs (l : list ptr) (st : ObjState) : ObjState :=
  mkObjState (o_heap st) l (pUsageFree st) (pUsage st).
Definition set_pUsageFree (l : list ptr) (st : ObjState) : ObjState :=
  mkObjState (o_heap st) (pObjs st) l (pUsage st).
Definition set_pUsage (s : ptr) (l : list SUPDRVUSAGE) (st : ObjState) : ObjState :=
  mkObjState (o_heap st) (pObjs st) (pUsageFree st) (<[s := l]> (pUsage st)).
Definition upd_obj (p : ptr) (f : SUPDRVOBJ → SUPDRVOBJ) (st : ObjState) : ObjState :=
  set_heap (alter f p (o_heap st)) st.

(** * Operations *)

(** [supdrvOSObjInitCreator] of the Linux host does nothing. *)
Definition supdrvOSObjInitCreator (o : SUPDRVOBJ) (pSession : SUPDRVSESSION) : SUPDRVOBJ := o.

(** [supdrvOSObjCanAccess] of the Linux host: no decision. *)
Definition supdrvOSObjCanAccess (o : SUPDRVOBJ) (pSession : SUPDRVSESSION) : option Z := None.

(** The last part of [SUPR0ObjRegister], under the spinlock: link the object and the
    session's usage record of it. *)
Definition ObjRegister_insert (st : ObjState) (pSession : SUPDRVSESSION) (pObj : ptr)
    (obj : SUPDRVOBJ) (pUsage : ptr) : ObjState :=
  let st := set_heap (<[pObj := obj]> (o_heap st)) st in
  let st := set_pObjs (pObj :: pObjs st) st in
  set_pUsage (s_self pSession) (mkUsage pUsage pObj 1 :: sess_usage st (s_self pSession)) st.

(** [rObj] and [rUsage] are what [RTMemAlloc] returns for the object and, when
    [pUsageFree] is empty, for the usage record. *)
Definition SUPR0ObjRegister (st : ObjState) (pSession : SUPDRVSESSION)
    (enmType pfnDestructor pvUser1 pvUser2 : Z) (rObj rUsage : option ptr)
    (others : ObjState → ObjState) : ptr * ObjState * list event :=
  if negb (SUP_IS_SESSION_VALID pSession) then (NULL, st, [])
  else if negb ((SUPDRVOBJTYPE_INVALID <? enmType) && (enmType <? SUPDRVOBJTYPE_END))
  then (NULL, st, [])
  else if negb (VALID_PTR pfnDestructor) then (NULL, st, [])
  else
    match rObj with
    | None => (NULL, st, [])
    | Some pObj =>
        let obj := supdrvOSObjInitCreator
                     (mkObj SUPDRVOBJ_MAGIC enmType pfnDestructor pvUser1 pvUser2 1
                        (s_Uid pSession) (s_Gid pSession) (s_Process pSession)) pSession in
        match pUsageFree st with
        | pUsage :: pNext =>
            (pObj, ObjRegister_insert (set_pUsageFree pNext st) pSession pObj obj pUsage, [])
        | [] =>
            (* the spinlock is released around the allocation *)
            match rUsage with
            | None => (NULL, others st, [EvMemFree pObj])
            | Some pUsage => (pObj, ObjRegister_insert (others st) pSession pObj obj pUsage, [])
            end
        end
    end.

(** The last part of [SUPR0ObjAddRefEx], under the spinlock: count the reference and put
    an unused preallocated record on the free list. *)
Definition ObjAddRef_commit (st : ObjState) (pSession : SUPDRVSESSION) (pObj : ptr)
    (pUsagePre : option ptr) : Z * ObjState :=
  let st := upd_obj pObj (λ o, set_objUsage (u32 (obj_cUsage o + 1)) o) st in
  let s := s_self pSession in
  match find_split (λ u, us_pObj u =? pObj) (sess_usage st s) with
  | Some (pre, u, post) =>
      let st := set_pUsage s (pre ++ set_usUsage (u32 (us_cUsage u + 1)) u :: post) st in
      match pUsagePre with
      | Some p => (VINF_SUCCESS, set_pUsageFree (p :: pUsageFree st) st)
      | None => (VINF_SUCCESS, st)
      end
  | None =>
      match pUsagePre with
      | Some p => (VINF_SUCCESS, set_pUsage s (mkUsage p pObj 1 :: sess_usage st s) st)
      | None =>
          (VERR_TRY_AGAIN, upd_obj pObj (λ o, set_objUsage (u32 (obj_cUsage o - 1)) o) st)
      end
  end.

(** An address with no [SUPDRVOBJ] behind it fails the magic check. *)
Definition obj_magic (st : ObjState) (p : ptr) : Z :=
  from_option obj_u32Magic 0 (o_heap st !! p).

Definition SUPR0ObjAddRefEx (st : ObjState) (pvObj : ptr) (pSession : SUPDRVSESSION)
    (fNoBlocking : bool) (rUsage : option ptr) (others : ObjState → ObjState)
    : Z * ObjState :=
  if negb (SUP_IS_SESSION_VALID pSession) then (VERR_INVALID_PARAMETER, st)
  else if negb (VALID_PTR pvObj) then (VERR_INVALID_POINTER, st)
  else if negb ((obj_magic st pvObj =? SUPDRVOBJ_MAGIC)
                || (obj_magic st pvObj =? SUPDRVOBJ_MAGIC_DEAD))
  then (VERR_INVALID_PARAMETER, st)
  else if negb (obj_magic st pvObj =? SUPDRVOBJ_MAGIC) then (VERR_WRONG_ORDER, st)
  else
    match pUsageFree st with
    | pUsagePre :: pNext =>
        ObjAddRef_commit (set_pUsageFree pNext st) pSession pvObj (Some pUsagePre)
    | [] =>
        if negb fNoBlocking then
          (* the spinlock is released around the allocation *)
          let st := others st in
          match rUsage with
          | None => (VERR_NO_MEMORY, st)
          | Some pUsagePre =>
              if negb (obj_magic st pvObj =? SUPDRVOBJ_MAGIC) then (VERR_WRONG_ORDER, st)
              else ObjAddRef_commit st pSession pvObj (Some pUsagePre)
          end
        else ObjAddRef_commit st pSession pvObj None
    end.

Definition SUPR0ObjAddRef (st : ObjState) (pvObj : ptr) (pSession : SUPDRVSESSION)
    (rUsage : option ptr) (others : ObjState → ObjState) : Z * ObjState :=
  SUPR0ObjAddRefEx st pvObj pSession false rUsage others.

(** The part of [SUPR0ObjRelease] under the spinlock. *)
Definition ObjRelease_locked (st : ObjState) (pObj : ptr) (pSession : SUPDRVSESSION)
    : Z * ObjState :=
  let s := s_self pSession in
  match find_split (λ u, us_pObj u =? pObj) (sess_usage st s) with
  | None => (VERR_INVALID_PARAMETER, st)
  | Some (pre, u, post) =>
      if 1 <? us_cUsage u then
        let st := upd_obj pObj (λ o, set_objUsage (u32 (obj_cUsage o - 1)) o) st in
        (VINF_SUCCESS, set_pUsage s (pre ++ set_usUsage (u32 (us_cUsage u - 1)) u :: post) st)
      else
        let st := set_pUsage s (pre ++ post) st in
        let st := set_pUsageFree (us_self u :: pUsageFree st) st in
        if 1 <? from_option obj_cUsage 0 (o_heap st !! pObj) then
          (VINF_SUCCESS, upd_obj pObj (λ o, set_objUsage (u32 (obj_cUsage o - 1)) o) st)
        else
          let st := upd_obj pObj (set_magic SUPDRVOBJ_MAGIC_DEAD) st in
          (VINF_OBJECT_DESTROYED, set_pObjs (list_unlink pObj (pObjs st)) st)
  end.

(** Calling the destructor and freeing the object, outside the spinlock. *)
Definition ObjDestroy (st : ObjState) (pObj : ptr) : ObjState * list event :=
  match o_heap st !! pObj with
  | None => (st, [])
  | Some o =>
      (set_heap (delete pObj (o_heap st)) st,
       (if negb (obj_pfnDestructor o =? NULL)
        then [EvDestructor (obj_pfnDestructor o) pObj (obj_pvUser1 o) (obj_pvUser2 o)]
        else []) ++ [EvMemFree pObj])
  end.

Definition SUPR0ObjRelease (st : ObjState) (pvObj : ptr) (pSession : SUPDRVSESSION)
    : Z * ObjState * list event :=
  if negb (SUP_IS_SESSION_VALID pSession) then (VERR_INVALID_PARAMETER, st, [])
  else if negb (VALID_PTR pvObj && (obj_magic st pvObj =? SUPDRVOBJ_MAGIC))
  then (VERR_INVALID_PARAMETER, st, [])
  else
    let '(rc, st) := ObjRelease_locked st pvObj pSession in
    if rc =? VINF_OBJECT_DESTROYED then
      let '(st, ev) := ObjDestroy st pvObj in (rc, st, ev)
    else (rc, st, []).

Definition SUPR0ObjVerifyAccess (st : ObjState) (pvObj : ptr) (pSession : SUPDRVSESSION) : Z :=
  if negb (SUP_IS_SESSION_VALID pSession) then VERR_INVALID_PARAMETER
  else
    match o_heap st !! pvObj with
    | Some o =>
        if negb (VALID_PTR pvObj && (obj_u32Magic o =? SUPDRVOBJ_MAGIC))
        then VERR_INVALID_PARAMETER
        else match supdrvOSObjCanAccess o pSession with
             | Some rc => rc
             | None =>
                 if obj_CreatorUid o =? s_Uid pSession then VINF_SUCCESS
                 else VERR_PERMISSION_DENIED
             end
    | None => VERR_INVALID_PARAMETER
    end.

(** One turn of the loop of [supdrvCleanupSession] that releases the object references
    of the session: the part under the spinlock pops the head of [pSession->pUsage] and
    says whether its object is to be destroyed.  (Here the object is not marked dead.) *)
Definition cleanup_usage_locked (st : ObjState) (s : ptr)
    : option (SUPDRVUSAGE * bool * ObjState) :=
  match sess_usage st s with
  | [] => None
  | u :: pNext =>
      let pObj := us_pObj u in
      let st := set_pUsage s pNext st in
      if us_cUsage u <? from_option obj_cUsage 0 (o_heap st !! pObj) then
        Some (u, false,
              upd_obj pObj (λ o, set_objUsage (u32 (obj_cUsage o - us_cUsage u)) o) st)
      else
        Some (u, true, set_pObjs (list_unlink pObj (pObjs st)) st)
  end.

(** The whole turn.  The spinlock is released before the object is destroyed and the
    usage record freed: [others] is what the other threads do to the registry then. *)
Definition cleanup_usage (st : ObjState) (s : ptr) (others : ObjState → ObjState)
    : option (ObjState * list event) :=
  match cleanup_usage_locked st s with
  | None => None
  | Some (u, fDestroy, st) =>
      (* the spinlock is released *)
      let st := others st in
      let '(st, ev) := if fDestroy : bool then ObjDestroy st (us_pObj u) else (st, []) in
      Some (st, ev ++ [EvMemFree (us_self u)])
  end.

(** The loop; [others] is given for every usage record.  The fuel is the length of the usage
    list: a turn removes one record, and no other thread works for a session that is being
    closed. *)
Fixpoint cleanup_usages (fuel : nat) (st : ObjState) (s : ptr) (others : ptr → ObjState → ObjState)
    : ObjState * list event :=
  match fuel with
  | O => (st, [])
  | S fuel =>
      match cleanup_usage st s (others (from_option us_self NULL (head (sess_usage st s)))) with
      | None => (st, [])
      | Some (st, ev) =>
          let '(st, ev') := cleanup_usages fuel st s others in (st, ev ++ ev')
      end
  end.

Definition supdrvCleanupSession_objs (st : ObjState) (s : ptr) (others : ptr → ObjState → ObjState)
    : ObjState * list event :=
  cleanup_usages (length (sess_usage st s)) st s others.

(** * Reference counts and the registry invariant *)

(** References to [p] recorded in one usage list, in the list of session [s], and in all
    the sessions together. *)
Definition sess_count (p : ptr) (us : list SUPDRVUSAGE) : Z :=
  lsum (λ u, if us_pObj u =? p then us_cUsage u else 0) us.
Definition sess_refs (st : ObjState) (s p : ptr) : Z := sess_count p (sess_usage st s).
Definition total (st : ObjState) (p : ptr) : Z := gsum (sess_count p) (pUsage st).

(** How many list nodes are the usage record at address [a]. *)
Definition slot_count (a : ptr) (us : list SUPDRVUSAGE) : Z :=
  lsum (λ u, if us_self u =? a then 1 else 0) us.
Definition occ (a : ptr) (l : list ptr) : Z := lsum (λ x, if x =? a then 1 else 0) l.
Definition slots (st : ObjState) (a : ptr) : Z :=
  occ a (pUsageFree st) + gsum (slot_count a) (pUsage st).

Definition us_ok (heap : gmap Z SUPDRVOBJ) (u : SUPDRVUSAGE) : Prop :=
  1 ≤ us_cUsage u ∧ is_Some (heap !! us_pObj u).

Definition us_list_ok (heap : gmap Z SUPDRVOBJ) (us : list SUPDRVUSAGE) : Prop :=
  NoDup (us_pObj <$> us) ∧ Forall (us_ok heap) us.

(** What one object in memory must satisfy: the count is the number of references the
    sessions hold, a dead object has none. *)
Definition obj_ok (n : Z) (o : SUPDRVOBJ) : Prop :=
  (obj_u32Magic o = SUPDRVOBJ_MAGIC ∧ obj_cUsage o = n ∧ 0 < n < 2 ^ 32)
  ∨ (obj_u32Magic o = SUPDRVOBJ_MAGIC_DEAD ∧ n = 0).

Record obj_inv (st : ObjState) : Prop := {
  oi_nodup : NoDup (pObjs st);
  oi_list p : p ∈ pObjs st ↔
                ∃ o, o_heap st !! p = Some o ∧ obj_u32Magic o = SUPDRVOBJ_MAGIC;
  oi_obj p o : o_heap st !! p = Some o → obj_ok (total st p) o;
  oi_sess s us : pUsage st !! s = Some us → us_list_ok (o_heap st) us;
  oi_slots a : slots st a ≤ 1;
}.

(** The registry between the spinlock's sections: the state, and the objects a session's
    cleanup has unlinked and will destroy, which are not marked dead. *)
Record reg_inv (st : ObjState) (doomed : list ptr) : Prop := {
  ri_nodup : NoDup (pObjs st);
  ri_list p : p ∈ pObjs st ↔
                ∃ o, o_heap st !! p = Some o ∧ obj_u32Magic o = SUPDRVOBJ_MAGIC ∧ p ∉ doomed;
  ri_obj p o : o_heap st !! p = Some o → p ∉ doomed → obj_ok (total st p) o;
  ri_doomed_nodup : NoDup doomed;
  ri_doomed p : p ∈ doomed →
    total st p = 0 ∧ ∃ o, o_heap st !! p = Some o ∧ obj_u32Magic o = SUPDRVOBJ_MAGIC;
  ri_sess s us : pUsage st !! s = Some us → us_list_ok (o_heap st) us;
  ri_slots a : slots st a ≤ 1;
}.

(** What a thread does to the registry under the spinlock, and the destruction of objects,
    which is done without it.  Where the C function drops the spinlock to allocate a usage
    record, what it does afterwards is a step of its own.  The side conditions are those of
    the allocator (a block not in use), that no count reaches [2^32], and that no thread
    takes a reference to an object that a cleanup has unlinked: nothing prevents it
    ([cleanup_window_addref]). *)
Inductive obj_step : ObjState * list ptr → ObjState * list ptr → Prop :=
| ostep_register st doomed pSession enmType pfn pv1 pv2 rObj rUsage :
    (∀ p, rObj = Some p → o_heap st !! p = None) →
    (∀ a, rUsage = Some a → slots st a = 0) →
    obj_step (st, doomed) ((SUPR0ObjRegister st pSession enmType pfn pv1 pv2 rObj rUsage id).1.2, doomed)
| ostep_register_insert st doomed pSession pObj obj a :
    o_heap st !! pObj = None → slots st a = 0 →
    obj_u32Magic obj = SUPDRVOBJ_MAGIC → obj_cUsage obj = 1 →
    obj_step (st, doomed) (ObjRegister_insert st pSession pObj obj a, doomed)
| ostep_addref st doomed pvObj pSession fNoBlocking rUsage :
    (∀ a, rUsage = Some a → slots st a = 0) →
    total st pvObj + 1 < 2 ^ 32 → pvObj ∉ doomed →
    obj_step (st, doomed) ((SUPR0ObjAddRefEx st pvObj pSession fNoBlocking rUsage id).2, doomed)
| ostep_addref_commit st doomed pvObj pSession a :
    obj_magic st pvObj = SUPDRVOBJ_MAGIC → slots st a = 0 →
    total st pvObj + 1 < 2 ^ 32 → pvObj ∉ doomed →
    obj_step (st, doomed) ((ObjAddRef_commit st pSession pvObj (Some a)).2, doomed)
| ostep_release st doomed pObj pSession :
    obj_magic st pObj = SUPDRVOBJ_MAGIC →
    obj_step (st, doomed) ((ObjRelease_locked st pObj pSession).2, doomed)
| ostep_destroy st doomed pObj :
    obj_magic st pObj = SUPDRVOBJ_MAGIC_DEAD →
    obj_step (st, doomed) ((ObjDestroy st pObj).1, doomed)
| ostep_unlink st doomed s u fDestroy st' :
    cleanup_usage_locked st s = Some (u, fDestroy, st') →
    obj_step (st, doomed) (st', if fDestroy : bool then us_pObj u :: doomed else doomed)
| ostep_destroy_unlinked st doomed pObj :
    pObj ∈ doomed →
    obj_step (st, doomed) ((ObjDestroy st pObj).1, list_unlink pObj doomed).

(** The abstract registry: how many references each session holds on each object, and
    what an operation does to it. *)
Definition bump (A : ptr → ptr → Z) (s p : ptr) (d : Z) : ptr → ptr → Z :=
  λ s' p', if decide (s' = s ∧ p' = p) then A s' p' + d else A s' p'.

(** The calls that destroying the object [o] at [p] makes. *)
Definition destroy_events (p : ptr) (o : SUPDRVOBJ) : list event :=
  (if negb (obj_pfnDestructor o =? NULL)
   then [EvDestructor (obj_pfnDestructor o) p (obj_pvUser1 o) (obj_pvUser2 o)] else [])
  ++ [EvMemFree p].

(** What cleaning up a session with the usage list [us] calls: the destructor of the
    objects it is the only user of, and [RTMemFree] of every usage record. *)
Definition cleanup_events (st : ObjState) (us : list SUPDRVUSAGE) : list event :=
  us ≫= λ u, (if total st (us_pObj u) =? us_cUsage u
              then from_option (destroy_events (us_pObj u)) [] (o_heap st !! us_pObj u)
              else []) ++ [EvMemFree (us_self u)].

(** What becomes of the object at [p] when session [s] goes away. *)
Definition cleanup_obj (st : ObjState) (s p : ptr) : option SUPDRVOBJ :=
  let r := sess_refs st s p in
  if r =? 0 then o_heap st !! p
  else if total st p =? r then None
  else set_objUsage (total st p - r) <$> o_heap st !! p.

(** The registry when an operation that may have to allocate a usage record goes on. *)
Definition after_window (st : ObjState) (others : ObjState → ObjState) : ObjState :=
  match pUsageFree st with [] => others st | _ => st end.

(** The object [SUPR0ObjRegister] creates. *)
Definition new_obj (pSession : SUPDRVSESSION) (enmType pfn pv1 pv2 : Z) : SUPDRVOBJ :=
  mkObj SUPDRVOBJ_MAGIC enmType pfn pv1 pv2 1
    (s_Uid pSession) (s_Gid pSession) (s_Process pSession).

(** The argument checks of [SUPR0ObjRegister]. *)
Definition register_args_ok (pSession : SUPDRVSESSION) (enmType pfn : Z) : bool :=
  SUP_IS_SESSION_VALID pSession
  && ((SUPDRVOBJTYPE_INVALID <? enmType) && (enmType <? SUPDRVOBJTYPE_END))
  && VALID_PTR pfn.

Definition obj_reach (x : ObjState * list ptr) : Prop := rtc obj_step (obj_init, []) x.

(** ** A concrete registry: two sessions, an event semaphore they share *)

Definition demo_session (self uid : Z) : SUPDRVSESSION :=
  mkSession self BIRD_INV 0 0x70000 uid uid 1234 1234.
Definition demoA : SUPDRVSESSION := demo_session 0x10000 1000.
Definition demoB : SUPDRVSESSION := demo_session 0x11000 1001.
Definition demo1 : ObjState :=
  (SUPR0ObjRegister obj_init demoA SUPDRVOBJTYPE_SEM_EVENT 0xa0000 7 8
     (Some 0x20000) (Some 0x30000) id).1.2.
Definition demo2 : ObjState :=
  (SUPR0ObjAddRefEx demo1 0x20000 demoB false (Some 0x31000) id).2.
(** Session B's reference was dropped again: its record is on the free list. *)
Definition demo3 : ObjState := (ObjRelease_locked demo2 0x20000 demoB).2.

(** * Lemmas on the counts *)

Lemma sess_count_app p l1 l2 : sess_count p (l1 ++ l2) = sess_count p l1 + sess_count p l2.
Proof. apply lsum_app. Qed.

Lemma sess_count_cons p u l :
  sess_count p (u :: l) = (if us_pObj u =? p then us_cUsage u else 0) + sess_count p l.
Proof. done. Qed.

Lemma slot_count_app p l1 l2 : slot_count p (l1 ++ l2) = slot_count p l1 + slot_count p l2.
Proof. apply lsum_app. Qed.

Lemma slot_count_cons p u l :
  slot_count p (u :: l) = (if us_self u =? p then 1 else 0) + slot_count p l.
Proof. done. Qed.

Lemma occ_cons a x l : occ a (x :: l) = (if x =? a then 1 else 0) + occ a l.
Proof. done. Qed.

#[global] Arguments sess_count : simpl never.
#[global] Arguments slot_count : simpl never.
#[global] Arguments occ : simpl never.

Create Rewrite HintDb objcount.
#[export] Hint Rewrite sess_count_app sess_count_cons slot_count_app slot_count_cons
  occ_cons : objcount.

Lemma sess_count_notin p l : Forall (λ u, (us_pObj u =? p) = false) l → sess_count p l = 0.
Proof. intros H. apply lsum_zero. eapply Forall_impl; [exact H|]. by intros u ->. Qed.

Lemma sess_count_notin' p l : p ∉ us_pObj <$> l → sess_count p l = 0.
Proof.
  intros H. apply sess_count_notin, Forall_forall. intros u Hu. apply Z.eqb_neq.
  intros <-. apply H, list_elem_of_fmap. eauto.
Qed.

Lemma sess_count_nonneg h p l : us_list_ok h l → 0 ≤ sess_count p l.
Proof.
  intros [_ H]. apply lsum_nonneg. eapply Forall_impl; [exact H|]. intros u [? _].
  destruct (_ =? _); lia.
Qed.

Lemma slot_count_nonneg a l : 0 ≤ slot_count a l.
Proof. apply lsum_nonneg, Forall_true. intros u. destruct (_ =? _); lia. Qed.

Lemma occ_nonneg a l : 0 ≤ occ a l.
Proof. apply lsum_nonneg, Forall_true. intros u. destruct (_ =? _); lia. Qed.

Lemma total_set_pUsage st s l p :
  total (set_pUsage s l st) p = total st p - sess_refs st s p + sess_count p l.
Proof.
  unfold total, sess_refs, sess_usage; simpl. rewrite gsum_insert.
  destruct (pUsage st !! s); simpl; [lia|]. change (sess_count p []) with 0. lia.
Qed.

(** The number of all references is determined by the sessions' ones. *)
Lemma total_bump st st' s p d :
  (∀ s' q, sess_refs st' s' q = bump (sess_refs st) s p d s' q) → total st' p = total st p + d.
Proof.
  intros H. assert (E : total st' p = total (set_pUsage s (sess_usage st' s) st) p).
  - unfold total. apply gsum_ext. intros k. simpl.
    assert (Hd : ∀ o k, from_option (sess_count p) 0 (pUsage o !! k) = sess_refs o k p)
      by (intros o k'; unfold sess_refs, sess_usage; by destruct (pUsage o !! k')).
    rewrite Hd. destruct (decide (k = s)) as [->|Hne]; [by rewrite lookup_insert_eq|].
    rewrite lookup_insert_ne, Hd, H by done. unfold bump. destruct (decide _) as [[? _]|]; [done|lia].
  - rewrite E, total_set_pUsage. fold (sess_refs st' s p). rewrite H. unfold bump.
    rewrite decide_True by done. lia.
Qed.

Lemma slots_set st s l h os free a :
  slots (mkObjState h os free (<[s := l]> (pUsage st))) a =
  slots st a - occ a (pUsageFree st) + occ a free
  - slot_count a (sess_usage st s) + slot_count a l.
Proof.
  unfold slots, sess_usage; simpl. rewrite gsum_insert.
  destruct (pUsage st !! s); simpl; [lia|]. change (slot_count a []) with 0. lia.
Qed.

Lemma sess_usage_insert st h os f s l s' :
  sess_usage (mkObjState h os f (<[s := l]> (pUsage st))) s' =
  if decide (s' = s) then l else sess_usage st s'.
Proof.
  unfold sess_usage; simpl. destruct (decide (s' = s)) as [->|].
  - by rewrite lookup_insert_eq.
  - by rewrite lookup_insert_ne by done.
Qed.

Lemma alter_to_insert {V} (m : gmap Z V) k f x : m !! k = Some x → alter f k m = <[k := f x]> m.
Proof.
  intros H. apply map_eq. intros i. destruct (decide (i = k)) as [->|].
  - by rewrite lookup_alter_eq, lookup_insert_eq, H.
  - by rewrite lookup_alter_ne, lookup_insert_ne by done.
Qed.

(** * Consequences of the invariant *)

Section inv.
Context (st : ObjState) (Hinv : obj_inv st).

Lemma inv_sess s : us_list_ok (o_heap st) (sess_usage st s).
Proof.
  unfold sess_usage. destruct (pUsage st !! s) eqn:E; simpl.
  - by eapply oi_sess.
  - split; constructor.
Qed.

Lemma sess_refs_nonneg s p : 0 ≤ sess_refs st s p.
Proof. eapply sess_count_nonneg, inv_sess. Qed.

Lemma sess_refs_le_total s p : sess_refs st s p ≤ total st p.
Proof.
  assert (∀ k x, pUsage st !! k = Some x → 0 ≤ sess_count p x) as H.
  { intros k x Hx. eapply sess_count_nonneg, oi_sess; eauto. }
  unfold sess_refs, sess_usage, total. destruct (pUsage st !! s) eqn:E; simpl.
  - by apply (gsum_elem (sess_count p) (pUsage st) s).
  - by apply gsum_nonneg.
Qed.

(** An address outside the heap has no references. *)
Lemma inv_no_refs p : o_heap st !! p = None → total st p = 0.
Proof.
  intros Hp. apply gsum_zero. intros s us Hs. apply sess_count_notin, Forall_forall.
  intros u Hu. apply Z.eqb_neq. intros <-. destruct (oi_sess _ Hinv s us Hs) as [_ H].
  rewrite Forall_forall in H. destruct (H u Hu) as [_ [? Heq]]. congruence.
Qed.

(** A referenced object is in memory, alive, and in [pObjs]. *)
Lemma inv_refs p :
  0 < total st p →
  ∃ o, o_heap st !! p = Some o ∧ obj_u32Magic o = SUPDRVOBJ_MAGIC ∧
       obj_cUsage o = total st p ∧ total st p < 2 ^ 32 ∧ p ∈ pObjs st.
Proof.
  intros H. destruct (o_heap st !! p) as [o|] eqn:E.
  - destruct (oi_obj _ Hinv p o E) as [(?&?&?)|(?&?)]; [|lia].
    exists o. repeat split; [done|done|lia|]. apply oi_list; eauto.
  - rewrite inv_no_refs in H; [lia|done].
Qed.

Lemma slots_member s u : u ∈ sess_usage st s → slots st (us_self u) = 1.
Proof.
  intros Hu. pose proof (oi_slots _ Hinv (us_self u)) as H.
  assert (1 ≤ slot_count (us_self u) (sess_usage st s)) as H1.
  { unfold slot_count.
    assert ((λ v, if us_self v =? us_self u then 1 else 0) u ≤
            lsum (λ v, if us_self v =? us_self u then 1 else 0) (sess_usage st s)) as Hle.
    { apply (lsum_elem (λ v, if us_self v =? us_self u then 1 else 0) _ u); [|done].
      apply Forall_true. intros v. destruct (_ =? _); lia. }
    simpl in Hle. by rewrite Z.eqb_refl in Hle. }
  assert (slot_count (us_self u) (sess_usage st s) ≤ gsum (slot_count (us_self u)) (pUsage st)).
  { unfold sess_usage in *. destruct (pUsage st !! s) eqn:E; simpl in *; [|set_solver].
    apply (gsum_elem (slot_count (us_self u)) (pUsage st) s); [|done].
    intros; apply slot_count_nonneg. }
  unfold slots in *. pose proof (occ_nonneg (us_self u) (pUsageFree st)). lia.
Qed.

Lemma inv_find s p pre u post :
  find_split (λ u, us_pObj u =? p) (sess_usage st s) = Some (pre, u, post) →
  sess_usage st s = pre ++ u :: post ∧ us_pObj u = p ∧ sess_refs st s p = us_cUsage u ∧
  1 ≤ us_cUsage u ∧ sess_count p pre = 0 ∧ sess_count p post = 0 ∧ p ∉ us_pObj <$> pre ++ post.
Proof.
  intros (Hl&Hu&Hpre)%find_split_Some. apply Z.eqb_eq in Hu.
  destruct (inv_sess s) as [Hnd Hok]. unfold sess_refs. rewrite Hl in *.
  rewrite Forall_app, Forall_cons in Hok. destruct Hok as (_&[? _]&_).
  rewrite fmap_app, fmap_cons, Hu in Hnd.
  assert (p ∉ us_pObj <$> pre ++ post) as Hn.
  { rewrite fmap_app. rewrite NoDup_app, NoDup_cons in Hnd. set_solver. }
  rewrite fmap_app, elem_of_app in Hn.
  assert (sess_count p pre = 0) by (apply sess_count_notin'; tauto).
  assert (sess_count p post = 0) by (apply sess_count_notin'; tauto).
  autorewrite with objcount. rewrite Hu, Z.eqb_refl. repeat split; try done; [lia|].
  rewrite fmap_app, elem_of_app. tauto.
Qed.

Lemma inv_find_None s p :
  find_split (λ u, us_pObj u =? p) (sess_usage st s) = None →
  sess_refs st s p = 0 ∧ p ∉ us_pObj <$> sess_usage st s.
Proof.
  intros H%find_split_None. split; [by apply sess_count_notin|].
  rewrite list_elem_of_fmap. intros (u&->&Hu). rewrite Forall_forall in H.
  specialize (H u Hu). simpl in H. by rewrite Z.eqb_refl in H.
Qed.

(** Replacing one session's usage list, the free list and the count of one object. *)
Lemma inv_move s p o l' free' n :
  o_heap st !! p = Some o → obj_u32Magic o = SUPDRVOBJ_MAGIC →
  (∀ q, q ≠ p → sess_count q l' = sess_refs st s q) →
  us_list_ok (o_heap st) l' →
  n = obj_cUsage o + sess_count p l' - sess_refs st s p → 0 < n < 2 ^ 32 →
  (∀ a, slots st a - occ a (pUsageFree st) + occ a free'
        - slot_count a (sess_usage st s) + slot_count a l' ≤ 1) →
  obj_inv (mkObjState (<[p := set_objUsage n o]> (o_heap st)) (pObjs st) free'
             (<[s := l']> (pUsage st))).
Proof.
  intros Hp Hm Hq [Hnd Hok] Hn Hb Hs.
  assert (∀ u, us_ok (o_heap st) u → us_ok (<[p := set_objUsage n o]> (o_heap st)) u) as Hmono.
  { intros u [? [x Hx]]. split; [done|]. destruct (decide (us_pObj u = p)) as [->|].
    - rewrite lookup_insert_eq. eauto.
    - rewrite lookup_insert_ne by done. eauto. }
  pose proof (total_set_pUsage st s l') as Htot. unfold total in Htot; simpl in Htot.
  constructor; simpl.
  - apply oi_nodup, Hinv.
  - intros q. rewrite oi_list by done. destruct (decide (q = p)) as [->|].
    + rewrite lookup_insert_eq. split; intros _; eauto 10.
    + rewrite lookup_insert_ne by done. done.
  - intros q o'. unfold total; simpl. rewrite Htot. destruct (decide (q = p)) as [->|].
    + rewrite lookup_insert_eq. intros [= <-].
      destruct (oi_obj _ Hinv p o Hp) as [(_&?&?)|[Hd _]]; [|by rewrite Hm in Hd].
      left. unfold total in *. simpl. split_and!; [done|lia|lia|lia].
    + rewrite lookup_insert_ne, Hq by done. intros Ho.
      pose proof (oi_obj _ Hinv q o' Ho). unfold total in *.
      replace (_ - _ + _) with (gsum (sess_count q) (pUsage st)) by lia. done.
  - intros s' us. destruct (decide (s' = s)) as [->|].
    + rewrite lookup_insert_eq. intros [= <-]. split; [done|]. eapply Forall_impl; eauto.
    + rewrite lookup_insert_ne by done. intros Hus.
      destruct (oi_sess _ Hinv s' us Hus). split; [done|]. eapply Forall_impl; eauto.
  - intros a. rewrite slots_set. apply Hs.
Qed.

Lemma inv_pop_free p free :
  pUsageFree st = p :: free →
  obj_inv (set_pUsageFree free st) ∧ slots (set_pUsageFree free st) p = 0.
Proof.
  intros Hf. pose proof (oi_slots _ Hinv) as Hs. split.
  - constructor; try apply Hinv. intros a. specialize (Hs a).
    unfold slots in *; simpl in *. rewrite Hf in Hs. autorewrite with objcount in Hs.
    destruct (_ =? _); lia.
  - specialize (Hs p). unfold slots in *; simpl in *. rewrite Hf in Hs.
    autorewrite with objcount in Hs. rewrite Z.eqb_refl in Hs.
    pose proof (occ_nonneg p free).
    assert (0 ≤ gsum (slot_count p) (pUsage st)); [|lia].
    apply gsum_nonneg. intros; apply slot_count_nonneg.
Qed.
End inv.

Lemma obj_magic_lookup st p :
  obj_magic st p = SUPDRVOBJ_MAGIC →
  ∃ o, o_heap st !! p = Some o ∧ obj_u32Magic o = SUPDRVOBJ_MAGIC.
Proof.
  unfold obj_magic. destruct (o_heap st !! p) as [o|]; simpl; [eauto|done].
Qed.

Lemma us_list_ok_replace h pre u post n :
  us_list_ok h (pre ++ u :: post) → 1 ≤ n → us_list_ok h (pre ++ set_usUsage n u :: post).
Proof.
  intros [Hnd Hok] Hn. split.
  - by rewrite fmap_app, fmap_cons in *.
  - rewrite Forall_app, Forall_cons in *. destruct Hok as (?&[? ?]&?).
    split_and!; [done| |done]. by split.
Qed.

Lemma us_list_ok_remove h pre u post :
  us_list_ok h (pre ++ u :: post) → us_list_ok h (pre ++ post).
Proof.
  intros [Hnd Hok]. split.
  - rewrite fmap_app, ?fmap_cons in *. rewrite NoDup_app, NoDup_cons in *. set_solver.
  - rewrite Forall_app, ?Forall_cons in *. tauto.
Qed.

Lemma us_list_ok_cons h u l :
  us_list_ok h l → us_ok h u → us_pObj u ∉ us_pObj <$> l → us_list_ok h (u :: l).
Proof.
  intros [Hnd Hok] Hu Hn. split; [|by constructor]. rewrite fmap_cons. by constructor.
Qed.

(** The references after an update of one session's list. *)
Lemma sess_refs_insert st h os f s l s' q :
  sess_refs (mkObjState h os f (<[s := l]> (pUsage st))) s' q =
  if decide (s' = s) then sess_count q l else sess_refs st s' q.
Proof. unfold sess_refs. rewrite sess_usage_insert. by destruct (decide _). Qed.

Lemma bump_insert st h os f s l p d :
  (∀ q, sess_count q l = sess_refs st s q + if q =? p then d else 0) →
  ∀ s' q, sess_refs (mkObjState h os f (<[s := l]> (pUsage st))) s' q
          = bump (sess_refs st) s p d s' q.
Proof.
  intros H s' q. rewrite sess_refs_insert. unfold bump. destruct (decide (s' = s)) as [->|].
  - rewrite H. destruct (Z.eqb_spec q p); destruct (decide _); try lia; naive_solver.
  - destruct (decide _); naive_solver.
Qed.

Lemma sess_count_set q pre u post n :
  sess_count q (pre ++ set_usUsage n u :: post) =
  sess_count q (pre ++ u :: post) + if q =? us_pObj u then n - us_cUsage u else 0.
Proof.
  autorewrite with objcount. simpl. destruct (Z.eqb_spec (us_pObj u) q), (Z.eqb_spec q (us_pObj u)); lia.
Qed.

Lemma sess_count_remove q pre u post :
  sess_count q (pre ++ post) =
  sess_count q (pre ++ u :: post) + if q =? us_pObj u then - us_cUsage u else 0.
Proof.
  autorewrite with objcount. destruct (Z.eqb_spec (us_pObj u) q), (Z.eqb_spec q (us_pObj u)); lia.
Qed.

Lemma slot_count_set a pre u post n :
  slot_count a (pre ++ set_usUsage n u :: post) = slot_count a (pre ++ u :: post).
Proof. by autorewrite with objcount. Qed.

Lemma slot_count_remove a pre u post :
  slot_count a (pre ++ post) =
  slot_count a (pre ++ u :: post) - if us_self u =? a then 1 else 0.
Proof. autorewrite with objcount. lia. Qed.

(** ** The common update

    Replacing one session's list and the free list and adding [d] to the count of one
    live object: what adding a reference, dropping one of several and cleaning up a session do. *)

Definition move_refs (st : ObjState) (s p : ptr) (l : list SUPDRVUSAGE) (free : list ptr)
    (d : Z) : ObjState :=
  mkObjState (alter (λ o, set_objUsage (u32 (obj_cUsage o + d)) o) p (o_heap st))
    (pObjs st) free (<[s := l]> (pUsage st)).

Definition same_objs (st st' : ObjState) : Prop :=
  pObjs st' = pObjs st ∧ dom (o_heap st') = dom (o_heap st).

Lemma move_spec st s p l free d :
  obj_inv st → obj_magic st p = SUPDRVOBJ_MAGIC →
  (∀ q, sess_count q l = sess_refs st s q + if q =? p then d else 0) →
  us_list_ok (o_heap st) l → 0 < total st p + d < 2 ^ 32 →
  (∀ a, slots st a - occ a (pUsageFree st) + occ a free
        - slot_count a (sess_usage st s) + slot_count a l ≤ 1) →
  let st' := move_refs st s p l free d in
  obj_inv st' ∧ same_objs st st' ∧ ∀ s' q, sess_refs st' s' q = bump (sess_refs st) s p d s' q.
Proof.
  intros Hinv (o&Hp&Hm)%obj_magic_lookup Hl Hok Hb Hs; simpl. unfold move_refs.
  destruct (oi_obj _ Hinv p o Hp) as [(_&Hc&_)|[Hd _]]; [|by rewrite Hm in Hd].
  rewrite (alter_to_insert _ _ _ _ Hp). split_and!.
  - apply inv_move; try done.
    + intros q Hq. rewrite Hl. rewrite (proj2 (Z.eqb_neq q p) Hq). lia.
    + rewrite u32_small by lia. rewrite Hl, Z.eqb_refl. lia.
    + rewrite u32_small by lia. lia.
  - split; [done|]; simpl. rewrite dom_insert_L.
    assert (p ∈ dom (o_heap st)) by (apply elem_of_dom; eauto). set_solver.
  - by apply bump_insert.
Qed.

(** ** [SUPR0ObjAddRefEx], the part that counts *)

Lemma commit_found st pSession p pre pr u post :
  find_split (λ u, us_pObj u =? p) (sess_usage st (s_self pSession)) = Some (pr, u, post) →
  ObjAddRef_commit st pSession p pre =
  (VINF_SUCCESS, move_refs st (s_self pSession) p
                   (pr ++ set_usUsage (u32 (us_cUsage u + 1)) u :: post)
                   (option_list pre ++ pUsageFree st) 1).
Proof.
  intros F. unfold ObjAddRef_commit.
  change (sess_usage (upd_obj _ _ st)) with (sess_usage st). rewrite F. by destruct pre.
Qed.

Lemma commit_new st pSession p a :
  find_split (λ u, us_pObj u =? p) (sess_usage st (s_self pSession)) = None →
  ObjAddRef_commit st pSession p (Some a) =
  (VINF_SUCCESS, move_refs st (s_self pSession) p
                   (mkUsage a p 1 :: sess_usage st (s_self pSession)) (pUsageFree st) 1).
Proof.
  intros F. unfold ObjAddRef_commit.
  change (sess_usage (upd_obj _ _ st)) with (sess_usage st). by rewrite F.
Qed.

Lemma commit_again st pSession p :
  obj_inv st → obj_magic st p = SUPDRVOBJ_MAGIC →
  find_split (λ u, us_pObj u =? p) (sess_usage st (s_self pSession)) = None →
  ObjAddRef_commit st pSession p None = (VERR_TRY_AGAIN, st).
Proof.
  intros Hinv (o&Hp&Hm)%obj_magic_lookup F. unfold ObjAddRef_commit.
  change (sess_usage (upd_obj _ _ st)) with (sess_usage st). rewrite F. f_equal.
  destruct (oi_obj _ Hinv p o Hp) as [(_&Hc&Hb)|[Hd _]]; [|by rewrite Hm in Hd].
  unfold upd_obj, set_heap; simpl. destruct st as [h os fr us]; simpl in *. f_equal.
  apply map_eq. intros q. destruct (decide (q = p)) as [->|].
  - rewrite !lookup_alter_eq, Hp; simpl. f_equal. unfold set_objUsage; destruct o; simpl in *.
    f_equal. unfold u32. rewrite Zminus_mod_idemp_l. rewrite Z.mod_small; lia.
  - by rewrite !lookup_alter_ne by done.
Qed.

Lemma commit_spec st pSession p pre rc st' :
  obj_inv st → obj_magic st p = SUPDRVOBJ_MAGIC → total st p + 1 < 2 ^ 32 →
  (∀ a, pre = Some a → slots st a = 0) →
  ObjAddRef_commit st pSession p pre = (rc, st') →
  obj_inv st' ∧ same_objs st st' ∧
  ((rc = VINF_SUCCESS ∧ ∀ s q, sess_refs st' s q = bump (sess_refs st) (s_self pSession) p 1 s q)
   ∨ (rc = VERR_TRY_AGAIN ∧ pre = None ∧ sess_refs st (s_self pSession) p = 0 ∧ st' = st)).
Proof.
  intros Hinv Hm Hlt Hpre. pose proof (oi_slots _ Hinv) as Hsl.
  pose proof (inv_sess st Hinv (s_self pSession)) as Hls.
  pose proof (sess_refs_nonneg st Hinv (s_self pSession) p).
  pose proof (sess_refs_le_total st Hinv (s_self pSession) p).
  destruct (find_split (λ u, us_pObj u =? p) (sess_usage st (s_self pSession)))
    as [[[pr u] post]|] eqn:F.
  - rewrite (commit_found _ _ _ _ _ _ _ F). intros [= <- <-].
    destruct (inv_find st Hinv _ _ _ _ _ F) as (Hl&Hu&Hr&Hu1&_). rewrite Hl in Hls.
    destruct (move_spec st (s_self pSession) p
                (pr ++ set_usUsage (u32 (us_cUsage u + 1)) u :: post)
                (option_list pre ++ pUsageFree st) 1) as (?&?&?); [done|done| | |lia| |by auto].
    + intros q. rewrite sess_count_set, Hu, u32_small by lia. unfold sess_refs. rewrite Hl.
      destruct (_ =? _); lia.
    + apply us_list_ok_replace; [done|]. rewrite u32_small; lia.
    + intros a. rewrite slot_count_set, Hl. specialize (Hsl a). destruct pre as [b|]; simpl; [|lia].
      rewrite occ_cons. destruct (Z.eqb_spec b a) as [->|]; [|lia]. rewrite Hpre by done. lia.
  - destruct (inv_find_None st _ _ F) as [Hr Hn]. destruct pre as [a|].
    + rewrite (commit_new _ _ _ _ F). intros [= <- <-].
      destruct (obj_magic_lookup _ _ Hm) as (o&Hp&_).
      destruct (move_spec st (s_self pSession) p
                (mkUsage a p 1 :: sess_usage st (s_self pSession)) (pUsageFree st) 1)
        as (?&?&?); [done|done| | |lia| |by auto].
      * intros q. rewrite sess_count_cons; simpl. unfold sess_refs.
        destruct (Z.eqb_spec p q), (Z.eqb_spec q p); lia.
      * apply us_list_ok_cons; [done| |done]. split; simpl; [lia|eauto].
      * intros b. rewrite slot_count_cons; simpl. specialize (Hsl b).
        destruct (Z.eqb_spec a b) as [->|]; [|lia]. rewrite Hpre by done. lia.
    + rewrite commit_again by done. intros [= <- <-]. split; [done|]. split; [done|]. by right.
Qed.

(** ** Dropping the last reference *)

Lemma us_count_pos h us u : us_list_ok h us → u ∈ us → 1 ≤ sess_count (us_pObj u) us.
Proof.
  intros [_ Hok] Hu.
  assert (Forall (λ v, 0 ≤ if us_pObj v =? us_pObj u then us_cUsage v else 0) us) as H.
  { eapply Forall_impl; [exact Hok|]. intros v [? _]; simpl. destruct (_ =? _); lia. }
  pose proof (lsum_elem _ _ _ H Hu) as Hle. simpl in Hle. rewrite Z.eqb_refl in Hle.
  rewrite Forall_forall in Hok. destruct (Hok u Hu). unfold sess_count. lia.
Qed.

(** When no session refers to [p] any more, every list survives [p]'s removal. *)
Lemma us_list_ok_without (h h' : gmap Z SUPDRVOBJ) p us :
  us_list_ok h us → sess_count p us ≤ 0 → (∀ q, q ≠ p → h' !! q = h !! q) → us_list_ok h' us.
Proof.
  intros Hok Hc Hq. pose proof Hok as [Hnd Hf]. split; [done|].
  rewrite Forall_forall in Hf |- *. intros u Hu. destruct (Hf u Hu) as [? Hs]. split; [done|].
  pose proof (us_count_pos _ _ _ Hok Hu). destruct (decide (us_pObj u = p)) as [<-|]; [lia|].
  by rewrite Hq.
Qed.

Lemma inv_drop st s p l free h' :
  obj_inv st →
  (∀ q, sess_count q l = sess_refs st s q - if q =? p then total st p else 0) →
  us_list_ok (o_heap st) l →
  (∀ q, q ≠ p → h' !! q = o_heap st !! q) →
  (∀ o, h' !! p = Some o → obj_u32Magic o = SUPDRVOBJ_MAGIC_DEAD) →
  (∀ a, slots st a - occ a (pUsageFree st) + occ a free
        - slot_count a (sess_usage st s) + slot_count a l ≤ 1) →
  obj_inv (mkObjState h' (list_unlink p (pObjs st)) free (<[s := l]> (pUsage st))).
Proof.
  intros Hinv Hl Hok Hq Hp Hs.
  assert (∀ q, gsum (sess_count q) (<[s := l]> (pUsage st)) =
               total st q - if q =? p then total st p else 0) as Htot.
  { intros q. pose proof (total_set_pUsage st s l q) as E. unfold total at 1 in E; simpl in E.
    rewrite E, Hl. lia. }
  constructor; simpl.
  - apply NoDup_list_unlink, oi_nodup, Hinv.
  - intros q. rewrite elem_of_list_unlink by apply Hinv. rewrite oi_list by done.
    destruct (decide (q = p)) as [->|Hne]; [|by rewrite Hq; naive_solver].
    split; [naive_solver|]. intros (o&Ho&Hm). rewrite (Hp o Ho) in Hm. done.
  - intros q o Ho. unfold total; simpl. rewrite Htot. destruct (Z.eqb_spec q p) as [->|].
    + right. split; [by apply Hp|lia].
    + rewrite Z.sub_0_r. rewrite Hq in Ho by done. by apply oi_obj.
  - assert (∀ k x, <[s := l]> (pUsage st) !! k = Some x → us_list_ok (o_heap st) x) as Hall.
    { intros k x. rewrite lookup_insert_Some. intros [[_ <-]|[_ Hx]]; [done|].
      by eapply oi_sess. }
    intros s' us Hus. eapply us_list_ok_without; [by eapply Hall| |done].
    rewrite <- (Z.sub_diag (total st p)). specialize (Htot p). rewrite Z.eqb_refl in Htot.
    rewrite <- Htot. apply (gsum_elem (sess_count p) _ s'); [|done].
    intros k x Hx. eapply sess_count_nonneg, Hall, Hx.
  - intros a. rewrite slots_set. apply Hs.
Qed.

Lemma inv_delete_dead st p :
  obj_inv st → obj_magic st p = SUPDRVOBJ_MAGIC_DEAD →
  obj_inv (set_heap (delete p (o_heap st)) st).
Proof.
  intros Hinv Hm. unfold obj_magic in Hm.
  destruct (o_heap st !! p) as [o|] eqn:Ho; [|done]. simpl in Hm.
  destruct (oi_obj _ Hinv p o Ho) as [[Hd _]|[_ Ht]]; [by rewrite Hm in Hd|].
  constructor; simpl; try apply Hinv.
  - intros q. rewrite oi_list by done. destruct (decide (q = p)) as [->|].
    + rewrite lookup_delete_eq, Ho. split; [|naive_solver]. intros (?&[= <-]&Hd). by rewrite Hm in Hd.
    + by rewrite lookup_delete_ne by done.
  - intros q o' [_ Ho']%lookup_delete_Some. exact (oi_obj _ Hinv q o' Ho').
  - intros s us Hus. pose proof (oi_sess _ Hinv s us Hus) as Hok.
    eapply us_list_ok_without with (p := p); [done| |].
    + rewrite <- Ht. apply (gsum_elem (sess_count p) _ s); [|done].
      intros k x Hx. by eapply sess_count_nonneg, oi_sess.
    + intros q Hq. by rewrite lookup_delete_ne.
Qed.

(** ** [SUPR0ObjRelease], the part under the spinlock *)

Lemma release_locked_spec st pSession p rc st' :
  let s := s_self pSession in
  obj_inv st → obj_magic st p = SUPDRVOBJ_MAGIC →
  ObjRelease_locked st p pSession = (rc, st') →
  (sess_refs st s p = 0 ∧ rc = VERR_INVALID_PARAMETER ∧ st' = st) ∨
  (0 < sess_refs st s p ∧ obj_inv st' ∧
   (∀ s' q, sess_refs st' s' q = bump (sess_refs st) s p (-1) s' q) ∧
   ((1 < total st p ∧ rc = VINF_SUCCESS ∧ same_objs st st') ∨
    (total st p = 1 ∧ rc = VINF_OBJECT_DESTROYED ∧
     pObjs st' = list_unlink p (pObjs st) ∧
     o_heap st' = alter (set_magic SUPDRVOBJ_MAGIC_DEAD) p (o_heap st)))).
Proof.
  intros s Hinv Hm. pose proof (oi_slots _ Hinv) as Hsl.
  pose proof (inv_sess st Hinv s) as Hls. pose proof (sess_refs_le_total st Hinv s p) as Hle.
  destruct (obj_magic_lookup _ _ Hm) as (o&Hp&Hmo).
  destruct (oi_obj _ Hinv p o Hp) as [(_&Hc&Hb)|[Hd _]]; [|by rewrite Hmo in Hd].
  unfold ObjRelease_locked. change (s_self pSession) with s.
  destruct (find_split _ _) as [[[pr u] post]|] eqn:F.
  2:{ intros [= <- <-]. left. by destruct (inv_find_None st _ _ F). }
  destruct (inv_find st Hinv _ _ _ _ _ F) as (Hl&Hu&Hr&Hu1&_). rewrite Hl in Hls.
  intros Heq. right. split; [lia|]. destruct (Z.ltb_spec 1 (us_cUsage u)) as [Hgt|Hone].
  - injection Heq as <- <-.
    destruct (move_spec st s p (pr ++ set_usUsage (u32 (us_cUsage u - 1)) u :: post)
                (pUsageFree st) (-1)) as (?&?&?); [done|done| | |lia| |].
    + intros q. rewrite sess_count_set, Hu, u32_small by lia. unfold sess_refs. rewrite Hl.
      destruct (_ =? _); lia.
    + apply us_list_ok_replace; [done|]. rewrite u32_small; lia.
    + intros a. rewrite slot_count_set, Hl. specialize (Hsl a). lia.
    + split_and!; [done|done|]. left. split; [lia|]. by split.
  - assert (∀ q, sess_count q (pr ++ post) = sess_refs st s q + if q =? p then -1 else 0) as Hcnt.
    { intros q. rewrite (sess_count_remove q pr u post), Hu. unfold sess_refs. rewrite Hl.
      destruct (_ =? _); lia. }
    assert (∀ a, slots st a - occ a (pUsageFree st) + occ a (us_self u :: pUsageFree st)
      - slot_count a (sess_usage st s) + slot_count a (pr ++ post) ≤ 1) as Hslots.
    { intros a. rewrite (slot_count_remove a pr u post), Hl, occ_cons. specialize (Hsl a). lia. }
    simpl in Heq. rewrite Hp in Heq; simpl in Heq.
    destruct (Z.ltb_spec 1 (obj_cUsage o)); injection Heq as <- <-.
    + destruct (move_spec st s p (pr ++ post) (us_self u :: pUsageFree st) (-1)) as (?&?&?);
        [done|done|done|by eapply us_list_ok_remove|lia|done|].
      split_and!; [done|done|]. left. split; [lia|]. by split.
    + split; [|split].
      * apply inv_drop; [done| |by eapply us_list_ok_remove| | |done].
        -- intros q. rewrite Hcnt. destruct (_ =? _); lia.
        -- intros q Hq; simpl. by rewrite lookup_alter_ne.
        -- intros o'; simpl. rewrite lookup_alter_eq, Hp. by intros [= <-].
      * by apply bump_insert.
      * right. split_and!; [lia|done|done|done].
Qed.

(** ** [SUPR0ObjRegister] *)

Lemma inv_register st s p a obj :
  obj_inv st → o_heap st !! p = None → slots st a = 0 →
  obj_u32Magic obj = SUPDRVOBJ_MAGIC → obj_cUsage obj = 1 →
  let st' := mkObjState (<[p := obj]> (o_heap st)) (p :: pObjs st) (pUsageFree st)
               (<[s := mkUsage a p 1 :: sess_usage st s]> (pUsage st)) in
  obj_inv st' ∧ ∀ s' q, sess_refs st' s' q = bump (sess_refs st) s p 1 s' q.
Proof.
  intros Hinv Hp Ha Hm Hc st'. pose proof (inv_no_refs st Hinv p Hp) as Htp.
  pose proof (inv_sess st Hinv s) as Hls.
  assert (∀ u, us_ok (o_heap st) u → us_ok (<[p := obj]> (o_heap st)) u ∧ us_pObj u ≠ p) as Hmono.
  { intros u [? [x Hx]]. split; [|congruence]. split; [done|].
    rewrite lookup_insert_ne; [eauto|congruence]. }
  assert (∀ us, us_list_ok (o_heap st) us → us_list_ok (<[p := obj]> (o_heap st)) us) as Hmono'.
  { intros us [? Hf]. split; [done|]. eapply Forall_impl; [exact Hf|]. intros u Hu; by destruct (Hmono u Hu). }
  assert (∀ q, sess_count q (mkUsage a p 1 :: sess_usage st s) =
               sess_refs st s q + if q =? p then 1 else 0) as Hcnt.
  { intros q. rewrite sess_count_cons; simpl. unfold sess_refs.
    destruct (Z.eqb_spec p q), (Z.eqb_spec q p); lia. }
  split; [|by apply bump_insert].
  assert (∀ q, total st' q = total st q + if q =? p then 1 else 0) as Htot.
  { intros q. pose proof (total_set_pUsage st s (mkUsage a p 1 :: sess_usage st s) q) as E.
    unfold total at 1 in E; simpl in E. unfold st', total at 1; simpl. rewrite E, Hcnt. lia. }
  constructor; simpl.
  - constructor; [|apply Hinv]. rewrite oi_list by done. rewrite Hp. naive_solver.
  - intros q. rewrite elem_of_cons, oi_list by done. destruct (decide (q = p)) as [->|].
    + rewrite lookup_insert_eq. naive_solver.
    + rewrite lookup_insert_ne by done. naive_solver.
  - intros q o. rewrite Htot. destruct (Z.eqb_spec q p) as [->|].
    + rewrite lookup_insert_eq. intros [= <-]. left. rewrite Htp. split_and!; [done|lia|lia|lia].
    + rewrite lookup_insert_ne, Z.add_0_r by done. by apply oi_obj.
  - intros s' us. rewrite lookup_insert_Some. intros [[_ <-]|[_ Hus]].
    + apply us_list_ok_cons; [by apply Hmono'| |].
      * split; simpl; [lia|]. rewrite lookup_insert_eq. eauto.
      * simpl. intros (u&Hu&Hin)%list_elem_of_fmap. destruct Hls as [_ Hf].
        rewrite Forall_forall in Hf. destruct (Hmono u (Hf u Hin)) as [_ ?]. congruence.
    + apply Hmono'. by eapply oi_sess.
  - intros b. unfold st'. rewrite slots_set, slot_count_cons; simpl.
    pose proof (oi_slots _ Hinv b). destruct (Z.eqb_spec a b) as [->|]; lia.
Qed.

(** ** [supdrvCleanupSession], the objects *)

(** The record a turn removes. *)
Lemma cleanup_head st s u us :
  obj_inv st → sess_usage st s = u :: us →
  let p := us_pObj u in
  (∃ o, o_heap st !! p = Some o ∧ obj_u32Magic o = SUPDRVOBJ_MAGIC ∧ obj_cUsage o = total st p)
  ∧ sess_refs st s p = us_cUsage u ∧ 1 ≤ us_cUsage u ≤ total st p ∧ total st p < 2 ^ 32
  ∧ us_list_ok (o_heap st) us
  ∧ (∀ q, sess_count q us = sess_refs st s q + if q =? p then - us_cUsage u else 0)
  ∧ ∀ a, slots st a - occ a (pUsageFree st) + occ a (pUsageFree st)
         - slot_count a (sess_usage st s) + slot_count a us ≤ 1.
Proof.
  intros Hinv Hl p. pose proof (oi_slots _ Hinv) as Hsl.
  destruct (inv_find st Hinv s p [] u us) as (_&_&Hr&Hu1&_&Hpost&_).
  { rewrite Hl; simpl. by rewrite Z.eqb_refl. }
  pose proof (inv_sess st Hinv s) as Hls. rewrite Hl in Hls.
  pose proof (us_list_ok_remove _ [] _ _ Hls) as Hrest; simpl in Hrest.
  pose proof (sess_refs_le_total st Hinv s p) as Hle.
  destruct (inv_refs st Hinv p) as (o&Hp&Hm&Hc&Hlt&Hin); [lia|].
  split_and!; [by exists o|done|lia|lia|done|done| |].
  - intros q. unfold sess_refs. rewrite Hl. apply (sess_count_remove q [] u us).
  - intros a. pose proof (slot_count_remove a [] u us) as E; simpl in E. rewrite Hl, E.
    specialize (Hsl a).
    destruct (_ =? _); simpl; lia.
Qed.

Lemma cleanup_usage_spec st s u us st' ev :
  obj_inv st → sess_usage st s = u :: us → cleanup_usage st s id = Some (st', ev) →
  let p := us_pObj u in
  obj_inv st' ∧ pUsage st' = <[s := us]> (pUsage st) ∧ pUsageFree st' = pUsageFree st ∧
  (∀ q, q ≠ p → o_heap st' !! q = o_heap st !! q) ∧
  o_heap st' !! p = cleanup_obj st s p ∧
  ev = (if total st p =? us_cUsage u
        then from_option (destroy_events p) [] (o_heap st !! p) else [])
       ++ [EvMemFree (us_self u)].
Proof.
  intros Hinv Hl Hcl p.
  destruct (cleanup_head st s u us Hinv Hl) as ((o&Hp&Hm&Hc)&Hr&Hu1&Hlt&Hrest&Hcnt&Hslots). fold p in Hp, Hc, Hr, Hu1, Hlt, Hcnt.
  unfold cleanup_usage, cleanup_usage_locked in Hcl. rewrite Hl in Hcl; simpl in Hcl.
  fold p in Hcl. rewrite Hp in Hcl; simpl in Hcl. unfold cleanup_obj. rewrite Hr.
  destruct (Z.eqb_spec (us_cUsage u) 0); [lia|].
  destruct (Z.ltb_spec (us_cUsage u) (obj_cUsage o)).
  - injection Hcl as <- <-. destruct (Z.eqb_spec (total st p) (us_cUsage u)); [lia|].
    destruct (move_spec st s p us (pUsageFree st) (- us_cUsage u)) as (?&?&?);
      [done|unfold obj_magic; by rewrite Hp|done|done|lia|done|].
    split_and!; [done|done|done| | |done].
    + intros q Hq; simpl. by rewrite lookup_alter_ne.
    + simpl. rewrite lookup_alter_eq, Hp; simpl. rewrite u32_small by lia. by rewrite Hc.
  - destruct (Z.eqb_spec (total st p) (us_cUsage u)); [|lia].
    unfold ObjDestroy in Hcl; simpl in Hcl. fold p in Hcl. rewrite Hp in Hcl; simpl in Hcl.
    injection Hcl as <- <-. split_and!; [|done|done| | |by rewrite Hp].
    + apply inv_drop; [done| |done| | |done].
      * intros q. rewrite Hcnt. destruct (Z.eqb_spec q p) as [->|]; lia.
      * intros q Hq. by rewrite lookup_delete_ne.
      * intros o'. by rewrite lookup_delete_eq.
    + intros q Hq; simpl. by rewrite lookup_delete_ne.
    + simpl. by rewrite lookup_delete_eq.
Qed.

(** The part under the spinlock alone: an object to be destroyed is as good as dead. *)
Lemma cleanup_locked_spec st s u fDestroy st' :
  obj_inv st → cleanup_usage_locked st s = Some (u, fDestroy, st') →
  obj_magic st (us_pObj u) = SUPDRVOBJ_MAGIC
  ∧ obj_inv (if fDestroy : bool then upd_obj (us_pObj u) (set_magic SUPDRVOBJ_MAGIC_DEAD) st' else st').
Proof.
  intros Hinv Hcl. unfold cleanup_usage_locked in Hcl.
  destruct (sess_usage st s) as [|u' us] eqn:Hl; [done|].
  destruct (cleanup_head st s u' us Hinv Hl) as ((o&Hp&Hm&Hc)&Hr&Hu1&Hlt&Hrest&Hcnt&Hslots).
  simpl in Hcl. rewrite Hp in Hcl; simpl in Hcl.
  assert (obj_magic st (us_pObj u') = SUPDRVOBJ_MAGIC) as Hmg by (unfold obj_magic; by rewrite Hp).
  destruct (Z.ltb_spec (us_cUsage u') (obj_cUsage o)); injection Hcl as <- <- <-; (split; [done|]).
  - by destruct (move_spec st s (us_pObj u') us (pUsageFree st) (- us_cUsage u')) as (?&?&?);
      [|..|lia|done|].
  - apply inv_drop; [done| |done| | |done].
    + intros q. rewrite Hcnt. destruct (Z.eqb_spec q (us_pObj u')) as [->|]; lia.
    + intros q Hq; simpl. by rewrite lookup_alter_ne.
    + intros o'; simpl. rewrite lookup_alter_eq, Hp. by intros [= <-].
Qed.

Lemma cleanup_usages_spec s us : ∀ n st st' ev,
  obj_inv st → sess_usage st s = us → (length us ≤ n)%nat →
  cleanup_usages n st s (λ _, id) = (st', ev) →
  obj_inv st' ∧ sess_usage st' s = [] ∧
  (∀ s', s' ≠ s → sess_usage st' s' = sess_usage st s') ∧
  pUsageFree st' = pUsageFree st ∧
  (∀ p, o_heap st' !! p = cleanup_obj st s p) ∧
  ev = cleanup_events st us.
Proof.
  induction us as [|u us IH]; intros n st st' ev Hinv Hl Hn Hcl.
  - assert (cleanup_usages n st s (λ _, id) = (st, [])) as E.
    { destruct n; [done|]; simpl. unfold cleanup_usage, cleanup_usage_locked. by rewrite Hl. }
    rewrite E in Hcl. injection Hcl as <- <-. split_and!; try done.
    intros p. unfold cleanup_obj, sess_refs. by rewrite Hl.
  - destruct n as [|n]; simpl in Hn; [lia|]. simpl in Hcl.
    destruct (cleanup_usage st s id) as [[st1 ev1]|] eqn:Hstep.
    2:{ unfold cleanup_usage, cleanup_usage_locked in Hstep. rewrite Hl in Hstep.
        repeat case_match; simplify_eq. }
    destruct (cleanup_usages n st1 s (λ _, id)) as [st2 ev2] eqn:Hloop. injection Hcl as <- <-.
    destruct (cleanup_usage_spec _ _ _ _ _ _ Hinv Hl Hstep) as (Hinv1&Hpu&Hfree&Hq&Hp&->).
    set (p := us_pObj u) in *.
    assert (∀ s', sess_usage st1 s' = if decide (s' = s) then us else sess_usage st s') as Hsu.
    { intros s'. unfold sess_usage. rewrite Hpu. destruct (decide _) as [->|].
      - by rewrite lookup_insert_eq.
      - by rewrite lookup_insert_ne. }
    assert (sess_usage st1 s = us) as Hl1 by (rewrite Hsu; by destruct (decide _)).
    destruct (IH n st1 st2 ev2) as (?&?&Hoth&Hf2&Hh&->); [done|done|lia|done|].
    destruct (inv_find st Hinv s p [] u us) as (_&_&_&_&_&Hpost&Hnin).
    { rewrite Hl; simpl. unfold p. by rewrite Z.eqb_refl. }
    simpl in Hnin.
    assert (∀ q, q ≠ p → total st1 q = total st q ∧ sess_refs st1 s q = sess_refs st s q) as Hsame.
    { intros q Hne. assert (sess_count q (u :: us) = sess_count q us) as E.
      { rewrite sess_count_cons. fold p. destruct (Z.eqb_spec p q); [congruence|lia]. }
      unfold sess_refs. rewrite Hl1, Hl, E. split; [|done]. unfold total. rewrite Hpu.
      change (<[s:=us]> (pUsage st)) with (pUsage (set_pUsage s us st)).
      fold (total (set_pUsage s us st) q). rewrite total_set_pUsage. unfold sess_refs.
      rewrite Hl, E. unfold total. lia. }
    split_and!; [done|done| |congruence| |].
    + intros s' Hs'. rewrite Hoth, Hsu by done. by destruct (decide _).
    + intros q. rewrite Hh. destruct (decide (q = p)) as [->|Hne].
      * unfold cleanup_obj at 1. unfold sess_refs at 1. rewrite Hl1, Hpost. done.
      * destruct (Hsame q Hne) as [E1 E2]. unfold cleanup_obj. by rewrite E1, E2, Hq.
    + unfold cleanup_events. rewrite bind_cons. fold p. f_equal.
      apply bind_ext_in. intros v Hv.
      assert (us_pObj v ≠ p) as Hne.
      { intros E. apply Hnin. rewrite <- E. apply list_elem_of_fmap. eauto. }
      destruct (Hsame _ Hne) as [E1 _]. by rewrite E1, Hq.
Qed.

(** ** Every step preserves the invariant *)

Lemma register_spec st pSession enmType pfn pv1 pv2 rObj rUsage others p st' ev :
  let base := after_window st others in
  let s := s_self pSession in
  SUPR0ObjRegister st pSession enmType pfn pv1 pv2 rObj rUsage others = (p, st', ev) →
  obj_inv st → obj_inv base →
  (∀ q, rObj = Some q → o_heap base !! q = None) →
  (∀ a, rUsage = Some a → slots base a = 0) →
  (p = NULL ∧ (st' = st ∨ (st' = base ∧ rUsage = None)) ∧
   (register_args_ok pSession enmType pfn = false ∨ rObj = None ∨
    (pUsageFree st = [] ∧ rUsage = None))) ∨
  (register_args_ok pSession enmType pfn = true ∧ rObj = Some p ∧ ev = [] ∧ obj_inv st' ∧
   o_heap st' = <[p := new_obj pSession enmType pfn pv1 pv2]> (o_heap base) ∧
   pObjs st' = p :: pObjs base ∧
   ∀ s' q, sess_refs st' s' q = bump (sess_refs base) s p 1 s' q).
Proof.
  intros base s Heq Hinv Hbase Hobj Hus. unfold SUPR0ObjRegister, register_args_ok in *.
  destruct (SUP_IS_SESSION_VALID pSession); simpl in *; [|naive_solver].
  destruct (_ && _); simpl in *; [|naive_solver].
  destruct (VALID_PTR pfn); simpl in *; [|naive_solver].
  destruct rObj as [q|]; [|naive_solver]. specialize (Hobj q eq_refl).
  unfold base, after_window in *. clear base.
  destruct (pUsageFree st) as [|a free] eqn:Ef; [destruct rUsage as [a|]|].
  - injection Heq as <- <- <-. right. specialize (Hus a eq_refl).
    destruct (inv_register (others st) s q a (new_obj pSession enmType pfn pv1 pv2))
      as [? ?]; [done|done|done|done|done|]. by split_and!.
  - injection Heq as <- <- <-. left. split_and!; [done|by right|tauto].
  - injection Heq as <- <- <-. right. destruct (inv_pop_free st Hinv a free Ef) as [Hb Ha].
    destruct (inv_register (set_pUsageFree free st) s q a (new_obj pSession enmType pfn pv1 pv2))
      as [? ?]; [done|done|done|done|done|]. by split_and!.
Qed.

Lemma addref_spec st pSession p (fNoBlocking : bool) rUsage others rc st' :
  let base := if fNoBlocking then st else after_window st others in
  obj_inv st → obj_inv base →
  (∀ a, rUsage = Some a → slots base a = 0) → total base p + 1 < 2 ^ 32 →
  SUPR0ObjAddRefEx st p pSession fNoBlocking rUsage others = (rc, st') →
  obj_inv st' ∧
  ((rc = VINF_SUCCESS ∧ obj_magic base p = SUPDRVOBJ_MAGIC ∧ same_objs base st' ∧
    ∀ s q, sess_refs st' s q = bump (sess_refs base) (s_self pSession) p 1 s q)
   ∨ (RT_FAILURE rc = true ∧ (st' = st ∨ st' = base) ∧
      (rc = VERR_TRY_AGAIN → fNoBlocking = true ∧ sess_refs st (s_self pSession) p = 0))).
Proof.
  intros base Hinv Hbase Hus Hlt. unfold SUPR0ObjAddRefEx.
  destruct (SUP_IS_SESSION_VALID pSession); simpl; [|intros [= <- <-]; naive_solver].
  destruct (VALID_PTR p); simpl; [|intros [= <- <-]; naive_solver].
  destruct ((_ =? _) || _); simpl; [|intros [= <- <-]; naive_solver].
  destruct (Z.eqb_spec (obj_magic st p) SUPDRVOBJ_MAGIC) as [Hm|]; simpl;
    [|intros [= <- <-]; naive_solver].
  unfold base, after_window in *. clear base.
  destruct (pUsageFree st) as [|a free] eqn:Ef; [destruct fNoBlocking|]; simpl.
  - intros H. destruct (commit_spec st pSession p None rc st')
      as (?&?&[[-> ?]|(->&_&?&->)]); [done|done|done|done|done| |].
    + split; [done|]. by left.
    + split; [done|]. right. by auto.
  - destruct rUsage as [a|]; [|intros [= <- <-]; naive_solver].
    destruct (Z.eqb_spec (obj_magic (others st) p) SUPDRVOBJ_MAGIC) as [Hm'|]; simpl;
      [|intros [= <- <-]; naive_solver].
    intros H. destruct (commit_spec (others st) pSession p (Some a) rc st')
      as (?&?&[[-> ?]|(->&?&_)]); [done|done|done|naive_solver|done| |done].
    split; [done|]. by left.
  - intros H. destruct (inv_pop_free st Hinv a free Ef) as [Hb Ha].
    assert (total st p + 1 < 2 ^ 32) by (by destruct fNoBlocking).
    destruct (commit_spec (set_pUsageFree free st) pSession p (Some a) rc st')
      as (?&?&[[-> Hr]|(->&?&_)]); [done|done|done|naive_solver|done| |done].
    split; [done|]. left. by destruct fNoBlocking.
Qed.

Lemma after_window_id st : after_window st id = st.
Proof. unfold after_window. by destruct (pUsageFree st). Qed.

(** The doomed objects marked dead: [reg_inv] says that this registry is well formed. *)
Definition mark_dead (doomed : list ptr) (st : ObjState) : ObjState :=
  set_heap (foldr (alter (set_magic SUPDRVOBJ_MAGIC_DEAD)) (o_heap st) doomed) st.

Lemma mark_lookup l st q :
  o_heap (mark_dead l st) !! q
  = if decide (q ∈ l) then set_magic SUPDRVOBJ_MAGIC_DEAD <$> o_heap st !! q else o_heap st !! q.
Proof.
  unfold mark_dead; simpl. induction l as [|p l IH]; simpl; [by destruct (decide (q ∈ [])) as [Hin|]; [apply not_elem_of_nil in Hin|]|].
  destruct (decide (q = p)) as [->|Hne].
  - rewrite lookup_alter_eq, IH. rewrite (decide_True (P := p ∈ p :: l)) by left.
    destruct (decide (p ∈ l)); [|done]. by destruct (o_heap st !! p).
  - rewrite lookup_alter_ne, IH by done. destruct (decide (q ∈ l)), (decide (q ∈ p :: l)); set_solver.
Qed.

Lemma mark_magic l st p : p ∉ l → obj_magic (mark_dead l st) p = obj_magic st p.
Proof. intros Hp. unfold obj_magic. by rewrite mark_lookup, decide_False. Qed.

(** Two registries that differ in nothing but how the heap is put together. *)
Lemma objstate_eq st1 st2 :
  (∀ q, o_heap st1 !! q = o_heap st2 !! q) → pObjs st1 = pObjs st2 → pUsageFree st1 = pUsageFree st2 →
  pUsage st1 = pUsage st2 → st1 = st2.
Proof. destruct st1, st2; simpl. intros H%map_eq -> -> ->. by rewrite H. Qed.

Lemma mark_upd l st p f : p ∉ l → mark_dead l (upd_obj p f st) = upd_obj p f (mark_dead l st).
Proof.
  intros Hp. apply objstate_eq; [|done..]. intros q. unfold upd_obj at 2. rewrite mark_lookup. cbn [o_heap set_heap upd_obj].
  destruct (decide (q = p)) as [->|Hne].
  - rewrite decide_False, !lookup_alter_eq, mark_lookup, decide_False by done. done.
  - by rewrite !lookup_alter_ne, mark_lookup.
Qed.

Lemma mark_insert l st ses p obj a :
  p ∉ l → mark_dead l (ObjRegister_insert st ses p obj a) = ObjRegister_insert (mark_dead l st) ses p obj a.
Proof.
  intros Hp. apply objstate_eq; [|done..]. intros q. rewrite mark_lookup. cbn [o_heap set_heap ObjRegister_insert set_pObjs set_pUsage].
  destruct (decide (q = p)) as [->|Hne].
  - by rewrite decide_False, !lookup_insert_eq.
  - by rewrite !lookup_insert_ne, mark_lookup.
Qed.

Lemma mark_cons l st p : mark_dead (p :: l) st = upd_obj p (set_magic SUPDRVOBJ_MAGIC_DEAD) (mark_dead l st).
Proof. done. Qed.

Lemma mark_delete l st p :
  NoDup l → mark_dead (list_unlink p l) (set_heap (delete p (o_heap st)) st)
  = set_heap (delete p (o_heap (mark_dead l st))) (mark_dead l st).
Proof.
  intros Hnd. apply objstate_eq; [|done..]. intros q. rewrite mark_lookup. cbn [o_heap set_heap].
  destruct (decide (q = p)) as [->|Hne].
  - rewrite !lookup_delete_eq. by destruct (decide _).
  - rewrite !lookup_delete_ne, mark_lookup by done.
    destruct (decide (q ∈ list_unlink p l)) as [Hin|Hin]; rewrite elem_of_list_unlink in Hin by done.
    + by rewrite decide_True by tauto.
    + by rewrite decide_False by tauto.
Qed.

Lemma reg_inv_mark st l :
  reg_inv st l ↔ obj_inv (mark_dead l st) ∧ NoDup l ∧ ∀ p, p ∈ l → obj_magic st p = SUPDRVOBJ_MAGIC.
Proof.
  assert (Hsome : ∀ p, is_Some (o_heap (mark_dead l st) !! p) ↔ is_Some (o_heap st !! p)).
  { intros p. rewrite mark_lookup. destruct (decide _); [by rewrite fmap_is_Some|done]. }
  assert (Hus : ∀ us, us_list_ok (o_heap (mark_dead l st)) us ↔ us_list_ok (o_heap st) us).
  { intros us. unfold us_list_ok. f_equiv. apply Forall_iff. intros u. unfold us_ok. by rewrite Hsome. }
  split.
  - intros [H1 H2 H3 H4 H5 H6 H7]. split_and!; [|done|].
    + constructor; [done| | | |done].
      * intros p. change (pObjs (mark_dead l st)) with (pObjs st). rewrite H2, mark_lookup.
        destruct (decide (p ∈ l)); [|naive_solver]. destruct (o_heap st !! p); naive_solver.
      * intros p o. rewrite mark_lookup. change (total (mark_dead l st) p) with (total st p).
        destruct (decide (p ∈ l)) as [Hin|Hin]; [|by eauto]. destruct (H5 p Hin) as (Ht&o'&->&_).
        intros [= <-]. by right.
      * intros s us Hs. rewrite Hus. by eapply H6.
    + intros p Hp. destruct (H5 p Hp) as (_&o&Ho&Hm). unfold obj_magic. by rewrite Ho.
  - intros ([H1 H2 H3 H4 H5]&Hnd&Hal). constructor; [done| | |done| | |done].
    + intros p. change (pObjs st) with (pObjs (mark_dead l st)). rewrite H2, mark_lookup.
      destruct (decide (p ∈ l)); [|naive_solver]. destruct (o_heap st !! p); naive_solver.
    + intros p o Hp Hin. apply (H3 p). by rewrite mark_lookup, decide_False.
    + intros p Hp. destruct (obj_magic_lookup _ _ (Hal p Hp)) as (o&Ho&Hm). split; [|by exists o].
      destruct (H3 p (set_magic SUPDRVOBJ_MAGIC_DEAD o)) as [[Hd _]|[_ Ht]]; [|done|exact Ht].
      by rewrite mark_lookup, decide_True, Ho.
    + intros s us Hs. rewrite <- Hus. by eapply H4.
Qed.

Lemma reg_inv_nil st : reg_inv st [] ↔ obj_inv st.
Proof.
  rewrite reg_inv_mark. assert (mark_dead [] st = st) as -> by by destruct st. split; [tauto|].
  intros H. split_and!; [done|constructor|]. by intros p ?%not_elem_of_nil.
Qed.

(** Each operation on its own. *)
Lemma register_inv st pSession enmType pfn pv1 pv2 rObj rUsage :
  obj_inv st → (∀ p, rObj = Some p → o_heap st !! p = None) → (∀ a, rUsage = Some a → slots st a = 0) →
  obj_inv (SUPR0ObjRegister st pSession enmType pfn pv1 pv2 rObj rUsage id).1.2.
Proof.
  intros Hinv HO HU. destruct (SUPR0ObjRegister _ _ _ _ _ _ _ _ _) as [[p st'] ev] eqn:E; simpl.
  destruct (register_spec _ _ _ _ _ _ _ _ _ _ _ _ E) as [(_&[->|[-> _]]&_)|H]; rewrite ?after_window_id; try done.
  tauto.
Qed.

Lemma addref_inv st p pSession fNoBlocking rUsage :
  obj_inv st → (∀ a, rUsage = Some a → slots st a = 0) → total st p + 1 < 2 ^ 32 →
  obj_inv (SUPR0ObjAddRefEx st p pSession fNoBlocking rUsage id).2.
Proof.
  intros Hinv HU Hlt. assert ((if fNoBlocking then st else after_window st id) = st) as Eb
    by (destruct fNoBlocking; [done|apply after_window_id]).
  destruct (SUPR0ObjAddRefEx _ _ _ _ _ _) as [rc st'] eqn:E; simpl.
  eapply addref_spec in E; rewrite ?Eb; try done. tauto.
Qed.

Lemma release_locked_inv st p pSession :
  obj_inv st → obj_magic st p = SUPDRVOBJ_MAGIC → obj_inv (ObjRelease_locked st p pSession).2.
Proof.
  intros Hinv Hm. destruct (ObjRelease_locked st p pSession) as [rc st'] eqn:E; simpl.
  destruct (release_locked_spec _ _ _ _ _ Hinv Hm E) as [(_&_&->)|H]; [done|tauto].
Qed.

(** The magic of other objects. *)
Lemma upd_magic st p f q : q ≠ p → obj_magic (upd_obj p f st) q = obj_magic st q.
Proof. intros Hq. unfold obj_magic; simpl. by rewrite lookup_alter_ne. Qed.

Lemma commit_magic st pSession p pre q :
  q ≠ p → obj_magic (ObjAddRef_commit st pSession p pre).2 q = obj_magic st q.
Proof.
  intros Hq. rewrite <- (upd_magic st p (λ o, set_objUsage (u32 (obj_cUsage o + 1)) o) q Hq).
  unfold ObjAddRef_commit. destruct (find_split _ _) as [[[pr u] post]|]; [by destruct pre|].
  destruct pre; [done|]. by apply upd_magic.
Qed.

Lemma addref_magic st p pSession fNoBlocking rUsage q :
  q ≠ p → obj_magic (SUPR0ObjAddRefEx st p pSession fNoBlocking rUsage id).2 q = obj_magic st q.
Proof.
  intros Hq. unfold SUPR0ObjAddRefEx. do 4 (destruct (negb _); [done|]).
  destruct (pUsageFree st) as [|a free]; [|by rewrite commit_magic].
  destruct (negb fNoBlocking); [|by rewrite commit_magic]. destruct rUsage; [|done].
  by rewrite commit_magic.
Qed.

Lemma release_magic st p pSession q :
  q ≠ p → obj_magic (ObjRelease_locked st p pSession).2 q = obj_magic st q.
Proof.
  intros Hq. unfold ObjRelease_locked. destruct (find_split _ _) as [[[pr u] post]|]; [|done].
  destruct (1 <? us_cUsage u); [by apply (upd_magic st)|]. destruct (1 <? _); by apply (upd_magic st).
Qed.

Lemma unlink_magic st s u fDestroy st' :
  cleanup_usage_locked st s = Some (u, fDestroy, st') → ∀ q, obj_magic st' q = obj_magic st q.
Proof.
  unfold cleanup_usage_locked. destruct (sess_usage st s) as [|u' us]; [done|].
  destruct (_ <? _); intros [= <- <- <-] q; [|done]. unfold obj_magic; simpl.
  destruct (decide (q = us_pObj u')) as [->|]; [|by rewrite lookup_alter_ne].
  rewrite lookup_alter_eq. by destruct (o_heap st !! us_pObj u').
Qed.

(** Marking commutes with what does not concern a doomed object. *)
Lemma mark_register l st pSession enmType pfn pv1 pv2 rObj rUsage :
  (∀ p, rObj = Some p → p ∉ l) →
  mark_dead l (SUPR0ObjRegister st pSession enmType pfn pv1 pv2 rObj rUsage id).1.2
  = (SUPR0ObjRegister (mark_dead l st) pSession enmType pfn pv1 pv2 rObj rUsage id).1.2.
Proof.
  intros HO. unfold SUPR0ObjRegister. do 3 (destruct (negb _); [done|]).
  destruct rObj as [p|]; [|done]. specialize (HO p eq_refl).
  change (pUsageFree (mark_dead l st)) with (pUsageFree st).
  destruct (pUsageFree st) as [|a free]; [destruct rUsage; [|done]|]; cbn [fst snd]; by rewrite mark_insert.
Qed.

Lemma mark_commit l st pSession p pre :
  p ∉ l → mark_dead l (ObjAddRef_commit st pSession p pre).2 = (ObjAddRef_commit (mark_dead l st) pSession p pre).2.
Proof.
  intros Hp. unfold ObjAddRef_commit. rewrite <- mark_upd by done.
  change (sess_usage (mark_dead l (upd_obj p ?f st))) with (sess_usage (upd_obj p f st)).
  destruct (find_split _ _) as [[[pr u] post]|]; [by destruct pre|]. destruct pre; [done|].
  cbn [snd]. by rewrite mark_upd.
Qed.

Lemma mark_addref l st p pSession fNoBlocking rUsage :
  p ∉ l → mark_dead l (SUPR0ObjAddRefEx st p pSession fNoBlocking rUsage id).2
          = (SUPR0ObjAddRefEx (mark_dead l st) p pSession fNoBlocking rUsage id).2.
Proof.
  intros Hp. unfold SUPR0ObjAddRefEx. rewrite mark_magic by done. do 3 (destruct (negb _); [done|]).
  destruct (negb (obj_magic st p =? SUPDRVOBJ_MAGIC)) eqn:E; [done|].
  change (pUsageFree (mark_dead l st)) with (pUsageFree st).
  destruct (pUsageFree st) as [|a free]; [|by rewrite mark_commit].
  destruct (negb fNoBlocking); [|by rewrite mark_commit]. destruct rUsage; [|done].
  cbv beta zeta delta [id]. rewrite mark_magic, E by done. by rewrite mark_commit.
Qed.

Lemma mark_release l st p pSession :
  p ∉ l → mark_dead l (ObjRelease_locked st p pSession).2 = (ObjRelease_locked (mark_dead l st) p pSession).2.
Proof.
  intros Hp. unfold ObjRelease_locked.
  change (sess_usage (mark_dead l st)) with (sess_usage st). destruct (find_split _ _) as [[[pr u] post]|]; [|done].
  destruct (1 <? us_cUsage u); cbn [snd]; [by rewrite <- mark_upd|].
  cbn [o_heap set_pUsage set_pUsageFree]. rewrite mark_lookup, decide_False by done.
  destruct (1 <? _); cbn [snd].
  - by rewrite (mark_upd l (set_pUsageFree _ _)).
  - exact (f_equal (set_pObjs _) (mark_upd l (set_pUsageFree _ _) p _ Hp)).
Qed.

Lemma mark_unlink l st s u fDestroy st' :
  reg_inv st l → cleanup_usage_locked st s = Some (u, fDestroy, st') →
  us_pObj u ∉ l ∧ cleanup_usage_locked (mark_dead l st) s = Some (u, fDestroy, mark_dead l st').
Proof.
  intros [Hinv _]%reg_inv_mark H. unfold cleanup_usage_locked in *.
  change (sess_usage (mark_dead l st)) with (sess_usage st).
  destruct (sess_usage st s) as [|u' us] eqn:Hl; [done|].
  destruct (cleanup_head (mark_dead l st) s u' us Hinv Hl) as ((o&Hp&Hm&_)&_).
  assert (Hn : us_pObj u' ∉ l).
  { intros Hin. rewrite mark_lookup, decide_True in Hp by done. by destruct (o_heap st !! us_pObj u'); simplify_eq/=. }
  cbn [o_heap set_pUsage] in *. rewrite mark_lookup, decide_False by done.
  destruct (_ <? _); simplify_eq; (split; [done|]); [|done]. by rewrite (mark_upd l (set_pUsage _ _ _)).
Qed.

Lemma destroy_state st p : (ObjDestroy st p).1 = set_heap (delete p (o_heap st)) st.
Proof.
  unfold ObjDestroy. destruct (o_heap st !! p) eqn:E; [done|]. simpl. rewrite delete_id by done. by destruct st.
Qed.

Lemma obj_step_inv x y : reg_inv x.1 x.2 → obj_step x y → reg_inv y.1 y.2.
Proof.
  intros Hreg Hstep. revert Hreg.
  destruct Hstep as [st l ses t pfn p1 p2 rO rU HO HU|st l ses p obj a HO HU Hm Hc|st l p ses nb rU HU Hlt Hn
    |st l p ses a Hm HU Hlt Hn|st l p ses Hm|st l p Hm|st l s u b st' Hcl|st l p Hin];
    intros Hreg; cbn [fst snd] in *; pose proof Hreg as (Hinv&Hnd&Hal)%reg_inv_mark.
  - assert (Hfr : ∀ p, rO = Some p → p ∉ l).
    { intros p E Hin. pose proof (Hal p Hin) as Hm. unfold obj_magic in Hm. by rewrite (HO p E) in Hm. }
    apply reg_inv_mark. rewrite mark_register by done. split_and!; [|done|].
    + apply register_inv; [done| |done]. intros p E. rewrite mark_lookup, decide_False by auto. auto.
    + intros p Hp. unfold SUPR0ObjRegister. repeat case_match; try (by apply Hal); unfold obj_magic; simpl;
        (rewrite lookup_insert_ne; [by apply Hal|intros ->; by eapply Hfr]).
  - assert (Hfr : p ∉ l). { intros Hin. pose proof (Hal p Hin) as E. unfold obj_magic in E. by rewrite HO in E. }
    apply reg_inv_mark. rewrite mark_insert by done. split_and!; [|done|].
    + refine (proj1 (inv_register (mark_dead l st) (s_self ses) p a obj Hinv _ HU Hm Hc)).
      by rewrite mark_lookup, decide_False.
    + intros q Hq. unfold obj_magic; simpl. rewrite lookup_insert_ne by congruence. by apply Hal.
  - apply reg_inv_mark. rewrite mark_addref by done. split_and!; [by apply addref_inv|done|].
    intros q Hq. rewrite <- (Hal q Hq). apply addref_magic. congruence.
  - apply reg_inv_mark. rewrite mark_commit by done. split_and!; [|done|].
    + destruct (ObjAddRef_commit (mark_dead l st) ses p (Some a)) as [rc st'] eqn:E.
      destruct (commit_spec _ _ _ _ _ _ Hinv (eq_trans (mark_magic l st p Hn) Hm) Hlt
        (λ b Hb, eq_ind a (λ b, slots st b = 0) HU b (inj Some _ _ Hb)) E) as [? _]. done.
    + intros q Hq. rewrite <- (Hal q Hq). apply commit_magic. congruence.
  - destruct (decide (p ∈ l)) as [Hin|Hn].
    + assert (E : (ObjRelease_locked st p ses).2 = st); [|by rewrite E].
      unfold ObjRelease_locked. destruct (find_split _ _) as [[[pr u] post]|] eqn:F; [exfalso|done].
      destruct (inv_find (mark_dead l st) Hinv (s_self ses) p pr u post F) as (_&_&Hr&Hu&_).
      pose proof (sess_refs_le_total _ Hinv (s_self ses) p). destruct (ri_doomed _ _ Hreg p Hin) as [Ht _].
      change (total (mark_dead l st) p) with (total st p) in *. lia.
    + apply reg_inv_mark. rewrite mark_release by done. split_and!; [|done|].
      * apply release_locked_inv; [done|by rewrite mark_magic].
      * intros q Hq. rewrite <- (Hal q Hq). apply release_magic. congruence.
  - assert (Hn : p ∉ l). { intros Hin. by rewrite (Hal p Hin) in Hm. }
    rewrite destroy_state. apply reg_inv_mark. rewrite <- (list_unlink_id p l) at 1 by done.
    rewrite mark_delete by done. split_and!; [|done|].
    + apply inv_delete_dead; [done|by rewrite mark_magic].
    + intros q Hq. unfold obj_magic; simpl. rewrite lookup_delete_ne by congruence. by apply Hal.
  - destruct (mark_unlink _ _ _ _ _ _ Hreg Hcl) as [Hn Hcl']. apply reg_inv_mark.
    destruct (cleanup_locked_spec _ _ _ _ _ Hinv Hcl') as [Hmu Hi].
    pose proof (unlink_magic _ _ _ _ _ Hcl) as Hal'.
    destruct b; split_and!.
    + by rewrite mark_cons.
    + by constructor.
    + intros q [->|Hq]%elem_of_cons; rewrite Hal'; [by rewrite mark_magic in Hmu|by apply Hal].
    + done.
    + done.
    + intros q Hq. rewrite Hal'. by apply Hal.
  - rewrite destroy_state. apply reg_inv_mark. rewrite mark_delete by done. split_and!.
    + apply inv_delete_dead; [done|]. unfold obj_magic. rewrite mark_lookup, decide_True by done.
      by destruct (obj_magic_lookup _ _ (Hal p Hin)) as (o&->&_).
    + by apply NoDup_list_unlink.
    + intros q [Hq Hne]%elem_of_list_unlink; [|done]. unfold obj_magic; simpl.
      rewrite lookup_delete_ne by done. by apply Hal.
Qed.

Lemma obj_steps_inv x y : reg_inv x.1 x.2 → rtc obj_step x y → reg_inv y.1 y.2.
Proof. intros H Hs. induction Hs; eauto using obj_step_inv. Qed.

(** A turn of the cleanup is a run of steps, those of the other threads in between. *)
Lemma cleanup_usage_run st doomed s others st' ev doomed' :
  cleanup_usage st s others = Some (st', ev) →
  (∀ u fDestroy st1, cleanup_usage_locked st s = Some (u, fDestroy, st1) →
     let add l := if fDestroy : bool then us_pObj u :: l else l in
     rtc obj_step (st1, add doomed) (others st1, add doomed')) →
  rtc obj_step (st, doomed) (st', doomed').
Proof.
  intros H Hoth. unfold cleanup_usage in H. destruct (cleanup_usage_locked st s) as [[[u b] st1]|] eqn:E; [|done].
  specialize (Hoth u b st1 eq_refl). simpl in Hoth. eapply rtc_l; [by apply (ostep_unlink st doomed s u b st1)|].
  destruct b; [|by simplify_eq]. eapply rtc_r; [exact Hoth|].
  assert (st' = (ObjDestroy (others st1) (us_pObj u)).1) as -> by by destruct (ObjDestroy _ _); simplify_eq.
  pose proof (ostep_destroy_unlinked (others st1) (us_pObj u :: doomed') (us_pObj u) ltac:(left)) as Hd.
  simpl in Hd. by rewrite Z.eqb_refl in Hd.
Qed.

Lemma obj_init_inv : obj_inv obj_init.
Proof.
  constructor; simpl; try done.
  - constructor.
  - intros p. set_solver.
Qed.

Lemma release_session_guard pSession :
  SUP_IS_SESSION_VALID pSession = false → ∀ st p,
  SUPR0ObjRelease st p pSession = (VERR_INVALID_PARAMETER, st, []).
Proof. intros H st p. unfold SUPR0ObjRelease. by rewrite H. Qed.

Lemma single_ref st s p :
  obj_inv st → total st p = sess_refs st s p → ∀ s', s' ≠ s → sess_refs st s' p = 0.
Proof.
  intros Hinv Ht s' Hne. pose proof (sess_refs_nonneg st Hinv s' p).
  unfold total in Ht. unfold sess_refs, sess_usage in *.
  destruct (pUsage st !! s') as [l'|] eqn:E'; simpl in *; [|done].
  rewrite (gsum_delete _ _ _ _ E') in Ht.
  assert (∀ k x, delete s' (pUsage st) !! k = Some x → 0 ≤ sess_count p x) as Hnn.
  { intros k x [_ Hx]%lookup_delete_Some. by eapply sess_count_nonneg, oi_sess. }
  destruct (pUsage st !! s) as [l|] eqn:E; simpl in *.
  - assert (sess_count p l ≤ gsum (sess_count p) (delete s' (pUsage st))); [|lia].
    apply (gsum_elem _ _ s); [done|]. by rewrite lookup_delete_ne.
  - change (sess_count p []) with 0 in Ht.
    pose proof (gsum_nonneg _ _ Hnn). lia.
Qed.

(** A release, case by case. *)
Lemma release_cases st pSession p rc st' ev :
  obj_inv st → SUP_IS_SESSION_VALID pSession = true → VALID_PTR p = true →
  obj_magic st p = SUPDRVOBJ_MAGIC →
  SUPR0ObjRelease st p pSession = (rc, st', ev) →
  let s := s_self pSession in
  (sess_refs st s p = 0 ∧ rc = VERR_INVALID_PARAMETER ∧ st' = st ∧ ev = []) ∨
  (0 < sess_refs st s p ∧ obj_inv st' ∧
   (∀ s' q, sess_refs st' s' q = bump (sess_refs st) s p (-1) s' q) ∧
   ((1 < total st p ∧ rc = VINF_SUCCESS ∧ ev = [] ∧ same_objs st st') ∨
    (total st p = 1 ∧ rc = VINF_OBJECT_DESTROYED ∧
     o_heap st' = delete p (o_heap st) ∧ pObjs st' = list_unlink p (pObjs st) ∧
     ∃ o, o_heap st !! p = Some o ∧ ev = destroy_events p o))).
Proof.
  intros Hinv Hs Hv Hm Heq s. unfold SUPR0ObjRelease in Heq. rewrite Hs, Hv, Hm in Heq.
  simpl in Heq. destruct (ObjRelease_locked st p pSession) as [rc1 st1] eqn:E.
  destruct (release_locked_spec _ _ _ _ _ Hinv Hm E)
    as [(?&->&->)|(?&Hinv1&Hb&[(?&->&?)|(Ht&->&Hu&Hh)])]; simpl in Heq.
  - injection Heq as <- <- <-. by left.
  - injection Heq as <- <- <-. right. split_and!; [done|done|done|]. by left.
  - destruct (obj_magic_lookup _ _ Hm) as (o&Ho&_).
    assert (o_heap st1 !! p = Some (set_magic SUPDRVOBJ_MAGIC_DEAD o)) as Ho1.
    { by rewrite Hh, lookup_alter_eq, Ho. }
    unfold ObjDestroy in Heq. rewrite Ho1 in Heq. simpl in Heq. injection Heq as <- <- <-.
    right. split; [done|]. split.
    { apply inv_delete_dead; [done|]. unfold obj_magic. by rewrite Ho1. }
    split; [done|]. right. split_and!; [done|done| |done|exists o; done]; simpl.
    rewrite Hh. apply map_eq. intros q. destruct (decide (q = p)) as [->|].
    + by rewrite !lookup_delete_eq.
    + by rewrite !lookup_delete_ne, lookup_alter_ne by done.
Qed.

(** * Properties *)

(** C10. The registry is well formed between the spinlock's sections, whatever sequence of
    registrations, [AddRef]s, releases and session cleanups the threads run: [pObjs] lists
    the live objects once each, the usage count of a live object is the number of references
    the sessions record (positive, and without wrap-around), a dead object has no references,
    a session has at most one usage record per object, no usage record is linked twice, and
    the objects a cleanup has unlinked but not yet destroyed are in memory with no
    references.  The steps are the sections under the spinlock and the destructions outside
    of it, those of a cleanup included, interleaved in any way.  They assume an allocator that
    returns blocks not in use and counts below [2^32], and that no thread takes a reference
    to an object between its unlinking and its destruction by a cleanup: the code does not
    prevent that, as [supdrvCleanupSession] does not mark the object dead, and the reference
    would then outlive the object ([cleanup_window_addref]). *)
Theorem registry_invariant st doomed : obj_reach (st, doomed) → reg_inv st doomed.
Proof.
  intros H. apply (obj_steps_inv (obj_init, []) (st, doomed)); [|exact H]. apply reg_inv_nil, obj_init_inv.
Qed.

(** C11. [SUPR0ObjRelease] on a live object refines the abstract release: a session
    without a reference gets [VERR_INVALID_PARAMETER] and nothing changes; otherwise the
    session's count drops by exactly one, no other count changes, and the object is
    destroyed (destructor called once with the registered arguments, structure freed,
    unlinked from [pObjs]) exactly when this was the last reference of all sessions. *)
Theorem release_refines st pSession p rc st' ev :
  obj_inv st → SUP_IS_SESSION_VALID pSession = true → VALID_PTR p = true →
  obj_magic st p = SUPDRVOBJ_MAGIC →
  SUPR0ObjRelease st p pSession = (rc, st', ev) →
  let s := s_self pSession in
  (sess_refs st s p = 0 ∧ rc = VERR_INVALID_PARAMETER ∧ st' = st ∧ ev = []) ∨
  (0 < sess_refs st s p ∧ obj_inv st' ∧
   (∀ s' q, sess_refs st' s' q = bump (sess_refs st) s p (-1) s' q) ∧
   ((1 < total st p ∧ rc = VINF_SUCCESS ∧ ev = [] ∧ same_objs st st') ∨
    (total st p = 1 ∧ rc = VINF_OBJECT_DESTROYED ∧
     o_heap st' = delete p (o_heap st) ∧ pObjs st' = list_unlink p (pObjs st) ∧
     ∃ o, o_heap st !! p = Some o ∧ ev = destroy_events p o))).
Proof. apply release_cases. Qed.

(** [SUPR0ObjAddRefEx] with the other threads running while it allocates: it either
    succeeds, and then the object is live at that moment and the session's count of it is
    the only one that changes, by one; or it fails with an error and every count is what
    the other threads left.  [VERR_TRY_AGAIN] is only returned to a caller that may not
    block and whose session holds no reference.  The invariant is kept in all cases. *)
Lemma addref_refines st pSession p (fNoBlocking : bool) rUsage others rc st' :
  let base := if fNoBlocking then st else after_window st others in
  obj_inv st → rtc obj_step (st, []) (others st, []) →
  (∀ a, rUsage = Some a → slots base a = 0) → total base p + 1 < 2 ^ 32 →
  SUPR0ObjAddRefEx st p pSession fNoBlocking rUsage others = (rc, st') →
  obj_inv st' ∧
  ((rc = VINF_SUCCESS ∧ obj_magic base p = SUPDRVOBJ_MAGIC ∧ same_objs base st' ∧
    ∀ s q, sess_refs st' s q = bump (sess_refs base) (s_self pSession) p 1 s q)
   ∨ (RT_FAILURE rc = true ∧ (st' = st ∨ st' = base) ∧
      (rc = VERR_TRY_AGAIN → fNoBlocking = true ∧ sess_refs st (s_self pSession) p = 0))).
Proof.
  intros base Hinv Hoth. apply addref_spec; [done|]. fold base.
  unfold base, after_window. destruct fNoBlocking; [done|].
  destruct (pUsageFree st); [|done]. apply reg_inv_nil. apply (obj_steps_inv (st, []) (others st, [])); [|done].
  by apply reg_inv_nil.
Qed.

(** Registering an object and releasing it at once is a round trip: the release
    reports the destruction, calls the destructor that was registered, with its
    arguments, frees the structure, and leaves the objects and every session's counts as
    they were. *)
Lemma register_release_roundtrip st pSession enmType pfn pv1 pv2 rObj rUsage p st1 ev :
  obj_inv st → (∀ q, rObj = Some q → o_heap st !! q = None ∧ VALID_PTR q = true) →
  (∀ a, rUsage = Some a → slots st a = 0) →
  SUPR0ObjRegister st pSession enmType pfn pv1 pv2 rObj rUsage id = (p, st1, ev) →
  p ≠ NULL →
  ∃ st2, SUPR0ObjRelease st1 p pSession
         = (VINF_OBJECT_DESTROYED, st2, [EvDestructor pfn p pv1 pv2; EvMemFree p]) ∧
    o_heap st2 = o_heap st ∧ pObjs st2 = pObjs st ∧
    ∀ s q, sess_refs st2 s q = sess_refs st s q.
Proof.
  intros Hinv Hr Hu Hreg Hp.
  assert (after_window st id = st) as Eb by (unfold after_window; by destruct (pUsageFree st)).
  destruct (register_spec _ _ _ _ _ _ _ _ _ _ _ _ Hreg) as [[-> _]|H]; rewrite ?Eb in *;
    [done|done|naive_solver|done|done|].
  destruct H as (Hargs&->&->&Hinv1&Hh&Hos&Hb). destruct (Hr p eq_refl) as [Hnone Hv].
  unfold register_args_ok in Hargs. zbool.
  assert (obj_magic st1 p = SUPDRVOBJ_MAGIC) as Hm.
  { unfold obj_magic. by rewrite Hh, lookup_insert_eq. }
  assert (∀ s, sess_refs st s p = 0) as Hz.
  { intros s. pose proof (sess_refs_nonneg st Hinv s p). pose proof (sess_refs_le_total st Hinv s p).
    rewrite (inv_no_refs st Hinv p Hnone) in *. lia. }
  assert (sess_refs st1 (s_self pSession) p = 1) as Hr1.
  { rewrite Hb. unfold bump. rewrite Hz. destruct (decide _); [done|tauto]. }
  assert (total st1 p = 1) as Ht.
  { destruct (oi_obj _ Hinv1 p _ ltac:(by rewrite Hh, lookup_insert_eq)) as [(_&Hc&_)|[Hd _]];
      [by rewrite <- Hc|done]. }
  unfold SUPR0ObjRelease. rewrite Hm. rewrite (proj2 (Z.eqb_eq _ _) eq_refl).
  replace (SUP_IS_SESSION_VALID pSession) with true by congruence. rewrite Hv. simpl.
  destruct (ObjRelease_locked st1 p pSession) as [rc st2] eqn:E.
  destruct (release_locked_spec _ _ _ _ _ Hinv1 Hm E) as [(?&_)|(_&_&Hb2&[(?&_)|(_&->&Hu2&Hh2)])];
    [lia|lia|]. simpl. unfold ObjDestroy. rewrite Hh2, lookup_alter_eq, Hh, lookup_insert_eq. simpl.
  assert ((pfn =? NULL) = false) as ->.
  { destruct (Z.eqb_spec pfn NULL) as [->|]; [done|done]. }
  simpl. eexists. split; [done|]. simpl. split_and!.
  - apply map_eq. intros q. destruct (decide (q = p)) as [->|].
    + by rewrite lookup_delete_eq.
    + by rewrite lookup_delete_ne, lookup_alter_ne, lookup_insert_ne by done.
  - rewrite Hu2, Hos. simpl. by rewrite Z.eqb_refl.
  - intros s q. change (sess_refs st2 s q = sess_refs st s q). rewrite Hb2. unfold bump.
    rewrite !Hb. unfold bump. destruct (decide _); lia.
Qed.

(** [supdrvCleanupSession] gives up all the references of the session: its usage list
    is empty afterwards, the other sessions keep theirs, an object survives with the
    references of the others, an object this session was the only user of is destroyed,
    and the calls made are exactly its destructor and the [RTMemFree] of the object and
    of every usage record, in list order. *)
Lemma cleanup_objs_spec st s st' ev :
  obj_inv st → supdrvCleanupSession_objs st s (λ _, id) = (st', ev) →
  obj_inv st' ∧ sess_usage st' s = [] ∧
  (∀ s', s' ≠ s → sess_usage st' s' = sess_usage st s') ∧
  pUsageFree st' = pUsageFree st ∧
  (∀ p, o_heap st' !! p = cleanup_obj st s p) ∧
  ev = cleanup_events st (sess_usage st s).
Proof. intros Hinv. by apply cleanup_usages_spec. Qed.

(** A released object cannot come back: once [SUPR0ObjRelease] has dropped the last
    reference under the spinlock, and until the structure is freed, [SUPR0ObjAddRefEx]
    from any session fails and changes nothing. *)
Lemma release_blocks_addref st pSession p st' :
  obj_inv st → obj_magic st p = SUPDRVOBJ_MAGIC →
  ObjRelease_locked st p pSession = (VINF_OBJECT_DESTROYED, st') →
  ∀ pSession' fNoBlocking rUsage others, ∃ rc,
    SUPR0ObjAddRefEx st' p pSession' fNoBlocking rUsage others = (rc, st') ∧
    RT_FAILURE rc = true.
Proof.
  intros Hinv Hm E pSession' nb rU others.
  destruct (release_locked_spec _ _ _ _ _ Hinv Hm E) as [(_&?&_)|(_&_&_&[(_&?&_)|(_&_&_&Hh)])];
    [done|done|].
  destruct (obj_magic_lookup _ _ Hm) as (o&Ho&_).
  assert (obj_magic st' p = SUPDRVOBJ_MAGIC_DEAD) as Hd.
  { unfold obj_magic. by rewrite Hh, lookup_alter_eq, Ho. }
  unfold SUPR0ObjAddRefEx. rewrite Hd. simpl.
  destruct (SUP_IS_SESSION_VALID pSession'); simpl; [|eauto].
  destruct (VALID_PTR p); simpl; eauto.
Qed.

(** [supdrvCleanupSession] does not close the same window: it unlinks the object
    whose last reference goes away without marking it dead, so before the structure is
    freed [SUPR0ObjAddRefEx] from another session that finds a free usage record succeeds
    and records a reference to the object that is about to be destroyed. *)
Lemma cleanup_window_addref st s u st1 pSession a free :
  obj_inv st → cleanup_usage_locked st s = Some (u, true, st1) →
  pUsageFree st = a :: free → SUP_IS_SESSION_VALID pSession = true →
  VALID_PTR (us_pObj u) = true → s_self pSession ≠ s →
  (us_pObj u ∉ pObjs st1) ∧
  ∀ rUsage others, ∃ st2,
    SUPR0ObjAddRefEx st1 (us_pObj u) pSession true rUsage others = (VINF_SUCCESS, st2) ∧
    mkUsage a (us_pObj u) 1 ∈ sess_usage st2 (s_self pSession).
Proof.
  intros Hinv Hcl Hfree Hs Hv Hne. unfold cleanup_usage_locked in Hcl.
  destruct (sess_usage st s) as [|u' us] eqn:Hl; [done|].
  destruct (_ <? _) eqn:Hlt; [done|]. injection Hcl as -> <-. simpl in Hlt.
  set (p := us_pObj u) in *.
  destruct (inv_find st Hinv s p [] u us) as (_&_&Hr&Hu1&_).
  { rewrite Hl; simpl. by rewrite Z.eqb_refl. }
  pose proof (sess_refs_le_total st Hinv s p).
  destruct (inv_refs st Hinv p) as (o&Hp&Hm&Hc&_); [lia|].
  rewrite Hp in Hlt; simpl in Hlt. zbool.
  assert (sess_refs st (s_self pSession) p = 0) as Hz.
  { apply (single_ref st s); [done| |done]. lia. }
  split. { simpl. rewrite elem_of_list_unlink by apply Hinv. naive_solver. }
  intros rU others. unfold SUPR0ObjAddRefEx, obj_magic; simpl.
  rewrite Hs, Hv, Hp; simpl. rewrite Hm; simpl. rewrite Hfree. rewrite commit_new.
  - eexists. split; [done|]. unfold move_refs. rewrite sess_usage_insert.
    destruct (decide _); [|done]. left.
  - destruct (find_split _ _) as [[[pr v] post]|] eqn:F; [|done]. exfalso.
    assert (sess_usage st (s_self pSession) = pr ++ v :: post) as Hl2.
    { apply find_split_Some in F as (F&_). unfold sess_usage in F; simpl in F.
      rewrite lookup_insert_ne in F by done. exact F. }
    apply find_split_Some in F as (_&Hv2&_). apply Z.eqb_eq in Hv2.
    assert (1 ≤ sess_refs st (s_self pSession) p); [|lia]. rewrite <- Hv2.
    unfold sess_refs. eapply us_count_pos; [by apply inv_sess|]. rewrite Hl2. set_solver.
Qed.

(** [SUPR0ObjVerifyAccess] grants access exactly when the session and the object are
    valid and the object was created by the same user. *)
Lemma verify_access_iff st p pSession :
  SUPR0ObjVerifyAccess st p pSession = VINF_SUCCESS ↔
  SUP_IS_SESSION_VALID pSession = true ∧ VALID_PTR p = true ∧
  ∃ o, o_heap st !! p = Some o ∧ obj_u32Magic o = SUPDRVOBJ_MAGIC ∧
       obj_CreatorUid o = s_Uid pSession.
Proof.
  unfold SUPR0ObjVerifyAccess. destruct (SUP_IS_SESSION_VALID pSession); simpl; [|naive_solver].
  destruct (o_heap st !! p) as [o|]; [|naive_solver].
  destruct (VALID_PTR p); simpl; [|naive_solver].
  destruct (Z.eqb_spec (obj_u32Magic o) SUPDRVOBJ_MAGIC); simpl; [|naive_solver].
  destruct (Z.eqb_spec (obj_CreatorUid o) (s_Uid pSession)); naive_solver.
Qed.

(** * Witnesses *)

(** Session A is closed: its object is unlinked, and destroyed later. *)
Definition demo4 : ObjState := from_option snd demo3 (cleanup_usage_locked demo3 0x10000).

Lemma demo_reach : obj_reach (demo1, []) ∧ obj_reach (demo2, []) ∧ obj_reach (demo3, []) ∧ obj_reach (demo4, [0x20000]).
Proof.
  assert (H1 : obj_step (obj_init, []) (demo1, [])).
  { apply ostep_register; [intros ? [= <-]; done|intros ? [= <-]; done]. }
  assert (H2 : obj_step (demo1, []) (demo2, [])).
  { apply (ostep_addref demo1 [] 0x20000 demoB);
      [intros ? [= <-]; by vm_compute|by vm_compute|apply not_elem_of_nil]. }
  assert (H3 : obj_step (demo2, []) (demo3, [])) by by apply ostep_release.
  assert (H4 : obj_step (demo3, []) (demo4, [0x20000])).
  { exact (ostep_unlink demo3 [] 0x10000 (mkUsage 0x30000 0x20000 1) true demo4 eq_refl). }
  split_and!; unfold obj_reach; eauto 10 using rtc_l, rtc_refl.
Qed.

Lemma demo_inv : obj_inv demo1 ∧ obj_inv demo2 ∧ obj_inv demo3.
Proof.
  destruct demo_reach as (H1&H2&H3&_).
  split_and!; apply reg_inv_nil; (eapply (obj_steps_inv (obj_init, []) (_, [])); [apply reg_inv_nil, obj_init_inv|eassumption]).
Qed.

Lemma registry_invariant_witness : obj_reach (demo4, [0x20000]) ∧ reg_inv demo4 [0x20000] ∧ pObjs demo4 = [].
Proof.
  split; [apply demo_reach|]. split; [|by vm_compute].
  apply (registry_invariant demo4 [0x20000]). apply demo_reach.
Defined.

Lemma release_refines_witness :
  ∃ st' ev, SUPR0ObjRelease demo1 0x20000 demoA = (VINF_OBJECT_DESTROYED, st', ev) ∧
            o_heap st' = delete 0x20000 (o_heap demo1).
Proof.
  eexists _, _. split; [reflexivity|].
  destruct (release_refines demo1 demoA 0x20000 _ _ _ (proj1 demo_inv) eq_refl eq_refl eq_refl eq_refl)
    as [(_&H&_)|(_&_&_&[(_&H&_)|(_&_&H&_)])]; [by vm_compute in H|by vm_compute in H|exact H].
Defined.

Lemma addref_refines_witness :
  ∃ st', SUPR0ObjAddRefEx demo1 0x20000 demoB false (Some 0x31000) id = (VINF_SUCCESS, st') ∧
         obj_inv st'.
Proof.
  eexists. split; [reflexivity|].
  eapply (addref_refines demo1 demoB 0x20000 false (Some 0x31000) id VINF_SUCCESS);
    [apply demo_inv|apply rtc_refl|intros ? [= <-]; by vm_compute|by vm_compute|reflexivity].
Defined.

Lemma register_release_roundtrip_witness :
  ∃ st2, SUPR0ObjRelease demo1 0x20000 demoA
         = (VINF_OBJECT_DESTROYED, st2, [EvDestructor 0xa0000 0x20000 7 8; EvMemFree 0x20000]) ∧
         pObjs st2 = [].
Proof.
  destruct (register_release_roundtrip obj_init demoA SUPDRVOBJTYPE_SEM_EVENT 0xa0000 7 8
              (Some 0x20000) (Some 0x30000) 0x20000 demo1 []) as (st2&H&_&H2&_);
    [apply obj_init_inv|intros ? [= <-]; by vm_compute|intros ? [= <-]; by vm_compute
    |reflexivity|done|].
  exists st2. split; [exact H|exact H2].
Defined.

Lemma cleanup_objs_spec_witness :
  ∃ st' ev, supdrvCleanupSession_objs demo2 0x10000 (λ _, id) = (st', ev) ∧ sess_usage st' 0x10000 = [].
Proof.
  eexists _, _. split; [reflexivity|].
  destruct (cleanup_objs_spec demo2 0x10000 _ _ (proj1 (proj2 demo_inv)) eq_refl) as (_&H&_).
  exact H.
Defined.

Lemma release_blocks_addref_witness :
  ∃ st' rc, ObjRelease_locked demo1 0x20000 demoA = (VINF_OBJECT_DESTROYED, st') ∧
    SUPR0ObjAddRefEx st' 0x20000 demoB true None id = (rc, st') ∧ RT_FAILURE rc = true.
Proof.
  eexists. edestruct (release_blocks_addref demo1 demoA 0x20000) as (rc&H1&H2);
    [apply demo_inv|reflexivity|reflexivity|].
  exists rc. split; [reflexivity|]. split; [exact H1|exact H2].
Defined.

Lemma cleanup_window_addref_witness :
  ∃ u st1 st2, cleanup_usage_locked demo3 0x10000 = Some (u, true, st1) ∧
    SUPR0ObjAddRefEx st1 0x20000 demoB true None id = (VINF_SUCCESS, st2).
Proof.
  eexists _, _.
  destruct (cleanup_window_addref demo3 0x10000 (mkUsage 0x30000 0x20000 1) _ demoB 0x31000 []
              (proj2 (proj2 demo_inv)) eq_refl eq_refl eq_refl eq_refl ltac:(done)) as [_ H].
  destruct (H None id) as (st2&H2&_). exists st2. split; [reflexivity|exact H2].
Defined.
