(* ===== verification/MemTrack.v ===== *)
(** The tracking of memory objects by a session: [SUPDRVBUNDLE], [supdrvMemAdd],
    [supdrvMemRelease], [SUPR0MemGetPhys] and the memory part of [supdrvCleanupSession].

    A session's bundles are the list that starts with the bundle embedded in the session
    ([pSession->Bundle]) and follows [pNext].  The memory objects themselves are IPRT's:
    what the driver relies on is the class [MemObjApi]. *)

From S2P Require Import Prelude SupTypes.
Local Open Scope Z_scope.

(** * The memory object interface *)

(** What the [RTR0MemObj*] functions answer: the creating ones a status and a handle, the
    queries a function of the handle. *)
Class MemObjApi := {
  RTR0MemObjAddress : Z → ptr;
  RTR0MemObjAddressR3 : Z → ptr;
  RTR0MemObjSize : Z → Z;
  RTR0MemObjGetPagePhysAddr : Z → Z → Z;
  RTR0MemObjAllocPage : Z → bool → Z * Z;
  RTR0MemObjAllocLow : Z → bool → Z * Z;
  RTR0MemObjAllocCont : Z → bool → Z * Z;
  RTR0MemObjAllocPhysNC : Z → Z → Z * Z;
  RTR0MemObjLockUser : ptr → Z → Z → Z * Z;
  RTR0MemObjMapUser : Z → ptr → Z → Z → Z * Z;
  RTR0MemObjMapKernelEx : Z → ptr → Z → Z → Z → Z → Z * Z;
  RTR0MemObjProtect : Z → Z → Z → Z → Z;
}.

(** * Data *)

Inductive SUPDRVMEMREFTYPE :=
| MEMREF_TYPE_UNUSED
| MEMREF_TYPE_LOCKED
| MEMREF_TYPE_CONT
| MEMREF_TYPE_LOW
| MEMREF_TYPE_MEM
| MEMREF_TYPE_PAGE.

#[export] Instance SUPDRVMEMREFTYPE_eq_dec : EqDecision SUPDRVMEMREFTYPE.
Proof. solve_decision. Defined.

Record SUPDRVMEMREF := mkMemRef {
  MemObj : Z;
  MapObjR3 : Z;
  eType : SUPDRVMEMREFTYPE;
}.

Definition memref_unused : SUPDRVMEMREF :=
  mkMemRef NIL_RTR0MEMOBJ NIL_RTR0MEMOBJ MEMREF_TYPE_UNUSED.

(** [RT_ELEMENTS(pBundle->aMem)] *)
Definition BUNDLE_ELEMENTS : Z := 64.

Record SUPDRVBUNDLE := mkBundle {
  bu_self : ptr;
  aMem : list SUPDRVMEMREF;
  cUsed : Z;
}.

Definition SessMem := list SUPDRVBUNDLE.

(** A zeroed bundle. *)
Definition bundle_zero (p : ptr) : SUPDRVBUNDLE :=
  mkBundle p (replicate (Z.to_nat BUNDLE_ELEMENTS) memref_unused) 0.

Definition sessmem_init (pBundle : ptr) : SessMem := [bundle_zero pBundle].

Definition entry_free (m : SUPDRVMEMREF) : bool := MemObj m =? NIL_RTR0MEMOBJ.
Definition entry_live (m : SUPDRVMEMREF) : bool := negb (entry_free m).

(** * Operations *)

(** [supdrvMemAdd], the search for a free entry. *)
Fixpoint bundles_add (m : SessMem) (pMem : SUPDRVMEMREF) : option SessMem :=
  match m with
  | [] => None
  | pBundle :: pNext =>
      let next := (λ m', pBundle :: m') <$> bundles_add pNext pMem in
      if cUsed pBundle <? BUNDLE_ELEMENTS then
        match find_split entry_free (aMem pBundle) with
        | Some (pre, _, post) =>
            Some (mkBundle (bu_self pBundle) (pre ++ pMem :: post) (u32 (cUsed pBundle + 1))
                    :: pNext)
        | None => next
        end
      else next
  end.

(** [rAlloc] is what [RTMemAllocZ] returns for a new bundle; [others] is what the other
    threads of the process do to the list while the spinlock is released. *)
Definition supdrvMemAdd (m : SessMem) (pMem : SUPDRVMEMREF) (rAlloc : option ptr)
    (others : SessMem → SessMem) : Z * SessMem :=
  match bundles_add m pMem with
  | Some m' => (VINF_SUCCESS, m')
  | None =>
      match rAlloc with
      | None => (VERR_NO_MEMORY, others m)
      | Some p =>
          let z := bundle_zero p in
          let pBundle := mkBundle p
                           (<[Z.to_nat (BUNDLE_ELEMENTS - 1) := pMem]> (aMem z))
                           (u32 (cUsed z + 1)) in
          match others m with
          | [] => (VINF_SUCCESS, [pBundle])
          | Bundle :: pNext => (VINF_SUCCESS, Bundle :: pBundle :: pNext)
          end
      end
  end.

Section api.
Context `{MemObjApi}.

(** The entry a caller's ring-0 or ring-3 address stands for. *)
Definition entry_matches (uPtr : ptr) (t : SUPDRVMEMREFTYPE) (e : SUPDRVMEMREF) : bool :=
  bool_decide (eType e = t) && negb (MemObj e =? NIL_RTR0MEMOBJ)
  && ((RTR0MemObjAddress (MemObj e) =? uPtr)
      || (negb (MapObjR3 e =? NIL_RTR0MEMOBJ) && (RTR0MemObjAddressR3 (MapObjR3 e) =? uPtr))).

(** The search loop: bundles with [cUsed > 0], entries in order. *)
Fixpoint bundles_find (f : SUPDRVMEMREF → bool) (m : SessMem) : option SUPDRVMEMREF :=
  match m with
  | [] => None
  | pBundle :: pNext =>
      if 0 <? cUsed pBundle then
        match find_split f (aMem pBundle) with
        | Some (_, e, _) => Some e
        | None => bundles_find f pNext
        end
      else bundles_find f pNext
  end.

(** The same search when the entry found is copied and cleared.  [cUsed] stays. *)
Fixpoint bundles_take (f : SUPDRVMEMREF → bool) (m : SessMem)
    : option (SUPDRVMEMREF * SessMem) :=
  match m with
  | [] => None
  | pBundle :: pNext =>
      let next := match bundles_take f pNext with
                  | Some (e, m') => Some (e, pBundle :: m')
                  | None => None
                  end in
      if 0 <? cUsed pBundle then
        match find_split f (aMem pBundle) with
        | Some (pre, Mem, post) =>
            Some (Mem, mkBundle (bu_self pBundle) (pre ++ memref_unused :: post)
                         (cUsed pBundle) :: pNext)
        | None => next
        end
      else next
  end.

(** Freeing what an entry holds: the ring-3 mapping first. *)
Definition memref_free (Mem : SUPDRVMEMREF) : list event :=
  (if negb (MapObjR3 Mem =? NIL_RTR0MEMOBJ) then [EvMemObjFree (MapObjR3 Mem) false] else [])
  ++ (if negb (MemObj Mem =? NIL_RTR0MEMOBJ) then [EvMemObjFree (MemObj Mem) true] else []).

Definition supdrvMemRelease (m : SessMem) (uPtr : ptr) (t : SUPDRVMEMREFTYPE)
    : Z * SessMem * list event :=
  if uPtr =? 0 then (VERR_INVALID_PARAMETER, m, [])
  else
    match bundles_take (entry_matches uPtr t) m with
    | Some (Mem, m') => (VINF_SUCCESS, m', memref_free Mem)
    | None => (VERR_INVALID_PARAMETER, m, [])
    end.

(** [SUPR0MemGetPhys]; the pages it stores, or none. *)
Definition SUPR0MemGetPhys (m : SessMem) (pSession : SUPDRVSESSION) (uPtr paPages : ptr)
    : Z * list Z :=
  if negb (SUP_IS_SESSION_VALID pSession) then (VERR_INVALID_PARAMETER, [])
  else if negb (VALID_PTR paPages) then (VERR_INVALID_POINTER, [])
  else if uPtr =? 0 then (VERR_INVALID_PARAMETER, [])
  else
    match bundles_find (entry_matches uPtr MEMREF_TYPE_MEM) m with
    | Some e =>
        let cPages := Z.shiftr (RTR0MemObjSize (MemObj e)) PAGE_SHIFT in
        (VINF_SUCCESS, RTR0MemObjGetPagePhysAddr (MemObj e) <$> seqZ 0 cPages)
    | None => (VERR_INVALID_PARAMETER, [])
    end.
End api.

(** [supdrvCleanupSession], one entry and one bundle. *)
Definition cleanup_entry (e : SUPDRVMEMREF) : SUPDRVMEMREF * list event :=
  if negb (MemObj e =? NIL_RTR0MEMOBJ) then
    (memref_unused,
     (if negb (MapObjR3 e =? NIL_RTR0MEMOBJ) then [EvMemObjFree (MapObjR3 e) false] else [])
     ++ [EvMemObjFree (MemObj e) true])
  else (e, []).

Definition cleanup_bundle (b : SUPDRVBUNDLE) : SUPDRVBUNDLE * list event :=
  (mkBundle (bu_self b) (fst ∘ cleanup_entry <$> aMem b) 0,
   aMem b ≫= (snd ∘ cleanup_entry)).

(** The embedded bundle is emptied and stays, the others are freed. *)
Definition supdrvCleanupSession_mem (m : SessMem) : SessMem * list event :=
  match m with
  | [] => ([], [])
  | Bundle :: pNext =>
      let '(b, ev) := cleanup_bundle Bundle in
      ([b], ev ++ (pNext ≫= λ b, (cleanup_bundle b).2 ++ [EvMemFree (bu_self b)]))
  end.

(** * Specification *)

Definition is_EvMemFree (e : event) : bool :=
  match e with EvMemFree _ => true | _ => false end.

(** The memory objects the session tracks. *)
Definition tracked (m : SessMem) : list SUPDRVMEMREF :=
  m ≫= λ b, filter (λ e, entry_live e = true) (aMem b).

Definition used (b : SUPDRVBUNDLE) : Z :=
  Z.of_nat (length (filter (λ e, entry_live e = true) (aMem b))).

Record bundle_wf (b : SUPDRVBUNDLE) : Prop := {
  bw_len : length (aMem b) = Z.to_nat BUNDLE_ELEMENTS;
  bw_used : used b ≤ cUsed b ≤ BUNDLE_ELEMENTS;
}.

Definition mem_wf (m : SessMem) : Prop := m ≠ [] ∧ Forall bundle_wf m.

(** Sequences of calls on one session's bundles; [n] counts the entries added. *)
Inductive mem_steps `{MemObjApi} (p0 : ptr) : Z → SessMem → Prop :=
| mstep_init : mem_steps p0 0 (sessmem_init p0)
| mstep_add n m pMem rAlloc m' :
    mem_steps p0 n m → entry_live pMem = true →
    supdrvMemAdd m pMem rAlloc id = (VINF_SUCCESS, m') → mem_steps p0 (n + 1) m'
| mstep_release n m uPtr t rc m' ev :
    mem_steps p0 n m → supdrvMemRelease m uPtr t = (rc, m', ev) → mem_steps p0 n m'.

(** ** A concrete memory object layer, and a session that has locked and unlocked a page *)

Definition demo_api : MemObjApi := {|
  RTR0MemObjAddress h := 0xffff880000000000 + h;
  RTR0MemObjAddressR3 h := 0x7f0000000000 + h;
  RTR0MemObjSize h := 0x4000;
  RTR0MemObjGetPagePhysAddr h i := if h =? NIL_RTR0MEMOBJ then NIL_RTHCPHYS else 4096 * (h + i);
  RTR0MemObjAllocPage cb fExec := (VINF_SUCCESS, 0x5000);
  RTR0MemObjAllocLow cb fExec := (VINF_SUCCESS, 0x5000);
  RTR0MemObjAllocCont cb fExec := (VINF_SUCCESS, 0x5000);
  RTR0MemObjAllocPhysNC cb PhysHighest := (VINF_SUCCESS, 0x5000);
  RTR0MemObjLockUser pvR3 cb fAccess := (VINF_SUCCESS, 0x5000);
  RTR0MemObjMapUser h pvFixed uAlignment fProt := (VINF_SUCCESS, 0x6000);
  RTR0MemObjMapKernelEx h pvFixed uAlignment fProt offSub cbSub := (VINF_SUCCESS, 0x7000);
  RTR0MemObjProtect h off cb fProt := VINF_SUCCESS;
|}.

Definition demo_memref : SUPDRVMEMREF := mkMemRef 0x5000 0x6000 MEMREF_TYPE_MEM.
Definition demo_mem1 : SessMem := (supdrvMemAdd (sessmem_init 0x10100) demo_memref None id).2.

(** * Lemmas *)

#[global] Arguments tracked : simpl never.

Lemma tracked_cons b m :
  tracked (b :: m) = filter (λ e, entry_live e = true) (aMem b) ++ tracked m.
Proof. done. Qed.

Lemma entry_live_free e : entry_live e = true ↔ entry_free e = false.
Proof. unfold entry_live. by destruct (entry_free e). Qed.

Lemma filter_live_split pre x post :
  filter (λ e, entry_live e = true) (pre ++ x :: post) =
  filter (λ e, entry_live e = true) pre
  ++ (if entry_live x then [x] else []) ++ filter (λ e, entry_live e = true) post.
Proof.
  rewrite filter_app, filter_cons. f_equal. destruct (entry_live x); by case_decide.
Qed.

Lemma filter_live_unused n :
  filter (λ e, entry_live e = true) (replicate n memref_unused) = [].
Proof. induction n as [|n IH]; [done|]. simpl. rewrite filter_cons. by case_decide. Qed.

(** A bundle that is not full has a free entry: the loop's "can't be happening" is right. *)
Lemma bundle_has_free b :
  bundle_wf b → cUsed b < BUNDLE_ELEMENTS → find_split entry_free (aMem b) ≠ None.
Proof.
  intros [Hlen [Hu _]] Hlt Hn%find_split_None.
  assert (filter (λ e, entry_live e = true) (aMem b) = aMem b) as E.
  { apply filter_all. eapply Forall_impl; [exact Hn|]. intros e. apply entry_live_free. }
  unfold used in Hu. rewrite E, Hlen in Hu. unfold BUNDLE_ELEMENTS in *. lia.
Qed.

Lemma bundles_add_None m pMem :
  Forall bundle_wf m → bundles_add m pMem = None ↔ Forall (λ b, cUsed b = BUNDLE_ELEMENTS) m.
Proof.
  intros Hwf. induction Hwf as [|b m Hb Hm IH]; simpl; [done|].
  pose proof (bw_used b Hb). destruct (Z.ltb_spec (cUsed b) BUNDLE_ELEMENTS).
  - pose proof (bundle_has_free b Hb ltac:(done)).
    destruct (find_split _ _) as [[[pre x] post]|]; [|done].
    split; [done|]. intros Hf. inversion Hf; subst. lia.
  - rewrite fmap_None, IH, Forall_cons. split; [|tauto]. intros; split; [lia|done].
Qed.

(** What storing [x] in the place of entry [y] does to a bundle. *)
Lemma bundle_store p pre x y post n :
  bundle_wf (mkBundle p (pre ++ y :: post) n) →
  ∀ n', n' ≤ BUNDLE_ELEMENTS →
  n - (if entry_live y then 1 else 0) + (if entry_live x then 1 else 0) ≤ n' →
  bundle_wf (mkBundle p (pre ++ x :: post) n').
Proof.
  intros [Hlen [Hu _]] n' Hle Hge. unfold used in *. simpl in *.
  rewrite filter_live_split, !length_app in Hu.
  constructor; simpl.
  - by rewrite <- Hlen, !length_app.
  - unfold used; simpl. rewrite filter_live_split, !length_app.
    destruct (entry_live x), (entry_live y); simpl in *; lia.
Qed.

Lemma tracked_store p pre x y post n n' m :
  entry_live y = false → entry_live x = true →
  tracked (mkBundle p (pre ++ x :: post) n' :: m)
  ≡ₚ x :: tracked (mkBundle p (pre ++ y :: post) n :: m).
Proof.
  intros Hy Hx. rewrite !tracked_cons; simpl. rewrite !filter_live_split, Hx, Hy; simpl.
  rewrite <- !app_assoc. simpl. by rewrite <- Permutation_middle.
Qed.

Lemma bundles_add_Some m pMem m' :
  Forall bundle_wf m → entry_live pMem = true → bundles_add m pMem = Some m' →
  Forall bundle_wf m' ∧ length m' = length m ∧ tracked m' ≡ₚ pMem :: tracked m ∧
  lsum cUsed m' = lsum cUsed m + 1.
Proof.
  intros Hwf Hlive. revert m'. induction Hwf as [|b m Hb Hm IH]; intros m'; simpl; [done|].
  assert (∀ m', (λ m', b :: m') <$> bundles_add m pMem = Some m' →
    Forall bundle_wf m' ∧ length m' = S (length m) ∧ tracked m' ≡ₚ pMem :: tracked (b :: m) ∧
    lsum cUsed m' = cUsed b + lsum cUsed m + 1) as Hnext.
  { intros m1 (m2&E&->)%fmap_Some. destruct (IH m2 E) as (?&?&Hp&?).
    split_and!; [by constructor|simpl; lia| |simpl; lia].
    rewrite !tracked_cons, Hp. by rewrite <- Permutation_middle. }
  pose proof (bw_used b Hb) as Hu. assert (0 ≤ used b) by (unfold used; lia).
  destruct (Z.ltb_spec (cUsed b) BUNDLE_ELEMENTS); [|by apply Hnext].
  destruct (find_split _ _) as [[[pre x] post]|] eqn:F; [|by apply Hnext].
  intros [= <-]. apply find_split_Some in F as (Hl&Hx&_). unfold BUNDLE_ELEMENTS in *.
  rewrite u32_small by lia. destruct b as [p a n]; simpl in *; subst a.
  assert (entry_live x = false) as Hx' by (unfold entry_live; by rewrite Hx).
  split_and!; [|done| |lia].
  - constructor; [|done]. eapply bundle_store; [done|unfold BUNDLE_ELEMENTS; lia|].
    rewrite Hlive, Hx'. lia.
  - by apply tracked_store.
Qed.

Section api_lemmas.
Context `{MemObjApi}.
Implicit Types f : SUPDRVMEMREF → bool.

(** A bundle the search skips has nothing to find. *)
Lemma bundle_empty_skip f b :
  bundle_wf b → (∀ e, f e = true → entry_live e = true) → cUsed b ≤ 0 →
  find_split f (aMem b) = None.
Proof.
  intros [_ [Hu _]] Hf Hle. apply find_split_None, Forall_forall. intros e He.
  destruct (f e) eqn:E; [|done]. exfalso.
  assert (e ∈ filter (λ e, entry_live e = true) (aMem b)) as Hin.
  { apply list_elem_of_filter. auto. }
  unfold used in Hu. destruct (filter _ (aMem b)); [by apply not_elem_of_nil in Hin|].
  simpl in Hu. lia.
Qed.

Lemma tracked_elem m e : e ∈ tracked m ↔ entry_live e = true ∧ ∃ b, b ∈ m ∧ e ∈ aMem b.
Proof.
  unfold tracked. rewrite list_elem_of_bind. setoid_rewrite list_elem_of_filter. naive_solver.
Qed.

Lemma bundles_find_spec f m :
  Forall bundle_wf m → (∀ e, f e = true → entry_live e = true) →
  match bundles_find f m with
  | Some e => e ∈ tracked m ∧ f e = true
  | None => ∀ e, e ∈ tracked m → f e = false
  end.
Proof.
  intros Hwf Hf. induction Hwf as [|b m Hb Hm IH]; simpl.
  { intros e He. by apply not_elem_of_nil in He. }
  assert (find_split f (aMem b) = None →
    match bundles_find f m with
    | Some e => e ∈ tracked (b :: m) ∧ f e = true
    | None => ∀ e, e ∈ tracked (b :: m) → f e = false end) as Hskip.
  { intros Hn%find_split_None. rewrite Forall_forall in Hn.
    destruct (bundles_find f m).
    - rewrite tracked_cons, elem_of_app. tauto.
    - intros e. rewrite tracked_cons, elem_of_app, list_elem_of_filter.
      intros [[_ He]|He]; [by apply Hn|by apply IH]. }
  destruct (Z.ltb_spec 0 (cUsed b)).
  - destruct (find_split f (aMem b)) as [[[pre e] post]|] eqn:F; [|by apply Hskip].
    apply find_split_Some in F as (Hl&He&_). split; [|done]. apply tracked_elem.
    split; [by apply Hf|]. exists b. split; [left|rewrite Hl; set_solver].
  - apply Hskip. by apply bundle_empty_skip.
Qed.

Lemma bundles_take_spec f m :
  Forall bundle_wf m → (∀ e, f e = true → entry_live e = true) →
  match bundles_take f m with
  | Some (e, m') => f e = true ∧ Forall bundle_wf m' ∧ length m' = length m ∧
      tracked m ≡ₚ e :: tracked m' ∧ cUsed <$> m' = cUsed <$> m
  | None => ∀ e, e ∈ tracked m → f e = false
  end.
Proof.
  intros Hwf Hf. induction Hwf as [|b m Hb Hm IH]; simpl.
  { intros e He. by apply not_elem_of_nil in He. }
  assert (find_split f (aMem b) = None →
    match match bundles_take f m with Some (e, m') => Some (e, b :: m') | None => None end with
    | Some (e, m') => f e = true ∧ Forall bundle_wf m' ∧ length m' = S (length m) ∧
        tracked (b :: m) ≡ₚ e :: tracked m' ∧ cUsed <$> m' = cUsed b :: (cUsed <$> m)
    | None => ∀ e, e ∈ tracked (b :: m) → f e = false end) as Hskip.
  { intros Hn%find_split_None. rewrite Forall_forall in Hn.
    destruct (bundles_take f m) as [[e m']|].
    - destruct IH as (?&?&?&Hp&Hc). split_and!; [done|by constructor|simpl; lia| |].
      + rewrite !tracked_cons, Hp. by rewrite <- Permutation_middle.
      + rewrite fmap_cons. by f_equal.
    - intros e. rewrite tracked_cons, elem_of_app, list_elem_of_filter.
      intros [[_ He]|He]; [by apply Hn|by apply IH]. }
  destruct (Z.ltb_spec 0 (cUsed b)).
  - destruct (find_split f (aMem b)) as [[[pre e] post]|] eqn:F; [|by apply Hskip].
    apply find_split_Some in F as (Hl&He&_). destruct b as [p a n]; simpl in *; subst a.
    pose proof (bw_used _ Hb). split_and!; [done| |done| |done].
    + constructor; [|done]. eapply bundle_store; [done|simpl in *; lia|].
      rewrite (Hf e He). simpl. lia.
    + apply tracked_store; [done|by apply Hf].
  - apply Hskip. by apply bundle_empty_skip.
Qed.

Lemma entry_matches_live uPtr t e : entry_matches uPtr t e = true → entry_live e = true.
Proof. unfold entry_matches, entry_live, entry_free. by intros [[_ ?]%andb_true_iff _]%andb_true_iff. Qed.
End api_lemmas.

Lemma bundle_zero_wf p : bundle_wf (bundle_zero p).
Proof. constructor; [done|]. unfold used. by simpl. Qed.

Lemma sessmem_init_wf p : mem_wf (sessmem_init p).
Proof. split; [done|]. repeat constructor; apply bundle_zero_wf. Qed.

Lemma new_bundle_wf p pMem :
  entry_live pMem = true →
  let b := mkBundle p (<[Z.to_nat (BUNDLE_ELEMENTS - 1) := pMem]>
                         (aMem (bundle_zero p))) (u32 (cUsed (bundle_zero p) + 1)) in
  bundle_wf b ∧ filter (λ e, entry_live e = true) (aMem b) = [pMem].
Proof.
  intros Hl b.
  assert (aMem b = replicate 63 memref_unused ++ pMem :: []) as E by done.
  assert (filter (λ e, entry_live e = true) (aMem b) = [pMem]) as F.
  { by rewrite E, filter_live_split, filter_live_unused, Hl. }
  split; [|done]. constructor.
  - by rewrite E, length_app, length_replicate.
  - unfold used. rewrite F. by vm_compute.
Qed.

Lemma memadd_wf m pMem rAlloc others rc m' :
  mem_wf m → mem_wf (others m) → entry_live pMem = true →
  supdrvMemAdd m pMem rAlloc others = (rc, m') → mem_wf m'.
Proof.
  intros [Hne Hwf] [Hne' Hwf'] Hlive. unfold supdrvMemAdd.
  destruct (bundles_add m pMem) as [m1|] eqn:E.
  - intros [= <- <-]. destruct (bundles_add_Some _ _ _ Hwf Hlive E) as (?&Hlen&_).
    split; [|done]. destruct m, m1; done.
  - destruct rAlloc as [p|]; [|intros [= <- <-]; by split].
    destruct (new_bundle_wf p pMem Hlive) as [Hb _].
    destruct (others m) as [|b0 bs]; intros [= <- <-]; (split; [done|]).
    + by constructor.
    + apply Forall_cons in Hwf' as [??]. constructor; [done|]. by constructor.
Qed.

(** Adding one entry, whatever the other threads did meanwhile. *)
Lemma memadd_cases m pMem rAlloc others rc m' :
  mem_wf m → mem_wf (others m) → entry_live pMem = true →
  supdrvMemAdd m pMem rAlloc others = (rc, m') →
  (rc = VINF_SUCCESS ∧ (tracked m' ≡ₚ pMem :: tracked m ∨ tracked m' ≡ₚ pMem :: tracked (others m)))
  ∨ (rc = VERR_NO_MEMORY ∧ rAlloc = None ∧ m' = others m ∧
     Forall (λ b, cUsed b = BUNDLE_ELEMENTS) m).
Proof.
  intros [_ Hwf] [Hne' Hwf'] Hlive. unfold supdrvMemAdd.
  destruct (bundles_add m pMem) as [m1|] eqn:E.
  - intros [= <- <-]. left. split; [done|]. left. by apply bundles_add_Some.
  - apply bundles_add_None in E; [|done]. destruct rAlloc as [p|]; intros Heq.
    + destruct (new_bundle_wf p pMem Hlive) as [_ Hf].
      destruct (others m) as [|b0 bs]; [done|]. apply pair_equal_spec in Heq as [<- <-].
      left. split; [done|]. right. rewrite !tracked_cons, Hf. cbn [app]. by rewrite <- Permutation_middle.
    + injection Heq as <- <-. by right.
Qed.

Lemma memrelease_wf `{MemObjApi} m uPtr t rc m' ev :
  mem_wf m → supdrvMemRelease m uPtr t = (rc, m', ev) → mem_wf m'.
Proof.
  intros [Hne Hwf]. unfold supdrvMemRelease. destruct (_ =? 0); [by intros [= <- <- <-]|].
  pose proof (bundles_take_spec (entry_matches uPtr t) m Hwf (entry_matches_live uPtr t)) as Hs.
  destruct (bundles_take _ m) as [[e m1]|]; intros [= <- <- <-]; [|done].
  destruct Hs as (_&?&Hlen&_). split; [by destruct m, m1|done].
Qed.

Lemma lsum_cUsed_perm m m' : cUsed <$> m' = cUsed <$> m → lsum cUsed m' = lsum cUsed m.
Proof.
  intros E. assert (∀ m, lsum cUsed m = lsum id (cUsed <$> m)) as H.
  { intros m0. by rewrite lsum_fmap. }
  by rewrite !H, E.
Qed.

Lemma lsum_cUsed_le m : Forall bundle_wf m → lsum cUsed m ≤ BUNDLE_ELEMENTS * Z.of_nat (length m).
Proof. induction 1 as [|b m Hb Hm IH]; simpl; [done|]. pose proof (bw_used b Hb). lia. Qed.

Lemma mem_steps_wf `{MemObjApi} p0 n m :
  mem_steps p0 n m → mem_wf m ∧ lsum cUsed m = n.
Proof.
  induction 1 as [|n m pMem rA m' _ [IH Hn] Hl Ha|n m u t rc m' ev _ [IH Hn] Hr].
  - split; [apply sessmem_init_wf|done].
  - split; [eapply memadd_wf; [exact IH|exact IH|done|exact Ha]|].
    unfold supdrvMemAdd in Ha. destruct IH as [Hne IH].
    destruct (bundles_add m pMem) as [m1|] eqn:E.
    + injection Ha as <-. destruct (bundles_add_Some _ _ _ IH Hl E) as (_&_&_&->). lia.
    + destruct rA; [|done]. destruct m as [|b0 bs]; [done|]. injection Ha as <-.
      unfold id, lsum in *. simpl in *. rewrite u32_small by lia. lia.
  - unfold supdrvMemRelease in Hr. destruct IH as [Hne IH].
    destruct (u =? 0); [injection Hr as <- <- <-; by split|].
    pose proof (bundles_take_spec (entry_matches u t) m IH (entry_matches_live u t)) as Hs.
    destruct (bundles_take _ m) as [[e m1]|]; injection Hr as <- <- <-; [|by split].
    destruct Hs as (_&?&Hlen&_&Hc). split; [|by rewrite (lsum_cUsed_perm _ _ Hc)].
    split; [|done]. by destruct m, m1.
Qed.

Lemma cleanup_entry_events e : entry_live e = false → (cleanup_entry e).2 = [].
Proof. unfold cleanup_entry, entry_live, entry_free. intros E. by rewrite E. Qed.

Lemma cleanup_bundle_events b :
  (cleanup_bundle b).2 = filter (λ e, entry_live e = true) (aMem b) ≫= memref_free.
Proof.
  unfold cleanup_bundle; simpl. induction (aMem b) as [|e l IH]; [done|].
  rewrite bind_cons, filter_cons, IH. unfold compose at 1. case_decide as He.
  - rewrite bind_cons. f_equal. unfold cleanup_entry, memref_free.
    unfold entry_live, entry_free in He. by rewrite He.
  - rewrite cleanup_entry_events; [done|]. by destruct (entry_live e).
Qed.

Lemma cleanup_bundle_tracked b :
  filter (λ e, entry_live e = true) (aMem (cleanup_bundle b).1) = [].
Proof.
  unfold cleanup_bundle; simpl. induction (aMem b) as [|e l IH]; [done|].
  rewrite fmap_cons, filter_cons, IH. case_decide as He; [|done].
  unfold compose, cleanup_entry, entry_live, entry_free in He.
  destruct (negb (MemObj e =? NIL_RTR0MEMOBJ)) eqn:E; simpl in He; [done|congruence].
Qed.

(** * Properties *)

(** [supdrvMemAdd] tracks the entry it is given: whatever other threads of the process
    add or release while it allocates, it either records the entry (every other entry
    stays, and the bundles stay well formed), or it returns [VERR_NO_MEMORY] with nothing
    recorded, and that only when every bundle was full and the allocation failed. *)
Lemma memadd_refines m pMem rAlloc others rc m' :
  mem_wf m → mem_wf (others m) → entry_live pMem = true →
  supdrvMemAdd m pMem rAlloc others = (rc, m') →
  mem_wf m' ∧
  ((rc = VINF_SUCCESS ∧ (tracked m' ≡ₚ pMem :: tracked m ∨ tracked m' ≡ₚ pMem :: tracked (others m)))
   ∨ (rc = VERR_NO_MEMORY ∧ rAlloc = None ∧ m' = others m ∧
      Forall (λ b, cUsed b = BUNDLE_ELEMENTS) m)).
Proof.
  intros Hwf Ho Hl Heq. split.
  - exact (memadd_wf _ _ _ _ _ _ Hwf Ho Hl Heq).
  - exact (memadd_cases _ _ _ _ _ _ Hwf Ho Hl Heq).
Qed.

(** [supdrvMemRelease] finds an entry of the given type by its ring-0 or ring-3 address
    whenever one is tracked, stops tracking exactly that entry and frees its ring-3
    mapping and then its memory object, each once; otherwise it changes nothing and
    returns [VERR_INVALID_PARAMETER]. *)
Lemma memrelease_refines `{MemObjApi} m uPtr t rc m' ev :
  mem_wf m → supdrvMemRelease m uPtr t = (rc, m', ev) →
  mem_wf m' ∧
  ((rc = VINF_SUCCESS ∧ uPtr ≠ 0 ∧ ∃ e, entry_matches uPtr t e = true ∧
      tracked m ≡ₚ e :: tracked m' ∧ ev = memref_free e)
   ∨ (rc = VERR_INVALID_PARAMETER ∧ m' = m ∧ ev = [] ∧
      (uPtr = 0 ∨ ∀ e, e ∈ tracked m → entry_matches uPtr t e = false))).
Proof.
  intros Hm Hr. split; [by eapply memrelease_wf|]. destruct Hm as [Hne Hwf].
  unfold supdrvMemRelease in Hr. destruct (Z.eqb_spec uPtr 0) as [->|Hu].
  { injection Hr as <- <- <-. right. auto. }
  pose proof (bundles_take_spec (entry_matches uPtr t) m Hwf (entry_matches_live uPtr t)) as Hs.
  destruct (bundles_take _ m) as [[e m1]|]; injection Hr as <- <- <-; [left|right; auto].
  destruct Hs as (?&?&Hlen&?&_). split_and!; [done|done|]. by exists e.
Qed.

(** Releasing memory never makes room in a bundle: after any sequence of calls, the
    bundles of a session are as many as it takes to hold every entry that was ever added,
    at 64 entries a bundle, however many were released ([supdrvMemRelease] clears the
    entry but leaves [cUsed], by which [supdrvMemAdd] skips a bundle). *)
Lemma bundles_never_reused `{MemObjApi} p0 n m :
  mem_steps p0 n m → n ≤ BUNDLE_ELEMENTS * Z.of_nat (length m).
Proof. intros H0. destruct (mem_steps_wf _ _ _ H0) as [[_ Hwf] <-]. by apply lsum_cUsed_le. Qed.

(** The memory part of [supdrvCleanupSession] frees every tracked memory object of the
    session exactly once, in list order and each ring-3 mapping before its object, frees
    every bundle but the embedded one, and leaves nothing tracked. *)
Lemma memcleanup_frees_all m b rest m' ev :
  m = b :: rest → supdrvCleanupSession_mem m = (m', ev) →
  tracked m' = [] ∧ length m' = 1%nat ∧
  ev = (filter (λ e, entry_live e = true) (aMem b) ≫= memref_free)
       ++ (rest ≫= λ b, (filter (λ e, entry_live e = true) (aMem b) ≫= memref_free)
                        ++ [EvMemFree (bu_self b)]) ∧
  filter (λ x, is_EvMemFree x = false) ev = tracked m ≫= memref_free.
Proof.
  intros -> Hcl. unfold supdrvCleanupSession_mem in Hcl.
  destruct (cleanup_bundle b) as [b' evb] eqn:E. apply pair_equal_spec in Hcl as [<- <-].
  pose proof (cleanup_bundle_events b) as Hev. pose proof (cleanup_bundle_tracked b) as Htr.
  rewrite E in Hev, Htr. simpl in Hev, Htr. subst evb.
  assert (∀ l : list SUPDRVMEMREF,
    filter (λ x, is_EvMemFree x = false) (l ≫= memref_free)
    = l ≫= memref_free) as Hfilt.
  { intros l. apply filter_all, Forall_forall. intros x (e&He&_)%list_elem_of_bind.
    unfold memref_free in He. repeat case_match; set_solver. }
  split_and!.
  - rewrite tracked_cons, Htr. done.
  - done.
  - f_equal. apply bind_ext_in. intros x _. by rewrite cleanup_bundle_events.
  - rewrite filter_app, Hfilt, tracked_cons, bind_app. f_equal.
    induction rest as [|c rest IH]; [done|].
    rewrite bind_cons, filter_app, filter_app, cleanup_bundle_events, Hfilt, tracked_cons, bind_app.
    rewrite filter_cons, filter_nil. case_decide; [done|]. rewrite app_nil_r. by f_equal.
Qed.

(** * Witnesses *)

Lemma memadd_refines_witness : mem_wf demo_mem1 ∧ tracked demo_mem1 = [demo_memref].
Proof.
  split; [|by vm_compute].
  apply (memadd_refines (sessmem_init 0x10100) demo_memref None id VINF_SUCCESS);
    [apply sessmem_init_wf|apply sessmem_init_wf|reflexivity|reflexivity].
Defined.

Lemma memrelease_refines_witness :
  ∃ m' ev, @supdrvMemRelease demo_api demo_mem1 (0x7f0000000000 + 0x6000) MEMREF_TYPE_MEM
           = (VINF_SUCCESS, m', ev) ∧ ev = [EvMemObjFree 0x6000 false; EvMemObjFree 0x5000 true] ∧
           mem_wf m'.
Proof.
  eexists _, _. split; [vm_compute; reflexivity|]. split; [reflexivity|].
  eapply (@memrelease_refines demo_api demo_mem1 (0x7f0000000000 + 0x6000) MEMREF_TYPE_MEM);
    [|vm_compute; reflexivity].
  apply (memadd_wf (sessmem_init 0x10100) demo_memref None id VINF_SUCCESS);
    [apply sessmem_init_wf|apply sessmem_init_wf|reflexivity|reflexivity].
Defined.

Lemma bundles_never_reused_witness :
  @mem_steps demo_api 0x10100 1 demo_mem1 ∧ 1 ≤ BUNDLE_ELEMENTS * Z.of_nat (length demo_mem1).
Proof.
  assert (@mem_steps demo_api 0x10100 1 demo_mem1) as Hst.
  { eapply (@mstep_add demo_api 0x10100 0 _ demo_memref None); [apply mstep_init|done|reflexivity]. }
  split; [exact Hst|]. exact (@bundles_never_reused demo_api 0x10100 1 demo_mem1 Hst).
Defined.

Lemma memcleanup_frees_all_witness :
  ∃ m' ev, supdrvCleanupSession_mem demo_mem1 = (m', ev) ∧ tracked m' = [] ∧
           ev = [EvMemObjFree 0x6000 false; EvMemObjFree 0x5000 true].
Proof.
  eexists _, _. split; [vm_compute; reflexivity|].
  split; [|reflexivity].
  eapply (memcleanup_frees_all demo_mem1 _ []); [vm_compute; reflexivity|vm_compute; reflexivity].
Defined.
