(* ===== verification/MemApi.v ===== *)
(** The memory services of SUPDrv.c on top of the tracking of MemTrack: [SUPR0LockMem],
    [SUPR0ContAlloc], [SUPR0LowAlloc], [SUPR0MemAlloc], [SUPR0PageAllocEx],
    [SUPR0PageMapKernel], [SUPR0PageProtect] and the freeing functions.

    [rAlloc] and [others] are the arguments of [supdrvMemAdd]; a pointer argument that is
    only checked and stored through is a [ptr], and what is stored is in the result. *)

From S2P Require Import Prelude SupTypes MemTrack.
Local Open Scope Z_scope.
Local Open Scope sup_scope.

(** * Constants *)

(** [256U * _1M / PAGE_SIZE] *)
Definition VBOX_MAX_ALLOC_PAGE_COUNT : Z := 65536.

Definition RT_ALIGN_R3PT (p : ptr) : ptr := Z.land (u64 (p + (PAGE_SIZE - 1))) 0xfffffffffffff000.

(** What a successful allocation stores through its pointer arguments. *)
Record AllocOut := mkOut {
  out_R0 : ptr;
  out_R3 : ptr;
  out_pages : list Z;
}.

(** What an allocating service is: its status, its results, the session's bundles
    afterwards and the external calls. *)
Definition AllocRes : Type := Z * option AllocOut * SessMem * list event.

Section api.
Context `{MemObjApi}.

(** * Operations *)

Definition MapUserRWX (hMem : Z) : Z * Z :=
  RTR0MemObjMapUser hMem PTR_ANY 0
    (Z.lor RTMEM_PROT_EXEC (Z.lor RTMEM_PROT_WRITE RTMEM_PROT_READ)).

(** The loop of [SUPR0LockMem] that stores the page addresses, last page first. *)
Fixpoint lock_pages (hMem : Z) (iPage : nat) (paPages : list Z) : Z * list Z :=
  match iPage with
  | O => (VINF_SUCCESS, paPages)
  | S iPage =>
      let phys := RTR0MemObjGetPagePhysAddr hMem (Z.of_nat iPage) in
      let paPages := <[iPage := phys]> paPages in
      if phys =? NIL_RTHCPHYS then (VERR_INTERNAL_ERROR, paPages)
      else lock_pages hMem iPage paPages
  end.

(** [pages] is the caller's array. *)
Definition SUPR0LockMem (m : SessMem) (pSession : SUPDRVSESSION) (pvR3 : ptr) (cPages : Z)
    (paPages : ptr) (pages : list Z) (rAlloc : option ptr) (others : SessMem → SessMem)
    : Z * list Z * SessMem * list event :=
  let cb := Z.shiftl cPages PAGE_SHIFT in
  if negb (SUP_IS_SESSION_VALID pSession) then (VERR_INVALID_PARAMETER, pages, m, [])
  else if negb (VALID_PTR paPages) then (VERR_INVALID_PARAMETER, pages, m, [])
  else if negb (RT_ALIGN_R3PT pvR3 =? pvR3) || (pvR3 =? 0)
  then (VERR_INVALID_PARAMETER, pages, m, [])
  else
    let '(rc, hMem) := RTR0MemObjLockUser pvR3 cb (Z.lor RTMEM_PROT_READ RTMEM_PROT_WRITE) in
    if RT_SUCCESS rc then
      let Mem := mkMemRef hMem NIL_RTR0MEMOBJ MEMREF_TYPE_LOCKED in
      let '(rcp, pages) := lock_pages hMem (Z.to_nat cPages) pages in
      let rc := if RT_FAILURE rcp then rcp else rc in
      let '(rc, m) := if RT_SUCCESS rc then supdrvMemAdd m Mem rAlloc others else (rc, m) in
      if RT_FAILURE rc then (rc, pages, m, [EvMemObjFree hMem false]) else (rc, pages, m, [])
    else (rc, pages, m, []).

Definition SUPR0UnlockMem (m : SessMem) (pSession : SUPDRVSESSION) (pvR3 : ptr)
    : Z * SessMem * list event :=
  if negb (SUP_IS_SESSION_VALID pSession) then (VERR_INVALID_PARAMETER, m, [])
  else supdrvMemRelease m pvR3 MEMREF_TYPE_LOCKED.

Definition SUPR0ContAlloc (m : SessMem) (pSession : SUPDRVSESSION) (cPages : Z)
    (ppvR0 ppvR3 pHCPhys : ptr) (rAlloc : option ptr) (others : SessMem → SessMem) : AllocRes :=
  if negb (SUP_IS_SESSION_VALID pSession) then (VERR_INVALID_PARAMETER, None, m, [])
  else if (ppvR3 =? NULL) || (ppvR0 =? NULL) || (pHCPhys =? NULL)
  then (VERR_INVALID_PARAMETER, None, m, [])
  else if (cPages <? 1) || (256 <=? cPages) then (VERR_PAGE_COUNT_OUT_OF_RANGE, None, m, [])
  else
    let '(rc, hMem) := RTR0MemObjAllocCont (u32 (Z.shiftl cPages PAGE_SHIFT)) true in
    if RT_SUCCESS rc then
      let '(rc, hMap) := MapUserRWX hMem in
      if RT_SUCCESS rc then
        let '(rc, m) := supdrvMemAdd m (mkMemRef hMem hMap MEMREF_TYPE_CONT) rAlloc others in
        if rc =? 0 then
          (0, Some (mkOut (RTR0MemObjAddress hMem) (RTR0MemObjAddressR3 hMap)
                      [RTR0MemObjGetPagePhysAddr hMem 0]), m, [])
        else (rc, None, m, [EvMemObjFree hMap false; EvMemObjFree hMem false])
      else (rc, None, m, [EvMemObjFree hMem false])
    else (rc, None, m, []).

Definition SUPR0ContFree (m : SessMem) (pSession : SUPDRVSESSION) (uPtr : ptr)
    : Z * SessMem * list event :=
  if negb (SUP_IS_SESSION_VALID pSession) then (VERR_INVALID_PARAMETER, m, [])
  else supdrvMemRelease m uPtr MEMREF_TYPE_CONT.

Definition SUPR0LowAlloc (m : SessMem) (pSession : SUPDRVSESSION) (cPages : Z)
    (ppvR0 ppvR3 paPages : ptr) (rAlloc : option ptr) (others : SessMem → SessMem) : AllocRes :=
  if negb (SUP_IS_SESSION_VALID pSession) then (VERR_INVALID_PARAMETER, None, m, [])
  else if (ppvR3 =? NULL) || (ppvR0 =? NULL) || (paPages =? NULL)
  then (VERR_INVALID_PARAMETER, None, m, [])
  else if (cPages <? 1) || (256 <=? cPages) then (VERR_PAGE_COUNT_OUT_OF_RANGE, None, m, [])
  else
    let '(rc, hMem) := RTR0MemObjAllocLow (u32 (Z.shiftl cPages PAGE_SHIFT)) true in
    if RT_SUCCESS rc then
      let '(rc, hMap) := MapUserRWX hMem in
      if RT_SUCCESS rc then
        let '(rc, m) := supdrvMemAdd m (mkMemRef hMem hMap MEMREF_TYPE_LOW) rAlloc others in
        if rc =? 0 then
          (0, Some (mkOut (RTR0MemObjAddress hMem) (RTR0MemObjAddressR3 hMap)
                      (RTR0MemObjGetPagePhysAddr hMem <$> seqZ 0 cPages)), m, [])
        else (rc, None, m, [EvMemObjFree hMap false; EvMemObjFree hMem false])
      else (rc, None, m, [EvMemObjFree hMem false])
    else (rc, None, m, []).

Definition SUPR0LowFree (m : SessMem) (pSession : SUPDRVSESSION) (uPtr : ptr)
    : Z * SessMem * list event :=
  if negb (SUP_IS_SESSION_VALID pSession) then (VERR_INVALID_PARAMETER, m, [])
  else supdrvMemRelease m uPtr MEMREF_TYPE_LOW.

(** [_4M] is [0x400000]. *)
Definition SUPR0MemAlloc (m : SessMem) (pSession : SUPDRVSESSION) (cb : Z)
    (ppvR0 ppvR3 : ptr) (rAlloc : option ptr) (others : SessMem → SessMem) : AllocRes :=
  if negb (SUP_IS_SESSION_VALID pSession) then (VERR_INVALID_PARAMETER, None, m, [])
  else if negb (VALID_PTR ppvR0) then (VERR_INVALID_POINTER, None, m, [])
  else if negb (VALID_PTR ppvR3) then (VERR_INVALID_POINTER, None, m, [])
  else if (cb <? 1) || (0x400000 <=? cb) then (VERR_INVALID_PARAMETER, None, m, [])
  else
    let '(rc, hMem) := RTR0MemObjAllocPage cb true in
    if RT_SUCCESS rc then
      let '(rc, hMap) := MapUserRWX hMem in
      if RT_SUCCESS rc then
        let '(rc, m) := supdrvMemAdd m (mkMemRef hMem hMap MEMREF_TYPE_MEM) rAlloc others in
        if rc =? 0 then
          (VINF_SUCCESS,
           Some (mkOut (RTR0MemObjAddress hMem) (RTR0MemObjAddressR3 hMap) []), m, [])
        else (rc, None, m, [EvMemObjFree hMap false; EvMemObjFree hMem false])
      else (rc, None, m, [EvMemObjFree hMem false])
    else (rc, None, m, []).

Definition SUPR0MemFree (m : SessMem) (pSession : SUPDRVSESSION) (uPtr : ptr)
    : Z * SessMem * list event :=
  if negb (SUP_IS_SESSION_VALID pSession) then (VERR_INVALID_PARAMETER, m, [])
  else supdrvMemRelease m uPtr MEMREF_TYPE_MEM.

(** A NULL [ppvR3] or [ppvR0] asks for no mapping there; [out_R3] and [out_R0] are then
    not stored.  The page addresses are asked of the ring-3 mapping. *)
Definition SUPR0PageAllocEx (m : SessMem) (pSession : SUPDRVSESSION) (cPages fFlags : Z)
    (ppvR3 ppvR0 paPages : ptr) (rAlloc : option ptr) (others : SessMem → SessMem) : AllocRes :=
  if negb (SUP_IS_SESSION_VALID pSession) then (VERR_INVALID_PARAMETER, None, m, [])
  else if negb (VALID_PTR_OR_NULL ppvR3) then (VERR_INVALID_POINTER, None, m, [])
  else if negb (VALID_PTR_OR_NULL ppvR0) then (VERR_INVALID_POINTER, None, m, [])
  else if (ppvR3 =? NULL) && (ppvR0 =? NULL) then (VERR_INVALID_PARAMETER, None, m, [])
  else if negb (fFlags =? 0) then (VERR_INVALID_PARAMETER, None, m, [])
  else if (cPages <? 1) || (VBOX_MAX_ALLOC_PAGE_COUNT <? cPages)
  then (VERR_PAGE_COUNT_OUT_OF_RANGE, None, m, [])
  else
    let '(rc, hMem) := if negb (ppvR0 =? NULL)
                       then RTR0MemObjAllocPage (cPages * PAGE_SIZE) true
                       else RTR0MemObjAllocPhysNC (cPages * PAGE_SIZE) NIL_RTHCPHYS in
    if RT_SUCCESS rc then
      let '(rc, hMap) := if negb (ppvR3 =? NULL) then MapUserRWX hMem
                         else (rc, NIL_RTR0MEMOBJ) in
      if RT_SUCCESS rc then
        let '(rc, m) := supdrvMemAdd m (mkMemRef hMem hMap MEMREF_TYPE_PAGE) rAlloc others in
        if rc =? 0 then
          (VINF_SUCCESS,
           Some (mkOut (if negb (ppvR0 =? NULL) then RTR0MemObjAddress hMem else NULL)
                   (if negb (ppvR3 =? NULL) then RTR0MemObjAddressR3 hMap else NULL)
                   (if negb (paPages =? NULL)
                    then RTR0MemObjGetPagePhysAddr hMap <$> seqZ 0 cPages else [])), m, [])
        else (rc, None, m, [EvMemObjFree hMap false; EvMemObjFree hMem false])
      else (rc, None, m, [EvMemObjFree hMem false])
    else (rc, None, m, []).

(** Which entries [SUPR0PageMapKernel] takes for [pvR3]. *)
Definition map_kernel_matches (pvR3 : ptr) (e : SUPDRVMEMREF) : bool :=
  (bool_decide (eType e = MEMREF_TYPE_PAGE) && negb (MemObj e =? NIL_RTR0MEMOBJ)
   && negb (MapObjR3 e =? NIL_RTR0MEMOBJ) && (RTR0MemObjAddressR3 (MapObjR3 e) =? pvR3))
  || (bool_decide (eType e = MEMREF_TYPE_LOCKED) && negb (MemObj e =? NIL_RTR0MEMOBJ)
      && (MapObjR3 e =? NIL_RTR0MEMOBJ) && (RTR0MemObjAddressR3 (MemObj e) =? pvR3)).

(** The search loop of [SUPR0PageMapKernel] and [SUPR0PageProtect]: the [break] leaves
    the loop over the entries only, so a match in a later bundle overrides. *)
Fixpoint bundles_find_last (f : SUPDRVMEMREF → bool) (m : SessMem) (cur : option SUPDRVMEMREF)
    : option SUPDRVMEMREF :=
  match m with
  | [] => cur
  | pBundle :: pNext =>
      if 0 <? cUsed pBundle then
        match find_split f (aMem pBundle) with
        | Some (_, e, _) => bundles_find_last f pNext (Some e)
        | None => bundles_find_last f pNext cur
        end
      else bundles_find_last f pNext cur
  end.

(** The range checks of both, in 32-bit arithmetic against a [size_t]. *)
Definition sub_range_ok (offSub cbSub cbMemObj : Z) : bool :=
  (offSub <? cbMemObj) && (cbSub <=? cbMemObj) && (u32 (offSub + cbSub) <=? cbMemObj).

(** The range the kernel mapping was asked for, if the call was made, and its address
    (stored on success). *)
Definition SUPR0PageMapKernel (m : SessMem) (pSession : SUPDRVSESSION) (pvR3 : ptr)
    (offSub cbSub fFlags : Z) (ppvR0 : ptr) : Z * option (Z * Z * Z) * option ptr :=
  if negb (SUP_IS_SESSION_VALID pSession) then (VERR_INVALID_PARAMETER, None, None)
  else if negb (VALID_PTR_OR_NULL ppvR0) then (VERR_INVALID_POINTER, None, None)
  else if negb (fFlags =? 0) then (VERR_INVALID_PARAMETER, None, None)
  else if offSub #& PAGE_OFFSET_MASK then (VERR_INVALID_PARAMETER, None, None)
  else if cbSub #& PAGE_OFFSET_MASK then (VERR_INVALID_PARAMETER, None, None)
  else if cbSub =? 0 then (VERR_INVALID_PARAMETER, None, None)
  else
    match bundles_find_last (map_kernel_matches pvR3) m None with
    | None => (VERR_INVALID_PARAMETER, None, None)
    | Some e =>
        let hMemObj := MemObj e in
        if sub_range_ok offSub cbSub (RTR0MemObjSize hMemObj) then
          let '(rc, hMapObj) := RTR0MemObjMapKernelEx hMemObj PTR_ANY 0
                                  (Z.lor RTMEM_PROT_READ RTMEM_PROT_WRITE) offSub cbSub in
          (rc, Some (hMemObj, offSub, cbSub),
           if RT_SUCCESS rc then Some (RTR0MemObjAddress hMapObj) else None)
        else (VERR_INVALID_PARAMETER, None, None)
    end.

(** Which entries [SUPR0PageProtect] takes for the addresses. *)
Definition protect_matches (pvR3 pvR0 : ptr) (e : SUPDRVMEMREF) : bool :=
  bool_decide (eType e = MEMREF_TYPE_PAGE) && negb (MemObj e =? NIL_RTR0MEMOBJ)
  && (negb (MapObjR3 e =? NIL_RTR0MEMOBJ) || (pvR3 =? NIL_RTR3PTR))
  && ((pvR0 =? NIL_RTR0PTR) || (RTR0MemObjAddress (MemObj e) =? pvR0))
  && ((pvR3 =? NIL_RTR3PTR) || (RTR0MemObjAddressR3 (MapObjR3 e) =? pvR3)).

Definition SUPR0PageProtect (m : SessMem) (pSession : SUPDRVSESSION) (pvR3 pvR0 : ptr)
    (offSub cbSub fProt : Z) : Z * list event :=
  if negb (SUP_IS_SESSION_VALID pSession) then (VERR_INVALID_PARAMETER, [])
  else if negb (Z.land fProt (Z.lnot (Z.lor RTMEM_PROT_READ (Z.lor RTMEM_PROT_WRITE
                  (Z.lor RTMEM_PROT_EXEC RTMEM_PROT_NONE)))) =? 0)
  then (VERR_INVALID_PARAMETER, [])
  else if offSub #& PAGE_OFFSET_MASK then (VERR_INVALID_PARAMETER, [])
  else if cbSub #& PAGE_OFFSET_MASK then (VERR_INVALID_PARAMETER, [])
  else if cbSub =? 0 then (VERR_INVALID_PARAMETER, [])
  else
    let e := default memref_unused (bundles_find_last (protect_matches pvR3 pvR0) m None) in
    let hMemObjR0 := if negb (pvR0 =? NIL_RTR0PTR) then MemObj e else NIL_RTR0MEMOBJ in
    let hMemObjR3 := if negb (pvR3 =? NIL_RTR3PTR) then MapObjR3 e else NIL_RTR0MEMOBJ in
    if negb (hMemObjR0 =? NIL_RTR0MEMOBJ) || negb (hMemObjR3 =? NIL_RTR0MEMOBJ) then
      let cbMemObj := if negb (hMemObjR0 =? NIL_RTR0MEMOBJ) then RTR0MemObjSize hMemObjR0
                      else RTR0MemObjSize hMemObjR3 in
      if sub_range_ok offSub cbSub cbMemObj then
        let '(rc, ev) :=
          if negb (hMemObjR3 =? NIL_RTR0MEMOBJ)
          then (RTR0MemObjProtect hMemObjR3 offSub cbSub fProt,
                [EvMemObjProtect hMemObjR3 offSub cbSub fProt])
          else (VINF_SUCCESS, []) in
        if negb (hMemObjR0 =? NIL_RTR0MEMOBJ) && RT_SUCCESS rc
        then (RTR0MemObjProtect hMemObjR0 offSub cbSub fProt,
              ev ++ [EvMemObjProtect hMemObjR0 offSub cbSub fProt])
        else (rc, ev)
      else (VERR_INVALID_PARAMETER, [])
    else (VERR_INVALID_PARAMETER, []).

Definition SUPR0PageFree (m : SessMem) (pSession : SUPDRVSESSION) (pvR3 : ptr)
    : Z * SessMem * list event :=
  if negb (SUP_IS_SESSION_VALID pSession) then (VERR_INVALID_PARAMETER, m, [])
  else supdrvMemRelease m pvR3 MEMREF_TYPE_PAGE.
End api.

(** * Specification *)

(** What the driver relies on: a handle returned with success is not [NIL_RTR0MEMOBJ]. *)
Class MemObjLaws (A : MemObjApi) : Prop := {
  law_cont cb x : RT_SUCCESS (RTR0MemObjAllocCont cb x).1 = true →
                  (RTR0MemObjAllocCont cb x).2 ≠ NIL_RTR0MEMOBJ;
  law_low cb x : RT_SUCCESS (RTR0MemObjAllocLow cb x).1 = true →
                 (RTR0MemObjAllocLow cb x).2 ≠ NIL_RTR0MEMOBJ;
  law_page cb x : RT_SUCCESS (RTR0MemObjAllocPage cb x).1 = true →
                  (RTR0MemObjAllocPage cb x).2 ≠ NIL_RTR0MEMOBJ;
  law_phys cb x : RT_SUCCESS (RTR0MemObjAllocPhysNC cb x).1 = true →
                  (RTR0MemObjAllocPhysNC cb x).2 ≠ NIL_RTR0MEMOBJ;
  law_lock p cb x : RT_SUCCESS (RTR0MemObjLockUser p cb x).1 = true →
                    (RTR0MemObjLockUser p cb x).2 ≠ NIL_RTR0MEMOBJ;
  law_map h p al x : RT_SUCCESS (RTR0MemObjMapUser h p al x).1 = true →
                     (RTR0MemObjMapUser h p al x).2 ≠ NIL_RTR0MEMOBJ;
}.

(** The handles a creating call yields. *)
Definition got (r : Z * Z) : list Z := if RT_SUCCESS r.1 then [r.2] else [].

(** How an allocation that made the call [r1] for the memory and, on its handle, [r2] for
    the ring-3 mapping may end: with the pair tracked and nothing freed, or with an error,
    no new entry, and every handle it got freed again, mapping first. *)
Definition alloc_post (m mo : SessMem) (t : SUPDRVMEMREFTYPE) (r1 r2 : Z * Z) (res : AllocRes)
    : Prop :=
  let '(rc, out, m', ev) := res in
  (rc = VINF_SUCCESS ∧ is_Some out ∧ ev = [] ∧ got r1 = [r1.2] ∧ got r2 = [r2.2] ∧ mem_wf m' ∧
   (tracked m' ≡ₚ mkMemRef r1.2 r2.2 t :: tracked m ∨
    tracked m' ≡ₚ mkMemRef r1.2 r2.2 t :: tracked mo))
  ∨ (rc ≠ VINF_SUCCESS ∧ out = None ∧ (m' = m ∨ m' = mo) ∧
     ev = (λ h, EvMemObjFree h false) <$>
            (match got r1 with [] => [] | l => got r2 ++ l end)).

(** The common shape of the four allocations behind their argument checks. *)
Definition alloc_core (m : SessMem) (t : SUPDRVMEMREFTYPE) (r1 : Z * Z) (r2 : Z → Z * Z)
    (out : AllocOut) (rAlloc : option ptr) (others : SessMem → SessMem) : AllocRes :=
  if RT_SUCCESS r1.1 then
    if RT_SUCCESS (r2 r1.2).1 then
      let '(rc, m) := supdrvMemAdd m (mkMemRef r1.2 (r2 r1.2).2 t) rAlloc others in
      if rc =? 0 then (0, Some out, m, [])
      else (rc, None, m, [EvMemObjFree (r2 r1.2).2 false; EvMemObjFree r1.2 false])
    else ((r2 r1.2).1, None, m, [EvMemObjFree r1.2 false])
  else (r1.1, None, m, []).

Definition demo_session : SUPDRVSESSION := mkSession 0x10000 BIRD_INV 0 0x70000 1000 1000 1234 1234.

(** A session that tracks one [MEMREF_TYPE_PAGE] object, and an object of 4 GB. *)
Definition demo_mem2 : SessMem :=
  (supdrvMemAdd (sessmem_init 0x10100) (mkMemRef 0x5000 0x6000 MEMREF_TYPE_PAGE) None id).2.

Definition demo_big_api : MemObjApi := {|
  RTR0MemObjAddress := @RTR0MemObjAddress demo_api;
  RTR0MemObjAddressR3 := @RTR0MemObjAddressR3 demo_api;
  RTR0MemObjSize h := 2 ^ 32;
  RTR0MemObjGetPagePhysAddr := @RTR0MemObjGetPagePhysAddr demo_api;
  RTR0MemObjAllocPage := @RTR0MemObjAllocPage demo_api;
  RTR0MemObjAllocLow := @RTR0MemObjAllocLow demo_api;
  RTR0MemObjAllocCont := @RTR0MemObjAllocCont demo_api;
  RTR0MemObjAllocPhysNC := @RTR0MemObjAllocPhysNC demo_api;
  RTR0MemObjLockUser := @RTR0MemObjLockUser demo_api;
  RTR0MemObjMapUser := @RTR0MemObjMapUser demo_api;
  RTR0MemObjMapKernelEx := @RTR0MemObjMapKernelEx demo_api;
  RTR0MemObjProtect := @RTR0MemObjProtect demo_api;
|}.

(** * Lemmas *)

Section lemmas.
Context `{HA : MemObjApi}.

Lemma failure_nonzero rc : RT_SUCCESS rc = false → rc ≠ 0.
Proof. unfold RT_SUCCESS. intros ?%Z.leb_gt. lia. Qed.

Lemma alloc_core_post m t r1 r2 out rAlloc others :
  mem_wf m → mem_wf (others m) →
  (RT_SUCCESS r1.1 = true → r1.2 ≠ NIL_RTR0MEMOBJ) →
  alloc_post m (others m) t r1 (r2 r1.2) (alloc_core m t r1 r2 out rAlloc others).
Proof.
  intros Hwf Ho Hnil. unfold alloc_core, alloc_post, got.
  destruct (RT_SUCCESS r1.1) eqn:E1.
  2:{ right. split_and!; [by apply failure_nonzero|done|by left|done]. }
  destruct (RT_SUCCESS (r2 r1.2).1) eqn:E2.
  2:{ right. split_and!; [by apply failure_nonzero|done|by left|done]. }
  assert (entry_live (mkMemRef r1.2 (r2 r1.2).2 t) = true) as Hlive.
  { unfold entry_live, entry_free; simpl. specialize (Hnil eq_refl).
    by rewrite (proj2 (Z.eqb_neq _ _) Hnil). }
  destruct (supdrvMemAdd m _ rAlloc others) as [rc m'] eqn:Ha.
  pose proof (memadd_wf _ _ _ _ _ _ Hwf Ho Hlive Ha).
  destruct (memadd_cases _ _ _ _ _ _ Hwf Ho Hlive Ha) as [[-> ?]|(->&_&->&_)]; simpl.
  - left. split_and!; done.
  - right. split_and!; [done|done|by right|done].
Qed.

Lemma lock_pages_ok hMem n pages pages' :
  lock_pages hMem n pages = (VINF_SUCCESS, pages') → (n ≤ length pages)%nat →
  pages' = (RTR0MemObjGetPagePhysAddr hMem <$> seqZ 0 (Z.of_nat n)) ++ drop n pages ∧
  ∀ i, 0 ≤ i < Z.of_nat n → RTR0MemObjGetPagePhysAddr hMem i ≠ NIL_RTHCPHYS.
Proof.
  revert pages. induction n as [|n IH]; intros pages; cbn [lock_pages].
  - intros [= <-] _. split; [done|]. intros; lia.
  - destruct (Z.eqb_spec (RTR0MemObjGetPagePhysAddr hMem (Z.of_nat n)) NIL_RTHCPHYS) as [|Hn];
      [done|]. intros Hl Hlen.
    destruct (IH _ Hl) as [-> Hi]; [rewrite length_insert; lia|]. split.
    + rewrite seqZ_S, Z.add_0_l, fmap_app, <- app_assoc. f_equal. simpl.
      rewrite drop_insert_ge, Nat.sub_diag by lia.
      destruct (lookup_lt_is_Some_2 pages n ltac:(lia)) as [x Hx].
      by rewrite (drop_S _ _ _ Hx).
    + intros i Hrange. destruct (decide (i = Z.of_nat n)) as [->|]; [done|]. apply Hi. lia.
Qed.

Lemma lock_pages_rc hMem n pages :
  (lock_pages hMem n pages).1 = VINF_SUCCESS ∨ (lock_pages hMem n pages).1 = VERR_INTERNAL_ERROR.
Proof.
  revert pages. induction n as [|n IH]; intros pages; simpl; [by left|].
  destruct (_ =? _); [by right|]. apply IH.
Qed.

Lemma bundles_find_last_spec f m cur :
  Forall bundle_wf m → (∀ e, f e = true → entry_live e = true) →
  match bundles_find_last f m cur with
  | Some e => cur = Some e ∨ (e ∈ tracked m ∧ f e = true)
  | None => cur = None ∧ ∀ e, e ∈ tracked m → f e = false
  end.
Proof.
  intros Hwf Hf. revert cur. induction Hwf as [|b m Hb Hm IH]; intros cur; simpl.
  { destruct cur; [by left|]. split; [done|]. intros e He. by apply not_elem_of_nil in He. }
  assert (∀ cur', find_split f (aMem b) = None →
    match bundles_find_last f m cur' with
    | Some e => cur' = Some e ∨ (e ∈ tracked (b :: m) ∧ f e = true)
    | None => cur' = None ∧ ∀ e, e ∈ tracked (b :: m) → f e = false end) as Hskip.
  { intros cur' Hn%find_split_None. rewrite Forall_forall in Hn. specialize (IH cur').
    destruct (bundles_find_last f m cur').
    - rewrite tracked_cons, elem_of_app. tauto.
    - split; [tauto|]. intros e. rewrite tracked_cons, elem_of_app, list_elem_of_filter.
      intros [[_ He]|He]; [by apply Hn|by apply IH]. }
  destruct (Z.ltb_spec 0 (cUsed b)); [|apply Hskip; by apply bundle_empty_skip].
  destruct (find_split f (aMem b)) as [[[pre e] post]|] eqn:F; [|by apply Hskip].
  apply find_split_Some in F as (Hl&He&_). specialize (IH (Some e)).
  assert (e ∈ tracked (b :: m)) as Hin.
  { apply tracked_elem. split; [by apply Hf|]. exists b. split; [left|rewrite Hl; set_solver]. }
  destruct (bundles_find_last f m (Some e)) as [e'|]; [|by destruct IH].
  right. destruct IH as [[= ->]|[? ?]]; [done|]. split; [|done].
  rewrite tracked_cons, elem_of_app. by right.
Qed.

Lemma map_kernel_matches_live p e : map_kernel_matches p e = true → entry_live e = true.
Proof.
  unfold map_kernel_matches, entry_live, entry_free.
  intros [E|E]%orb_true_iff; rewrite !andb_true_iff in E; tauto.
Qed.

Lemma protect_matches_live p q e : protect_matches p q e = true → entry_live e = true.
Proof.
  unfold protect_matches, entry_live, entry_free. intros E.
  rewrite !andb_true_iff in E. tauto.
Qed.

(** Up to 2 GB the 32-bit range check is the intended one. *)
Lemma sub_range_small off cb size :
  0 ≤ off → 0 ≤ cb → size ≤ 2 ^ 31 →
  sub_range_ok off cb size = true ↔ off < size ∧ off + cb ≤ size.
Proof.
  intros Ho Hc Hs. unfold sub_range_ok. rewrite !andb_true_iff, Z.ltb_lt, !Z.leb_le. split.
  - intros [[? ?] ?]. rewrite u32_small in * by lia. lia.
  - intros [? ?]. rewrite u32_small by lia. lia.
Qed.
End lemmas.

(** ** The bundles stay well-formed *)

Section wf.
Context `{HA : MemObjApi} `{!MemObjLaws HA} (m : SessMem) (ses : SUPDRVSESSION).
Context (rAlloc : option ptr) (others : SessMem → SessMem) (Hwf : mem_wf m) (Ho : mem_wf (others m)).

Lemma add_tracked_wf h hMap t : h ≠ NIL_RTR0MEMOBJ → mem_wf (supdrvMemAdd m (mkMemRef h hMap t) rAlloc others).2.
Proof.
  intros Hh. destruct (supdrvMemAdd _ _ _ _) as [rc m'] eqn:E. refine (memadd_wf m _ rAlloc others rc m' Hwf Ho _ E).
  unfold entry_live, entry_free; simpl. by rewrite (proj2 (Z.eqb_neq _ _) Hh).
Qed.

(** After the calls that create the object and its mapping. *)
Ltac add_wf h hMap t :=
  let H := fresh in
  pose proof (add_tracked_wf h hMap t) as H;
  destruct (supdrvMemAdd m (mkMemRef h hMap t) rAlloc others) as [??];
  specialize (H ltac:(auto)); simpl in H; by repeat case_match.

Lemma LockMem_wf pvR3 cPages pP pages : mem_wf (SUPR0LockMem m ses pvR3 cPages pP pages rAlloc others).1.2.
Proof.
  unfold SUPR0LockMem. repeat step_if; try done.
  pose proof (law_lock pvR3 (Z.shiftl cPages PAGE_SHIFT) 3) as Hl.
  change (Z.lor RTMEM_PROT_READ RTMEM_PROT_WRITE) with 3. destruct (RTR0MemObjLockUser _ _ _) as [rc h]; simpl in Hl.
  destruct (RT_SUCCESS rc); [|done]. destruct (lock_pages _ _ _) as [rcp pg].
  destruct (RT_SUCCESS (if RT_FAILURE rcp then rcp else rc)); [|by case_match].
  add_wf h NIL_RTR0MEMOBJ MEMREF_TYPE_LOCKED.
Qed.

Lemma ContAlloc_wf cPages p0 p3 pP : mem_wf (SUPR0ContAlloc m ses cPages p0 p3 pP rAlloc others).1.2.
Proof.
  unfold SUPR0ContAlloc. repeat step_if; try done.
  pose proof (law_cont (u32 (Z.shiftl cPages PAGE_SHIFT)) true) as Hl.
  destruct (RTR0MemObjAllocCont _ _) as [rc h]; simpl in Hl. destruct (RT_SUCCESS rc); [|done].
  destruct (MapUserRWX h) as [rc2 hMap]. destruct (RT_SUCCESS rc2); [|done].
  add_wf h hMap MEMREF_TYPE_CONT.
Qed.

Lemma LowAlloc_wf cPages p0 p3 pP : mem_wf (SUPR0LowAlloc m ses cPages p0 p3 pP rAlloc others).1.2.
Proof.
  unfold SUPR0LowAlloc. repeat step_if; try done.
  pose proof (law_low (u32 (Z.shiftl cPages PAGE_SHIFT)) true) as Hl.
  destruct (RTR0MemObjAllocLow _ _) as [rc h]; simpl in Hl. destruct (RT_SUCCESS rc); [|done].
  destruct (MapUserRWX h) as [rc2 hMap]. destruct (RT_SUCCESS rc2); [|done].
  add_wf h hMap MEMREF_TYPE_LOW.
Qed.

Lemma PageAllocEx_wf cPages fFlags p3 p0 pP : mem_wf (SUPR0PageAllocEx m ses cPages fFlags p3 p0 pP rAlloc others).1.2.
Proof.
  unfold SUPR0PageAllocEx. do 3 (destruct (negb _); [done|]). destruct (_ && _); [done|].
  destruct (negb _); [done|]. destruct (_ || _); [done|].
  pose proof (law_page (cPages * PAGE_SIZE) true) as Hl. pose proof (law_phys (cPages * PAGE_SIZE) NIL_RTHCPHYS) as Hl'.
  assert (Hnil : RT_SUCCESS (if negb (p0 =? NULL) then RTR0MemObjAllocPage (cPages * PAGE_SIZE) true
                              else RTR0MemObjAllocPhysNC (cPages * PAGE_SIZE) NIL_RTHCPHYS).1 = true →
                 (if negb (p0 =? NULL) then RTR0MemObjAllocPage (cPages * PAGE_SIZE) true
                              else RTR0MemObjAllocPhysNC (cPages * PAGE_SIZE) NIL_RTHCPHYS).2 ≠ NIL_RTR0MEMOBJ)
    by by destruct (negb _).
  destruct (if negb (p0 =? NULL) then _ else _) as [rc h]; simpl in Hnil. destruct (RT_SUCCESS rc); [|done].
  destruct (if negb (p3 =? NULL) then _ else _) as [rc2 hMap]. destruct (RT_SUCCESS rc2); [|done].
  add_wf h hMap MEMREF_TYPE_PAGE.
Qed.
End wf.

Lemma free_wf `{MemObjApi} (m : SessMem) (ses : SUPDRVSESSION) uPtr t :
  mem_wf m → mem_wf (if negb (SUP_IS_SESSION_VALID ses) then (VERR_INVALID_PARAMETER, m, [])
                     else supdrvMemRelease m uPtr t).1.2.
Proof.
  intros Hm. destruct (negb _); [done|]. destruct (supdrvMemRelease m uPtr t) as [[rc m'] ev] eqn:E.
  by eapply memrelease_wf.
Qed.

(** Closing a goal that is [alloc_core] with the function's own early returns taken. *)
Ltac alloc_finish r1 Hpost :=
  unfold alloc_core in Hpost; fold r1; destruct r1 as [rc h]; simpl in *;
  by destruct (MapUserRWX h).

(** * Properties *)

(** No allocation service leaks: for arguments that pass its checks, each of
    [SUPR0ContAlloc], [SUPR0LowAlloc], [SUPR0MemAlloc] and [SUPR0PageAllocEx] either
    succeeds with the memory object and its ring-3 mapping tracked as one entry of the
    right type, or fails with every handle it was given freed again (the mapping before
    the object) and no new entry, on each of its three failure paths. *)
Lemma alloc_no_leak `{HA : MemObjApi} `{!MemObjLaws HA} m ses rAlloc others :
  mem_wf m → mem_wf (others m) → SUP_IS_SESSION_VALID ses = true →
  (∀ cPages pR0 pR3 pP, 1 ≤ cPages < 256 → pR0 ≠ NULL → pR3 ≠ NULL → pP ≠ NULL →
     let r1 := RTR0MemObjAllocCont (cPages * PAGE_SIZE) true in
     alloc_post m (others m) MEMREF_TYPE_CONT r1 (MapUserRWX r1.2)
       (SUPR0ContAlloc m ses cPages pR0 pR3 pP rAlloc others)) ∧
  (∀ cPages pR0 pR3 pP, 1 ≤ cPages < 256 → pR0 ≠ NULL → pR3 ≠ NULL → pP ≠ NULL →
     let r1 := RTR0MemObjAllocLow (cPages * PAGE_SIZE) true in
     alloc_post m (others m) MEMREF_TYPE_LOW r1 (MapUserRWX r1.2)
       (SUPR0LowAlloc m ses cPages pR0 pR3 pP rAlloc others)) ∧
  (∀ cb pR0 pR3, 1 ≤ cb < 0x400000 → VALID_PTR pR0 = true → VALID_PTR pR3 = true →
     let r1 := RTR0MemObjAllocPage cb true in
     alloc_post m (others m) MEMREF_TYPE_MEM r1 (MapUserRWX r1.2)
       (SUPR0MemAlloc m ses cb pR0 pR3 rAlloc others)) ∧
  (∀ cPages pR3 pR0 pP, 1 ≤ cPages ≤ VBOX_MAX_ALLOC_PAGE_COUNT →
     VALID_PTR_OR_NULL pR3 = true → VALID_PTR_OR_NULL pR0 = true →
     (pR3 = NULL → pR0 ≠ NULL) →
     let r1 := if pR0 =? NULL then RTR0MemObjAllocPhysNC (cPages * PAGE_SIZE) NIL_RTHCPHYS
               else RTR0MemObjAllocPage (cPages * PAGE_SIZE) true in
     alloc_post m (others m) MEMREF_TYPE_PAGE r1
       (if pR3 =? NULL then (r1.1, NIL_RTR0MEMOBJ) else MapUserRWX r1.2)
       (SUPR0PageAllocEx m ses cPages 0 pR3 pR0 pP rAlloc others)).
Proof.
  intros Hwf Ho Hs.
  assert (∀ n, 1 ≤ n < 256 → u32 (Z.shiftl n PAGE_SHIFT) = n * PAGE_SIZE) as Hsh.
  { intros n Hn. unfold PAGE_SHIFT, PAGE_SIZE. rewrite Z.shiftl_mul_pow2 by lia.
    apply u32_small. lia. }
  split_and!.
  - intros n p q r Hn Hp Hq Hr r1. unfold SUPR0ContAlloc. rewrite Hs, Hsh by done.
    apply Z.eqb_neq in Hp, Hq, Hr. rewrite Hp, Hq, Hr.
    rewrite (proj2 (Z.ltb_ge n 1)), (proj2 (Z.leb_gt 256 n)) by lia.
    pose proof (alloc_core_post m MEMREF_TYPE_CONT r1 MapUserRWX
      (mkOut (RTR0MemObjAddress r1.2) (RTR0MemObjAddressR3 (MapUserRWX r1.2).2)
         [RTR0MemObjGetPagePhysAddr r1.2 0]) rAlloc others Hwf Ho (law_cont _ _)) as Hpost.
    alloc_finish r1 Hpost.
  - intros n p q r Hn Hp Hq Hr r1. unfold SUPR0LowAlloc. rewrite Hs, Hsh by done.
    apply Z.eqb_neq in Hp, Hq, Hr. rewrite Hp, Hq, Hr.
    rewrite (proj2 (Z.ltb_ge n 1)), (proj2 (Z.leb_gt 256 n)) by lia.
    pose proof (alloc_core_post m MEMREF_TYPE_LOW r1 MapUserRWX
      (mkOut (RTR0MemObjAddress r1.2) (RTR0MemObjAddressR3 (MapUserRWX r1.2).2)
         (RTR0MemObjGetPagePhysAddr r1.2 <$> seqZ 0 n)) rAlloc others Hwf Ho (law_low _ _)) as Hpost.
    alloc_finish r1 Hpost.
  - intros n p q Hn Hp Hq r1. unfold SUPR0MemAlloc. rewrite Hs, Hp, Hq.
    rewrite (proj2 (Z.ltb_ge n 1)), (proj2 (Z.leb_gt 0x400000 n)) by lia.
    pose proof (alloc_core_post m MEMREF_TYPE_MEM r1 MapUserRWX
      (mkOut (RTR0MemObjAddress r1.2) (RTR0MemObjAddressR3 (MapUserRWX r1.2).2) [])
      rAlloc others Hwf Ho (law_page _ _)) as Hpost.
    alloc_finish r1 Hpost.
  - intros n p q r Hn Hp Hq Hnn r1. unfold SUPR0PageAllocEx. rewrite Hs, Hp, Hq.
    rewrite (proj2 (Z.ltb_ge n 1)), (proj2 (Z.ltb_ge VBOX_MAX_ALLOC_PAGE_COUNT n)) by lia.
    assert ((p =? NULL) && (q =? NULL) = false) as ->.
    { destruct (Z.eqb_spec p NULL) as [Ep|]; [|done]. apply Z.eqb_neq. by apply Hnn. }
    simpl. set (r2 := λ h, if p =? NULL then (r1.1, NIL_RTR0MEMOBJ) else MapUserRWX h).
    pose proof (alloc_core_post m MEMREF_TYPE_PAGE r1 r2
      (mkOut (if negb (q =? NULL) then RTR0MemObjAddress r1.2 else NULL)
         (if negb (p =? NULL) then RTR0MemObjAddressR3 (r2 r1.2).2 else NULL)
         (if negb (r =? NULL) then RTR0MemObjGetPagePhysAddr (r2 r1.2).2 <$> seqZ 0 n else []))
      rAlloc others Hwf Ho) as Hpost.
    assert (RT_SUCCESS r1.1 = true → r1.2 ≠ NIL_RTR0MEMOBJ) as Hlaw.
    { unfold r1. destruct (q =? NULL); [apply law_phys|apply law_page]. }
    specialize (Hpost Hlaw). unfold alloc_core, r2 in Hpost. clear r2 Hlaw.
    unfold r1 in *. clear r1.
    destruct (q =? NULL); simpl in *;
      [destruct (RTR0MemObjAllocPhysNC _ _) as [rc h]|destruct (RTR0MemObjAllocPage _ _) as [rc h]];
      simpl in *; (destruct (p =? NULL); simpl in *; [done|by destruct (MapUserRWX h)]).
Qed.

(** Memory from [SUPR0MemAlloc] can be used and given back by either of its addresses:
    while it is tracked [SUPR0MemGetPhys] stores the physical address of every page of the
    object, and [SUPR0MemFree] frees the ring-3 mapping and the object and leaves the other
    entries of the session as they were (no other [MEMREF_TYPE_MEM] entry of the session
    having that address). *)
Lemma memalloc_free_roundtrip `{HA : MemObjApi} `{!MemObjLaws HA} m ses cb pR0 pR3 rAlloc o m1 ev uPtr pP :
  mem_wf m → VALID_PTR pP = true →
  SUPR0MemAlloc m ses cb pR0 pR3 rAlloc id = (VINF_SUCCESS, Some o, m1, ev) →
  uPtr = out_R0 o ∨ uPtr = out_R3 o → uPtr ≠ 0 →
  (∀ e, e ∈ tracked m → entry_matches uPtr MEMREF_TYPE_MEM e = false) →
  let hMem := (RTR0MemObjAllocPage cb true).2 in
  SUPR0MemGetPhys m1 ses uPtr pP =
    (VINF_SUCCESS,
     RTR0MemObjGetPagePhysAddr hMem <$> seqZ 0 (Z.shiftr (RTR0MemObjSize hMem) PAGE_SHIFT)) ∧
  ∃ m2, SUPR0MemFree m1 ses uPtr =
    (VINF_SUCCESS, m2, [EvMemObjFree (MapUserRWX hMem).2 false; EvMemObjFree hMem true]) ∧
    tracked m2 ≡ₚ tracked m.
Proof.
  intros Hwf HpP Hal Hptr Hu Hother hMem. unfold SUPR0MemAlloc in Hal.
  destruct (SUP_IS_SESSION_VALID ses) eqn:Hs; [|done].
  destruct (VALID_PTR pR0); [|done]. destruct (VALID_PTR pR3); [|done].
  destruct (_ || _); [done|]. simpl in Hal.
  pose proof (law_page cb true) as Hnil. unfold hMem. clear hMem.
  destruct (RTR0MemObjAllocPage cb true) as [rc1 h]; simpl in *.
  destruct (RT_SUCCESS rc1); [|done].
  assert (RT_SUCCESS (MapUserRWX h).1 = true → (MapUserRWX h).2 ≠ NIL_RTR0MEMOBJ) as Hmap
    by apply law_map.
  destruct (MapUserRWX h) as [rc2 h3]; simpl in *.
  destruct (RT_SUCCESS rc2); [|done]. specialize (Hmap eq_refl). specialize (Hnil eq_refl).
  set (e := mkMemRef h h3 MEMREF_TYPE_MEM) in *.
  destruct (supdrvMemAdd m e rAlloc id) as [rc m'] eqn:Ha.
  destruct (Z.eqb_spec rc 0) as [->|Hrc]; [|congruence]. injection Hal as <- <- _.
  assert (entry_live e = true) as Hlive.
  { unfold entry_live, entry_free, e; simpl. by rewrite (proj2 (Z.eqb_neq _ _) Hnil). }
  pose proof (memadd_wf _ _ _ _ _ _ Hwf Hwf Hlive Ha) as Hwf'.
  assert (tracked m' ≡ₚ e :: tracked m) as Htr.
  { destruct (memadd_cases _ _ _ _ _ _ Hwf Hwf Hlive Ha) as [[_ [?|?]]|(?&_)]; done. }
  assert (entry_matches uPtr MEMREF_TYPE_MEM e = true) as Hm.
  { unfold entry_matches, e. simpl in *. rewrite (proj2 (Z.eqb_neq _ _) Hnil), (proj2 (Z.eqb_neq _ _) Hmap).
    destruct Hptr as [->| ->]; rewrite Z.eqb_refl; simpl; [done|by rewrite orb_true_r]. }
  assert (∀ e', e' ∈ tracked m' → entry_matches uPtr MEMREF_TYPE_MEM e' = true → e' = e) as Huniq.
  { intros e' Hin He'. rewrite Htr in Hin. apply elem_of_cons in Hin as [->|Hin]; [done|].
    by rewrite Hother in He'. }
  destruct Hwf' as [_ Hwf']. apply Z.eqb_neq in Hu. split.
  - unfold SUPR0MemGetPhys. rewrite Hs, HpP, Hu. simpl.
    pose proof (bundles_find_spec (entry_matches uPtr MEMREF_TYPE_MEM) m' Hwf'
                  (entry_matches_live _ _)) as Hf.
    destruct (bundles_find _ m') as [e'|].
    + destruct Hf as [Hin He']. by rewrite (Huniq _ Hin He').
    + rewrite Hf in Hm; [done|]. rewrite Htr. left.
  - unfold SUPR0MemFree, supdrvMemRelease. rewrite Hs, Hu. simpl.
    pose proof (bundles_take_spec (entry_matches uPtr MEMREF_TYPE_MEM) m' Hwf'
                  (entry_matches_live _ _)) as Hf.
    destruct (bundles_take _ m') as [[e' m2]|].
    + destruct Hf as (He'&_&_&Hp&_). assert (e' = e) as -> by (apply Huniq; [rewrite Hp; left|done]).
      exists m2. split.
      * unfold memref_free; simpl. by rewrite (proj2 (Z.eqb_neq _ _) Hnil), (proj2 (Z.eqb_neq _ _) Hmap).
      * rewrite Htr in Hp. by apply Permutation_cons_inv in Hp.
    + rewrite Hf in Hm; [done|]. rewrite Htr. left.
Qed.

(** [SUPR0LockMem]: on success every page address the caller's array holds is the
    physical address of that page, none of them invalid, and the lock is tracked; if
    anything fails after the pages were locked, they are unlocked again and nothing is
    tracked. *)
Lemma lockmem_spec `{HA : MemObjApi} `{!MemObjLaws HA} m ses pvR3 cPages pP pages rAlloc others rc pages' m' ev :
  mem_wf m → mem_wf (others m) → 0 ≤ cPages → length pages = Z.to_nat cPages →
  SUPR0LockMem m ses pvR3 cPages pP pages rAlloc others = (rc, pages', m', ev) →
  let r := RTR0MemObjLockUser pvR3 (Z.shiftl cPages PAGE_SHIFT) 3 in
  (rc = VINF_SUCCESS ∧ ev = [] ∧
   pages' = (RTR0MemObjGetPagePhysAddr r.2 <$> seqZ 0 cPages) ∧ (NIL_RTHCPHYS ∉ pages') ∧
   let e := mkMemRef r.2 NIL_RTR0MEMOBJ MEMREF_TYPE_LOCKED in
   (tracked m' ≡ₚ e :: tracked m ∨ tracked m' ≡ₚ e :: tracked (others m)))
  ∨ (RT_FAILURE rc = true ∧ (m' = m ∨ m' = others m) ∧ (ev = [] ∨ ev = [EvMemObjFree r.2 false])).
Proof.
  intros Hwf Ho Hc Hlen. unfold SUPR0LockMem.
  destruct (SUP_IS_SESSION_VALID ses); simpl; [|intros [= <- <- <- <-]; naive_solver].
  destruct (VALID_PTR pP); simpl; [|intros [= <- <- <- <-]; naive_solver].
  destruct (_ || _); simpl; [intros [= <- <- <- <-]; naive_solver|].
  pose proof (law_lock pvR3 (Z.shiftl cPages PAGE_SHIFT) 3) as Hnil.
  destruct (RTR0MemObjLockUser _ _ _) as [rc1 h]; simpl in *.
  destruct (RT_SUCCESS rc1) eqn:E1.
  2:{ intros [= <- <- <- <-]. right. unfold RT_SUCCESS, RT_FAILURE in *. zbool.
      split; [apply Z.ltb_lt; lia|auto]. }
  pose proof (lock_pages_rc h (Z.to_nat cPages) pages) as Hrc.
  pose proof (lock_pages_ok h (Z.to_nat cPages) pages) as Hok.
  destruct (lock_pages h (Z.to_nat cPages) pages) as [rcp pg]; simpl in *.
  destruct Hrc as [-> | ->]; simpl.
  2:{ intros [= <- <- <- <-]. right. auto. }
  rewrite E1. assert (entry_live (mkMemRef h NIL_RTR0MEMOBJ MEMREF_TYPE_LOCKED) = true) as Hlive.
  { unfold entry_live, entry_free; simpl. by rewrite (proj2 (Z.eqb_neq _ _) (Hnil eq_refl)). }
  destruct (supdrvMemAdd m _ rAlloc others) as [rc2 m2] eqn:Ha.
  destruct (Hok pg eq_refl ltac:(lia)) as [Hpg Hi]. clear Hok. rewrite Z2Nat.id in * by lia.
  rewrite drop_ge, app_nil_r in Hpg by lia.
  destruct (memadd_cases _ _ _ _ _ _ Hwf Ho Hlive Ha) as [[-> Ht]|(->&_&->&_)]; simpl.
  - intros [= <- <- <- <-]. left. split_and!; [done|done|done| |done].
    rewrite Hpg. intros (i&Hn&Hin)%list_elem_of_fmap. apply elem_of_seqZ in Hin.
    by apply (Hi i); [lia|].
  - intros [= <- <- <- <-]. right. auto.
Qed.

(** [SUPR0PageMapKernel] maps only memory of the calling session and, for objects of
    at most 2 GB, only inside the object: whenever it asks IPRT for a kernel mapping, the
    object is one the session tracks with the ring-3 address given, and the page aligned,
    non-empty range lies within it. *)
Lemma map_kernel_in_bounds `{HA : MemObjApi} m ses pvR3 offSub cbSub fFlags ppvR0 rc h off cb out :
  mem_wf m → 0 ≤ offSub < 2 ^ 32 → 0 ≤ cbSub < 2 ^ 32 →
  SUPR0PageMapKernel m ses pvR3 offSub cbSub fFlags ppvR0 = (rc, Some (h, off, cb), out) →
  off = offSub ∧ cb = cbSub ∧ 0 < cb ∧ Z.land off PAGE_OFFSET_MASK = 0 ∧
  Z.land cb PAGE_OFFSET_MASK = 0 ∧
  (∃ e, e ∈ tracked m ∧ MemObj e = h ∧
        (RTR0MemObjAddressR3 (MapObjR3 e) = pvR3 ∨ RTR0MemObjAddressR3 h = pvR3)) ∧
  (RTR0MemObjSize h ≤ 2 ^ 31 → off + cb ≤ RTR0MemObjSize h).
Proof.
  intros [_ Hwf] Ho Hc. unfold SUPR0PageMapKernel.
  destruct (SUP_IS_SESSION_VALID ses); simpl; [|done].
  destruct (VALID_PTR_OR_NULL ppvR0); simpl; [|done].
  destruct (fFlags =? 0); simpl; [|done]. unfold tst.
  destruct (Z.eqb_spec (Z.land offSub PAGE_OFFSET_MASK) 0) as [Ho0|]; simpl; [|done].
  destruct (Z.eqb_spec (Z.land cbSub PAGE_OFFSET_MASK) 0) as [Hc0|]; simpl; [|done].
  destruct (Z.eqb_spec cbSub 0); [done|].
  pose proof (bundles_find_last_spec (map_kernel_matches pvR3) m None Hwf
                (map_kernel_matches_live pvR3)) as Hf.
  destruct (bundles_find_last _ m None) as [e|]; [|done].
  destruct Hf as [?|[Hin He]]; [done|].
  destruct (sub_range_ok _ _ _) eqn:Hr; [|done].
  destruct (RTR0MemObjMapKernelEx _ _ _ _ _ _) as [rc' h']. intros [= <- <- <- <- <-].
  split_and!; [done|done|lia|done|done| |].
  - exists e. split_and!; [done|done|]. unfold map_kernel_matches in He.
    apply orb_true_iff in He as [He|He]; rewrite !andb_true_iff, !Z.eqb_eq in He; tauto.
  - intros Hs. apply sub_range_small in Hr; lia.
Qed.

(** The bound of 2 GB is needed: [offSub + cbSub] is computed in 32 bits, so for a
    larger object (which [SUPR0LockMem] can track) the check accepts a range that ends
    beyond it, and the kernel mapping is asked for. *)
Lemma map_kernel_wraps :
  ∃ (A : MemObjApi) m ses pvR3 offSub cbSub ppvR0 rc h out,
    mem_wf m ∧ 0 ≤ offSub < 2 ^ 32 ∧ 0 ≤ cbSub < 2 ^ 32 ∧
    SUPR0PageMapKernel m ses pvR3 offSub cbSub 0 ppvR0 = (rc, Some (h, offSub, cbSub), out) ∧
    RTR0MemObjSize h < offSub + cbSub.
Proof.
  set (e := mkMemRef 0x5000 0 MEMREF_TYPE_LOCKED).
  exists demo_big_api, (supdrvMemAdd (sessmem_init 0x10100) e None id).2, demo_session,
    (0x7f0000000000 + 0x5000), 0x80000000, 0x90000000, 0xffff880000001000, VINF_SUCCESS, 0x5000,
    (Some (0xffff880000007000)).
  split_and!; try lia; [|vm_compute; reflexivity|vm_compute; reflexivity].
  apply (memadd_wf (sessmem_init 0x10100) e None id VINF_SUCCESS);
    [apply sessmem_init_wf|apply sessmem_init_wf|reflexivity|reflexivity].
Qed.

(** [SUPR0PageProtect] changes the protection only of the mappings asked for: every
    [RTR0MemObjProtect] it makes is for one tracked [MEMREF_TYPE_PAGE] entry of the
    session, the ring-3 mapping first and only if [pvR3] names it, the object itself only
    if [pvR0] names it and the ring-3 change succeeded; without such an entry nothing is
    changed. *)
Lemma page_protect_calls `{HA : MemObjApi} m ses pvR3 pvR0 offSub cbSub fProt rc ev :
  mem_wf m → SUPR0PageProtect m ses pvR3 pvR0 offSub cbSub fProt = (rc, ev) →
  ev = [] ∨
  ∃ e, e ∈ tracked m ∧ protect_matches pvR3 pvR0 e = true ∧
    let evR3 := EvMemObjProtect (MapObjR3 e) offSub cbSub fProt in
    let evR0 := EvMemObjProtect (MemObj e) offSub cbSub fProt in
    (pvR3 ≠ NIL_RTR3PTR ∧ pvR0 = NIL_RTR0PTR ∧ ev = [evR3]) ∨
    (pvR3 = NIL_RTR3PTR ∧ pvR0 ≠ NIL_RTR0PTR ∧ ev = [evR0]) ∨
    (pvR3 ≠ NIL_RTR3PTR ∧ pvR0 ≠ NIL_RTR0PTR ∧
     ev = if RT_SUCCESS (RTR0MemObjProtect (MapObjR3 e) offSub cbSub fProt)
          then [evR3; evR0] else [evR3]).
Proof.
  intros [_ Hwf]. unfold SUPR0PageProtect.
  destruct (negb (SUP_IS_SESSION_VALID ses)); [intros [= <- <-]; by left|].
  destruct (negb (_ =? 0)); [intros [= <- <-]; by left|].
  destruct (_ #& _); [intros [= <- <-]; by left|].
  destruct (_ #& _); [intros [= <- <-]; by left|].
  destruct (cbSub =? 0); [intros [= <- <-]; by left|].
  pose proof (bundles_find_last_spec (protect_matches pvR3 pvR0) m None Hwf
                (protect_matches_live pvR3 pvR0)) as Hf.
  destruct (bundles_find_last _ m None) as [e|]; simpl.
  2:{ destruct (negb (pvR0 =? NIL_RTR0PTR)), (negb (pvR3 =? NIL_RTR3PTR)); intros [= <- <-]; by left. }
  destruct Hf as [?|[Hin He]]; [done|].
  assert (MemObj e ≠ NIL_RTR0MEMOBJ ∧ (pvR3 ≠ NIL_RTR3PTR → MapObjR3 e ≠ NIL_RTR0MEMOBJ)) as [H1 H3].
  { unfold protect_matches in He. rewrite !andb_true_iff, !orb_true_iff, !negb_true_iff, !Z.eqb_eq, !Z.eqb_neq in He.
    tauto. }
  apply Z.eqb_neq in H1. destruct (Z.eqb_spec pvR3 NIL_RTR3PTR) as [E3|N3].
  - destruct (Z.eqb_spec pvR0 NIL_RTR0PTR); simpl; [intros [= <- <-]; by left|].
    rewrite H1; simpl. destruct (sub_range_ok _ _ _); intros [= <- <-]; [|by left].
    right. exists e. split_and!; [done|done|]. by right; left.
  - specialize (H3 N3). apply Z.eqb_neq in H3.
    destruct (Z.eqb_spec pvR0 NIL_RTR0PTR); simpl; rewrite ?H1, H3; simpl;
      (destruct (sub_range_ok _ _ _); [|intros [= <- <-]; by left]).
    + intros [= <- <-]. right. exists e. split_and!; [done|done|]. by left.
    + intros Hev. right. exists e. split_and!; [done|done|]. right. right.
      destruct (RT_SUCCESS _); injection Hev as <- <-; done.
Qed.

(** * Witnesses *)

#[global] Instance demo_laws : MemObjLaws demo_api.
Proof. by constructor. Qed.

Lemma demo_mem1_wf : mem_wf demo_mem1.
Proof.
  apply (memadd_wf (sessmem_init 0x10100) demo_memref None id VINF_SUCCESS);
    [apply sessmem_init_wf|apply sessmem_init_wf|reflexivity|reflexivity].
Qed.

Lemma alloc_no_leak_witness :
  mem_wf demo_mem1 ∧
  alloc_post demo_mem1 demo_mem1 MEMREF_TYPE_CONT (VINF_SUCCESS, 0x5000) (VINF_SUCCESS, 0x6000)
    (@SUPR0ContAlloc demo_api demo_mem1 demo_session 3 0x1000 0x2000 0x3000 None id).
Proof.
  split; [apply demo_mem1_wf|].
  apply (proj1 (alloc_no_leak (HA := demo_api) demo_mem1 demo_session None id
                  demo_mem1_wf demo_mem1_wf eq_refl) 3 0x1000 0x2000 0x3000); [lia|done|done|done].
Defined.

Lemma memalloc_free_roundtrip_witness :
  ∃ o m1 m2 ev, @SUPR0MemAlloc demo_api (sessmem_init 0x10100) demo_session 0x4000
                  0xffff880000001000 0xffff880000001008 None id = (VINF_SUCCESS, Some o, m1, ev) ∧
    @SUPR0MemFree demo_api m1 demo_session (out_R3 o)
    = (VINF_SUCCESS, m2, [EvMemObjFree 0x6000 false; EvMemObjFree 0x5000 true]).
Proof.
  eexists _, _.
  destruct (memalloc_free_roundtrip (HA := demo_api) (sessmem_init 0x10100) demo_session 0x4000
              0xffff880000001000 0xffff880000001008 None _ _ _ (0x7f0000000000 + 0x6000)
              0xffff880000002000 (sessmem_init_wf _) eq_refl eq_refl)
    as [_ (m2&Hm2&_)]; [right; reflexivity|done| |].
  - intros e He. vm_compute in He. by apply not_elem_of_nil in He.
  - exists m2. eexists. split; [vm_compute; reflexivity|exact Hm2].
Defined.

Lemma lockmem_spec_witness :
  ∃ m' ev, @SUPR0LockMem demo_api (sessmem_init 0x10100) demo_session 0x7f0000005000 2
             0xffff880000001000 [0; 0] None id = (VINF_SUCCESS, [0x5000000; 0x5001000], m', ev).
Proof.
  eexists _, _.
  destruct (lockmem_spec (HA := demo_api) (sessmem_init 0x10100) demo_session 0x7f0000005000 2
              0xffff880000001000 [0; 0] None id VINF_SUCCESS _ _ _ (sessmem_init_wf _)
              (sessmem_init_wf _) ltac:(lia) eq_refl eq_refl) as [_|(H&_)]; [|done].
  vm_compute. reflexivity.
Defined.

Lemma map_kernel_in_bounds_witness :
  ∃ out, @SUPR0PageMapKernel demo_api demo_mem2 demo_session (0x7f0000000000 + 0x6000) 0x1000 0x2000 0
           0xffff880000001000 = (VINF_SUCCESS, Some (0x5000, 0x1000, 0x2000), out) ∧ 0x1000 + 0x2000 ≤ 0x4000.
Proof.
  eexists. split; [vm_compute; reflexivity|].
  refine (proj2 (proj2 (proj2 (proj2 (proj2 (proj2 (map_kernel_in_bounds (HA := demo_api) demo_mem2
    demo_session (0x7f0000000000 + 0x6000) 0x1000 0x2000 0 0xffff880000001000 VINF_SUCCESS 0x5000
    0x1000 0x2000 _ _ _ _ _)))))) _); [|lia|lia|vm_compute; reflexivity|done].
  apply (memadd_wf (sessmem_init 0x10100) (mkMemRef 0x5000 0x6000 MEMREF_TYPE_PAGE) None id
           VINF_SUCCESS); [apply sessmem_init_wf|apply sessmem_init_wf|reflexivity|reflexivity].
Defined.

Lemma page_protect_calls_witness :
  ∃ ev, @SUPR0PageProtect demo_api demo_mem2 demo_session (0x7f0000000000 + 0x6000) 0 0x1000 0x1000 1
        = (VINF_SUCCESS, ev) ∧ ev ≠ [].
Proof.
  eexists. split; [vm_compute; reflexivity|].
  destruct (page_protect_calls (HA := demo_api) demo_mem2 demo_session (0x7f0000000000 + 0x6000) 0
              0x1000 0x1000 1 VINF_SUCCESS [EvMemObjProtect 0x6000 0x1000 0x1000 1]) as [H|_];
    [|vm_compute; reflexivity|done|done].
  apply (memadd_wf (sessmem_init 0x10100) (mkMemRef 0x5000 0x6000 MEMREF_TYPE_PAGE) None id
           VINF_SUCCESS); [apply sessmem_init_wf|apply sessmem_init_wf|reflexivity|reflexivity].
Defined.
