(* ===== verification/Loader.v ===== *)
(** The ring-0 image loader of SUPDrv.c: [supdrvIOCtl_LdrOpen], [supdrvIOCtl_LdrLoad],
    [supdrvIOCtl_LdrFree], [supdrvIOCtl_LdrGetSymbol], [supdrvIDC_LdrGetSymbol], the VMMR0
    entry points, [supdrvIOCtl_CallServiceModule] and the loader part of
    [supdrvCleanupSession].

    State: the [SUPDRVLDRIMAGE] structures in memory, the device extension's list
    [pLdrImages] and its VMMR0 entry points, and each session's list [pLdrUsage].  Every
    operation runs under the loader lock.  Results of allocations are arguments; the
    native loader hooks are those of the Linux host. *)

From S2P Require Import Prelude SupTypes ObjReg.
Local Open Scope Z_scope.

(** * Data *)

(** The IOCtl codes that name the states of an image ([_IOC] of the Linux host). *)
Definition IOC (dir nr size : Z) : Z :=
  Z.lor (Z.shiftl dir 30) (Z.lor (Z.shiftl size 16) (Z.lor (Z.shiftl 0x56 8) nr)).
Definition SUP_IOCTL_FLAG : Z := 128.
Definition SUP_CTL_CODE_SIZE (Function Size : Z) : Z := IOC 3 (Z.lor Function SUP_IOCTL_FLAG) Size.
Definition SUP_CTL_CODE_BIG (Function : Z) : Z := IOC 0 (Z.lor Function SUP_IOCTL_FLAG) 0.
Definition SUP_IOCTL_LDR_OPEN : Z := SUP_CTL_CODE_SIZE 3 328.
Definition SUP_IOCTL_LDR_LOAD : Z := SUP_CTL_CODE_BIG 4.
Definition SUP_IOCTL_LDR_FREE : Z := SUP_CTL_CODE_SIZE 5 32.

Record SUPLDRSYM := mkSym {
  offName : Z;
  offSymbol : Z;
}.

#[export] Instance SUPLDRSYM_eq_dec : EqDecision SUPLDRSYM.
Proof. solve_decision. Defined.

(** [paSymbols] and [pachStrTab] are the allocation and what it holds, [None] for NULL;
    names are the bytes before the terminator. *)
Record SUPDRVLDRIMAGE := mkImage {
  li_pvImage : ptr;
  li_pvImageAlloc : ptr;
  li_cbImageWithTabs : Z;
  li_cbImageBits : Z;
  li_cSymbols : Z;
  li_paSymbols : option (ptr * list SUPLDRSYM);
  li_pachStrTab : option (ptr * list Z);
  li_cbStrTab : Z;
  li_pfnModuleInit : ptr;
  li_pfnModuleTerm : ptr;
  li_pfnServiceReqHandler : ptr;
  li_uState : Z;
  li_cUsage : Z;
  li_fNative : bool;
  li_szName : list Z;
}.

Record SUPDRVLDRUSAGE := mkLdrUsage {
  lu_self : ptr;
  lu_pImage : ptr;
  lu_cUsage : Z;
}.

Record LdrState := mkLdrState {
  l_heap : gmap Z SUPDRVLDRIMAGE;
  pLdrImages : list ptr;
  pLdrUsage : gmap Z (list SUPDRVLDRUSAGE);
  pvVMMR0 : ptr;
  pfnVMMR0EntryInt : ptr;
  pfnVMMR0EntryFast : ptr;
  pfnVMMR0EntryEx : ptr;
}.

Definition ldr_init : LdrState := mkLdrState ∅ [] ∅ NULL NULL NULL NULL.

Definition set_lheap (h : gmap Z SUPDRVLDRIMAGE) (st : LdrState) : LdrState :=
  mkLdrState h (pLdrImages st) (pLdrUsage st) (pvVMMR0 st) (pfnVMMR0EntryInt st)
    (pfnVMMR0EntryFast st) (pfnVMMR0EntryEx st).
Definition set_pLdrImages (l : list ptr) (st : LdrState) : LdrState :=
  mkLdrState (l_heap st) l (pLdrUsage st) (pvVMMR0 st) (pfnVMMR0EntryInt st)
    (pfnVMMR0EntryFast st) (pfnVMMR0EntryEx st).
Definition set_pLdrUsage (s : ptr) (l : list SUPDRVLDRUSAGE) (st : LdrState) : LdrState :=
  mkLdrState (l_heap st) (pLdrImages st) (<[s := l]> (pLdrUsage st)) (pvVMMR0 st)
    (pfnVMMR0EntryInt st) (pfnVMMR0EntryFast st) (pfnVMMR0EntryEx st).
Definition set_eps (p i f e : ptr) (st : LdrState) : LdrState :=
  mkLdrState (l_heap st) (pLdrImages st) (pLdrUsage st) p i f e.
Definition upd_img (p : ptr) (f : SUPDRVLDRIMAGE → SUPDRVLDRIMAGE) (st : LdrState) : LdrState :=
  set_lheap (alter f p (l_heap st)) st.

Definition ldr_usage (st : LdrState) (s : ptr) : list SUPDRVLDRUSAGE :=
  default [] (pLdrUsage st !! s).

Definition set_li_cUsage (n : Z) (i : SUPDRVLDRIMAGE) : SUPDRVLDRIMAGE :=
  mkImage (li_pvImage i) (li_pvImageAlloc i) (li_cbImageWithTabs i) (li_cbImageBits i)
    (li_cSymbols i) (li_paSymbols i) (li_pachStrTab i) (li_cbStrTab i) (li_pfnModuleInit i)
    (li_pfnModuleTerm i) (li_pfnServiceReqHandler i) (li_uState i) n (li_fNative i) (li_szName i).

(** The part of an image that loading fills in. *)
Definition set_li_tables (cSym : Z) (syms : option (ptr * list SUPLDRSYM))
    (strs : option (ptr * list Z)) (cbStr : Z) (i : SUPDRVLDRIMAGE) : SUPDRVLDRIMAGE :=
  mkImage (li_pvImage i) (li_pvImageAlloc i) (li_cbImageWithTabs i) (li_cbImageBits i)
    cSym syms strs cbStr (li_pfnModuleInit i)
    (li_pfnModuleTerm i) (li_pfnServiceReqHandler i) (li_uState i) (li_cUsage i)
    (li_fNative i) (li_szName i).
Definition set_li_state (uState init term svc : Z) (i : SUPDRVLDRIMAGE) : SUPDRVLDRIMAGE :=
  mkImage (li_pvImage i) (li_pvImageAlloc i) (li_cbImageWithTabs i) (li_cbImageBits i)
    (li_cSymbols i) (li_paSymbols i) (li_pachStrTab i) (li_cbStrTab i) init term svc uState
    (li_cUsage i) (li_fNative i) (li_szName i).

Definition set_lu_cUsage (n : Z) (u : SUPDRVLDRUSAGE) : SUPDRVLDRUSAGE :=
  mkLdrUsage (lu_self u) (lu_pImage u) n.

(** * The requests *)

Record LdrOpenReq := mkLdrOpenReq {
  lo_cbImageWithTabs : Z;
  lo_cbImageBits : Z;
  lo_szName : list Z;
  lo_szFilename : list Z;
}.

Record LdrOpenOut := mkLdrOpenOut {
  lo_pvImageBase : ptr;
  lo_fNeedsLoading : bool;
  lo_fNativeLoader : bool;
}.

(** [eEPType] with the member of the union [EP] it selects. *)
Inductive SUPLDRLOADEP :=
| SUPLDRLOADEP_NOTHING
| SUPLDRLOADEP_VMMR0 (pvVMMR0 pvVMMR0EntryInt pvVMMR0EntryFast pvVMMR0EntryEx : ptr)
| SUPLDRLOADEP_SERVICE (pfnServiceReq apvReserved0 apvReserved1 apvReserved2 : ptr)
| SUPLDRLOADEP_INVALID (eEPType : Z).

Record LdrLoadReq := mkLdrLoadReq {
  ll_pvImageBase : ptr;
  ll_EP : SUPLDRLOADEP;
  ll_pfnModuleInit : ptr;
  ll_pfnModuleTerm : ptr;
  ll_cbImageBits : Z;
  ll_cbImageWithTabs : Z;
  ll_offSymbols : Z;
  ll_cSymbols : Z;
  ll_offStrTab : Z;
  ll_cbStrTab : Z;
  ll_abImage : list Z;
}.

(** * The Linux host's native loader hooks *)

Definition supdrvOSLdrOpen (szFilename : list Z) : Z := VERR_NOT_SUPPORTED.
Definition supdrvOSLdrValidatePointer (pv : ptr) (abImage : list Z) : Z := VERR_NOT_SUPPORTED.
Definition supdrvOSLdrLoad (abImage : list Z) : Z := VERR_NOT_SUPPORTED.

(** * Operations *)

Definition supdrvLdrSetVMMR0EPs (st : LdrState) (pv int fast ex : ptr) : Z * LdrState :=
  if pvVMMR0 st =? NULL then (VINF_SUCCESS, set_eps pv int fast ex st)
  else if negb (pvVMMR0 st =? pv) || negb (pfnVMMR0EntryInt st =? int)
          || negb (pfnVMMR0EntryFast st =? fast) || negb (pfnVMMR0EntryEx st =? ex)
  then (VERR_INVALID_PARAMETER, st)
  else (VINF_SUCCESS, st).

Definition supdrvLdrUnsetVMMR0EPs (st : LdrState) : LdrState := set_eps NULL NULL NULL NULL st.

(** [rAlloc]: the usage record [RTMemAlloc] returns. *)
Definition supdrvLdrAddUsage (st : LdrState) (s pImage : ptr) (rAlloc : option ptr)
    : Z * LdrState :=
  match find_split (λ u, lu_pImage u =? pImage) (ldr_usage st s) with
  | Some (pre, u, post) =>
      (VINF_SUCCESS, set_pLdrUsage s (pre ++ set_lu_cUsage (u32 (lu_cUsage u + 1)) u :: post) st)
  | None =>
      match rAlloc with
      | None => (VERR_INTERNAL_ERROR_5, st)
      | Some p => (VINF_SUCCESS, set_pLdrUsage s (mkLdrUsage p pImage 1 :: ldr_usage st s) st)
      end
  end.

(** Whether [pfn] lies in the image: the unsigned subtraction of the code. *)
Definition in_image (i : SUPDRVLDRIMAGE) (pfn : ptr) : bool :=
  u64 (pfn - li_pvImage i) <? li_cbImageBits i.

(** The name comparison of [supdrvIOCtl_LdrOpen]. *)
Definition img_named (st : LdrState) (szName : list Z) (p : ptr) : bool :=
  match l_heap st !! p with
  | Some i => bool_decide (li_szName i = szName)
  | None => false
  end.

Definition RT_ALIGN_P32 (p : ptr) : ptr := Z.land (u64 (p + 31)) 0xffffffffffffffe0.

Definition supdrvIOCtl_LdrOpen (st : LdrState) (s : ptr) (pReq : LdrOpenReq)
    (rUsage rImage : option ptr) (RTMemExecAlloc : Z → option ptr)
    : Z * option LdrOpenOut * LdrState * list event :=
  match find_split (img_named st (lo_szName pReq)) (pLdrImages st) with
  | Some (_, p, _) =>
      let st := upd_img p (λ i, set_li_cUsage (u32 (li_cUsage i + 1)) i) st in
      match l_heap st !! p with
      | None => (VINF_SUCCESS, None, st, [])
      | Some i =>
          let out := mkLdrOpenOut (li_pvImage i) (li_uState i =? SUP_IOCTL_LDR_OPEN)
                       (li_fNative i) in
          (* the result of supdrvLdrAddUsage is not looked at *)
          (VINF_SUCCESS, Some out, (supdrvLdrAddUsage st s p rUsage).2, [])
      end
  | None =>
      match rImage with
      | None => (VERR_INTERNAL_ERROR_2, None, st, [])
      | Some p =>
          let i := mkImage NULL NULL (lo_cbImageWithTabs pReq) (lo_cbImageBits pReq) 0 None None 0
                     NULL NULL NULL SUP_IOCTL_LDR_OPEN 1 true (lo_szName pReq) in
          let rc := supdrvOSLdrOpen (lo_szFilename pReq) in
          let '(rc, i) :=
            if rc =? VERR_NOT_SUPPORTED then
              let pvAlloc := default NULL (RTMemExecAlloc (u32 (li_cbImageBits i + 31))) in
              (if negb (pvAlloc =? NULL) then VINF_SUCCESS else VERR_NO_EXEC_MEMORY,
               mkImage (RT_ALIGN_P32 pvAlloc) pvAlloc (li_cbImageWithTabs i) (li_cbImageBits i)
                 0 None None 0 NULL NULL NULL SUP_IOCTL_LDR_OPEN 1 false (li_szName i))
            else (rc, i) in
          if RT_FAILURE rc then (rc, None, st, [EvMemFree p])
          else
            let st := set_lheap (<[p := i]> (l_heap st)) st in
            let st := set_pLdrImages (p :: pLdrImages st) st in
            (VINF_SUCCESS, Some (mkLdrOpenOut (li_pvImage i) true (li_fNative i)),
             (supdrvLdrAddUsage st s p rUsage).2, [])
      end
  end.

Definition supdrvLdrValidatePointer (i : SUPDRVLDRIMAGE) (pv : ptr) (fMayBeNull : bool)
    (abImage : list Z) : Z :=
  if negb fMayBeNull || negb (pv =? NULL) then
    if li_cbImageBits i <=? u64 (pv - li_pvImage i) then VERR_INVALID_PARAMETER
    else if li_fNative i then
      let rc := supdrvOSLdrValidatePointer pv abImage in
      if RT_FAILURE rc then rc else VINF_SUCCESS
    else VINF_SUCCESS
  else VINF_SUCCESS.

(** The checks of the entry points of the request. *)
Definition LdrLoad_validate_EP (i : SUPDRVLDRIMAGE) (pReq : LdrLoadReq) : Z :=
  let chk pv fNull := supdrvLdrValidatePointer i pv fNull (ll_abImage pReq) in
  match ll_EP pReq with
  | SUPLDRLOADEP_NOTHING => VINF_SUCCESS
  | SUPLDRLOADEP_VMMR0 pv int fast ex =>
      let rc := chk pv false in
      let rc := if RT_SUCCESS rc then chk int false else rc in
      let rc := if RT_SUCCESS rc then chk fast false else rc in
      if RT_SUCCESS rc then chk ex false else rc
  | SUPLDRLOADEP_SERVICE pfn r0 r1 r2 =>
      let rc := chk pfn false in
      if RT_FAILURE rc then rc
      else if negb (r0 =? NIL_RTR0PTR) || negb (r1 =? NIL_RTR0PTR) || negb (r2 =? NIL_RTR0PTR)
      then VERR_INVALID_PARAMETER else VINF_SUCCESS
  | SUPLDRLOADEP_INVALID _ => VERR_INVALID_PARAMETER
  end.

Definition LdrLoad_validate (i : SUPDRVLDRIMAGE) (pReq : LdrLoadReq) : Z :=
  let rc := LdrLoad_validate_EP i pReq in
  if RT_FAILURE rc then rc
  else
    let rc := supdrvLdrValidatePointer i (ll_pfnModuleInit pReq) true (ll_abImage pReq) in
    if RT_FAILURE rc then rc
    else supdrvLdrValidatePointer i (ll_pfnModuleTerm pReq) true (ll_abImage pReq).

(** Little-endian 32-bit load from the request buffer, and the symbol table in it. *)
Definition rd_u32 (l : list Z) (off : nat) : Z :=
  let b i := default 0 (l !! (off + i)%nat) in
  b 0%nat + 256 * b 1%nat + 65536 * b 2%nat + 16777216 * b 3%nat.

Definition rd_syms (l : list Z) (off n : Z) : list SUPLDRSYM :=
  (λ k, let o := Z.to_nat (off + 8 * k) in mkSym (rd_u32 l o) (rd_u32 l (o + 4)%nat)) <$> seqZ 0 n.

(** "Allocate and copy the tables." *)
Definition LdrLoad_tables (i : SUPDRVLDRIMAGE) (pReq : LdrLoadReq) (rStr rSym : option ptr)
    : Z * SUPDRVLDRIMAGE :=
  let cbStr := ll_cbStrTab pReq in
  let '(rc, strs) :=
    if negb (cbStr =? 0) then
      match rStr with
      | Some p => (VINF_SUCCESS,
                   Some (p, take (Z.to_nat cbStr)
                              (drop (Z.to_nat (ll_offStrTab pReq)) (ll_abImage pReq))))
      | None => (VERR_INTERNAL_ERROR_3, None)
      end
    else (VINF_SUCCESS, li_pachStrTab i) in
  let cSym := ll_cSymbols pReq in
  let '(rc, syms) :=
    if RT_SUCCESS rc && negb (cSym =? 0) then
      match rSym with
      | Some p => (VINF_SUCCESS, Some (p, rd_syms (ll_abImage pReq) (ll_offSymbols pReq) cSym))
      | None => (VERR_INTERNAL_ERROR_4, None)
      end
    else (rc, li_paSymbols i) in
  (rc, set_li_tables cSym syms strs cbStr i).

Definition ev_free_opt {A} (p : option (ptr * A)) : list event :=
  match p with Some (p, _) => [EvMemFree p] | None => [] end.

(** "Update any entry points." *)
Definition LdrLoad_entry_points (st : LdrState) (pImage : ptr) (i : SUPDRVLDRIMAGE) (EP : SUPLDRLOADEP)
    : Z * LdrState :=
  match EP with
  | SUPLDRLOADEP_VMMR0 pv int fast ex => supdrvLdrSetVMMR0EPs st pv int fast ex
  | SUPLDRLOADEP_SERVICE pfn _ _ _ =>
      (VINF_SUCCESS,
       upd_img pImage (λ i, set_li_state (li_uState i) (li_pfnModuleInit i) (li_pfnModuleTerm i) pfn i) st)
  | _ => (VINF_SUCCESS, st)
  end.

(** The error exit: back to the open state, the tables freed. *)
Definition LdrLoad_fail (st : LdrState) (pImage : ptr) : LdrState * list event :=
  match l_heap st !! pImage with
  | None => (st, [])
  | Some i =>
      (upd_img pImage (λ i, set_li_tables 0 None None 0
                              (set_li_state SUP_IOCTL_LDR_OPEN NULL NULL NULL i)) st,
       ev_free_opt (li_pachStrTab i) ++ ev_free_opt (li_paSymbols i))
  end.

(** What follows the checks. [pfnModuleInit] is the module's code: its result is a function
    of its address. *)
Definition LdrLoad_commit (st : LdrState) (pImage : ptr) (i : SUPDRVLDRIMAGE) (pReq : LdrLoadReq)
    (rStr rSym : option ptr) (callInit : ptr → Z) : Z * LdrState * list event :=
  let '(rc, i1) := LdrLoad_tables i pReq rStr rSym in
  let '(rc, i2, evc) :=
    if RT_SUCCESS rc then
      (if li_fNative i1 then supdrvOSLdrLoad (ll_abImage pReq) else rc,
       set_li_state SUP_IOCTL_LDR_LOAD (ll_pfnModuleInit pReq) (ll_pfnModuleTerm pReq)
         (li_pfnServiceReqHandler i1) i1,
       if li_fNative i1 then [] else [EvCopyImage (li_pvImage i1) (li_cbImageBits i1)])
    else (rc, i1, []) in
  let st := set_lheap (<[pImage := i2]> (l_heap st)) st in
  let '(rc, st) := if RT_SUCCESS rc then LdrLoad_entry_points st pImage i2 (ll_EP pReq)
                   else (rc, st) in
  let pfnModuleInit := li_pfnModuleInit i2 in
  let '(rc, st, ev) :=
    if RT_SUCCESS rc && negb (pfnModuleInit =? NULL) then
      let rc := callInit pfnModuleInit in
      (rc, if negb (rc =? 0) && (pvVMMR0 st =? li_pvImage i2) then supdrvLdrUnsetVMMR0EPs st else st,
       [EvModuleInit pfnModuleInit])
    else (rc, st, []) in
  if RT_FAILURE rc then
    let '(st, evf) := LdrLoad_fail st pImage in (rc, st, evc ++ ev ++ evf)
  else (rc, st, evc ++ ev).

(** The search of the session's usage list by image base, in [LdrLoad], [LdrFree] and
    [LdrGetSymbol]. *)
Definition usage_at (st : LdrState) (pvImageBase : ptr) (u : SUPDRVLDRUSAGE) : bool :=
  match l_heap st !! lu_pImage u with
  | Some i => li_pvImage i =? pvImageBase
  | None => false
  end.

Definition supdrvIOCtl_LdrLoad (st : LdrState) (s : ptr) (pReq : LdrLoadReq)
    (rStr rSym : option ptr) (callInit : ptr → Z) : Z * LdrState * list event :=
  match find_split (usage_at st (ll_pvImageBase pReq)) (ldr_usage st s) with
  | None => (VERR_INVALID_HANDLE, st, [])
  | Some (_, pUsage, _) =>
      match l_heap st !! lu_pImage pUsage with
      | None => (VERR_INVALID_HANDLE, st, [])
      | Some i =>
          if negb (li_cbImageWithTabs i =? ll_cbImageWithTabs pReq)
             || negb (li_cbImageBits i =? ll_cbImageBits pReq)
          then (VERR_INVALID_HANDLE, st, [])
          else if negb (li_uState i =? SUP_IOCTL_LDR_OPEN) then (VERR_ALREADY_LOADED, st, [])
          else
            let rc := LdrLoad_validate i pReq in
            if RT_FAILURE rc then (rc, st, [])
            else LdrLoad_commit st (lu_pImage pUsage) i pReq rStr rSym callInit
      end
  end.

(** [supdrvLdrFree]; it also clears the destructors of live objects that point into the
    image. *)
Definition clear_destructors (os : ObjState) (i : SUPDRVLDRIMAGE) : ObjState :=
  set_heap
    (foldr (λ p h, alter (λ o, if in_image i (obj_pfnDestructor o) then set_destructor NULL o else o) p h)
       (o_heap os) (pObjs os)) os.

Definition supdrvLdrFree (st : LdrState) (os : ObjState) (pImage : ptr)
    : LdrState * ObjState * list event :=
  match l_heap st !! pImage with
  | None => (st, os, [])
  | Some i =>
      let st := set_pLdrImages (list_unlink pImage (pLdrImages st)) st in
      let st := if pvVMMR0 st =? li_pvImage i then supdrvLdrUnsetVMMR0EPs st else st in
      let os := clear_destructors os i in
      (set_lheap (delete pImage (l_heap st)) st, os,
       (if negb (li_pfnModuleTerm i =? NULL) && (li_uState i =? SUP_IOCTL_LDR_LOAD)
        then [EvModuleTerm (li_pfnModuleTerm i)] else [])
       ++ (if li_fNative i then [EvOSLdrUnload pImage] else [])
       ++ (if negb (li_pvImageAlloc i =? NULL)
           then [EvExecFree (li_pvImageAlloc i) (u32 (li_cbImageBits i + 31))] else [])
       ++ ev_free_opt (li_pachStrTab i) ++ ev_free_opt (li_paSymbols i) ++ [EvMemFree pImage])
  end.

(** The check for objects whose destructor is in the image. *)
Definition destructor_in (os : ObjState) (i : SUPDRVLDRIMAGE) (p : ptr) : bool :=
  match o_heap os !! p with
  | Some o => in_image i (obj_pfnDestructor o)
  | None => false
  end.

Definition dangling_objects (os : ObjState) (s : ptr) (i : SUPDRVLDRIMAGE) : bool :=
  if li_cUsage i <=? 1 then existsb (destructor_in os i) (pObjs os)
  else existsb (λ u, destructor_in os i (us_pObj u)) (sess_usage os s).

Definition supdrvIOCtl_LdrFree (st : LdrState) (os : ObjState) (s pvImageBase : ptr)
    : Z * LdrState * ObjState * list event :=
  match find_split (usage_at st pvImageBase) (ldr_usage st s) with
  | None => (VERR_INVALID_HANDLE, st, os, [])
  | Some (pre, pUsage, post) =>
      let pImage := lu_pImage pUsage in
      match l_heap st !! pImage with
      | None => (VERR_INVALID_HANDLE, st, os, [])
      | Some i =>
          if (li_cUsage i <=? 1) || (lu_cUsage pUsage <=? 1) then
            if dangling_objects os s i then (VINF_SUCCESS, st, os, [])
            else
              let st := set_pLdrUsage s (pre ++ post) st in
              if li_cUsage i <=? 1 then
                let '(st, os, ev) := supdrvLdrFree st os pImage in
                (VINF_SUCCESS, st, os, EvMemFree (lu_self pUsage) :: ev)
              else
                (VINF_SUCCESS, upd_img pImage (λ i, set_li_cUsage (u32 (li_cUsage i - 1)) i) st,
                 os, [EvMemFree (lu_self pUsage)])
          else
            let st := upd_img pImage (λ i, set_li_cUsage (u32 (li_cUsage i - 1)) i) st in
            (VINF_SUCCESS,
             set_pLdrUsage s (pre ++ set_lu_cUsage (u32 (lu_cUsage pUsage - 1)) pUsage :: post) st,
             os, [])
      end
  end.

(** The comparison of the symbol search: the string with its terminator must lie in the
    string table. *)
Definition sym_matches (i : SUPDRVLDRIMAGE) (szSymbol : list Z) (sym : SUPLDRSYM) : bool :=
  let cbSymbol := Z.of_nat (length szSymbol) + 1 in
  (offName sym + cbSymbol <=? li_cbStrTab i)
  && bool_decide (take (Z.to_nat cbSymbol)
                    (drop (Z.to_nat (offName sym)) (from_option snd [] (li_pachStrTab i)))
                  = szSymbol ++ [0]).

Definition find_symbol (i : SUPDRVLDRIMAGE) (szSymbol : list Z) : option ptr :=
  match find_split (sym_matches i szSymbol)
          (take (Z.to_nat (li_cSymbols i)) (from_option snd [] (li_paSymbols i))) with
  | Some (_, sym, _) => Some (u64 (li_pvImage i + s32 (offSymbol sym)))
  | None => None
  end.

(** The status and, unless an early return is taken, [pReq->u.Out.pvSymbol]. *)
Definition supdrvIOCtl_LdrGetSymbol (st : LdrState) (s pvImageBase : ptr) (szSymbol : list Z)
    : Z * option ptr :=
  match find_split (usage_at st pvImageBase) (ldr_usage st s) with
  | None => (VERR_INVALID_HANDLE, None)
  | Some (_, pUsage, _) =>
      match l_heap st !! lu_pImage pUsage with
      | None => (VERR_INVALID_HANDLE, None)
      | Some i =>
          if negb (li_uState i =? SUP_IOCTL_LDR_LOAD) then (VERR_ALREADY_LOADED, None)
          else match find_symbol i szSymbol with
               | Some pv => (VINF_SUCCESS, Some pv)
               | None => (VERR_GENERAL_FAILURE, Some NULL)
               end
      end
  end.

(** ['S' 'u' 'p' 'D' 'r' 'v'] *)
Definition szSupDrv : list Z := [83; 117; 112; 68; 114; 118].

(** [RTStrEnd(psz, cbMax) != NULL]: the terminator is among the first [cbMax] bytes. *)
Definition RTStrEnd_ok (sz : list Z) (cbMax : Z) : bool := Z.of_nat (length sz) <? cbMax.

(** [g_aFunctions] is an argument here: names and addresses.  The result is the status and
    what is stored in [pfnSymbol], if anything is. *)
Definition supdrvIDC_LdrGetSymbol (st : LdrState) (s : ptr) (g_aFunctions : list (list Z * ptr))
    (pszModule : option (list Z)) (pszSymbol : option (list Z)) (rUsage : option ptr)
    : Z * option ptr * LdrState :=
  match pszSymbol with
  | None => (VERR_INVALID_POINTER, None, st)
  | Some szSymbol =>
      if negb (RTStrEnd_ok szSymbol 512) then (VERR_INVALID_PARAMETER, None, st)
      else if negb (from_option (λ szModule, RTStrEnd_ok szModule 64) true pszModule)
      then (VERR_INVALID_PARAMETER, None, st)
      else if from_option (λ szModule, bool_decide (szModule = szSupDrv)) true pszModule then
        match find_split (λ f, bool_decide (f.1 = szSymbol)) g_aFunctions with
        | Some (_, f, _) => (VINF_SUCCESS, Some f.2, st)
        | None => (VINF_SUCCESS, None, st)
        end
      else
        match find_split (img_named st (default [] pszModule)) (pLdrImages st) with
        | None => (VERR_MODULE_NOT_FOUND, None, st)
        | Some (_, p, _) =>
            match l_heap st !! p with
            | None => (VERR_MODULE_NOT_FOUND, None, st)
            | Some i =>
                if li_uState i =? SUP_IOCTL_LDR_LOAD then
                  match find_symbol i szSymbol with
                  | Some pv =>
                      let '(rc, st) := supdrvLdrAddUsage st s p rUsage in (rc, Some pv, st)
                  | None => (VINF_SUCCESS, None, st)
                  end
                else (VERR_WRONG_ORDER, None, st)
            end
        end
  end.

(** The header, the name and the two arguments come before the packet. *)
Definition SUP_IOCTL_CALL_SERVICE_SIZE (cbReq : Z) : Z := 24 + 40 + cbReq.

Definition has_service (st : LdrState) (szName : list Z) (u : SUPDRVLDRUSAGE) : bool :=
  match l_heap st !! lu_pImage u with
  | Some i => negb (li_pfnServiceReqHandler i =? NULL) && bool_decide (li_szName i = szName)
  | None => false
  end.

(** [callService] is the service's code; [pReqPkt] is the address of the embedded packet. *)
Definition supdrvIOCtl_CallServiceModule (st : LdrState) (s : ptr) (szName : list Z)
    (cbIn uOperation u64Arg pReqPkt : Z) (callService : ptr → Z → Z → ptr → Z)
    : Z * list event :=
  match find_split (has_service st szName) (ldr_usage st s) with
  | None => (VERR_SUPDRV_SERVICE_NOT_FOUND, [])
  | Some (_, u, _) =>
      let pfn := from_option li_pfnServiceReqHandler NULL (l_heap st !! lu_pImage u) in
      let pkt := if cbIn =? SUP_IOCTL_CALL_SERVICE_SIZE 0 then NULL else pReqPkt in
      (callService pfn uOperation u64Arg pkt, [EvServiceCall pfn s uOperation u64Arg pkt])
  end.

(** [supdrvCleanupSession], the loaded images. *)
Definition cleanup_ldr_usage (st : LdrState) (os : ObjState) (u : SUPDRVLDRUSAGE)
    : LdrState * ObjState * list event :=
  let pImage := lu_pImage u in
  let '(st, os, ev) :=
    if lu_cUsage u <? from_option li_cUsage 0 (l_heap st !! pImage)
    then (upd_img pImage (λ i, set_li_cUsage (u32 (li_cUsage i - lu_cUsage u)) i) st, os, [])
    else supdrvLdrFree st os pImage in
  (st, os, ev ++ [EvMemFree (lu_self u)]).

Fixpoint cleanup_ldr_usages (st : LdrState) (os : ObjState) (us : list SUPDRVLDRUSAGE)
    : LdrState * ObjState * list event :=
  match us with
  | [] => (st, os, [])
  | u :: us =>
      let '(st, os, ev) := cleanup_ldr_usage st os u in
      let '(st, os, ev') := cleanup_ldr_usages st os us in
      (st, os, ev ++ ev')
  end.

Definition supdrvCleanupSession_ldr (st : LdrState) (os : ObjState) (s : ptr)
    : LdrState * ObjState * list event :=
  cleanup_ldr_usages (set_pLdrUsage s [] st) os (ldr_usage st s).

(** * Specification *)

Definition ldr_total (st : LdrState) (p : ptr) : Z := rtotal lu_pImage lu_cUsage (pLdrUsage st) p.
Definition ldr_refs (st : LdrState) (s p : ptr) : Z := rcount lu_pImage lu_cUsage p (ldr_usage st s).

(** A null handler, or one inside the image. *)
Definition handler_ok (i : SUPDRVLDRIMAGE) (pfn : ptr) : Prop := pfn = NULL ∨ in_image i pfn = true.

(** An image is open, and then holds no table and no handler, or loaded, and then its
    tables have the recorded sizes and its handlers point into it. *)
Definition img_ok (i : SUPDRVLDRIMAGE) : Prop :=
  li_fNative i = false ∧
  ((li_uState i = SUP_IOCTL_LDR_OPEN ∧ li_cSymbols i = 0 ∧ li_paSymbols i = None ∧
    li_pachStrTab i = None ∧ li_cbStrTab i = 0 ∧ li_pfnModuleInit i = NULL ∧
    li_pfnModuleTerm i = NULL ∧ li_pfnServiceReqHandler i = NULL)
   ∨ (li_uState i = SUP_IOCTL_LDR_LOAD ∧
      Z.of_nat (length (from_option snd [] (li_paSymbols i))) = Z.max 0 (li_cSymbols i) ∧
      handler_ok i (li_pfnModuleInit i) ∧ handler_ok i (li_pfnModuleTerm i) ∧
      handler_ok i (li_pfnServiceReqHandler i))).

(** Usage records only of images in memory, at most one per image and session. *)
Definition ldr_list_ok (h : gmap Z SUPDRVLDRIMAGE) (us : list SUPDRVLDRUSAGE) : Prop :=
  rlist_ok lu_pImage lu_cUsage us ∧ Forall (λ u, is_Some (h !! lu_pImage u)) us.

Record ldr_inv (st : LdrState) : Prop := {
  lv_nodup : NoDup (pLdrImages st);
  lv_list p : p ∈ pLdrImages st ↔ is_Some (l_heap st !! p);
  lv_img p i : l_heap st !! p = Some i → img_ok i;
  lv_count p i : l_heap st !! p = Some i → ldr_total st p ≤ li_cUsage i ∧ 0 < li_cUsage i < 2 ^ 32;
  lv_usage s us : pLdrUsage st !! s = Some us → ldr_list_ok (l_heap st) us;
  lv_name p q i j : l_heap st !! p = Some i → l_heap st !! q = Some j →
                    li_szName i = li_szName j → p = q;
  lv_base p q i j : l_heap st !! p = Some i → l_heap st !! q = Some j →
                    li_pvImage i = li_pvImage j → p = q;
}.

(** The tables of the image are those of the request. *)
Definition tables_of (pReq : LdrLoadReq) (i : SUPDRVLDRIMAGE) : Prop :=
  li_cSymbols i = ll_cSymbols pReq ∧ li_cbStrTab i = ll_cbStrTab pReq ∧
  from_option snd [] (li_paSymbols i)
  = rd_syms (ll_abImage pReq) (ll_offSymbols pReq) (ll_cSymbols pReq) ∧
  from_option snd [] (li_pachStrTab i)
  = take (Z.to_nat (ll_cbStrTab pReq)) (drop (Z.to_nat (ll_offStrTab pReq)) (ll_abImage pReq)).

(** No VMMR0 entry points. *)
Definition eps_unset (st : LdrState) : Prop :=
  pvVMMR0 st = NULL ∧ pfnVMMR0EntryInt st = NULL ∧ pfnVMMR0EntryFast st = NULL ∧ pfnVMMR0EntryEx st = NULL.

(** The VMMR0 entry points, when set, are those of a loaded image and point into it. *)
Definition eps_ok (st : LdrState) : Prop :=
  eps_unset st ∨
  ∃ p i, l_heap st !! p = Some i ∧ li_pvImage i = pvVMMR0 st ∧ li_uState i = SUP_IOCTL_LDR_LOAD ∧
         in_image i (pfnVMMR0EntryInt st) = true ∧ in_image i (pfnVMMR0EntryFast st) = true ∧
         in_image i (pfnVMMR0EntryEx st) = true.

(** What ring-3 sends: the VMMR0 handle is the image base. *)
Definition vmmr0_is_base (pReq : LdrLoadReq) : Prop :=
  match ll_EP pReq with
  | SUPLDRLOADEP_VMMR0 pv _ _ _ => pv = ll_pvImageBase pReq
  | _ => True
  end.

(** The operations a session can ask for through the IOCtl interface, its cleanup, and what
    another driver asks of the driver itself by IDC.  The allocator returns fresh memory, no
    count reaches [2^32].  [fBase]: whether every load gives the base of its image as the VMMR0
    handle.  Symbols that another driver asks of other modules are left out: they break the
    counting ([idc_symbol_use_after_free]). *)
Inductive ldr_step (fBase : bool) : LdrState → LdrState → Prop :=
| lstep_open st s pReq rUsage rImage exec :
    (∀ p, rImage = Some p → l_heap st !! p = None) →
    (∀ cb a, exec cb = Some a →
       ∀ p i, l_heap st !! p = Some i → li_pvImage i ≠ RT_ALIGN_P32 a) →
    (∀ p i, l_heap st !! p = Some i → li_cUsage i + 1 < 2 ^ 32) →
    ldr_step fBase st (supdrvIOCtl_LdrOpen st s pReq rUsage rImage exec).1.2
| lstep_load st s pReq rStr rSym callInit :
    (fBase = true → vmmr0_is_base pReq) →
    ldr_step fBase st (supdrvIOCtl_LdrLoad st s pReq rStr rSym callInit).1.2
| lstep_free st os s pvImageBase :
    ldr_step fBase st (supdrvIOCtl_LdrFree st os s pvImageBase).1.1.2
| lstep_cleanup st os s :
    ldr_step fBase st (supdrvCleanupSession_ldr st os s).1.1
| lstep_idc st s g_aFunctions pszModule pszSymbol rUsage :
    pszModule = None ∨ pszModule = Some szSupDrv →
    ldr_step fBase st (supdrvIDC_LdrGetSymbol st s g_aFunctions pszModule pszSymbol rUsage).2.

Definition ldr_reach (fBase : bool) (st : LdrState) : Prop := rtc (ldr_step fBase) ldr_init st.

(** ** A concrete loader: one session opens and loads a service module *)

Definition demo_open : LdrOpenReq := mkLdrOpenReq 0x40 0x20 [77; 111; 100] [].
(** 32 bytes of code, one symbol ("f" at offset 4), the string table "f". *)
Definition demo_abImage : list Z :=
  replicate 32 144 ++ [0; 0; 0; 0; 4; 0; 0; 0] ++ [102; 0].
Definition demo_load (EP : SUPLDRLOADEP) : LdrLoadReq :=
  mkLdrLoadReq 0xffff880000100000 EP 0xffff880000100008 NULL 0x20 0x40 32 1 40 2 demo_abImage.
Definition demo_ldr1 : LdrState :=
  (supdrvIOCtl_LdrOpen ldr_init 0x10000 demo_open (Some 0x51000) (Some 0x50000)
     (λ _, Some 0xffff880000100000)).1.2.
Definition demo_ldr2 (EP : SUPLDRLOADEP) : LdrState :=
  (supdrvIOCtl_LdrLoad demo_ldr1 0x10000 (demo_load EP) (Some 0x52000) (Some 0x53000)
     (λ _, VINF_SUCCESS)).1.2.
Definition demo_vmmr0 (off : Z) : SUPLDRLOADEP :=
  SUPLDRLOADEP_VMMR0 (0xffff880000100000 + off) 0xffff880000100004 0xffff880000100004
    0xffff880000100004.

(** * Lemmas *)

Section ldr_inv_lemmas.
Context (st : LdrState) (Hinv : ldr_inv st).

Lemma linv_usage s : ldr_list_ok (l_heap st) (ldr_usage st s).
Proof.
  unfold ldr_usage. destruct (pLdrUsage st !! s) eqn:E; simpl; [by eapply lv_usage|].
  split; [split|]; constructor.
Qed.

Lemma linv_rlists s l : pLdrUsage st !! s = Some l → rlist_ok lu_pImage lu_cUsage l.
Proof. intros H. by destruct (lv_usage _ Hinv s l H). Qed.

Lemma ldr_refs_le_total s p : ldr_refs st s p ≤ ldr_total st p.
Proof. apply (rcount_le_total lu_pImage lu_cUsage), linv_rlists. Qed.

(** Replacing a session's list by one with no more references than the images allow. *)
Lemma linv_set_usage s l :
  ldr_list_ok (l_heap st) l →
  (∀ p i, l_heap st !! p = Some i →
     ldr_total st p - ldr_refs st s p + rcount lu_pImage lu_cUsage p l ≤ li_cUsage i) →
  ldr_inv (set_pLdrUsage s l st).
Proof.
  intros Hl Hc. constructor; simpl; try apply Hinv.
  - intros p i Hp. unfold ldr_total; simpl. rewrite rtotal_insert.
    specialize (Hc p i Hp). destruct (lv_count _ Hinv p i Hp). split; [exact Hc|done].
  - intros s' us. rewrite lookup_insert_Some. intros [[_ <-]|[_ Hus]]; [done|].
    by eapply lv_usage.
Qed.

(** Changing one image, its name and base kept. *)
Lemma linv_set_img p i i' :
  l_heap st !! p = Some i → img_ok i' → li_szName i' = li_szName i → li_pvImage i' = li_pvImage i →
  ldr_total st p ≤ li_cUsage i' → 0 < li_cUsage i' < 2 ^ 32 →
  ldr_inv (set_lheap (<[p := i']> (l_heap st)) st).
Proof.
  intros Hp Hok Hn Hb Hc Hc'.
  assert (∀ q j, <[p := i']> (l_heap st) !! q = Some j →
    ∃ j', l_heap st !! q = Some j' ∧ li_szName j = li_szName j' ∧ li_pvImage j = li_pvImage j') as Hold.
  { intros q j. rewrite lookup_insert_Some. intros [[<- <-]|[_ ?]]; [by exists i|by exists j]. }
  assert (∀ q, is_Some (<[p := i']> (l_heap st) !! q) ↔ is_Some (l_heap st !! q)) as Hsome.
  { intros q. rewrite lookup_insert_is_Some'. split; [|by right]. intros [<-|?]; [by eexists|done]. }
  constructor; simpl.
  - apply Hinv.
  - intros q. rewrite Hsome. by apply lv_list.
  - intros q j. rewrite lookup_insert_Some. intros [[_ <-]|[_ ?]]; [done|by eapply lv_img].
  - intros q j. rewrite lookup_insert_Some. intros [[<- <-]|[_ Hj]]; [done|].
    exact (lv_count _ Hinv q j Hj).
  - intros s us Hus. destruct (lv_usage _ Hinv s us Hus) as [? Hf]. split; [done|].
    eapply Forall_impl; [exact Hf|]. intros u. apply Hsome.
  - intros q r j k Hj Hk E. destruct (Hold q j Hj) as (j'&?&?&_), (Hold r k Hk) as (k'&?&?&_).
    eapply lv_name; [done..|congruence].
  - intros q r j k Hj Hk E. destruct (Hold q j Hj) as (j'&?&_&?), (Hold r k Hk) as (k'&?&_&?).
    eapply lv_base; [done..|congruence].
Qed.

(** Removing an image nothing refers to. *)
Lemma linv_delete p :
  ldr_total st p ≤ 0 →
  ldr_inv (set_lheap (delete p (l_heap st)) (set_pLdrImages (list_unlink p (pLdrImages st)) st)).
Proof.
  intros Ht. constructor; simpl.
  - apply NoDup_list_unlink, Hinv.
  - intros q. rewrite elem_of_list_unlink by apply Hinv. rewrite lv_list by done.
    rewrite lookup_delete_is_Some. naive_solver.
  - intros q j [_ Hj]%lookup_delete_Some. by eapply lv_img.
  - intros q j [_ Hj]%lookup_delete_Some. exact (lv_count _ Hinv q j Hj).
  - intros s us Hus. destruct (lv_usage _ Hinv s us Hus) as [Hr Hf]. split; [done|].
    rewrite Forall_forall in Hf |- *. intros u Hu. apply lookup_delete_is_Some.
    split; [|by apply Hf]. intros E. pose proof (rcount_elem _ _ _ _ Hr Hu) as He.
    assert (1 ≤ lu_cUsage u) by (destruct Hr as [_ Hr]; rewrite Forall_forall in Hr; by apply Hr).
    pose proof (ldr_refs_le_total s p) as Hle. unfold ldr_refs, ldr_usage in Hle.
    rewrite Hus in Hle; simpl in Hle. subst p. lia.
  - intros q r j k [_ Hj]%lookup_delete_Some [_ Hk]%lookup_delete_Some. by eapply lv_name.
  - intros q r j k [_ Hj]%lookup_delete_Some [_ Hk]%lookup_delete_Some. by eapply lv_base.
Qed.

(** Linking a new image. *)
Lemma linv_link p i :
  l_heap st !! p = None → img_ok i → li_cUsage i = 1 → ldr_total st p = 0 →
  (∀ q j, l_heap st !! q = Some j → li_szName j ≠ li_szName i ∧ li_pvImage j ≠ li_pvImage i) →
  ldr_inv (set_pLdrImages (p :: pLdrImages st) (set_lheap (<[p := i]> (l_heap st)) st)).
Proof.
  intros Hp Hok Hc Ht Hne. constructor; simpl.
  - constructor; [|apply Hinv]. rewrite lv_list by done. rewrite Hp. by intros [].
  - intros q. rewrite elem_of_cons, lv_list, lookup_insert_is_Some' by done. naive_solver.
  - intros q j. rewrite lookup_insert_Some. intros [[_ <-]|[_ ?]]; [done|by eapply lv_img].
  - intros q j. rewrite lookup_insert_Some. intros [[<- <-]|[_ Hj]].
    + unfold ldr_total in *; simpl. lia.
    + exact (lv_count _ Hinv q j Hj).
  - intros s us Hus. destruct (lv_usage _ Hinv s us Hus) as [? Hf]. split; [done|].
    eapply Forall_impl; [exact Hf|]. intros u ?. apply lookup_insert_is_Some'. by right.
  - intros q r j k. rewrite !lookup_insert_Some.
    intros [[<- <-]|[_ Hj]] [[<- <-]|[_ Hk]] E; [done| | |by eapply lv_name].
    + by destruct (Hne r k Hk) as [[] _].
    + by destruct (Hne q j Hj) as [[] _].
  - intros q r j k. rewrite !lookup_insert_Some.
    intros [[<- <-]|[_ Hj]] [[<- <-]|[_ Hk]] E; [done| | |by eapply lv_base].
    + by destruct (Hne r k Hk) as [_ []].
    + by destruct (Hne q j Hj) as [_ []].
Qed.

(** An address that is no image's has no references. *)
Lemma linv_no_refs p : l_heap st !! p = None → ldr_total st p = 0.
Proof.
  intros Hp. apply gsum_zero. intros s us Hus. destruct (lv_usage _ Hinv s us Hus) as [_ Hf].
  apply rcount_notin. intros (u&->&Hu)%list_elem_of_fmap. rewrite Forall_forall in Hf.
  destruct (Hf u Hu) as [? E]. congruence.
Qed.

(** The usage record a base address finds. *)
Lemma linv_find s pv pre u post :
  find_split (usage_at st pv) (ldr_usage st s) = Some (pre, u, post) →
  ldr_usage st s = pre ++ u :: post ∧
  ∃ i, l_heap st !! lu_pImage u = Some i ∧ li_pvImage i = pv ∧
       ldr_refs st s (lu_pImage u) = lu_cUsage u ∧ 1 ≤ lu_cUsage u ≤ li_cUsage i ∧
       rcount lu_pImage lu_cUsage (lu_pImage u) (pre ++ post) = 0 ∧
       ldr_list_ok (l_heap st) (pre ++ post).
Proof.
  intros (Hl&Hu&_)%find_split_Some. split; [done|]. unfold usage_at in Hu.
  destruct (l_heap st !! lu_pImage u) as [i|] eqn:Hi; [|done]. zbool.
  exists i. destruct (linv_usage s) as [Hr Hf]. rewrite Hl in Hr, Hf.
  destruct (rlist_ok_app_cons _ _ _ _ _ Hr) as (H1&Hr'&Hn).
  assert (rcount lu_pImage lu_cUsage (lu_pImage u) (pre ++ post) = 0) as Hz by by apply rcount_notin.
  assert (ldr_refs st s (lu_pImage u) = lu_cUsage u) as Hrefs.
  { unfold ldr_refs. rewrite Hl, rcount_app, rcount_cons, Z.eqb_refl.
    rewrite rcount_app in Hz. lia. }
  destruct (lv_count _ Hinv _ i Hi). pose proof (ldr_refs_le_total s (lu_pImage u)).
  split_and!; [done|done|done|lia|lia|done|]. split; [done|].
  rewrite Forall_app, Forall_cons in Hf. apply Forall_app. tauto.
Qed.
End ldr_inv_lemmas.

Lemma eps_ok_ext st st' :
  eps_ok st → pvVMMR0 st' = pvVMMR0 st → pfnVMMR0EntryInt st' = pfnVMMR0EntryInt st →
  pfnVMMR0EntryFast st' = pfnVMMR0EntryFast st → pfnVMMR0EntryEx st' = pfnVMMR0EntryEx st →
  (∀ p i, l_heap st !! p = Some i → li_pvImage i = pvVMMR0 st → li_uState i = SUP_IOCTL_LDR_LOAD →
     ∃ i', l_heap st' !! p = Some i' ∧ li_pvImage i' = li_pvImage i ∧
           li_cbImageBits i' = li_cbImageBits i ∧ li_uState i' = SUP_IOCTL_LDR_LOAD) →
  eps_ok st'.
Proof.
  intros [(?&?&?&?)|(p&i&Hp&Hb&Hs&H1&H2&H3)] E0 E1 E2 E3 Hk; [left; split_and!; congruence|]. right.
  destruct (Hk p i Hp Hb Hs) as (i'&?&Hb'&Hc'&?). exists p, i'.
  unfold in_image in *. rewrite E0, E1, E2, E3, Hb', Hc'. by split_and!.
Qed.

(** ** Opening *)

Lemma addusage_inv st s p i r :
  ldr_inv st → l_heap st !! p = Some i → ldr_total st p + 1 ≤ li_cUsage i →
  ldr_inv (supdrvLdrAddUsage st s p r).2.
Proof.
  intros Hinv Hp Hc. pose proof (linv_usage st Hinv s) as [Hr Hf].
  destruct (lv_count _ Hinv p i Hp) as [_ Hb]. unfold supdrvLdrAddUsage.
  assert (∀ l, (∀ q, rcount lu_pImage lu_cUsage q l ≤
                     ldr_refs st s q + if q =? p then 1 else 0) →
          ldr_list_ok (l_heap st) l → ldr_inv (set_pLdrUsage s l st)) as Hset.
  { intros l Hl Hok. apply linv_set_usage; [done|done|]. intros q j Hq. specialize (Hl q).
    destruct (lv_count _ Hinv q j Hq). destruct (Z.eqb_spec q p) as [E|]; [|lia].
    assert (j = i) by congruence. subst j q. lia. }
  destruct (find_split _ _) as [[[pre u] post]|] eqn:F; simpl.
  - apply find_split_Some in F as (Hl&Hu&_). zbool. subst p. rewrite Hl in Hr, Hf.
    destruct (rlist_ok_app_cons _ _ _ _ _ Hr) as (H1&Hr'&Hn).
    assert (lu_cUsage u + 1 < 2 ^ 32).
    { pose proof (ldr_refs_le_total st Hinv s (lu_pImage u)) as Hle. unfold ldr_refs in Hle.
      rewrite Hl in Hle. pose proof (rcount_elem _ _ _ u Hr ltac:(set_solver)). lia. }
    apply Hset.
    + intros q. unfold ldr_refs. rewrite Hl, !rcount_app, !rcount_cons; simpl.
      rewrite u32_small by lia. rewrite (Z.eqb_sym q). destruct (_ =? _); lia.
    + split.
      * apply rlist_ok_insert; [done|simpl; rewrite u32_small; lia|done].
      * rewrite Forall_app, Forall_cons in *. tauto.
  - destruct r as [a|]; simpl; [|done]. apply find_split_None in F. apply Hset.
    + intros q. rewrite rcount_cons; simpl. rewrite (Z.eqb_sym q). unfold ldr_refs. lia.
    + split; [|constructor; [simpl; eauto|done]].
      apply (rlist_ok_insert _ _ []); [done|simpl; lia|]. simpl.
      intros (u&E&Hu)%list_elem_of_fmap. rewrite Forall_forall in F. specialize (F u Hu).
      simpl in F. rewrite <- E in F. by rewrite Z.eqb_refl in F.
Qed.

Lemma addusage_frame st s p r :
  let st' := (supdrvLdrAddUsage st s p r).2 in
  l_heap st' = l_heap st ∧ pLdrImages st' = pLdrImages st ∧ (eps_ok st → eps_ok st').
Proof.
  unfold supdrvLdrAddUsage. destruct (find_split _ _) as [[[pre u] post]|]; [done|].
  by destruct r.
Qed.

(** The list search by name is a lookup among the images. *)
Lemma find_named st n :
  ldr_inv st →
  match find_split (img_named st n) (pLdrImages st) with
  | Some (_, p, _) => ∃ i, l_heap st !! p = Some i ∧ li_szName i = n
  | None => ∀ p i, l_heap st !! p = Some i → li_szName i ≠ n
  end.
Proof.
  intros Hinv. destruct (find_split _ _) as [[[pre p] post]|] eqn:F.
  - apply find_split_Some in F as (_&Hn&_). unfold img_named in Hn.
    destruct (l_heap st !! p) as [i|]; [|done]. exists i. by apply bool_decide_eq_true in Hn.
  - apply find_split_None in F. rewrite Forall_forall in F. intros p i Hp E.
    assert (p ∈ pLdrImages st) as Hin by (apply lv_list; eauto).
    specialize (F p Hin). unfold img_named in F. rewrite Hp in F.
    by apply bool_decide_eq_false in F.
Qed.

Lemma set_cUsage_img_ok i n : img_ok i → img_ok (set_li_cUsage n i).
Proof. done. Qed.

Lemma linv_bump st p i n :
  ldr_inv st → l_heap st !! p = Some i → ldr_total st p ≤ n → 0 < n < 2 ^ 32 →
  ldr_inv (upd_img p (set_li_cUsage n) st).
Proof.
  intros Hinv Hp Hn Hb. unfold upd_img. rewrite (alter_to_insert _ _ _ _ Hp).
  eapply linv_set_img; [done|done|apply set_cUsage_img_ok; by eapply lv_img|done|done|done|done].
Qed.

Lemma upd_img_cUsage_ext st p i f n :
  l_heap st !! p = Some i → f (li_cUsage i) = n →
  upd_img p (λ i, set_li_cUsage (f (li_cUsage i)) i) st = upd_img p (set_li_cUsage n) st.
Proof.
  intros Hp <-. unfold upd_img. f_equal. apply map_eq. intros q.
  destruct (decide (q = p)) as [->|].
  - by rewrite !lookup_alter_eq, Hp.
  - by rewrite !lookup_alter_ne.
Qed.

Lemma eps_ok_bump st p n : eps_ok st → eps_ok (upd_img p (set_li_cUsage n) st).
Proof.
  intros H. eapply eps_ok_ext; [exact H|done..|]. intros q i Hq Hb Hs. simpl.
  destruct (decide (q = p)) as [->|].
  - rewrite lookup_alter_eq, Hq. by eexists.
  - rewrite lookup_alter_ne by done. eauto.
Qed.

Lemma open_inv st s pReq rUsage rImage exec :
  ldr_inv st →
  (∀ p, rImage = Some p → l_heap st !! p = None) →
  (∀ cb a, exec cb = Some a →
     ∀ p i, l_heap st !! p = Some i → li_pvImage i ≠ RT_ALIGN_P32 a) →
  (∀ p i, l_heap st !! p = Some i → li_cUsage i + 1 < 2 ^ 32) →
  let st' := (supdrvIOCtl_LdrOpen st s pReq rUsage rImage exec).1.2 in
  ldr_inv st' ∧ (eps_ok st → eps_ok st').
Proof.
  intros Hinv Hfresh Hexec Hcnt st'. unfold st', supdrvIOCtl_LdrOpen. clear st'.
  pose proof (find_named st (lo_szName pReq) Hinv) as Hname.
  destruct (find_split _ _) as [[[pre p] post]|].
  - destruct Hname as (i&Hp&_). specialize (Hcnt p i Hp).
    destruct (lv_count _ Hinv p i Hp) as [Ht Hb].
    rewrite (upd_img_cUsage_ext st p i (λ n, u32 (n + 1)) (li_cUsage i + 1) Hp)
      by (apply u32_small; lia).
    set (st1 := upd_img p (set_li_cUsage (li_cUsage i + 1)) st).
    assert (ldr_inv st1) as Hinv1 by (eapply linv_bump; [done|done|lia|lia]).
    assert (eps_ok st → eps_ok st1) as Heps1 by (intros ?; by apply eps_ok_bump).
    assert (l_heap st1 !! p = Some (set_li_cUsage (li_cUsage i + 1) i)) as Hp1.
    { simpl. by rewrite lookup_alter_eq, Hp. }
    rewrite Hp1. simpl. split; [|intros He; by apply addusage_frame, Heps1].
    eapply addusage_inv; [done|exact Hp1|]. simpl. unfold ldr_total in *; simpl. lia.
  - destruct rImage as [p|]; [|done]. specialize (Hfresh p eq_refl).
    unfold supdrvOSLdrOpen. simpl. destruct (exec _) as [a|] eqn:Ea; simpl; [|done].
    destruct (a =? NULL); simpl; [done|].
    set (i := mkImage _ _ _ _ _ _ _ _ _ _ _ _ _ _ _).
    set (st1 := set_pLdrImages _ _).
    assert (ldr_inv st1) as Hinv1.
    { apply linv_link; [done|done| |done|by apply linv_no_refs|].
      - split; [done|]. left. done.
      - intros q j Hq. split; [by eapply Hname|by eapply Hexec]. }
    assert (eps_ok st → eps_ok st1) as Heps1.
    { intros Heps. eapply eps_ok_ext; [exact Heps|done..|]. intros q j Hq _ Hs. exists j. simpl.
      rewrite lookup_insert_ne by congruence. by split_and!. }
    split; [|intros He; by apply addusage_frame, Heps1].
    assert (l_heap st1 !! p = Some i) as Hp1 by apply lookup_insert_eq.
    eapply addusage_inv; [done|exact Hp1|]. simpl.
    pose proof (linv_no_refs st Hinv p Hfresh) as Ht. unfold ldr_total in *; simpl. lia.
Qed.

(** ** Freeing *)

Lemma ldrfree_inv st os p i :
  ldr_inv st → l_heap st !! p = Some i → ldr_total st p ≤ 0 →
  let st' := (supdrvLdrFree st os p).1.1 in
  ldr_inv st' ∧ (eps_ok st → eps_ok st') ∧ l_heap st' = delete p (l_heap st) ∧ pLdrUsage st' = pLdrUsage st.
Proof.
  intros Hinv Hp Ht. unfold supdrvLdrFree. rewrite Hp. simpl.
  pose proof (linv_delete st Hinv p Ht) as Hdel.
  destruct (Z.eqb_spec (pvVMMR0 st) (li_pvImage i)) as [E|Hne]; simpl.
  - split_and!; [|by left|done|done]. constructor; apply Hdel.
  - split_and!; [exact Hdel| |done|done]. intros Heps. eapply eps_ok_ext; [exact Heps|done..|].
    intros q j Hq Hb Hs. exists j. simpl. rewrite lookup_delete_ne; [by split_and!|]. congruence.
Qed.

Lemma free_inv st os s pv :
  ldr_inv st →
  let st' := (supdrvIOCtl_LdrFree st os s pv).1.1.2 in ldr_inv st' ∧ (eps_ok st → eps_ok st').
Proof.
  intros Hinv st'. unfold st', supdrvIOCtl_LdrFree. clear st'.
  destruct (find_split _ _) as [[[pre u] post]|] eqn:F; [|done].
  destruct (linv_find st Hinv _ _ _ _ _ F) as (Hl&i&Hp&_&Hr&Hu&Hz&Hok). rewrite Hp.
  set (p := lu_pImage u) in *. destruct (lv_count _ Hinv p i Hp) as [Ht Hb].
  pose proof (ldr_refs_le_total st Hinv s p) as Hle.
  assert (∀ q, rcount lu_pImage lu_cUsage q (pre ++ post) =
               ldr_refs st s q - if q =? p then lu_cUsage u else 0) as Hcnt.
  { intros q. unfold ldr_refs. rewrite Hl, !rcount_app, rcount_cons. fold p.
    rewrite (Z.eqb_sym q). destruct (_ =? _); lia. }
  assert (ldr_inv (set_pLdrUsage s (pre ++ post) st)) as Hinv1.
  { apply linv_set_usage; [done|done|]. intros q j Hq. rewrite Hcnt.
    destruct (lv_count _ Hinv q j Hq). destruct (_ =? _); lia. }
  assert (ldr_total (set_pLdrUsage s (pre ++ post) st) p = ldr_total st p - lu_cUsage u) as Ht1.
  { unfold ldr_total; simpl. rewrite rtotal_insert, Hcnt, Z.eqb_refl. unfold ldr_refs, ldr_usage. lia. }
  destruct ((li_cUsage i <=? 1) || (lu_cUsage u <=? 1)) eqn:Hone.
  - destruct (dangling_objects os s i); [done|]. destruct (Z.leb_spec (li_cUsage i) 1).
    + destruct (ldrfree_inv (set_pLdrUsage s (pre ++ post) st) os p i) as (?&?&_);
        [done|done|lia|].
      by destruct (supdrvLdrFree (set_pLdrUsage s (pre ++ post) st) os p) as [[??]?].
    + simpl. rewrite (upd_img_cUsage_ext (set_pLdrUsage s (pre ++ post) st) p i
                        (λ n, u32 (n - 1)) (li_cUsage i - 1) Hp) by (apply u32_small; lia).
      split; [|exact (eps_ok_bump (set_pLdrUsage s (pre ++ post) st) p _)].
      eapply linv_bump; [done|exact Hp|lia|lia].
  - zbool. simpl. rewrite (upd_img_cUsage_ext _ p i (λ n, u32 (n - 1)) (li_cUsage i - 1) Hp)
      by (apply u32_small; lia).
    rewrite (u32_small (lu_cUsage u - 1)) by lia.
    set (l := pre ++ set_lu_cUsage (lu_cUsage u - 1) u :: post).
    change (set_pLdrUsage s l (upd_img p (set_li_cUsage (li_cUsage i - 1)) st))
      with (upd_img p (set_li_cUsage (li_cUsage i - 1)) (set_pLdrUsage s l st)).
    assert (∀ q, rcount lu_pImage lu_cUsage q l = ldr_refs st s q - if q =? p then 1 else 0) as Hcl.
    { intros q. unfold l, ldr_refs. rewrite Hl, !rcount_app, !rcount_cons. simpl. fold p.
      rewrite (Z.eqb_sym q). destruct (_ =? _); lia. }
    split; [|exact (eps_ok_bump (set_pLdrUsage s l st) p _)]. eapply linv_bump; [|exact Hp| |lia].
    + apply linv_set_usage; [done| |].
      * destruct (linv_usage st Hinv s) as [Hr0 Hf0]. rewrite Hl in Hr0, Hf0.
        destruct (rlist_ok_app_cons _ _ _ _ _ Hr0) as (_&Hr'&Hn). split.
        -- by apply rlist_ok_insert; [|simpl; lia|].
        -- unfold l. rewrite Forall_app, Forall_cons in *. simpl; tauto.
      * intros q j Hq. rewrite Hcl. destruct (lv_count _ Hinv q j Hq). destruct (_ =? _); lia.
    + unfold ldr_total; simpl. rewrite rtotal_insert, Hcl, Z.eqb_refl.
      unfold ldr_total, ldr_refs, ldr_usage in *. lia.
Qed.

(** ** Session cleanup *)

(** What still has to be released while the loop runs. *)
Definition pending_ok (st : LdrState) (us : list SUPDRVLDRUSAGE) : Prop :=
  ldr_list_ok (l_heap st) us ∧
  ∀ p i, l_heap st !! p = Some i → ldr_total st p + rcount lu_pImage lu_cUsage p us ≤ li_cUsage i.

Lemma cleanup_ldr_usage_inv st os u us :
  ldr_inv st → pending_ok st (u :: us) →
  let st' := (cleanup_ldr_usage st os u).1.1 in
  ldr_inv st' ∧ (eps_ok st → eps_ok st') ∧ pending_ok st' us ∧ pLdrUsage st' = pLdrUsage st.
Proof.
  intros Hinv [[Hr Hf] Hpend]. unfold cleanup_ldr_usage.
  set (p := lu_pImage u). apply Forall_cons in Hf as [[i Hp] Hf]. fold p in Hp. rewrite Hp; simpl.
  destruct (rlist_ok_app_cons lu_pImage lu_cUsage [] u us Hr) as (Hu&Hr'&Hn). simpl in Hr', Hn.
  fold p in Hn. pose proof (rcount_notin lu_pImage lu_cUsage p us Hn) as Hz.
  destruct (lv_count _ Hinv p i Hp) as [Ht Hb].
  assert (∀ q, q ≠ p → rcount lu_pImage lu_cUsage q (u :: us) = rcount lu_pImage lu_cUsage q us) as Hq.
  { intros q Hne. rewrite rcount_cons. fold p. destruct (Z.eqb_spec p q); [congruence|lia]. }
  pose proof (Hpend p i Hp) as Hpp. rewrite rcount_cons in Hpp. fold p in Hpp.
  rewrite Z.eqb_refl, Hz in Hpp.
  destruct (Z.ltb_spec (lu_cUsage u) (li_cUsage i)).
  - simpl. rewrite (upd_img_cUsage_ext _ p i (λ n, u32 (n - lu_cUsage u)) (li_cUsage i - lu_cUsage u) Hp)
      by (apply u32_small; lia).
    split_and!; [eapply linv_bump; [done|exact Hp|lia|lia]|by apply eps_ok_bump| |done].
    split; simpl.
    + split; [done|]. eapply Forall_impl; [exact Hf|]. intros v [j Hv].
      destruct (decide (lu_pImage v = p)) as [E|].
      * rewrite E, lookup_alter_eq, Hp. by eexists.
      * rewrite lookup_alter_ne by done. by eexists.
    + intros q j. destruct (decide (q = p)) as [->|Hne].
      * rewrite lookup_alter_eq, Hp. intros [= <-]. simpl. unfold ldr_total in *; simpl. lia.
      * rewrite lookup_alter_ne by done. intros Hj. specialize (Hpend q j Hj).
        rewrite Hq in Hpend by done. exact Hpend.
  - destruct (ldrfree_inv st os p i) as (H1&H2&H3&H4); [done|done|lia|].
    destruct (supdrvLdrFree st os p) as [[st1 os1] ev1]. simpl in *.
    split_and!; [done|done| |done]. split.
    + split; [done|]. rewrite H3, Forall_forall in *. intros v Hv. apply lookup_delete_is_Some.
      split; [|by apply Hf]. intros E. apply Hn. rewrite E. apply list_elem_of_fmap. eauto.
    + intros q j. rewrite H3. intros [Hne Hj]%lookup_delete_Some. specialize (Hpend q j Hj).
      rewrite Hq in Hpend by done. unfold ldr_total in *. by rewrite H4.
Qed.

Lemma cleanup_ldr_usages_inv us : ∀ st os,
  ldr_inv st → pending_ok st us →
  let st' := (cleanup_ldr_usages st os us).1.1 in
  ldr_inv st' ∧ (eps_ok st → eps_ok st') ∧ pLdrUsage st' = pLdrUsage st.
Proof.
  induction us as [|u us IH]; intros st os Hinv Hpend; simpl; [done|].
  destruct (cleanup_ldr_usage_inv st os u us Hinv Hpend) as (H1&H2&H3&H4).
  destruct (cleanup_ldr_usage st os u) as [[st1 os1] ev1]. simpl in *.
  destruct (IH st1 os1 H1 H3) as (?&?&E).
  destruct (cleanup_ldr_usages st1 os1 us) as [[st2 os2] ev2]. simpl in *.
  split_and!; [done|by auto|]. congruence.
Qed.

Lemma cleanup_ldr_inv st os s :
  ldr_inv st →
  let st' := (supdrvCleanupSession_ldr st os s).1.1 in
  ldr_inv st' ∧ (eps_ok st → eps_ok st') ∧ pLdrUsage st' = <[s := []]> (pLdrUsage st).
Proof.
  intros Hinv.
  assert (ldr_inv (set_pLdrUsage s [] st)) as Hinv1.
  { apply linv_set_usage; [done|split; [split|]; constructor|]. intros q j Hq.
    destruct (lv_count _ Hinv q j Hq). change (rcount lu_pImage lu_cUsage q []) with 0.
    pose proof (rcount_nonneg lu_pImage lu_cUsage q _ (proj1 (linv_usage st Hinv s))).
    unfold ldr_refs. lia. }
  apply (cleanup_ldr_usages_inv (ldr_usage st s) (set_pLdrUsage s [] st) os Hinv1).
  split; [exact (linv_usage st Hinv s)|]. intros q j Hq. destruct (lv_count _ Hinv q j Hq) as [Ht _].
  unfold ldr_total in *; simpl. rewrite rtotal_insert. change (rcount lu_pImage lu_cUsage q []) with 0.
  unfold ldr_usage. lia.
Qed.

(** ** Loading *)

Lemma in_image_iff i pfn : in_image i pfn = true ↔ u64 (pfn - li_pvImage i) < li_cbImageBits i.
Proof. unfold in_image. by rewrite Z.ltb_lt. Qed.

Lemma validate_pointer_cases i pv fNull ab :
  li_fNative i = false →
  (supdrvLdrValidatePointer i pv fNull ab = VINF_SUCCESS ∧
   (in_image i pv = true ∨ (fNull = true ∧ pv = NULL)))
  ∨ (supdrvLdrValidatePointer i pv fNull ab = VERR_INVALID_PARAMETER ∧ in_image i pv = false ∧
     (fNull = true → pv ≠ NULL)).
Proof.
  intros Hn. unfold supdrvLdrValidatePointer, in_image. rewrite Hn.
  destruct (Z.eqb_spec pv NULL) as [->|]; destruct fNull; simpl; [by left; auto|..];
    (destruct (Z.leb_spec (li_cbImageBits i) (u64 (pv - li_pvImage i))) as [H|H] ||
     destruct (Z.leb_spec (li_cbImageBits i) (u64 (NULL - li_pvImage i))) as [H|H]);
    [right|left|right|left|right|left];
    (split; [done|]); rewrite ?Z.ltb_ge, ?Z.ltb_lt; auto.
Qed.

(** The entry points a request that passes the checks may name. *)
Definition ep_valid (i : SUPDRVLDRIMAGE) (EP : SUPLDRLOADEP) : Prop :=
  match EP with
  | SUPLDRLOADEP_NOTHING => True
  | SUPLDRLOADEP_VMMR0 pv int fast ex =>
      in_image i pv = true ∧ in_image i int = true ∧ in_image i fast = true ∧ in_image i ex = true
  | SUPLDRLOADEP_SERVICE pfn _ _ _ => in_image i pfn = true
  | SUPLDRLOADEP_INVALID _ => False
  end.

Lemma validate_pointer_ok i pv fNull ab :
  li_fNative i = false → RT_FAILURE (supdrvLdrValidatePointer i pv fNull ab) = false →
  in_image i pv = true ∨ (fNull = true ∧ pv = NULL).
Proof.
  intros Hn Hf. destruct (validate_pointer_cases i pv fNull ab Hn) as [[_ H]|(E&_)]; [done|].
  by rewrite E in Hf.
Qed.

Lemma validate_EP_ok i pReq :
  li_fNative i = false → RT_FAILURE (LdrLoad_validate_EP i pReq) = false →
  ep_valid i (ll_EP pReq).
Proof.
  intros Hn. unfold LdrLoad_validate_EP.
  assert (∀ pv, RT_SUCCESS (supdrvLdrValidatePointer i pv false (ll_abImage pReq)) = true →
                in_image i pv = true) as Hv.
  { intros pv Hs. destruct (validate_pointer_ok i pv false (ll_abImage pReq) Hn) as [|[? _]];
      [by rewrite RT_FAILURE_negb, Hs|done|done]. }
  destruct (ll_EP pReq) as [|pv int fast ex|pfn r0 r1 r2|n]; simpl; [done| | |by vm_compute].
  - rewrite RT_FAILURE_negb. intros E%negb_false_iff.
    apply RT_SUCCESS_seq in E as [E E3]. apply RT_SUCCESS_seq in E as [E E2].
    apply RT_SUCCESS_seq in E as [E E1]. auto.
  - intros [E _]%RT_FAILURE_seq. apply Hv. rewrite RT_FAILURE_negb in E.
    by apply negb_false_iff in E.
Qed.

Lemma load_validate_ok i pReq :
  li_fNative i = false → RT_FAILURE (LdrLoad_validate i pReq) = false →
  ep_valid i (ll_EP pReq) ∧ handler_ok i (ll_pfnModuleInit pReq) ∧
  handler_ok i (ll_pfnModuleTerm pReq).
Proof.
  intros Hn. unfold LdrLoad_validate. intros [E0 [E1 E2]%RT_FAILURE_seq]%RT_FAILURE_seq.
  apply (validate_pointer_ok _ _ _ _ Hn) in E1, E2. split; [by apply validate_EP_ok|].
  unfold handler_ok. naive_solver.
Qed.

(** The fields loading does not touch. *)
Definition same_image (i i' : SUPDRVLDRIMAGE) : Prop :=
  li_pvImage i' = li_pvImage i ∧ li_cbImageBits i' = li_cbImageBits i ∧
  li_cUsage i' = li_cUsage i ∧ li_szName i' = li_szName i ∧ li_fNative i' = li_fNative i ∧
  li_pvImageAlloc i' = li_pvImageAlloc i ∧ li_cbImageWithTabs i' = li_cbImageWithTabs i.

Definition img_reset (i : SUPDRVLDRIMAGE) : SUPDRVLDRIMAGE :=
  set_li_tables 0 None None 0 (set_li_state SUP_IOCTL_LDR_OPEN NULL NULL NULL i).

Lemma img_reset_open i i' :
  img_ok i → li_uState i = SUP_IOCTL_LDR_OPEN → same_image i i' → img_reset i' = i.
Proof.
  intros [Hn [(H1&H2&H3&H4&H5&H6&H7&H8)|(H&_)]] Hs (?&?&?&?&?&?&?); [|by rewrite Hs in H].
  destruct i, i'; simpl in *. subst. done.
Qed.

(** An open image is not the one the entry points belong to. *)
Lemma eps_not_open st p i :
  ldr_inv st → eps_ok st → l_heap st !! p = Some i → li_uState i = SUP_IOCTL_LDR_OPEN →
  eps_unset st ∨ pvVMMR0 st ≠ li_pvImage i.
Proof.
  intros Hinv [?|(q&j&Hq&Hb&Hs&_)] Hp Ho; [by left|]. right. intros E.
  assert (q = p) as -> by (eapply lv_base; [done..|congruence]).
  rewrite Hp in Hq. injection Hq as ->. by rewrite Ho in Hs.
Qed.

Lemma eps_ok_other st st' p i :
  eps_ok st → (eps_unset st ∨ pvVMMR0 st ≠ li_pvImage i) → l_heap st !! p = Some i →
  (∃ i', l_heap st' = <[p := i']> (l_heap st)) →
  pvVMMR0 st' = pvVMMR0 st → pfnVMMR0EntryInt st' = pfnVMMR0EntryInt st →
  pfnVMMR0EntryFast st' = pfnVMMR0EntryFast st → pfnVMMR0EntryEx st' = pfnVMMR0EntryEx st →
  eps_ok st'.
Proof.
  intros Heps Hpv Hp [i' Hh] E0 E1 E2 E3. destruct Hpv as [(?&?&?&?)|Hne]; [left; split_and!; congruence|].
  eapply eps_ok_ext; [exact Heps|done..|]. intros q j Hq Hb Hs. exists j.
  rewrite Hh, lookup_insert_ne; [by split_and!|]. congruence.
Qed.

Lemma load_tables_spec i pReq rStr rSym rc i1 :
  img_ok i → li_uState i = SUP_IOCTL_LDR_OPEN →
  LdrLoad_tables i pReq rStr rSym = (rc, i1) →
  same_image i i1 ∧ li_uState i1 = SUP_IOCTL_LDR_OPEN ∧ li_pfnServiceReqHandler i1 = NULL ∧
  (RT_FAILURE rc = true ∨
   (rc = VINF_SUCCESS ∧ tables_of pReq i1 ∧
    Z.of_nat (length (from_option snd [] (li_paSymbols i1))) = Z.max 0 (li_cSymbols i1))).
Proof.
  intros [_ [(H1&_&H3&H4&_&_&_&H8)|(H&_)]] Hs; [|by rewrite Hs in H].
  unfold LdrLoad_tables. rewrite H3, H4.
  destruct (Z.eqb_spec (ll_cSymbols pReq) 0) as [E|]; simpl;
    (destruct (Z.eqb_spec (ll_cbStrTab pReq) 0) as [Hcb|]; simpl; [|destruct rStr; simpl]);
    try destruct rSym;
    intros [= <- <-]; (split; [done|]); (split; [done|]); (split; [done|]); try (by left); right;
    unfold tables_of, rd_syms; simpl;
    rewrite ?E, ?Hcb, ?length_fmap, ?length_seqZ; split_and!; lia || done.
Qed.

Lemma load_fail_spec st p i i' h :
  l_heap st = <[p := i']> h → h !! p = Some i → img_reset i' = i →
  l_heap (LdrLoad_fail st p).1 = h ∧ pLdrImages (LdrLoad_fail st p).1 = pLdrImages st ∧
  pLdrUsage (LdrLoad_fail st p).1 = pLdrUsage st ∧ pvVMMR0 (LdrLoad_fail st p).1 = pvVMMR0 st ∧
  pfnVMMR0EntryInt (LdrLoad_fail st p).1 = pfnVMMR0EntryInt st ∧
  pfnVMMR0EntryFast (LdrLoad_fail st p).1 = pfnVMMR0EntryFast st ∧
  pfnVMMR0EntryEx (LdrLoad_fail st p).1 = pfnVMMR0EntryEx st.
Proof.
  intros Hh Hp Hr. unfold LdrLoad_fail. rewrite Hh, lookup_insert_eq. simpl.
  split_and!; try done. rewrite Hh. apply map_eq. intros q. destruct (decide (q = p)) as [->|].
  - rewrite lookup_alter_eq, lookup_insert_eq; simpl. by rewrite Hp, <- Hr.
  - by rewrite lookup_alter_ne, lookup_insert_ne by done.
Qed.

Definition same_eps (st st' : LdrState) : Prop :=
  pvVMMR0 st' = pvVMMR0 st ∧ pfnVMMR0EntryInt st' = pfnVMMR0EntryInt st ∧
  pfnVMMR0EntryFast st' = pfnVMMR0EntryFast st ∧ pfnVMMR0EntryEx st' = pfnVMMR0EntryEx st.

Definition eps_in (st : LdrState) (i : SUPDRVLDRIMAGE) : Prop :=
  in_image i (pfnVMMR0EntryInt st) = true ∧ in_image i (pfnVMMR0EntryFast st) = true ∧
  in_image i (pfnVMMR0EntryEx st) = true.

Definition ep_base (i : SUPDRVLDRIMAGE) (EP : SUPLDRLOADEP) : Prop :=
  match EP with SUPLDRLOADEP_VMMR0 pv _ _ _ => pv = li_pvImage i | _ => True end.

Lemma entry_points_spec st p i EP rc st' :
  l_heap st !! p = Some i → ep_valid i EP → img_ok i → li_uState i = SUP_IOCTL_LDR_LOAD →
  LdrLoad_entry_points st p i EP = (rc, st') →
  pLdrImages st' = pLdrImages st ∧ pLdrUsage st' = pLdrUsage st ∧
  ((RT_FAILURE rc = true ∧ st' = st) ∨
   (rc = VINF_SUCCESS ∧ ∃ i', l_heap st' = <[p := i']> (l_heap st) ∧ same_image i i' ∧
      li_uState i' = SUP_IOCTL_LDR_LOAD ∧ img_ok i' ∧ li_pfnModuleInit i' = li_pfnModuleInit i ∧
      (∀ pReq, tables_of pReq i → tables_of pReq i') ∧
      (ep_base i EP → pvVMMR0 st = NULL ∨ pvVMMR0 st ≠ li_pvImage i →
       same_eps st st' ∨ (pvVMMR0 st' = li_pvImage i ∧ eps_in st' i)))).
Proof.
  intros Hp Hv Hok Hs. unfold LdrLoad_entry_points.
  assert (<[p := i]> (l_heap st) = l_heap st) as Hid by by apply insert_id.
  destruct EP as [|pv int fast ex|pfn r0 r1 r2|n]; simpl in *.
  - intros [= <- <-]. split_and!; [done|done|]. right. split; [done|]. exists i.
    rewrite Hid. split_and!; try done. by left.
  - unfold supdrvLdrSetVMMR0EPs.
    destruct (Z.eqb_spec (pvVMMR0 st) NULL) as [E|].
    + intros [= <- <-]. split_and!; [done|done|]. right. split; [done|]. exists i. simpl.
      rewrite Hid. split_and!; try done. intros -> _. right. unfold eps_in. simpl. tauto.
    + destruct (_ || _); intros [= <- <-]; (split_and!; [done|done|]); [by left|].
      right. split; [done|]. exists i. rewrite Hid. split_and!; try done. by left.
  - intros [= <- <-]. split_and!; [done|done|]. right. split; [done|]. eexists. simpl.
    rewrite (alter_to_insert _ _ _ _ Hp). split; [done|]. split; [done|]. split; [done|].
    split; [|split; [done|split; [done|intros _ _; by left]]]. destruct Hok as [? [(H&_)|(_&?&?&?&?)]]; [by rewrite Hs in H|].
    split; [done|]. right. split_and!; [done|done|done|done|by right].
  - done.
Qed.

Lemma load_commit_spec st p i pReq rStr rSym callInit rc st' ev :
  ldr_inv st → l_heap st !! p = Some i → li_uState i = SUP_IOCTL_LDR_OPEN →
  RT_FAILURE (LdrLoad_validate i pReq) = false →
  LdrLoad_commit st p i pReq rStr rSym callInit = (rc, st', ev) →
  pLdrImages st' = pLdrImages st ∧ pLdrUsage st' = pLdrUsage st
  ∧ (eps_ok st → ep_base i (ll_EP pReq) → eps_ok st') ∧
  ((RT_FAILURE rc = true ∧ l_heap st' = l_heap st) ∨
   (RT_FAILURE rc = false ∧ ∃ i', l_heap st' = <[p := i']> (l_heap st) ∧ same_image i i' ∧
      img_ok i' ∧ li_uState i' = SUP_IOCTL_LDR_LOAD ∧ tables_of pReq i')).
Proof.
  intros Hinv Hp Ho Hval. pose proof (lv_img _ Hinv p i Hp) as Hok.
  pose proof (proj1 Hok) as Hn. destruct (load_validate_ok _ _ Hn Hval) as (Hv&Hmi&Hmt).
  pose proof (λ Heps, eps_not_open _ _ _ Hinv Heps Hp Ho) as Hpv. unfold LdrLoad_commit.
  destruct (LdrLoad_tables i pReq rStr rSym) as [rc1 i1] eqn:Et.
  destruct (load_tables_spec _ _ _ _ _ _ Hok Ho Et) as (Hs1&Hu1&Hsv1&Hrc1).
  assert (∀ st2 i2, l_heap st2 = <[p := i2]> (l_heap st) → same_image i i2 →
    pLdrImages st2 = pLdrImages st → pLdrUsage st2 = pLdrUsage st →
    (eps_ok st → ep_base i (ll_EP pReq) → same_eps st st2 ∨ eps_unset st2) →
    let st3 := (LdrLoad_fail st2 p).1 in
    pLdrImages st3 = pLdrImages st ∧ pLdrUsage st3 = pLdrUsage st
    ∧ (eps_ok st → ep_base i (ll_EP pReq) → eps_ok st3) ∧ l_heap st3 = l_heap st) as Hfail.
  { intros st2 i2 Hh Hsame E1 E2 Hep st3.
    destruct (load_fail_spec st2 p i i2 _ Hh Hp (img_reset_open _ _ Hok Ho Hsame))
      as (F1&F2&F3&F4&F5&F6&F7). fold st3 in F1, F2, F3, F4, F5, F6, F7.
    split_and!; [congruence|congruence| |done]. intros Heps Hb. destruct (Hep Heps Hb) as [(G1&G2&G3&G4)|(?&?&?&?)]; [|left; split_and!; congruence].
    eapply eps_ok_ext; [exact Heps|congruence..|]. intros q j Hq _ ?. exists j. rewrite F1.
    by split_and!. }
  destruct Hrc1 as [Hrc1|(->&Htab&Hlen)].
  - rewrite !(RT_FAILURE_SUCCESS _ Hrc1); simpl.
    rewrite Hrc1; simpl.
    destruct (Hfail (set_lheap (<[p:=i1]> (l_heap st)) st) i1) as (?&?&?&?); try done; [by left|].
    destruct (LdrLoad_fail _ p) as [st3 ev3]. intros [= <- <- <-]. simpl in *.
    split_and!; try done. by left.
  - simpl. destruct Hs1 as (Eb&Ec&Eu&Enm&Enat&Eal&Ewt). rewrite Enat, Hn.
    set (i2 := set_li_state _ _ _ _ i1).
    assert (same_image i i2) as Hs2 by (by unfold same_image).
    assert (in_image i2 = in_image i) as Ein by (unfold in_image; simpl; by rewrite Eb, Ec).
    assert (img_ok i2) as Hok2.
    { split; [simpl; congruence|]. right. unfold handler_ok in *. rewrite Ein. simpl.
      split_and!; [done|done|done|done|by left]. }
    set (st1 := set_lheap (<[p:=i2]> (l_heap st)) st).
    destruct (LdrLoad_entry_points st1 p i2 (ll_EP pReq)) as [rc2 st2] eqn:Ee.
    destruct (entry_points_spec st1 p i2 (ll_EP pReq) rc2 st2) as (L1&L2&Hcase);
      [apply lookup_insert_eq| |done|done|done|].
    { unfold ep_valid in *. by rewrite Ein. }
    assert (Hbase : eps_ok st → ep_base i (ll_EP pReq) →
              ep_base i2 (ll_EP pReq) ∧ (pvVMMR0 st1 = NULL ∨ pvVMMR0 st1 ≠ li_pvImage i2)).
    { intros Heps Hb. split; [unfold ep_base in *; simpl; by rewrite Eb|].
      simpl. rewrite Eb. destruct (Hpv Heps) as [[? _]|?]; [by left|by right]. }
    simpl in L1, L2. destruct Hcase as [[Hf ->]|(->&i3&Hh3&Hs3&Hu3&Hok3&Hi3&Htab3&Hep3)].
    + simpl. rewrite (RT_FAILURE_SUCCESS _ Hf); simpl. rewrite Hf; simpl.
      destruct (Hfail st1 i2) as (?&?&?&?); try done; [by left|].
      destruct (LdrLoad_fail _ p) as [st3 ev3]. intros [= <- <- <-]. simpl in *.
      split_and!; try done. by left.
    + simpl in Hh3. rewrite insert_insert_eq in Hh3.
      assert (same_image i i3) as Hs03.
      { destruct Hs2 as (?&?&?&?&?&?&?), Hs3 as (?&?&?&?&?&?&?). split_and!; congruence. }
      assert (eps_ok st → ep_base i (ll_EP pReq) → eps_ok st2) as Heps2.
      { intros Heps Hb. destruct (Hbase Heps Hb) as [Hb2 Hpv2]. specialize (Hpv Heps).
        destruct (Hep3 Hb2 Hpv2) as [(G1&G2&G3&G4)|[G Hin]].
        - by eapply (eps_ok_other st st2 p i); [..|by eexists| | | |].
        - right. exists p, i3. rewrite Hh3, lookup_insert_eq.
          destruct Hs3 as (B1&B2&_). unfold eps_in, in_image in *. rewrite B1, B2.
          split_and!; try tauto; congruence. }
      assert (tables_of pReq i3) as Ht3 by by apply Htab3.
      simpl. destruct (negb (ll_pfnModuleInit pReq =? NULL)) eqn:Eini; simpl.
      2:{ intros [= <- <- <-]. split_and!; [done|done|done|]. right. split; [done|].
          exists i3. by split_and!. }
      set (rc3 := callInit (ll_pfnModuleInit pReq)).
      set (st3 := if negb (rc3 =? 0) && (pvVMMR0 st2 =? li_pvImage i1)
                  then supdrvLdrUnsetVMMR0EPs st2 else st2).
      assert ((eps_ok st → ep_base i (ll_EP pReq) → eps_ok st3) ∧ l_heap st3 = l_heap st2
              ∧ pLdrImages st3 = pLdrImages st2 ∧ pLdrUsage st3 = pLdrUsage st2) as (Heps3&M1&M2&M3).
      { unfold st3. destruct (_ && _); [|done]. split; [intros _ _; by left|done]. }
      destruct (RT_FAILURE rc3) eqn:Ef3.
      * destruct (Hfail st3 i3) as (?&?&?&?); [congruence|done|congruence|congruence| |].
        { intros Heps Hb. destruct (Hbase Heps Hb) as [Hb2 Hpv2].
          unfold st3. assert (rc3 ≠ 0) as Hnz by (intros E; by rewrite E in Ef3).
          rewrite (proj2 (Z.eqb_neq _ _) Hnz). simpl.
          destruct (Z.eqb_spec (pvVMMR0 st2) (li_pvImage i1)) as [|Hne]; [by right|].
          destruct (Hep3 Hb2 Hpv2) as [?|[G _]]; [by left|]. by rewrite G in Hne. }
        destruct (LdrLoad_fail st3 p) as [st4 ev4]. intros [= <- <- <-]. simpl in *.
        split_and!; try done. by left.
      * intros [= <- <- <-]. split_and!; [congruence|congruence|done|]. right. split; [done|].
        exists i3. split_and!; try done. congruence.
Qed.

Lemma set_images_inv st st' p i i' :
  ldr_inv st → l_heap st !! p = Some i → same_image i i' → img_ok i' →
  l_heap st' = <[p := i']> (l_heap st) → pLdrImages st' = pLdrImages st →
  pLdrUsage st' = pLdrUsage st → ldr_inv st'.
Proof.
  intros Hinv Hp (Hb&_&Hc&Hn&_) Hok Hh Hi Hu. destruct (lv_count _ Hinv p i Hp).
  assert (ldr_inv (set_lheap (<[p := i']> (l_heap st)) st)) as Hset.
  { eapply linv_set_img; [done|exact Hp|done|done|done|lia|lia]. }
  destruct Hset as [A1 A2 A3 A4 A5 A6 A7]. unfold ldr_total in *; simpl in *.
  constructor; unfold ldr_total; rewrite ?Hh, ?Hi, ?Hu; done.
Qed.

Lemma same_images_inv st st' :
  ldr_inv st → l_heap st' = l_heap st → pLdrImages st' = pLdrImages st →
  pLdrUsage st' = pLdrUsage st → ldr_inv st'.
Proof.
  intros [H1 H2 H3 H4 H5 H6 H7] Hh Hi Hu. unfold ldr_total in *.
  constructor; unfold ldr_total; rewrite ?Hh, ?Hi, ?Hu; done.
Qed.

(** Taking [supdrvIOCtl_LdrLoad] apart. *)
Lemma ldrload_cases st s pReq rStr rSym callInit rc st' ev :
  ldr_inv st → supdrvIOCtl_LdrLoad st s pReq rStr rSym callInit = (rc, st', ev) →
  (RT_FAILURE rc = true ∧ st' = st ∧ ev = []) ∨
  ∃ u i, u ∈ ldr_usage st s ∧ l_heap st !! lu_pImage u = Some i ∧
    li_pvImage i = ll_pvImageBase pReq ∧ li_uState i = SUP_IOCTL_LDR_OPEN ∧
    RT_FAILURE (LdrLoad_validate i pReq) = false ∧
    LdrLoad_commit st (lu_pImage u) i pReq rStr rSym callInit = (rc, st', ev).
Proof.
  intros Hinv. unfold supdrvIOCtl_LdrLoad.
  destruct (find_split _ _) as [[[pre u] post]|] eqn:F; [|intros [= <- <- <-]; by left].
  destruct (linv_find st Hinv _ _ _ _ _ F) as (Hl&i&Hp&Hb&_). rewrite Hp.
  destruct (_ || _); [intros [= <- <- <-]; by left|].
  destruct (Z.eqb_spec (li_uState i) SUP_IOCTL_LDR_OPEN); [|intros [= <- <- <-]; by left]. simpl.
  destruct (RT_FAILURE (LdrLoad_validate i pReq)) eqn:Ev; [intros [= <- <- <-]; by left|].
  intros Hc. right. exists u, i. rewrite Hl. split_and!; [set_solver|done..].
Qed.

Lemma load_inv st s pReq rStr rSym callInit :
  ldr_inv st →
  let st' := (supdrvIOCtl_LdrLoad st s pReq rStr rSym callInit).1.2 in
  ldr_inv st' ∧ (vmmr0_is_base pReq → eps_ok st → eps_ok st').
Proof.
  intros Hinv.
  destruct (supdrvIOCtl_LdrLoad st s pReq rStr rSym callInit) as [[rc st'] ev] eqn:E. simpl.
  destruct (ldrload_cases _ _ _ _ _ _ _ _ _ Hinv E) as [(_&->&_)|(u&i&_&Hp&Hbase&Ho&Hv&Hc)]; [done|].
  assert (vmmr0_is_base pReq → ep_base i (ll_EP pReq)) as Hep.
  { unfold ep_base, vmmr0_is_base in *. destruct (ll_EP pReq); congruence. }
  destruct (load_commit_spec _ _ _ _ _ _ _ _ _ _ Hinv Hp Ho Hv Hc)
    as (H1&H2&H3&[[_ Hh]|(_&i'&Hh&Hs&Hok&_)]).
  - split; [by eapply same_images_inv|auto].
  - split; [by eapply set_images_inv|auto].
Qed.

(** Asking for the driver's own symbols changes nothing. *)
Lemma idc_symbol_same st s fns pszModule pszSymbol rUsage :
  pszModule = None ∨ pszModule = Some szSupDrv →
  (supdrvIDC_LdrGetSymbol st s fns pszModule pszSymbol rUsage).2 = st.
Proof.
  intros Hm. unfold supdrvIDC_LdrGetSymbol. destruct pszSymbol as [sz|]; [|done].
  destruct (negb _); [done|]. destruct (negb _); [done|].
  destruct Hm as [->| ->]; simpl; rewrite ?bool_decide_eq_true_2 by done; by destruct (find_split _ fns) as [[[]]|].
Qed.

Lemma ldr_step_inv fBase st st' :
  ldr_inv st → ldr_step fBase st st' → ldr_inv st' ∧ (fBase = true → eps_ok st → eps_ok st').
Proof.
  intros Hinv Hstep; revert Hinv.
  destruct Hstep as [st0 s pReq rUsage rImage exec H1 H2 H3|st0 s pReq rStr rSym callInit Hb|st0 os s pv|st0 os s
               |st0 s fns pszModule pszSymbol rUsage Hm]; intros Hinv.
  - destruct (open_inv st0 s pReq rUsage rImage exec Hinv H1 H2 H3); auto.
  - destruct (load_inv st0 s pReq rStr rSym callInit Hinv) as [? He]. split; [done|]. intros E. by apply He, Hb.
  - destruct (free_inv st0 os s pv Hinv); auto.
  - destruct (cleanup_ldr_inv st0 os s Hinv) as (?&?&_); auto.
  - by rewrite idc_symbol_same.
Qed.

Lemma ldr_steps_inv fBase st st' :
  ldr_inv st → rtc (ldr_step fBase) st st' → ldr_inv st' ∧ (fBase = true → eps_ok st → eps_ok st').
Proof.
  intros H1 Hs. induction Hs as [|x y z Hxy _ IH]; [done|].
  destruct (ldr_step_inv fBase x y H1 Hxy) as [Hy He]. destruct (IH Hy) as [Hz Hez]. auto.
Qed.

Lemma ldr_init_inv : ldr_inv ldr_init ∧ eps_ok ldr_init.
Proof.
  split; [|by left]. constructor; simpl; try done; [constructor|].
  intros p. rewrite lookup_empty. split; [by intros ?%not_elem_of_nil|by intros []].
Qed.

(** The image a session frees, in the state before. *)
Lemma free_cases st os s pv rc st' os' ev :
  ldr_inv st → supdrvIOCtl_LdrFree st os s pv = (rc, st', os', ev) →
  (l_heap st' = l_heap st ∧ os' = os) ∨
  (∃ p i, l_heap st !! p = Some i ∧ os' = os ∧ dom (l_heap st') = dom (l_heap st)) ∨
  (∃ p i, l_heap st !! p = Some i ∧ li_cUsage i = 1 ∧ ldr_refs st s p = 1 ∧
     existsb (destructor_in os i) (pObjs os) = false ∧ os' = clear_destructors os i ∧
     l_heap st' = delete p (l_heap st)).
Proof.
  intros Hinv. unfold supdrvIOCtl_LdrFree.
  destruct (find_split _ _) as [[[pre u] post]|] eqn:F; [|intros [= <- <- <- <-]; by left].
  destruct (linv_find st Hinv _ _ _ _ _ F) as (Hl&i&Hp&_&Hr&Hu&_). rewrite Hp.
  set (p := lu_pImage u) in *. destruct (lv_count _ Hinv p i Hp) as [_ Hb].
  assert (∀ f, dom (alter f p (l_heap st)) = dom (l_heap st)) as Hdom by (intros; apply dom_alter_L).
  destruct ((li_cUsage i <=? 1) || (lu_cUsage u <=? 1)) eqn:Hone.
  - destruct (dangling_objects os s i) eqn:Ed; [intros [= <- <- <- <-]; by left|].
    destruct (Z.leb_spec (li_cUsage i) 1) as [H1|H1].
    + unfold dangling_objects in Ed. rewrite (proj2 (Z.leb_le _ _) H1) in Ed.
      unfold supdrvLdrFree. simpl. rewrite Hp. intros [= <- <- <- <-]. right; right.
      exists p, i. split_and!; [done|lia|lia|done|done|].
      by destruct (_ =? _).
    + intros [= <- <- <- <-]. right; left. exists p, i. split_and!; [done|done|apply Hdom].
  - intros [= <- <- <- <-]. right; left. exists p, i. split_and!; [done|done|apply Hdom].
Qed.

Lemma clear_destructors_lookup os i q :
  NoDup (pObjs os) →
  o_heap (clear_destructors os i) !! q =
  if decide (q ∈ pObjs os)
  then (λ o, if in_image i (obj_pfnDestructor o) then set_destructor NULL o else o) <$> o_heap os !! q
  else o_heap os !! q.
Proof.
  unfold clear_destructors; simpl. induction (pObjs os) as [|p l IH]; simpl; intros Hnd.
  - destruct (decide (q ∈ [])) as [Hin|]; [by apply not_elem_of_nil in Hin|done].
  - inversion Hnd; subst. destruct (decide (q = p)) as [->|Hne].
    + rewrite lookup_alter_eq, IH by done. destruct (decide (p ∈ l)); [done|].
      destruct (decide (p ∈ p :: l)) as [|Hn]; [done|]. exfalso. apply Hn. left.
    + rewrite lookup_alter_ne, IH by done.
      destruct (decide (q ∈ l)), (decide (q ∈ p :: l)); set_solver.
Qed.

(** Without a destructor in the image, clearing is the identity. *)
Lemma clear_destructors_id os i :
  NoDup (pObjs os) → existsb (destructor_in os i) (pObjs os) = false → clear_destructors os i = os.
Proof.
  intros Hnd He. assert (o_heap (clear_destructors os i) = o_heap os) as Hh.
  { apply map_eq. intros q. rewrite clear_destructors_lookup by done.
    destruct (decide (q ∈ pObjs os)) as [Hin|]; [|done].
    destruct (o_heap os !! q) as [o|] eqn:Hq; [|done]. simpl.
    assert (destructor_in os i q = false) as Hd.
    { destruct (destructor_in os i q) eqn:E; [|done]. rewrite <- He. symmetry.
      apply existsb_exists. exists q. split; [by apply list_elem_of_In|done]. }
    unfold destructor_in in Hd. rewrite Hq in Hd. by rewrite Hd. }
  unfold clear_destructors in *; simpl in *. rewrite Hh. by destruct os.
Qed.

Lemma usage_other st s s' p i :
  ldr_inv st → l_heap st !! p = Some i → li_cUsage i = 1 → ldr_refs st s p = 1 → s' ≠ s →
  ldr_refs st s' p = 0.
Proof.
  intros Hinv Hp Hc Hr Hne. destruct (lv_count _ Hinv p i Hp) as [Ht _].
  pose proof (rcount_nonneg lu_pImage lu_cUsage p _ (proj1 (linv_usage st Hinv s'))) as H0.
  unfold ldr_refs, ldr_usage, ldr_total, rtotal in *.
  destruct (pLdrUsage st !! s') as [l'|] eqn:E'; simpl in *; [|done].
  rewrite (gsum_delete _ _ _ _ E') in Ht.
  assert (default [] (pLdrUsage st !! s) = default [] (delete s' (pLdrUsage st) !! s)) as E.
  { by rewrite lookup_delete_ne. }
  rewrite E in Hr.
  assert (1 ≤ gsum (rcount lu_pImage lu_cUsage p) (delete s' (pLdrUsage st))); [|lia].
  rewrite <- Hr. apply (rcount_le_total lu_pImage lu_cUsage).
  intros k l [_ Hk]%lookup_delete_Some. by apply (linv_rlists st Hinv k).
Qed.

(** * Properties *)

(** C27. The loader is well formed after any sequence of opening, loading (whatever the
    VMMR0 handle), freeing and cleaning up by the sessions, and of requests by other drivers
    for symbols of the support driver itself: images are linked once each, names and base
    addresses identify them, an image that is open holds no tables and no handlers and a
    loaded one has handlers inside its bits, every usage record names an image in memory, and
    the references of all sessions together never exceed the image's usage count.  The
    allocators return memory that is not in use, and no usage count reaches [2^32].  Requests
    by other drivers for symbols of other modules are not among the steps, because they break
    the counting: a usage record then outlives its image ([idc_symbol_use_after_free]). *)
Theorem loader_invariant fBase st : ldr_reach fBase st → ldr_inv st.
Proof. intros H. destruct ldr_init_inv. by eapply ldr_steps_inv. Qed.

(** The VMMR0 entry points never dangle as long as ring-3 passes the image base as the
    VMMR0 handle: in every reachable state they are unset or belong to an image that is
    in memory, loaded, and contains all three of them. *)
Lemma vmmr0_eps_never_dangle st : ldr_reach true st → eps_ok st.
Proof.
  intros H. destruct ldr_init_inv as [Hi He]. by destruct (ldr_steps_inv true _ _ Hi H) as [_ H'%(λ f, f eq_refl He)].
Qed.

(** [supdrvIOCtl_LdrFree] removes an image from memory only when the calling session
    held its single reference: no other session uses an image that goes away, and the
    usage records left name images that are still there. *)
Lemma ldr_free_last_only st os s pv rc st' os' ev p :
  ldr_inv st → supdrvIOCtl_LdrFree st os s pv = (rc, st', os', ev) →
  is_Some (l_heap st !! p) → l_heap st' !! p = None →
  ldr_inv st' ∧ ldr_refs st s p = 1 ∧ ∀ s', s' ≠ s → ldr_refs st s' p = 0.
Proof.
  intros Hinv Hfree Hp Hp'. pose proof (free_inv st os s pv Hinv) as [Hinv' _].
  rewrite Hfree in Hinv'. simpl in Hinv'. split; [done|].
  destruct (free_cases _ _ _ _ _ _ _ _ Hinv Hfree)
    as [[Hh _]|[(_&_&_&_&Hd)|(q&i&Hq&Hc&Hr&_&_&Hh)]].
  - rewrite Hh in Hp'. rewrite Hp' in Hp. by destruct Hp.
  - apply elem_of_dom in Hp. rewrite <- Hd in Hp. apply elem_of_dom in Hp.
    rewrite Hp' in Hp. by destruct Hp.
  - assert (q = p) as ->.
    { destruct (decide (q = p)); [done|]. rewrite Hh, lookup_delete_ne in Hp' by done.
      rewrite Hp' in Hp. by destruct Hp. }
    split; [done|]. intros s' Hne. by eapply usage_other.
Qed.

(** [supdrvIOCtl_LdrFree] never takes a destructor away: an image whose bits contain the
    destructor of a live object stays loaded, so the objects are unchanged by the call. *)
Lemma ldr_free_keeps_destructors st os s pv rc st' os' ev :
  ldr_inv st → NoDup (pObjs os) → supdrvIOCtl_LdrFree st os s pv = (rc, st', os', ev) → os' = os.
Proof.
  intros Hinv Hnd Hfree.
  destruct (free_cases _ _ _ _ _ _ _ _ Hinv Hfree)
    as [[_ ->]|[(_&_&_&->&_)|(q&i&_&_&_&He&->&_)]]; [done|done|].
  by apply clear_destructors_id.
Qed.

(** A failed [supdrvIOCtl_LdrLoad], wherever it fails (checks, either allocation, the
    entry points, the module's own initialisation), leaves every image, usage record and
    list exactly as before, and the entry points sound. *)
Lemma load_failure_restores st s pReq rStr rSym callInit rc st' ev :
  ldr_inv st →
  supdrvIOCtl_LdrLoad st s pReq rStr rSym callInit = (rc, st', ev) → RT_FAILURE rc = true →
  l_heap st' = l_heap st ∧ pLdrImages st' = pLdrImages st ∧ pLdrUsage st' = pLdrUsage st ∧
  (vmmr0_is_base pReq → eps_ok st → eps_ok st').
Proof.
  intros Hinv Hload Hrc.
  destruct (ldrload_cases _ _ _ _ _ _ _ _ _ Hinv Hload) as [(_&->&_)|(u&i&_&Hp&Hbase&Ho&Hv&Hc)]; [done|].
  assert (vmmr0_is_base pReq → ep_base i (ll_EP pReq)) as Hep.
  { unfold ep_base, vmmr0_is_base in *. destruct (ll_EP pReq); congruence. }
  destruct (load_commit_spec _ _ _ _ _ _ _ _ _ _ Hinv Hp Ho Hv Hc)
    as (H1&H2&H3&[[_ Hh]|(Hs&_)]); [by auto 6|congruence].
Qed.

(** Loading and looking up a symbol is a round trip: after a successful
    [supdrvIOCtl_LdrLoad], [supdrvIOCtl_LdrGetSymbol] with the name of the [k]-th entry of the
    symbol table that was sent returns the image base plus that entry's offset (read as a
    signed 32-bit number), for every entry whose name lies in the string table and is not
    the name of an earlier one. *)
Lemma load_getsymbol_roundtrip st s pReq rStr rSym callInit rc st' ev k sym szName :
  ldr_inv st →
  supdrvIOCtl_LdrLoad st s pReq rStr rSym callInit = (rc, st', ev) → RT_FAILURE rc = false →
  let syms := rd_syms (ll_abImage pReq) (ll_offSymbols pReq) (ll_cSymbols pReq) in
  let strs := take (Z.to_nat (ll_cbStrTab pReq))
                (drop (Z.to_nat (ll_offStrTab pReq)) (ll_abImage pReq)) in
  let has_name := λ y, offName y + (Z.of_nat (length szName) + 1) ≤ ll_cbStrTab pReq ∧
    take (Z.to_nat (Z.of_nat (length szName) + 1)) (drop (Z.to_nat (offName y)) strs) = szName ++ [0] in
  syms !! k = Some sym → has_name sym → (∀ j y, (j < k)%nat → syms !! j = Some y → ¬ has_name y) →
  supdrvIOCtl_LdrGetSymbol st' s (ll_pvImageBase pReq) szName
  = (VINF_SUCCESS, Some (u64 (ll_pvImageBase pReq + s32 (offSymbol sym)))).
Proof.
  intros Hinv Hload Hrc syms strs has_name Hk Hsym Hfirst.
  destruct (ldrload_cases _ _ _ _ _ _ _ _ _ Hinv Hload) as [(?&_)|(u&i&Hu&Hp&Hbase&Ho&Hv&Hc)];
    [congruence|].
  destruct (load_commit_spec _ _ _ _ _ _ _ _ _ _ Hinv Hp Ho Hv Hc)
    as (Himg&Husg&_&[[? _]|(_&i'&Hh&Hs&Hok&Hst&Hc'&Hcb&Hsy&Hstr)]); [congruence|].
  assert (ldr_inv st') as Hinv' by by eapply set_images_inv.
  destruct Hs as (Eb&_). assert (l_heap st' !! lu_pImage u = Some i') as Hp'.
  { by rewrite Hh, lookup_insert_eq. }
  unfold supdrvIOCtl_LdrGetSymbol.
  destruct (find_split _ (ldr_usage st' s)) as [[[pre v] post]|] eqn:F.
  2:{ apply find_split_None in F. rewrite Forall_forall in F.
      assert (u ∈ ldr_usage st' s) as Hu' by (unfold ldr_usage in *; by rewrite Husg).
      specialize (F u Hu'). unfold usage_at in F. rewrite Hp', Eb, Hbase, Z.eqb_refl in F. done. }
  destruct (linv_find st' Hinv' _ _ _ _ _ F) as (_&j&Hj&Hjb&_).
  assert (lu_pImage v = lu_pImage u) as E by (eapply lv_base; [exact Hinv'|done..|congruence]).
  rewrite E in *. rewrite Hp' in Hj. injection Hj as <-. rewrite Hp', Hst, Z.eqb_refl. simpl.
  unfold find_symbol. rewrite Hsy. fold syms.
  assert (∀ y, sym_matches i' szName y = true ↔ has_name y) as Hm.
  { intros y. unfold sym_matches, has_name. rewrite Hstr, Hcb, andb_true_iff, Z.leb_le.
    by rewrite bool_decide_eq_true. }
  rewrite take_ge by (rewrite Hc'; unfold syms, rd_syms; rewrite length_fmap, length_seqZ; done).
  assert (find_split (sym_matches i' szName) syms = Some (take k syms, sym, drop (S k) syms)) as ->.
  { apply find_split_Some. split; [by rewrite take_drop_middle|]. split; [by apply Hm|].
    apply Forall_lookup. intros n y Hy. apply lookup_take_Some in Hy as [Hy Hn].
    apply not_true_iff_false. rewrite Hm. by eapply Hfirst. }
  by rewrite Eb, Hbase.
Qed.

(** [supdrvIDC_LdrGetSymbol] breaks the counting: it adds a usage record to the calling
    session but not to the image's own count, so when the session that loaded the image
    frees it, the image is destroyed while the other session's record still points to it. *)
Lemma idc_symbol_use_after_free :
  let st := demo_ldr2 SUPLDRLOADEP_NOTHING in
  ∃ pfn st1 st2 os2 ev,
    supdrvIDC_LdrGetSymbol st 0x11000 [] (Some [77; 111; 100]) (Some [102]) (Some 0x54000)
    = (VINF_SUCCESS, Some pfn, st1) ∧
    supdrvIOCtl_LdrFree st1 obj_init 0x10000 0xffff880000100000 = (VINF_SUCCESS, st2, os2, ev) ∧
    ∃ u, ldr_usage st2 0x11000 = [u] ∧ l_heap st2 !! lu_pImage u = None ∧
         EvMemFree (lu_pImage u) ∈ ev.
Proof.
  eexists _, _, _, _, _. split; [vm_compute; reflexivity|]. split; [vm_compute; reflexivity|].
  eexists. split; [vm_compute; reflexivity|]. split; [vm_compute; reflexivity|].
  simpl. set_solver.
Qed.

(** The hypothesis on the VMMR0 handle is needed: a handle inside the image but not at its
    base passes the checks, and the entry points stay set when the image is freed. *)
Lemma vmmr0_handle_not_base_dangles :
  let st := (supdrvIOCtl_LdrFree (demo_ldr2 (demo_vmmr0 16)) obj_init 0x10000
               0xffff880000100000).1.1.2 in
  l_heap st = ∅ ∧ pvVMMR0 st = 0xffff880000100010 ∧ pfnVMMR0EntryFast st = 0xffff880000100004.
Proof. by vm_compute. Qed.

(** An unknown symbol is reported as a success, with nothing stored. *)
Lemma idc_unknown_symbol_succeeds :
  ∃ st, supdrvIDC_LdrGetSymbol (demo_ldr2 SUPLDRLOADEP_NOTHING) 0x11000 [] (Some [77; 111; 100])
          (Some [103]) None = (VINF_SUCCESS, None, st).
Proof. eexists. vm_compute. reflexivity. Qed.

(** * Witnesses *)

Lemma demo_ldr_steps EP :
  vmmr0_is_base (demo_load EP) → ldr_step true ldr_init demo_ldr1 ∧ ldr_step true demo_ldr1 (demo_ldr2 EP).
Proof. intros H. split; [by apply lstep_open|by apply lstep_load]. Qed.

Lemma demo_ldr_reach EP :
  vmmr0_is_base (demo_load EP) → ldr_reach true demo_ldr1 ∧ ldr_reach true (demo_ldr2 EP).
Proof.
  intros H. destruct (demo_ldr_steps EP H) as [H1 H2]. split.
  - eapply rtc_l; [exact H1|apply rtc_refl].
  - eapply rtc_l; [exact H1|]. eapply rtc_l; [exact H2|apply rtc_refl].
Qed.

Lemma demo_ldr_inv : ldr_inv demo_ldr1.
Proof.
  destruct ldr_init_inv as [H1 _]. eapply ldr_steps_inv; [exact H1|].
  by apply (demo_ldr_reach SUPLDRLOADEP_NOTHING).
Qed.

Lemma loader_invariant_witness :
  ldr_reach false (demo_ldr2 (demo_vmmr0 16)) ∧ ldr_inv (demo_ldr2 (demo_vmmr0 16)).
Proof.
  assert (ldr_reach false (demo_ldr2 (demo_vmmr0 16))) as H.
  { eapply rtc_l; [by apply lstep_open|]. eapply rtc_l; [by apply lstep_load|apply rtc_refl]. }
  split; [exact H|]. exact (loader_invariant false _ H).
Defined.

Lemma vmmr0_eps_never_dangle_witness :
  pvVMMR0 (demo_ldr2 (demo_vmmr0 0)) = 0xffff880000100000 ∧ eps_ok (demo_ldr2 (demo_vmmr0 0)).
Proof.
  split; [reflexivity|]. apply (vmmr0_eps_never_dangle (demo_ldr2 (demo_vmmr0 0))).
  by apply demo_ldr_reach.
Defined.

Lemma ldr_free_last_only_witness :
  ∃ st' os' ev,
    supdrvIOCtl_LdrFree demo_ldr1 obj_init 0x10000 0xffff880000100000 = (VINF_SUCCESS, st', os', ev) ∧
    ldr_refs demo_ldr1 0x10000 0x50000 = 1 ∧ ∀ s', s' ≠ 0x10000 → ldr_refs demo_ldr1 s' 0x50000 = 0.
Proof.
  eexists _, _, _. split; [vm_compute; reflexivity|].
  eapply (ldr_free_last_only demo_ldr1 obj_init 0x10000 0xffff880000100000 VINF_SUCCESS);
    [apply demo_ldr_inv|vm_compute; reflexivity
    |by eexists; vm_compute|vm_compute; reflexivity].
Defined.

Lemma ldr_free_keeps_destructors_witness :
  ∃ st' os' ev,
    supdrvIOCtl_LdrFree demo_ldr1 demo1 0x10000 0xffff880000100000 = (VINF_SUCCESS, st', os', ev) ∧
    os' = demo1.
Proof.
  eexists _, _, _. split; [reflexivity|].
  eapply (ldr_free_keeps_destructors demo_ldr1 demo1 0x10000 0xffff880000100000 VINF_SUCCESS);
    [apply demo_ldr_inv|apply demo_inv|reflexivity].
Defined.

Lemma load_failure_restores_witness :
  ∃ st' ev,
    supdrvIOCtl_LdrLoad demo_ldr1 0x10000 (demo_load SUPLDRLOADEP_NOTHING) (Some 0x52000)
      (Some 0x53000) (λ _, VERR_GENERAL_FAILURE) = (VERR_GENERAL_FAILURE, st', ev) ∧
    l_heap st' = l_heap demo_ldr1.
Proof.
  eexists _, _. split; [vm_compute; reflexivity|].
  destruct (load_failure_restores demo_ldr1 0x10000 (demo_load SUPLDRLOADEP_NOTHING) (Some 0x52000)
              (Some 0x53000) (λ _, VERR_GENERAL_FAILURE) VERR_GENERAL_FAILURE _ _
              demo_ldr_inv ltac:(vm_compute; reflexivity) eq_refl)
    as [H _]. exact H.
Defined.

Lemma load_getsymbol_roundtrip_witness :
  supdrvIOCtl_LdrGetSymbol (demo_ldr2 SUPLDRLOADEP_NOTHING) 0x10000 0xffff880000100000 [102]
  = (VINF_SUCCESS, Some 0xffff880000100004).
Proof.
  apply (load_getsymbol_roundtrip demo_ldr1 0x10000 (demo_load SUPLDRLOADEP_NOTHING) (Some 0x52000)
           (Some 0x53000) (λ _, VINF_SUCCESS) VINF_SUCCESS _ [EvCopyImage 0xffff880000100000 0x20;
             EvModuleInit 0xffff880000100008] 0 (mkSym 0 4) [102]);
    [apply demo_ldr_inv|vm_compute; reflexivity|reflexivity|reflexivity
    |split; [done|reflexivity]|intros; lia].
Defined.
