(* ===== verification/Factory.v ===== *)
(** Component factories: [SUPR0ComponentRegisterFactory], [SUPR0ComponentDeregisterFactory],
    [SUPR0ComponentQueryFactory] and the factory part of [supdrvCleanupSession].

    State: the list [pComponentFactoryHead] of the device extension.  The factory
    structures belong to the registering modules: [facmem] is that memory, and
    [pfnQueryFactoryInterface] is a function of its address and arguments.  [rcLock] is
    what [RTSemFastMutexRequest] returns. *)

From S2P Require Import Prelude SupTypes.
Local Open Scope Z_scope.

(** * Data *)

(** [szName] is the whole 56-byte array. *)
Record SUPDRVFACTORY := mkFactory {
  fa_szName : list Z;
  fa_pfnQueryFactoryInterface : ptr;
}.

Record SUPDRVFACTORYREG := mkFactoryReg {
  fr_self : ptr;
  fr_pFactory : ptr;
  fr_pSession : ptr;
  fr_cchName : Z;
}.

Abbreviation FacState := (list SUPDRVFACTORYREG).

(** [RTStrEnd(psz, cbMax) - psz]: the index of the terminator in the first [cbMax] bytes. *)
Fixpoint RTStrEnd (psz : list Z) (cbMax : nat) : option Z :=
  match cbMax, psz with
  | S n, c :: psz => if c =? 0 then Some 0 else Z.succ <$> RTStrEnd psz n
  | _, _ => None
  end.

Definition FACTORY_NAME_SIZE : nat := 56.
Definition RTUUID_STR_LENGTH : nat := 37.

(** * Operations *)

(** [rAlloc]: the registration record [RTMemAlloc] returns. *)
Definition SUPR0ComponentRegisterFactory (st : FacState) (facmem : gmap Z SUPDRVFACTORY)
    (pSession : SUPDRVSESSION) (pFactory : ptr) (rAlloc : option ptr) (rcLock : Z)
    : Z * FacState * list event :=
  if negb (SUP_IS_SESSION_VALID pSession) then (VERR_INVALID_PARAMETER, st, [])
  else if negb (s_R0Process pSession =? NIL_RTR0PROCESS) then (VERR_ACCESS_DENIED, st, [])
  else if negb (VALID_PTR pFactory) then (VERR_INVALID_POINTER, st, [])
  else
    match facmem !! pFactory with
    | None => (VERR_INVALID_POINTER, st, [])
    | Some f =>
        if negb (VALID_PTR (fa_pfnQueryFactoryInterface f)) then (VERR_INVALID_POINTER, st, [])
        else
          match RTStrEnd (fa_szName f) FACTORY_NAME_SIZE with
          | None => (VERR_INVALID_PARAMETER, st, [])
          | Some cchName =>
              match rAlloc with
              | None => (VERR_NO_MEMORY, st, [])
              | Some pNewReg =>
                  let '(rc, st) :=
                    if RT_SUCCESS rcLock then
                      match find_split (λ r, fr_pFactory r =? pFactory) st with
                      | None => (VINF_SUCCESS,
                                 st ++ [mkFactoryReg pNewReg pFactory (s_self pSession) cchName])
                      | Some _ => (VERR_ALREADY_EXISTS, st)
                      end
                    else (rcLock, st) in
                  (rc, st, if RT_FAILURE rc then [EvMemFree pNewReg] else [])
              end
          end
    end.

Definition SUPR0ComponentDeregisterFactory (st : FacState) (pSession : SUPDRVSESSION)
    (pFactory : ptr) (rcLock : Z) : Z * FacState * list event :=
  if negb (SUP_IS_SESSION_VALID pSession) then (VERR_INVALID_PARAMETER, st, [])
  else if negb (s_R0Process pSession =? NIL_RTR0PROCESS) then (VERR_ACCESS_DENIED, st, [])
  else if negb (VALID_PTR pFactory) then (VERR_INVALID_POINTER, st, [])
  else if RT_SUCCESS rcLock then
    match find_split (λ r, fr_pFactory r =? pFactory) st with
    | Some (pre, pCur, post) => (VINF_SUCCESS, pre ++ post, [EvMemFree (fr_self pCur)])
    | None => (VERR_NOT_FOUND, st, [])
    end
  else (rcLock, st, []).

Section query.
(** [pfnQueryFactoryInterface(pFactory, pSession, pszInterfaceUuid)] *)
Context (callQuery : ptr → ptr → ptr → list Z → ptr).

Definition factory_named (facmem : gmap Z SUPDRVFACTORY) (szName : list Z) (cchName : Z)
    (r : SUPDRVFACTORYREG) : bool :=
  (fr_cchName r =? cchName)
  && bool_decide (take (Z.to_nat cchName) (from_option fa_szName [] (facmem !! fr_pFactory r))
                  = take (Z.to_nat cchName) szName).

Definition factory_call (facmem : gmap Z SUPDRVFACTORY) (s : ptr) (uuid : list Z)
    (r : SUPDRVFACTORYREG) : ptr :=
  callQuery (from_option fa_pfnQueryFactoryInterface NULL (facmem !! fr_pFactory r))
    (fr_pFactory r) s uuid.

(** The loop: [rc] and [*ppvFactoryIf] so far are the arguments. *)
Fixpoint query_loop (facmem : gmap Z SUPDRVFACTORY) (s : ptr) (szName : list Z) (cchName : Z)
    (uuid : list Z) (pCur : FacState) (rc : Z) : Z * ptr :=
  match pCur with
  | [] => (rc, NULL)
  | r :: pNext =>
      if factory_named facmem szName cchName r then
        let pvFactory := factory_call facmem s uuid r in
        if negb (pvFactory =? NULL) then (VINF_SUCCESS, pvFactory)
        else query_loop facmem s szName cchName uuid pNext VERR_SUPDRV_INTERFACE_NOT_SUPPORTED
      else query_loop facmem s szName cchName uuid pNext rc
  end.

(** [None] for the second result: [*ppvFactoryIf] is not written. *)
Definition SUPR0ComponentQueryFactory (st : FacState) (facmem : gmap Z SUPDRVFACTORY)
    (pSession : SUPDRVSESSION) (pszName pszInterfaceUuid : option (list Z)) (ppvFactoryIf : ptr)
    (rcLock : Z) : Z * option ptr :=
  if negb (SUP_IS_SESSION_VALID pSession) then (VERR_INVALID_PARAMETER, None)
  else
    match pszName with
    | None => (VERR_INVALID_POINTER, None)
    | Some szName =>
        match RTStrEnd szName FACTORY_NAME_SIZE with
        | None => (VERR_INVALID_PARAMETER, None)
        | Some cchName =>
            match pszInterfaceUuid with
            | None => (VERR_INVALID_POINTER, None)
            | Some uuid =>
                match RTStrEnd uuid RTUUID_STR_LENGTH with
                | None => (VERR_INVALID_PARAMETER, None)
                | Some _ =>
                    if negb (VALID_PTR ppvFactoryIf) then (VERR_INVALID_POINTER, None)
                    else if RT_SUCCESS rcLock then
                      let '(rc, pv) := query_loop facmem (s_self pSession) szName cchName uuid st
                                         VERR_SUPDRV_COMPONENT_NOT_FOUND in
                      (rc, Some pv)
                    else (rcLock, Some NULL)
                end
            end
        end
    end.
End query.

(** [supdrvCleanupSession], the component factories; the session's address is compared. *)
Fixpoint supdrvCleanupSession_factories (st : FacState) (s : ptr) : FacState * list event :=
  match st with
  | [] => ([], [])
  | pCur :: pNext =>
      let '(rest, ev) := supdrvCleanupSession_factories pNext s in
      if fr_pSession pCur =? s then (rest, EvMemFree (fr_self pCur) :: ev)
      else (pCur :: rest, ev)
  end.

(** * Specification *)

(** A factory is registered at most once, a registration record is linked at most once. *)
Definition fac_inv (st : FacState) : Prop := NoDup (fr_pFactory <$> st) ∧ NoDup (fr_self <$> st).

Inductive fac_step : FacState → FacState → Prop :=
| fstep_register st facmem pSession pFactory rAlloc rcLock :
    (∀ p, rAlloc = Some p → p ∉ fr_self <$> st) →
    fac_step st (SUPR0ComponentRegisterFactory st facmem pSession pFactory rAlloc rcLock).1.2
| fstep_deregister st pSession pFactory rcLock :
    fac_step st (SUPR0ComponentDeregisterFactory st pSession pFactory rcLock).1.2
| fstep_cleanup st s : fac_step st (supdrvCleanupSession_factories st s).1.

(** ** A concrete registration *)

Definition demo_facmem : gmap Z SUPDRVFACTORY :=
  {[ 0xffff880000200000 := mkFactory ([78; 101; 116] ++ replicate 53 0) 0xffff880000201000 ]}.
Definition demo_kernel : SUPDRVSESSION :=
  mkSession 0x10000 BIRD_INV 0 0x70000 0 0 NIL_RTPROCESS NIL_RTR0PROCESS.
Definition demo_fac : FacState :=
  (SUPR0ComponentRegisterFactory [] demo_facmem demo_kernel 0xffff880000200000 (Some 0x60000)
     VINF_SUCCESS).1.2.

(** * Lemmas *)

Lemma register_cases st facmem ses pF rA rcL rc st' ev :
  SUPR0ComponentRegisterFactory st facmem ses pF rA rcL = (rc, st', ev) →
  (st' = st ∧ rc ≠ VINF_SUCCESS) ∨
  (rc = VINF_SUCCESS ∧ ev = [] ∧ s_R0Process ses = NIL_RTR0PROCESS ∧ (pF ∉ fr_pFactory <$> st) ∧
   ∃ p cch, rA = Some p ∧ st' = st ++ [mkFactoryReg p pF (s_self ses) cch] ∧
     SUP_IS_SESSION_VALID ses = true ∧ VALID_PTR pF = true ∧
     (∃ f, facmem !! pF = Some f ∧ RTStrEnd (fa_szName f) FACTORY_NAME_SIZE = Some cch)).
Proof.
  unfold SUPR0ComponentRegisterFactory.
  destruct (SUP_IS_SESSION_VALID ses); simpl; [|intros [= <- <- <-]; by left].
  destruct (Z.eqb_spec (s_R0Process ses) NIL_RTR0PROCESS); simpl; [|intros [= <- <- <-]; by left].
  destruct (VALID_PTR pF); simpl; [|intros [= <- <- <-]; by left].
  destruct (facmem !! pF) as [f|]; [|intros [= <- <- <-]; by left].
  destruct (VALID_PTR (fa_pfnQueryFactoryInterface f)); simpl; [|intros [= <- <- <-]; by left].
  destruct (RTStrEnd _ _) as [cch|] eqn:Ec; [|intros [= <- <- <-]; by left].
  destruct rA as [p|]; [|intros [= <- <- <-]; by left].
  destruct (RT_SUCCESS rcL) eqn:El.
  2:{ intros [= <- <- <-]. left. split; [done|]. intros ->. done. }
  destruct (find_split _ _) as [[[pre r] post]|] eqn:F; intros [= <- <- <-]; [by left|].
  right. apply find_split_None in F. split_and!; [done|done|done| |].
  - intros (r&->&Hr)%list_elem_of_fmap. rewrite Forall_forall in F. specialize (F r Hr).
    simpl in F. by rewrite Z.eqb_refl in F.
  - exists p, cch. split_and!; [done|done|done|done|by exists f].
Qed.

Lemma cleanup_factories_filter st s :
  supdrvCleanupSession_factories st s =
  (filter (λ r, fr_pSession r ≠ s) st,
   (λ r, EvMemFree (fr_self r)) <$> filter (λ r, fr_pSession r = s) st).
Proof.
  induction st as [|r st IH]; [done|]. cbn [supdrvCleanupSession_factories].
  rewrite IH. rewrite !filter_cons.
  destruct (Z.eqb_spec (fr_pSession r) s) as [E|E]; by repeat case_decide.
Qed.

Lemma fac_sublist_inv st st' : sublist st' st → fac_inv st → fac_inv st'.
Proof.
  intros Hs [H1 H2]. split; [eapply sublist_NoDup; [exact H1|]|eapply sublist_NoDup; [exact H2|]];
    by apply fmap_sublist.
Qed.

Lemma fac_step_inv st st' : fac_inv st → fac_step st st' → fac_inv st'.
Proof.
  intros Hinv Hstep. destruct Hstep as [st fm ses pF rA rcL Hfresh|st ses pF rcL|st s].
  - destruct (SUPR0ComponentRegisterFactory st fm ses pF rA rcL) as [[rc st'] ev] eqn:E. simpl.
    destruct (register_cases _ _ _ _ _ _ _ _ _ E) as [[-> _]|(_&_&_&Hn&p&cch&->&->&_)]; [done|].
    destruct Hinv as [H1 H2]. specialize (Hfresh p eq_refl). split; rewrite fmap_app, NoDup_app;
      (split; [done|]); (split; [|by apply NoDup_singleton]); intros x Hx ->%list_elem_of_singleton; done.
  - unfold SUPR0ComponentDeregisterFactory. repeat (destruct (negb _); [done|]).
    destruct (RT_SUCCESS rcL); [|done].
    destruct (find_split _ _) as [[[pre r] post]|] eqn:F; [|done]. simpl.
    apply find_split_Some in F as (->&_&_). eapply fac_sublist_inv; [|exact Hinv].
    apply sublist_app; [done|]. by apply sublist_cons.
  - rewrite cleanup_factories_filter. simpl. eapply fac_sublist_inv; [|exact Hinv].
    apply sublist_filter.
Qed.

(** * Properties *)

(** A factory that is registered is found until it is deregistered, and registering then
    deregistering restores the list exactly: the record allocated for it is the one that
    is freed, and the order of the other registrations is unchanged.  The registration
    order is the order of the list. *)
Lemma register_deregister_roundtrip st facmem ses pF rA rcL st' ev :
  fac_inv st → SUPR0ComponentRegisterFactory st facmem ses pF rA rcL = (VINF_SUCCESS, st', ev) →
  (∃ p cch, rA = Some p ∧ st' = st ++ [mkFactoryReg p pF (s_self ses) cch] ∧
     SUPR0ComponentDeregisterFactory st' ses pF VINF_SUCCESS
     = (VINF_SUCCESS, st, [EvMemFree p])) ∧
  ∀ rA' rcL', RT_SUCCESS rcL' = true → is_Some rA' →
    (SUPR0ComponentRegisterFactory st' facmem ses pF rA' rcL').1 = (VERR_ALREADY_EXISTS, st').
Proof.
  intros Hinv Hreg. pose proof Hreg as Hreg0.
  destruct (register_cases _ _ _ _ _ _ _ _ _ Hreg)
    as [[_ ?]|(_&_&Hk&Hn&p&cch&->&->&Hs&Hv&f&Hf&Hcch)]; [done|].
  set (r := mkFactoryReg p pF (s_self ses) cch).
  assert (find_split (λ r, fr_pFactory r =? pF) (st ++ [r]) = Some (st, r, [])) as F.
  { apply find_split_Some. split; [done|]. split; [apply Z.eqb_refl|].
    apply Forall_forall. intros x Hx. apply Z.eqb_neq. intros <-. apply Hn, list_elem_of_fmap. eauto. }
  split.
  - exists p, cch. split_and!; [done|done|]. unfold SUPR0ComponentDeregisterFactory.
    rewrite Hs, Hk, Z.eqb_refl, Hv; simpl. fold r. rewrite F. by rewrite app_nil_r.
  - intros rA' rcL' HrcL [p' ->]. unfold SUPR0ComponentRegisterFactory in *.
    rewrite Hs, Hk, Z.eqb_refl, Hv, Hf in *; simpl in *.
    destruct (VALID_PTR (fa_pfnQueryFactoryInterface f)); simpl in *; [|done].
    rewrite Hcch in *. rewrite HrcL. fold r. by rewrite F.
Qed.

(** [SUPR0ComponentQueryFactory] asks the factories of the given name in registration
    order and returns the first interface one of them offers; it fails with
    [VERR_SUPDRV_COMPONENT_NOT_FOUND] exactly when no factory has the name and with
    [VERR_SUPDRV_INTERFACE_NOT_SUPPORTED] when those that have it offer nothing.  The result
    pointer is cleared on both failures. *)
Lemma query_factory_spec callQuery st facmem ses szName uuid ppv cch :
  SUP_IS_SESSION_VALID ses = true → VALID_PTR ppv = true →
  RTStrEnd szName FACTORY_NAME_SIZE = Some cch → is_Some (RTStrEnd uuid RTUUID_STR_LENGTH) →
  let named := filter (λ r, factory_named facmem szName cch r = true) st in
  let offers := filter (λ p, p ≠ NULL) (factory_call callQuery facmem (s_self ses) uuid <$> named) in
  SUPR0ComponentQueryFactory callQuery st facmem ses (Some szName) (Some uuid) ppv VINF_SUCCESS =
  match offers with
  | pv :: _ => (VINF_SUCCESS, Some pv)
  | [] => (match named with [] => VERR_SUPDRV_COMPONENT_NOT_FOUND
                          | _ => VERR_SUPDRV_INTERFACE_NOT_SUPPORTED end, Some NULL)
  end.
Proof.
  intros Hs Hv Hn [u Hu] named offers. unfold SUPR0ComponentQueryFactory.
  rewrite Hs, Hn, Hu, Hv; simpl.
  assert (∀ rc, query_loop callQuery facmem (s_self ses) szName cch uuid st rc =
    match offers with
    | pv :: _ => (VINF_SUCCESS, pv)
    | [] => (match named with [] => rc | _ => VERR_SUPDRV_INTERFACE_NOT_SUPPORTED end, NULL)
    end) as Hloop.
  { unfold offers, named. clear offers named. induction st as [|r st IH]; intros rc; [done|].
    simpl. rewrite filter_cons. destruct (factory_named facmem szName cch r); case_decide; try done.
    simpl. rewrite filter_cons.
    destruct (Z.eqb_spec (factory_call callQuery facmem (s_self ses) uuid r) NULL) as [E|E];
      case_decide; simpl; try done. rewrite IH.
    destruct (filter (λ p, p ≠ NULL) _); [|done]. by destruct (filter _ st). }
  rewrite Hloop. by destruct offers.
Qed.

(** The list of factories is well formed in every reachable state (no factory registered
    twice, no record linked twice), and cleaning up a session removes exactly the
    registrations it made, keeps the others in order, and frees each removed record
    once. *)
Lemma factories_invariant st :
  rtc fac_step [] st →
  fac_inv st ∧
  ∀ s, supdrvCleanupSession_factories st s =
       (filter (λ r, fr_pSession r ≠ s) st,
        (λ r, EvMemFree (fr_self r)) <$> filter (λ r, fr_pSession r = s) st) ∧
       NoDup (supdrvCleanupSession_factories st s).2.
Proof.
  intros Hst.
  assert (fac_inv st) as Hinv.
  { assert (∀ a b, rtc fac_step a b → fac_inv a → fac_inv b) as H.
    { induction 1; eauto using fac_step_inv. }
    apply (H [] st Hst). split; constructor. }
  split; [done|]. intros s. rewrite cleanup_factories_filter. split; [done|]. simpl.
  destruct Hinv as [_ Hnd].
  assert (NoDup (EvMemFree <$> (fr_self <$> filter (λ r, fr_pSession r = s) st))) as H.
  { apply NoDup_fmap_2; [intros ?? [= ->]; done|]. eapply sublist_NoDup; [exact Hnd|].
    apply fmap_sublist, sublist_filter. }
  by rewrite <- list_fmap_compose in H.
Qed.

(** * Witnesses *)

Lemma register_deregister_roundtrip_witness :
  SUPR0ComponentDeregisterFactory demo_fac demo_kernel 0xffff880000200000 VINF_SUCCESS
  = (VINF_SUCCESS, [], [EvMemFree 0x60000]).
Proof.
  destruct (register_deregister_roundtrip [] demo_facmem demo_kernel 0xffff880000200000
              (Some 0x60000) VINF_SUCCESS demo_fac []) as [(p&cch&[= <-]&_&H) _];
    [split; constructor|vm_compute; reflexivity|exact H].
Defined.

Lemma query_factory_spec_witness :
  SUPR0ComponentQueryFactory (λ _ _ _ _, 0xffff880000202000) demo_fac demo_facmem demo_kernel
    (Some [78; 101; 116; 0]) (Some [0]) 0xffff880000300000 VINF_SUCCESS
  = (VINF_SUCCESS, Some 0xffff880000202000).
Proof.
  rewrite (query_factory_spec (λ _ _ _ _, 0xffff880000202000) demo_fac demo_facmem demo_kernel
             [78; 101; 116; 0] [0] 0xffff880000300000 3 eq_refl eq_refl eq_refl
             ltac:(by eexists)).
  vm_compute. reflexivity.
Defined.

Lemma factories_invariant_witness : rtc fac_step [] demo_fac ∧ fac_inv demo_fac.
Proof.
  assert (rtc fac_step [] demo_fac) as H.
  { eapply rtc_l; [|apply rtc_refl]. apply (fstep_register [] demo_facmem demo_kernel).
    intros p _. apply not_elem_of_nil. }
  split; [exact H|]. exact (proj1 (factories_invariant demo_fac H)).
Defined.
