(* ===== verification/GipPage.v ===== *)
(** The global info page (GIP): its data and everything that writes it.

    [SUPGLOBALINFOPAGE] and [SUPGIPCPU] (VBox/sup.h); [supdrvGipDoUpdateCpu],
    [supdrvGipUpdate], [supdrvGipUpdatePerCpu], the CPU table operations
    [supdrvGipCpuIndexFromCpuId], [supdrvGipMpEventOnline], [supdrvGipMpEventOffline],
    [supdrvGipInit], [supdrvGipTerm], [supdrvGipReInitCpu], and the decision on the TSC
    mode, [supdrvDetermineAsyncTsc] and [supdrvGipDeterminTscMode].

    The page is mapped read-only into other processes, which read it while it is being
    updated.  The updating code is therefore written in a monad that keeps the state
    after every single store, in order ([stores]); what a reader can see is one of these
    states.  A pointer to an entry of [aCPUs] is its index. *)

From S2P Require Import Prelude SupTypes.
Local Open Scope Z_scope.
Local Open Scope sup_scope.

(** * Data *)

Definition SUPGIPCPUSTATE_INVALID : Z := 0.
Definition SUPGIPCPUSTATE_OFFLINE : Z := 2.
Definition SUPGIPCPUSTATE_ONLINE : Z := 3.

Definition SUPGIPMODE_SYNC_TSC : Z := 1.
Definition SUPGIPMODE_ASYNC_TSC : Z := 2.

Definition SUPGLOBALINFOPAGE_MAGIC : Z := 0x19590106.
Definition SUPGLOBALINFOPAGE_VERSION : Z := 0x00030000.
Definition GIP_UPDATEHZ_RECALC_FREQ : Z := 0x800.
Definition RTCPUSET_MAX_CPUS : Z := 256.
Definition UINT16_MAX : Z := 0xffff.
Definition UINT64_MAX : Z := 2 ^ 64 - 1.

Record SUPGIPCPU := mkGipCpu {
  gc_u32TransactionId : Z;
  gc_u32UpdateIntervalTSC : Z;
  gc_u64NanoTS : Z;
  gc_u64TSC : Z;
  gc_u64CpuHz : Z;
  gc_cErrors : Z;
  gc_iTSCHistoryHead : Z;
  gc_au32TSCHistory : list Z;          (* 8 entries *)
  gc_u32PrevUpdateIntervalNS : Z;
  gc_enmState : Z;
  gc_idCpu : Z;
  gc_iCpuSet : Z;                      (* int16_t *)
  gc_idApic : Z;                       (* uint16_t *)
}.

(** The CPU sets are 256-bit maps. [aCPUs] has the [cCpus] entries [supdrvGipCreate]
    allocates. *)
Record SUPGLOBALINFOPAGE := mkGip {
  g_u32Magic : Z;
  g_u32Version : Z;
  g_u32Mode : Z;
  g_cCpus : Z;
  g_cPages : Z;
  g_u32UpdateHz : Z;
  g_u32UpdateIntervalNS : Z;
  g_u64NanoTSLastUpdateHz : Z;
  g_OnlineCpuSet : Z;
  g_PresentCpuSet : Z;
  g_PossibleCpuSet : Z;
  g_cOnlineCpus : Z;
  g_cPresentCpus : Z;
  g_cPossibleCpus : Z;
  g_idCpuMax : Z;
  g_aiCpuFromApicId : list Z;          (* 256 entries *)
  g_aiCpuFromCpuSetIdx : list Z;       (* RTCPUSET_MAX_CPUS entries *)
  g_aCPUs : list SUPGIPCPU;
}.

(** Stores to single members. *)
Definition st_TransactionId v c := mkGipCpu v (gc_u32UpdateIntervalTSC c) (gc_u64NanoTS c) (gc_u64TSC c) (gc_u64CpuHz c) (gc_cErrors c) (gc_iTSCHistoryHead c) (gc_au32TSCHistory c) (gc_u32PrevUpdateIntervalNS c) (gc_enmState c) (gc_idCpu c) (gc_iCpuSet c) (gc_idApic c).
Definition st_UpdateIntervalTSC v c := mkGipCpu (gc_u32TransactionId c) v (gc_u64NanoTS c) (gc_u64TSC c) (gc_u64CpuHz c) (gc_cErrors c) (gc_iTSCHistoryHead c) (gc_au32TSCHistory c) (gc_u32PrevUpdateIntervalNS c) (gc_enmState c) (gc_idCpu c) (gc_iCpuSet c) (gc_idApic c).
Definition st_NanoTS v c := mkGipCpu (gc_u32TransactionId c) (gc_u32UpdateIntervalTSC c) v (gc_u64TSC c) (gc_u64CpuHz c) (gc_cErrors c) (gc_iTSCHistoryHead c) (gc_au32TSCHistory c) (gc_u32PrevUpdateIntervalNS c) (gc_enmState c) (gc_idCpu c) (gc_iCpuSet c) (gc_idApic c).
Definition st_TSC v c := mkGipCpu (gc_u32TransactionId c) (gc_u32UpdateIntervalTSC c) (gc_u64NanoTS c) v (gc_u64CpuHz c) (gc_cErrors c) (gc_iTSCHistoryHead c) (gc_au32TSCHistory c) (gc_u32PrevUpdateIntervalNS c) (gc_enmState c) (gc_idCpu c) (gc_iCpuSet c) (gc_idApic c).
Definition st_CpuHz v c := mkGipCpu (gc_u32TransactionId c) (gc_u32UpdateIntervalTSC c) (gc_u64NanoTS c) (gc_u64TSC c) v (gc_cErrors c) (gc_iTSCHistoryHead c) (gc_au32TSCHistory c) (gc_u32PrevUpdateIntervalNS c) (gc_enmState c) (gc_idCpu c) (gc_iCpuSet c) (gc_idApic c).
Definition st_cErrors v c := mkGipCpu (gc_u32TransactionId c) (gc_u32UpdateIntervalTSC c) (gc_u64NanoTS c) (gc_u64TSC c) (gc_u64CpuHz c) v (gc_iTSCHistoryHead c) (gc_au32TSCHistory c) (gc_u32PrevUpdateIntervalNS c) (gc_enmState c) (gc_idCpu c) (gc_iCpuSet c) (gc_idApic c).
Definition st_TSCHistoryHead v c := mkGipCpu (gc_u32TransactionId c) (gc_u32UpdateIntervalTSC c) (gc_u64NanoTS c) (gc_u64TSC c) (gc_u64CpuHz c) (gc_cErrors c) v (gc_au32TSCHistory c) (gc_u32PrevUpdateIntervalNS c) (gc_enmState c) (gc_idCpu c) (gc_iCpuSet c) (gc_idApic c).
Definition st_TSCHistory v c := mkGipCpu (gc_u32TransactionId c) (gc_u32UpdateIntervalTSC c) (gc_u64NanoTS c) (gc_u64TSC c) (gc_u64CpuHz c) (gc_cErrors c) (gc_iTSCHistoryHead c) v (gc_u32PrevUpdateIntervalNS c) (gc_enmState c) (gc_idCpu c) (gc_iCpuSet c) (gc_idApic c).
Definition st_PrevUpdateIntervalNS v c := mkGipCpu (gc_u32TransactionId c) (gc_u32UpdateIntervalTSC c) (gc_u64NanoTS c) (gc_u64TSC c) (gc_u64CpuHz c) (gc_cErrors c) (gc_iTSCHistoryHead c) (gc_au32TSCHistory c) v (gc_enmState c) (gc_idCpu c) (gc_iCpuSet c) (gc_idApic c).
Definition st_enmState v c := mkGipCpu (gc_u32TransactionId c) (gc_u32UpdateIntervalTSC c) (gc_u64NanoTS c) (gc_u64TSC c) (gc_u64CpuHz c) (gc_cErrors c) (gc_iTSCHistoryHead c) (gc_au32TSCHistory c) (gc_u32PrevUpdateIntervalNS c) v (gc_idCpu c) (gc_iCpuSet c) (gc_idApic c).
Definition st_idCpu v c := mkGipCpu (gc_u32TransactionId c) (gc_u32UpdateIntervalTSC c) (gc_u64NanoTS c) (gc_u64TSC c) (gc_u64CpuHz c) (gc_cErrors c) (gc_iTSCHistoryHead c) (gc_au32TSCHistory c) (gc_u32PrevUpdateIntervalNS c) (gc_enmState c) v (gc_iCpuSet c) (gc_idApic c).
Definition st_iCpuSet v c := mkGipCpu (gc_u32TransactionId c) (gc_u32UpdateIntervalTSC c) (gc_u64NanoTS c) (gc_u64TSC c) (gc_u64CpuHz c) (gc_cErrors c) (gc_iTSCHistoryHead c) (gc_au32TSCHistory c) (gc_u32PrevUpdateIntervalNS c) (gc_enmState c) (gc_idCpu c) v (gc_idApic c).
Definition st_idApic v c := mkGipCpu (gc_u32TransactionId c) (gc_u32UpdateIntervalTSC c) (gc_u64NanoTS c) (gc_u64TSC c) (gc_u64CpuHz c) (gc_cErrors c) (gc_iTSCHistoryHead c) (gc_au32TSCHistory c) (gc_u32PrevUpdateIntervalNS c) (gc_enmState c) (gc_idCpu c) (gc_iCpuSet c) v.

(** Stores to the page: [mode hz ns last online present possible cOn cPres apic set cpus]. *)
Definition gip_with (g : SUPGLOBALINFOPAGE) (mode hz ns last online present cOn cPres : Z)
    (apic set : list Z) (cpus : list SUPGIPCPU) : SUPGLOBALINFOPAGE :=
  mkGip (g_u32Magic g) (g_u32Version g) mode (g_cCpus g) (g_cPages g) hz ns last online present
    (g_PossibleCpuSet g) cOn cPres (g_cPossibleCpus g) (g_idCpuMax g) apic set cpus.

Definition sg_Mode v g := gip_with g v (g_u32UpdateHz g) (g_u32UpdateIntervalNS g) (g_u64NanoTSLastUpdateHz g) (g_OnlineCpuSet g) (g_PresentCpuSet g) (g_cOnlineCpus g) (g_cPresentCpus g) (g_aiCpuFromApicId g) (g_aiCpuFromCpuSetIdx g) (g_aCPUs g).
Definition sg_UpdateHz v g := gip_with g (g_u32Mode g) v (g_u32UpdateIntervalNS g) (g_u64NanoTSLastUpdateHz g) (g_OnlineCpuSet g) (g_PresentCpuSet g) (g_cOnlineCpus g) (g_cPresentCpus g) (g_aiCpuFromApicId g) (g_aiCpuFromCpuSetIdx g) (g_aCPUs g).
Definition sg_UpdateIntervalNS v g := gip_with g (g_u32Mode g) (g_u32UpdateHz g) v (g_u64NanoTSLastUpdateHz g) (g_OnlineCpuSet g) (g_PresentCpuSet g) (g_cOnlineCpus g) (g_cPresentCpus g) (g_aiCpuFromApicId g) (g_aiCpuFromCpuSetIdx g) (g_aCPUs g).
Definition sg_NanoTSLastUpdateHz v g := gip_with g (g_u32Mode g) (g_u32UpdateHz g) (g_u32UpdateIntervalNS g) v (g_OnlineCpuSet g) (g_PresentCpuSet g) (g_cOnlineCpus g) (g_cPresentCpus g) (g_aiCpuFromApicId g) (g_aiCpuFromCpuSetIdx g) (g_aCPUs g).
Definition sg_OnlineCpuSet v g := gip_with g (g_u32Mode g) (g_u32UpdateHz g) (g_u32UpdateIntervalNS g) (g_u64NanoTSLastUpdateHz g) v (g_PresentCpuSet g) (g_cOnlineCpus g) (g_cPresentCpus g) (g_aiCpuFromApicId g) (g_aiCpuFromCpuSetIdx g) (g_aCPUs g).
Definition sg_PresentCpuSet v g := gip_with g (g_u32Mode g) (g_u32UpdateHz g) (g_u32UpdateIntervalNS g) (g_u64NanoTSLastUpdateHz g) (g_OnlineCpuSet g) v (g_cOnlineCpus g) (g_cPresentCpus g) (g_aiCpuFromApicId g) (g_aiCpuFromCpuSetIdx g) (g_aCPUs g).
Definition sg_cOnlineCpus v g := gip_with g (g_u32Mode g) (g_u32UpdateHz g) (g_u32UpdateIntervalNS g) (g_u64NanoTSLastUpdateHz g) (g_OnlineCpuSet g) (g_PresentCpuSet g) v (g_cPresentCpus g) (g_aiCpuFromApicId g) (g_aiCpuFromCpuSetIdx g) (g_aCPUs g).
Definition sg_cPresentCpus v g := gip_with g (g_u32Mode g) (g_u32UpdateHz g) (g_u32UpdateIntervalNS g) (g_u64NanoTSLastUpdateHz g) (g_OnlineCpuSet g) (g_PresentCpuSet g) (g_cOnlineCpus g) v (g_aiCpuFromApicId g) (g_aiCpuFromCpuSetIdx g) (g_aCPUs g).
Definition sg_aiCpuFromApicId v g := gip_with g (g_u32Mode g) (g_u32UpdateHz g) (g_u32UpdateIntervalNS g) (g_u64NanoTSLastUpdateHz g) (g_OnlineCpuSet g) (g_PresentCpuSet g) (g_cOnlineCpus g) (g_cPresentCpus g) v (g_aiCpuFromCpuSetIdx g) (g_aCPUs g).
Definition sg_aiCpuFromCpuSetIdx v g := gip_with g (g_u32Mode g) (g_u32UpdateHz g) (g_u32UpdateIntervalNS g) (g_u64NanoTSLastUpdateHz g) (g_OnlineCpuSet g) (g_PresentCpuSet g) (g_cOnlineCpus g) (g_cPresentCpus g) (g_aiCpuFromApicId g) v (g_aCPUs g).
Definition sg_aCPUs v g := gip_with g (g_u32Mode g) (g_u32UpdateHz g) (g_u32UpdateIntervalNS g) (g_u64NanoTSLastUpdateHz g) (g_OnlineCpuSet g) (g_PresentCpuSet g) (g_cOnlineCpus g) (g_cPresentCpus g) (g_aiCpuFromApicId g) (g_aiCpuFromCpuSetIdx g) v.

(** * Stores *)

(** A computation over the state [S] that performs [stores]: its result, the state in the
    end, and the state after each store. *)
Definition stores (S A : Type) : Type := S → A * S * list S.

Definition sret {S A} (a : A) : stores S A := λ s, (a, s, []).

Definition sbind {S A B} (m : stores S A) (k : A → stores S B) : stores S B := λ s,
  let '(a, s1, l1) := m s in let '(b, s2, l2) := k a s1 in (b, s2, l1 ++ l2).

Definition load {S A} (f : S → A) : stores S A := λ s, (f s, s, []).

Definition store {S} (f : S → S) : stores S unit := λ s, (tt, f s, [f s]).

Notation "x ←s m ;; k" := (sbind m (λ x, k)) (at level 100, m at next level, right associativity) : sup_scope.
Notation "m ;;; k" := (sbind m (λ _, k)) (at level 100, right associativity) : sup_scope.

(** A computation on the entry [iCpu] of the table, as one on the page. *)
Definition onCpu (iCpu : Z) (m : stores SUPGIPCPU unit) : stores SUPGLOBALINFOPAGE unit := λ g,
  match g_aCPUs g !! Z.to_nat iCpu with
  | Some c =>
      let upd c' := sg_aCPUs (<[Z.to_nat iCpu := c']> (g_aCPUs g)) g in
      let '(_, c', l) := m c in (tt, upd c', upd <$> l)
  | None => (tt, g, [])
  end.

Definition run_state {S A} (m : stores S A) (s : S) : S := snd (fst (m s)).
Definition run_seen {S A} (m : stores S A) (s : S) : list S := snd (m s).

(** Lookups. [iCpu < cCpus] has been tested before [aCPUs] is indexed. *)
Definition gipcpu_zero : SUPGIPCPU := mkGipCpu 0 0 0 0 0 0 0 (replicate 8 0) 0 0 0 0 0.
Definition cpu_at (g : SUPGLOBALINFOPAGE) (iCpu : Z) : SUPGIPCPU :=
  default gipcpu_zero (g_aCPUs g !! Z.to_nat iCpu).
Definition apic_idx (g : SUPGLOBALINFOPAGE) (idApic : Z) : Z :=
  default UINT16_MAX (g_aiCpuFromApicId g !! Z.to_nat idApic).
Definition hist (c : SUPGIPCPU) (i : Z) : Z := default 0 (gc_au32TSCHistory c !! Z.to_nat i).

(** * Updating *)

Definition inc_TransactionId : stores SUPGIPCPU unit :=
  store (λ c, st_TransactionId (u32 (gc_u32TransactionId c + 1)) c).
Definition inc_cErrors : stores SUPGIPCPU unit :=
  store (λ c, st_cErrors (u32 (gc_cErrors c + 1)) c).
Definition set_hist (i v : Z) : stores SUPGIPCPU unit :=
  store (λ c, st_TSCHistory (<[Z.to_nat i := v]> (gc_au32TSCHistory c)) c).

(** The reset of the history: a store per entry. *)
Fixpoint reset_hist (n : nat) (v : Z) : stores SUPGIPCPU unit :=
  match n with
  | O => sret tt
  | S n => reset_hist n v ;;; set_hist (Z.of_nat n) v
  end.

(** [UpdateIntervalTSC] and its slack, from the history, its head and the last delta. *)
Definition tsc_interval (u32UpdateHz iHead u64TSCDelta : Z) (c : SUPGIPCPU) : Z * Z :=
  if 1000 <=? u32UpdateHz then
    let a := Z.shiftr (u32 (hist c 0 + hist c 1 + hist c 2 + hist c 3)) 2 in
    let i := Z.shiftr (u32 (hist c 4 + hist c 5 + hist c 6 + hist c 7)) 2 in
    let i := Z.shiftr (u32 (i + a)) 1 in
    (i, Z.shiftr i 14)
  else if 90 <=? u32UpdateHz then
    let i := Z.shiftr (u32 (u64TSCDelta + hist c (Z.land (iHead - 1) 7))) 1 in
    (i, Z.shiftr i 7)
  else
    let i := u32 u64TSCDelta in
    (i, Z.shiftr i 6).

(** [u32UpdateHz] is the page's, which only [supdrvGipUpdate] writes, before the call. *)
Definition supdrvGipDoUpdateCpu (u32UpdateHz u64NanoTS u64TSC iTick : Z)
    : stores SUPGIPCPU unit :=
  store (λ c, st_PrevUpdateIntervalNS (u32 (u64NanoTS - gc_u64NanoTS c)) c) ;;;
  store (st_NanoTS u64NanoTS) ;;;
  u64TSCDelta ←s load (λ c, u64 (u64TSC - gc_u64TSC c)) ;;
  store (st_TSC u64TSC) ;;;
  u64TSCDelta ←s
    (if negb (Z.shiftr u64TSCDelta 32 =? 0) then
       d ←s load gc_u32UpdateIntervalTSC ;; inc_cErrors ;;; sret d
     else sret u64TSCDelta) ;;
  u32TransactionId ←s load gc_u32TransactionId ;;
  (if ((u32TransactionId =? 5) || (u32TransactionId =? 7)) && ((iTick =? 2) || (iTick =? 3))
   then reset_hist 8 (u32 u64TSCDelta)
   else sret tt) ;;;
  iHead ←s load (λ c, Z.land (u32 (gc_iTSCHistoryHead c + 1)) 7) ;;
  store (st_TSCHistoryHead iHead) ;;;
  set_hist iHead (u32 u64TSCDelta) ;;;
  iv ←s load (tsc_interval u32UpdateHz iHead u64TSCDelta) ;;
  store (st_UpdateIntervalTSC (u32 (fst iv + snd iv))) ;;;
  store (st_CpuHz (u64 (fst iv * u32UpdateHz))).

(** The recalculation of the update frequency.  A [u64Delta] of zero would be a division
    fault in the code; here it leaves the frequency alone. *)
Definition recalc_UpdateHz (u64NanoTS : Z) : stores SUPGLOBALINFOPAGE unit :=
  last ←s load g_u64NanoTSLastUpdateHz ;;
  (if negb (last =? 0) then
     let u64Delta := u64 (u64NanoTS - last) in
     let u32UpdateHz := u32 (1000000000 * GIP_UPDATEHZ_RECALC_FREQ / u64Delta) in
     if (u32UpdateHz <=? 2000) && (30 <=? u32UpdateHz) then
       store (sg_UpdateHz u32UpdateHz) ;;;
       store (sg_UpdateIntervalNS (1000000000 / u32UpdateHz))
     else sret tt
   else sret tt) ;;;
  store (sg_NanoTSLastUpdateHz u64NanoTS).

(** The transaction both update functions perform on their entry; [pre] is what
    [supdrvGipUpdate] does first. *)
Definition update_transaction (iCpu u64NanoTS u64TSC iTick : Z)
    (pre : Z → stores SUPGLOBALINFOPAGE unit) : stores SUPGLOBALINFOPAGE unit :=
  onCpu iCpu inc_TransactionId ;;;
  u32TransactionId ←s load (λ g, gc_u32TransactionId (cpu_at g iCpu)) ;;
  if negb (u32TransactionId #& 1) then
    onCpu iCpu inc_TransactionId ;;; onCpu iCpu inc_cErrors
  else
    pre u32TransactionId ;;;
    u32UpdateHz ←s load g_u32UpdateHz ;;
    onCpu iCpu (supdrvGipDoUpdateCpu u32UpdateHz u64NanoTS u64TSC iTick) ;;;
    onCpu iCpu inc_TransactionId.

(** [idApic] is [ASMGetApicId()]. *)
Definition supdrvGipUpdate (u64NanoTS u64TSC idCpu idApic iTick : Z)
    : stores SUPGLOBALINFOPAGE unit :=
  pGip ←s load id ;;
  let recalc u32TransactionId :=
    if negb (u32TransactionId #& (GIP_UPDATEHZ_RECALC_FREQ * 2 - 2))
    then recalc_UpdateHz u64NanoTS else sret tt in
  if negb (g_u32Mode pGip =? SUPGIPMODE_ASYNC_TSC) then
    update_transaction 0 u64NanoTS u64TSC iTick recalc
  else
    let iCpu := apic_idx pGip idApic in
    if g_cCpus pGip <=? iCpu then sret tt
    else if negb (gc_idCpu (cpu_at pGip iCpu) =? idCpu) then sret tt
    else update_transaction iCpu u64NanoTS u64TSC iTick recalc.

(** * The CPU table *)

(** What the CPU executing an operation finds out about the system: [RTMpGetPresentCount],
    [RTMpGetOnlineCount], [RTMpCpuIdToSetIndex(idCpu)] and [ASMGetApicId]. *)
Record MpEnv := mkMpEnv {
  mp_cPresent : Z;
  mp_cOnline : Z;
  mp_iCpuSet : Z;
  mp_idApic : Z;
}.

(** The first entry from [i] on that satisfies [f]. *)
Fixpoint cpu_find (f : SUPGIPCPU → bool) (l : list SUPGIPCPU) (i : Z) : option Z :=
  match l with
  | [] => None
  | c :: l => if f c then Some i else cpu_find f l (i + 1)
  end.

(** The compare-and-exchange loop over the table, tried [cTries] times. *)
Fixpoint claim_tries (cTries : nat) (idCpu : Z) : stores SUPGLOBALINFOPAGE (option Z) :=
  match cTries with
  | O => sret None
  | S cTries =>
      r ←s load (λ g, cpu_find (λ c, gc_idCpu c =? NIL_RTCPUID) (g_aCPUs g) 0) ;;
      match r with
      | Some i => onCpu i (store (st_idCpu idCpu)) ;;; sret (Some i)
      | None => claim_tries cTries idCpu
      end
  end.

(** After [AssertReleaseFailed] the last index is returned. *)
Definition supdrvGipCpuIndexFromCpuId (idCpu : Z) : stores SUPGLOBALINFOPAGE Z :=
  r ←s load (λ g, cpu_find (λ c, gc_idCpu c =? idCpu) (g_aCPUs g) 0) ;;
  match r with
  | Some i => sret i
  | None =>
      r ←s claim_tries 33 idCpu ;;
      match r with
      | Some i => sret i
      | None => load (λ g, u32 (g_cCpus g - 1))
      end
  end.

(** [aiCpuFromCpuSetIdx[iCpuSet] = i].  The array follows [aiCpuFromApicId]: a negative
    index stores into the end of that one. *)
Definition set_CpuSetIdx (iCpuSet i : Z) (g : SUPGLOBALINFOPAGE) : SUPGLOBALINFOPAGE :=
  if 0 <=? iCpuSet
  then sg_aiCpuFromCpuSetIdx (<[Z.to_nat iCpuSet := i]> (g_aiCpuFromCpuSetIdx g)) g
  else sg_aiCpuFromApicId (<[Z.to_nat (256 + iCpuSet) := i]> (g_aiCpuFromApicId g)) g.

(** [RTCpuSetAddByIndex], [RTCpuSetDelByIndex] *)
Definition RTCpuSetAddByIndex (s i : Z) : Z :=
  if (i <? 0) || (RTCPUSET_MAX_CPUS <=? i) then s else Z.setbit s i.
Definition RTCpuSetDelByIndex (s i : Z) : Z :=
  if (i <? 0) || (RTCPUSET_MAX_CPUS <=? i) then s else Z.clearbit s i.

(** The calling CPU is [idCpu] (a release assertion). *)
Definition supdrvGipMpEventOnline (env : MpEnv) (idCpu : Z) : stores SUPGLOBALINFOPAGE unit :=
  let iCpuSet := mp_iCpuSet env in
  let idApic := mp_idApic env in
  store (sg_cPresentCpus (u16 (mp_cPresent env))) ;;;
  store (sg_cOnlineCpus (u16 (mp_cOnline env))) ;;;
  (if 0 <=? iCpuSet then
     store (λ g, sg_OnlineCpuSet (RTCpuSetAddByIndex (g_OnlineCpuSet g) iCpuSet) g) ;;;
     store (λ g, sg_PresentCpuSet (RTCpuSetAddByIndex (g_PresentCpuSet g) iCpuSet) g)
   else sret tt) ;;;
  i ←s supdrvGipCpuIndexFromCpuId idCpu ;;
  onCpu i (store (st_idApic idApic)) ;;;
  onCpu i (store (st_iCpuSet iCpuSet)) ;;;
  onCpu i (store (st_idCpu idCpu)) ;;;
  store (λ g, sg_aiCpuFromApicId (<[Z.to_nat idApic := u16 i]> (g_aiCpuFromApicId g)) g) ;;;
  store (set_CpuSetIdx iCpuSet (u16 i)) ;;;
  onCpu i (store (st_enmState SUPGIPCPUSTATE_ONLINE)).

(** [iCpuSet] is [RTMpCpuIdToSetIndex(idCpu)]. *)
Definition supdrvGipMpEventOffline (iCpuSet idCpu : Z) : stores SUPGLOBALINFOPAGE unit :=
  if iCpuSet <? 0 then sret tt
  else
    pGip ←s load id ;;
    let i := default UINT16_MAX (g_aiCpuFromCpuSetIdx pGip !! Z.to_nat iCpuSet) in
    if g_cCpus pGip <=? i then sret tt
    else if negb (gc_idCpu (cpu_at pGip i) =? idCpu) then sret tt
    else
      store (λ g, sg_OnlineCpuSet (RTCpuSetDelByIndex (g_OnlineCpuSet g) iCpuSet) g) ;;;
      onCpu i (store (st_enmState SUPGIPCPUSTATE_OFFLINE)).

(** [env] is only consulted when the first tick finds the CPU offline. *)
Definition supdrvGipUpdatePerCpu (u64NanoTS u64TSC idCpu idApic iTick : Z) (env : MpEnv)
    : stores SUPGLOBALINFOPAGE unit :=
  (if iTick =? 1 then
     iCpu ←s supdrvGipCpuIndexFromCpuId idCpu ;;
     enmState ←s load (λ g, gc_enmState (cpu_at g iCpu)) ;;
     if enmState =? SUPGIPCPUSTATE_OFFLINE then supdrvGipMpEventOnline env idCpu else sret tt
   else sret tt) ;;;
  pGip ←s load id ;;
  let iCpu := apic_idx pGip idApic in
  if iCpu <? g_cCpus pGip then
    if gc_idCpu (cpu_at pGip iCpu) =? idCpu
    then update_transaction iCpu u64NanoTS u64TSC iTick (λ _, sret tt)
    else sret tt
  else sret tt.

(** * The TSC mode *)

(** What [supdrvDetermineAsyncTsc] carries through its loops. *)
Record AsyncTsc := mkAsync {
  at_PrevTsc : Z;
  at_offMin : Z;
  at_offMax : Z;
  at_fAsync : bool;
}.

(** What is stored in [*pvUser1]; [rdTsc] is [ASMReadTSC()] on that CPU. *)
Definition supdrvDetermineAsyncTscWorker (rdTsc : Z) : Z := rdTsc.

Section async.
(** [RTMpOnSpecific] on the CPU of that set index, in the round with that value of
    [cLoops]: its status and the time stamp counter the worker reads there. *)
Context (onSpecific : Z → Z → Z * Z).

(** The inner loop, from [iCpu] over the remaining [n] CPUs: the state, and whether it was
    left by a [break]. *)
Fixpoint async_round (n : nat) (cLoops iCpu : Z) (s : AsyncTsc) : AsyncTsc * bool :=
  match n with
  | O => (s, false)
  | S n =>
      let '(rc, tsc) := onSpecific cLoops iCpu in
      if RT_SUCCESS rc then
        let CurTsc := supdrvDetermineAsyncTscWorker tsc in
        if CurTsc <=? at_PrevTsc s then
          let off := at_PrevTsc s - CurTsc in
          (mkAsync (at_PrevTsc s) off off true, true)
        else
          let s :=
            if negb (iCpu =? 0) || negb (cLoops =? 7) then
              let off := CurTsc - at_PrevTsc s in
              mkAsync (at_PrevTsc s)
                (if off <? at_offMin s then off else at_offMin s)
                (if at_offMax s <? off then off else at_offMax s) (at_fAsync s)
            else s in
          async_round n cLoops (iCpu + 1)
            (mkAsync CurTsc (at_offMin s) (at_offMax s) (at_fAsync s))
      else if rc =? VERR_NOT_SUPPORTED then (s, true)
      else async_round n cLoops (iCpu + 1) s
  end.

(** The outer loop: [cLoops] is what is left, the rounds count down from [cLoops - 1]. *)
Fixpoint async_loop (cLoops : nat) (iEndCpu : nat) (s : AsyncTsc) : AsyncTsc :=
  match cLoops with
  | O => s
  | S cLoops =>
      let '(s, fBreak) := async_round iEndCpu (Z.of_nat cLoops) 0 s in
      if fBreak : bool then s else async_loop cLoops iEndCpu s
  end.

(** The result and [*poffMin]; [rdTsc] is the calling CPU's counter at the start. *)
Definition supdrvDetermineAsyncTsc (cArraySize : nat) (rdTsc : Z) : bool * Z :=
  let s := async_loop 8 cArraySize (mkAsync rdTsc UINT64_MAX 0 false) in
  (at_fAsync s, at_offMin s).
End async.

(** "AuthenticAMD" *)
Definition X86_CPUID_VENDOR_AMD_EBX : Z := 0x68747541.
Definition X86_CPUID_VENDOR_AMD_ECX : Z := 0x444d4163.
Definition X86_CPUID_VENDOR_AMD_EDX : Z := 0x69746e65.

(** [cpuid leaf] is EAX, EBX, ECX, EDX.  [fForced] is [supdrvOSGetForcedAsyncTscMode] and
    [fAsync] what [supdrvDetermineAsyncTsc] returns. *)
Definition supdrvGipDeterminTscMode (cMpCount : Z) (fForced fAsync : bool)
    (cpuid : Z → Z * Z * Z * Z) : Z :=
  if 1 <? cMpCount then
    if fForced then SUPGIPMODE_ASYNC_TSC
    else if fAsync then SUPGIPMODE_ASYNC_TSC
    else
      let '(uEAX, uEBX, uECX, uEDX) := cpuid 0 in
      if (1 <=? uEAX) && (uEBX =? X86_CPUID_VENDOR_AMD_EBX)
         && (uECX =? X86_CPUID_VENDOR_AMD_ECX) && (uEDX =? X86_CPUID_VENDOR_AMD_EDX)
      then
        let '(uEAX, _, _, _) := cpuid 0x80000000 in
        if 0x80000007 <=? uEAX then
          let '(_, _, _, uEDX) := cpuid 0x80000007 in
          if negb (uEDX #& RT_BIT 8) && (uEDX #& 0x3e) then SUPGIPMODE_ASYNC_TSC
          else SUPGIPMODE_SYNC_TSC
        else SUPGIPMODE_SYNC_TSC
      else SUPGIPMODE_SYNC_TSC
  else SUPGIPMODE_SYNC_TSC.

(** * Initialisation and termination *)

(** [RT_OFFSETOF(SUPGLOBALINFOPAGE, aCPUs[cCpus])] *)
Definition gip_size (cCpus : Z) : Z := 1280 + 128 * cCpus.

(** What [supdrvGipInit] asks the system. [mi_tsc] are the counter values read. *)
Record MpInfo := mkMpInfo {
  mi_u32Mode : Z;                (* supdrvGipDeterminTscMode *)
  mi_PossibleCpuSet : Z;         (* RTMpGetSet *)
  mi_cOnline : Z;
  mi_cPresent : Z;
  mi_cCount : Z;
  mi_idCpuMax : Z;
  mi_tsc : Z → Z;
}.

Definition gipcpu_init (u64NanoTS uUpdateHz tsc : Z) : SUPGIPCPU :=
  let iv := u32 (2 ^ 32 / uUpdateHz) in
  mkGipCpu 2 iv u64NanoTS tsc (2 ^ 32 + 1) 0 0 (replicate 8 iv) 0
    SUPGIPCPUSTATE_INVALID NIL_RTCPUID (-1) UINT16_MAX.

(** The page; linking it to the device extension is part of Gip. *)
Definition supdrvGipInit (mi : MpInfo) (u64NanoTS uUpdateHz cCpus : Z) : SUPGLOBALINFOPAGE :=
  let cbGip := Z.shiftl (Z.shiftr (gip_size cCpus + (PAGE_SIZE - 1)) PAGE_SHIFT) PAGE_SHIFT in
  {| g_u32Magic := SUPGLOBALINFOPAGE_MAGIC;
     g_u32Version := SUPGLOBALINFOPAGE_VERSION;
     g_u32Mode := mi_u32Mode mi;
     g_cCpus := u16 cCpus;
     g_cPages := u16 (cbGip / PAGE_SIZE);
     g_u32UpdateHz := uUpdateHz;
     g_u32UpdateIntervalNS := 1000000000 / uUpdateHz;
     g_u64NanoTSLastUpdateHz := u64NanoTS;
     g_OnlineCpuSet := 0;
     g_PresentCpuSet := 0;
     g_PossibleCpuSet := mi_PossibleCpuSet mi;
     g_cOnlineCpus := u16 (mi_cOnline mi);
     g_cPresentCpus := u16 (mi_cPresent mi);
     g_cPossibleCpus := u16 (mi_cCount mi);
     g_idCpuMax := mi_idCpuMax mi;
     g_aiCpuFromApicId := replicate 256 0;
     g_aiCpuFromCpuSetIdx := replicate 256 UINT16_MAX;
     g_aCPUs := (λ i, gipcpu_init u64NanoTS uUpdateHz (mi_tsc mi i)) <$> seqZ 0 cCpus |}.

Definition supdrvGipInitOnCpu (idCpu : Z) (env : MpEnv) : stores SUPGLOBALINFOPAGE unit :=
  supdrvGipMpEventOnline env idCpu.

(** [RT_ELEMENTS(pGip->aCPUs)], of an array declared with one element. *)
Definition RT_ELEMENTS_aCPUs : nat := 1.

(** A loop [for (i = 0; i < RT_ELEMENTS(pGip->aCPUs); i++)] over the entries. *)
Definition declared_cpus (f : SUPGIPCPU → SUPGIPCPU) (l : list SUPGIPCPU) : list SUPGIPCPU :=
  (f <$> take RT_ELEMENTS_aCPUs l) ++ drop RT_ELEMENTS_aCPUs l.

Definition supdrvGipTerm (g : SUPGLOBALINFOPAGE) : SUPGLOBALINFOPAGE :=
  mkGip 0 (g_u32Version g) (g_u32Mode g) (g_cCpus g) (g_cPages g) (g_u32UpdateHz g)
    (g_u32UpdateIntervalNS g) (g_u64NanoTSLastUpdateHz g) (g_OnlineCpuSet g) (g_PresentCpuSet g)
    (g_PossibleCpuSet g) (g_cOnlineCpus g) (g_cPresentCpus g) (g_cPossibleCpus g) (g_idCpuMax g)
    (g_aiCpuFromApicId g) (g_aiCpuFromCpuSetIdx g)
    (declared_cpus (λ c, st_TSCHistoryHead 0 (st_TSC 0 (st_NanoTS 0 c))) (g_aCPUs g)).

(** [rdTsc] is [ASMReadTSC()]. *)
Definition supdrvGipReInitCpu (rdTsc u64NanoTS : Z) (c : SUPGIPCPU) : SUPGIPCPU :=
  st_NanoTS u64NanoTS (st_TSC (u64 (rdTsc - gc_u32UpdateIntervalTSC c)) c).

Definition supdrvGipReInitCpuCallback (idCpu idApic rdTsc u64NanoTS : Z)
    (g : SUPGLOBALINFOPAGE) : SUPGLOBALINFOPAGE :=
  let iCpu := apic_idx g idApic in
  if (iCpu <? g_cCpus g) && (gc_idCpu (cpu_at g iCpu) =? idCpu)
  then sg_aCPUs (alter (supdrvGipReInitCpu rdTsc u64NanoTS) (Z.to_nat iCpu) (g_aCPUs g)) g
  else g.

(** * What a reader relies on *)

(** The timer callbacks that update the page: [supdrvGipSyncTimer] and the two branches of
    [supdrvGipAsyncTimer], on the CPU with that identifier and APIC identifier. *)
Inductive gip_tick : Type :=
| TickSync (u64NanoTS u64TSC idApic iTick : Z)
| TickMaster (u64NanoTS u64TSC idCpu idApic iTick : Z)
| TickPerCpu (u64NanoTS u64TSC idCpu idApic iTick : Z) (env : MpEnv).

Definition run_tick (t : gip_tick) : stores SUPGLOBALINFOPAGE unit :=
  match t with
  | TickSync ns tsc idApic iTick => supdrvGipUpdate ns tsc NIL_RTCPUID idApic iTick
  | TickMaster ns tsc idCpu idApic iTick => supdrvGipUpdate ns tsc idCpu idApic iTick
  | TickPerCpu ns tsc idCpu idApic iTick env => supdrvGipUpdatePerCpu ns tsc idCpu idApic iTick env
  end.

Fixpoint run_ticks (l : list gip_tick) : stores SUPGLOBALINFOPAGE unit :=
  match l with
  | [] => sret tt
  | t :: l => run_tick t ;;; run_ticks l
  end.

(** The members a reader combines into a time stamp. *)
Definition gip_sample (c : SUPGIPCPU) : Z * Z * Z * Z :=
  (gc_u64NanoTS c, gc_u64TSC c, gc_u32UpdateIntervalTSC c, gc_u64CpuHz c).

(** What one store may do to an entry: leave the transaction alone and, unless the
    transaction is open, the time stamp as well; or step the transaction and nothing else. *)
Definition cpu_step (c c' : SUPGIPCPU) : Prop :=
  (gc_u32TransactionId c' = gc_u32TransactionId c
   ∧ (gip_sample c' = gip_sample c ∨ gc_u32TransactionId c #& 1 = true))
  ∨ (gc_u32TransactionId c' = u32 (gc_u32TransactionId c + 1) ∧ gip_sample c' = gip_sample c).

Definition page_step (i : Z) (g g' : SUPGLOBALINFOPAGE) : Prop :=
  cpu_step (cpu_at g i) (cpu_at g' i).

(** Every state of [l] follows from the one before it by a step. *)
Fixpoint chain {S} (R : S → S → Prop) (s : S) (l : list S) : Prop :=
  match l with
  | [] => True
  | s' :: l => R s s' ∧ chain R s' l
  end.

Definition last_of {S} (s : S) (l : list S) : S := default s (last l).

(** From a state with [P], the stores of [m] are steps of [R], the last one leaves the
    final state, and [Q] holds in the end. *)
Definition striple {S A} (R : S → S → Prop) (P : S → Prop) (m : stores S A)
    (Q : A → S → Prop) : Prop :=
  ∀ s, P s → chain R s (run_seen m s) ∧ last_of s (run_seen m s) = run_state m s
             ∧ Q (fst (fst (m s))) (run_state m s).

(** * Specifications *)

(** The entry after an update, as one expression: what [supdrvGipDoUpdateCpu] computes. *)
Definition update_spec (u32UpdateHz u64NanoTS u64TSC iTick : Z) (c : SUPGIPCPU) : SUPGIPCPU :=
  let d := u64 (u64TSC - gc_u64TSC c) in
  let fBig := negb (Z.shiftr d 32 =? 0) in
  let d := if fBig then gc_u32UpdateIntervalTSC c else d in
  let iHead := Z.land (u32 (gc_iTSCHistoryHead c + 1)) 7 in
  let h := if ((gc_u32TransactionId c =? 5) || (gc_u32TransactionId c =? 7))
              && ((iTick =? 2) || (iTick =? 3))
           then replicate 8 (u32 d) else gc_au32TSCHistory c in
  let h := <[Z.to_nat iHead := u32 d]> h in
  let iv := tsc_interval u32UpdateHz iHead d (st_TSCHistory h c) in
  {| gc_u32TransactionId := gc_u32TransactionId c;
     gc_u32UpdateIntervalTSC := u32 (fst iv + snd iv);
     gc_u64NanoTS := u64NanoTS;
     gc_u64TSC := u64TSC;
     gc_u64CpuHz := u64 (fst iv * u32UpdateHz);
     gc_cErrors := if fBig then u32 (gc_cErrors c + 1) else gc_cErrors c;
     gc_iTSCHistoryHead := iHead;
     gc_au32TSCHistory := h;
     gc_u32PrevUpdateIntervalNS := u32 (u64NanoTS - gc_u64NanoTS c);
     gc_enmState := gc_enmState c;
     gc_idCpu := gc_idCpu c;
     gc_iCpuSet := gc_iCpuSet c;
     gc_idApic := gc_idApic c |}.

(** The entry a completed transaction leaves, and the one an attempt leaves that finds a
    transaction open. *)
Definition updated_entry (u32UpdateHz u64NanoTS u64TSC iTick : Z) (c : SUPGIPCPU) : SUPGIPCPU :=
  let t := u32 (gc_u32TransactionId c + 1) in
  if t #& 1
  then st_TransactionId (u32 (t + 1)) (update_spec u32UpdateHz u64NanoTS u64TSC iTick (st_TransactionId t c))
  else st_cErrors (u32 (gc_cErrors c + 1)) (st_TransactionId (u32 (t + 1)) c).

(** The entry a CPU updates as the GIP master, if any. *)
Definition master_entry (g : SUPGLOBALINFOPAGE) (idCpu idApic : Z) : option Z :=
  if negb (g_u32Mode g =? SUPGIPMODE_ASYNC_TSC) then Some 0
  else if (apic_idx g idApic <? g_cCpus g) && (gc_idCpu (cpu_at g (apic_idx g idApic)) =? idCpu)
  then Some (apic_idx g idApic) else None.

(** The globals after the master's update: every 0x800th update recalculates the frequency
    from the time the last 0x800 updates took. *)
Definition recalc_spec (t u64NanoTS : Z) (g : SUPGLOBALINFOPAGE) : SUPGLOBALINFOPAGE :=
  let last := g_u64NanoTSLastUpdateHz g in
  let hz := u32 (2048000000000 / u64 (u64NanoTS - last)) in
  if (t #& 1) && (t mod 4096 =? 1) then
    sg_NanoTSLastUpdateHz u64NanoTS
      (if negb (last =? 0) && ((hz <=? 2000) && (30 <=? hz))
       then sg_UpdateIntervalNS (1000000000 / hz) (sg_UpdateHz hz g) else g)
  else g.

(** The table has the announced size, its index holds unsigned values and every history has
    eight entries. *)
Definition page_ok (g : SUPGLOBALINFOPAGE) : Prop :=
  g_cCpus g = Z.of_nat (length (g_aCPUs g)) ∧ 1 ≤ g_cCpus g
  ∧ Forall (λ i, 0 ≤ i) (g_aiCpuFromApicId g)
  ∧ Forall (λ c, length (gc_au32TSCHistory c) = 8%nat) (g_aCPUs g).

(** The table: the entries in use have distinct CPU identifiers. *)
Definition cpu_ids (l : list SUPGIPCPU) : list Z :=
  filter (λ id, id ≠ NIL_RTCPUID) (gc_idCpu <$> l).

(** The samples a scan takes: the counters of the CPUs that could be asked, up to the first
    that says [RTMpOnSpecific] is not supported. *)
Fixpoint tsc_samples (l : list (Z * Z)) : list Z :=
  match l with
  | [] => []
  | (rc, tsc) :: l =>
      if RT_SUCCESS rc then tsc :: tsc_samples l
      else if rc =? VERR_NOT_SUPPORTED then [] else tsc_samples l
  end.

(** All answers of a scan, the rounds one after the other. *)
Definition tsc_answers (onSpecific : Z → Z → Z * Z) (cLoops cArraySize : nat) : list (Z * Z) :=
  rev (seq 0 cLoops) ≫= (λ k, (λ i, onSpecific (Z.of_nat k) (Z.of_nat i)) <$> seq 0 cArraySize).

Fixpoint strictly_increasing (prev : Z) (l : list Z) : bool :=
  match l with
  | [] => true
  | x :: l => (prev <? x) && strictly_increasing x l
  end.

(** * Chains of stores *)

Section striple.
Context {S : Type} (R : S → S → Prop).

Lemma chain_app s l1 l2 : chain R s (l1 ++ l2) ↔ chain R s l1 ∧ chain R (last_of s l1) l2.
Proof.
  revert s. induction l1 as [|x l1 IH]; intros s; simpl; [tauto|]. rewrite IH.
  replace (last_of s (x :: l1)) with (last_of x l1); [tauto|].
  unfold last_of. rewrite last_cons. by destruct (last l1).
Qed.

Lemma chain_True (s : S) l : chain (λ _ _, True) s l.
Proof. revert s. induction l as [|x l IH]; intros s; simpl; auto. Qed.

Lemma last_of_app (s : S) l1 l2 : last_of s (l1 ++ l2) = last_of (last_of s l1) l2.
Proof. unfold last_of. rewrite last_app. by destruct (last l2). Qed.

Lemma striple_ret {A} (P : S → Prop) (a : A) (Q : A → S → Prop) :
  (∀ s, P s → Q a s) → striple R P (sret a) Q.
Proof. intros H s Hs. split_and!; [done|done|by apply H]. Qed.

Lemma striple_load {A} (P : S → Prop) (f : S → A) :
  striple R P (load f) (λ a s, a = f s ∧ P s).
Proof. intros s Hs. split_and!; done. Qed.

Lemma striple_store (P Q : S → Prop) f :
  (∀ s, P s → R s (f s) ∧ Q (f s)) → striple R P (store f) (λ _, Q).
Proof. intros H s Hs. destruct (H s Hs). split_and!; simpl; auto. Qed.

Lemma striple_bind {A B} (P : S → Prop) (m : stores S A) Q (k : A → stores S B) T :
  striple R P m Q → (∀ a, striple R (Q a) (k a) T) → striple R P (sbind m k) T.
Proof.
  intros Hm Hk s Hs. destruct (Hm s Hs) as (Hc&Hl&HQ).
  unfold run_seen, run_state, sbind in *. destruct (m s) as [[a s1] l1]; simpl in *.
  destruct (Hk a s1 HQ) as (Hc2&Hl2&HT). unfold run_seen, run_state in *.
  destruct (k a s1) as [[b s2] l2]; simpl in *. subst.
  rewrite chain_app, last_of_app. auto.
Qed.

Lemma striple_weaken {A} (P P' : S → Prop) (m : stores S A) (Q Q' : A → S → Prop) :
  striple R P m Q → (∀ s, P' s → P s) → (∀ a s, Q a s → Q' a s) → striple R P' m Q'.
Proof. intros H HP HQ s Hs. destruct (H s (HP s Hs)) as (?&?&?). auto. Qed.

Lemma striple_if {A} (b : bool) P (m1 m2 : stores S A) Q :
  (b = true → striple R P m1 Q) → (b = false → striple R P m2 Q) →
  striple R P (if b then m1 else m2) Q.
Proof. destruct b; auto. Qed.
End striple.

(** A precondition a computation keeps, whatever it returns. *)
Abbreviation skeeps R P m := (striple R P%function m (λ _, P%function)).

Section skeeps.
Context {S : Type} (R : S → S → Prop) (P : S → Prop).

Lemma skeeps_ret {A} (a : A) : skeeps R P (sret a).
Proof. by apply striple_ret. Qed.

Lemma skeeps_load {A} (f : S → A) : skeeps R P (load f).
Proof. eapply striple_weaken; [apply (striple_load R P)|done|]. by intros a s [_ ?]. Qed.

Lemma skeeps_store f : (∀ s, P s → R s (f s) ∧ P (f s)) → skeeps R P (store f).
Proof. apply striple_store. Qed.

Lemma skeeps_bind {A B} (m : stores S A) (k : A → stores S B) :
  skeeps R P m → (∀ a, skeeps R P (k a)) → skeeps R P (sbind m k).
Proof. intros; eapply striple_bind; eauto. Qed.

Lemma skeeps_if {A} (b : bool) (m1 m2 : stores S A) :
  skeeps R P m1 → skeeps R P m2 → skeeps R P (if b then m1 else m2).
Proof. by destruct b. Qed.

Lemma skeeps_option {A B} (o : option A) (m1 : A → stores S B) (m2 : stores S B) :
  (∀ a, skeeps R P (m1 a)) → skeeps R P m2 →
  skeeps R P (match o with Some a => m1 a | None => m2 end).
Proof. by destruct o. Qed.
End skeeps.

Create HintDb stores discriminated.
#[export] Hint Resolve skeeps_ret skeeps_load skeeps_bind skeeps_if skeeps_option : stores.

(** Takes a computation apart down to its stores. *)
Ltac skeep :=
  repeat match goal with
  | |- striple _ _ (sbind _ _) _ => apply skeeps_bind; [|intros ?]
  | |- striple _ _ (sret _) _ => apply skeeps_ret
  | |- striple _ _ (load _) _ => apply skeeps_load
  | |- striple _ _ (if _ then _ else _) _ => apply skeeps_if
  | |- striple _ _ (match _ with Some _ => _ | None => _ end) _ =>
      apply skeeps_option; [intros ?|]
  | |- striple _ _ (let _ := _ in _) _ => cbv zeta
  end.

(** ** Stores to one entry *)

Section cpu.
Context (R : SUPGIPCPU → SUPGIPCPU → Prop) (P : SUPGIPCPU → Prop).

(** A property that every store except those to the transaction identifier keeps. *)
Context (HR : ∀ c c', P c → gc_u32TransactionId c' = gc_u32TransactionId c → R c c' ∧ P c').

Lemma reset_hist_keeps n v : skeeps R P (reset_hist n v).
Proof.
  induction n as [|n IH]; simpl; skeep; [done|].
  apply skeeps_store. auto.
Qed.

Lemma DoUpdateCpu_keeps hz ns tsc iTick : skeeps R P (supdrvGipDoUpdateCpu hz ns tsc iTick).
Proof.
  unfold supdrvGipDoUpdateCpu, inc_cErrors, set_hist.
  skeep; first [apply reset_hist_keeps | apply skeeps_store; auto].
Qed.
End cpu.

Lemma cpu_at_insert g i j c c0 :
  g_aCPUs g !! Z.to_nat j = Some c0 →
  cpu_at (sg_aCPUs (<[Z.to_nat j := c]> (g_aCPUs g)) g) i
  = if decide (Z.to_nat i = Z.to_nat j) then c else cpu_at g i.
Proof.
  intros Hj. unfold cpu_at; simpl. case_decide as E.
  - rewrite E, list_lookup_insert_eq; [done|]. by eapply lookup_lt_Some.
  - rewrite list_lookup_insert_ne; [done|congruence].
Qed.

Lemma cpu_step_refl c : cpu_step c c.
Proof. left. auto. Qed.

Lemma page_step_refl i g g' : cpu_at g' i = cpu_at g i → page_step i g g'.
Proof. unfold page_step. intros ->. apply cpu_step_refl. Qed.

(** A computation on entry [j], seen from entry [i]. *)
Lemma onCpu_striple i j (m : stores SUPGIPCPU unit) (P Q : SUPGIPCPU → Prop) :
  (Z.to_nat j = Z.to_nat i → striple cpu_step P m (λ _, Q)) →
  striple (λ _ _, True) (λ _, True) m (λ _ _, True) →
  striple (page_step i) (λ g, Z.to_nat j = Z.to_nat i → is_Some (g_aCPUs g !! Z.to_nat i) → P (cpu_at g i))
    (onCpu j m) (λ _ g, Z.to_nat j = Z.to_nat i → is_Some (g_aCPUs g !! Z.to_nat i) → Q (cpu_at g i)).
Proof.
  intros Hm Ht g HP. unfold onCpu, run_seen, run_state.
  destruct (g_aCPUs g !! Z.to_nat j) as [c|] eqn:Hj; simpl.
  2:{ split_and!; [done|done|]. intros E [? He]. congruence. }
  set (upd c' := sg_aCPUs (<[Z.to_nat j := c']> (g_aCPUs g)) g).
  assert (Hu : upd c = g).
  { unfold upd. rewrite list_insert_id by done. by destruct g. }
  destruct (Ht c I) as (_&Hl&_). unfold run_seen, run_state in Hl.
  assert (Hlast : ∀ l, last_of g (upd <$> l) = upd (last_of c l)).
  { intros l. unfold last_of. rewrite fmap_last. destruct (last l); [done|]. simpl. by rewrite Hu. }
  destruct (decide (Z.to_nat i = Z.to_nat j)) as [E|E].
  - assert (Hci : cpu_at g i = c) by (unfold cpu_at; by rewrite E, Hj).
    destruct (Hm (eq_sym E) c) as (Hc&_&HQ); [rewrite <- Hci; apply HP; [done|by rewrite E, Hj]|].
    unfold run_seen, run_state in Hc, HQ. destruct (m c) as [[[] c'] l]; simpl in *.
    split_and!.
    + clear Hl HQ. rewrite <- Hu at 1. clear Hci Hu Hlast HP. revert c Hj Hc upd.
      enough (∀ c0 c, g_aCPUs g !! Z.to_nat j = Some c0 → chain cpu_step c l →
                chain (page_step i) (sg_aCPUs (<[Z.to_nat j := c]> (g_aCPUs g)) g)
                  ((λ c', sg_aCPUs (<[Z.to_nat j := c']> (g_aCPUs g)) g) <$> l)) as H by eauto.
      intros c0 c Hj. revert c. induction l as [|x l IH]; intros c; simpl; [done|].
      intros [Hs Hc]. split; [|auto]. unfold page_step.
      rewrite !(cpu_at_insert _ _ _ _ c0) by done. by rewrite !decide_True.
    + by rewrite Hlast, Hl.
    + intros _ _. unfold upd. rewrite (cpu_at_insert _ _ _ _ c), decide_True by done. done.
  - assert (Hci : ∀ c', cpu_at (upd c') i = cpu_at g i).
    { intros c'. unfold upd. rewrite (cpu_at_insert _ _ _ _ c), decide_False; done. }
    destruct (m c) as [[[] c'] l]; simpl in *. split_and!.
    + clear Hl Hm. assert (Hg : ∀ g', cpu_at g' i = cpu_at g i → chain (page_step i) g' (upd <$> l)).
      { induction l as [|x l IH]; intros g' Hg'; simpl; [done|]. split; [|auto].
        apply page_step_refl. congruence. }
      by apply Hg.
    + by rewrite Hlast, Hl.
    + intros; congruence.
Qed.

(** ** The update functions *)

Abbreviation safe i m := (skeeps (page_step i) (λ _ : SUPGLOBALINFOPAGE, True) m).

(** Entry [i], if it is also entry [j], has the transaction identifier [t]. *)
Definition tx_is (i j t : Z) (g : SUPGLOBALINFOPAGE) : Prop :=
  Z.to_nat j = Z.to_nat i → is_Some (g_aCPUs g !! Z.to_nat i) → gc_u32TransactionId (cpu_at g i) = t.

Lemma onCpu_safe i j (m : stores SUPGIPCPU unit) :
  skeeps cpu_step (λ _, True) m → safe i (onCpu j m).
Proof.
  intros Hm. eapply striple_weaken; [apply (onCpu_striple i j m (λ _, True) (λ _, True))|done|done].
  - done.
  - intros c _. destruct (Hm c I) as (_&?&_). split; [|done].
    apply chain_True.
Qed.

Lemma store_safe i f : (∀ g, cpu_at (f g) i = cpu_at g i) → safe i (store f).
Proof. intros H. apply skeeps_store. intros g _. split; [|done]. by apply page_step_refl. Qed.

(** Stores to an entry outside of what a reader samples. *)
Lemma store_entry_safe i j f :
  (∀ c, gc_u32TransactionId (f c) = gc_u32TransactionId c) → (∀ c, gip_sample (f c) = gip_sample c) →
  safe i (onCpu j (store f)).
Proof.
  intros Ht Hs. apply onCpu_safe, skeeps_store. intros c _. split; [|done]. left. auto.
Qed.

Lemma inc_TransactionId_safe i j : safe i (onCpu j inc_TransactionId).
Proof. apply onCpu_safe, skeeps_store. intros c _. split; [|done]. right. auto. Qed.

Lemma DoUpdateCpu_safe i j hz ns tsc iTick t :
  t #& 1 = true →
  striple (page_step i) (tx_is i j t) (onCpu j (supdrvGipDoUpdateCpu hz ns tsc iTick)) (λ _ _, True).
Proof.
  intros Ht. eapply striple_weaken;
    [apply (onCpu_striple i j _ (λ c, gc_u32TransactionId c = t) (λ _, True))|done|done].
  - intros _. eapply striple_weaken; [apply (DoUpdateCpu_keeps _ (λ c, gc_u32TransactionId c = t))| |done].
    + intros c c' Hc Hc'. split; [|congruence]. left. split; [done|]. right. by rewrite Hc.
    + done.
  - by apply DoUpdateCpu_keeps.
Qed.

Lemma update_transaction_safe i j ns tsc iTick pre :
  (∀ t, skeeps (page_step i) (tx_is i j t) (pre t)) →
  safe i (update_transaction j ns tsc iTick pre).
Proof.
  intros Hpre. unfold update_transaction.
  apply skeeps_bind; [apply inc_TransactionId_safe|intros _].
  apply (striple_bind _ _ _ (λ t, tx_is i j t)).
  { eapply striple_weaken; [apply (striple_load _ (λ _, True))|by intros|].
    intros t g [-> _]. unfold tx_is, cpu_at. by intros ->. }
  intros t. apply striple_if; intros Ht.
  - eapply striple_weaken with (P := λ _, True) (Q := λ _ _, True); [|done|done].
    apply skeeps_bind; [apply inc_TransactionId_safe|intros _]. by apply store_entry_safe.
  - apply negb_false_iff in Ht.
    apply (striple_bind _ _ _ (λ _, tx_is i j t)); [apply Hpre|intros _].
    apply (striple_bind _ _ _ (λ _, tx_is i j t)); [apply skeeps_load|intros hz].
    apply (striple_bind _ _ _ (λ _ _, True)); [by apply DoUpdateCpu_safe|intros _].
    apply inc_TransactionId_safe.
Qed.

Lemma recalc_UpdateHz_keeps i j t ns : skeeps (page_step i) (tx_is i j t) (recalc_UpdateHz ns).
Proof.
  unfold recalc_UpdateHz. skeep; apply skeeps_store; intros g Hg; (split; [by apply page_step_refl|exact Hg]).
Qed.

Lemma GipUpdate_safe i ns tsc idCpu idApic iTick :
  safe i (supdrvGipUpdate ns tsc idCpu idApic iTick).
Proof.
  unfold supdrvGipUpdate. skeep; apply update_transaction_safe; intros t; skeep;
    apply recalc_UpdateHz_keeps.
Qed.

Lemma claim_tries_safe i n idCpu : safe i (claim_tries n idCpu).
Proof. induction n as [|n IH]; simpl; skeep; [|done]. by apply store_entry_safe. Qed.

Lemma CpuIndex_safe i idCpu : safe i (supdrvGipCpuIndexFromCpuId idCpu).
Proof. unfold supdrvGipCpuIndexFromCpuId. skeep. apply claim_tries_safe. Qed.

Lemma MpEventOnline_safe i env idCpu : safe i (supdrvGipMpEventOnline env idCpu).
Proof.
  unfold supdrvGipMpEventOnline. skeep;
    first [apply CpuIndex_safe | by apply store_entry_safe | apply store_safe; intros g; try done].
  unfold set_CpuSetIdx. by destruct (0 <=? _).
Qed.

Lemma MpEventOffline_safe i iCpuSet idCpu : safe i (supdrvGipMpEventOffline iCpuSet idCpu).
Proof.
  unfold supdrvGipMpEventOffline. skeep; first [by apply store_entry_safe | by apply store_safe].
Qed.

Lemma run_ticks_safe i l : safe i (run_ticks l).
Proof.
  induction l as [|t l IH]; simpl; skeep; [|done].
  destruct t; simpl; try apply GipUpdate_safe. unfold supdrvGipUpdatePerCpu. skeep;
    first [apply CpuIndex_safe | apply MpEventOnline_safe | apply update_transaction_safe; intros; skeep].
Qed.

(** * Readers *)

Abbreviation txid g i := (gc_u32TransactionId (cpu_at g i)).
Abbreviation sample g i := (gip_sample (cpu_at g i)).

Lemma u32_add_u32 a b : u32 (u32 a + b) = u32 (a + b).
Proof. unfold u32. by rewrite Zplus_mod_idemp_l. Qed.

(** [k] of the steps in a chain increment the identifier; with none of them and the
    transaction closed, the sample does not change. *)
Lemma chain_count i g l :
  chain (page_step i) g l →
  ∃ k, 0 ≤ k ≤ Z.of_nat (length l)
    ∧ txid (last_of g l) i = (if k =? 0 then txid g i else u32 (txid g i + k))
    ∧ (k = 0 → txid g i #& 1 = false → Forall (λ g', sample g' i = sample g i) l).
Proof.
  revert g. induction l as [|g' l IH]; intros g; simpl.
  { intros _. exists 0. split_and!; [done|done|done|]. by constructor. }
  intros [Hs (k&Hk&Ht&Hl)%IH].
  assert (Hlast : last_of g (g' :: l) = last_of g' l).
  { unfold last_of. rewrite last_cons. by destruct (last l). }
  rewrite Hlast. destruct Hs as [[Ht' Hs]|[Ht' Hs]].
  - exists k. rewrite Ht, Ht'. split_and!; [lia|lia|done|]. intros Hk0 Heven.
    destruct Hs as [Hs|Hs]; [|congruence]. constructor; [done|].
    eapply Forall_impl; [apply Hl; [done|congruence]|]. intros g'' H. simpl in H. congruence.
  - exists (k + 1). rewrite Ht, Ht'. destruct (Z.eqb_spec k 0) as [->|Hk0].
    + split_and!; [lia|lia|done|lia].
    + destruct (Z.eqb_spec (k + 1) 0); [lia|]. rewrite u32_add_u32.
      split_and!; [lia|lia|f_equal; lia|lia].
Qed.

(** C32. What readers of the page rely on: through any sequence of timer callbacks on any
    CPUs, looking at the page after every single store, two looks at an entry that find the
    same even transaction identifier, with fewer than 2^32 stores between them, enclose only
    states with the same time stamp.  So a reader that checks the identifier before and
    after copying a time stamp never combines members of different updates. *)
Theorem gip_reader_consistent g i l pre g1 mid g2 post :
  g :: run_seen (run_ticks l) g = pre ++ g1 :: mid ++ g2 :: post →
  Z.of_nat (length mid) < 2 ^ 32 - 1 →
  txid g1 i = txid g2 i → txid g1 i #& 1 = false →
  Forall (λ g', sample g' i = sample g1 i) (mid ++ [g2]).
Proof.
  intros Heq Hlen Ht Heven. destruct (run_ticks_safe i l g I) as (Hc&_&_).
  assert (Hmid : chain (page_step i) g1 (mid ++ [g2])).
  { destruct pre as [|g0 pre]; simpl in Heq; injection Heq as E Heq; subst.
    - rewrite Heq in Hc. rewrite cons_middle, (app_assoc mid) in Hc. by apply chain_app in Hc as [? _].
    - rewrite Heq in Hc. apply chain_app in Hc as [_ [_ Hc]].
      rewrite cons_middle, (app_assoc mid) in Hc. by apply chain_app in Hc as [? _]. }
  apply chain_count in Hmid as (k&Hk&Hlast&Hs). rewrite last_of_app in Hlast; simpl in Hlast.
  change (last_of _ [g2]) with g2 in Hlast. rewrite length_app in Hk; simpl in Hk.
  destruct (Z.eqb_spec k 0) as [->|Hk0]; [by apply Hs|]. exfalso.
  pose proof (u32_range (txid g1 i + k)) as Hr. rewrite <- Hlast, <- Ht in Hr.
  assert (E : u32 (txid g1 i + k) = txid g1 i) by congruence.
  unfold u32 in E. rewrite Z.mod_eq in E by lia.
  assert (k = 2 ^ 32 * ((txid g1 i + k) / 2 ^ 32)) by lia. nia.
Qed.

(** * Functional behaviour of an update *)

Lemma reset_hist_state n v c :
  run_state (reset_hist n v) c
  = st_TSCHistory (replicate n v ++ drop n (gc_au32TSCHistory c)) c
    ∨ (length (gc_au32TSCHistory c) < n)%nat.
Proof.
  induction n as [|n IH]; [left; by destruct c|].
  destruct IH as [IH|]; [|right; lia].
  destruct (decide (length (gc_au32TSCHistory c) < S n)%nat) as [|Hlen]; [by right|left].
  unfold run_state in *. simpl. unfold sbind. destruct (reset_hist n v c) as [[? s1] l1]; simpl in *.
  rewrite IH. unfold st_TSCHistory; simpl. f_equal. rewrite Nat2Z.id.
  destruct (drop n (gc_au32TSCHistory c)) as [|x t] eqn:E.
  { apply (f_equal length) in E. rewrite length_drop in E. simpl in E. lia. }
  rewrite insert_app_r_alt by (rewrite length_replicate; lia).
  rewrite length_replicate, Nat.sub_diag. simpl.
  replace (v :: replicate n v ++ drop (S n) (gc_au32TSCHistory c))
    with (replicate (S n) v ++ drop (S n) (gc_au32TSCHistory c)) by done.
  replace (drop (S n) (gc_au32TSCHistory c)) with t.
  - rewrite (replicate_S_end n v), <- app_assoc. done.
  - replace (S n) with (n + 1)%nat by lia. rewrite <- drop_drop, E. done.
Qed.

Lemma reset_hist_8 v c :
  length (gc_au32TSCHistory c) = 8%nat →
  run_state (reset_hist 8 v) c = st_TSCHistory (replicate 8 v) c.
Proof.
  intros Hlen. destruct (reset_hist_state 8 v c) as [->|]; [|lia].
  rewrite drop_ge by lia. by rewrite app_nil_r.
Qed.

Lemma run_state_bind {S A B} (m : stores S A) (k : A → stores S B) s :
  run_state (sbind m k) s = run_state (k (fst (fst (m s)))) (run_state m s).
Proof.
  unfold run_state, sbind. destruct (m s) as [[a s1] l1]; simpl. by destruct (k a s1) as [[]].
Qed.

Lemma run_state_onCpu j m g c :
  g_aCPUs g !! Z.to_nat j = Some c →
  run_state (onCpu j m) g = sg_aCPUs (<[Z.to_nat j := run_state m c]> (g_aCPUs g)) g.
Proof. intros Hj. unfold run_state, onCpu. rewrite Hj. by destruct (m c) as [[]]. Qed.

Lemma run_state_store {S} (f : S → S) s : run_state (store f) s = f s.
Proof. done. Qed.
Lemma run_state_ret {S A} (a : A) (s : S) : run_state (sret a) s = s.
Proof. done. Qed.
Lemma run_state_load {S A} (f : S → A) s : run_state (load f) s = s.
Proof. done. Qed.
Lemma result_load {S A} (f : S → A) s : fst (fst (load f s)) = f s.
Proof. done. Qed.
Lemma result_ret {S A} (a : A) (s : S) : fst (fst (sret a s)) = a.
Proof. done. Qed.
Lemma result_bind {S A B} (m : stores S A) (k : A → stores S B) s :
  fst (fst (sbind m k s)) = fst (fst (k (fst (fst (m s))) (run_state m s))).
Proof.
  unfold run_state, sbind. destruct (m s) as [[a s1] l1]; simpl. by destruct (k a s1) as [[]].
Qed.

(** Runs the stores of a straight-line computation. *)
Create Rewrite HintDb stores_run.
#[export] Hint Rewrite @run_state_bind @run_state_store @run_state_ret @run_state_load
  @result_load @result_ret @result_bind : stores_run.

Lemma DoUpdateCpu_spec hz ns tsc iTick c :
  length (gc_au32TSCHistory c) = 8%nat →
  run_state (supdrvGipDoUpdateCpu hz ns tsc iTick) c = update_spec hz ns tsc iTick c.
Proof.
  intros Hlen. unfold supdrvGipDoUpdateCpu, update_spec, set_hist, inc_cErrors.
  autorewrite with stores_run. cbn [gc_u64TSC st_NanoTS st_PrevUpdateIntervalNS].
  destruct (negb (Z.shiftr (u64 (tsc - gc_u64TSC c)) 32 =? 0));
    autorewrite with stores_run;
    cbn [gc_u32TransactionId gc_u32UpdateIntervalTSC st_NanoTS st_PrevUpdateIntervalNS st_TSC st_cErrors];
    (destruct (_ && _); [rewrite reset_hist_8 by done|rewrite run_state_ret]); reflexivity.
Qed.

Lemma sg_aCPUs_insert_insert j c1 c2 g :
  sg_aCPUs (<[j := c2]> (g_aCPUs (sg_aCPUs (<[j := c1]> (g_aCPUs g)) g))) (sg_aCPUs (<[j := c1]> (g_aCPUs g)) g)
  = sg_aCPUs (<[j := c2]> (g_aCPUs g)) g.
Proof. unfold sg_aCPUs, gip_with; simpl. f_equal. apply list_insert_insert_eq. Qed.

(** [h] is what [pre] does to the page: it leaves the table alone and does not depend on it. *)
Lemma update_transaction_spec j ns tsc iTick pre h g c :
  g_aCPUs g !! Z.to_nat j = Some c → length (gc_au32TSCHistory c) = 8%nat →
  (∀ t g, t #& 1 = true → run_state (pre t) g = h t g) →
  (∀ t l g, h t (sg_aCPUs l g) = sg_aCPUs l (h t g)) →
  (∀ t g, t #& 1 = false → h t g = g) →
  run_state (update_transaction j ns tsc iTick pre) g
  = let g' := h (u32 (gc_u32TransactionId c + 1)) g in
    sg_aCPUs (<[Z.to_nat j := updated_entry (g_u32UpdateHz g') ns tsc iTick c]> (g_aCPUs g)) g'.
Proof.
  intros Hj Hlen Hpre Hh Hh0. unfold update_transaction, updated_entry.
  assert (Hjl : (Z.to_nat j < length (g_aCPUs g))%nat) by by eapply lookup_lt_Some.
  autorewrite with stores_run.
  rewrite (run_state_onCpu j inc_TransactionId g c) by done.
  unfold cpu_at at 1 2. cbn [g_aCPUs sg_aCPUs gip_with]. rewrite list_lookup_insert_eq by done.
  cbn [default from_option id]. unfold inc_TransactionId at 1 2. rewrite run_state_store.
  cbn [gc_u32TransactionId st_TransactionId].
  set (t := u32 (gc_u32TransactionId c + 1)). set (c1 := st_TransactionId t c).
  destruct (t #& 1) eqn:Et; cbn [negb].
  - autorewrite with stores_run. rewrite Hpre, Hh by done.
    set (g' := h t g).
    rewrite (run_state_onCpu j (supdrvGipDoUpdateCpu _ _ _ _) _ c1).
    2:{ cbn [g_aCPUs sg_aCPUs gip_with]. by rewrite list_lookup_insert_eq. }
    rewrite DoUpdateCpu_spec by done. cbn [g_u32UpdateHz sg_aCPUs gip_with].
    rewrite (run_state_onCpu j _ _ (update_spec (g_u32UpdateHz g') ns tsc iTick c1)).
    2:{ cbn [g_aCPUs sg_aCPUs gip_with].
        rewrite list_lookup_insert_eq; [done|by rewrite length_insert]. }
    unfold inc_TransactionId. rewrite run_state_store.
    unfold sg_aCPUs, gip_with; simpl. by rewrite !list_insert_insert_eq.
  - autorewrite with stores_run. rewrite (Hh0 t g Et).
    rewrite (run_state_onCpu j inc_TransactionId _ c1); [|by cbn; rewrite list_lookup_insert_eq].
    rewrite sg_aCPUs_insert_insert.
    rewrite (run_state_onCpu j inc_cErrors _ (st_TransactionId (u32 (t + 1)) c1)).
    2:{ cbn [g_aCPUs sg_aCPUs gip_with]. by rewrite list_lookup_insert_eq. }
    by rewrite sg_aCPUs_insert_insert.
Qed.

Lemma tst_mod t m k : 0 ≤ k → 0 ≤ m < 2 ^ k → t #& m = (t mod 2 ^ k) #& m.
Proof.
  intros Hk Hm. unfold tst. do 2 f_equal. rewrite <- Z.land_ones by done.
  rewrite <- Z.land_assoc, (Z.land_comm (Z.ones k)), Z.land_ones by done. by rewrite Z.mod_small.
Qed.

Lemma recalc_test t : t #& 1 = true → negb (t #& (GIP_UPDATEHZ_RECALC_FREQ * 2 - 2)) = (t mod 4096 =? 1).
Proof.
  intros Ht. rewrite (tst_mod t 1 12) in Ht by (simpl; lia).
  rewrite (tst_mod t _ 12) by (unfold GIP_UPDATEHZ_RECALC_FREQ; lia).
  change (2 ^ 12) with 4096 in *.
  pose proof (forallb_seqZ (λ r, implb (r #& 1)
     (Bool.eqb (negb (r #& (GIP_UPDATEHZ_RECALC_FREQ * 2 - 2))) (r =? 1))) 4096) as Hall.
  assert (Hr : 0 ≤ t mod 4096 < 4096) by by apply Z.mod_pos_bound.
  specialize (Hall ltac:(vm_compute; reflexivity) _ Hr). cbv beta in Hall.
  rewrite Ht in Hall. by apply eqb_prop.
Qed.

Lemma recalc_run t ns g :
  t #& 1 = true →
  run_state (if negb (t #& (GIP_UPDATEHZ_RECALC_FREQ * 2 - 2)) then recalc_UpdateHz ns else sret tt) g
  = recalc_spec t ns g.
Proof.
  intros Ht. rewrite recalc_test by done. unfold recalc_spec. rewrite Ht. cbn [andb].
  destruct (_ =? 1); [|done]. unfold recalc_UpdateHz. autorewrite with stores_run.
  change (1000000000 * GIP_UPDATEHZ_RECALC_FREQ) with 2048000000000. cbv zeta.
  destruct (negb _); cbn [andb]; [|done]. by destruct (_ && _).
Qed.

Lemma recalc_spec_aCPUs t ns l g : recalc_spec t ns (sg_aCPUs l g) = sg_aCPUs l (recalc_spec t ns g).
Proof.
  unfold recalc_spec. cbn [g_u64NanoTSLastUpdateHz sg_aCPUs gip_with].
  destruct (_ && _); [|done]. by destruct (_ && _).
Qed.

Lemma apic_idx_nonneg g idApic : Forall (λ i, 0 ≤ i) (g_aiCpuFromApicId g) → 0 ≤ apic_idx g idApic.
Proof.
  intros H. unfold apic_idx. destruct (_ !! _) eqn:E; simpl; [|unfold UINT16_MAX; lia].
  rewrite Forall_lookup in H. eauto.
Qed.

(** What a timer callback of the GIP master does to the page.  A master without a valid
    entry changes nothing.  Otherwise its entry gets the new time stamp, the interval to the
    previous one, the history with the new TSC delta at its advanced head (all of it during
    start-up; the previous interval and an error when the delta does not fit 32 bits), the
    averaged update interval with its slack and the frequency derived from it, under a
    transaction identifier that is two steps on; an open transaction is left open and
    counted as an error.  The update frequency and interval of the page are recomputed on
    every 0x800th update, from the time those took, and are what the entry is computed
    with.  No other entry changes. *)
Lemma gip_update_functional g ns tsc idCpu idApic iTick :
  page_ok g →
  run_state (supdrvGipUpdate ns tsc idCpu idApic iTick) g
  = match master_entry g idCpu idApic with
    | None => g
    | Some j =>
        let g' := recalc_spec (u32 (txid g j + 1)) ns g in
        sg_aCPUs (alter (updated_entry (g_u32UpdateHz g') ns tsc iTick) (Z.to_nat j) (g_aCPUs g)) g'
    end.
Proof.
  intros (Hn&Hpos&Hai&Hlen).
  assert (Hupd : ∀ j, 0 ≤ j < g_cCpus g →
    run_state (update_transaction j ns tsc iTick
      (λ t, if negb (t #& (GIP_UPDATEHZ_RECALC_FREQ * 2 - 2)) then recalc_UpdateHz ns else sret tt)) g
    = let g' := recalc_spec (u32 (txid g j + 1)) ns g in
      sg_aCPUs (alter (updated_entry (g_u32UpdateHz g') ns tsc iTick) (Z.to_nat j) (g_aCPUs g)) g').
  { intros j Hj. destruct (lookup_lt_is_Some_2 (g_aCPUs g) (Z.to_nat j)) as [c Hc]; [lia|].
    rewrite (update_transaction_spec j ns tsc iTick _ (λ t, recalc_spec t ns) g c).
    - unfold cpu_at. rewrite Hc. cbv zeta. f_equal. symmetry.
      by apply list_alter_as_insert.
    - done.
    - rewrite Forall_lookup in Hlen. eauto.
    - intros. by apply recalc_run.
    - intros. apply recalc_spec_aCPUs.
    - intros t g' Ht. unfold recalc_spec. by rewrite Ht. }
  unfold supdrvGipUpdate, master_entry. autorewrite with stores_run. cbv zeta. unfold id.
  destruct (negb _); [apply Hupd; lia|].
  destruct (Z.leb_spec (g_cCpus g) (apic_idx g idApic)), (Z.ltb_spec (apic_idx g idApic) (g_cCpus g));
    try lia; cbn [andb]; [done|].
  destruct (_ =? idCpu); cbn [negb]; [|done].
  apply Hupd. split; [by apply apic_idx_nonneg|done].
Qed.

(** * Bounds *)

Lemma hist_bounds lo hi c i :
  length (gc_au32TSCHistory c) = 8%nat → Forall (λ h, lo ≤ h ≤ hi) (gc_au32TSCHistory c) →
  0 ≤ i < 8 → lo ≤ hist c i ≤ hi.
Proof.
  intros Hlen Hall Hi. unfold hist.
  destruct (lookup_lt_is_Some_2 (gc_au32TSCHistory c) (Z.to_nat i)) as [x Hx]; [lia|].
  rewrite Hx. simpl. rewrite Forall_lookup in Hall. eauto.
Qed.

Lemma land_7_bounds x : 0 ≤ Z.land x 7 < 8.
Proof. change 7 with (Z.ones 3). rewrite Z.land_ones by lia. by apply Z.mod_pos_bound. Qed.

(** Averages of values in a range stay in it. *)
Lemma tsc_interval_bounds lo hi hz iHead d c :
  0 ≤ lo → hi < 2 ^ 30 → lo ≤ d ≤ hi →
  length (gc_au32TSCHistory c) = 8%nat → Forall (λ h, lo ≤ h ≤ hi) (gc_au32TSCHistory c) →
  let iv := tsc_interval hz iHead d c in
  lo ≤ fst iv ≤ hi ∧ 0 ≤ snd iv ≤ hi / 64.
Proof.
  intros Hlo Hhi Hd Hlen Hall. unfold tsc_interval.
  pose proof (λ i, hist_bounds lo hi c i Hlen Hall) as Hb.
  assert (Hsl : ∀ x k, lo ≤ x ≤ hi → 6 ≤ k → 0 ≤ Z.shiftr x k ≤ hi / 64).
  { intros x k Hx Hk. rewrite Z.shiftr_div_pow2 by lia. split; [apply Z.div_pos; lia|].
    transitivity (x / 64); [|apply Z.div_le_mono; lia].
    change 64 with (2 ^ 6). apply Z.div_le_compat_l; [lia|].
    split; [lia|]. apply Z.pow_le_mono_r; lia. }
  destruct (1000 <=? hz); [|destruct (90 <=? hz)]; cbn [fst snd].
  - pose proof (Hb 0). pose proof (Hb 1). pose proof (Hb 2). pose proof (Hb 3).
    pose proof (Hb 4). pose proof (Hb 5). pose proof (Hb 6). pose proof (Hb 7).
    rewrite !(Z.shiftr_div_pow2 _ 2), !(Z.shiftr_div_pow2 _ 1) by lia.
    rewrite (u32_small (hist c 0 + _ + _ + _)), (u32_small (hist c 4 + _ + _ + _)) by lia.
    set (a := (hist c 0 + _ + _ + _) / 2 ^ 2). set (b := (hist c 4 + _ + _ + _) / 2 ^ 2).
    assert (lo ≤ a ≤ hi) by (unfold a; split; [apply Z.div_le_lower_bound|apply Z.div_le_upper_bound]; lia).
    assert (lo ≤ b ≤ hi) by (unfold b; split; [apply Z.div_le_lower_bound|apply Z.div_le_upper_bound]; lia).
    rewrite (u32_small (b + a)) by lia.
    assert (lo ≤ (b + a) / 2 ^ 1 ≤ hi)
      by (split; [apply Z.div_le_lower_bound|apply Z.div_le_upper_bound]; lia).
    split; [done|]. apply Hsl; lia.
  - pose proof (Hb (Z.land (iHead - 1) 7) (land_7_bounds _)).
    rewrite !(Z.shiftr_div_pow2 _ 1) by lia. rewrite u32_small by lia.
    assert (lo ≤ (d + hist c (Z.land (iHead - 1) 7)) / 2 ^ 1 ≤ hi)
      by (split; [apply Z.div_le_lower_bound|apply Z.div_le_upper_bound]; lia).
    split; [done|]. apply Hsl; lia.
  - rewrite u32_small by lia. split; [done|]. apply Hsl; lia.
Qed.

(** The arithmetic of an update stays within 32 and 64 bits: when the recorded TSC
    intervals and the new one lie in a range [lo]..[hi] below 2^30 (a second of a 1 GHz TSC),
    none of the sums wraps, the published interval lies between [lo] and [hi] plus a 64th,
    and the published frequency between [lo] and [hi] times the update frequency. *)
Lemma gip_interval_bounds lo hi hz ns tsc iTick c :
  0 ≤ lo → hi < 2 ^ 30 → 0 ≤ hz < 2 ^ 32 →
  length (gc_au32TSCHistory c) = 8%nat → Forall (λ h, lo ≤ h ≤ hi) (gc_au32TSCHistory c) →
  lo ≤ u64 (tsc - gc_u64TSC c) ≤ hi →
  let c' := run_state (supdrvGipDoUpdateCpu hz ns tsc iTick) c in
  lo ≤ gc_u32UpdateIntervalTSC c' ≤ hi + hi / 64
  ∧ lo * hz ≤ gc_u64CpuHz c' ≤ hi * hz
  ∧ Forall (λ h, lo ≤ h ≤ hi) (gc_au32TSCHistory c')
  ∧ gc_cErrors c' = gc_cErrors c.
Proof.
  intros Hlo Hhi Hhz Hlen Hall Hd. cbv zeta. rewrite DoUpdateCpu_spec by done. unfold update_spec.
  set (d := u64 (tsc - gc_u64TSC c)) in *.
  assert (Hs : Z.shiftr d 32 = 0) by (rewrite Z.shiftr_div_pow2, Z.div_small; lia).
  rewrite Hs. cbn [Z.eqb negb].
  set (h0 := if _ && _ then _ else _).
  assert (Hh0 : length h0 = 8%nat ∧ Forall (λ h, lo ≤ h ≤ hi) h0).
  { unfold h0. destruct (_ && _); [|done]. split; [done|]. rewrite u32_small by lia.
    by apply Forall_replicate. }
  set (h := <[Z.to_nat _ := u32 d]> h0).
  assert (Hh : length h = 8%nat ∧ Forall (λ h, lo ≤ h ≤ hi) h).
  { unfold h. rewrite length_insert. split; [apply Hh0|]. apply Forall_insert; [apply Hh0|].
    rewrite u32_small by lia. done. }
  set (iHead := Z.land _ 7).
  destruct (tsc_interval_bounds lo hi hz iHead d (st_TSCHistory h c) Hlo Hhi Hd (proj1 Hh) (proj2 Hh))
    as [H1 H2].
  set (iv := tsc_interval _ _ _ _) in *. cbn [gc_u32UpdateIntervalTSC gc_u64CpuHz gc_au32TSCHistory gc_cErrors].
  assert (hi / 64 ≤ hi) by (apply Z.div_le_upper_bound; lia).
  rewrite u32_small by lia. rewrite u64_small by nia.
  split_and!; [lia|lia|nia|nia|apply Hh|done].
Qed.

(** * Asynchronous time stamp counters *)

Lemma async_round_spec f n cLoops i s rest :
  at_fAsync s = false →
  let l := (λ k, f cLoops (i + Z.of_nat k)) <$> seq 0 n in
  let '(s', fBreak) := async_round f n cLoops i s in
  at_fAsync s' = false ∧ fBreak = false
     ∧ strictly_increasing (at_PrevTsc s) (tsc_samples (l ++ rest))
       = strictly_increasing (at_PrevTsc s') (tsc_samples rest)
  ∨ fBreak = true ∧ at_fAsync s' = negb (strictly_increasing (at_PrevTsc s) (tsc_samples (l ++ rest))).
Proof.
  revert i s. induction n as [|n IH]; intros i s Hs; [left; auto|]. cbn [async_round].
  set (l := (λ k, f cLoops (i + Z.of_nat k)) <$> seq 0 (S n)).
  assert (Hl : l = f cLoops i :: ((λ k, f cLoops (i + 1 + Z.of_nat k)) <$> seq 0 n)).
  { unfold l. cbn [seq]. rewrite fmap_cons, Z.add_0_r. f_equal. rewrite <- fmap_S_seq, <- list_fmap_compose.
    apply list_fmap_ext. intros k x _. unfold compose. f_equal. lia. }
  cbv zeta. rewrite Hl. clear l Hl. destruct (f cLoops i) as [rc tsc]. cbn [app tsc_samples].
  destruct (RT_SUCCESS rc).
  - unfold supdrvDetermineAsyncTscWorker. cbn [strictly_increasing].
    destruct (Z.leb_spec tsc (at_PrevTsc s)), (Z.ltb_spec (at_PrevTsc s) tsc); try lia; cbn [andb].
    { right. done. }
    set (s1 := mkAsync _ _ _ _). specialize (IH (i + 1) s1).
    assert (at_fAsync s1 = false) as Hs1 by (unfold s1; simpl; by destruct (_ || _)).
    assert (at_PrevTsc s1 = tsc) as Hp by done.
    specialize (IH Hs1). cbv zeta in IH. rewrite Hp in IH. exact IH.
  - destruct (rc =? VERR_NOT_SUPPORTED).
    + right. simpl. by rewrite Hs.
    + exact (IH (i + 1) s Hs).
Qed.

Lemma async_loop_spec f cLoops n s :
  at_fAsync s = false →
  at_fAsync (async_loop f cLoops n s)
  = negb (strictly_increasing (at_PrevTsc s) (tsc_samples (tsc_answers f cLoops n))).
Proof.
  revert s. induction cLoops as [|cLoops IH]; intros s Hs; [done|]. cbn [async_loop].
  unfold tsc_answers. rewrite seq_S, rev_app_distr. simpl rev. cbn [app].
  rewrite bind_cons. fold (tsc_answers f cLoops n).
  pose proof (async_round_spec f n (Z.of_nat cLoops) 0 s (tsc_answers f cLoops n) Hs) as H.
  cbv zeta in H. destruct (async_round f n (Z.of_nat cLoops) 0 s) as [s' []].
  - destruct H as [(_&?&_)|[_ H]]; [done|exact H].
  - destruct H as [(Hs'&_&H)|[? _]]; [|done].
    rewrite IH by done. f_equal. symmetry. exact H.
Qed.

(** The TSC scan is right: it reports asynchronous counters exactly when the counter
    values read over its eight rounds across all CPUs, after the caller's own and up to the
    first CPU that cannot be asked at all, are not strictly increasing. *)
Lemma async_tsc_spec onSpecific cArraySize rdTsc :
  fst (supdrvDetermineAsyncTsc onSpecific cArraySize rdTsc)
  = negb (strictly_increasing rdTsc (tsc_samples (tsc_answers onSpecific 8 cArraySize))).
Proof. unfold supdrvDetermineAsyncTsc. cbn [fst]. by apply async_loop_spec. Qed.

(** * The CPU table *)

Lemma cpu_find_Some f l i0 k :
  cpu_find f l i0 = Some k → ∃ n c, k = i0 + Z.of_nat n ∧ l !! n = Some c ∧ f c = true.
Proof.
  revert i0. induction l as [|c l IH]; intros i0; [done|]. simpl. destruct (f c) eqn:E.
  - intros [= <-]. exists 0%nat, c. split_and!; [lia|done|done].
  - intros (n&c'&->&?&?)%IH. exists (S n), c'. split_and!; [lia|done|done].
Qed.

Lemma cpu_find_None f l i0 : cpu_find f l i0 = None → Forall (λ c, f c = false) l.
Proof.
  revert i0. induction l as [|c l IH]; intros i0; [done|]. simpl. destruct (f c) eqn:E; [done|]. eauto.
Qed.

(** The entry found or claimed: it was the CPU's or free, and is the CPU's afterwards. *)
Lemma CpuIndexFromCpuId_spec g idCpu :
  Exists (λ c, gc_idCpu c = idCpu ∨ gc_idCpu c = NIL_RTCPUID) (g_aCPUs g) →
  ∃ n c, g_aCPUs g !! n = Some c
    ∧ (gc_idCpu c = idCpu ∨ gc_idCpu c = NIL_RTCPUID ∧ Forall (λ c, gc_idCpu c ≠ idCpu) (g_aCPUs g))
    ∧ ∀ h, g_aCPUs h = g_aCPUs g →
        fst (fst (supdrvGipCpuIndexFromCpuId idCpu h)) = Z.of_nat n
        ∧ run_state (supdrvGipCpuIndexFromCpuId idCpu) h = sg_aCPUs (<[n := st_idCpu idCpu c]> (g_aCPUs g)) h.
Proof.
  intros Hex. destruct (cpu_find (λ c, gc_idCpu c =? idCpu) (g_aCPUs g) 0) as [k|] eqn:E1.
  - pose proof E1 as (n&c&->&Hn&Hc%Z.eqb_eq)%cpu_find_Some. exists n, c. split_and!; [done|by left|].
    intros h Hh. unfold supdrvGipCpuIndexFromCpuId.
    rewrite run_state_bind, result_bind, result_load, run_state_load, Hh, E1.
    split; [done|]. rewrite run_state_ret, <- Hc. destruct c; simpl. rewrite list_insert_id by done.
    rewrite <- Hh. by destruct h.
  - destruct (cpu_find (λ c, gc_idCpu c =? NIL_RTCPUID) (g_aCPUs g) 0) as [k|] eqn:E2.
    + pose proof E2 as (n&c&->&Hn&Hc%Z.eqb_eq)%cpu_find_Some. exists n, c. split_and!; [done| |].
      * right. split; [done|]. eapply Forall_impl; [exact (cpu_find_None _ _ _ E1)|].
        intros c' H. by apply Z.eqb_neq.
      * intros h Hh. unfold supdrvGipCpuIndexFromCpuId.
        rewrite run_state_bind, result_bind, result_load, run_state_load, Hh, E1. cbn [claim_tries].
        rewrite !run_state_bind, !result_bind, !result_load, !run_state_load, Hh, E2.
        rewrite !Z.add_0_l, !run_state_bind, !result_bind, !result_ret, !run_state_ret. split; [done|].
        rewrite (run_state_onCpu _ _ _ c); [by rewrite Nat2Z.id, Hh|]. by rewrite Nat2Z.id, Hh.
    + exfalso. apply cpu_find_None in E1, E2. apply Exists_exists in Hex as (c&Hc&H).
      rewrite Forall_forall in E1, E2. specialize (E1 c Hc). specialize (E2 c Hc).
      apply Z.eqb_neq in E1, E2. tauto.
Qed.

Lemma cpu_ids_insert l n c c' :
  l !! n = Some c → (gc_idCpu c' = gc_idCpu c ∨ gc_idCpu c = NIL_RTCPUID ∧ Forall (λ c, gc_idCpu c ≠ gc_idCpu c') l) →
  NoDup (cpu_ids l) → NoDup (cpu_ids (<[n := c']> l)).
Proof.
  intros Hn Hc Hnd. unfold cpu_ids in *. rewrite list_fmap_insert.
  destruct Hc as [Hc|[Hc Hf]].
  { rewrite Hc, list_insert_id; [done|]. by rewrite list_lookup_fmap, Hn. }
  assert (Hn' : (gc_idCpu <$> l) !! n = Some NIL_RTCPUID) by by rewrite list_lookup_fmap, Hn, <- Hc.
  assert (Hf' : gc_idCpu c' ∉ gc_idCpu <$> l).
  { rewrite Forall_forall in Hf. intros (c0&He&H0)%list_elem_of_fmap. by apply (Hf c0 H0). }
  revert Hn' Hf' Hnd. generalize (gc_idCpu <$> l) as ids, (gc_idCpu c') as x. clear.
  intros ids x Hn Hx Hnd. apply list_elem_of_split_length in Hn as (l1&l2&->&->).
  rewrite insert_app_r_alt, Nat.sub_diag by done. simpl.
  rewrite filter_app, filter_cons_False in Hnd by tauto. rewrite filter_app, filter_cons.
  case_decide; [|by rewrite <- filter_app in *].
  rewrite <- Permutation_middle, <- filter_app in *. constructor; [|done].
  intros [_ Hin]%list_elem_of_filter. apply Hx. rewrite elem_of_app in *. set_solver.
Qed.

(** The page after an online event. *)
Lemma MpEventOnline_state g env idCpu n c :
  0 ≤ mp_iCpuSet env → g_aCPUs g !! n = Some c →
  (∀ h, g_aCPUs h = g_aCPUs g →
     fst (fst (supdrvGipCpuIndexFromCpuId idCpu h)) = Z.of_nat n
     ∧ run_state (supdrvGipCpuIndexFromCpuId idCpu) h = sg_aCPUs (<[n := st_idCpu idCpu c]> (g_aCPUs g)) h) →
  let g' := run_state (supdrvGipMpEventOnline env idCpu) g in
  g_aCPUs g' = <[n := st_enmState SUPGIPCPUSTATE_ONLINE (st_idCpu idCpu (st_iCpuSet (mp_iCpuSet env)
                       (st_idApic (mp_idApic env) (st_idCpu idCpu c))))]> (g_aCPUs g)
  ∧ g_aiCpuFromApicId g' = <[Z.to_nat (mp_idApic env) := u16 (Z.of_nat n)]> (g_aiCpuFromApicId g)
  ∧ g_aiCpuFromCpuSetIdx g' = <[Z.to_nat (mp_iCpuSet env) := u16 (Z.of_nat n)]> (g_aiCpuFromCpuSetIdx g)
  ∧ g_OnlineCpuSet g' = RTCpuSetAddByIndex (g_OnlineCpuSet g) (mp_iCpuSet env)
  ∧ g_cCpus g' = g_cCpus g.
Proof.
  intros Hset Hc Hidx. cbv zeta. unfold supdrvGipMpEventOnline.
  destruct (Z.leb_spec 0 (mp_iCpuSet env)); [|lia].
  autorewrite with stores_run. cbv beta.
  match goal with |- context [supdrvGipCpuIndexFromCpuId idCpu ?h] =>
    destruct (Hidx h eq_refl) as [Hres Hrun] end.
  rewrite Hres, Hrun. clear Hres Hrun Hidx.
  assert (Hlen : (n < length (g_aCPUs g))%nat) by by eapply lookup_lt_Some.
  cbn [g_OnlineCpuSet sg_OnlineCpuSet sg_cOnlineCpus sg_cPresentCpus gip_with g_PresentCpuSet].
  set (g0 := sg_PresentCpuSet _ _). assert (Hg0 : g_aCPUs g0 = g_aCPUs g) by done.
  assert (Hon : ∀ f c0, run_state (onCpu (Z.of_nat n) (store f)) (sg_aCPUs (<[n := c0]> (g_aCPUs g)) g0)
    = sg_aCPUs (<[n := f c0]> (g_aCPUs g)) g0).
  { intros f c0. rewrite (run_state_onCpu _ _ _ c0), Nat2Z.id.
    - unfold sg_aCPUs, gip_with; simpl. f_equal. by rewrite list_insert_insert_eq.
    - rewrite Nat2Z.id. cbn [g_aCPUs sg_aCPUs gip_with]. by rewrite list_lookup_insert_eq. }
  rewrite !Hon. set (c3 := st_idCpu idCpu (st_iCpuSet _ _)).
  unfold set_CpuSetIdx. destruct (Z.leb_spec 0 (mp_iCpuSet env)); [|lia].
  rewrite (run_state_onCpu _ _ _ c3), Nat2Z.id.
  2:{ rewrite Nat2Z.id. cbn [g_aCPUs sg_aCPUs sg_aiCpuFromCpuSetIdx sg_aiCpuFromApicId gip_with].
      by rewrite list_lookup_insert_eq. }
  cbn [g_aCPUs sg_aCPUs sg_aiCpuFromCpuSetIdx sg_aiCpuFromApicId gip_with].
  rewrite list_insert_insert_eq, run_state_store. done.
Qed.

Lemma RTCpuSetAdd_Del s i : 0 ≤ i < 256 →
  Z.testbit (RTCpuSetAddByIndex s i) i = true ∧ Z.testbit (RTCpuSetDelByIndex s i) i = false
  ∧ (∀ k, k ≠ i → Z.testbit (RTCpuSetAddByIndex s i) k = Z.testbit s k
                  ∧ Z.testbit (RTCpuSetDelByIndex s i) k = Z.testbit s k).
Proof.
  intros Hi. unfold RTCpuSetAddByIndex, RTCpuSetDelByIndex, RTCPUSET_MAX_CPUS.
  destruct (Z.ltb_spec i 0), (Z.leb_spec 256 i); try lia. simpl. split_and!.
  - by apply Z.setbit_eq.
  - apply Z.clearbit_eq.
  - intros k Hk. split; [by apply Z.setbit_neq|by apply Z.clearbit_neq].
Qed.

(** CPU hotplug.  When a CPU that is in the table, or for which the table has a free
    entry, comes online, there is an entry for it that both index tables lead to, that
    carries its identifiers and is online; its bit is set in the online set and no other is
    touched; no other entry changes, and no CPU gets a second entry.  When it goes offline
    again that same entry is marked offline and its bit is cleared. *)
Lemma hotplug_spec g env idCpu :
  g_cCpus g = Z.of_nat (length (g_aCPUs g)) → g_cCpus g ≤ 256 →
  length (g_aiCpuFromApicId g) = 256%nat → length (g_aiCpuFromCpuSetIdx g) = 256%nat →
  NoDup (cpu_ids (g_aCPUs g)) →
  Exists (λ c, gc_idCpu c = idCpu ∨ gc_idCpu c = NIL_RTCPUID) (g_aCPUs g) →
  0 ≤ mp_iCpuSet env < 256 → 0 ≤ mp_idApic env < 256 →
  let iCpuSet := mp_iCpuSet env in
  let g1 := run_state (supdrvGipMpEventOnline env idCpu) g in
  let g2 := run_state (supdrvGipMpEventOffline iCpuSet idCpu) g1 in
  ∃ n c, g_aCPUs g1 !! n = Some c
    ∧ apic_idx g1 (mp_idApic env) = Z.of_nat n
    ∧ g_aiCpuFromCpuSetIdx g1 !! Z.to_nat iCpuSet = Some (Z.of_nat n)
    ∧ (gc_idCpu c, gc_idApic c, gc_iCpuSet c, gc_enmState c)
      = (idCpu, mp_idApic env, iCpuSet, SUPGIPCPUSTATE_ONLINE)
    ∧ (∀ k, Z.testbit (g_OnlineCpuSet g1) k = (if k =? iCpuSet then true else Z.testbit (g_OnlineCpuSet g) k))
    ∧ (∀ k, k ≠ n → g_aCPUs g1 !! k = g_aCPUs g !! k)
    ∧ NoDup (cpu_ids (g_aCPUs g1))
    ∧ g_aCPUs g2 = <[n := st_enmState SUPGIPCPUSTATE_OFFLINE c]> (g_aCPUs g1)
    ∧ (∀ k, Z.testbit (g_OnlineCpuSet g2) k = (if k =? iCpuSet then false else Z.testbit (g_OnlineCpuSet g) k)).
Proof.
  intros Hn Hmax Hla Hls Hnd Hex Hset Hapic. cbv zeta.
  destruct (CpuIndexFromCpuId_spec g idCpu Hex) as (n&c&Hc&Hid&Hidx).
  assert (Hlt : (n < length (g_aCPUs g))%nat) by by eapply lookup_lt_Some.
  destruct (MpEventOnline_state g env idCpu n c ltac:(lia) Hc Hidx) as (Ha&Hai&Hasi&Hon&Hcc).
  set (g1 := run_state (supdrvGipMpEventOnline env idCpu) g) in *.
  set (c1 := st_enmState _ _) in Ha.
  destruct (RTCpuSetAdd_Del (g_OnlineCpuSet g) (mp_iCpuSet env) Hset) as (Hadd&_&Hoth).
  destruct (RTCpuSetAdd_Del (g_OnlineCpuSet g1) (mp_iCpuSet env) Hset) as (_&Hdel&Hoth').
  assert (Hu : u16 (Z.of_nat n) = Z.of_nat n) by (apply u16_small; lia).
  assert (Hc1 : g_aCPUs g1 !! n = Some c1) by by rewrite Ha, list_lookup_insert_eq.
  assert (Hidx1 : g_aiCpuFromCpuSetIdx g1 !! Z.to_nat (mp_iCpuSet env) = Some (Z.of_nat n))
    by (rewrite Hasi, list_lookup_insert_eq, Hu; [done|lia]).
  assert (Hg1 : ∀ k, Z.testbit (g_OnlineCpuSet g1) k
      = (if k =? mp_iCpuSet env then true else Z.testbit (g_OnlineCpuSet g) k)).
  { intros k. rewrite Hon. destruct (Z.eqb_spec k (mp_iCpuSet env)) as [->|Hk]; [done|by apply Hoth]. }
  assert (Hoff : g_aCPUs (run_state (supdrvGipMpEventOffline (mp_iCpuSet env) idCpu) g1)
                 = <[n := st_enmState SUPGIPCPUSTATE_OFFLINE c1]> (g_aCPUs g1)
    ∧ g_OnlineCpuSet (run_state (supdrvGipMpEventOffline (mp_iCpuSet env) idCpu) g1)
      = RTCpuSetDelByIndex (g_OnlineCpuSet g1) (mp_iCpuSet env)).
  { unfold supdrvGipMpEventOffline. destruct (Z.ltb_spec (mp_iCpuSet env) 0); [lia|].
    autorewrite with stores_run. unfold id. rewrite Hidx1. cbn [default from_option].
    unfold id. destruct (Z.leb_spec (g_cCpus g1) (Z.of_nat n)); [lia|].
    unfold cpu_at. rewrite Nat2Z.id, Hc1. simpl (gc_idCpu _). rewrite Z.eqb_refl. cbn [negb].
    autorewrite with stores_run. rewrite (run_state_onCpu _ _ _ c1); rewrite Nat2Z.id; done. }
  destruct Hoff as [Hoff Hoffs]. exists n, c1. split_and!; try done.
  - unfold apic_idx. rewrite Hai, list_lookup_insert_eq, Hu; [done|lia].
  - intros k Hk. rewrite Ha. by rewrite list_lookup_insert_ne by done.
  - rewrite Ha. apply (cpu_ids_insert _ _ c); [done| |done].
    destruct Hid as [<-|Hid]; [by left|by right].
  - intros k. rewrite Hoffs. destruct (Z.eqb_spec k (mp_iCpuSet env)) as [->|Hk]; [done|].
    destruct (Hoth' k Hk) as [_ ->]. rewrite Hg1. by destruct (Z.eqb_spec k (mp_iCpuSet env)).
Qed.

(** ** What the CPU table operations leave alone *)

Section frame.
Context {S B : Type} (F : S → B).

Definition frames {A} (m : stores S A) : Prop := ∀ s, F (run_state m s) = F s.

Lemma frames_bind {A1 A2} (m : stores S A1) (k : A1 → stores S A2) :
  frames m → (∀ a, frames (k a)) → frames (sbind m k).
Proof. intros Hm Hk s. rewrite run_state_bind. by rewrite Hk, Hm. Qed.

Lemma frames_if {A} (b : bool) (m1 m2 : stores S A) : frames m1 → frames m2 → frames (if b then m1 else m2).
Proof. by destruct b. Qed.
End frame.

(** The globals that do not change while the page exists, apart from the update frequency. *)
Definition gip_consts (g : SUPGLOBALINFOPAGE) : Z * Z * Z * Z * Z * Z :=
  (g_u32Magic g, g_u32Version g, g_u32Mode g, g_cCpus g, g_u32UpdateHz g, g_u32UpdateIntervalNS g).

Lemma onCpu_frames_consts j m : frames gip_consts (onCpu j m).
Proof. intros g. unfold run_state, onCpu. destruct (_ !! _); [|done]. by destruct (m _) as [[]]. Qed.

Lemma MpEventOnline_frames env idCpu : frames gip_consts (supdrvGipMpEventOnline env idCpu).
Proof.
  assert (Hc : ∀ n, frames gip_consts (claim_tries n idCpu)).
  { induction n as [|n IH]; simpl; [by intros g|]. apply frames_bind; [by intros g|].
    intros [i|]; [|done]. apply frames_bind; [apply onCpu_frames_consts|by intros _ g]. }
  assert (Hi : frames gip_consts (supdrvGipCpuIndexFromCpuId idCpu)).
  { apply frames_bind; [by intros g|]. intros [i|]; [by intros g|].
    apply frames_bind; [apply Hc|]. intros [i|]; by intros g. }
  unfold supdrvGipMpEventOnline.
  repeat match goal with
    | |- frames _ (sbind _ _) => apply frames_bind; [|intros ?]
    | |- frames _ (if _ then _ else _) => apply frames_if
    end;
    first [exact Hi | apply onCpu_frames_consts | by intros g | intros g].
  unfold run_state, store, set_CpuSetIdx. simpl. by destruct (0 <=? _).
Qed.

(** * Witnesses *)

(** A page for two CPUs, both online, the first the master. *)
Definition demo_mpinfo : MpInfo := mkMpInfo SUPGIPMODE_ASYNC_TSC 3 2 2 2 1 (λ i, 40000000 + i).
Definition demo_env (k : Z) : MpEnv := mkMpEnv 2 2 k k.
Definition demo_gip0 : SUPGLOBALINFOPAGE := supdrvGipInit demo_mpinfo 1000000 100 2.
Definition demo_gip : SUPGLOBALINFOPAGE :=
  run_state (supdrvGipInitOnCpu 0 (demo_env 0) ;;; supdrvGipInitOnCpu 1 (demo_env 1)) demo_gip0.
Definition demo_ticks : list gip_tick :=
  [TickMaster 11000000 80000000 0 0 2; TickPerCpu 11000000 80000000 1 1 1 (demo_env 1)].

Lemma gip_reader_consistent_witness :
  let seen := run_seen (run_ticks demo_ticks) demo_gip in
  Forall (λ g', sample g' 1 = sample demo_gip 1) (take 8 seen ++ [default demo_gip (seen !! 8%nat)]).
Proof.
  cbv zeta.
  apply (gip_reader_consistent demo_gip 1 demo_ticks [] demo_gip
    (take 8 (run_seen (run_ticks demo_ticks) demo_gip))
    (default demo_gip (run_seen (run_ticks demo_ticks) demo_gip !! 8%nat))
    (drop 9 (run_seen (run_ticks demo_ticks) demo_gip))); vm_compute; reflexivity.
Defined.

Lemma gip_update_functional_witness :
  map (λ c, (gc_u32TransactionId c, gc_u64NanoTS c, gc_u64TSC c))
    (g_aCPUs (run_state (supdrvGipUpdate 11000000 80000000 0 0 2) demo_gip))
  = [(4, 11000000, 80000000); (2, 1000000, 40000001)].
Proof.
  rewrite (gip_update_functional demo_gip 11000000 80000000 0 0 2).
  - vm_compute. reflexivity.
  - split_and!; [reflexivity|vm_compute; discriminate| |].
    + apply Forall_forall. intros x Hx. vm_compute in Hx. repeat (apply elem_of_cons in Hx as [->|Hx]; [done|]).
      by apply not_elem_of_nil in Hx.
    + repeat constructor.
Defined.

Lemma gip_interval_bounds_witness :
  let c' := run_state (supdrvGipDoUpdateCpu 100 11000000 80000000 2) (cpu_at demo_gip 0) in
  39000000 ≤ gc_u32UpdateIntervalTSC c' ≤ 45000000 + 45000000 / 64
  ∧ 39000000 * 100 ≤ gc_u64CpuHz c' ≤ 45000000 * 100.
Proof.
  destruct (gip_interval_bounds 39000000 45000000 100 11000000 80000000 2 (cpu_at demo_gip 0))
    as (H1&H2&_); [lia|lia|lia|reflexivity| |vm_compute; split; discriminate|split; [exact H1|exact H2]].
  change (gc_au32TSCHistory (cpu_at demo_gip 0)) with (replicate 8 42949672).
  apply Forall_replicate. lia.
Defined.

Lemma hotplug_spec_witness :
  ∃ n c, g_aCPUs (run_state (supdrvGipMpEventOnline (demo_env 1) 1) demo_gip0) !! n = Some c
    ∧ gc_idCpu c = 1 ∧ gc_enmState c = SUPGIPCPUSTATE_ONLINE.
Proof.
  destruct (hotplug_spec demo_gip0 (demo_env 1) 1) as (n&c&Hc&_&_&Hf&_);
    [reflexivity|vm_compute; discriminate|reflexivity|reflexivity|vm_compute; constructor
    |constructor; right; reflexivity|vm_compute; split; [discriminate|reflexivity]
    |vm_compute; split; [discriminate|reflexivity]|].
  exists n, c. split; [exact Hc|]. injection Hf as ? _ _ ?. split; assumption.
Defined.
