(* ===== verification/Gip.v ===== *)
(** The users of the global info page and its life time: [SUPR0GipMap], [SUPR0GipUnmap],
    [SUPGetGIP], [supdrvGipCreate], [supdrvGipDestroy], the timer callbacks
    [supdrvGipSyncTimer] and [supdrvGipAsyncTimer], the multiprocessor callback
    [supdrvGipMpEvent] and the GIP part of [supdrvCleanupSession].

    State: the GIP members of the device extension and, per session, the GIP members of
    [SUPDRVSESSION].  What the operating system answers is in an environment record per
    operation. *)

From S2P Require Import Prelude SupTypes GipPage.
Local Open Scope Z_scope.
Local Open Scope sup_scope.

(** * Data *)

(** [d_page] is the memory [d_pGip] points to. [d_g_pSUPGlobalInfoPage] is the exported
    global variable. *)
Record GipExt := mkGipExt {
  d_pGip : ptr;
  d_page : SUPGLOBALINFOPAGE;
  d_HCPhysGip : Z;
  d_cGipUsers : Z;
  d_GipMemObj : Z;
  d_pGipTimer : ptr;
  d_u32SystemTimerGranularityGrant : Z;
  d_idGipMaster : Z;
  d_g_pSUPGlobalInfoPage : ptr;
}.

Record GipSess := mkGipSess {
  gs_GipMapObjR3 : Z;
  gs_fGipReferenced : bool;
}.

(** The device extension's part and the sessions'. *)
Abbreviation GipState := (GipExt * gmap Z GipSess)%type.

Definition set_page (g : SUPGLOBALINFOPAGE) (d : GipExt) : GipExt :=
  mkGipExt (d_pGip d) g (d_HCPhysGip d) (d_cGipUsers d) (d_GipMemObj d) (d_pGipTimer d)
    (d_u32SystemTimerGranularityGrant d) (d_idGipMaster d) (d_g_pSUPGlobalInfoPage d).

Definition set_users (cGipUsers grant : Z) (d : GipExt) : GipExt :=
  mkGipExt (d_pGip d) (d_page d) (d_HCPhysGip d) cGipUsers (d_GipMemObj d) (d_pGipTimer d)
    grant (d_idGipMaster d) (d_g_pSUPGlobalInfoPage d).

Definition set_idGipMaster (id : Z) (d : GipExt) : GipExt :=
  mkGipExt (d_pGip d) (d_page d) (d_HCPhysGip d) (d_cGipUsers d) (d_GipMemObj d) (d_pGipTimer d)
    (d_u32SystemTimerGranularityGrant d) id (d_g_pSUPGlobalInfoPage d).

Definition gip_sess (m : gmap Z GipSess) (s : ptr) : GipSess :=
  default (mkGipSess NIL_RTR0MEMOBJ false) (m !! s).

(** * Mapping *)

(** [me_MapUser] is the status and the handle of [RTR0MemObjMapUser]; [me_Granularity] the
    status and the resolution of the four requests [SUPR0GipMap] may make; [me_OnAll] the
    CPUs [RTMpOnAll] runs the callback on, with their APIC identifiers and counters. *)
Record GipMapEnv := mkGipMapEnv {
  me_MapUser : Z * Z;
  me_AddressR3 : Z → ptr;
  me_Granularity : list (Z * Z);
  me_SystemNanoTS : Z;
  me_cOnline : Z;
  me_TSC : Z;
  me_OnAll : list (Z * Z * Z);
}.

(** The first of the requests that succeeds. *)
Fixpoint request_granularity (l : list (Z * Z)) (grant : Z) : Z :=
  match l with
  | [] => grant
  | (rc, res) :: l => if RT_SUCCESS rc then res else request_granularity l grant
  end.

(** Resuming the updates: the transaction identifiers are rounded up to a multiple of the
    recalculation period, except the first time, and the time stamps set. *)
Definition gip_resume (env : GipMapEnv) (pGipR0 : SUPGLOBALINFOPAGE) : SUPGLOBALINFOPAGE :=
  let g :=
    if negb (gc_u32TransactionId (cpu_at pGipR0 0) =? 2) then
      sg_NanoTSLastUpdateHz 0
        (sg_aCPUs (declared_cpus (λ c, st_TransactionId
           (Z.land (u32 (gc_u32TransactionId c + GIP_UPDATEHZ_RECALC_FREQ * 2))
                   (2 ^ 32 - 1 - (GIP_UPDATEHZ_RECALC_FREQ * 2 - 1))) c) (g_aCPUs pGipR0)) pGipR0)
    else pGipR0 in
  let u64NanoTS := u64 (me_SystemNanoTS env - g_u32UpdateIntervalNS g) in
  if (g_u32Mode g =? SUPGIPMODE_SYNC_TSC) || (me_cOnline env =? 1)
  then sg_aCPUs (alter (supdrvGipReInitCpu (me_TSC env) u64NanoTS) 0%nat (g_aCPUs g)) g
  else fold_left (λ g '(idCpu, idApic, tsc), supdrvGipReInitCpuCallback idCpu idApic tsc u64NanoTS g)
         (me_OnAll env) g.

(** The results are the status, what is stored in [*ppGipR3] and [*pHCPhysGip] when these are
    not NULL, the state and the calls.  The status of [RTTimerStart] is not looked at. *)
Definition SUPR0GipMap (st : GipState) (pSession : SUPDRVSESSION) (ppGipR3 pHCPhysGip : ptr)
    (env : GipMapEnv) : Z * (ptr * Z) * GipState * list event :=
  let '(d, m) := st in
  let s := gip_sess m (s_self pSession) in
  let nil := (NIL_RTR3PTR, NIL_RTHCPHYS) in
  if negb (SUP_IS_SESSION_VALID pSession) then (VERR_INVALID_PARAMETER, nil, st, [])
  else if negb (VALID_PTR_OR_NULL ppGipR3) then (VERR_INVALID_POINTER, nil, st, [])
  else if negb (VALID_PTR_OR_NULL pHCPhysGip) then (VERR_INVALID_POINTER, nil, st, [])
  else if negb (d_pGip d =? NULL) then
    let '(rc, s, pGipR3) :=
      if negb (ppGipR3 =? NULL) then
        let '(rc, hMap) :=
          if gs_GipMapObjR3 s =? NIL_RTR0MEMOBJ then me_MapUser env
          else (VINF_SUCCESS, gs_GipMapObjR3 s) in
        if RT_SUCCESS rc
        then (rc, mkGipSess hMap (gs_fGipReferenced s), me_AddressR3 env hMap)
        else (rc, s, NIL_RTR3PTR)
      else (VINF_SUCCESS, s, NIL_RTR3PTR) in
    let HCPhys := if negb (pHCPhysGip =? NULL) && RT_SUCCESS rc then d_HCPhysGip d else NIL_RTHCPHYS in
    let out := (pGipR3, HCPhys) in
    if negb (gs_fGipReferenced s) && RT_SUCCESS rc then
      let m := <[s_self pSession := mkGipSess (gs_GipMapObjR3 s) true]> m in
      let cGipUsers := u32 (d_cGipUsers d + 1) in
      if cGipUsers =? 1 then
        let grant := request_granularity (me_Granularity env) (d_u32SystemTimerGranularityGrant d) in
        let d := set_page (gip_resume env (d_page d)) (set_users cGipUsers grant d) in
        (VINF_SUCCESS, out, (d, m), [EvTimerStart])
      else (rc, out, (set_users cGipUsers (d_u32SystemTimerGranularityGrant d) d, m), [])
    else (rc, out, (d, <[s_self pSession := s]> m), [])
  else (VERR_GENERAL_FAILURE, nil, st, []).

(** [rcFree] is what [RTR0MemObjFree] returns for the mapping. *)
Definition SUPR0GipUnmap (st : GipState) (pSession : SUPDRVSESSION) (rcFree : Z)
    : Z * GipState * list event :=
  let '(d, m) := st in
  let s := gip_sess m (s_self pSession) in
  if negb (SUP_IS_SESSION_VALID pSession) then (VERR_INVALID_PARAMETER, st, [])
  else
    let '(rc, s, ev) :=
      if negb (gs_GipMapObjR3 s =? NIL_RTR0MEMOBJ) then
        (rcFree,
         if RT_SUCCESS rcFree then mkGipSess NIL_RTR0MEMOBJ (gs_fGipReferenced s) else s,
         [EvMemObjFree (gs_GipMapObjR3 s) false])
      else (VINF_SUCCESS, s, []) in
    if gs_fGipReferenced s && (rc =? 0) then
      let m := <[s_self pSession := mkGipSess (gs_GipMapObjR3 s) false]> m in
      let cGipUsers := if 0 <? d_cGipUsers d then d_cGipUsers d - 1 else d_cGipUsers d in
      if (0 <? d_cGipUsers d) && (cGipUsers =? 0) then
        let grant := d_u32SystemTimerGranularityGrant d in
        (VINF_SUCCESS, (set_users cGipUsers 0 d, m),
         ev ++ [EvTimerStop] ++ (if negb (grant =? 0) then [EvGranularityRelease grant] else []))
      else (rc, (set_users cGipUsers (d_u32SystemTimerGranularityGrant d) d, m), ev)
    else (rc, (d, <[s_self pSession := s]> m), ev).

Definition SUPGetGIP (d : GipExt) : ptr := d_g_pSUPGlobalInfoPage d.

(** The end of [supdrvCleanupSession]; the session itself is freed afterwards. *)
Definition supdrvCleanupSession_gip (st : GipState) (pSession : SUPDRVSESSION) (rcFree : Z)
    : GipState * list event :=
  let s := gip_sess (snd st) (s_self pSession) in
  if negb (gs_GipMapObjR3 s =? NIL_RTR0MEMOBJ) then
    let '(_, (d, m), ev) := SUPR0GipUnmap st pSession rcFree in
    (d, alter (λ s, mkGipSess (gs_GipMapObjR3 s) false) (s_self pSession) m, ev)
  else (st, []).

(** * Timers and multiprocessor events *)

Definition supdrvGipSyncTimer (d : GipExt) (u64TSC NanoTS idApic iTick : Z) : GipExt :=
  set_page (run_state (supdrvGipUpdate NanoTS u64TSC NIL_RTCPUID idApic iTick) (d_page d)) d.

(** [idCpu] is [RTMpCpuId()]. *)
Definition supdrvGipAsyncTimer (d : GipExt) (idCpu u64TSC NanoTS idApic iTick : Z) (env : MpEnv) : GipExt :=
  set_page
    (run_state
       (if d_idGipMaster d =? idCpu
        then supdrvGipUpdate NanoTS u64TSC idCpu idApic iTick
        else supdrvGipUpdatePerCpu NanoTS u64TSC idCpu idApic iTick env) (d_page d)) d.

Definition RTMPEVENT_ONLINE : Z := 1.
Definition RTMPEVENT_OFFLINE : Z := 2.

Section mp.
(** [RTMpCpuIdToSetIndex] (negative for an identifier it does not know) and
    [RTMpCpuIdFromSetIndex]. *)
Context (ToSetIndex FromSetIndex : Z → Z).

(** [RTCpuSetIsMember] *)
Definition RTCpuSetIsMember (s idCpu : Z) : bool :=
  let iCpu := ToSetIndex idCpu in
  if iCpu <? 0 then false else Z.testbit s iCpu.

(** The search for another online CPU, from set index [i] over [n] indexes. *)
Fixpoint find_master (n : nat) (i OnlineCpus idGipMaster : Z) : Z :=
  match n with
  | O => NIL_RTCPUID
  | S n =>
      let idCurCpu := FromSetIndex i in
      if RTCpuSetIsMember OnlineCpus idCurCpu && negb (idCurCpu =? idGipMaster) then idCurCpu
      else find_master n (i + 1) OnlineCpus idGipMaster
  end.

(** [OnlineCpus] is what [RTMpGetOnlineSet] stores; [others] is what happens on other CPUs
    before the compare-and-exchange. *)
Definition supdrvGipMpEvent (d : GipExt) (enmEvent idCpu : Z) (cPresent cOnline idApic : Z)
    (OnlineCpus : Z) (others : GipExt → GipExt) : GipExt :=
  let d :=
    if negb (d_pGip d =? NULL) then
      if enmEvent =? RTMPEVENT_ONLINE then
        set_page (run_state (supdrvGipMpEventOnline
                    (mkMpEnv cPresent cOnline (ToSetIndex idCpu) idApic) idCpu) (d_page d)) d
      else if enmEvent =? RTMPEVENT_OFFLINE then
        set_page (run_state (supdrvGipMpEventOffline (ToSetIndex idCpu) idCpu) (d_page d)) d
      else d
    else d in
  if enmEvent =? RTMPEVENT_OFFLINE then
    let idGipMaster := d_idGipMaster d in
    if idGipMaster =? idCpu then
      let idNewGipMaster := find_master (Z.to_nat RTCPUSET_MAX_CPUS) 0 OnlineCpus idGipMaster in
      let d := others d in
      if d_idGipMaster d =? idGipMaster then set_idGipMaster idNewGipMaster d else d
    else d
  else d.
End mp.

(** * Creation and destruction *)

(** [while (u32Interval < 10000000) u32Interval += u32SystemResolution;] *)
Fixpoint interval_loop (fuel : nat) (u32Interval u32SystemResolution : Z) : option Z :=
  match fuel with
  | O => None
  | S fuel =>
      if u32Interval <? 10000000
      then interval_loop fuel (u32 (u32Interval + u32SystemResolution)) u32SystemResolution
      else Some u32Interval
  end.

(** [None] when the loop does not end. *)
Definition gip_interval (u32SystemResolution : Z) : option Z :=
  interval_loop (S (Z.to_nat (10000000 / u32SystemResolution)))
    u32SystemResolution u32SystemResolution.

(** The page after [supdrvGipTerm] is part of the result: it is the memory that is freed. *)
Definition supdrvGipDestroy (d : GipExt) : GipExt * list event :=
  let page := if negb (d_pGip d =? NULL) then supdrvGipTerm (d_page d) else d_page d in
  let ev1 := if negb (d_pGipTimer d =? NULL) then [EvTimerDestroy] else [] in
  let ev2 := if negb (d_GipMemObj d =? NIL_RTR0MEMOBJ)
             then [EvMemObjFree (d_GipMemObj d) true] else [] in
  let grant := d_u32SystemTimerGranularityGrant d in
  let ev3 := if negb (grant =? 0) then [EvGranularityRelease grant] else [] in
  (mkGipExt NULL page (d_HCPhysGip d) (d_cGipUsers d) NIL_RTR0MEMOBJ NULL 0 (d_idGipMaster d) NULL,
   ev1 ++ ev2 ++ ev3).

(** [ce_Alloc]: status, handle, address and physical address of the page; [ce_TimerAll] and
    [ce_Timer]: status and handle of the two kinds of timer; [ce_Cpus]: the CPUs
    [RTMpOnAll] runs [supdrvGipInitOnCpu] on. *)
Record GipCreateEnv := mkGipCreateEnv {
  ce_cArray : Z;
  ce_Alloc : Z * Z * ptr * Z;
  ce_Resolution : Z;
  ce_NanoTS : Z;
  ce_MpInfo : MpInfo;
  ce_TimerAll : Z * ptr;
  ce_Timer : Z * ptr;
  ce_NotificationRegister : Z;
  ce_OnAll : Z;
  ce_Cpus : list (Z * MpEnv);
}.

Definition supdrvGipCreate (d : GipExt) (env : GipCreateEnv) : option (Z * GipExt * list event) :=
  let cCpus := ce_cArray env in
  if (RTCPUSET_MAX_CPUS <? cCpus) || (256 <? cCpus) then Some (VERR_TOO_MANY_CPUS, d, [])
  else
    let '(rc, hMem, pv, HCPhys) := ce_Alloc env in
    if RT_FAILURE rc then Some (rc, d, [])
    else
      match gip_interval (ce_Resolution env) with
      | None => None
      | Some u32Interval =>
          let page := supdrvGipInit (ce_MpInfo env) (ce_NanoTS env) (1000000000 / u32Interval) cCpus in
          let '(rc, pTimer, page) :=
            if g_u32Mode page =? SUPGIPMODE_ASYNC_TSC then
              let '(rc, p) := ce_TimerAll env in
              if rc =? VERR_NOT_SUPPORTED then (rc, NULL, sg_Mode SUPGIPMODE_SYNC_TSC page)
              else (rc, if RT_SUCCESS rc then p else NULL, page)
            else (VINF_SUCCESS, NULL, page) in
          let '(rc, pTimer) :=
            if negb (g_u32Mode page =? SUPGIPMODE_ASYNC_TSC) then
              let '(rc, p) := ce_Timer env in (rc, if RT_SUCCESS rc then p else NULL)
            else (rc, pTimer) in
          let d page := mkGipExt pv page HCPhys 0 hMem pTimer (d_u32SystemTimerGranularityGrant d)
                          (d_idGipMaster d) (d_g_pSUPGlobalInfoPage d) in
          let destroy rc page ev :=
            let '(d, ev') := supdrvGipDestroy (d page) in Some (rc, d, ev ++ ev') in
          if RT_SUCCESS rc then
            let rc := ce_NotificationRegister env in
            if RT_SUCCESS rc then
              let page := fold_left (λ g '(idCpu, e), run_state (supdrvGipInitOnCpu idCpu e) g)
                            (ce_Cpus env) page in
              let rc := ce_OnAll env in
              if RT_SUCCESS rc then
                let d := d page in
                Some (VINF_SUCCESS,
                      mkGipExt (d_pGip d) (d_page d) (d_HCPhysGip d) (d_cGipUsers d) (d_GipMemObj d)
                        (d_pGipTimer d) (d_u32SystemTimerGranularityGrant d) (d_idGipMaster d) pv, [])
              else destroy rc page [EvMpDeregister]
            else destroy rc page []
          else destroy rc page []
      end.

(** * Specifications *)

(** Whether the timer runs after these calls. *)
Definition timer_after (fRunning : bool) (ev : list event) : bool :=
  fold_left (λ b e, match e with EvTimerStart => true | EvTimerStop | EvTimerDestroy => false | _ => b end)
    ev fRunning.

(** The sessions that hold a reference. *)
Definition gip_refs (m : gmap Z GipSess) : Z := gsum (λ s, if gs_fGipReferenced s then 1 else 0) m.

(** The operations on the users, with the timer; a session is closed by its cleanup and then
    forgotten. The number of references ever leaked does not fill 32 bits. *)
Inductive gip_step : GipState * bool → GipState * bool → Prop :=
| gstep_map st pSession ppGipR3 pHCPhysGip env rc out st' ev b :
    d_cGipUsers (fst st) < 2 ^ 32 - 1 →
    SUPR0GipMap st pSession ppGipR3 pHCPhysGip env = (rc, out, st', ev) →
    gip_step (st, b) (st', timer_after b ev)
| gstep_unmap st pSession rcFree rc st' ev b :
    SUPR0GipUnmap st pSession rcFree = (rc, st', ev) →
    gip_step (st, b) (st', timer_after b ev)
| gstep_close st pSession rcFree st' ev b :
    supdrvCleanupSession_gip st pSession rcFree = (st', ev) →
    gip_step (st, b) ((fst st', delete (s_self pSession) (snd st')), timer_after b ev).

(** The users are at least the sessions holding a reference, the timer runs exactly while
    there are users, and only then is a timer resolution requested. *)
Definition gip_users_ok (x : GipState * bool) : Prop :=
  let '((d, m), fRunning) := x in
  gip_refs m ≤ d_cGipUsers d < 2 ^ 32
  ∧ fRunning = (0 <? d_cGipUsers d)
  ∧ (d_cGipUsers d = 0 → d_u32SystemTimerGranularityGrant d = 0).

(** The state [supdrvGipCreate] leaves. *)
Definition gip_start (d : GipExt) : Prop :=
  d_cGipUsers d = 0 ∧ d_u32SystemTimerGranularityGrant d = 0.

(** Nothing of the page exists: what [supdrvGipCreate] starts from. *)
Definition gip_none (d : GipExt) : Prop :=
  d_pGip d = NULL ∧ d_GipMemObj d = NIL_RTR0MEMOBJ ∧ d_pGipTimer d = NULL
  ∧ d_u32SystemTimerGranularityGrant d = 0 ∧ d_g_pSUPGlobalInfoPage d = NULL.

(** What creation acquires and gives back when it fails later. *)
Definition create_undo (hMem : Z) (fTimer fNotify : bool) : list event :=
  (if fNotify then [EvMpDeregister] else []) ++ (if fTimer then [EvTimerDestroy] else [])
  ++ [EvMemObjFree hMem true].

(** The timer creation asks for: one for all CPUs in asynchronous mode where there is one. *)
Definition create_timer (env : GipCreateEnv) : Z * ptr :=
  let fAll := (mi_u32Mode (ce_MpInfo env) =? SUPGIPMODE_ASYNC_TSC)
              && negb (fst (ce_TimerAll env) =? VERR_NOT_SUPPORTED) in
  let '(rc, p) := if fAll then ce_TimerAll env else ce_Timer env in
  (rc, if RT_SUCCESS rc then p else NULL).

(** Whether the page is allocated, and the notification then registered. *)
Definition create_page_ok (env : GipCreateEnv) : bool :=
  negb ((RTCPUSET_MAX_CPUS <? ce_cArray env) || (256 <? ce_cArray env)) && RT_SUCCESS (ce_Alloc env).1.1.1.

Definition create_notify_ok (env : GipCreateEnv) : bool :=
  RT_SUCCESS (fst (create_timer env)) && RT_SUCCESS (ce_NotificationRegister env).

(** Everything creation has acquired when it fails, in the order in which it gives it back. *)
Definition create_undone (env : GipCreateEnv) : list event :=
  if create_page_ok env then
    create_undo (ce_Alloc env).1.1.2 (negb (snd (create_timer env) =? NULL)) (create_notify_ok env)
  else [].

(** * Users *)

Lemma gip_refs_nonneg m : 0 ≤ gip_refs m.
Proof. apply gsum_nonneg. intros k x _. by destruct (gs_fGipReferenced x). Qed.

Lemma gip_refs_insert m s x :
  gip_refs (<[s := x]> m)
  = gip_refs m - (if gs_fGipReferenced (gip_sess m s) then 1 else 0) + (if gs_fGipReferenced x then 1 else 0).
Proof. unfold gip_refs, gip_sess. rewrite gsum_insert. destruct (m !! s); simpl; lia. Qed.

Lemma gip_refs_delete m s :
  gip_refs (delete s m) = gip_refs m - (if gs_fGipReferenced (gip_sess m s) then 1 else 0).
Proof.
  unfold gip_refs, gip_sess. destruct (m !! s) eqn:E; simpl.
  - rewrite (gsum_delete _ m s _ E). lia.
  - rewrite delete_id by done. lia.
Qed.

Lemma gip_refs_referenced m s : gs_fGipReferenced (gip_sess m s) = true → 1 ≤ gip_refs m.
Proof. intros H. pose proof (gip_refs_nonneg (delete s m)). rewrite gip_refs_delete, H in *. lia. Qed.

Lemma timer_after_app b l1 l2 : timer_after b (l1 ++ l2) = timer_after (timer_after b l1) l2.
Proof. apply fold_left_app. Qed.

(** What mapping does to the users: one more when the session had no reference and the call
    succeeds, and the timer is started for the first. *)
Lemma GipMap_users d m pSession ppGipR3 pHCPhysGip env rc out d' m' ev :
  0 ≤ d_cGipUsers d < 2 ^ 32 - 1 →
  SUPR0GipMap (d, m) pSession ppGipR3 pHCPhysGip env = (rc, out, (d', m'), ev) →
  let s := gip_sess m (s_self pSession) in
  (d' = d ∧ gip_refs m' = gip_refs m ∧ ev = [])
  ∨ (gs_fGipReferenced s = false ∧ RT_SUCCESS rc = true
     ∧ gip_refs m' = gip_refs m + 1 ∧ d_cGipUsers d' = d_cGipUsers d + 1
     ∧ (if d_cGipUsers d =? 0 then ev = [EvTimerStart]
        else ev = [] ∧ d_u32SystemTimerGranularityGrant d' = d_u32SystemTimerGranularityGrant d)).
Proof.
  intros Hu H. unfold SUPR0GipMap in H. set (s := gip_sess m (s_self pSession)) in *. cbv zeta.
  destruct (negb (SUP_IS_SESSION_VALID pSession)); [left; by simplify_eq|].
  destruct (negb (VALID_PTR_OR_NULL ppGipR3)); [left; by simplify_eq|].
  destruct (negb (VALID_PTR_OR_NULL pHCPhysGip)); [left; by simplify_eq|].
  destruct (negb (d_pGip d =? NULL)); [|left; by simplify_eq].
  destruct (if negb (ppGipR3 =? NULL) then _ else _) as [[rc1 s1] p1] eqn:E1.
  assert (Hs1 : gs_fGipReferenced s1 = gs_fGipReferenced s).
  { destruct (negb (ppGipR3 =? NULL)); [|by simplify_eq].
    destruct (if gs_GipMapObjR3 s =? NIL_RTR0MEMOBJ then _ else _) as [rc2 h].
    by destruct (RT_SUCCESS rc2); simplify_eq. }
  destruct (negb (gs_fGipReferenced s1) && RT_SUCCESS rc1) eqn:E2.
  - right. apply andb_true_iff in E2 as [E2 E3]. apply negb_true_iff in E2.
    rewrite (u32_small (d_cGipUsers d + 1)) in H by lia.
    assert (Href : ∀ h, gip_refs (<[s_self pSession := mkGipSess h true]> m) = gip_refs m + 1).
    { intros h. rewrite gip_refs_insert. fold s. rewrite <- Hs1, E2. simpl. lia. }
    destruct (Z.eqb_spec (d_cGipUsers d + 1) 1), (Z.eqb_spec (d_cGipUsers d) 0); try lia;
      simplify_eq; simpl; split_and!; try congruence; auto.
  - left. simplify_eq. split_and!; [done| |done]. rewrite gip_refs_insert. fold s. rewrite Hs1. lia.
Qed.

(** Unmapping: one less when the session had a reference and the mapping, if any, could be
    freed, and the timer is stopped and the resolution released with the last. *)
Lemma GipUnmap_users d m pSession rcFree rc d' m' ev :
  gip_refs m ≤ d_cGipUsers d →
  SUPR0GipUnmap (d, m) pSession rcFree = (rc, (d', m'), ev) →
  (d_cGipUsers d' = d_cGipUsers d ∧ gip_refs m' = gip_refs m
   ∧ d_u32SystemTimerGranularityGrant d' = d_u32SystemTimerGranularityGrant d
   ∧ (∀ b, timer_after b ev = b)
   ∧ gs_fGipReferenced (gip_sess m' (s_self pSession)) = gs_fGipReferenced (gip_sess m (s_self pSession)))
  ∨ (gip_refs m' = gip_refs m - 1 ∧ d_cGipUsers d' = d_cGipUsers d - 1 ∧ 1 ≤ d_cGipUsers d
     ∧ gs_fGipReferenced (gip_sess m' (s_self pSession)) = false
     ∧ (if d_cGipUsers d =? 1
        then d_u32SystemTimerGranularityGrant d' = 0 ∧ (∀ b, timer_after b ev = false)
        else d_u32SystemTimerGranularityGrant d' = d_u32SystemTimerGranularityGrant d
             ∧ (∀ b, timer_after b ev = b))).
Proof.
  intros Hu H. unfold SUPR0GipUnmap in H. set (s := gip_sess m (s_self pSession)) in *.
  destruct (negb (SUP_IS_SESSION_VALID pSession)); [left; by simplify_eq|].
  destruct (if negb (gs_GipMapObjR3 s =? NIL_RTR0MEMOBJ) then _ else _) as [[rc1 s1] ev1] eqn:E1.
  assert (Hs1 : gs_fGipReferenced s1 = gs_fGipReferenced s ∧ (∀ b, timer_after b ev1 = b)).
  { destruct (negb (gs_GipMapObjR3 s =? _)); [destruct (RT_SUCCESS rcFree)|]; simplify_eq; split; done. }
  destruct Hs1 as [Hs1 Hev]. destruct (gs_fGipReferenced s1 && (rc1 =? 0)) eqn:E2.
  - right. apply andb_true_iff in E2 as [E2 E3]. rewrite Hs1 in E2.
    pose proof (gip_refs_referenced m (s_self pSession) E2) as Hpos.
    destruct (Z.ltb_spec 0 (d_cGipUsers d)); [|lia]. cbn [andb] in H.
    assert (Href : ∀ h, gip_refs (<[s_self pSession := mkGipSess h false]> m) = gip_refs m - 1).
    { intros h. rewrite gip_refs_insert. fold s. rewrite E2. simpl. lia. }
    assert (Hget : ∀ h, gs_fGipReferenced (gip_sess (<[s_self pSession := mkGipSess h false]> m) (s_self pSession)) = false).
    { intros h. unfold gip_sess. by rewrite lookup_insert_eq. }
    destruct (Z.eqb_spec (d_cGipUsers d - 1) 0), (Z.eqb_spec (d_cGipUsers d) 1); try lia;
      simplify_eq; simpl; split_and!; auto; try lia.
    intros b. rewrite timer_after_app. cbn [timer_after fold_left].
    destruct (negb (d_u32SystemTimerGranularityGrant d =? 0)); reflexivity.
  - left. simplify_eq. split_and!; [done| |done|done|].
    + rewrite gip_refs_insert. fold s. rewrite Hs1. lia.
    + unfold gip_sess at 1. by rewrite lookup_insert_eq.
Qed.

(** Closing a session: its reference is given back, or forgotten with it. *)
Lemma GipCleanup_users d m pSession rcFree d' m' ev :
  gip_refs m ≤ d_cGipUsers d < 2 ^ 32 →
  supdrvCleanupSession_gip (d, m) pSession rcFree = ((d', m'), ev) →
  (d_cGipUsers d' = d_cGipUsers d ∧ d_u32SystemTimerGranularityGrant d' = d_u32SystemTimerGranularityGrant d
   ∧ (∀ b, timer_after b ev = b)
   ∧ gip_refs (delete (s_self pSession) m')
     = gip_refs m - (if gs_fGipReferenced (gip_sess m (s_self pSession)) then 1 else 0))
  ∨ (d_cGipUsers d' = d_cGipUsers d - 1 ∧ 1 ≤ d_cGipUsers d
     ∧ gip_refs (delete (s_self pSession) m') = gip_refs m - 1
     ∧ (if d_cGipUsers d =? 1
        then d_u32SystemTimerGranularityGrant d' = 0 ∧ (∀ b, timer_after b ev = false)
        else d_u32SystemTimerGranularityGrant d' = d_u32SystemTimerGranularityGrant d
             ∧ (∀ b, timer_after b ev = b))).
Proof.
  intros Hu H. unfold supdrvCleanupSession_gip in H. cbn [snd] in H.
  set (s := gip_sess m (s_self pSession)) in *.
  destruct (negb (gs_GipMapObjR3 s =? NIL_RTR0MEMOBJ)).
  - destruct (SUPR0GipUnmap (d, m) pSession rcFree) as [[rc [d1 m1]] ev1] eqn:E. simplify_eq.
    rewrite delete_alter, decide_True by done.
    apply GipUnmap_users in E; [|lia]. destruct E as [(->&Hr&->&Hev&Hf)|(Hr&->&Hpos&Hf&H)].
    + left. split_and!; try done. by rewrite gip_refs_delete, Hr, Hf.
    + right. split_and!; try done. rewrite gip_refs_delete, Hf, Hr. lia.
  - left. simplify_eq. split_and!; try done. by rewrite gip_refs_delete.
Qed.

Lemma gip_step_ok x y : gip_users_ok x → gip_step x y → gip_users_ok y.
Proof.
  intros Hx Hxy. destruct Hxy as [[d m] pSession pp ph env rc out [d' m'] ev b' Hmax H
                  |[d m] pSession rcFree rc [d' m'] ev b' H|[d m] pSession rcFree [d' m'] ev b' H];
    destruct Hx as (Hu&->&Hgr); simpl in *; pose proof (gip_refs_nonneg m).
  - apply GipMap_users in H; [|lia]. destruct H as [(->&->&->)|(Hf&_&->&Hc&H)]; [done|].
    rewrite Hc. destruct (Z.eqb_spec (d_cGipUsers d) 0) as [E|E].
    + subst ev. simpl. split_and!; [lia|lia| |lia]. symmetry. apply Z.ltb_lt. lia.
    + destruct H as [-> ->]. simpl. split_and!; [lia|lia| |lia].
      destruct (Z.ltb_spec 0 (d_cGipUsers d)), (Z.ltb_spec 0 (d_cGipUsers d + 1)); try done; lia.
  - apply GipUnmap_users in H; [|lia]. destruct H as [(->&->&->&->&_)|(->&->&Hpos&_&H)]; [done|].
    destruct (Z.eqb_spec (d_cGipUsers d) 1) as [E|E]; destruct H as [-> ->].
    + split_and!; [lia|lia| |done]. symmetry. apply Z.ltb_ge. lia.
    + split_and!; [lia|lia| |lia].
      destruct (Z.ltb_spec 0 (d_cGipUsers d)), (Z.ltb_spec 0 (d_cGipUsers d - 1)); try done; lia.
  - destruct (GipCleanup_users _ _ _ _ _ _ _ Hu H) as [(->&->&->&Hr)|(->&Hpos&Hr&H')]; rewrite Hr.
    + split_and!; [|lia|done|done]. destruct (gs_fGipReferenced _); lia.
    + destruct (Z.eqb_spec (d_cGipUsers d) 1) as [E|E]; destruct H' as [-> ->].
      * split_and!; [lia|lia| |done]. symmetry. apply Z.ltb_ge. lia.
      * split_and!; [lia|lia| |lia].
        destruct (Z.ltb_spec 0 (d_cGipUsers d)), (Z.ltb_spec 0 (d_cGipUsers d - 1)); try done; lia.
Qed.

(** C35. The users of the page: through any sequence of mappings, unmappings and session
    closings from the state [supdrvGipCreate] leaves, every session that holds a reference
    is counted, the update timer runs exactly while there are users, and no timer resolution
    stays requested without users.  So the updates never stop under a session that still
    uses the page. *)
Theorem gip_users_invariant st st' b :
  gip_start (fst st) → gip_refs (snd st) = 0 →
  rtc gip_step (st, false) (st', b) → gip_users_ok (st', b).
Proof.
  intros [H0 Hg] Hr. remember (st, false) as x eqn:Ex. remember (st', b) as y eqn:Ey.
  assert (Hx : gip_users_ok x).
  { subst. destruct st as [d m]; simpl in *. rewrite H0, Hr. by split_and!. }
  clear Ex Ey Hr Hg H0. intros Hs. induction Hs as [x|x y z Hxy Hyz IH]; [done|]. apply IH. by eapply gip_step_ok.
Qed.

(** ** Leaked references *)

(** A session that asks for the physical address only holds a reference without a mapping,
    and its cleanup, which looks at the mapping, does not give it back: the users stay one
    too many and the timer is never stopped. *)
Lemma gip_reference_leak d m pSession pHCPhysGip env rcFree :
  m !! s_self pSession = None → SUP_IS_SESSION_VALID pSession = true → VALID_PTR pHCPhysGip = true →
  d_pGip d ≠ NULL → d_cGipUsers d = 0 →
  let '(rc, _, st, _) := SUPR0GipMap (d, m) pSession NULL pHCPhysGip env in
  let '((d', _), ev) := supdrvCleanupSession_gip st pSession rcFree in
  rc = VINF_SUCCESS ∧ d_cGipUsers d' = 1 ∧ ev = [].
Proof.
  intros Hm Hv Hp Hg H0. unfold SUPR0GipMap, gip_sess. rewrite Hm, Hv. cbn [negb default from_option].
  unfold VALID_PTR_OR_NULL at 2. rewrite Hp, orb_true_r.
  destruct (Z.eqb_spec (d_pGip d) NULL); [done|]. rewrite H0. simpl.
  unfold supdrvCleanupSession_gip, gip_sess. simpl. by rewrite lookup_insert_eq.
Qed.

(** * The GIP master *)

Lemma find_master_spec To From n i Online idGipMaster :
  let ok k := RTCpuSetIsMember To Online (From k) && negb (From k =? idGipMaster) in
  let id := find_master To From n i Online idGipMaster in
  (∃ k, i ≤ k < i + Z.of_nat n ∧ ok k = true ∧ id = From k ∧ (∀ j, i ≤ j < k → ok j = false))
  ∨ (id = NIL_RTCPUID ∧ ∀ j, i ≤ j < i + Z.of_nat n → ok j = false).
Proof.
  cbv zeta. revert i. induction n as [|n IH]; intros i; cbn [find_master]; [right; split; [done|lia]|].
  destruct (RTCpuSetIsMember To Online (From i) && negb (From i =? idGipMaster)) eqn:E.
  - left. exists i. split_and!; [lia|lia|done|done|lia].
  - destruct (IH (i + 1)) as [(k&Hk&Hok&Hid&Hj)|[Hid Hj]].
    + left. exists k. split_and!; [lia|lia|done|done|]. intros j Hji.
      destruct (decide (j = i)) as [->|]; [done|apply Hj; lia].
    + right. split; [done|]. intros j Hji. destruct (decide (j = i)) as [->|]; [done|apply Hj; lia].
Qed.

(** The GIP master.  When the master goes offline the first other online CPU, in the
    order of the set indexes, takes over, and nobody when there is none; no other event and
    no other CPU's going offline changes the master, and a master that another CPU has
    installed in the meantime stays. *)
Lemma gip_master_handover To From d enmEvent idCpu cPresent cOnline idApic OnlineCpus others :
  let ok k := RTCpuSetIsMember To OnlineCpus (From k) && negb (From k =? idCpu) in
  let id' := d_idGipMaster (supdrvGipMpEvent To From d enmEvent idCpu cPresent cOnline idApic OnlineCpus others) in
  let idOthers d := d_idGipMaster (others d) in
  if (enmEvent =? RTMPEVENT_OFFLINE) && (d_idGipMaster d =? idCpu) then
    ∃ d', d_idGipMaster d' = idCpu
      ∧ (idOthers d' ≠ idCpu → id' = idOthers d')
      ∧ (idOthers d' = idCpu →
           (∃ k, 0 ≤ k < RTCPUSET_MAX_CPUS ∧ ok k = true ∧ id' = From k ∧ id' ≠ idCpu
                 ∧ ∀ j, 0 ≤ j < k → ok j = false)
           ∨ (id' = NIL_RTCPUID ∧ ∀ j, 0 ≤ j < RTCPUSET_MAX_CPUS → ok j = false))
  else id' = d_idGipMaster d.
Proof.
  cbv zeta. unfold supdrvGipMpEvent.
  set (d1 := if negb (d_pGip d =? NULL) then _ else d).
  assert (Hd1 : d_idGipMaster d1 = d_idGipMaster d).
  { unfold d1. destruct (negb _); [|done]. destruct (_ =? RTMPEVENT_ONLINE); [done|].
    by destruct (_ =? RTMPEVENT_OFFLINE). }
  destruct (enmEvent =? RTMPEVENT_OFFLINE); cbn [andb]; [|done].
  rewrite Hd1. destruct (Z.eqb_spec (d_idGipMaster d) idCpu) as [E|E]; [|done].
  exists d1. rewrite Hd1, E. split; [done|]. cbv zeta.
  destruct (Z.eqb_spec (d_idGipMaster (others d1)) idCpu) as [Eo|Eo]; [|done].
  split; [congruence|]. intros _. cbn [d_idGipMaster set_idGipMaster].
  destruct (find_master_spec To From (Z.to_nat RTCPUSET_MAX_CPUS) 0 OnlineCpus idCpu)
    as [(k&Hk&Hok&Hid&Hj)|[Hid Hj]]; [left; exists k|right].
  - split_and!; [lia|unfold RTCPUSET_MAX_CPUS in *; lia|done|done| |done].
    rewrite Hid. apply andb_true_iff in Hok as [_ Hok]. by apply negb_true_iff, Z.eqb_neq in Hok.
  - split; [done|]. intros j Hj'. apply Hj. unfold RTCPUSET_MAX_CPUS in *. lia.
Qed.

(** * Creation *)

Lemma interval_loop_spec fuel i res :
  0 < res < 2 ^ 32 → res ≤ i < 2 ^ 32 → 10000000 ≤ i + Z.of_nat (fuel) * res →
  ∃ iv, interval_loop (S fuel) i res = Some iv ∧ 10000000 ≤ iv < 2 ^ 32
    ∧ (iv < 10000000 + res ∨ iv = i).
Proof.
  intros Hres. revert i. induction fuel as [|fuel IH]; intros i Hi Hf; simpl.
  - destruct (Z.ltb_spec i 10000000); [lia|]. exists i. split_and!; [done|lia|lia|by right].
  - destruct (Z.ltb_spec i 10000000).
    + rewrite u32_small by lia. destruct (IH (i + res)) as (iv&E&?&?); [lia|lia|].
      exists iv. split; [exact E|lia].
    + exists i. split_and!; [done|lia|lia|by right].
Qed.

(** The timer interval: at least ten milliseconds, and less than a resolution more unless
    the resolution is that coarse itself. *)
Lemma gip_interval_spec res :
  0 < res < 2 ^ 32 →
  ∃ iv, gip_interval res = Some iv ∧ 10000000 ≤ iv < 2 ^ 32 ∧ (iv < 10000000 + res).
Proof.
  intros Hres. unfold gip_interval.
  pose proof (Z.mul_succ_div_gt 10000000 res) as Hq. pose proof (Z.div_pos 10000000 res) as Hp.
  destruct (interval_loop_spec (Z.to_nat (10000000 / res)) res res) as (iv&E&?&?); [lia|lia|lia|].
  exists iv. split_and!; [exact E|lia|lia|]. lia.
Qed.

Lemma InitOnCpus_consts l g :
  gip_consts (fold_left (λ g '(idCpu, e), run_state (supdrvGipInitOnCpu idCpu e) g) l g) = gip_consts g.
Proof.
  revert g. induction l as [|[id e] l IH]; intros g; [done|]. cbn [fold_left]. rewrite IH.
  apply MpEventOnline_frames.
Qed.

Lemma GipDestroy_spec pv page phys hMem pTimer idm gp :
  hMem ≠ NIL_RTR0MEMOBJ →
  let '(d, ev) := supdrvGipDestroy (mkGipExt pv page phys 0 hMem pTimer 0 idm gp) in
  gip_none d ∧ ev = create_undo hMem (negb (pTimer =? NULL)) false
  ∧ (pv ≠ NULL → g_u32Magic (d_page d) = 0).
Proof.
  intros Hh. unfold supdrvGipDestroy, create_undo. cbn [d_GipMemObj d_pGipTimer d_u32SystemTimerGranularityGrant d_pGip].
  destruct (Z.eqb_spec hMem NIL_RTR0MEMOBJ); [done|]. simpl.
  split_and!; [done..|]. intros Hpv. by destruct (Z.eqb_spec pv NULL).
Qed.

(** The timer calls of [supdrvGipCreate]. *)
Lemma create_timer_eq env page :
  g_u32Mode page = mi_u32Mode (ce_MpInfo env) →
  ∃ page', 
    (let '(rc, pTimer, page) :=
       if g_u32Mode page =? SUPGIPMODE_ASYNC_TSC then
         let '(rc, p) := ce_TimerAll env in
         if rc =? VERR_NOT_SUPPORTED then (rc, NULL, sg_Mode SUPGIPMODE_SYNC_TSC page)
         else (rc, if RT_SUCCESS rc then p else NULL, page)
       else (VINF_SUCCESS, NULL, page) in
     let '(rc, pTimer) :=
       if negb (g_u32Mode page =? SUPGIPMODE_ASYNC_TSC) then
         let '(rc, p) := ce_Timer env in (rc, if RT_SUCCESS rc then p else NULL)
       else (rc, pTimer) in (rc, pTimer, page))
    = (create_timer env, page')
    ∧ (page' = page ∨ page' = sg_Mode SUPGIPMODE_SYNC_TSC page)
    ∧ (g_u32Mode page' = SUPGIPMODE_ASYNC_TSC → fst (ce_TimerAll env) ≠ VERR_NOT_SUPPORTED).
Proof.
  intros Hm. unfold create_timer. rewrite <- Hm.
  destruct (Z.eqb_spec (g_u32Mode page) SUPGIPMODE_ASYNC_TSC) as [Em|Em]; cbn [andb].
  - destruct (ce_TimerAll env) as [rcT pT]. cbn [fst].
    destruct (Z.eqb_spec rcT VERR_NOT_SUPPORTED) as [Hn|Hn]; cbn [negb].
    + destruct (ce_Timer env) as [rc p]. exists (sg_Mode SUPGIPMODE_SYNC_TSC page).
      split; [done|]. split; [by right|done].
    + rewrite (proj2 (Z.eqb_eq _ _) Em). cbn [negb]. exists page. split; [done|]. split; [by left|done].
  - rewrite (proj2 (Z.eqb_neq _ _) Em). cbn [negb]. destruct (ce_Timer env) as [rc p]. exists page.
    split; [done|]. split; [by left|done].
Qed.

(** Creation, case by case. *)
Lemma gip_create_cases d env rcA hMem pv phys :
  gip_none d → 0 < ce_Resolution env < 2 ^ 32 →
  ce_Alloc env = (rcA, hMem, pv, phys) → (RT_SUCCESS rcA = true → hMem ≠ NIL_RTR0MEMOBJ ∧ pv ≠ NULL) →
  0 ≤ ce_cArray env →
  ∃ rc d' ev, supdrvGipCreate d env = Some (rc, d', ev)
  ∧ if RT_SUCCESS rc then
      ev = [] ∧ RT_SUCCESS rcA = true ∧ d_pGip d' = pv ∧ SUPGetGIP d' = pv ∧ d_GipMemObj d' = hMem ∧ gip_start d'
      ∧ d_pGipTimer d' = snd (create_timer env) ∧ create_notify_ok env = true
      ∧ let g := d_page d' in
        g_u32Magic g = SUPGLOBALINFOPAGE_MAGIC ∧ g_cCpus g = ce_cArray env
        ∧ (∃ iv, 10000000 ≤ iv ∧ g_u32UpdateHz g = 1000000000 / iv
                 ∧ g_u32UpdateIntervalNS g = 1000000000 / g_u32UpdateHz g)
        ∧ (g_u32Mode g = SUPGIPMODE_ASYNC_TSC → fst (ce_TimerAll env) ≠ VERR_NOT_SUPPORTED)
    else
      gip_none d' ∧ ev = create_undone env
      ∧ (create_page_ok env = false ∧ d' = d ∨ create_page_ok env = true ∧ g_u32Magic (d_page d') = 0).
Proof.
  intros Hnone Hres Halloc Hh Hc. unfold supdrvGipCreate, create_undone.
  assert (Hpo : create_page_ok env
                = negb ((RTCPUSET_MAX_CPUS <? ce_cArray env) || (256 <? ce_cArray env)) && RT_SUCCESS rcA).
  { unfold create_page_ok. by rewrite Halloc. }
  rewrite Hpo, Halloc. cbn [fst snd].
  destruct (Z.ltb_spec RTCPUSET_MAX_CPUS (ce_cArray env)), (Z.ltb_spec 256 (ce_cArray env));
    cbn [orb negb andb]; try (exists VERR_TOO_MANY_CPUS, d, []; split; [done|]; split; [done|]; split; [done|by left]).
  rewrite RT_FAILURE_negb. destruct (RT_SUCCESS rcA) eqn:EA; cbn [negb].
  2:{ exists rcA, d, []. rewrite EA. split_and!; [done|done|done|by left]. }
  destruct (Hh eq_refl) as [Hm Hp].
  destruct (gip_interval_spec (ce_Resolution env) Hres) as (iv&->&Hiv&_).
  set (page0 := supdrvGipInit _ _ _ _).
  assert (Hpage0 : gip_consts page0 = (SUPGLOBALINFOPAGE_MAGIC, SUPGLOBALINFOPAGE_VERSION, mi_u32Mode (ce_MpInfo env),
                     u16 (ce_cArray env), 1000000000 / iv, 1000000000 / (1000000000 / iv))) by done.
  destruct Hnone as (_&_&_&Hgr&_).
  destruct (create_timer_eq env page0 eq_refl) as (page1&E&Hpage1&Hmode).
  destruct (if g_u32Mode page0 =? SUPGIPMODE_ASYNC_TSC then _ else _) as [[rc1 p1] page1'].
  destruct (if negb (_ =? _) then _ else _) as [rc2 p2].
  injection E as Et ->. unfold create_notify_ok. rewrite <- Et. cbn [fst snd]. rewrite Hgr.
  assert (Hd : ∀ rc page, RT_SUCCESS rc = false → ∀ fNotify,
    let '(d0, ev0) := supdrvGipDestroy (mkGipExt pv page phys 0 hMem p2 0 (d_idGipMaster d) (d_g_pSUPGlobalInfoPage d)) in
    gip_none d0 ∧ (if fNotify : bool then [EvMpDeregister] else []) ++ ev0 = create_undo hMem (negb (p2 =? NULL)) fNotify
    ∧ g_u32Magic (d_page d0) = 0).
  { intros rc page Hrc fNotify.
    pose proof (GipDestroy_spec pv page phys hMem p2 (d_idGipMaster d) (d_g_pSUPGlobalInfoPage d) Hm) as H'.
    destruct (supdrvGipDestroy _) as [d0 ev0]. destruct H' as (Hn&->&Hmagic).
    split; [done|]. split; [by destruct fNotify|by apply Hmagic]. }
  destruct (RT_SUCCESS rc2) eqn:Erc2; [destruct (RT_SUCCESS (ce_NotificationRegister env)) eqn:Ern;
    [destruct (RT_SUCCESS (ce_OnAll env)) eqn:Ero|]|]; cbn [andb].
  - do 3 eexists. split; [done|]. change (RT_SUCCESS VINF_SUCCESS) with true.
    cbn [d_page d_pGip d_GipMemObj d_pGipTimer].
    assert (Hc1 : gip_consts page1 = (SUPGLOBALINFOPAGE_MAGIC, SUPGLOBALINFOPAGE_VERSION, g_u32Mode page1,
                     u16 (ce_cArray env), 1000000000 / iv, 1000000000 / (1000000000 / iv)))
      by (by destruct Hpage1 as [->| ->]).
    rewrite <- (InitOnCpus_consts (ce_Cpus env)) in Hc1.
    unfold gip_consts in Hc1. injection Hc1 as -> _ -> -> -> ->.
    rewrite u16_small by lia. split_and!; try done.
    exists iv. split_and!; [lia|done|done].
  - specialize (Hd _ (fold_left (λ g '(idCpu, e), run_state (supdrvGipInitOnCpu idCpu e) g)
                            (ce_Cpus env) page1) Ero true).
    destruct (supdrvGipDestroy _) as [d0 ev0]. destruct Hd as (Hn&Hev&Hz). do 3 eexists.
    split; [done|]. rewrite Ero. split_and!; [done|exact Hev|by right].
  - specialize (Hd _ page1 Ern false).
    destruct (supdrvGipDestroy _) as [d0 ev0]. destruct Hd as (Hn&Hev&Hz). do 3 eexists.
    split; [done|]. rewrite Ern. split_and!; [done|exact Hev|by right].
  - specialize (Hd _ page1 Erc2 false).
    destruct (supdrvGipDestroy _) as [d0 ev0]. destruct Hd as (Hn&Hev&Hz). do 3 eexists.
    split; [done|]. rewrite Erc2. split_and!; [done|exact Hev|by right].
Qed.

(** Creating the page: with a timer resolution that is not zero it always comes back.
    Either it succeeds, and the page is published with its magic, the CPU table of the
    system's size, and an update interval consistent with a frequency of at most 100 Hz, in
    synchronous mode if the system has no timer for all CPUs; or it fails, and then nothing
    of the page is left and exactly what was acquired so far, the callback, the timer and the
    memory, has been given back, the page's magic cleared first. *)
Lemma gip_create_spec d env rcA hMem pv phys :
  gip_none d → 0 < ce_Resolution env < 2 ^ 32 →
  ce_Alloc env = (rcA, hMem, pv, phys) → (RT_SUCCESS rcA = true → hMem ≠ NIL_RTR0MEMOBJ ∧ pv ≠ NULL) →
  0 ≤ ce_cArray env →
  ∃ rc d' ev, supdrvGipCreate d env = Some (rc, d', ev)
  ∧ if RT_SUCCESS rc then
      ev = [] ∧ RT_SUCCESS rcA = true ∧ d_pGip d' = pv ∧ SUPGetGIP d' = pv ∧ d_GipMemObj d' = hMem ∧ gip_start d'
      ∧ d_pGipTimer d' = snd (create_timer env) ∧ create_notify_ok env = true
      ∧ let g := d_page d' in
        g_u32Magic g = SUPGLOBALINFOPAGE_MAGIC ∧ g_cCpus g = ce_cArray env
        ∧ (∃ iv, 10000000 ≤ iv ∧ g_u32UpdateHz g = 1000000000 / iv
                 ∧ g_u32UpdateIntervalNS g = 1000000000 / g_u32UpdateHz g)
        ∧ (g_u32Mode g = SUPGIPMODE_ASYNC_TSC → fst (ce_TimerAll env) ≠ VERR_NOT_SUPPORTED)
    else
      gip_none d' ∧ ev = create_undone env
      ∧ (create_page_ok env = false ∧ d' = d ∨ create_page_ok env = true ∧ g_u32Magic (d_page d') = 0).
Proof. apply gip_create_cases. Qed.

(** * Witnesses *)

Definition demo_ext : GipExt := mkGipExt NULL demo_gip0 0 0 NIL_RTR0MEMOBJ NULL 0 0 NULL.
Definition demo_create : GipCreateEnv :=
  mkGipCreateEnv 2 (VINF_SUCCESS, 7, 0xffff880000400000, 0x123000) 1000000 1000000 demo_mpinfo
    (VERR_NOT_SUPPORTED, NULL) (VINF_SUCCESS, 0xffff880000500000) VINF_SUCCESS VINF_SUCCESS
    [(0, demo_env 0); (1, demo_env 1)].
Definition demo_user : SUPDRVSESSION := mkSession 0xffff880000010000 BIRD_INV 0 0x70000 1000 1000 1234 1234.
Definition demo_map : GipMapEnv :=
  mkGipMapEnv (VINF_SUCCESS, 9) (λ h, 0x7f0000000000 + h) [(VERR_NOT_SUPPORTED, 0); (VINF_SUCCESS, 1000000)]
    50000000 2 90000000 [(0, 0, 90000000); (1, 1, 90000001)].
Definition demo_ext1 : GipExt :=
  mkGipExt 0xffff880000400000 demo_gip 0x123000 0 7 0xffff880000500000 0 0 0xffff880000400000.

Lemma gip_create_spec_witness :
  ∃ d' ev, supdrvGipCreate demo_ext demo_create = Some (VINF_SUCCESS, d', ev)
    ∧ SUPGetGIP d' = 0xffff880000400000 ∧ g_u32Mode (d_page d') = SUPGIPMODE_SYNC_TSC.
Proof.
  destruct (gip_create_spec demo_ext demo_create VINF_SUCCESS 7 0xffff880000400000 0x123000)
    as (rc&d'&ev&E&H); [repeat split|split; reflexivity|reflexivity|split; discriminate|discriminate|].
  assert (rc = VINF_SUCCESS ∧ g_u32Mode (d_page d') = SUPGIPMODE_SYNC_TSC) as [-> Hm].
  { assert (match supdrvGipCreate demo_ext demo_create with
            | Some (rc, d', _) => (rc, g_u32Mode (d_page d')) | None => (1, 0) end
            = (VINF_SUCCESS, SUPGIPMODE_SYNC_TSC)) as Hrc by (vm_compute; reflexivity).
    rewrite E in Hrc. split; congruence. }
  exists d', ev. split; [exact E|]. split; [|exact Hm]. exact (proj1 (proj2 (proj2 (proj2 H)))).
Defined.

Lemma gip_users_invariant_witness :
  let x := fst (SUPR0GipMap (demo_ext1, ∅) demo_user 0xffff880000600000 NULL demo_map) in
  gip_refs (snd (snd x)) ≤ d_cGipUsers (fst (snd x)) < 2 ^ 32
  ∧ true = (0 <? d_cGipUsers (fst (snd x))).
Proof.
  destruct (gip_users_invariant (demo_ext1, ∅)
    (snd (fst (SUPR0GipMap (demo_ext1, ∅) demo_user 0xffff880000600000 NULL demo_map))) true) as (H1&H2&_).
  - split; reflexivity.
  - reflexivity.
  - eapply rtc_l; [|apply rtc_refl].
    apply (gstep_map (demo_ext1, ∅) demo_user 0xffff880000600000 NULL demo_map VINF_SUCCESS
             (0x7f0000000009, NIL_RTHCPHYS) _ [EvTimerStart] false); [reflexivity|].
    vm_compute. reflexivity.
  - split; [exact H1|exact H2].
Defined.
