(* ===== verification/Cpu.v ===== *)
(** Questions about the CPU: [SUPR0GetPagingMode], [SUPR0EnableVTx] and [SUPR0QueryVTCaps].

    Control registers, [cpuid] and the model specific registers are arguments; [cpuid leaf]
    is EAX, EBX, ECX, EDX. *)

From S2P Require Import Prelude SupTypes GipPage.
Local Open Scope Z_scope.
Local Open Scope sup_scope.

(** * Constants *)

Definition X86_CR0_PE : Z := RT_BIT 0.
Definition X86_CR0_PG : Z := RT_BIT 31.
Definition X86_CR4_PAE : Z := RT_BIT 5.
Definition X86_CR4_PGE : Z := RT_BIT 7.
Definition X86_CPUID_AMD_FEATURE_EDX_NX : Z := RT_BIT 20.
Definition X86_CPUID_AMD_FEATURE_EDX_LONG_MODE : Z := RT_BIT 29.
Definition MSR_K6_EFER : Z := 0xc0000080.
Definition MSR_K6_EFER_LMA : Z := RT_BIT 10.
Definition MSR_K6_EFER_NXE : Z := RT_BIT 11.

Definition X86_CPUID_VENDOR_INTEL_EBX : Z := 0x756e6547.
Definition X86_CPUID_VENDOR_INTEL_ECX : Z := 0x6c65746e.
Definition X86_CPUID_VENDOR_INTEL_EDX : Z := 0x49656e69.
Definition X86_CPUID_FEATURE_ECX_VMX : Z := RT_BIT 5.
Definition X86_CPUID_FEATURE_EDX_MSR : Z := RT_BIT 5.
Definition X86_CPUID_FEATURE_EDX_FXSR : Z := RT_BIT 24.
Definition X86_CPUID_AMD_FEATURE_ECX_SVM : Z := RT_BIT 2.
Definition AMD_CPUID_SVM_FEATURE_EDX_NESTED_PAGING : Z := RT_BIT 0.
Definition MSR_IA32_FEATURE_CONTROL : Z := 0x3a.
Definition MSR_IA32_FEATURE_CONTROL_LOCK : Z := RT_BIT 0.
Definition MSR_IA32_FEATURE_CONTROL_VMXON : Z := RT_BIT 2.
Definition MSR_IA32_VMX_PROCBASED_CTLS : Z := 0x482.
Definition MSR_IA32_VMX_PROCBASED_CTLS2 : Z := 0x48b.
Definition VMX_VMCS_CTRL_PROC_EXEC_USE_SECONDARY_EXEC_CTRL : Z := RT_BIT 31.
Definition VMX_VMCS_CTRL_PROC_EXEC2_EPT : Z := RT_BIT 1.
Definition MSR_K8_VM_CR : Z := 0xc0010114.
Definition MSR_K8_VM_CR_SVM_DISABLE : Z := RT_BIT 4.

Definition SUPVTCAPS_AMD_V : Z := RT_BIT 0.
Definition SUPVTCAPS_VT_X : Z := RT_BIT 1.
Definition SUPVTCAPS_NESTED_PAGING : Z := RT_BIT 2.

(** [SUPPAGINGMODE] *)
Definition SUPPAGINGMODE_INVALID : Z := 0.
Definition SUPPAGINGMODE_32_BIT : Z := 1.
Definition SUPPAGINGMODE_32_BIT_GLOBAL : Z := 2.
Definition SUPPAGINGMODE_PAE : Z := 3.
Definition SUPPAGINGMODE_PAE_GLOBAL : Z := 4.
Definition SUPPAGINGMODE_PAE_NX : Z := 5.
Definition SUPPAGINGMODE_PAE_GLOBAL_NX : Z := 6.
Definition SUPPAGINGMODE_AMD64 : Z := 7.
Definition SUPPAGINGMODE_AMD64_GLOBAL : Z := 8.
Definition SUPPAGINGMODE_AMD64_NX : Z := 9.
Definition SUPPAGINGMODE_AMD64_GLOBAL_NX : Z := 10.

(** * Operations *)

(** The [switch] of [SUPR0GetPagingMode]. *)
Definition paging_switch (v : Z) : Z :=
  if v =? 0 then SUPPAGINGMODE_32_BIT
  else if v =? X86_CR4_PGE then SUPPAGINGMODE_32_BIT_GLOBAL
  else if v =? X86_CR4_PAE then SUPPAGINGMODE_PAE
  else if v =? Z.lor X86_CR4_PAE (RT_BIT 0) then SUPPAGINGMODE_PAE_NX
  else if v =? Z.lor X86_CR4_PAE X86_CR4_PGE then SUPPAGINGMODE_PAE_GLOBAL
  else if v =? Z.lor (Z.lor X86_CR4_PAE X86_CR4_PGE) (RT_BIT 0) then SUPPAGINGMODE_PAE_GLOBAL
  else if v =? Z.lor (RT_BIT 1) X86_CR4_PAE then SUPPAGINGMODE_AMD64
  else if v =? Z.lor (Z.lor (RT_BIT 1) X86_CR4_PAE) (RT_BIT 0) then SUPPAGINGMODE_AMD64_NX
  else if v =? Z.lor (Z.lor (RT_BIT 1) X86_CR4_PAE) X86_CR4_PGE then SUPPAGINGMODE_AMD64_GLOBAL
  else if v =? Z.lor (Z.lor (Z.lor (RT_BIT 1) X86_CR4_PAE) X86_CR4_PGE) (RT_BIT 0)
  then SUPPAGINGMODE_AMD64_GLOBAL_NX
  else SUPPAGINGMODE_INVALID.

(** [fAmdFeatures] is [ASMCpuId_EDX(0x80000001)], [rdmsr] reads a register. *)
Definition SUPR0GetPagingMode (cr0 cr4 fAmdFeatures : Z) (rdmsr : Z → Z) : Z :=
  if negb (Z.land cr0 (Z.lor X86_CR0_PG X86_CR0_PE) =? Z.lor X86_CR0_PG X86_CR0_PE)
  then SUPPAGINGMODE_INVALID
  else
    let fNXEPlusLMA :=
      if cr4 #& X86_CR4_PAE then
        if fAmdFeatures #& Z.lor X86_CPUID_AMD_FEATURE_EDX_NX X86_CPUID_AMD_FEATURE_EDX_LONG_MODE then
          let efer := rdmsr MSR_K6_EFER in
          let f := 0 in
          let f := if (fAmdFeatures #& X86_CPUID_AMD_FEATURE_EDX_NX) && (efer #& MSR_K6_EFER_NXE)
                   then Z.lor f (RT_BIT 0) else f in
          if (fAmdFeatures #& X86_CPUID_AMD_FEATURE_EDX_LONG_MODE) && (efer #& MSR_K6_EFER_LMA)
          then Z.lor f (RT_BIT 1) else f
        else 0
      else 0 in
    paging_switch (Z.lor (Z.land cr4 (Z.lor X86_CR4_PAE X86_CR4_PGE)) fNXEPlusLMA).

(** Only Darwin has a native interface. *)
Definition SUPR0EnableVTx (fEnable : bool) : Z := VERR_NOT_SUPPORTED.

(** [VMX_CAPABILITY.n.allowed1] *)
Definition vmx_allowed1 (u : Z) : Z := Z.shiftr u 32.

(** The status and what [*pfCaps] is left with, [None] when it is not written. *)
Definition SUPR0QueryVTCaps (pSession : SUPDRVSESSION) (pfCaps : ptr) (fHasCpuId : bool)
    (cpuid : Z → Z * Z * Z * Z) (rdmsr : Z → Z) : Z * option Z :=
  if negb (SUP_IS_SESSION_VALID pSession) then (VERR_INVALID_PARAMETER, None)
  else if negb (VALID_PTR pfCaps) then (VERR_INVALID_POINTER, None)
  else if fHasCpuId then
    let '(_, u32VendorEBX, u32VendorECX, u32VendorEDX) := cpuid 0 in
    let '(_, _, u32FeaturesECX, u32FeaturesEDX) := cpuid 1 in
    let '(_, _, u32AMDFeatureECX, _) := cpuid 0x80000001 in
    if (u32VendorEBX =? X86_CPUID_VENDOR_INTEL_EBX) && (u32VendorECX =? X86_CPUID_VENDOR_INTEL_ECX)
       && (u32VendorEDX =? X86_CPUID_VENDOR_INTEL_EDX)
    then
      if (u32FeaturesECX #& X86_CPUID_FEATURE_ECX_VMX) && (u32FeaturesEDX #& X86_CPUID_FEATURE_EDX_MSR)
         && (u32FeaturesEDX #& X86_CPUID_FEATURE_EDX_FXSR)
      then
        let val := rdmsr MSR_IA32_FEATURE_CONTROL in
        let both := Z.lor MSR_IA32_FEATURE_CONTROL_VMXON MSR_IA32_FEATURE_CONTROL_LOCK in
        if (Z.land val both =? both) || negb (val #& MSR_IA32_FEATURE_CONTROL_LOCK) then
          let fCaps := Z.lor 0 SUPVTCAPS_VT_X in
          let fCaps :=
            if vmx_allowed1 (rdmsr MSR_IA32_VMX_PROCBASED_CTLS)
               #& VMX_VMCS_CTRL_PROC_EXEC_USE_SECONDARY_EXEC_CTRL then
              if vmx_allowed1 (rdmsr MSR_IA32_VMX_PROCBASED_CTLS2) #& VMX_VMCS_CTRL_PROC_EXEC2_EPT
              then Z.lor fCaps SUPVTCAPS_NESTED_PAGING else fCaps
            else fCaps in
          (VINF_SUCCESS, Some fCaps)
        else (VERR_VMX_MSR_LOCKED_OR_DISABLED, Some 0)
      else (VERR_VMX_NO_VMX, Some 0)
    else if (u32VendorEBX =? X86_CPUID_VENDOR_AMD_EBX) && (u32VendorECX =? X86_CPUID_VENDOR_AMD_ECX)
       && (u32VendorEDX =? X86_CPUID_VENDOR_AMD_EDX)
    then
      if (u32AMDFeatureECX #& X86_CPUID_AMD_FEATURE_ECX_SVM) && (u32FeaturesEDX #& X86_CPUID_FEATURE_EDX_MSR)
         && (u32FeaturesEDX #& X86_CPUID_FEATURE_EDX_FXSR)
      then
        if negb (rdmsr MSR_K8_VM_CR #& MSR_K8_VM_CR_SVM_DISABLE) then
          let fCaps := Z.lor 0 SUPVTCAPS_AMD_V in
          let '(_, _, _, u32FeaturesEDX) := cpuid 0x8000000a in
          let fCaps :=
            if u32FeaturesEDX #& AMD_CPUID_SVM_FEATURE_EDX_NESTED_PAGING
            then Z.lor fCaps SUPVTCAPS_NESTED_PAGING else fCaps in
          (VINF_SUCCESS, Some fCaps)
        else (VERR_SVM_DISABLED, Some 0)
      else (VERR_SVM_NO_SVM, Some 0)
    else (VERR_UNSUPPORTED_CPU, Some 0)
  else (VERR_UNSUPPORTED_CPU, Some 0).

(** * Specification *)

(** The paging mode the architecture is in: 32-bit, PAE or long mode, with global pages,
    with no-execute. *)
Definition arch_mode (fPae fLma fPge fNx : bool) : Z :=
  match fPae, fLma, fPge, fNx with
  | false, _, false, _ => SUPPAGINGMODE_32_BIT
  | false, _, true, _ => SUPPAGINGMODE_32_BIT_GLOBAL
  | true, false, false, false => SUPPAGINGMODE_PAE
  | true, false, false, true => SUPPAGINGMODE_PAE_NX
  | true, false, true, false => SUPPAGINGMODE_PAE_GLOBAL
  | true, false, true, true => SUPPAGINGMODE_PAE_GLOBAL_NX
  | true, true, false, false => SUPPAGINGMODE_AMD64
  | true, true, false, true => SUPPAGINGMODE_AMD64_NX
  | true, true, true, false => SUPPAGINGMODE_AMD64_GLOBAL
  | true, true, true, true => SUPPAGINGMODE_AMD64_GLOBAL_NX
  end.

(** * Bits *)

Lemma tst_RT_BIT x n : 0 ≤ n → x #& RT_BIT n = Z.testbit x n.
Proof.
  intros Hn. unfold tst, RT_BIT. rewrite Z.shiftl_mul_pow2, Z.mul_1_l by done.
  destruct (Z.testbit x n) eqn:E.
  - apply negb_true_iff, Z.eqb_neq. intros H.
    assert (Z.testbit (Z.land x (2 ^ n)) n = false) as Hb by (rewrite H; apply Z.bits_0).
    rewrite Z.land_spec, E, Z.pow2_bits_true in Hb by done. done.
  - apply negb_false_iff, Z.eqb_eq, Z.bits_inj'. intros m Hm.
    rewrite Z.land_spec, Z.bits_0, Z.pow2_bits_eqb by done.
    destruct (Z.eqb_spec n m) as [->|]; [by rewrite E|by rewrite andb_false_r].
Qed.

(** Masking two bits out. *)
Lemma land_two_bits x a b :
  0 ≤ a → 0 ≤ b →
  Z.land x (Z.lor (RT_BIT a) (RT_BIT b))
  = Z.lor (if Z.testbit x a then RT_BIT a else 0) (if Z.testbit x b then RT_BIT b else 0).
Proof.
  intros Ha Hb. unfold RT_BIT. rewrite !Z.shiftl_mul_pow2, !Z.mul_1_l by done.
  apply Z.bits_inj'. intros m Hm.
  rewrite Z.land_spec, !Z.lor_spec, !Z.pow2_bits_eqb by done.
  assert (Hif : ∀ k, 0 ≤ k → Z.testbit (if Z.testbit x k then 2 ^ k else 0) m = Z.testbit x m && (k =? m)).
  { intros k Hk. destruct (Z.eqb_spec k m) as [->|Hkm].
    - destruct (Z.testbit x m); [by apply Z.pow2_bits_true|apply Z.bits_0].
    - rewrite andb_false_r. destruct (Z.testbit x k); [by rewrite Z.pow2_bits_false|apply Z.bits_0]. }
  rewrite !Hif by done. by rewrite andb_orb_distrib_r.
Qed.

(** The paging mode reported is the one the registers put the CPU in, for every
    combination of PAE, long mode, global pages and no-execute but one: PAE with global
    pages and no-execute is reported as PAE with global pages only. *)
Lemma paging_mode_spec cr0 cr4 fAmdFeatures rdmsr :
  let fPae := Z.testbit cr4 5 in
  let fPge := Z.testbit cr4 7 in
  let fNx := Z.testbit fAmdFeatures 20 && Z.testbit (rdmsr MSR_K6_EFER) 11 in
  let fLma := Z.testbit fAmdFeatures 29 && Z.testbit (rdmsr MSR_K6_EFER) 10 in
  let mode := SUPR0GetPagingMode cr0 cr4 fAmdFeatures rdmsr in
  if Z.testbit cr0 31 && Z.testbit cr0 0 then
    if fPae && negb fLma && fPge && fNx then mode = SUPPAGINGMODE_PAE_GLOBAL
    else mode = arch_mode fPae fLma fPge fNx
  else mode = SUPPAGINGMODE_INVALID.
Proof.
  cbv zeta. unfold SUPR0GetPagingMode.
  unfold X86_CR0_PG, X86_CR0_PE, X86_CR4_PAE, X86_CR4_PGE, X86_CPUID_AMD_FEATURE_EDX_NX,
    X86_CPUID_AMD_FEATURE_EDX_LONG_MODE, MSR_K6_EFER_NXE, MSR_K6_EFER_LMA.
  rewrite !land_two_bits, !tst_RT_BIT by done.
  unfold tst. rewrite land_two_bits by done.
  generalize (rdmsr MSR_K6_EFER) as efer. intros efer.
  destruct (Z.testbit cr0 31), (Z.testbit cr0 0), (Z.testbit cr4 5), (Z.testbit cr4 7),
    (Z.testbit fAmdFeatures 20), (Z.testbit fAmdFeatures 29), (Z.testbit efer 10), (Z.testbit efer 11);
    reflexivity.
Qed.

(** A finding's witness: PAE, PGE and NXE on a CPU without long mode. *)
Lemma paging_mode_loses_nx :
  SUPR0GetPagingMode 0x80000001 0xa0 (RT_BIT 20) (λ _, RT_BIT 11) = SUPPAGINGMODE_PAE_GLOBAL.
Proof. reflexivity. Qed.

(** Virtualisation is reported with success and exactly then: the capabilities are one of
    VT-x and AMD-V, possibly with nested paging; on any failure none are reported. *)
Lemma vtcaps_spec pSession pfCaps fHasCpuId cpuid rdmsr rc caps :
  SUPR0QueryVTCaps pSession pfCaps fHasCpuId cpuid rdmsr = (rc, caps) →
  if RT_SUCCESS rc then
    ∃ v, (v = SUPVTCAPS_VT_X ∨ v = SUPVTCAPS_AMD_V)
      ∧ (caps = Some v ∨ caps = Some (Z.lor v SUPVTCAPS_NESTED_PAGING))
  else caps = None ∨ caps = Some 0.
Proof.
  intros H. unfold SUPR0QueryVTCaps in H.
  destruct (cpuid 0) as [[[? ?] ?] ?], (cpuid 1) as [[[? ?] ?] ?], (cpuid 0x80000001) as [[[? ?] ?] ?],
    (cpuid 0x8000000a) as [[[? ?] ?] ?].
  repeat step_in H; injection H as <- <-;
    match goal with
    | |- if RT_SUCCESS VINF_SUCCESS then _ else _ =>
        change (RT_SUCCESS VINF_SUCCESS) with true;
        first [ exists SUPVTCAPS_VT_X; split; [left; reflexivity|]; first [left; reflexivity|right; reflexivity]
              | exists SUPVTCAPS_AMD_V; split; [right; reflexivity|]; first [left; reflexivity|right; reflexivity] ]
    | |- _ => first [left; reflexivity | right; reflexivity]
    end.
Qed.
