(* ===== verification/FuncTable.v ===== *)
(** The exported functions of the support driver: the array [g_aFunctions] of SUPDrv.c, in
    its order, with the fix-up of the absolute symbols [supdrvInitDevExt] makes, and the
    lookup of a symbol in it.

    The addresses of functions are the linker's: [link] maps a symbol to its address. *)

From S2P Require Import Prelude SupTypes ObjReg Loader.
From Stdlib Require Import Ascii.
Local Open Scope Z_scope.

(** * The table *)

(** The entries the fix-up fills in. *)
Definition abs_names : list string :=
  ["SUPR0AbsIs64bit"; "SUPR0Abs64bitKernelCS"; "SUPR0Abs64bitKernelSS"; "SUPR0Abs64bitKernelDS";
   "SUPR0AbsKernelCS"; "SUPR0AbsKernelSS"; "SUPR0AbsKernelDS"; "SUPR0AbsKernelES";
   "SUPR0AbsKernelFS"; "SUPR0AbsKernelGS"].

(** Functions of the driver and of the runtime. *)
Definition function_names_1 : list string :=
  ["SUPR0ComponentRegisterFactory"; "SUPR0ComponentDeregisterFactory";
   "SUPR0ComponentQueryFactory"; "SUPR0ObjRegister"; "SUPR0ObjAddRef"; "SUPR0ObjAddRefEx";
   "SUPR0ObjRelease"; "SUPR0ObjVerifyAccess"; "SUPR0LockMem"; "SUPR0UnlockMem"; "SUPR0ContAlloc";
   "SUPR0ContFree"; "SUPR0LowAlloc"; "SUPR0LowFree"; "SUPR0MemAlloc"; "SUPR0MemGetPhys";
   "SUPR0MemFree"; "SUPR0PageAllocEx"; "SUPR0PageFree"; "SUPR0Printf"; "SUPSemEventCreate";
   "SUPSemEventClose"; "SUPSemEventSignal"; "SUPSemEventWait"; "SUPSemEventWaitNoResume";
   "SUPSemEventWaitNsAbsIntr"; "SUPSemEventWaitNsRelIntr"; "SUPSemEventGetResolution";
   "SUPSemEventMultiCreate"; "SUPSemEventMultiClose"; "SUPSemEventMultiSignal";
   "SUPSemEventMultiReset"; "SUPSemEventMultiWait"; "SUPSemEventMultiWaitNoResume";
   "SUPSemEventMultiWaitNsAbsIntr"; "SUPSemEventMultiWaitNsRelIntr";
   "SUPSemEventMultiGetResolution"; "SUPR0GetPagingMode"; "SUPR0EnableVTx"; "SUPGetGIP";
   "g_pSUPGlobalInfoPage"; "RTMemAllocTag"; "RTMemAllocZTag"; "RTMemAllocVarTag";
   "RTMemAllocZVarTag"; "RTMemFree"; "RTMemDupTag"; "RTMemDupExTag"; "RTMemReallocTag";
   "RTR0MemObjAllocLowTag"; "RTR0MemObjAllocPageTag"; "RTR0MemObjAllocPhysTag";
   "RTR0MemObjAllocPhysExTag"; "RTR0MemObjAllocPhysNCTag"; "RTR0MemObjAllocContTag";
   "RTR0MemObjEnterPhysTag"; "RTR0MemObjLockUserTag"; "RTR0MemObjMapKernelTag";
   "RTR0MemObjMapKernelExTag"; "RTR0MemObjMapUserTag"; "RTR0MemObjProtect"; "RTR0MemObjAddress";
   "RTR0MemObjAddressR3"; "RTR0MemObjSize"; "RTR0MemObjIsMapping"; "RTR0MemObjGetPagePhysAddr";
   "RTR0MemObjFree"; "RTR0MemUserCopyFrom"; "RTR0MemUserCopyTo"; "RTR0MemUserIsValidAddr";
   "RTR0MemKernelIsValidAddr"; "RTR0MemAreKrnlAndUsrDifferent"; "RTSemMutexCreate";
   "RTSemMutexRequest"; "RTSemMutexRequestDebug"; "RTSemMutexRequestNoResume";
   "RTSemMutexRequestNoResumeDebug"; "RTSemMutexRelease"; "RTSemMutexDestroy"; "RTProcSelf";
   "RTR0ProcHandleSelf"; "RTSemFastMutexCreate"; "RTSemFastMutexDestroy";
   "RTSemFastMutexRequest"; "RTSemFastMutexRelease"; "RTSemEventCreate"; "RTSemEventSignal";
   "RTSemEventWait"; "RTSemEventWaitNoResume"; "RTSemEventWaitEx"; "RTSemEventWaitExDebug";
   "RTSemEventGetResolution"; "RTSemEventDestroy"; "RTSemEventMultiCreate";
   "RTSemEventMultiSignal"; "RTSemEventMultiReset"; "RTSemEventMultiWait"].

Definition function_names_2 : list string :=
  ["RTSemEventMultiWaitNoResume"; "RTSemEventMultiWaitEx"; "RTSemEventMultiWaitExDebug";
   "RTSemEventMultiGetResolution"; "RTSemEventMultiDestroy"; "RTSpinlockCreate";
   "RTSpinlockDestroy"; "RTSpinlockAcquire"; "RTSpinlockRelease"; "RTSpinlockAcquireNoInts";
   "RTSpinlockReleaseNoInts"; "RTTimeNanoTS"; "RTTimeMilliTS"; "RTTimeSystemNanoTS";
   "RTTimeSystemMilliTS"; "RTThreadNativeSelf"; "RTThreadSleep"; "RTThreadYield"; "RTThreadSelf";
   "RTThreadCreate"; "RTThreadGetNative"; "RTThreadWait"; "RTThreadWaitNoResume";
   "RTThreadGetName"; "RTThreadSelfName"; "RTThreadGetType"; "RTThreadUserSignal";
   "RTThreadUserReset"; "RTThreadUserWait"; "RTThreadUserWaitNoResume";
   "RTThreadPreemptIsEnabled"; "RTThreadPreemptIsPending"; "RTThreadPreemptIsPendingTrusty";
   "RTThreadPreemptIsPossible"; "RTThreadPreemptDisable"; "RTThreadPreemptRestore";
   "RTThreadIsInInterrupt"; "RTTimerCreate"; "RTTimerCreateEx"; "RTTimerDestroy"; "RTTimerStart";
   "RTTimerStop"; "RTTimerChangeInterval"; "RTTimerGetSystemGranularity";
   "RTTimerRequestSystemGranularity"; "RTTimerReleaseSystemGranularity";
   "RTTimerCanDoHighResolution"; "RTLogDefaultInstance"; "RTMpCpuId"; "RTMpCpuIdFromSetIndex";
   "RTMpCpuIdToSetIndex"; "RTMpGetArraySize"; "RTMpIsCpuPossible"; "RTMpGetCount";
   "RTMpGetMaxCpuId"; "RTMpGetOnlineCount"; "RTMpGetOnlineSet"; "RTMpGetSet"; "RTMpIsCpuOnline";
   "RTMpIsCpuWorkPending"; "RTMpNotificationRegister"; "RTMpNotificationDeregister"; "RTMpOnAll";
   "RTMpOnOthers"; "RTMpOnSpecific"; "RTMpPokeCpu"; "RTPowerNotificationRegister";
   "RTPowerNotificationDeregister"; "RTLogRelDefaultInstance"; "RTLogSetDefaultInstanceThread";
   "RTLogLoggerExV"; "RTLogPrintfV"; "RTR0AssertPanicSystem"; "RTAssertMsg1"; "RTAssertMsg2V";
   "RTAssertMsg2AddV"; "RTAssertSetQuiet"; "RTAssertMayPanic"; "RTAssertSetMayPanic";
   "RTAssertAreQuiet"; "RTStrFormat"; "RTStrFormatNumber"; "RTStrFormatTypeDeregister";
   "RTStrFormatTypeRegister"; "RTStrFormatTypeSetUser"; "RTStrFormatV"; "RTStrPrintf";
   "RTStrPrintfEx"; "RTStrPrintfExV"; "RTStrPrintfV"; "RTHandleTableAllocWithCtx";
   "RTHandleTableCreate"; "RTHandleTableCreateEx"; "RTHandleTableDestroy";
   "RTHandleTableFreeWithCtx"; "RTHandleTableLookupWithCtx"; "RTNetIPv4AddDataChecksum";
   "RTNetIPv4AddTCPChecksum"; "RTNetIPv4AddUDPChecksum"; "RTNetIPv4FinalizeChecksum";
   "RTNetIPv4HdrChecksum"; "RTNetIPv4IsDHCPValid"; "RTNetIPv4IsHdrValid";
   "RTNetIPv4IsTCPSizeValid"; "RTNetIPv4IsTCPValid"; "RTNetIPv4IsUDPSizeValid";
   "RTNetIPv4IsUDPValid"; "RTNetIPv4PseudoChecksum"; "RTNetIPv4PseudoChecksumBits";
   "RTNetIPv4TCPChecksum"; "RTNetIPv4UDPChecksum"; "RTNetIPv6PseudoChecksum";
   "RTNetIPv6PseudoChecksumBits"; "RTNetIPv6PseudoChecksumEx"; "RTNetTCPChecksum";
   "RTNetUDPChecksum"; "RTCrc32"; "RTCrc32Finish"; "RTCrc32Process"; "RTCrc32Start"].

(** The bytes of a name. *)
Definition bytes_of (s : string) : list Z :=
  (λ c, Z.of_nat (nat_of_ascii c)) <$> String.list_ascii_of_string s.

(** A [SUPFUNC]: its name and address. *)
Abbreviation SUPFUNC := (list Z * ptr)%type.

(** The array as it is initialised statically. *)
Definition g_aFunctions (link : string → ptr) : list SUPFUNC :=
  ((λ n, (bytes_of n, NULL)) <$> abs_names)
  ++ ((λ n, (bytes_of n, link n)) <$> function_names_1 ++ function_names_2).

(** The segment registers [supdrvInitDevExt] reads. *)
Record SegRegs := mkSegRegs {
  rCS : Z; rSS : Z; rDS : Z; rES : Z; rFS : Z; rGS : Z;
}.

(** "Fixup the absolute symbols", 64-bit. *)
Definition fixup_absolute (r : SegRegs) (l : list SUPFUNC) : list SUPFUNC :=
  let set (k : nat) (v : Z) (l : list SUPFUNC) := alter (λ f, (f.1, v)) k l in
  let l := set 0%nat 1 l in
  let l := set 1%nat (rCS r) l in
  let l := set 2%nat (rSS r) l in
  let l := set 3%nat (rDS r) l in
  let l := set 4%nat (rCS r) l in
  let l := set 5%nat (rSS r) l in
  let l := set 6%nat (rDS r) l in
  let l := set 7%nat (rES r) l in
  let l := set 8%nat (rFS r) l in
  set 9%nat (rGS r) l.

(** * Lookup *)

Lemma fixup_lookup r l k :
  fixup_absolute r l !! k
  = (λ f, (f.1, default f.2 ([1; rCS r; rSS r; rDS r; rCS r; rSS r; rDS r; rES r; rFS r; rGS r] !! k)))
    <$> l !! k.
Proof.
  unfold fixup_absolute.
  assert (Ha : ∀ i v (l : list SUPFUNC), alter (λ f : SUPFUNC, (f.1, v)) i l !! k
                = if decide (i = k) then (λ f, (f.1, v)) <$> l !! k else l !! k).
  { intros i v l'. case_decide as E; [subst; apply list_lookup_alter_eq|by apply list_lookup_alter_ne]. }
  rewrite !Ha. do 10 (destruct k as [|k]; [simpl; by destruct (l !! _)|]).
  simpl. by destruct (l !! _) as [[]|].
Qed.

Lemma fixup_names r l : (fixup_absolute r l).*1 = l.*1.
Proof.
  unfold fixup_absolute.
  assert (Ha : ∀ k v (l : list SUPFUNC), (alter (λ f : SUPFUNC, (f.1, v)) k l).*1 = l.*1).
  { intros k v. induction k as [|k IH]; intros [|[a b] t]; simpl; try done. f_equal. apply IH. }
  by rewrite !Ha.
Qed.

Lemma g_aFunctions_names link :
  (g_aFunctions link).*1 = bytes_of <$> abs_names ++ function_names_1 ++ function_names_2.
Proof.
  unfold g_aFunctions. rewrite fmap_app, (fmap_app bytes_of), <- !list_fmap_compose.
  by f_equal; apply list_fmap_ext.
Qed.

(** The names are distinct and, with their terminator, fit the 32 bytes of [szName]. *)
Lemma names_ok :
  let names := bytes_of <$> abs_names ++ function_names_1 ++ function_names_2 in
  NoDup names ∧ Forall (λ n, (length n < 32)%nat) names.
Proof. split; apply (bool_decide_unpack _); vm_compute; exact I. Qed.

(** The first entry with a name, where names are distinct. *)
Lemma find_split_name (l : list SUPFUNC) k f :
  NoDup l.*1 → l !! k = Some f →
  ∃ pre post, find_split (λ g, bool_decide (g.1 = f.1)) l = Some (pre, f, post).
Proof.
  intros Hnd Hk. apply list_elem_of_split_length in Hk as (pre&post&->&_).
  exists pre, post. apply find_split_Some. split; [done|]. split; [by apply bool_decide_eq_true|].
  apply Forall_forall. intros g Hg. apply bool_decide_eq_false. intros Heq.
  rewrite fmap_app, fmap_cons in Hnd. apply NoDup_app in Hnd as (_&Hnd&_).
  apply (Hnd f.1); [rewrite <- Heq; by apply list_elem_of_fmap_2|left].
Qed.

(** Every entry of the exported function table can be looked up by name, under the
    driver's own module name and under none: the lookup of the name of the [k]-th entry
    succeeds with the address of that entry, for the functions the one the linker gave it
    and for the absolute symbols the value of the fix-up, and adds no usage record. *)
Lemma exported_symbol_lookup st s link r k f pszModule rUsage :
  fixup_absolute r (g_aFunctions link) !! k = Some f →
  pszModule = None ∨ pszModule = Some szSupDrv →
  supdrvIDC_LdrGetSymbol st s (fixup_absolute r (g_aFunctions link)) pszModule (Some f.1) rUsage
  = (VINF_SUCCESS, Some f.2, st)
  ∧ (∃ n, (abs_names ++ function_names_1 ++ function_names_2) !! k = Some n ∧ f.1 = bytes_of n
       ∧ f.2 = default (link n) ([1; rCS r; rSS r; rDS r; rCS r; rSS r; rDS r; rES r; rFS r; rGS r] !! k)).
Proof.
  intros Hk Hmod. destruct names_ok as [Hnd Hlen].
  rewrite <- (g_aFunctions_names link), <- (fixup_names r) in Hnd, Hlen.
  split.
  - destruct (find_split_name _ k f Hnd Hk) as (pre&post&Hf).
    rewrite Forall_forall in Hlen.
    assert (Hl : (length f.1 < 32)%nat).
    { apply Hlen, list_elem_of_fmap_2. by eapply list_elem_of_lookup_2. }
    unfold supdrvIDC_LdrGetSymbol, RTStrEnd_ok.
    destruct (Z.ltb_spec (Z.of_nat (length f.1)) 512); [|lia]. cbn [negb].
    assert (Hm : from_option (λ szModule, Z.of_nat (length szModule) <? 64) true pszModule = true
                 ∧ from_option (λ szModule, bool_decide (szModule = szSupDrv)) true pszModule = true)
      by by destruct Hmod as [->| ->].
    destruct Hm as [-> ->]. cbn [negb]. by rewrite Hf.
  - rewrite fixup_lookup in Hk. destruct (g_aFunctions link !! k) as [[n0 p0]|] eqn:E; [|done].
    injection Hk as <-. unfold g_aFunctions in E.
    apply lookup_app_Some in E as [E|[Hge E]].
    + apply list_lookup_fmap_Some in E as (n&[= -> ->]&Hn). exists n. split_and!; [|done|].
      * by apply lookup_app_l_Some.
      * apply lookup_lt_Some in Hn. change (length abs_names) with 10%nat in Hn.
        do 10 (destruct k as [|k]; [reflexivity|]). lia.
    + rewrite length_fmap in E, Hge.
      apply list_lookup_fmap_Some in E as (n&[= -> ->]&Hn). exists n. split_and!; [|done|].
      * rewrite lookup_app_r by done. done.
      * change (length abs_names) with 10%nat in Hge.
        rewrite (proj2 (lookup_ge_None _ k)); [done|exact Hge].
Qed.

Lemma exported_symbol_lookup_witness :
  supdrvIDC_LdrGetSymbol ldr_init 0x10000
    (fixup_absolute (mkSegRegs 16 24 0 0 0 0) (g_aFunctions (λ _, 0xffffffff81000000)))
    None (Some (bytes_of "SUPR0AbsKernelSS")) None = (VINF_SUCCESS, Some 24, ldr_init).
Proof.
  apply (exported_symbol_lookup ldr_init 0x10000 (λ _, 0xffffffff81000000) (mkSegRegs 16 24 0 0 0 0)
           5 (bytes_of "SUPR0AbsKernelSS", 24) None None); [vm_compute; reflexivity|left; reflexivity].
Defined.
