(* ===== verification/Logger.v ===== *)
(** The logger settings request, [supdrvIOCtl_LoggerSettings].

    State: the two default logger instances of the runtime.  The loggers are the
    runtime's; what its functions return is in [LogApi]. *)

From S2P Require Import Prelude SupTypes.
Local Open Scope Z_scope.

(** * Data *)

Definition SUPLOGGERSETTINGS_WHICH_DEBUG : Z := 0.
Definition SUPLOGGERSETTINGS_WHICH_RELEASE : Z := 1.
Definition SUPLOGGERSETTINGS_WHAT_SETTINGS : Z := 0.
Definition SUPLOGGERSETTINGS_WHAT_CREATE : Z := 1.
Definition SUPLOGGERSETTINGS_WHAT_DESTROY : Z := 2.

(** [RTLogGetDefaultInstance()] and [RTLogRelDefaultInstance()]. *)
Record LogState := mkLogState {
  lg_Default : ptr;
  lg_RelDefault : ptr;
}.

(** [SUPLOGGERSETTINGS.u.In] *)
Record LoggerReq := mkLoggerReq {
  lr_fWhich : Z;
  lr_fWhat : Z;
  lr_offFlags : Z;
  lr_offGroups : Z;
  lr_offDestination : Z;
  lr_szStrings : list Z;
}.

(** [RTLogCreate] (status and logger, from the groups and the environment variable's
    release flag), [RTLogFlags], [RTLogGroupSettings] and [RTLogDestroy]. *)
Record LogApi := mkLogApi {
  la_Create : list Z → bool → Z * ptr;
  la_Flags : ptr → list Z → Z;
  la_GroupSettings : ptr → list Z → Z;
  la_Destroy : ptr → Z;
}.

(** The string at an offset of the table, up to its terminator. *)
Fixpoint until_nul (l : list Z) : list Z :=
  match l with
  | [] => []
  | c :: l => if c =? 0 then [] else c :: until_nul l
  end.

Definition str_at (pReq : LoggerReq) (off : Z) : list Z :=
  until_nul (drop (Z.to_nat off) (lr_szStrings pReq)).

(** [RTLogSetDefaultInstance] and [RTLogRelSetDefaultInstance]: the old instance is
    returned. *)
Definition log_exchange (fWhich : Z) (p : ptr) (st : LogState) : ptr * LogState :=
  if fWhich =? SUPLOGGERSETTINGS_WHICH_DEBUG
  then (lg_Default st, mkLogState p (lg_RelDefault st))
  else (lg_RelDefault st, mkLogState (lg_Default st) p).

(** * The request *)

Definition supdrvIOCtl_LoggerSettings (api : LogApi) (st : LogState) (pReq : LoggerReq)
    : Z * LogState * list event :=
  let pszGroup := str_at pReq (lr_offGroups pReq) in
  let pszFlags := str_at pReq (lr_offFlags pReq) in
  let pszDest := str_at pReq (lr_offDestination pReq) in
  let fWhat := lr_fWhat pReq in
  let fWhich := lr_fWhich pReq in
  let rcv :=
    if (fWhat =? SUPLOGGERSETTINGS_WHAT_SETTINGS) || (fWhat =? SUPLOGGERSETTINGS_WHAT_CREATE) then VINF_SUCCESS
    else if fWhat =? SUPLOGGERSETTINGS_WHAT_DESTROY then
      if negb (bool_decide (pszGroup = [])) || negb (bool_decide (pszFlags = []))
         || negb (bool_decide (pszDest = []))
      then VERR_INVALID_PARAMETER
      else if fWhich =? SUPLOGGERSETTINGS_WHICH_RELEASE then VERR_ACCESS_DENIED
      else VINF_SUCCESS
    else VERR_INTERNAL_ERROR in
  if negb (rcv =? VINF_SUCCESS) then (rcv, st, [])
  else if negb ((fWhich =? SUPLOGGERSETTINGS_WHICH_DEBUG) || (fWhich =? SUPLOGGERSETTINGS_WHICH_RELEASE))
  then (VERR_INTERNAL_ERROR, st, [])
  else
    let pLogger := if fWhich =? SUPLOGGERSETTINGS_WHICH_DEBUG then lg_Default st else lg_RelDefault st in
    if fWhat =? SUPLOGGERSETTINGS_WHAT_SETTINGS then
      if negb (pLogger =? NULL) then
        let rc := la_Flags api pLogger pszFlags in
        if RT_SUCCESS rc
        then (la_GroupSettings api pLogger pszGroup, st, [EvLogFlags pLogger; EvLogGroups pLogger])
        else (rc, st, [EvLogFlags pLogger])
      else (VERR_NOT_FOUND, st, [])
    else if fWhat =? SUPLOGGERSETTINGS_WHAT_CREATE then
      if negb (pLogger =? NULL) then (VERR_ALREADY_EXISTS, st, [])
      else
        let '(rc, pLogger) := la_Create api pszGroup (fWhich =? SUPLOGGERSETTINGS_WHICH_RELEASE) in
        if RT_SUCCESS rc then
          let rc := la_Flags api pLogger pszFlags in
          let '(pOld, st) := if RT_SUCCESS rc then log_exchange fWhich pLogger st else (pLogger, st) in
          (rc, st, [EvLogFlags pLogger; EvLogDestroy pOld])
        else (rc, st, [])
    else
      let '(pOld, st) := log_exchange fWhich NULL st in
      (la_Destroy api pOld, st, [EvLogDestroy pOld]).

(** * Properties *)

(** The release logger cannot be taken away, and no logger is lost or left dangling: a
    logger that was created is the default instance or has been destroyed, and a default
    instance that is replaced has been destroyed. *)
Lemma logger_settings_spec api st pReq rc st' ev :
  supdrvIOCtl_LoggerSettings api st pReq = (rc, st', ev) →
  (lg_RelDefault st ≠ NULL → lg_RelDefault st' = lg_RelDefault st)
  ∧ (lg_Default st' = lg_Default st ∨ EvLogDestroy (lg_Default st) ∈ ev)
  ∧ (∀ p, snd (la_Create api (str_at pReq (lr_offGroups pReq)) (lr_fWhich pReq =? SUPLOGGERSETTINGS_WHICH_RELEASE)) = p →
       EvLogFlags p ∈ ev → p = lg_Default st' ∨ p = lg_RelDefault st' ∨ EvLogDestroy p ∈ ev).
Proof.
  unfold supdrvIOCtl_LoggerSettings, log_exchange.
  destruct (la_Create api (str_at pReq (lr_offGroups pReq)) _) as [rcC pC].
  intros H. cbn [snd].
  repeat (match type of H with context [if ?b then _ else _] => destruct b eqn:? end);
    simplify_eq/=; zbool; subst; split_and!;
    intros; set_unfold; try naive_solver.
  (* the release logger is refused before the destruction *)
  rewrite (proj2 (Z.eqb_eq _ _) Heqb0) in Heqb.
  repeat (match type of Heqb with (if ?b then _ else _) = _ => destruct b end); discriminate Heqb.
Qed.
