(* ===== verification/Request.v ===== *)
(** The I/O control requests: the request buffer, and the checks of [supdrvIOCtl] in front
    of each operation (the [REQ_CHECK_*] macros of SUPDrv.c on the structures of
    SUPDrvIOC.h, AMD64 layout).

    A buffer is a list of bytes and a request is read from it by a reader that can also
    refuse it or leave the buffer; [safe] is the logic to prove that it never leaves. *)

From S2P Require Import Prelude SupTypes Loader Logger.
Local Open Scope Z_scope.
Local Open Scope sup_scope.

(** * Readers *)

(** [Bad]: a check failed, [Hdr.rc] and the result are [VERR_INVALID_PARAMETER]; [Oob]: a
    read outside the buffer. *)
Inductive Check (A : Type) : Type :=
| Ok (a : A)
| Bad
| Oob.
Arguments Ok {A} a.
Arguments Bad {A}.
Arguments Oob {A}.

Definition Rd (A : Type) : Type := list Z → Check A.

#[export] Instance Rd_ret : MRet Rd := λ A a buf, Ok a.
#[export] Instance Rd_bind : MBind Rd := λ A B f m buf,
  match m buf with
  | Ok a => f a buf
  | Bad => Bad
  | Oob => Oob
  end.

(** [REQ_CHECK_EXPR] and its variants. *)
Definition REQ_CHECK_EXPR (b : bool) : Rd unit := λ buf, if b then Ok tt else Bad.

Definition in_buf (off n : Z) (buf : list Z) : bool :=
  (0 <=? off) && (0 <=? n) && (off + n <=? Z.of_nat (length buf)).

Definition rd_bytes (off n : Z) : Rd (list Z) := λ buf,
  if in_buf off n buf then Ok (take (Z.to_nat n) (drop (Z.to_nat off) buf)) else Oob.

(** Little-endian. *)
Definition le_word (l : list Z) : Z := foldr (λ b w, b + 256 * w) 0 l.

Definition rd_u8 (off : Z) : Rd Z := l ← rd_bytes off 1; mret (le_word l).
Definition rd_w32 (off : Z) : Rd Z := l ← rd_bytes off 4; mret (le_word l).
Definition rd_w64 (off : Z) : Rd Z := l ← rd_bytes off 8; mret (le_word l).

(** [RTStrEnd(psz, cbMax) != NULL]: the bytes are read up to the terminator. *)
Definition rd_RTStrEnd (off cbMax : Z) : Rd bool := λ buf,
  if in_buf off 0 buf then
    let l := take (Z.to_nat cbMax) (drop (Z.to_nat off) buf) in
    if existsb (Z.eqb 0) l then Ok true
    else if in_buf off cbMax buf then Ok false else Oob
  else Oob.

(** * The request header *)

Record SUPREQHDR := mkHdr {
  h_u32Cookie : Z;
  h_u32SessionCookie : Z;
  h_cbIn : Z;
  h_cbOut : Z;
  h_fFlags : Z;
}.

Definition SUPREQHDR_size : Z := 24.
Definition SUPREQHDR_FLAGS_MAGIC_MASK : Z := 0xff0000ff.
Definition SUPREQHDR_FLAGS_MAGIC : Z := 0x42000042.

Definition rd_hdr : Rd SUPREQHDR :=
  c ← rd_w32 0; sc ← rd_w32 4; cbIn ← rd_w32 8; cbOut ← rd_w32 12; fFlags ← rd_w32 16;
  mret (mkHdr c sc cbIn cbOut fFlags).

Definition REQ_CHECK_SIZES_EX (h : SUPREQHDR) (cbInExpect cbOutExpect : Z) : Rd unit :=
  REQ_CHECK_EXPR ((h_cbIn h =? cbInExpect) && (h_cbOut h =? cbOutExpect)).

(** * Sizes of the structures *)

Definition SUP_IOCTL_COOKIE_SIZE_IN : Z := 48.
Definition SUP_IOCTL_COOKIE_SIZE_OUT : Z := 56.
Definition SUP_IOCTL_QUERY_FUNCS_SIZE_OUT (cFuncs : Z) : Z := 32 + 40 * cFuncs.
Definition SUP_IOCTL_PAGE_LOCK_SIZE_IN : Z := 40.
Definition SUP_IOCTL_PAGE_LOCK_SIZE_OUT (cPages : Z) : Z := 24 + 8 * cPages.
Definition SUP_IOCTL_CONT_ALLOC_SIZE_IN : Z := 28.
Definition SUP_IOCTL_CONT_ALLOC_SIZE_OUT : Z := 48.
Definition SUP_IOCTL_LDR_OPEN_SIZE_IN : Z := 328.
Definition SUP_IOCTL_LDR_OPEN_SIZE_OUT : Z := 40.
Definition SUPLDRLOAD_size : Z := 112.
Definition off_abImage : Z := 108.
Definition SUP_IOCTL_LDR_LOAD_SIZE_IN (cbImage : Z) : Z := off_abImage + cbImage.
Definition SUP_IOCTL_LDR_GET_SYMBOL_SIZE_IN : Z := 96.
Definition SUP_IOCTL_LDR_GET_SYMBOL_SIZE_OUT : Z := 32.
Definition SUP_IOCTL_CALL_VMMR0_SIZE (cbReq : Z) : Z := 48 + cbReq.
Definition SUPVMMR0REQHDR_size : Z := 8.
Definition SUPVMMR0REQHDR_MAGIC : Z := 0x19730211.
(** The size is cast to 32 bits. *)
Definition SUP_IOCTL_LOW_ALLOC_SIZE_IN : Z := 28.
Definition SUP_IOCTL_LOW_ALLOC_SIZE_OUT (cPages : Z) : Z := u32 (40 + 8 * cPages).
Definition SUP_IOCTL_PAGE_ALLOC_EX_SIZE_IN : Z := 32.
Definition SUP_IOCTL_PAGE_ALLOC_EX_SIZE_OUT (cPages : Z) : Z := 40 + 8 * cPages.
Definition SUP_IOCTL_PAGE_MAP_KERNEL_SIZE : Z := 48.
Definition SUP_IOCTL_PAGE_PROTECT_SIZE_IN : Z := 56.
Definition SUP_IOCTL_PAGE_PROTECT_SIZE_OUT : Z := 56.
Definition SUP_IOCTL_GET_PAGING_MODE_SIZE_OUT : Z := 28.
Definition SUP_IOCTL_GIP_MAP_SIZE_OUT : Z := 48.
Definition SUPR0SERVICEREQHDR_size : Z := 8.
Definition SUPR0SERVICEREQHDR_MAGIC : Z := 0x19640416.
Definition SUP_IOCTL_LOGGER_SETTINGS_SIZE_IN (cbStrTab : Z) : Z := 44 + cbStrTab.
Definition SUP_IOCTL_SEM_OP2_SIZE_IN : Z := 48.
Definition SUP_IOCTL_SEM_OP3_SIZE : Z := 48.
Definition SUP_IOCTL_VT_CAPS_SIZE_OUT : Z := 28.
(** The structures with one pointer: unlock, the freeing functions, [SET_VM_FOR_FAST]. *)
Definition ONE_PTR_SIZE_IN : Z := 32.

(** * The checked requests *)

Inductive IoReq : Type :=
| ReqCookie (szMagic : list Z) (u32ReqVersion u32MinVersion : Z)
| ReqQueryFuncs
| ReqPageLock (pvR3 cPages : Z)
| ReqPageUnlock (pvR3 : Z)
| ReqContAlloc (cPages : Z)
| ReqContFree (pvR3 : Z)
| ReqLdrOpen (pReq : LdrOpenReq)
| ReqLdrLoad (pReq : LdrLoadReq)
| ReqLdrFree (pvImageBase : Z)
| ReqLdrGetSymbol (pvImageBase : Z) (szSymbol : list Z)
| ReqCallVMMR0 (pVMR0 idCpu uOperation u64Arg : Z) (fPkt : bool)
| ReqGetPagingMode
| ReqLowAlloc (cPages : Z)
| ReqLowFree (pvR3 : Z)
| ReqGipMap
| ReqGipUnmap
| ReqSetVMForFast (pVMR0 : Z)
| ReqPageAllocEx (cPages : Z) (fKernelMapping fUserMapping : bool)
| ReqPageMapKernel (pvR3 offSub cbSub fFlags : Z)
| ReqPageProtect (pvR3 pvR0 offSub cbSub fProt : Z)
| ReqPageFree (pvR3 : Z)
| ReqCallService (szName : list Z) (uOperation u64Arg : Z)
| ReqLoggerSettings (pReq : LoggerReq)
| ReqSemOp2 (uType hSem uOp uArg : Z)
| ReqSemOp3 (uType hSem uOp : Z)
| ReqVtCaps.

(** * The checks *)

(** Whether [pszStr] contains a character of [pszChars]. *)
Definition supdrvCheckInvalidChar (pszStr pszChars : list Z) : bool :=
  existsb (λ chCur, existsb (Z.eqb chCur) pszChars) pszStr.

(** The characters of the LDR_OPEN check: semicolon and colon, the six brackets, slash and
    backslash, then bar, ampersand, star, percent, hash, at, exclamation mark, tilde and the
    three quotes. *)
Definition invalid_chars : list Z :=
  [59; 58; 40; 41; 91; 93; 123; 125; 47; 92; 124; 38; 42; 37; 35; 64; 33; 126; 96; 34; 39].

Definition is_nz (x : Z) : bool := negb (x =? 0).

Definition req_COOKIE (h : SUPREQHDR) : Rd IoReq :=
  _ ← REQ_CHECK_SIZES_EX h SUP_IOCTL_COOKIE_SIZE_IN SUP_IOCTL_COOKIE_SIZE_OUT;
  szMagic ← rd_bytes 24 16; uReq ← rd_w32 40; uMin ← rd_w32 44;
  mret (ReqCookie szMagic uReq uMin).

(** [cFunctions] is [RT_ELEMENTS(g_aFunctions)]. *)
Definition req_QUERY_FUNCS (cFunctions : Z) (h : SUPREQHDR) : Rd IoReq :=
  _ ← REQ_CHECK_SIZES_EX h SUPREQHDR_size (SUP_IOCTL_QUERY_FUNCS_SIZE_OUT cFunctions);
  mret ReqQueryFuncs.

Definition req_PAGE_LOCK (h : SUPREQHDR) : Rd IoReq :=
  _ ← REQ_CHECK_EXPR (h_cbIn h =? SUP_IOCTL_PAGE_LOCK_SIZE_IN);
  cPages ← rd_w32 32;
  _ ← REQ_CHECK_EXPR (h_cbOut h =? SUP_IOCTL_PAGE_LOCK_SIZE_OUT cPages);
  _ ← REQ_CHECK_EXPR (0 <? cPages);
  pvR3 ← rd_w64 24;
  _ ← REQ_CHECK_EXPR (PAGE_SIZE <=? pvR3);
  mret (ReqPageLock pvR3 cPages).

(** The requests that hold one pointer. *)
Definition req_one_ptr (mk : Z → IoReq) (h : SUPREQHDR) : Rd IoReq :=
  _ ← REQ_CHECK_SIZES_EX h ONE_PTR_SIZE_IN SUPREQHDR_size;
  p ← rd_w64 24;
  mret (mk p).

Definition req_CONT_ALLOC (h : SUPREQHDR) : Rd IoReq :=
  _ ← REQ_CHECK_SIZES_EX h SUP_IOCTL_CONT_ALLOC_SIZE_IN SUP_IOCTL_CONT_ALLOC_SIZE_OUT;
  cPages ← rd_w32 24;
  mret (ReqContAlloc cPages).

Definition req_LDR_OPEN (h : SUPREQHDR) : Rd IoReq :=
  _ ← REQ_CHECK_SIZES_EX h SUP_IOCTL_LDR_OPEN_SIZE_IN SUP_IOCTL_LDR_OPEN_SIZE_OUT;
  cbTabs ← rd_w32 24;
  _ ← REQ_CHECK_EXPR (0 <? cbTabs);
  _ ← REQ_CHECK_EXPR (cbTabs <? 16 * 0x100000);
  cbBits ← rd_w32 28;
  _ ← REQ_CHECK_EXPR (0 <? cbBits);
  _ ← REQ_CHECK_EXPR (0 <? cbBits);
  _ ← REQ_CHECK_EXPR (cbBits <? cbTabs);
  c0 ← rd_u8 32;
  _ ← REQ_CHECK_EXPR (is_nz c0);
  fEnd ← rd_RTStrEnd 32 32;
  _ ← REQ_CHECK_EXPR fEnd;
  szName ← rd_bytes 32 32;
  _ ← REQ_CHECK_EXPR (negb (supdrvCheckInvalidChar (until_nul szName) invalid_chars));
  fEnd ← rd_RTStrEnd 64 260;
  _ ← REQ_CHECK_EXPR fEnd;
  szFilename ← rd_bytes 64 260;
  mret (ReqLdrOpen (mkLdrOpenReq cbTabs cbBits (until_nul szName) (until_nul szFilename))).

(** The members of [SUPLDRLOAD.u.In] before the image. *)
Definition rd_ldr_load (cbTabs : Z) : Rd LdrLoadReq :=
  init ← rd_w64 24; term ← rd_w64 32;
  e0 ← rd_w64 40; e1 ← rd_w64 48; e2 ← rd_w64 56; e3 ← rd_w64 64;
  base ← rd_w64 72; eEPType ← rd_w32 80; cbBits ← rd_w32 84;
  offSymbols ← rd_w32 88; cSymbols ← rd_w32 92; offStrTab ← rd_w32 96; cbStrTab ← rd_w32 100;
  abImage ← rd_bytes off_abImage cbTabs;
  mret (mkLdrLoadReq base
          (if eEPType =? 0 then SUPLDRLOADEP_NOTHING
           else if eEPType =? 1 then SUPLDRLOADEP_VMMR0 e0 e1 e2 e3
           else if eEPType =? 2 then SUPLDRLOADEP_SERVICE e0 e1 e2 e3
           else SUPLDRLOADEP_INVALID eEPType)
          init term cbBits cbTabs offSymbols cSymbols offStrTab cbStrTab abImage).

(** The loop over the symbols, [i] from [cSymbols - n]. *)
Fixpoint check_syms (n : nat) (i : Z) (r : LdrLoadReq) : Rd unit :=
  match n with
  | O => mret tt
  | S n =>
      offName ← rd_w32 (off_abImage + (ll_offSymbols r + 8 * i));
      offSymbol ← rd_w32 (off_abImage + (ll_offSymbols r + 8 * i) + 4);
      _ ← REQ_CHECK_EXPR (offSymbol <? ll_cbImageWithTabs r);
      _ ← REQ_CHECK_EXPR (offName <? ll_cbStrTab r);
      fEnd ← rd_RTStrEnd (off_abImage + u32 (ll_offStrTab r + offName)) (ll_cbStrTab r - offName);
      _ ← REQ_CHECK_EXPR fEnd;
      check_syms n (i + 1) r
  end.

Definition req_LDR_LOAD (h : SUPREQHDR) : Rd IoReq :=
  _ ← REQ_CHECK_EXPR (SUPLDRLOAD_size <=? h_cbIn h);
  cbTabs ← rd_w32 104;
  _ ← REQ_CHECK_SIZES_EX h (SUP_IOCTL_LDR_LOAD_SIZE_IN cbTabs) SUPREQHDR_size;
  r ← rd_ldr_load cbTabs;
  _ ← REQ_CHECK_EXPR (ll_cSymbols r <=? 16384);
  _ ← REQ_CHECK_EXPR (negb (is_nz (ll_cSymbols r))
                      || ((ll_offSymbols r <? cbTabs) && (ll_offSymbols r + ll_cSymbols r * 8 <=? cbTabs)));
  _ ← REQ_CHECK_EXPR (negb (is_nz (ll_cbStrTab r))
                      || ((ll_offStrTab r <? cbTabs) && (u32 (ll_offStrTab r + ll_cbStrTab r) <=? cbTabs)
                          && (ll_cbStrTab r <=? cbTabs)));
  _ ← check_syms (Z.to_nat (ll_cSymbols r)) 0 r;
  mret (ReqLdrLoad r).

Definition req_LDR_GET_SYMBOL (h : SUPREQHDR) : Rd IoReq :=
  _ ← REQ_CHECK_SIZES_EX h SUP_IOCTL_LDR_GET_SYMBOL_SIZE_IN SUP_IOCTL_LDR_GET_SYMBOL_SIZE_OUT;
  fEnd ← rd_RTStrEnd 32 64;
  _ ← REQ_CHECK_EXPR fEnd;
  base ← rd_w64 24; szSymbol ← rd_bytes 32 64;
  mret (ReqLdrGetSymbol base (until_nul szSymbol)).

Definition rd_call_vmmr0 (fPkt : bool) : Rd IoReq :=
  pVMR0 ← rd_w64 24; idCpu ← rd_w32 32; uOperation ← rd_w32 36; u64Arg ← rd_w64 40;
  mret (ReqCallVMMR0 pVMR0 idCpu uOperation u64Arg fPkt).

(** The packet's header: its magic and its size. *)
Definition check_pkt (h : SUPREQHDR) (off cbHdr uMagic : Z) : Rd unit :=
  _ ← REQ_CHECK_EXPR (off + cbHdr <=? h_cbIn h);
  u32Magic ← rd_w32 off;
  _ ← REQ_CHECK_EXPR (u32Magic =? uMagic);
  cbReq ← rd_w32 (off + 4);
  REQ_CHECK_SIZES_EX h (off + cbReq) (off + cbReq).

Definition req_CALL_VMMR0_BIG (h : SUPREQHDR) : Rd IoReq :=
  _ ← check_pkt h (SUP_IOCTL_CALL_VMMR0_SIZE 0) SUPVMMR0REQHDR_size SUPVMMR0REQHDR_MAGIC;
  rd_call_vmmr0 true.

Definition req_CALL_VMMR0 (h : SUPREQHDR) : Rd IoReq :=
  if h_cbIn h =? SUP_IOCTL_CALL_VMMR0_SIZE 0 then
    _ ← REQ_CHECK_SIZES_EX h (SUP_IOCTL_CALL_VMMR0_SIZE 0) (SUP_IOCTL_CALL_VMMR0_SIZE 0);
    rd_call_vmmr0 false
  else req_CALL_VMMR0_BIG h.

Definition req_GET_PAGING_MODE (h : SUPREQHDR) : Rd IoReq :=
  _ ← REQ_CHECK_SIZES_EX h SUPREQHDR_size SUP_IOCTL_GET_PAGING_MODE_SIZE_OUT;
  mret ReqGetPagingMode.

(** The sizes are compared in order: [cPages] is read only when the input has it. *)
Definition req_LOW_ALLOC (h : SUPREQHDR) : Rd IoReq :=
  _ ← REQ_CHECK_EXPR (h_cbIn h <=? SUP_IOCTL_LOW_ALLOC_SIZE_IN);
  _ ← REQ_CHECK_EXPR (h_cbIn h =? SUP_IOCTL_LOW_ALLOC_SIZE_IN);
  cPages ← rd_w32 24;
  _ ← REQ_CHECK_EXPR (h_cbOut h =? SUP_IOCTL_LOW_ALLOC_SIZE_OUT cPages);
  mret (ReqLowAlloc cPages).

Definition req_GIP_MAP (h : SUPREQHDR) : Rd IoReq :=
  _ ← REQ_CHECK_SIZES_EX h SUPREQHDR_size SUP_IOCTL_GIP_MAP_SIZE_OUT;
  mret ReqGipMap.

Definition req_GIP_UNMAP (h : SUPREQHDR) : Rd IoReq :=
  _ ← REQ_CHECK_SIZES_EX h SUPREQHDR_size SUPREQHDR_size;
  mret ReqGipUnmap.

Definition req_SET_VM_FOR_FAST (h : SUPREQHDR) : Rd IoReq :=
  _ ← REQ_CHECK_SIZES_EX h ONE_PTR_SIZE_IN SUPREQHDR_size;
  pVMR0 ← rd_w64 24;
  _ ← REQ_CHECK_EXPR (negb (is_nz pVMR0) || (VALID_PTR pVMR0 && negb (pVMR0 #& (PAGE_SIZE - 1))));
  mret (ReqSetVMForFast pVMR0).

Definition req_PAGE_ALLOC_EX (h : SUPREQHDR) : Rd IoReq :=
  _ ← REQ_CHECK_EXPR (h_cbIn h <=? SUP_IOCTL_PAGE_ALLOC_EX_SIZE_IN);
  _ ← REQ_CHECK_EXPR (h_cbIn h =? SUP_IOCTL_PAGE_ALLOC_EX_SIZE_IN);
  cPages ← rd_w32 24;
  _ ← REQ_CHECK_EXPR (h_cbOut h =? SUP_IOCTL_PAGE_ALLOC_EX_SIZE_OUT cPages);
  fKernel ← rd_u8 28; fUser ← rd_u8 29; fRes0 ← rd_u8 30; fRes1 ← rd_u8 31;
  _ ← REQ_CHECK_EXPR (is_nz fKernel || is_nz fUser);
  _ ← REQ_CHECK_EXPR (is_nz fUser);
  _ ← REQ_CHECK_EXPR (negb (is_nz fRes0) && negb (is_nz fRes1));
  mret (ReqPageAllocEx cPages (is_nz fKernel) (is_nz fUser)).

Definition req_PAGE_MAP_KERNEL (h : SUPREQHDR) : Rd IoReq :=
  _ ← REQ_CHECK_SIZES_EX h SUP_IOCTL_PAGE_MAP_KERNEL_SIZE SUP_IOCTL_PAGE_MAP_KERNEL_SIZE;
  pvR3 ← rd_w64 24; offSub ← rd_w32 32; cbSub ← rd_w32 36; fFlags ← rd_w32 40;
  _ ← REQ_CHECK_EXPR (negb (is_nz fFlags));
  _ ← REQ_CHECK_EXPR (negb (offSub #& PAGE_OFFSET_MASK));
  _ ← REQ_CHECK_EXPR (is_nz cbSub && negb (cbSub #& PAGE_OFFSET_MASK));
  mret (ReqPageMapKernel pvR3 offSub cbSub fFlags).

(** [RTMEM_PROT_READ | RTMEM_PROT_WRITE | RTMEM_PROT_EXEC | RTMEM_PROT_NONE] *)
Definition RTMEM_PROT_ALL : Z := 7.

Definition req_PAGE_PROTECT (h : SUPREQHDR) : Rd IoReq :=
  _ ← REQ_CHECK_SIZES_EX h SUP_IOCTL_PAGE_PROTECT_SIZE_IN SUP_IOCTL_PAGE_PROTECT_SIZE_OUT;
  pvR3 ← rd_w64 24; pvR0 ← rd_w64 32; offSub ← rd_w32 40; cbSub ← rd_w32 44; fProt ← rd_w32 48;
  _ ← REQ_CHECK_EXPR (negb (fProt #& Z.lnot RTMEM_PROT_ALL));
  _ ← REQ_CHECK_EXPR (negb (offSub #& PAGE_OFFSET_MASK));
  _ ← REQ_CHECK_EXPR (is_nz cbSub && negb (cbSub #& PAGE_OFFSET_MASK));
  mret (ReqPageProtect pvR3 pvR0 offSub cbSub fProt).

Definition req_CALL_SERVICE (h : SUPREQHDR) : Rd IoReq :=
  _ ← (if h_cbIn h =? SUP_IOCTL_CALL_SERVICE_SIZE 0
       then REQ_CHECK_SIZES_EX h (SUP_IOCTL_CALL_SERVICE_SIZE 0) (SUP_IOCTL_CALL_SERVICE_SIZE 0)
       else check_pkt h (SUP_IOCTL_CALL_SERVICE_SIZE 0) SUPR0SERVICEREQHDR_size SUPR0SERVICEREQHDR_MAGIC);
  fEnd ← rd_RTStrEnd 24 28;
  _ ← REQ_CHECK_EXPR fEnd;
  szName ← rd_bytes 24 28; uOperation ← rd_w32 52; u64Arg ← rd_w64 56;
  mret (ReqCallService (until_nul szName) uOperation u64Arg).

Definition req_LOGGER_SETTINGS (h : SUPREQHDR) : Rd IoReq :=
  _ ← REQ_CHECK_EXPR (h_cbOut h =? SUPREQHDR_size);
  _ ← REQ_CHECK_EXPR (SUP_IOCTL_LOGGER_SETTINGS_SIZE_IN 1 <=? h_cbIn h);
  let cbStrTab := h_cbIn h - SUP_IOCTL_LOGGER_SETTINGS_SIZE_IN 0 in
  offGroups ← rd_w32 36;
  _ ← REQ_CHECK_EXPR (offGroups <? cbStrTab);
  offFlags ← rd_w32 32;
  _ ← REQ_CHECK_EXPR (offFlags <? cbStrTab);
  offDestination ← rd_w32 40;
  _ ← REQ_CHECK_EXPR (offDestination <? cbStrTab);
  chLast ← rd_u8 (44 + (cbStrTab - 1));
  _ ← REQ_CHECK_EXPR (chLast =? 0);
  fWhich ← rd_w32 24;
  _ ← REQ_CHECK_EXPR (fWhich <=? SUPLOGGERSETTINGS_WHICH_RELEASE);
  fWhat ← rd_w32 28;
  _ ← REQ_CHECK_EXPR (fWhat <=? SUPLOGGERSETTINGS_WHAT_DESTROY);
  szStrings ← rd_bytes 44 cbStrTab;
  mret (ReqLoggerSettings (mkLoggerReq fWhich fWhat offFlags offGroups offDestination szStrings)).

Definition req_SEM_OP2 (h : SUPREQHDR) : Rd IoReq :=
  _ ← REQ_CHECK_SIZES_EX h SUP_IOCTL_SEM_OP2_SIZE_IN SUPREQHDR_size;
  uReserved ← rd_w32 36;
  _ ← REQ_CHECK_EXPR (uReserved =? 0);
  uType ← rd_w32 24; hSem ← rd_w32 28; uOp ← rd_w32 32; uArg ← rd_w64 40;
  mret (ReqSemOp2 uType hSem uOp uArg).

Definition req_SEM_OP3 (h : SUPREQHDR) : Rd IoReq :=
  _ ← REQ_CHECK_SIZES_EX h SUP_IOCTL_SEM_OP3_SIZE SUP_IOCTL_SEM_OP3_SIZE;
  u32Reserved ← rd_w32 36; u64Reserved ← rd_w64 40;
  _ ← REQ_CHECK_EXPR ((u32Reserved =? 0) && (u64Reserved =? 0));
  uType ← rd_w32 24; hSem ← rd_w32 28; uOp ← rd_w32 32;
  mret (ReqSemOp3 uType hSem uOp).

Definition req_VT_CAPS (h : SUPREQHDR) : Rd IoReq :=
  _ ← REQ_CHECK_SIZES_EX h SUPREQHDR_size SUP_IOCTL_VT_CAPS_SIZE_OUT;
  _ ← REQ_CHECK_EXPR (h_cbIn h <=? SUPREQHDR_size);
  mret ReqVtCaps.

(** * The switch *)

(** On Linux the size is taken out of the code. *)
Definition IOCSIZE_MASK : Z := 0x3fff0000.
Definition SUP_CTL_CODE_NO_SIZE (uIOCtl : Z) : Z := Z.land uIOCtl (Z.lnot IOCSIZE_MASK).

Definition SUP_IOCTL_COOKIE : Z := SUP_CTL_CODE_SIZE 1 56.
Definition SUPCOOKIE_INITIAL_COOKIE : Z := 0x69726f74.

(** The cases of the switch, with their codes without size. *)
Definition io_cases (cFunctions : Z) : list (Z * (SUPREQHDR → Rd IoReq)) :=
  [ (SUP_CTL_CODE_NO_SIZE SUP_IOCTL_COOKIE, req_COOKIE);
    (SUP_CTL_CODE_NO_SIZE (SUP_CTL_CODE_BIG 2), req_QUERY_FUNCS cFunctions);
    (SUP_CTL_CODE_NO_SIZE (SUP_CTL_CODE_BIG 14), req_PAGE_LOCK);
    (SUP_CTL_CODE_NO_SIZE (SUP_CTL_CODE_SIZE 15 32), req_one_ptr ReqPageUnlock);
    (SUP_CTL_CODE_NO_SIZE (SUP_CTL_CODE_SIZE 16 48), req_CONT_ALLOC);
    (SUP_CTL_CODE_NO_SIZE (SUP_CTL_CODE_SIZE 17 32), req_one_ptr ReqContFree);
    (SUP_CTL_CODE_NO_SIZE SUP_IOCTL_LDR_OPEN, req_LDR_OPEN);
    (SUP_CTL_CODE_NO_SIZE SUP_IOCTL_LDR_LOAD, req_LDR_LOAD);
    (SUP_CTL_CODE_NO_SIZE SUP_IOCTL_LDR_FREE, req_one_ptr ReqLdrFree);
    (SUP_CTL_CODE_NO_SIZE (SUP_CTL_CODE_SIZE 6 96), req_LDR_GET_SYMBOL);
    (SUP_CTL_CODE_NO_SIZE (SUP_CTL_CODE_SIZE 7 (SUP_IOCTL_CALL_VMMR0_SIZE 0)), req_CALL_VMMR0);
    (SUP_CTL_CODE_NO_SIZE (SUP_CTL_CODE_BIG 27), req_CALL_VMMR0_BIG);
    (SUP_CTL_CODE_NO_SIZE (SUP_CTL_CODE_SIZE 18 28), req_GET_PAGING_MODE);
    (SUP_CTL_CODE_NO_SIZE (SUP_CTL_CODE_BIG 8), req_LOW_ALLOC);
    (SUP_CTL_CODE_NO_SIZE (SUP_CTL_CODE_SIZE 9 32), req_one_ptr ReqLowFree);
    (SUP_CTL_CODE_NO_SIZE (SUP_CTL_CODE_SIZE 20 48), req_GIP_MAP);
    (SUP_CTL_CODE_NO_SIZE (SUP_CTL_CODE_SIZE 21 24), req_GIP_UNMAP);
    (SUP_CTL_CODE_NO_SIZE (SUP_CTL_CODE_SIZE 19 32), req_SET_VM_FOR_FAST);
    (SUP_CTL_CODE_NO_SIZE (SUP_CTL_CODE_BIG 10), req_PAGE_ALLOC_EX);
    (SUP_CTL_CODE_NO_SIZE (SUP_CTL_CODE_SIZE 11 48), req_PAGE_MAP_KERNEL);
    (SUP_CTL_CODE_NO_SIZE (SUP_CTL_CODE_SIZE 12 56), req_PAGE_PROTECT);
    (SUP_CTL_CODE_NO_SIZE (SUP_CTL_CODE_SIZE 13 32), req_one_ptr ReqPageFree);
    (SUP_CTL_CODE_NO_SIZE (SUP_CTL_CODE_SIZE 22 (SUP_IOCTL_CALL_SERVICE_SIZE 0)), req_CALL_SERVICE);
    (SUP_CTL_CODE_NO_SIZE (SUP_CTL_CODE_SIZE 23 (SUP_IOCTL_LOGGER_SETTINGS_SIZE_IN 0)), req_LOGGER_SETTINGS);
    (SUP_CTL_CODE_NO_SIZE (SUP_CTL_CODE_SIZE 24 48), req_SEM_OP2);
    (SUP_CTL_CODE_NO_SIZE (SUP_CTL_CODE_SIZE 25 48), req_SEM_OP3);
    (SUP_CTL_CODE_NO_SIZE (SUP_CTL_CODE_SIZE 26 28), req_VT_CAPS) ].

Fixpoint io_switch (cases : list (Z * (SUPREQHDR → Rd IoReq))) (code : Z) : option (SUPREQHDR → Rd IoReq) :=
  match cases with
  | [] => None
  | (c, req) :: cases => if code =? c then Some req else io_switch cases code
  end.

(** What the checks of [supdrvIOCtl] end with: the request; a return without anything
    stored; a return with the status stored; the default case; a read outside the buffer. *)
Inductive IoCheck : Type :=
| IoAccept (h : SUPREQHDR) (req : IoReq)
| IoReject
| IoRejectRc
| IoUnknown
| IoFault.

Definition supdrvIOCtl_hdr_ok (h : SUPREQHDR) : bool :=
  (Z.land (h_fFlags h) SUPREQHDR_FLAGS_MAGIC_MASK =? SUPREQHDR_FLAGS_MAGIC)
  && (SUPREQHDR_size <=? h_cbIn h) && (SUPREQHDR_size <=? h_cbOut h).

Definition supdrvIOCtl_cookie_ok (u32Cookie uIOCtl : Z) (pSession : SUPDRVSESSION) (h : SUPREQHDR) : bool :=
  if uIOCtl =? SUP_IOCTL_COOKIE then h_u32Cookie h =? SUPCOOKIE_INITIAL_COOKIE
  else (h_u32Cookie h =? u32Cookie) && (h_u32SessionCookie h =? s_u32Cookie pSession).

(** [u32Cookie], [cFunctions]: of the device extension. *)
Definition supdrvIOCtl_check (u32Cookie cFunctions uIOCtl : Z) (pSession : SUPDRVSESSION) (buf : list Z) : IoCheck :=
  match rd_hdr buf with
  | Ok h =>
      if negb (supdrvIOCtl_hdr_ok h) then IoReject
      else if negb (VALID_PTR (s_self pSession)) then IoReject
      else if negb (supdrvIOCtl_cookie_ok u32Cookie uIOCtl pSession h) then IoReject
      else
        match io_switch (io_cases cFunctions) (SUP_CTL_CODE_NO_SIZE uIOCtl) with
        | None => IoUnknown
        | Some req =>
            match req h buf with
            | Ok r => IoAccept h r
            | Bad => IoRejectRc
            | Oob => IoFault
            end
        end
  | _ => IoFault
  end.

(** * Specification *)

(** One symbol of a load request: its offsets are in range and its name ends within the
    string table. *)
Definition sym_ok (q : LdrLoadReq) (sym : SUPLDRSYM) : Prop :=
  0 ≤ offSymbol sym < ll_cbImageWithTabs q ∧ 0 ≤ offName sym < ll_cbStrTab q
  ∧ 0 ∈ take (Z.to_nat (ll_cbStrTab q - offName sym))
          (drop (Z.to_nat (ll_offStrTab q + offName sym)) (ll_abImage q)).

(** An accepted load request: both tables lie in the image, and so does every symbol. *)
Definition load_ok (q : LdrLoadReq) : Prop :=
  Z.of_nat (length (ll_abImage q)) = ll_cbImageWithTabs q
  ∧ 0 ≤ ll_cSymbols q ≤ 16384
  ∧ (ll_cSymbols q ≠ 0 → ll_offSymbols q + 8 * ll_cSymbols q ≤ ll_cbImageWithTabs q)
  ∧ (ll_cbStrTab q ≠ 0 → ll_offStrTab q + ll_cbStrTab q ≤ ll_cbImageWithTabs q)
  ∧ Forall (sym_ok q) (rd_syms (ll_abImage q) (ll_offSymbols q) (ll_cSymbols q)).

(** A string of a field of [cb] bytes. *)
Definition field_ok (cb : Z) (sz : list Z) : Prop := Z.of_nat (length sz) < cb ∧ 0 ∉ sz.

(** What an accepted request satisfies. *)
Definition req_ok (cFunctions : Z) (h : SUPREQHDR) (r : IoReq) : Prop :=
  match r with
  | ReqCookie _ _ _ => h_cbOut h = SUP_IOCTL_COOKIE_SIZE_OUT
  | ReqQueryFuncs => h_cbOut h = SUP_IOCTL_QUERY_FUNCS_SIZE_OUT cFunctions
  | ReqPageLock pvR3 cPages => 0 < cPages < 2 ^ 32 ∧ PAGE_SIZE ≤ pvR3 ∧ h_cbOut h = 24 + 8 * cPages
  | ReqContAlloc _ => h_cbOut h = SUP_IOCTL_CONT_ALLOC_SIZE_OUT
  | ReqLdrOpen q =>
      h_cbOut h = SUP_IOCTL_LDR_OPEN_SIZE_OUT ∧ 0 < lo_cbImageBits q < lo_cbImageWithTabs q
      ∧ lo_cbImageWithTabs q < 16 * 0x100000 ∧ lo_szName q ≠ [] ∧ field_ok 32 (lo_szName q)
      ∧ Forall (λ c, c ∉ invalid_chars) (lo_szName q) ∧ field_ok 260 (lo_szFilename q)
  | ReqLdrLoad q => load_ok q
  | ReqLdrGetSymbol _ szSymbol => h_cbOut h = SUP_IOCTL_LDR_GET_SYMBOL_SIZE_OUT ∧ field_ok 64 szSymbol
  | ReqGetPagingMode => h_cbOut h = SUP_IOCTL_GET_PAGING_MODE_SIZE_OUT
  | ReqLowAlloc cPages => 0 ≤ cPages ∧ h_cbOut h = u32 (40 + 8 * cPages)
  | ReqGipMap => h_cbOut h = SUP_IOCTL_GIP_MAP_SIZE_OUT
  | ReqSetVMForFast pVMR0 => pVMR0 = NULL ∨ VALID_PTR pVMR0 = true
  | ReqPageAllocEx cPages _ fUser => fUser = true ∧ 0 ≤ cPages ∧ h_cbOut h = 40 + 8 * cPages
  | ReqPageMapKernel _ _ cbSub fFlags => h_cbOut h = SUP_IOCTL_PAGE_MAP_KERNEL_SIZE ∧ fFlags = 0 ∧ cbSub ≠ 0
  | ReqPageProtect _ _ _ cbSub _ => cbSub ≠ 0
  | ReqCallVMMR0 _ _ _ _ fPkt => fPkt = false → h_cbIn h = SUP_IOCTL_CALL_VMMR0_SIZE 0
  | ReqCallService szName _ _ => field_ok 28 szName
  | ReqLoggerSettings q =>
      ∃ l, lr_szStrings q = l ++ [0] ∧ lr_offFlags q < Z.of_nat (length (lr_szStrings q))
        ∧ lr_offGroups q < Z.of_nat (length (lr_szStrings q))
        ∧ lr_offDestination q < Z.of_nat (length (lr_szStrings q))
        ∧ lr_fWhich q ≤ SUPLOGGERSETTINGS_WHICH_RELEASE ∧ lr_fWhat q ≤ SUPLOGGERSETTINGS_WHAT_DESTROY
  | ReqSemOp3 _ _ _ => h_cbOut h = SUP_IOCTL_SEM_OP3_SIZE
  | ReqVtCaps => h_cbOut h = SUP_IOCTL_VT_CAPS_SIZE_OUT
  | _ => True
  end.

(** * The logic of readers *)

(** [m] stays in the buffer, and what it accepts satisfies [P]. *)
Definition safe {A} (m : Rd A) (buf : list Z) (P : A → Prop) : Prop :=
  match m buf with
  | Ok a => P a
  | Bad => True
  | Oob => False
  end.

Create HintDb reader.

Section logic.
Context (buf : list Z).
Abbreviation len := (Z.of_nat (length buf)).

Lemma safe_ret {A} (a : A) (P : A → Prop) : P a → safe (mret a) buf P.
Proof. done. Qed.

Lemma safe_bind {A B} (m : Rd A) (f : A → Rd B) P :
  safe m buf (λ a, safe (f a) buf P) → safe (m ≫= f) buf P.
Proof. unfold safe, mbind, Rd_bind. by destruct (m buf). Qed.

Lemma safe_mono {A} (m : Rd A) (P Q : A → Prop) : safe m buf P → (∀ a, P a → Q a) → safe m buf Q.
Proof. unfold safe. destruct (m buf); auto. Qed.

Lemma safe_check (b : bool) (P : unit → Prop) : (b = true → P tt) → safe (REQ_CHECK_EXPR b) buf P.
Proof. unfold safe, REQ_CHECK_EXPR. destruct b; auto. Qed.

Lemma safe_sizes h a b (P : unit → Prop) :
  (h_cbIn h = a → h_cbOut h = b → P tt) → safe (REQ_CHECK_SIZES_EX h a b) buf P.
Proof. intros H. apply safe_check. intros [H1 H2]%andb_true_iff. apply H; lia. Qed.

Lemma safe_bytes off n (P : list Z → Prop) :
  0 ≤ off → 0 ≤ n → off + n ≤ len →
  (∀ l, l = take (Z.to_nat n) (drop (Z.to_nat off) buf) → Z.of_nat (length l) = n → P l) →
  safe (rd_bytes off n) buf P.
Proof.
  intros H1 H2 H3 HP. unfold safe, rd_bytes, in_buf.
  rewrite (proj2 (Z.leb_le 0 off)), (proj2 (Z.leb_le 0 n)), (proj2 (Z.leb_le _ _) H3) by done. simpl.
  apply HP; [done|]. rewrite length_take, length_drop. lia.
Qed.

Lemma safe_str off cbMax (P : bool → Prop) :
  0 ≤ off → 0 ≤ cbMax → off + cbMax ≤ len →
  (∀ b, b = existsb (Z.eqb 0) (take (Z.to_nat cbMax) (drop (Z.to_nat off) buf)) → P b) →
  safe (rd_RTStrEnd off cbMax) buf P.
Proof.
  intros H1 H2 H3 HP. unfold safe, rd_RTStrEnd, in_buf.
  rewrite !(proj2 (Z.leb_le 0 _)), !(proj2 (Z.leb_le _ len)) by lia. simpl.
  destruct (existsb _ _); by apply HP.
Qed.
End logic.

Lemma le_word_range l : Forall (λ b, 0 ≤ b < 256) l → 0 ≤ le_word l < 256 ^ Z.of_nat (length l).
Proof.
  induction 1 as [|b l Hb _ IH]; [simpl; lia|]. simpl le_word.
  rewrite length_cons, Nat2Z.inj_succ, Z.pow_succ_r by lia. lia.
Qed.

(** The bytes of a buffer. *)
Definition bytes_ok (buf : list Z) : Prop := Forall (λ b, 0 ≤ b < 256) buf.

Lemma rd_u32_le_word l o : (o + 4 ≤ length l)%nat → rd_u32 l o = le_word (take 4 (drop o l)).
Proof.
  intros H. unfold rd_u32. rewrite <- !lookup_drop.
  assert (Hl : (4 ≤ length (drop o l))%nat) by (rewrite length_drop; lia).
  destruct (drop o l) as [|a [|b [|c [|d r]]]]; simpl in *; lia.
Qed.

Section words.
Context (buf : list Z) (Hb : bytes_ok buf).
Abbreviation len := (Z.of_nat (length buf)).

Lemma safe_word off n (P : Z → Prop) :
  0 ≤ off → 0 ≤ n → off + n ≤ len →
  (∀ w, 0 ≤ w < 256 ^ n → w = le_word (take (Z.to_nat n) (drop (Z.to_nat off) buf)) → P w) →
  safe (l ← rd_bytes off n; mret (le_word l)) buf P.
Proof.
  intros H1 H2 H3 HP. apply safe_bind, safe_bytes; [done..|]. intros l Hl Hlen.
  apply safe_ret, HP; [|by rewrite Hl].
  rewrite <- Hlen. apply le_word_range. rewrite Hl. by apply Forall_take, Forall_drop.
Qed.

Lemma safe_w32 off (P : Z → Prop) :
  0 ≤ off → off + 4 ≤ len → (∀ w, 0 ≤ w < 2 ^ 32 → w = rd_u32 buf (Z.to_nat off) → P w) →
  safe (rd_w32 off) buf P.
Proof.
  intros H1 H2 HP. apply (safe_word off 4); [lia..|]. intros w Hw Hl. apply HP; [done|].
  rewrite Hl, rd_u32_le_word; [done|lia].
Qed.

Lemma safe_w64 off (P : Z → Prop) :
  0 ≤ off → off + 8 ≤ len → (∀ w, 0 ≤ w < 2 ^ 64 → P w) → safe (rd_w64 off) buf P.
Proof. intros H1 H2 HP. apply (safe_word off 8); [lia..|]. intros w Hw _. by apply HP. Qed.

Lemma safe_u8 off (P : Z → Prop) :
  0 ≤ off → off + 1 ≤ len → (∀ w, 0 ≤ w < 256 → buf !! Z.to_nat off = Some w → P w) →
  safe (rd_u8 off) buf P.
Proof.
  intros H1 H2 HP. apply (safe_word off 1); [lia..|]. intros w Hw Hl. apply HP; [done|].
  rewrite Hl, <- (Nat.add_0_r (Z.to_nat off)), <- lookup_drop, Nat.add_0_r.
  assert (Hd : (1 ≤ length (drop (Z.to_nat off) buf))%nat) by (rewrite length_drop; lia).
  destruct (drop (Z.to_nat off) buf) as [|b r]; simpl in *; [lia|]. f_equal. lia.
Qed.
End words.

(** * The checks stay in the buffer *)

#[export] Hint Unfold SUP_IOCTL_COOKIE_SIZE_IN SUP_IOCTL_COOKIE_SIZE_OUT SUPREQHDR_size
  SUP_IOCTL_PAGE_LOCK_SIZE_IN SUP_IOCTL_PAGE_LOCK_SIZE_OUT SUP_IOCTL_CONT_ALLOC_SIZE_IN
  SUP_IOCTL_CONT_ALLOC_SIZE_OUT SUP_IOCTL_LDR_OPEN_SIZE_IN SUP_IOCTL_LDR_OPEN_SIZE_OUT
  SUPLDRLOAD_size off_abImage SUP_IOCTL_LDR_LOAD_SIZE_IN SUP_IOCTL_LDR_GET_SYMBOL_SIZE_IN
  SUP_IOCTL_LDR_GET_SYMBOL_SIZE_OUT SUP_IOCTL_CALL_VMMR0_SIZE SUPVMMR0REQHDR_size
  SUP_IOCTL_LOW_ALLOC_SIZE_IN SUP_IOCTL_LOW_ALLOC_SIZE_OUT SUP_IOCTL_PAGE_ALLOC_EX_SIZE_IN
  SUP_IOCTL_PAGE_ALLOC_EX_SIZE_OUT SUP_IOCTL_PAGE_MAP_KERNEL_SIZE SUP_IOCTL_PAGE_PROTECT_SIZE_IN
  SUP_IOCTL_GIP_MAP_SIZE_OUT SUPR0SERVICEREQHDR_size SUP_IOCTL_LOGGER_SETTINGS_SIZE_IN
  SUP_IOCTL_SEM_OP2_SIZE_IN SUP_IOCTL_SEM_OP3_SIZE SUP_IOCTL_VT_CAPS_SIZE_OUT ONE_PTR_SIZE_IN
  SUP_IOCTL_CALL_SERVICE_SIZE SUP_IOCTL_QUERY_FUNCS_SIZE_OUT : reader.

Lemma until_nul_field cb l :
  Z.of_nat (length l) = cb → existsb (Z.eqb 0) l = true → field_ok cb (until_nul l).
Proof.
  intros <-. induction l as [|c l IH]; cbn [existsb until_nul length]; [done|]. intros H.
  destruct (Z.eqb_spec c 0) as [->|Hc]; [split; simpl; [lia|apply not_elem_of_nil]|].
  apply orb_true_iff in H as [H%Z.eqb_eq|H]; [by destruct Hc|]. destruct (IH H) as [H1 H2].
  split; cbn [length]; [lia|]. rewrite not_elem_of_cons. split; [lia|done].
Qed.

Lemma last_nul l k n (buf : list Z) :
  l = take (Z.to_nat n) (drop (Z.to_nat k) buf) → Z.of_nat (length l) = n → 0 < n →
  buf !! (Z.to_nat k + Z.to_nat (n - 1))%nat = Some 0 → ∃ l0, l = l0 ++ [0].
Proof.
  intros Hl Hlen Hn H. assert (Hlast : last l = Some 0).
  { rewrite last_lookup, Hl, lookup_take_lt, lookup_drop by (rewrite <- Hl; lia). rewrite <- H, <- Hl. f_equal. lia. }
  apply last_Some in Hlast as [l0 ->]. by exists l0.
Qed.

(** The first byte of a field that is no terminator. *)
Lemma until_nul_nonempty k n (buf : list Z) w :
  (0 < n)%nat → buf !! k = Some w → w ≠ 0 → until_nul (take n (drop k buf)) ≠ [].
Proof.
  intros Hn H Hw. rewrite <- (Nat.add_0_r k), <- lookup_drop in H.
  destruct (drop k buf) as [|c r]; [done|]. destruct n; [lia|]. injection H as ->. simpl.
  by rewrite (proj2 (Z.eqb_neq w 0) Hw).
Qed.

Lemma invalid_char_spec sz chars :
  supdrvCheckInvalidChar sz chars = false → Forall (λ c, c ∉ chars) sz.
Proof.
  unfold supdrvCheckInvalidChar. intros H. apply Forall_forall. intros c Hc Hin.
  assert (existsb (λ c, existsb (Z.eqb c) chars) sz = true); [|congruence].
  apply existsb_exists. exists c. split; [by apply list_elem_of_In|].
  apply existsb_exists. exists c. split; [by apply list_elem_of_In|apply Z.eqb_refl].
Qed.

Section checks.
Context (n : Z) (buf : list Z) (h : SUPREQHDR) (Hb : bytes_ok buf) (Hin : h_cbIn h ≤ Z.of_nat (length buf)).

Ltac rd_step :=
  lazymatch goal with
  | |- safe (mbind _ _) _ _ => apply safe_bind
  | |- safe (mret _) _ _ => apply safe_ret
  | |- safe (REQ_CHECK_SIZES_EX _ _ _) _ _ => apply safe_sizes; intros ? ?
  | |- safe (REQ_CHECK_EXPR _) _ _ =>
      apply safe_check; let H := fresh "Hchk" in intros H; zbool
  | |- safe (rd_w32 _) _ _ => apply (safe_w32 buf Hb); [lia|lia|intros ? ? ?]
  | |- safe (rd_w64 _) _ _ => apply (safe_w64 buf Hb); [lia|lia|intros ? ?]
  | |- safe (rd_u8 _) _ _ => apply (safe_u8 buf Hb); [lia|lia|intros ? ? ?]
  | |- safe (rd_bytes _ _) _ _ => apply safe_bytes; [lia|lia|lia|intros ? ? ?]
  | |- safe (rd_RTStrEnd _ _) _ _ => apply safe_str; [lia|lia|lia|intros ? ?]
  end.
Ltac rd := autounfold with reader in *; repeat rd_step.

Lemma safe_COOKIE : safe (req_COOKIE h) buf (req_ok n h).
Proof. unfold req_COOKIE. rd. done. Qed.

Lemma safe_QUERY_FUNCS : safe (req_QUERY_FUNCS n h) buf (req_ok n h).
Proof. unfold req_QUERY_FUNCS. rd. done. Qed.

Lemma safe_PAGE_LOCK : safe (req_PAGE_LOCK h) buf (req_ok n h).
Proof. unfold req_PAGE_LOCK. rd. simpl. lia. Qed.

Lemma safe_one_ptr mk : (∀ p, req_ok n h (mk p)) → safe (req_one_ptr mk h) buf (req_ok n h).
Proof. intros Hmk. unfold req_one_ptr. rd. apply Hmk. Qed.

Lemma safe_CONT_ALLOC : safe (req_CONT_ALLOC h) buf (req_ok n h).
Proof. unfold req_CONT_ALLOC. rd. done. Qed.

Lemma safe_CALL_VMMR0_BIG : safe (req_CALL_VMMR0_BIG h) buf (req_ok n h).
Proof. unfold req_CALL_VMMR0_BIG, check_pkt, rd_call_vmmr0. rd. done. Qed.

Lemma safe_CALL_VMMR0 : safe (req_CALL_VMMR0 h) buf (req_ok n h).
Proof.
  unfold req_CALL_VMMR0. destruct (Z.eqb_spec (h_cbIn h) (SUP_IOCTL_CALL_VMMR0_SIZE 0)).
  - unfold rd_call_vmmr0. rd. by intros _.
  - apply safe_CALL_VMMR0_BIG.
Qed.

Lemma safe_GET_PAGING_MODE : safe (req_GET_PAGING_MODE h) buf (req_ok n h).
Proof. unfold req_GET_PAGING_MODE. rd. done. Qed.

Lemma safe_LOW_ALLOC : safe (req_LOW_ALLOC h) buf (req_ok n h).
Proof. unfold req_LOW_ALLOC. rd. simpl. lia. Qed.

Lemma safe_GIP_MAP : safe (req_GIP_MAP h) buf (req_ok n h).
Proof. unfold req_GIP_MAP. rd. done. Qed.

Lemma safe_GIP_UNMAP : safe (req_GIP_UNMAP h) buf (req_ok n h).
Proof. unfold req_GIP_UNMAP. rd. done. Qed.

Lemma safe_SET_VM_FOR_FAST : safe (req_SET_VM_FOR_FAST h) buf (req_ok n h).
Proof.
  unfold req_SET_VM_FOR_FAST. rd. simpl. unfold is_nz in *.
  destruct Hchk; zbool; [by left|by right].
Qed.

Lemma safe_PAGE_ALLOC_EX : safe (req_PAGE_ALLOC_EX h) buf (req_ok n h).
Proof. unfold req_PAGE_ALLOC_EX. rd. simpl. split; [done|]. lia. Qed.

Lemma safe_PAGE_MAP_KERNEL : safe (req_PAGE_MAP_KERNEL h) buf (req_ok n h).
Proof. unfold req_PAGE_MAP_KERNEL, is_nz. rd. simpl. autounfold with reader. lia. Qed.

Lemma safe_PAGE_PROTECT : safe (req_PAGE_PROTECT h) buf (req_ok n h).
Proof. unfold req_PAGE_PROTECT, is_nz. rd. simpl. lia. Qed.

Lemma safe_CALL_SERVICE : safe (req_CALL_SERVICE h) buf (req_ok n h).
Proof.
  unfold req_CALL_SERVICE, check_pkt. apply safe_bind. eapply (safe_mono _ _ (λ _, 64 ≤ h_cbIn h)).
  - destruct (Z.eqb_spec (h_cbIn h) (SUP_IOCTL_CALL_SERVICE_SIZE 0)); rd; lia.
  - intros _ Hs. rd. subst. by apply until_nul_field.
Qed.

Lemma safe_SEM_OP2 : safe (req_SEM_OP2 h) buf (req_ok n h).
Proof. unfold req_SEM_OP2. rd. done. Qed.

Lemma safe_SEM_OP3 : safe (req_SEM_OP3 h) buf (req_ok n h).
Proof. unfold req_SEM_OP3. rd. done. Qed.

Lemma safe_VT_CAPS : safe (req_VT_CAPS h) buf (req_ok n h).
Proof. unfold req_VT_CAPS. rd. done. Qed.

Lemma safe_LOGGER_SETTINGS : safe (req_LOGGER_SETTINGS h) buf (req_ok n h).
Proof.
  unfold req_LOGGER_SETTINGS. rd. simpl. subst w2.
  lazymatch goal with Hl : _ = take _ (drop _ buf) |- _ => eapply last_nul in Hl as [l0 Hl]; [|done|lia|] end.
  - exists l0. split_and!; [done|lia..].
  - lazymatch goal with Hn : buf !! _ = Some 0 |- _ => rewrite <- Hn end. f_equal. lia.
Qed.

Lemma safe_LDR_OPEN : safe (req_LDR_OPEN h) buf (req_ok n h).
Proof.
  unfold req_LDR_OPEN, is_nz. rd. simpl. subst. split; [done|]. split; [lia|]. split; [lia|].
  split; [|split_and!; [by apply until_nul_field| |by apply until_nul_field]].
  - eapply until_nul_nonempty; [lia|eassumption|done].
  - by apply invalid_char_spec.
Qed.

Lemma safe_LDR_GET_SYMBOL : safe (req_LDR_GET_SYMBOL h) buf (req_ok n h).
Proof. unfold req_LDR_GET_SYMBOL. rd. split; [done|]. subst. by apply until_nul_field. Qed.

Lemma rd_syms_S l off k :
  0 ≤ off →
  rd_syms l off (Z.of_nat (S k))
  = mkSym (rd_u32 l (Z.to_nat off)) (rd_u32 l (Z.to_nat off + 4)) :: rd_syms l (off + 8) (Z.of_nat k).
Proof.
  intros Ho. unfold rd_syms. rewrite Nat2Z.inj_succ, seqZ_cons by lia. cbn [fmap list_fmap].
  rewrite Z.mul_0_r, Z.add_0_r, Z.pred_succ. f_equal.
  replace (Z.succ 0) with (1 + 0) by lia. rewrite <- fmap_add_seqZ, <- list_fmap_compose.
  apply list_fmap_ext. intros _ j _. simpl. by replace (off + 8 * (1 + j)) with (off + 8 + 8 * j) by lia.
Qed.

(** The members of a load request. *)
Definition ldr_load_read (cbTabs : Z) (q : LdrLoadReq) : Prop :=
  ll_cbImageWithTabs q = cbTabs ∧ ll_abImage q = take (Z.to_nat cbTabs) (drop 108 buf)
  ∧ Z.of_nat (length (ll_abImage q)) = cbTabs
  ∧ 0 ≤ ll_offSymbols q < 2 ^ 32 ∧ 0 ≤ ll_cSymbols q < 2 ^ 32
  ∧ 0 ≤ ll_offStrTab q < 2 ^ 32 ∧ 0 ≤ ll_cbStrTab q < 2 ^ 32.

Lemma safe_rd_ldr_load cbTabs :
  0 ≤ cbTabs → 108 + cbTabs ≤ Z.of_nat (length buf) →
  112 ≤ Z.of_nat (length buf) → safe (rd_ldr_load cbTabs) buf (ldr_load_read cbTabs).
Proof. intros Hc Hl1 Hl2. unfold rd_ldr_load. rd. done. Qed.

(** A 32-bit word of the image. *)
Lemma image_word m o :
  (108 + o + 4 ≤ 108 + m)%nat → rd_u32 (take m (drop 108 buf)) o = rd_u32 buf (108 + o).
Proof.
  intros Ho. unfold rd_u32. rewrite !lookup_take_lt, !lookup_drop by lia.
  by rewrite !Nat.add_assoc.
Qed.

Lemma safe_check_syms cbTabs q k : ∀ i,
  ldr_load_read cbTabs q → 108 + cbTabs ≤ Z.of_nat (length buf) → 0 ≤ i →
  ll_offSymbols q + 8 * (i + Z.of_nat k) ≤ cbTabs → cbTabs < 2 ^ 31 →
  (ll_cbStrTab q ≠ 0 → ll_offStrTab q + ll_cbStrTab q ≤ cbTabs) →
  safe (check_syms k i q) buf
    (λ _, Forall (sym_ok q) (rd_syms (ll_abImage q) (ll_offSymbols q + 8 * i) (Z.of_nat k))).
Proof.
  induction k as [|k IH]; intros i Hq Hlen Hi Hsym Hmax Hstr; cbn [check_syms]; [by apply safe_ret, Forall_nil|].
  pose proof Hq as (Htabs&Himg&Hil&Hos&Hcs&Hot&Hct). rewrite <- Htabs in *. unfold off_abImage.
  apply safe_bind, (safe_w32 buf Hb); [lia|lia|]. intros nm Hnm Hnmv.
  apply safe_bind, (safe_w32 buf Hb); [lia|lia|]. intros sy Hsy Hsyv. rd_step. rd_step. rd_step. rd_step.
  assert (Hot2 : ll_offStrTab q + ll_cbStrTab q ≤ ll_cbImageWithTabs q) by (apply Hstr; lia).
  rewrite u32_small by lia. rd_step. rd_step. rd_step. rd_step.
  eapply safe_mono; [apply (IH (i + 1)); [done|lia|lia|lia|lia|done]|].
  intros ? Hall. rewrite rd_syms_S by lia. replace (ll_offSymbols q + 8 * (i + 1)) with (ll_offSymbols q + 8 * i + 8) in Hall by lia.
  constructor; [|done]. rewrite Hchk1 in H. symmetry in H. apply existsb_exists in H as (z&Hz%list_elem_of_In&<-%Z.eqb_eq).
  rewrite Himg, !image_word by lia.
  replace (108 + Z.to_nat (ll_offSymbols q + 8 * i))%nat with (Z.to_nat (108 + (ll_offSymbols q + 8 * i))) by lia.
  replace (108 + (Z.to_nat (ll_offSymbols q + 8 * i) + 4))%nat
    with (Z.to_nat (108 + (ll_offSymbols q + 8 * i) + 4)) by lia.
  rewrite <- Hnmv, <- Hsyv. split_and!; simpl; [lia..|].
  rewrite Himg, skipn_firstn_comm, take_take, drop_drop, Nat.min_l by lia.
  by replace (108 + Z.to_nat (ll_offStrTab q + nm))%nat with (Z.to_nat (108 + (ll_offStrTab q + nm))) by lia.
Qed.

Lemma safe_LDR_LOAD : h_cbIn h < 2 ^ 31 → safe (req_LDR_LOAD h) buf (req_ok n h).
Proof.
  intros Hmax. unfold req_LDR_LOAD. autounfold with reader in *. rd_step. rd_step. rd_step.
  apply (safe_w32 buf Hb); [lia|lia|intros cbTabs Hc _]. rd_step. rd_step. rd_step.
  eapply safe_mono; [apply safe_rd_ldr_load; lia|]. intros q Hq. pose proof Hq as (Htabs&Himg&Hil&Hos&Hcs&Hot&Hct).
  rd_step. rd_step. rd_step. rd_step. rd_step. rd_step. rd_step. unfold is_nz in *.
  assert (Hst : ll_cbStrTab q ≠ 0 → ll_offStrTab q + ll_cbStrTab q ≤ cbTabs).
  { intros Hne. destruct Hchk2 as [?|?]; zbool; [done|]. rewrite u32_small in *; lia. }
  assert (Hsy : ll_cSymbols q ≠ 0 → ll_offSymbols q + 8 * ll_cSymbols q ≤ cbTabs).
  { intros Hne. destruct Hchk1 as [?|?]; zbool; lia. }
  assert (Hcheck : safe (check_syms (Z.to_nat (ll_cSymbols q)) 0 q) buf
            (λ _, Forall (sym_ok q) (rd_syms (ll_abImage q) (ll_offSymbols q) (ll_cSymbols q)))).
  { destruct (decide (ll_cSymbols q = 0)) as [E|E]; [rewrite E; by apply safe_ret, Forall_nil|].
    eapply safe_mono; [apply (safe_check_syms cbTabs q _ 0); [done|lia|lia|lia|lia|done]|].
    intros ?. by rewrite Z2Nat.id, Z.mul_0_r, Z.add_0_r by lia. }
  eapply safe_mono; [exact Hcheck|]. intros ? Hall. rd_step. simpl. unfold load_ok. rewrite Htabs. split_and!; done || lia.
Qed.

Lemma io_cases_safe :
  h_cbIn h < 2 ^ 31 → Forall (λ c, safe (snd c h) buf (req_ok n h)) (io_cases n).
Proof.
  intros Hmax. unfold io_cases. repeat apply Forall_cons_2; try apply Forall_nil_2; simpl;
    first [ by apply safe_one_ptr | by apply safe_LDR_LOAD | apply safe_COOKIE | apply safe_QUERY_FUNCS
          | apply safe_PAGE_LOCK | apply safe_CONT_ALLOC | apply safe_CALL_VMMR0_BIG | apply safe_CALL_VMMR0
          | apply safe_GET_PAGING_MODE | apply safe_LOW_ALLOC | apply safe_GIP_MAP | apply safe_GIP_UNMAP
          | apply safe_SET_VM_FOR_FAST | apply safe_PAGE_ALLOC_EX | apply safe_PAGE_MAP_KERNEL
          | apply safe_PAGE_PROTECT | apply safe_CALL_SERVICE | apply safe_SEM_OP2 | apply safe_SEM_OP3
          | apply safe_VT_CAPS | apply safe_LDR_OPEN | apply safe_LDR_GET_SYMBOL | apply safe_LOGGER_SETTINGS ].
Qed.
End checks.

Lemma io_switch_in cases code req : io_switch cases code = Some req → ∃ c, (c, req) ∈ cases.
Proof.
  induction cases as [|[c r] cases IH]; simpl; [done|].
  destruct (code =? c); intros H; [injection H as ->; exists c; left|].
  destruct (IH H) as [c' ?]. exists c'. by right.
Qed.

(** Reading is no check. *)
Lemma rd_w32_not_bad off buf : rd_w32 off buf ≠ Bad.
Proof. unfold rd_w32, rd_bytes, mbind, Rd_bind, mret, Rd_ret. by destruct (in_buf _ _ _). Qed.

Lemma bind_not_bad {A B} (m : Rd A) (f : A → Rd B) buf :
  m buf ≠ Bad → (∀ a, f a buf ≠ Bad) → (m ≫= f) buf ≠ Bad.
Proof. unfold mbind, Rd_bind. intros Hm Hf. destruct (m buf); [apply Hf|done|done]. Qed.

Lemma rd_hdr_not_bad buf : rd_hdr buf ≠ Bad.
Proof. unfold rd_hdr. do 5 (apply bind_not_bad; [apply rd_w32_not_bad|intros ?]). done. Qed.

(** The header is read when there is one. *)
Lemma rd_hdr_ok buf : bytes_ok buf → 24 ≤ Z.of_nat (length buf) →
  ∃ h, rd_hdr buf = Ok h ∧ 0 ≤ h_cbIn h < 2 ^ 32 ∧ 0 ≤ h_cbOut h < 2 ^ 32
       ∧ h_cbIn h = rd_u32 buf 8 ∧ h_cbOut h = rd_u32 buf 12.
Proof.
  intros Hb Hl.
  assert (H : safe rd_hdr buf (λ h, 0 ≤ h_cbIn h < 2 ^ 32 ∧ 0 ≤ h_cbOut h < 2 ^ 32
                  ∧ h_cbIn h = rd_u32 buf 8 ∧ h_cbOut h = rd_u32 buf 12)).
  { unfold rd_hdr. do 5 (apply safe_bind, (safe_w32 buf Hb); [lia|lia|intros ? ? ?]).
    apply safe_ret. done. }
  unfold safe in H. destruct (rd_hdr buf) as [h| |] eqn:E; [by exists h| |done].
  by destruct (rd_hdr_not_bad buf).
Qed.

Lemma check_cases u32Cookie cFunctions uIOCtl ses buf :
  bytes_ok buf → 24 ≤ Z.of_nat (length buf) →
  rd_u32 buf 8 ≤ Z.of_nat (length buf) → rd_u32 buf 8 < 2 ^ 31 →
  match supdrvIOCtl_check u32Cookie cFunctions uIOCtl ses buf with
  | IoAccept h r =>
      rd_hdr buf = Ok h ∧ supdrvIOCtl_hdr_ok h = true ∧ VALID_PTR (s_self ses) = true
      ∧ supdrvIOCtl_cookie_ok u32Cookie uIOCtl ses h = true ∧ req_ok cFunctions h r
  | IoFault => False
  | _ => True
  end.
Proof.
  intros Hb Hl Hin Hmax. destruct (rd_hdr_ok buf Hb Hl) as (h&Eh&_&_&Hcb&_). rewrite <- Hcb in *.
  unfold supdrvIOCtl_check. rewrite Eh.
  destruct (supdrvIOCtl_hdr_ok h) eqn:E1; [|done]. destruct (VALID_PTR (s_self ses)) eqn:E2; [|done].
  destruct (supdrvIOCtl_cookie_ok _ _ _ _) eqn:E3; [|done]. cbn [negb].
  destruct (io_switch _ _) as [req|] eqn:Es; [|done]. apply io_switch_in in Es as [c Hc].
  pose proof (io_cases_safe cFunctions buf h Hb Hin Hmax) as Hall. rewrite Forall_forall in Hall.
  specialize (Hall _ Hc). simpl in Hall. unfold safe in Hall. destruct (req h buf); done.
Qed.

(** * Properties *)

(** C6. Whatever ring-3 sends, when the first [cbIn] bytes of it are in the buffer (and
    [cbIn] is below 2^31), the checks read nothing beyond the buffer, and a request they
    accept has its sizes, counts, offsets and strings within its structure: strings end
    inside their fields, the tables of an image and every symbol lie inside the image, and
    the output fits [cbOut]. *)
Theorem request_checks_in_bounds u32Cookie cFunctions uIOCtl ses buf :
  bytes_ok buf → 24 ≤ Z.of_nat (length buf) →
  rd_u32 buf 8 ≤ Z.of_nat (length buf) → rd_u32 buf 8 < 2 ^ 31 →
  supdrvIOCtl_check u32Cookie cFunctions uIOCtl ses buf ≠ IoFault
  ∧ ∀ h r, supdrvIOCtl_check u32Cookie cFunctions uIOCtl ses buf = IoAccept h r → req_ok cFunctions h r.
Proof.
  intros Hb Hl Hin Hmax. pose proof (check_cases u32Cookie cFunctions uIOCtl ses buf Hb Hl Hin Hmax) as H.
  destruct (supdrvIOCtl_check _ _ _ _ _) as [h r| | | |]; split; try done. intros h' r' [= <- <-]. apply H.
Qed.

(** * Witnesses *)

(** [n] bytes of a number. *)
Fixpoint le_bytes (n : nat) (z : Z) : list Z :=
  match n with
  | O => []
  | S n => z mod 256 :: le_bytes n (z / 256)
  end.

Definition demo_hdr (cbIn cbOut : Z) : list Z :=
  le_bytes 4 BIRD ++ le_bytes 4 BIRD_INV ++ le_bytes 4 cbIn ++ le_bytes 4 cbOut ++ le_bytes 4 SUPREQHDR_FLAGS_MAGIC
  ++ le_bytes 4 0.

(** Loading the image of [demo_load]: 32 bytes of code, one symbol and its name. *)
Definition demo_buf_load (eEPType e0 e1 e2 e3 : Z) : list Z :=
  demo_hdr 150 24 ++ le_bytes 8 0xffff880000100008 ++ le_bytes 8 0
  ++ le_bytes 8 e0 ++ le_bytes 8 e1 ++ le_bytes 8 e2 ++ le_bytes 8 e3 ++ le_bytes 8 0xffff880000100000
  ++ le_bytes 4 eEPType ++ le_bytes 4 0x20 ++ le_bytes 4 32 ++ le_bytes 4 1 ++ le_bytes 4 40 ++ le_bytes 4 2
  ++ le_bytes 4 42 ++ demo_abImage.

Definition demo_ioses : SUPDRVSESSION :=
  mkSession 0xffff880000010000 BIRD_INV 0 0xffff880000070000 NIL_RTUID NIL_RTGID 1234 1234.

Lemma bytes_ok_dec buf : forallb (λ b, (0 <=? b) && (b <? 256)) buf = true → bytes_ok buf.
Proof.
  intros H. apply Forall_forall. intros b Hb. rewrite forallb_forall in H.
  specialize (H b ltac:(by apply list_elem_of_In)). lia.
Qed.

Lemma request_checks_in_bounds_witness :
  ∃ h q, supdrvIOCtl_check BIRD 0 SUP_IOCTL_LDR_LOAD demo_ioses (demo_buf_load 0 0 0 0 0) = IoAccept h (ReqLdrLoad q)
    ∧ load_ok q.
Proof.
  destruct (request_checks_in_bounds BIRD 0 SUP_IOCTL_LDR_LOAD demo_ioses (demo_buf_load 0 0 0 0 0)) as [_ H];
    [apply bytes_ok_dec; vm_compute; reflexivity|vm_compute; discriminate|vm_compute; discriminate
    |vm_compute; reflexivity|].
  destruct (supdrvIOCtl_check BIRD 0 SUP_IOCTL_LDR_LOAD demo_ioses (demo_buf_load 0 0 0 0 0)) as [h q| | | |] eqn:E;
    try (vm_compute in E; discriminate E).
  specialize (H h q eq_refl). vm_compute in E. injection E as <- <-. eexists _, _. split; [reflexivity|]. exact H.
Defined.
