(* ===== verification/HandleTab.v ===== *)
(** The runtime's handle tables with context, which a session keeps its semaphore handles
    in: [RTHandleTableCreateEx], [RTHandleTableAllocWithCtx], [RTHandleTableLookupWithCtx],
    [RTHandleTableFreeWithCtx] and [RTHandleTableDestroy].

    State: the table structure with its two levels of entries; free entries are linked
    through their object word.  Results of allocations are arguments.  Where the allocation
    drops the spinlock, [ae_others1] to [ae_others3] say what other threads did to the table
    meanwhile. *)

From S2P Require Import Prelude SupTypes.
Local Open Scope Z_scope.

(** * Data *)

Definition RTHT_LEVEL2_ENTRIES : Z := 2048.
Definition RTHT_LEVEL1_DYN_ALLOC_THRESHOLD : Z := 256.
Definition NIL_RTHT_INDEX : Z := 0xffffffff.
Definition RTHANDLETABLE_MAGIC : Z := 0x19830808.
Definition RTHANDLETABLE_FLAGS_CONTEXT : Z := 1.
Definition RTHANDLETABLE_FLAGS_LOCKED : Z := 2.
Definition RTHANDLETABLE_FLAGS_MASK : Z := 3.
Definition NIL_RTHANDLETABLE : Z := 0.
Definition NIL_RTSPINLOCK : Z := 0.
Definition UINT32_MAX : Z := 0xffffffff.

(** [RTHTENTRYCTX]; the first word is [RTHTENTRYFREE::iNext] in a free entry. *)
Record RTHTENTRYCTX := mkEntry {
  te_pvObj : Z;
  te_pvCtx : Z;
}.

Definition RTHT_IS_FREE (pvObj : Z) : bool := Z.land pvObj 3 =? 3.
(** The value stored for an index, and back. *)
Definition RTHT_SET_FREE_IDX (idx : Z) : Z := Z.lor (Z.shiftl (u32 idx) 2) 3.
Definition RTHT_GET_FREE_IDX (iNext : Z) : Z := u32 (Z.shiftr iNext 2).

(** [(void * )~(uintptr_t)7] *)
Definition FREE_CTX : Z := 2 ^ 64 - 8.

(** [ht_self], [ht_papvLevel1]: the addresses of the structure and of the first level;
    [ht_level1]: the first level, each non-NULL element with its second level table. *)
Record RTHANDLETABLEINT := mkHt {
  ht_self : ptr;
  ht_u32Magic : Z;
  ht_fFlags : Z;
  ht_uBase : Z;
  ht_cCur : Z;
  ht_hSpinlock : Z;
  ht_papvLevel1 : ptr;
  ht_level1 : list (option (ptr * list RTHTENTRYCTX));
  ht_pfnRetain : bool;
  ht_cMax : Z;
  ht_cCurAllocated : Z;
  ht_cLevel1 : Z;
  ht_iFreeHead : Z;
  ht_iFreeTail : Z;
}.

Definition ht_set_level1 (pv : ptr) (l : list (option (ptr * list RTHTENTRYCTX))) (cLevel1 : Z)
    (t : RTHANDLETABLEINT) : RTHANDLETABLEINT :=
  mkHt (ht_self t) (ht_u32Magic t) (ht_fFlags t) (ht_uBase t) (ht_cCur t) (ht_hSpinlock t)
    pv l (ht_pfnRetain t) (ht_cMax t) (ht_cCurAllocated t) cLevel1
    (ht_iFreeHead t) (ht_iFreeTail t).
Definition ht_set_free (iHead iTail cAllocated : Z) (t : RTHANDLETABLEINT) : RTHANDLETABLEINT :=
  mkHt (ht_self t) (ht_u32Magic t) (ht_fFlags t) (ht_uBase t) (ht_cCur t) (ht_hSpinlock t)
    (ht_papvLevel1 t) (ht_level1 t) (ht_pfnRetain t) (ht_cMax t) cAllocated (ht_cLevel1 t)
    iHead iTail.
Definition ht_set_cCur (n : Z) (t : RTHANDLETABLEINT) : RTHANDLETABLEINT :=
  mkHt (ht_self t) (ht_u32Magic t) (ht_fFlags t) (ht_uBase t) n (ht_hSpinlock t)
    (ht_papvLevel1 t) (ht_level1 t) (ht_pfnRetain t) (ht_cMax t) (ht_cCurAllocated t)
    (ht_cLevel1 t) (ht_iFreeHead t) (ht_iFreeTail t).
Definition ht_set_magic (m hSpinlock : Z) (t : RTHANDLETABLEINT) : RTHANDLETABLEINT :=
  mkHt (ht_self t) m (ht_fFlags t) (ht_uBase t) (ht_cCur t) hSpinlock
    (ht_papvLevel1 t) (ht_level1 t) (ht_pfnRetain t) (ht_cMax t) (ht_cCurAllocated t)
    (ht_cLevel1 t) (ht_iFreeHead t) (ht_iFreeTail t).

(** * Lookup and update of an entry *)

Definition rtHandleTableLookupWithCtxIdx (t : RTHANDLETABLEINT) (i : Z) : option RTHTENTRYCTX :=
  if i <? ht_cCur t then
    match ht_level1 t !! Z.to_nat (i / RTHT_LEVEL2_ENTRIES) with
    | Some (Some (_, paTable)) => paTable !! Z.to_nat (i mod RTHT_LEVEL2_ENTRIES)
    | _ => None
    end
  else None.

Definition rtHandleTableLookupWithCtx (t : RTHANDLETABLEINT) (h : Z) : option RTHTENTRYCTX :=
  rtHandleTableLookupWithCtxIdx t (u32 (h - ht_uBase t)).

(** Storing through the pointer a lookup returned. *)
Definition ht_store (i : Z) (f : RTHTENTRYCTX → RTHTENTRYCTX) (t : RTHANDLETABLEINT)
    : RTHANDLETABLEINT :=
  ht_set_level1 (ht_papvLevel1 t)
    (alter (λ o, (λ pt, (pt.1, alter f (Z.to_nat (i mod RTHT_LEVEL2_ENTRIES)) pt.2)) <$> o)
       (Z.to_nat (i / RTHT_LEVEL2_ENTRIES)) (ht_level1 t))
    (ht_cLevel1 t) t.

(** [RTHT_SET_FREE_IDX(pEntry, idx)] *)
Definition ht_store_next (i idx : Z) (t : RTHANDLETABLEINT) : RTHANDLETABLEINT :=
  ht_store i (λ e, mkEntry (RTHT_SET_FREE_IDX idx) (te_pvCtx e)) t.

(** * Creation *)

(** [RTMemFree], which ignores NULL. *)
Definition ev_free (p : ptr) : list event := if p =? NULL then [] else [EvMemFree p].

(** [rThis]: the structure [RTMemAllocZ] returns; [rSpin]: status and handle of
    [RTSpinlockCreate]; [fRetain]: whether there is a retain callback.  The results are the
    status and [*phHandleTable]. *)
Definition RTHandleTableCreateEx (fFlags uBase cMax : Z) (fRetain : bool) (rThis : option ptr)
    (rSpin : Z * Z) : Z * option RTHANDLETABLEINT * list event :=
  if negb (Z.land fFlags (Z.lnot RTHANDLETABLE_FLAGS_MASK) =? 0) then (VERR_INVALID_PARAMETER, None, [])
  else if cMax <=? 0 then (VERR_INVALID_PARAMETER, None, [])
  else if UINT32_MAX - cMax <? uBase then (VERR_INVALID_PARAMETER, None, [])
  else
    let cMax := if UINT32_MAX - RTHT_LEVEL2_ENTRIES <=? cMax then UINT32_MAX - RTHT_LEVEL2_ENTRIES + 1
                else cMax in
    let cMax := u32 (cMax + RTHT_LEVEL2_ENTRIES - 1) / RTHT_LEVEL2_ENTRIES * RTHT_LEVEL2_ENTRIES in
    let cLevel1 := cMax / RTHT_LEVEL2_ENTRIES in
    match rThis with
    | None => (VERR_NO_MEMORY, None, [])
    | Some pThis =>
        let fInl := cLevel1 <? RTHT_LEVEL1_DYN_ALLOC_THRESHOLD in
        (* the inline first level follows the structure of 72 bytes *)
        let mk hSpin :=
          mkHt pThis RTHANDLETABLE_MAGIC fFlags uBase 0 hSpin (if fInl then pThis + 72 else NULL)
            (if fInl then replicate (Z.to_nat cLevel1) None else []) fRetain cMax 0
            (if fInl then cLevel1 else 0) NIL_RTHT_INDEX NIL_RTHT_INDEX in
        if negb (Z.land fFlags RTHANDLETABLE_FLAGS_LOCKED =? 0) then
          let '(rc, hSpin) := rSpin in
          if RT_FAILURE rc then (rc, None, [EvMemFree pThis])
          else (VINF_SUCCESS, Some (mk hSpin), [])
        else (VINF_SUCCESS, Some (mk NIL_RTSPINLOCK), [])
    end.

(** * Allocation *)

(** What one round outside the lock meets: the allocations and the other threads. *)
Record AllocEnv := mkAllocEnv {
  ae_level1 : option ptr;
  ae_table : option ptr;
  ae_others1 : RTHANDLETABLEINT → RTHANDLETABLEINT;
  ae_others2 : RTHANDLETABLEINT → RTHANDLETABLEINT;
  ae_others3 : RTHANDLETABLEINT → RTHANDLETABLEINT;
}.

(** A free entry is taken from the head of the free list. *)
Definition alloc_grab (t : RTHANDLETABLEINT) (pvObj pvCtx : Z) : Z * RTHANDLETABLEINT :=
  let i := ht_iFreeHead t in
  let iNext := from_option te_pvObj 0 (rtHandleTableLookupWithCtxIdx t i) in
  let cAllocated := u32 (ht_cCurAllocated t + 1) in
  let t := if i =? ht_iFreeTail t then ht_set_free NIL_RTHT_INDEX NIL_RTHT_INDEX cAllocated t
           else ht_set_free (RTHT_GET_FREE_IDX iNext) (ht_iFreeTail t) cAllocated t in
  (u32 (i + ht_uBase t), ht_store i (λ _, mkEntry pvObj pvCtx) t).

(** The new second level table as a free list. *)
Definition fresh_table (cCur : Z) : list RTHTENTRYCTX :=
  ((λ i, mkEntry (RTHT_SET_FREE_IDX (u32 (i + 1 + cCur))) FREE_CTX) <$> seqZ 0 (RTHT_LEVEL2_ENTRIES - 1))
  ++ [mkEntry (RTHT_SET_FREE_IDX NIL_RTHT_INDEX) FREE_CTX].

(** "insert the table we allocated", "link all entries into a free list", "join the free
    list with the other". *)
Definition alloc_insert (t : RTHANDLETABLEINT) (paTable : ptr) : RTHANDLETABLEINT :=
  let cCur := ht_cCur t in
  let t := ht_set_level1 (ht_papvLevel1 t)
             (<[Z.to_nat (cCur / RTHT_LEVEL2_ENTRIES) := Some (paTable, fresh_table cCur)]> (ht_level1 t))
             (ht_cLevel1 t) t in
  let t := if ht_iFreeTail t =? NIL_RTHT_INDEX
           then ht_set_free cCur (ht_iFreeTail t) (ht_cCurAllocated t) t
           else ht_store_next (ht_iFreeTail t) cCur t in
  let t := ht_set_free (ht_iFreeHead t) (u32 (cCur + RTHT_LEVEL2_ENTRIES - 1)) (ht_cCurAllocated t) t in
  ht_set_cCur (u32 (cCur + RTHT_LEVEL2_ENTRIES)) t.

(** The number of first level entries to allocate, 0 for none. *)
Definition level1_wanted (t : RTHANDLETABLEINT) : Z :=
  let iLevel1 := ht_cCur t / RTHT_LEVEL2_ENTRIES in
  let cLevel1 := if ht_cLevel1 t <=? iLevel1 then u32 (ht_cLevel1 t + PAGE_SIZE / 8) else 0 in
  if ht_cMax t / RTHT_LEVEL2_ENTRIES <? cLevel1 then ht_cMax t / RTHT_LEVEL2_ENTRIES else cLevel1.

(** "Replace the 1st level table": the new table, and the one to free. *)
Definition level1_replace (t : RTHANDLETABLEINT) (cLevel1 : Z) (papvLevel1 : ptr)
    : RTHANDLETABLEINT * ptr :=
  if ht_cLevel1 t <? cLevel1 then
    (ht_set_level1 papvLevel1
       (take (Z.to_nat (ht_cLevel1 t)) (ht_level1 t)
        ++ replicate (Z.to_nat (cLevel1 - ht_cLevel1 t)) None) cLevel1 t,
     ht_papvLevel1 t)
  else (t, papvLevel1).

(** The table is expanded outside the lock: [false] with what the table is then when
    memory runs out. *)
Definition alloc_expand (t : RTHANDLETABLEINT) (env : AllocEnv) : bool * RTHANDLETABLEINT * list event :=
  let cLevel1 := level1_wanted t in
  let t := ae_others1 env t in
  let papvLevel1 := if negb (cLevel1 =? 0) then ae_level1 env else Some NULL in
  match papvLevel1 with
  | None => (false, t, [])
  | Some papvLevel1 =>
      match ae_table env with
      | None => (false, t, ev_free papvLevel1)
      | Some paTable =>
          let '(t, ev) :=
            if negb (cLevel1 =? 0) then
              let '(t, papvOld) := level1_replace t cLevel1 papvLevel1 in
              (ae_others2 env t, ev_free papvOld)
            else (t, []) in
          if (ht_cCur t / RTHT_LEVEL2_ENTRIES <? ht_cLevel1 t) && (ht_cCur t <? ht_cMax t)
          then (true, alloc_insert t paTable, ev)
          else (true, ae_others3 env t, ev ++ [EvMemFree paTable])
      end
  end.

(** The allocation loop, one element of [envs] for each expansion; [None] when there are
    not enough of them. *)
Fixpoint alloc_loop (envs : list AllocEnv) (t : RTHANDLETABLEINT) (pvObj pvCtx ph : Z)
    : option (Z * Z * RTHANDLETABLEINT * list event) :=
  if negb (ht_iFreeHead t =? NIL_RTHT_INDEX) then
    let '(h, t) := alloc_grab t pvObj pvCtx in Some (VINF_SUCCESS, h, t, [])
  else if ht_cMax t <=? ht_cCur t then Some (VERR_NO_MORE_HANDLES, ph, t, [])
  else
    match envs with
    | [] => None
    | env :: envs =>
        let '(fOk, t, ev) := alloc_expand t env in
        if fOk then
          match alloc_loop envs t pvObj pvCtx ph with
          | Some (rc, h, t, ev') => Some (rc, h, t, ev ++ ev')
          | None => None
          end
        else Some (VERR_NO_MEMORY, ph, t, ev)
    end.

Definition ht_valid (t : RTHANDLETABLEINT) : bool :=
  VALID_PTR (ht_self t) && (ht_u32Magic t =? RTHANDLETABLE_MAGIC).

(** The results are the status, what [*ph] is left with, the table and the memory freed. *)
Definition RTHandleTableAllocWithCtx (envs : list AllocEnv) (t : RTHANDLETABLEINT) (pvObj pvCtx : Z)
    : option (Z * option Z * RTHANDLETABLEINT * list event) :=
  if negb (ht_valid t) then Some (VERR_INVALID_HANDLE, None, t, [])
  else if Z.land (ht_fFlags t) RTHANDLETABLE_FLAGS_CONTEXT =? 0
  then Some (VERR_INVALID_FUNCTION, None, t, [])
  else if RTHT_IS_FREE pvObj then Some (VERR_INVALID_PARAMETER, None, t, [])
  else
    match alloc_loop envs t pvObj pvCtx (u32 (ht_uBase t - 1)) with
    | Some (rc, h, t, ev) => Some (rc, Some h, t, ev)
    | None => None
    end.

(** * Lookup, release and destruction *)

Section callbacks.
(** The retain callback works on the state [S] of the table's owner; the destruction calls
    back with the handle, the object and the context. *)
Context {S : Type} (pfnRetain : ptr → ptr → S → Z * S) (pfnDelete : Z → ptr → ptr → S → S * list event).

Definition ht_retain (t : RTHANDLETABLEINT) (pvObj pvCtx : Z) (s : S) : ptr * S :=
  if ht_pfnRetain t then
    let '(rc, s) := pfnRetain pvObj pvCtx s in
    (if RT_FAILURE rc then NULL else pvObj, s)
  else (pvObj, s).

Definition RTHandleTableLookupWithCtx (t : RTHANDLETABLEINT) (h pvCtx : Z) (s : S) : ptr * S :=
  if negb (ht_valid t) then (NULL, s)
  else if Z.land (ht_fFlags t) RTHANDLETABLE_FLAGS_CONTEXT =? 0 then (NULL, s)
  else
    match rtHandleTableLookupWithCtx t h with
    | Some pEntry =>
        if te_pvCtx pEntry =? pvCtx then
          let pvObj := te_pvObj pEntry in
          if negb (RTHT_IS_FREE pvObj) then ht_retain t pvObj pvCtx s else (NULL, s)
        else (NULL, s)
    | None => (NULL, s)
    end.

(** "Link it into the free list." *)
Definition free_link (t : RTHANDLETABLEINT) (i : Z) : RTHANDLETABLEINT :=
  let t := ht_store i (λ _, mkEntry (RTHT_SET_FREE_IDX NIL_RTHT_INDEX) FREE_CTX) t in
  let cAllocated := u32 (ht_cCurAllocated t - 1) in
  if ht_iFreeTail t =? NIL_RTHT_INDEX then ht_set_free i i cAllocated t
  else ht_set_free (ht_iFreeHead t) i cAllocated (ht_store_next (ht_iFreeTail t) i t).

Definition RTHandleTableFreeWithCtx (t : RTHANDLETABLEINT) (h pvCtx : Z) (s : S)
    : ptr * RTHANDLETABLEINT * S :=
  if negb (ht_valid t) then (NULL, t, s)
  else if Z.land (ht_fFlags t) RTHANDLETABLE_FLAGS_CONTEXT =? 0 then (NULL, t, s)
  else
    match rtHandleTableLookupWithCtx t h with
    | Some pEntry =>
        if te_pvCtx pEntry =? pvCtx then
          let pvObj := te_pvObj pEntry in
          if negb (RTHT_IS_FREE pvObj) then
            let '(pvObj, s) := ht_retain t pvObj pvCtx s in
            if negb (pvObj =? NULL) then (pvObj, free_link t (u32 (h - ht_uBase t)), s)
            else (pvObj, t, s)
          else (NULL, t, s)
        else (NULL, t, s)
    | None => (NULL, t, s)
    end.

(** One second level table: every used entry is reported and counted. *)
Fixpoint destroy_table (h : Z) (paTable : list RTHTENTRYCTX) (cLeft : Z) (s : S)
    : Z * S * list event :=
  match paTable with
  | [] => (cLeft, s, [])
  | e :: paTable =>
      if negb (RTHT_IS_FREE (te_pvObj e)) then
        let '(s, ev) := pfnDelete (u32 h) (te_pvObj e) (te_pvCtx e) s in
        let '(cLeft, s, ev') := destroy_table (h + 1) paTable (u32 (cLeft - 1)) s in
        (cLeft, s, ev ++ ev')
      else destroy_table (h + 1) paTable cLeft s
  end.

(** The walk over the first level, while there are used entries left. *)
Fixpoint destroy_level1 (h : Z) (l : list (option (ptr * list RTHTENTRYCTX))) (cLeft : Z) (s : S)
    : S * list event :=
  match l with
  | [] => (s, [])
  | o :: l =>
      if 0 <? cLeft then
        let '(cLeft, s, ev) :=
          match o with
          | Some (_, paTable) => destroy_table h paTable cLeft s
          | None => (cLeft, s, [])
          end in
        let '(s, ev') := destroy_level1 (h + RTHT_LEVEL2_ENTRIES) l cLeft s in
        (s, ev ++ ev')
      else (s, [])
  end.

(** [None] for the NIL handle.  The structure is freed; what other threads still holding
    the address see is a dead magic. *)
Definition RTHandleTableDestroy (ot : option RTHANDLETABLEINT) (s : S) : Z * S * list event :=
  match ot with
  | None => (VINF_SUCCESS, s, [])
  | Some t =>
      if negb (ht_valid t) then (VERR_INVALID_HANDLE, s, [])
      else
        let ev1 := if negb (ht_hSpinlock t =? NIL_RTSPINLOCK) then [EvSpinlockDestroy (ht_hSpinlock t)] else [] in
        let '(s, ev2) := destroy_level1 (ht_uBase t) (take (Z.to_nat (ht_cLevel1 t)) (ht_level1 t))
                           (ht_cCurAllocated t) s in
        let ev3 := take (Z.to_nat (ht_cLevel1 t)) (ht_level1 t)
                     ≫= λ o, from_option (λ pt, ev_free pt.1) [] o in
        let ev4 := if RTHT_LEVEL1_DYN_ALLOC_THRESHOLD <=? ht_cMax t / RTHT_LEVEL2_ENTRIES
                   then ev_free (ht_papvLevel1 t) else [] in
        (VINF_SUCCESS, s, ev1 ++ ev2 ++ ev3 ++ ev4 ++ [EvMemFree (ht_self t)])
  end.
End callbacks.

(** * Specification *)

(** What a table is: a finite map from indices to pairs of object and context. *)
Definition ht_get (t : RTHANDLETABLEINT) (i : Z) : option (Z * Z) :=
  match rtHandleTableLookupWithCtxIdx t i with
  | Some e => if RTHT_IS_FREE (te_pvObj e) then None else Some (te_pvObj e, te_pvCtx e)
  | None => None
  end.

(** Each index of the list is followed by the next one in the table. *)
Fixpoint chained (t : RTHANDLETABLEINT) (l : list Z) : Prop :=
  match l with
  | a :: ((b :: _) as l') =>
      RTHT_GET_FREE_IDX (from_option te_pvObj 0 (rtHandleTableLookupWithCtxIdx t a)) = b ∧ chained t l'
  | _ => True
  end.

(** The second level tables in use are the first [n] ones. *)
Definition level1_ok (l : list (option (ptr * list RTHTENTRYCTX))) (n : nat) : Prop :=
  (n ≤ length l)%nat
  ∧ (∀ k, (k < n)%nat → ∃ p paTable, l !! k = Some (Some (p, paTable)) ∧ length paTable = 2048%nat)
  ∧ ∀ k, (n ≤ k)%nat → (k < length l)%nat → l !! k = Some None.

(** Well-formedness, with [fl] the free list from head to tail: the list holds exactly the
    free entries, each once, and the counters are what they say. *)
Record ht_inv (t : RTHANDLETABLEINT) (fl : list Z) : Prop := {
  hv_valid : ht_valid t = true;
  hv_ctx : Z.land (ht_fFlags t) RTHANDLETABLE_FLAGS_CONTEXT ≠ 0;
  hv_base : 0 ≤ ht_uBase t < 2 ^ 32;
  hv_max : 0 < ht_cMax t < 2 ^ 32 ∧ ht_cMax t mod 2048 = 0;
  hv_cur : 0 ≤ ht_cCur t ≤ ht_cMax t ∧ ht_cCur t mod 2048 = 0;
  hv_len : Z.of_nat (length (ht_level1 t)) = ht_cLevel1 t ∧ ht_cLevel1 t ≤ ht_cMax t / 2048;
  hv_level1 : level1_ok (ht_level1 t) (Z.to_nat (ht_cCur t / 2048));
  hv_head : ht_iFreeHead t = default NIL_RTHT_INDEX (head fl);
  hv_tail : ht_iFreeTail t = default NIL_RTHT_INDEX (last fl);
  hv_chain : chained t fl;
  hv_nodup : NoDup fl;
  hv_free : ∀ i, i ∈ fl ↔ 0 ≤ i < ht_cCur t ∧ ht_get t i = None;
  hv_alloc : ht_cCurAllocated t = ht_cCur t - Z.of_nat (length fl);
}.

Definition ht_ok (t : RTHANDLETABLEINT) : Prop := ∃ fl, ht_inv t fl.

(** What does not change in the life of a table. *)
Definition same_table (t t' : RTHANDLETABLEINT) : Prop :=
  ht_uBase t' = ht_uBase t ∧ ht_cMax t' = ht_cMax t ∧ ht_pfnRetain t' = ht_pfnRetain t
  ∧ ht_self t' = ht_self t ∧ ht_hSpinlock t' = ht_hSpinlock t.

(** Other threads leave a well-formed table well-formed. *)
Definition ht_stable (others : RTHANDLETABLEINT → RTHANDLETABLEINT) : Prop :=
  ∀ t, ht_ok t → ht_ok (others t) ∧ same_table t (others t).

Definition env_stable (env : AllocEnv) : Prop :=
  ht_stable (ae_others1 env) ∧ ht_stable (ae_others2 env) ∧ ht_stable (ae_others3 env).

(** An environment without other threads. *)
Definition env_alone (level1 table : option ptr) : AllocEnv := mkAllocEnv level1 table id id id.

(** * Entries *)

Section entries.
Implicit Types (t : RTHANDLETABLEINT) (i j : Z).
Abbreviation ent := rtHandleTableLookupWithCtxIdx.

Lemma ent_store t i j f :
  0 ≤ i → 0 ≤ j → ent (ht_store i f t) j = if j =? i then f <$> ent t j else ent t j.
Proof.
  intros Hi Hj. unfold rtHandleTableLookupWithCtxIdx, ht_store, RTHT_LEVEL2_ENTRIES. simpl.
  destruct (j <? ht_cCur t); [|by case_match].
  assert (Heq : (j =? i) = bool_decide (i / 2048 = j / 2048) && bool_decide (i mod 2048 = j mod 2048)).
  { destruct (Z.eqb_spec j i) as [->|Hne]; [by rewrite !bool_decide_eq_true_2|].
    symmetry. rewrite <- bool_decide_and. apply bool_decide_eq_false_2. intros [Hd Hm]. apply Hne.
    rewrite (Z.div_mod i 2048), (Z.div_mod j 2048) by lia. lia. }
  rewrite Heq. case_bool_decide as Hd; simpl.
  - rewrite Hd, list_lookup_alter_eq. destruct (ht_level1 t !! _) as [[[p tbl]|]|]; simpl; [|by case_match..].
    case_bool_decide as Hm.
    + by rewrite Hm, list_lookup_alter_eq.
    + apply list_lookup_alter_ne. intros H. apply Hm.
      apply Z2Nat.inj in H; [done|apply Z.mod_pos_bound; lia..].
  - rewrite list_lookup_alter_ne; [done|]. intros H. apply Hd.
    apply Z2Nat.inj in H; [done|apply Z.div_pos; lia..].
Qed.

Lemma ent_some t i n :
  level1_ok (ht_level1 t) n → ht_cCur t = 2048 * Z.of_nat n → 0 ≤ i < ht_cCur t → is_Some (ent t i).
Proof.
  intros (_&Hl&_) Hc Hi. unfold rtHandleTableLookupWithCtxIdx, RTHT_LEVEL2_ENTRIES.
  destruct (Z.ltb_spec i (ht_cCur t)); [|lia].
  assert (i / 2048 < Z.of_nat n) by (apply Z.div_lt_upper_bound; lia).
  assert (0 ≤ i / 2048) by (apply Z.div_pos; lia).
  destruct (Hl (Z.to_nat (i / 2048))) as (p&tbl&->&Hlen); [lia|].
  apply lookup_lt_is_Some. pose proof (Z.mod_pos_bound i 2048). lia.
Qed.

Lemma ent_out t i : ht_cCur t ≤ i → ent t i = None.
Proof. intros H. unfold rtHandleTableLookupWithCtxIdx. by destruct (Z.ltb_spec i (ht_cCur t)); [lia|]. Qed.

Lemma get_store t i j e :
  0 ≤ i → 0 ≤ j → is_Some (ent t i) →
  ht_get (ht_store i (λ _, e) t) j
  = if j =? i then (if RTHT_IS_FREE (te_pvObj e) then None else Some (te_pvObj e, te_pvCtx e))
    else ht_get t j.
Proof.
  intros Hi Hj [x Hx]. unfold ht_get. rewrite ent_store by done.
  destruct (Z.eqb_spec j i) as [->|]; [|done]. by rewrite Hx.
Qed.

Lemma set_free_idx_spec idx :
  0 ≤ idx < 2 ^ 32 →
  RTHT_IS_FREE (RTHT_SET_FREE_IDX idx) = true ∧ RTHT_GET_FREE_IDX (RTHT_SET_FREE_IDX idx) = idx.
Proof.
  intros H. unfold RTHT_SET_FREE_IDX, RTHT_GET_FREE_IDX, RTHT_IS_FREE. rewrite (u32_small idx) by done.
  split.
  - apply Z.eqb_eq. rewrite Z.land_lor_distr_l. change (Z.land 3 3) with 3.
    assert (Z.land (Z.shiftl idx 2) 3 = 0) as ->; [|done].
    change 3 with (Z.ones 2). rewrite Z.land_ones, Z.shiftl_mul_pow2 by lia. by apply Z.mod_mul.
  - rewrite Z.shiftr_lor, Z.shiftr_shiftl_l by lia. change (Z.shiftr 3 2) with 0.
    rewrite Z.lor_0_r, Z.sub_diag, Z.shiftl_0_r. by apply u32_small.
Qed.

(** The index stored does not matter for what the table holds, only for the chain. *)
Lemma get_store_next t i j idx :
  0 ≤ i → 0 ≤ j → 0 ≤ idx < 2 ^ 32 → ht_get t i = None → ht_get (ht_store_next i idx t) j = ht_get t j.
Proof.
  intros Hi Hj Hidx Hn. unfold ht_store_next, ht_get in *. rewrite ent_store by done.
  destruct (Z.eqb_spec j i) as [->|]; [|done]. destruct (ent t i) as [e|]; [|done]. simpl.
  destruct (RTHT_IS_FREE (te_pvObj e)); [|done]. by destruct (set_free_idx_spec idx Hidx) as [-> _].
Qed.

Lemma chained_cons t a l :
  chained t (a :: l) ↔
  match head l with
  | Some b => RTHT_GET_FREE_IDX (from_option te_pvObj 0 (ent t a)) = b
  | None => True
  end ∧ chained t l.
Proof. by destruct l. Qed.

Lemma chained_ext t t' l : (∀ a, a ∈ l → ent t' a = ent t a) → chained t l → chained t' l.
Proof.
  induction l as [|a l IH]; [done|]. rewrite !chained_cons. intros H [H1 H2]. split.
  - destruct (head l); [|done]. by rewrite H by left.
  - apply IH; [|done]. intros; apply H. by right.
Qed.

(** The last entry of a chain may change. *)
Lemma chained_ext_last t t' l a :
  (∀ x, x ∈ l → ent t' x = ent t x) → chained t (l ++ [a]) → chained t' (l ++ [a]).
Proof.
  induction l as [|x l IH]; simpl app; intros H; [done|]. rewrite !chained_cons. intros [H1 H2]. split.
  - destruct (head (l ++ [a])); [|done]. by rewrite H by left.
  - apply IH; [|done]. intros; apply H. by right.
Qed.

Lemma chained_tail t a l : chained t (a :: l) → chained t l.
Proof. rewrite chained_cons. tauto. Qed.

(** Two chains are joined by storing the head of the second in the last of the first. *)
Lemma chained_app t l1 a l2 :
  chained t (l1 ++ [a]) → chained t l2 →
  (∀ b, head l2 = Some b → RTHT_GET_FREE_IDX (from_option te_pvObj 0 (ent t a)) = b) →
  chained t (l1 ++ a :: l2).
Proof.
  induction l1 as [|x l1 IH]; simpl app; intros H1 H2 Hj.
  - apply chained_cons. split; [|done]. destruct (head l2); [by apply Hj|done].
  - rewrite chained_cons in H1 |- *. destruct H1 as [Hh H1]. split; [|by apply IH].
    by destruct l1.
Qed.
End entries.

(** * Taking and giving back an entry *)

Abbreviation ent := rtHandleTableLookupWithCtxIdx.

Lemma inv_cur_n t fl : ht_inv t fl → ht_cCur t = 2048 * Z.of_nat (Z.to_nat (ht_cCur t / 2048)).
Proof.
  intros Hinv. destruct (hv_cur _ _ Hinv) as [? ?]. rewrite Z2Nat.id by (apply Z.div_pos; lia).
  rewrite (Z.div_mod (ht_cCur t) 2048) at 1 by lia. lia.
Qed.

Lemma inv_ent t fl i : ht_inv t fl → 0 ≤ i < ht_cCur t → is_Some (ent t i).
Proof. intros Hinv Hi. eapply ent_some; [exact (hv_level1 _ _ Hinv)|by eapply inv_cur_n|done]. Qed.

Lemma inv_cur_max t fl : ht_inv t fl → 0 ≤ ht_cCur t ≤ NIL_RTHT_INDEX - 2047.
Proof.
  intros Hinv. destruct (hv_cur _ _ Hinv) as [? ?], (hv_max _ _ Hinv) as [? ?]. unfold NIL_RTHT_INDEX.
  pose proof (Z.div_mod (ht_cMax t) 2048). lia.
Qed.

Lemma inv_fl_range t fl i : ht_inv t fl → i ∈ fl → 0 ≤ i < ht_cCur t ∧ i < NIL_RTHT_INDEX.
Proof.
  intros Hinv Hi. pose proof (inv_cur_max _ _ Hinv). apply (hv_free _ _ Hinv) in Hi as [Hi _]. lia.
Qed.

Lemma inv_get_range t i p : ht_get t i = Some p → i < ht_cCur t.
Proof.
  intros Hg. destruct (Z.lt_ge_cases i (ht_cCur t)) as [|H]; [done|].
  unfold ht_get in Hg. by rewrite ent_out in Hg.
Qed.

Lemma inv_head_nil t fl : ht_inv t fl → ht_iFreeHead t = NIL_RTHT_INDEX ↔ fl = [].
Proof.
  intros Hinv. rewrite (hv_head _ _ Hinv). destruct fl as [|a l]; [done|]. simpl. split; [|done].
  intros ->. destruct (inv_fl_range _ _ NIL_RTHT_INDEX Hinv); [left|lia].
Qed.

Lemma inv_tail_nil t fl : ht_inv t fl → ht_iFreeTail t = NIL_RTHT_INDEX ↔ fl = [].
Proof.
  intros Hinv. rewrite (hv_tail _ _ Hinv). destruct (last fl) as [a|] eqn:E; simpl.
  - split; [|by intros ->]. intros ->. apply last_Some_elem_of in E.
    destruct (inv_fl_range _ _ _ Hinv E). lia.
  - by apply last_None in E as ->.
Qed.

Lemma inv_len t fl : ht_inv t fl → Z.of_nat (length fl) ≤ ht_cCur t.
Proof.
  intros Hinv. destruct (hv_cur _ _ Hinv) as [Hc _].
  assert (length fl ≤ length (seqZ 0 (ht_cCur t)))%nat as Hl; [|rewrite length_seqZ in Hl; lia].
  apply submseteq_length, NoDup_submseteq.
  - apply (hv_nodup _ _ Hinv).
  - intros i Hi. apply (hv_free _ _ Hinv) in Hi as [? _]. apply elem_of_seqZ. lia.
Qed.

(** Storing keeps the shape of the two levels. *)
Lemma level1_ok_store t i f n : level1_ok (ht_level1 t) n → level1_ok (ht_level1 (ht_store i f t)) n.
Proof.
  intros (Hle&Hl&Hr). unfold ht_store. simpl. set (g := λ o, _ <$> o). split_and!.
  - by rewrite length_alter.
  - intros k Hk. destruct (Hl k Hk) as (p&tbl&Hk1&Hlen).
    destruct (decide (k = Z.to_nat (i / RTHT_LEVEL2_ENTRIES))) as [->|Hne].
    + rewrite list_lookup_alter_eq, Hk1. unfold g. simpl.
      eexists _, _. split; [done|]. by rewrite length_alter.
    + rewrite list_lookup_alter_ne by done. eauto.
  - intros k Hk1 Hk2. rewrite length_alter in Hk2. specialize (Hr k Hk1 Hk2).
    destruct (decide (k = Z.to_nat (i / RTHT_LEVEL2_ENTRIES))) as [->|Hne].
    + by rewrite list_lookup_alter_eq, Hr.
    + by rewrite list_lookup_alter_ne.
Qed.

Lemma length_store t i f : length (ht_level1 (ht_store i f t)) = length (ht_level1 t).
Proof. unfold ht_store. simpl. apply length_alter. Qed.

Lemma get_None_ent t t' j : ent t' j = ent t j → ht_get t' j = ht_get t j.
Proof. unfold ht_get. by intros ->. Qed.

Lemma grab_spec t i fl pvObj pvCtx :
  ht_inv t (i :: fl) → RTHT_IS_FREE pvObj = false →
  let '(h, t') := alloc_grab t pvObj pvCtx in
  h = u32 (i + ht_uBase t) ∧ 0 ≤ i < ht_cCur t ∧ ht_inv t' fl ∧ same_table t t' ∧ ht_get t i = None
  ∧ (∀ j, 0 ≤ j → ht_get t' j = if j =? i then Some (pvObj, pvCtx) else ht_get t j).
Proof.
  intros Hinv Hobj. unfold alloc_grab. cbv zeta.
  assert (Hhead : ht_iFreeHead t = i) by (rewrite (hv_head _ _ Hinv); done).
  rewrite Hhead. set (t1 := if i =? _ then _ else _).
  destruct (inv_fl_range _ _ i Hinv) as [Hi HiN]; [by left|].
  destruct (proj1 (hv_free _ _ Hinv i)) as [_ Hgi]; [by left|].
  pose proof (hv_nodup _ _ Hinv) as [Hni Hnd]%NoDup_cons.
  assert (Halloc : u32 (ht_cCurAllocated t + 1) = ht_cCur t - Z.of_nat (length fl)).
  { pose proof (inv_cur_max _ _ Hinv). pose proof (inv_len _ _ Hinv) as Hlen. rewrite (hv_alloc _ _ Hinv).
    simpl length in *. unfold NIL_RTHT_INDEX in *. rewrite u32_small; lia. }
  assert (Ht1 : t1 = ht_set_free (default NIL_RTHT_INDEX (head fl)) (default NIL_RTHT_INDEX (last fl))
                      (u32 (ht_cCurAllocated t + 1)) t).
  { unfold t1. rewrite (hv_tail _ _ Hinv). destruct fl as [|b l].
    - simpl. by rewrite Z.eqb_refl.
    - pose proof (hv_chain _ _ Hinv) as [Hb _]%chained_cons. simpl in Hb.
      rewrite last_cons_cons. destruct (last (b :: l)) as [c|] eqn:Ec; [|by apply last_None in Ec].
      simpl. destruct (Z.eqb_spec i c) as [->|]; [|by rewrite Hb].
      apply last_Some_elem_of in Ec. by destruct Hni. }
  assert (Hent1 : ∀ j, ent t1 j = ent t j) by (intros j; by rewrite Ht1).
  assert (Hsome : is_Some (ent t1 i)) by (rewrite Hent1; by eapply inv_ent).
  assert (Hget : ∀ j, 0 ≤ j → ht_get (ht_store i (λ _, mkEntry pvObj pvCtx) t1) j
                        = if j =? i then Some (pvObj, pvCtx) else ht_get t j).
  { intros j Hj. rewrite get_store by (done || lia). simpl. rewrite Hobj.
    destruct (j =? i); [done|]. by apply get_None_ent. }
  assert (Hsame : same_table t (ht_store i (λ _, mkEntry pvObj pvCtx) t1)) by (rewrite Ht1; by repeat split).
  split; [by rewrite Ht1|]. split; [done|]. split; [|done].
  constructor; simpl; try (rewrite Ht1; simpl; first [apply Hinv | lia]).
  - rewrite length_alter. rewrite Ht1. simpl. apply Hinv.
  - apply (level1_ok_store t1 i). rewrite Ht1. apply Hinv.
  - eapply chained_ext; [|exact (chained_tail _ _ _ (hv_chain _ _ Hinv))]. intros a Ha.
    destruct (inv_fl_range _ _ a Hinv) as [? _]; [by right|].
    rewrite ent_store by lia. destruct (Z.eqb_spec a i) as [->|]; [by destruct Hni|apply Hent1].
  - done.
  - intros j. rewrite Ht1 at 1. simpl. split.
    + intros Hj. destruct (inv_fl_range _ _ j Hinv) as [? _]; [by right|]. split; [done|].
      rewrite Hget by lia. destruct (Z.eqb_spec j i) as [->|]; [by destruct Hni|].
      apply (hv_free _ _ Hinv). by right.
    + intros [Hj Hn]. rewrite Hget in Hn by lia. destruct (Z.eqb_spec j i) as [|Hne]; [done|].
      assert (j ∈ i :: fl) as [|?]%elem_of_cons by (by apply (hv_free _ _ Hinv)); done.
Qed.

Lemma freelink_spec t i p fl :
  ht_inv t fl → 0 ≤ i → ht_get t i = Some p →
  ht_inv (free_link t i) (fl ++ [i]) ∧ same_table t (free_link t i)
  ∧ (∀ j, 0 ≤ j → ht_get (free_link t i) j = if j =? i then None else ht_get t j).
Proof.
  intros Hinv Hi0 Hg. pose proof (inv_get_range _ _ _ Hg) as Hi1.
  pose proof (inv_cur_max _ _ Hinv) as Hmax. pose proof (inv_len _ _ Hinv) as Hlen.
  assert (Hni : i ∉ fl) by (intros H; apply (hv_free _ _ Hinv) in H as [_ H]; congruence).
  pose proof (inv_ent _ _ i Hinv (conj Hi0 Hi1)) as Hsome.
  unfold free_link. cbv zeta. set (e0 := mkEntry _ _). set (t1 := ht_store i _ t).
  assert (Hi32 : 0 ≤ i < 2 ^ 32) by (unfold NIL_RTHT_INDEX in *; lia).
  assert (Hfree0 : RTHT_IS_FREE (te_pvObj e0) = true) by reflexivity.
  assert (Hget1 : ∀ j, 0 ≤ j → ht_get t1 j = if j =? i then None else ht_get t j).
  { intros j Hj. unfold t1. rewrite get_store by done. by rewrite Hfree0. }
  set (t2 := if ht_iFreeTail t1 =? _ then _ else _).
  assert (Hcases : (fl = [] ∧ t2 = ht_set_free i i (u32 (ht_cCurAllocated t - 1)) t1)
                   ∨ ∃ a, last fl = Some a ∧
                       t2 = ht_set_free (ht_iFreeHead t) i (u32 (ht_cCurAllocated t - 1)) (ht_store_next a i t1)).
  { unfold t2. change (ht_iFreeTail t1) with (ht_iFreeTail t). destruct (Z.eqb_spec (ht_iFreeTail t) NIL_RTHT_INDEX) as [E|E].
    - left. split; [by apply (inv_tail_nil _ _ Hinv)|done].
    - right. rewrite (inv_tail_nil _ _ Hinv) in E. rewrite (hv_tail _ _ Hinv).
      destruct (last fl) as [a|] eqn:Ea; [by exists a|by apply last_None in Ea]. }
  assert (Hget : ∀ j, 0 ≤ j → ht_get t2 j = if j =? i then None else ht_get t j).
  { intros j Hj. rewrite <- Hget1 by done. destruct Hcases as [[_ ->]|(a&Ha&->)]; [done|].
    apply last_Some_elem_of in Ha. apply (hv_free _ _ Hinv) in Ha as [Ha1 Ha2]. apply get_store_next; try done; [lia|].
    rewrite Hget1 by lia. by destruct (a =? i). }
  split; [|split; [destruct Hcases as [[_ ->]|(a&_&->)]; by repeat split|exact Hget]].
  assert (Hcur : ht_cCur t2 = ht_cCur t) by (by destruct Hcases as [[_ ->]|(a&_&->)]).
  assert (Halloc : u32 (ht_cCurAllocated t - 1) = ht_cCur t - Z.of_nat (length (fl ++ [i]))).
  { rewrite length_app, Nat2Z.inj_add. simpl. rewrite (hv_alloc _ _ Hinv).
    (* the entry was used, so the free list does not hold everything *)
    assert (Z.of_nat (length fl) + 1 ≤ ht_cCur t); [|unfold NIL_RTHT_INDEX in *; rewrite u32_small; lia].
    assert (length (i :: fl) ≤ length (seqZ 0 (ht_cCur t)))%nat as Hl; [|rewrite length_seqZ in Hl; simpl in Hl; lia].
    apply submseteq_length, NoDup_submseteq; [constructor; [done|apply (hv_nodup _ _ Hinv)]|].
    intros x [->|Hx]%elem_of_cons; apply elem_of_seqZ; [lia|].
    apply (hv_free _ _ Hinv) in Hx as [? _]. lia. }
  assert (Hchain : chained t2 (fl ++ [i])).
  { destruct Hcases as [[-> ->]|(a&Ha&->)]; [done|].
    apply last_Some in Ha as [l ->]. rewrite <- app_assoc. simpl app.
    pose proof (inv_fl_range _ _ a Hinv) as Har. destruct Har as [Har _]; [set_solver|].
    assert (Hai : a ≠ i) by set_solver.
    pose proof (hv_nodup _ _ Hinv) as (_&Hal&_)%NoDup_app.
    apply chained_app; [|done|].
    - eapply (chained_ext_last t); [|exact (hv_chain _ _ Hinv)]. intros b Hb.
      destruct (inv_fl_range _ _ b Hinv) as [Hbr _]; [set_solver|].
      change (ent (ht_store_next a i t1) b = ent t b). unfold ht_store_next, t1.
      rewrite !ent_store by lia.
      destruct (Z.eqb_spec b a) as [->|]; [by destruct (Hal a Hb); left|].
      destruct (Z.eqb_spec b i) as [->|]; [|done]. by destruct Hni; apply elem_of_app; left.
    - intros b [= <-]. change (RTHT_GET_FREE_IDX (from_option te_pvObj 0 (ent (ht_store_next a i t1) a)) = i).
      unfold ht_store_next. rewrite ent_store, Z.eqb_refl by lia.
      destruct (inv_ent _ _ a Hinv) as [e He]; [lia|].
      unfold t1. rewrite ent_store by lia. destruct (Z.eqb_spec a i); [done|]. rewrite He. simpl.
      by apply set_free_idx_spec. }
  constructor; try (destruct Hcases as [[_ ->]|(a&_&->)]; apply Hinv).
  - destruct Hcases as [[_ ->]|(a&_&->)]; simpl; rewrite ?length_alter; apply Hinv.
  - rewrite Hcur. destruct Hcases as [[_ ->]|(a&_&->)].
    + apply (level1_ok_store t i), Hinv.
    + apply (level1_ok_store t1 a), (level1_ok_store t i), Hinv.
  - destruct Hcases as [[-> ->]|(a&Ha&->)]; [done|]. simpl. rewrite (hv_head _ _ Hinv).
    by destruct fl.
  - rewrite last_snoc. by destruct Hcases as [[-> ->]|(a&Ha&->)].
  - exact Hchain.
  - apply NoDup_app. split; [apply (hv_nodup _ _ Hinv)|]. split; [|apply NoDup_singleton].
    intros x Hx ->%list_elem_of_singleton. done.
  - intros j. rewrite Hcur, elem_of_app, list_elem_of_singleton. split.
    + intros Hj. assert (0 ≤ j < ht_cCur t) as Hjr.
      { destruct Hj as [Hj| ->]; [|done]. by apply (hv_free _ _ Hinv) in Hj as [? _]. }
      split; [done|]. rewrite Hget by lia. destruct (Z.eqb_spec j i) as [|Hne]; [done|].
      destruct Hj as [Hj|]; [|done]. by apply (hv_free _ _ Hinv) in Hj as [_ ?].
    + intros [Hjr Hn]. rewrite Hget in Hn by lia. destruct (Z.eqb_spec j i) as [|Hne]; [by right|].
      left. by apply (hv_free _ _ Hinv).
  - rewrite Hcur, <- Halloc. by destruct Hcases as [[_ ->]|(a&_&->)].
Qed.

(** * Expansion *)

Lemma fresh_lookup c r :
  0 ≤ r < 2048 →
  fresh_table c !! Z.to_nat r
  = Some (mkEntry (RTHT_SET_FREE_IDX (if r =? 2047 then NIL_RTHT_INDEX else u32 (r + 1 + c))) FREE_CTX).
Proof.
  intros Hr. unfold fresh_table, RTHT_LEVEL2_ENTRIES. destruct (Z.eqb_spec r 2047) as [->|Hne].
  - rewrite lookup_app_r by (rewrite length_fmap, length_seqZ; lia).
    rewrite length_fmap, length_seqZ. reflexivity.
  - rewrite lookup_app_l by (rewrite length_fmap, length_seqZ; lia).
    rewrite list_lookup_fmap, lookup_seqZ_lt by lia. simpl. rewrite Z2Nat.id by lia. done.
Qed.

Lemma length_fresh c : length (fresh_table c) = 2048%nat.
Proof. unfold fresh_table. rewrite length_app, length_fmap, length_seqZ. reflexivity. Qed.

(** The entry [a] that the new chain is linked behind, if there is one. *)
Definition linked_behind (fl : list Z) (c : Z) (t : RTHANDLETABLEINT) : RTHANDLETABLEINT :=
  match last fl with
  | Some a => ht_store_next a c t
  | None => t
  end.

Section insert.
Context (t : RTHANDLETABLEINT) (fl : list Z) (paTable : ptr).
Context (Hinv : ht_inv t fl).
Context (Hl1 : ht_cCur t / RTHT_LEVEL2_ENTRIES < ht_cLevel1 t) (Hfull : ht_cCur t < ht_cMax t).
Abbreviation c := (ht_cCur t).
Abbreviation n := (Z.to_nat (ht_cCur t / 2048)).

Lemma insert_room : 0 ≤ c ∧ c + 2048 ≤ NIL_RTHT_INDEX - 2047 ∧ c + 2048 ≤ ht_cMax t ∧ c = 2048 * Z.of_nat n.
Proof using Hinv Hfull.
  destruct (hv_cur _ _ Hinv) as [Hc1 Hc2], (hv_max _ _ Hinv) as [Hm1 Hm2].
  pose proof (inv_cur_n _ _ Hinv) as Hn. pose proof (Z.div_mod (ht_cMax t) 2048 ltac:(done)).
  pose proof (Z.div_mod c 2048 ltac:(done)). unfold NIL_RTHT_INDEX, RTHT_LEVEL2_ENTRIES in *.
  split_and!; try lia. 
Qed.

(** The expanded table, its members one by one. *)
Lemma insert_unfold :
  let t' := alloc_insert t paTable in
  ht_cCur t' = c + 2048 ∧ ht_iFreeTail t' = c + 2047
  ∧ ht_iFreeHead t' = default c (head fl)
  ∧ ht_level1 t' = <[n := Some (paTable, fresh_table c)]> (ht_level1 (linked_behind fl c t))
  ∧ ht_cCurAllocated t' = ht_cCurAllocated t ∧ ht_cLevel1 t' = ht_cLevel1 t
  ∧ same_table t t' ∧ ht_u32Magic t' = ht_u32Magic t ∧ ht_fFlags t' = ht_fFlags t.
Proof using Hinv Hfull.
  destruct insert_room as (H0&H1&H2&Hn). unfold NIL_RTHT_INDEX in H1.
  unfold alloc_insert, linked_behind. cbv zeta. change (ht_iFreeTail (ht_set_level1 _ _ _ t)) with (ht_iFreeTail t).
  assert (Hc1 : u32 (c + 2048) = c + 2048) by (apply u32_small; lia).
  assert (Hc2 : u32 (c + 2048 - 1) = c + 2047) by (rewrite u32_small; lia).
  pose proof (hv_head _ _ Hinv) as Hh. pose proof (hv_tail _ _ Hinv) as Ht.
  destruct (Z.eqb_spec (ht_iFreeTail t) NIL_RTHT_INDEX) as [E|E].
  - apply (inv_tail_nil _ _ Hinv) in E as ->. simpl. unfold RTHT_LEVEL2_ENTRIES. rewrite Hc1, Hc2.
    by repeat split.
  - rewrite (inv_tail_nil _ _ Hinv) in E. destruct (last fl) as [a|] eqn:Ea; [|by apply last_None in Ea].
    simpl in Ht. rewrite Ht. unfold RTHT_LEVEL2_ENTRIES in *. rewrite Hc1, Hc2.
    destruct (inv_fl_range _ _ a Hinv) as [Ha _]; [by apply last_Some_elem_of|].
    repeat split; try done.
    + simpl. rewrite Hh. by destruct fl.
    + simpl. unfold RTHT_LEVEL2_ENTRIES. rewrite !list_insert_alter. apply list_alter_alter_ne. intros H.
      apply Z2Nat.inj in H; [|apply Z.div_pos; lia..].
      assert (a / 2048 < c / 2048); [apply Z.div_lt_upper_bound; lia|]. lia.
Qed.

Lemma insert_ent_old j :
  0 ≤ j < c → ent (alloc_insert t paTable) j = ent (linked_behind fl c t) j.
Proof using Hinv Hfull.
  intros Hj. destruct insert_unfold as (Hcur&_&_&Hlv&_). destruct insert_room as (_&_&_&Hn).
  assert (Hcur0 : ht_cCur (linked_behind fl c t) = c) by (unfold linked_behind; by destruct (last fl)).
  unfold rtHandleTableLookupWithCtxIdx, RTHT_LEVEL2_ENTRIES. rewrite Hcur, Hcur0, Hlv.
  destruct (Z.ltb_spec j (c + 2048)); [|lia]. destruct (Z.ltb_spec j c); [|lia].
  rewrite list_lookup_insert_ne; [done|]. unfold RTHT_LEVEL2_ENTRIES. intros H1.
  assert (j / 2048 < Z.of_nat n); [apply Z.div_lt_upper_bound; unfold RTHT_LEVEL2_ENTRIES in *; lia|].
  apply Z2Nat.inj in H1; [unfold RTHT_LEVEL2_ENTRIES in *; lia|apply Z.div_pos; lia..].
Qed.

Lemma insert_ent_new j :
  c ≤ j < c + 2048 →
  ent (alloc_insert t paTable) j
  = Some (mkEntry (RTHT_SET_FREE_IDX (if j =? c + 2047 then NIL_RTHT_INDEX else u32 (j + 1))) FREE_CTX).
Proof using Hinv Hl1 Hfull.
  intros Hj. destruct insert_unfold as (Hcur&_&_&Hlv&_). destruct insert_room as (H0&_&_&Hn).
  unfold RTHT_LEVEL2_ENTRIES in *.
  unfold rtHandleTableLookupWithCtxIdx, RTHT_LEVEL2_ENTRIES. rewrite Hcur, Hlv.
  destruct (Z.ltb_spec j (c + 2048)); [|lia].
  assert (Hdiv : j = 2048 * (c / 2048) + (j - c)).
  { rewrite Z2Nat.id in Hn by (apply Z.div_pos; lia). lia. }
  assert (Hq : j / 2048 = c / 2048) by (symmetry; apply (Z.div_unique_pos _ _ _ (j - c)); lia).
  assert (Hr : j mod 2048 = j - c) by (symmetry; apply (Z.mod_unique_pos _ _ (c / 2048)); lia).
  rewrite Hq, Hr, list_lookup_insert_eq.
  - rewrite fresh_lookup by lia. repeat f_equal. destruct (Z.eqb_spec (j - c) 2047), (Z.eqb_spec j (c + 2047)); try lia.
    f_equal. lia.
  - assert (length (ht_level1 (linked_behind fl c t)) = length (ht_level1 t)) as ->.
    { unfold linked_behind. destruct (last fl); [apply length_store|done]. }
    destruct (hv_len _ _ Hinv). lia.
Qed.

Lemma linked_get j : 0 ≤ j → ht_get (linked_behind fl c t) j = ht_get t j.
Proof using Hinv Hfull.
  intros Hj. destruct insert_room as (H0&H1&_). unfold linked_behind, NIL_RTHT_INDEX in *.
  destruct (last fl) as [a|] eqn:Ea; [|done]. apply last_Some_elem_of, (hv_free _ _ Hinv) in Ea as [? ?].
  apply get_store_next; (done || lia).
Qed.

Lemma insert_get j : 0 ≤ j → ht_get (alloc_insert t paTable) j = ht_get t j.
Proof using Hinv Hl1 Hfull.
  intros Hj. destruct insert_room as (H0&H1&_). unfold NIL_RTHT_INDEX in *.
  destruct (Z.lt_ge_cases j c) as [Hjc|Hjc].
  - rewrite <- linked_get by done. by apply get_None_ent, insert_ent_old.
  - assert (ht_get t j = None) as -> by (unfold ht_get; by rewrite ent_out).
    destruct (Z.lt_ge_cases j (c + 2048)) as [Hj2|Hj2].
    + unfold ht_get. rewrite insert_ent_new by done. simpl.
      destruct (set_free_idx_spec (if j =? c + 2047 then NIL_RTHT_INDEX else u32 (j + 1))) as [-> _]; [|done].
      destruct (_ =? _); [done|apply u32_range].
    + destruct insert_unfold as (Hcur&_). unfold ht_get. rewrite ent_out; [done|lia].
Qed.

(** The new entries are chained one after the other. *)
Lemma insert_chain_new k m :
  c ≤ k → 0 ≤ m → k + m ≤ c + 2048 → chained (alloc_insert t paTable) (seqZ k m).
Proof using Hinv Hl1 Hfull.
  intros Hk Hm. revert k Hk. pattern m. apply natlike_ind; [done| |done].
  intros x Hx IH k Hk Hkm. rewrite seqZ_cons by lia. apply chained_cons.
  replace (Z.pred (Z.succ x)) with x by lia. replace (Z.succ k) with (k + 1) by lia.
  split; [|apply IH; lia].
  destruct (decide (x = 0)) as [->|Hx0]; [done|]. rewrite seqZ_cons by lia. simpl.
  destruct insert_room as (H0&H1&_). unfold NIL_RTHT_INDEX in *.
  rewrite insert_ent_new by lia. destruct (Z.eqb_spec k (c + 2047)); [lia|]. simpl.
  rewrite (u32_small (k + 1)) by lia. apply set_free_idx_spec. lia.
Qed.
End insert.

Lemma level1_ok_insert l n p paTable :
  level1_ok l n → (n < length l)%nat → length paTable = 2048%nat →
  level1_ok (<[n := Some (p, paTable)]> l) (S n).
Proof.
  intros (_&Hl&Hr) Hn Hlen. split_and!.
  - rewrite length_insert. lia.
  - intros k Hk. destruct (decide (k = n)) as [->|Hne].
    + rewrite list_lookup_insert_eq by done. by exists p, paTable.
    + rewrite list_lookup_insert_ne by done. apply Hl. lia.
  - intros k Hk1 Hk2. rewrite length_insert in Hk2. rewrite list_lookup_insert_ne by lia. apply Hr; lia.
Qed.

Lemma insert_chain t fl paTable :
  ht_inv t fl → ht_cCur t / RTHT_LEVEL2_ENTRIES < ht_cLevel1 t → ht_cCur t < ht_cMax t →
  chained (alloc_insert t paTable) (fl ++ seqZ (ht_cCur t) 2048).
Proof.
  intros Hinv Hl1 Hfull. destruct (insert_room t fl Hinv Hfull) as (H0&H1&_). unfold NIL_RTHT_INDEX in H1.
  pose proof (insert_chain_new t fl paTable Hinv Hl1 Hfull (ht_cCur t) 2048) as Hnew.
  destruct (last fl) as [a|] eqn:Ea; [|apply last_None in Ea as ->; apply Hnew; lia].
  assert (Hlk : linked_behind fl (ht_cCur t) t = ht_store_next a (ht_cCur t) t) by (unfold linked_behind; by rewrite Ea).
  apply last_Some in Ea as [l ->]. pose proof (hv_nodup _ _ Hinv) as (_&Hal&_)%NoDup_app.
  assert (Hent : ∀ x, x ∈ l ++ [a] → 0 ≤ x < ht_cCur t
            ∧ ent (alloc_insert t paTable) x = ent (ht_store_next a (ht_cCur t) t) x).
  { intros x Hx. destruct (inv_fl_range _ _ x Hinv Hx) as [Hxr _]. split; [done|].
    rewrite <- Hlk. by apply (insert_ent_old _ (l ++ [a])). }
  destruct (Hent a) as [Har Hea]; [apply elem_of_app; right; left|].
  rewrite <- app_assoc. simpl app. apply chained_app; [|apply Hnew; lia|].
  - eapply (chained_ext_last t); [|apply Hinv]. intros x Hx. destruct (Hent x) as [Hxr ->]; [by apply elem_of_app; left|].
    unfold ht_store_next. rewrite ent_store by lia.
    destruct (Z.eqb_spec x a) as [->|]; [|done]. by destruct (Hal a Hx); left.
  - intros b Hb. rewrite Hea. unfold ht_store_next. rewrite ent_store, Z.eqb_refl by lia.
    destruct (inv_ent _ _ a Hinv Har) as [e ->]. simpl. rewrite seqZ_cons in Hb by lia. injection Hb as <-.
    apply set_free_idx_spec. lia.
Qed.

Lemma insert_spec t fl paTable :
  ht_inv t fl → ht_cCur t / RTHT_LEVEL2_ENTRIES < ht_cLevel1 t → ht_cCur t < ht_cMax t →
  let t' := alloc_insert t paTable in
  ht_inv t' (fl ++ seqZ (ht_cCur t) 2048) ∧ same_table t t' ∧ (∀ j, 0 ≤ j → ht_get t' j = ht_get t j).
Proof.
  intros Hinv Hl1 Hfull. cbv zeta. split; [|split; [by apply insert_unfold with fl|by eapply insert_get]].
  pose proof (insert_unfold t fl paTable Hinv Hfull) as (Hcur&Htail&Hhead&Hlv&Hal&Hcl&(Hb&Hm&_&Hs&_)&Hmg&Hfl).
  destruct (insert_room t fl Hinv Hfull) as (H0&H1&H2&Hn). unfold NIL_RTHT_INDEX in H1.
  assert (Hlen : length (ht_level1 (linked_behind fl (ht_cCur t) t)) = length (ht_level1 t)).
  { unfold linked_behind. destruct (last fl); [apply length_store|done]. }
  assert (Hlast : last (fl ++ seqZ (ht_cCur t) 2048) = Some (ht_cCur t + 2047)).
  { change 2048 with (2047 + 1). rewrite seqZ_app, app_assoc by lia.
    rewrite (seqZ_cons (ht_cCur t + 2047)), (seqZ_nil _ (Z.pred 1)) by done. apply last_snoc. }
  constructor; rewrite ?Hcur, ?Hb, ?Hm, ?Hcl, ?Hal, ?Hfl; try apply Hinv.
  - unfold ht_valid. rewrite Hs, Hmg. apply Hinv.
  - destruct (hv_cur _ _ Hinv) as [_ Hc]. split; [lia|]. by rewrite Z.add_mod, Hc by done.
  - rewrite Hlv, length_insert, Hlen. apply Hinv.
  - replace (Z.to_nat ((ht_cCur t + 2048) / 2048)) with (S (Z.to_nat (ht_cCur t / 2048))).
    2:{ change (ht_cCur t + 2048) with (ht_cCur t + 1 * 2048). rewrite Z.div_add by done.
        pose proof (Z.div_pos (ht_cCur t) 2048). lia. }
    rewrite Hlv. unfold RTHT_LEVEL2_ENTRIES in Hl1. destruct (hv_len _ _ Hinv) as [Hlc _].
    pose proof (Z.div_pos (ht_cCur t) 2048 H0 ltac:(done)).
    apply level1_ok_insert; [|rewrite Hlen; lia|apply length_fresh].
    unfold linked_behind. destruct (last fl); [apply level1_ok_store|]; apply Hinv.
  - rewrite Hhead. destruct fl; [|done]. rewrite app_nil_l, seqZ_cons by lia. done.
  - by rewrite Htail, Hlast.
  - by apply insert_chain.
  - apply NoDup_app. split; [apply (hv_nodup _ _ Hinv)|]. split; [|apply NoDup_seqZ].
    intros x Hx Hx2%elem_of_seqZ. apply (hv_free _ _ Hinv) in Hx as [? _]. lia.
  - intros i. rewrite elem_of_app, elem_of_seqZ, (hv_free _ _ Hinv).
    split.
    + intros [[Hi Hg]|Hi]; (split; [lia|]); rewrite (insert_get _ _ _ Hinv) by lia; [done|].
      unfold ht_get. by rewrite ent_out by lia.
    + intros [Hi Hg]. rewrite (insert_get _ _ _ Hinv) in Hg by lia.
      destruct (Z.lt_ge_cases i (ht_cCur t)); [left|right]; split; (done || lia).
  - rewrite length_app, length_seqZ, (hv_alloc _ _ Hinv). lia.
Qed.

Lemma same_table_refl t : same_table t t.
Proof. by repeat split. Qed.

Lemma same_table_trans t1 t2 t3 : same_table t1 t2 → same_table t2 t3 → same_table t1 t3.
Proof. intros (?&?&?&?&?) (?&?&?&?&?). repeat split; congruence. Qed.

Lemma replace_spec t fl cLevel1 pv :
  ht_inv t fl → cLevel1 ≤ ht_cMax t / 2048 →
  let t' := (level1_replace t cLevel1 pv).1 in
  ht_inv t' fl ∧ same_table t t' ∧ (∀ j, 0 ≤ j → ent t' j = ent t j)
  ∧ ht_cCur t' = ht_cCur t ∧ ht_cLevel1 t' = Z.max (ht_cLevel1 t) cLevel1.
Proof.
  intros Hinv Hc. unfold level1_replace. destruct (Z.ltb_spec (ht_cLevel1 t) cLevel1) as [Hlt|Hge]; cbn [fst].
  2:{ split_and!; try done. lia. }
  destruct (hv_len _ _ Hinv) as [Hlen Hlm]. destruct (hv_level1 _ _ Hinv) as (Hn&Hl&Hr).
  rewrite (take_ge (ht_level1 t)) by lia. set (t' := ht_set_level1 _ _ _ _).
  assert (Hok : level1_ok (ht_level1 t') (Z.to_nat (ht_cCur t / 2048))).
  { unfold t'. simpl. split_and!.
    - rewrite length_app. lia.
    - intros k Hk. rewrite lookup_app_l by lia. by apply Hl.
    - intros k Hk1 Hk2. rewrite length_app, length_replicate in Hk2.
      destruct (decide (k < length (ht_level1 t))%nat).
      + rewrite lookup_app_l by done. by apply Hr.
      + rewrite lookup_app_r by lia. apply lookup_replicate_2. lia. }
  assert (Hent : ∀ j, 0 ≤ j → ent t' j = ent t j).
  { intros j Hj0. destruct (Z.lt_ge_cases j (ht_cCur t)) as [Hj|Hj]; [|by rewrite !ent_out].
    unfold rtHandleTableLookupWithCtxIdx, RTHT_LEVEL2_ENTRIES. change (ht_cCur t') with (ht_cCur t).
    destruct (Z.ltb_spec j (ht_cCur t)); [|lia]. unfold t'. simpl. rewrite lookup_app_l; [done|].
    pose proof (Z.div_pos j 2048 Hj0 ltac:(done)).
    assert (j / 2048 < Z.of_nat (Z.to_nat (ht_cCur t / 2048))); [|lia].
    apply Z.div_lt_upper_bound; [lia|]. pose proof (inv_cur_n _ _ Hinv). lia. }
  split_and!; try done; [|simpl; lia].
  constructor; try apply Hinv; [|done| |].
  - unfold t'. simpl. rewrite length_app, length_replicate. lia.
  - eapply chained_ext; [|apply Hinv]. intros a Ha. apply Hent.
    destruct (inv_fl_range _ _ a Hinv Ha). lia.
  - intros i. rewrite (hv_free _ _ Hinv). split; intros [Hi Hg]; (split; [exact Hi|]).
    + rewrite <- Hg. apply get_None_ent, Hent. lia.
    + rewrite <- Hg. symmetry. apply get_None_ent, Hent. lia.
Qed.

(** How many first level entries the code asks for. *)
Lemma level1_wanted_spec t fl :
  ht_inv t fl → level1_wanted t ≤ ht_cMax t / 2048
  ∧ (ht_cCur t < ht_cMax t → ht_cCur t / 2048 < Z.max (ht_cLevel1 t) (level1_wanted t)).
Proof.
  intros Hinv. destruct (hv_len _ _ Hinv) as [Hlen Hlm]. destruct (hv_max _ _ Hinv) as [Hm1 Hm2].
  destruct (hv_cur _ _ Hinv) as [Hc1 Hc2]. destruct (hv_level1 _ _ Hinv) as (Hn&_).
  assert (Hq : 0 ≤ ht_cCur t / 2048) by (apply Z.div_pos; lia).
  assert (Hmq : ht_cMax t / 2048 < 2 ^ 21) by (apply Z.div_lt_upper_bound; lia).
  unfold level1_wanted. change (PAGE_SIZE / 8) with 512. unfold RTHT_LEVEL2_ENTRIES.
  pose proof (Z.div_mod (ht_cMax t) 2048 ltac:(done)). pose proof (Z.div_mod (ht_cCur t) 2048 ltac:(done)).
  destruct (Z.leb_spec (ht_cLevel1 t) (ht_cCur t / 2048)) as [Hle|Hle].
  - rewrite u32_small by lia. destruct (Z.ltb_spec (ht_cMax t / 2048) (ht_cLevel1 t + 512)); lia.
  - destruct (Z.ltb_spec (ht_cMax t / 2048) 0); lia.
Qed.

(** Expansion, whatever the other threads do: the table stays well-formed. *)
Lemma expand_ok t env :
  ht_ok t → env_stable env →
  let '(_, t', _) := alloc_expand t env in ht_ok t' ∧ same_table t t'.
Proof.
  intros [fl Hinv] (Ho1&Ho2&Ho3). unfold alloc_expand. cbv zeta.
  destruct (level1_wanted_spec t fl Hinv) as [Hw _].
  destruct (Ho1 t (ex_intro _ fl Hinv)) as [[fl1 Hinv1] Hs1].
  destruct (if negb (level1_wanted t =? 0) then _ else _) as [pv|]; [|by split; [exists fl1|]].
  destruct (ae_table env) as [tb|]; [|by split; [exists fl1|]].
  assert (Hnext : let '(t2, ev) := (if negb (level1_wanted t =? 0)
                   then let '(t, papvOld) := level1_replace (ae_others1 env t) (level1_wanted t) pv in
                        (ae_others2 env t, ev_free papvOld)
                   else (ae_others1 env t, [])) in ht_ok t2 ∧ same_table t t2).
  { destruct (negb _); [|by split; [exists fl1|]].
    destruct (replace_spec (ae_others1 env t) fl1 (level1_wanted t) pv Hinv1) as (Hinv2&Hs2&_).
    { destruct Hs1 as (_&->&_). done. }
    destruct (level1_replace _ _ _) as [t2 old]. simpl in *.
    destruct (Ho2 t2 (ex_intro _ fl1 Hinv2)) as [Hok3 Hs3]. split; [done|].
    eauto using same_table_trans. }
  destruct (if negb (level1_wanted t =? 0) then _ else _) as [t2 ev]. destruct Hnext as [[fl2 Hinv2] Hs2].
  destruct (_ && _) eqn:E; zbool.
  - destruct (insert_spec t2 fl2 tb Hinv2) as (Hinv3&Hs3&_); [done..|].
    split; [by eexists|by eapply same_table_trans].
  - destruct (Ho3 t2 (ex_intro _ fl2 Hinv2)) as [Hok3 Hs3]. split; [done|by eapply same_table_trans].
Qed.

(** What a successful allocation did, at the moment it was made. *)
Definition inserted (t t' : RTHANDLETABLEINT) (h pvObj pvCtx : Z) : Prop :=
  ∃ i, 0 ≤ i < ht_cMax t ∧ h = u32 (i + ht_uBase t) ∧ ht_get t i = None
    ∧ ∀ j, 0 ≤ j → ht_get t' j = if j =? i then Some (pvObj, pvCtx) else ht_get t j.

Lemma grab_inserted t fl pvObj pvCtx :
  ht_inv t fl → ht_iFreeHead t ≠ NIL_RTHT_INDEX → RTHT_IS_FREE pvObj = false →
  let '(h, t') := alloc_grab t pvObj pvCtx in
  ht_ok t' ∧ same_table t t' ∧ inserted t t' h pvObj pvCtx.
Proof.
  intros Hinv Hne Hobj. destruct fl as [|i fl]; [by rewrite (inv_head_nil _ _ Hinv) in Hne|].
  pose proof (grab_spec t i fl pvObj pvCtx Hinv Hobj) as H.
  destruct (alloc_grab t pvObj pvCtx) as [h t']. destruct H as (Hh&Hi&Hinv'&Hs&Hg&Hget).
  destruct (hv_cur _ _ Hinv) as [Hc _]. split; [by exists fl|]. split; [done|]. exists i. split; [lia|done].
Qed.

Lemma alloc_loop_ok envs : ∀ t pvObj pvCtx ph rc h t' ev,
  ht_ok t → Forall env_stable envs → RTHT_IS_FREE pvObj = false →
  alloc_loop envs t pvObj pvCtx ph = Some (rc, h, t', ev) →
  ht_ok t' ∧ same_table t t'
  ∧ (if rc =? VINF_SUCCESS
     then ∃ tc, ht_ok tc ∧ same_table t tc ∧ inserted tc t' h pvObj pvCtx
     else h = ph).
Proof.
  induction envs as [|env envs IH]; intros t pvObj pvCtx ph rc h t' ev [fl Hinv] Henvs Hobj H; cbn [alloc_loop] in H.
  all: destruct (Z.eqb_spec (ht_iFreeHead t) NIL_RTHT_INDEX) as [E|E]; cbn [negb] in H.
  2,4: pose proof (grab_inserted t fl pvObj pvCtx Hinv E Hobj) as Hg;
    destruct (alloc_grab t pvObj pvCtx) as [h0 t0]; injection H as <- <- <- <-;
    destruct Hg as (?&?&?); split_and!; [done..|exists t; split_and!; [by exists fl|apply same_table_refl|done]].
  all: destruct (ht_cMax t <=? ht_cCur t).
  1,3: injection H as <- <- <- <-; split_and!; [by exists fl|apply same_table_refl|done].
  - done.
  - apply Forall_cons in Henvs as [Henv Henvs].
    pose proof (expand_ok t env (ex_intro _ fl Hinv) Henv) as He.
    destruct (alloc_expand t env) as [[fOk t1] ev1]. destruct He as [Hok1 Hs1]. destruct fOk.
    + destruct (alloc_loop envs t1 pvObj pvCtx ph) as [[[[rc2 h2] t2] ev2]|] eqn:El; [|done].
      injection H as <- <- <- <-.
      destruct (IH _ _ _ _ _ _ _ _ Hok1 Henvs Hobj El) as (Hok2&Hs2&Hrc).
      split; [done|]. split; [by eapply same_table_trans|].
      destruct (rc2 =? VINF_SUCCESS); [|done]. destruct Hrc as (tc&?&?&?). exists tc.
      split_and!; [done|by eapply same_table_trans|done].
    + injection H as <- <- <- <-. split_and!; done.
Qed.

(** Expansion of a full table when no other thread interferes. *)
Lemma expand_alone t a b :
  ht_inv t [] → ht_cCur t < ht_cMax t →
  let '(fOk, t', _) := alloc_expand t (env_alone a b) in
  ht_ok t' ∧ same_table t t' ∧ (∀ j, 0 ≤ j → ht_get t' j = ht_get t j)
  ∧ (if (fOk : bool) then ht_iFreeHead t' ≠ NIL_RTHT_INDEX else a = None ∨ b = None).
Proof.
  intros Hinv Hfull. destruct (level1_wanted_spec t [] Hinv) as [Hw Hw2]. specialize (Hw2 Hfull).
  unfold alloc_expand, env_alone. cbn [ae_others1 ae_others2 ae_others3 ae_level1 ae_table id]. cbv zeta.
  set (w := level1_wanted t) in *.
  assert (Hpv : ∃ o, (if negb (w =? 0) then a else Some NULL) = o ∧ (o = None → a = None)).
  { eexists. split; [reflexivity|]. destruct (negb (w =? 0)); done. }
  destruct Hpv as ([pv|]&->&Ho).
  2:{ split; [by exists []|]. split; [apply same_table_refl|]. split; [done|]. left. auto. }
  destruct b as [tb|].
  2:{ split; [by exists []|]. split; [apply same_table_refl|]. split; [done|]. by right. }
  pose proof (replace_spec t [] w pv Hinv Hw) as Hrep.
  assert (Hnext : ∃ t2 ev, (if negb (w =? 0)
                   then let '(t, papvOld) := level1_replace t w pv in (t, ev_free papvOld)
                   else (t, [])) = (t2, ev)
             ∧ ht_inv t2 [] ∧ same_table t t2 ∧ (∀ j, 0 ≤ j → ent t2 j = ent t j)
             ∧ ht_cCur t2 = ht_cCur t ∧ ht_cCur t / 2048 < ht_cLevel1 t2).
  { destruct (Z.eqb_spec w 0) as [E|E]; cbn [negb].
    - eexists _, _. split; [reflexivity|]. split_and!; try done.
      pose proof (hv_len _ _ Hinv) as [Hl _]. lia.
    - destruct (level1_replace t w pv) as [t2 old]. cbn [fst] in Hrep.
      destruct Hrep as (?&?&?&?&?). eexists _, _. split; [reflexivity|]. split_and!; (done || lia). }
  destruct Hnext as (t2&ev&->&Hinv2&Hs2&Hent&Hcur&Hl1).
  destruct Hs2 as (Hb&Hm&?&?&?). rewrite Hcur, Hm. unfold RTHT_LEVEL2_ENTRIES.
  destruct (Z.ltb_spec (ht_cCur t / 2048) (ht_cLevel1 t2)); [|lia].
  destruct (Z.ltb_spec (ht_cCur t) (ht_cMax t)); [|lia]. cbn [andb].
  destruct (insert_spec t2 [] tb Hinv2) as (Hinv3&Hs3&Hget); [rewrite Hcur; unfold RTHT_LEVEL2_ENTRIES; lia|lia|].
  split; [by eexists|]. split; [eapply same_table_trans; [|exact Hs3]; by repeat split|]. split.
  - intros j Hj. rewrite Hget by done. by apply get_None_ent, Hent.
  - rewrite (inv_head_nil _ _ Hinv3). rewrite app_nil_l, seqZ_cons by lia. discriminate.
Qed.

Lemma seqZ_full t i : ht_inv t [] → 0 ≤ i < ht_cCur t → is_Some (ht_get t i).
Proof.
  intros Hinv Hi. destruct (ht_get t i) as [p|] eqn:E; [done|].
  exfalso. by apply (not_elem_of_nil i), (hv_free _ _ Hinv).
Qed.

(** * Lookup and release *)

Definition ht_index (t : RTHANDLETABLEINT) (h : Z) : Z := u32 (h - ht_uBase t).

Section callbacks_lemmas.
Context {S : Type} (pfnRetain : ptr → ptr → S → Z * S) (pfnDelete : Z → ptr → ptr → S → S * list event).

(** The lookup, on what the table is as a map. *)
Lemma lookup_spec t h pvCtx s :
  ht_ok t →
  RTHandleTableLookupWithCtx pfnRetain t h pvCtx s
  = match ht_get t (ht_index t h) with
    | Some (pvObj, c) => if c =? pvCtx then ht_retain pfnRetain t pvObj pvCtx s else (NULL, s)
    | None => (NULL, s)
    end.
Proof.
  intros [fl Hinv]. unfold RTHandleTableLookupWithCtx, rtHandleTableLookupWithCtx, ht_get, ht_index.
  rewrite (hv_valid _ _ Hinv). cbn [negb].
  destruct (Z.eqb_spec (Z.land (ht_fFlags t) RTHANDLETABLE_FLAGS_CONTEXT) 0) as [E|_];
    [by destruct (hv_ctx _ _ Hinv)|].
  destruct (ent t _) as [[o c]|]; [|done]. cbn [te_pvObj te_pvCtx].
  destruct (RTHT_IS_FREE o); cbn [negb]; [by destruct (c =? pvCtx)|done].
Qed.

(** A release that finds nothing leaves the table alone. *)
Lemma free_miss t h pvCtx s s' :
  RTHandleTableLookupWithCtx pfnRetain t h pvCtx s = (NULL, s') →
  RTHandleTableFreeWithCtx pfnRetain t h pvCtx s = (NULL, t, s').
Proof.
  unfold RTHandleTableLookupWithCtx, RTHandleTableFreeWithCtx. intros H.
  repeat case_match; by simplify_eq/=.
Qed.

Lemma free_spec t h pvCtx s pvObj t' s' :
  ht_ok t → RTHandleTableFreeWithCtx pfnRetain t h pvCtx s = (pvObj, t', s') →
  RTHandleTableLookupWithCtx pfnRetain t h pvCtx s = (pvObj, s')
  ∧ ht_ok t' ∧ same_table t t'
  ∧ ∀ j, 0 ≤ j → ht_get t' j = if negb (pvObj =? NULL) && (j =? ht_index t h) then None else ht_get t j.
Proof.
  intros Hok. rewrite lookup_spec by done. destruct Hok as [fl Hinv].
  unfold RTHandleTableFreeWithCtx, rtHandleTableLookupWithCtx, ht_index.
  rewrite (hv_valid _ _ Hinv). cbn [negb].
  destruct (Z.eqb_spec (Z.land (ht_fFlags t) RTHANDLETABLE_FLAGS_CONTEXT) 0) as [E|_];
    [by destruct (hv_ctx _ _ Hinv)|].
  unfold ht_get at 1. set (i := u32 (h - ht_uBase t)).
  assert (Hid : ∀ s0 : S, (NULL, t, s0) = (pvObj, t', s') →
           (NULL, s0) = (pvObj, s') ∧ ht_ok t' ∧ same_table t t'
           ∧ ∀ j, 0 ≤ j → ht_get t' j = if negb (pvObj =? NULL) && (j =? i) then None else ht_get t j).
  { intros s0 [= <- <- <-]. split; [done|]. split; [by exists fl|]. split; [apply same_table_refl|]. done. }
  destruct (ent t i) as [[o c]|] eqn:Eent; cbn [te_pvObj te_pvCtx]; [|by apply Hid].
  destruct (Z.eqb_spec c pvCtx) as [->|Hc].
  2:{ intros H. destruct (RTHT_IS_FREE o); [by apply Hid|]. rewrite (proj2 (Z.eqb_neq _ _) Hc). by apply Hid. }
  destruct (RTHT_IS_FREE o) eqn:Efree; cbn [negb]; [by apply Hid|]. rewrite Z.eqb_refl.
  destruct (ht_retain pfnRetain t o pvCtx s) as [o' s1] eqn:Er.
  destruct (Z.eqb_spec o' NULL) as [->|Hne]; cbn [negb]; [by apply Hid|].
  intros [= <- <- <-]. destruct (Z.eqb_spec o' NULL); [done|]. cbn [negb andb].
  assert (Hg : ht_get t i = Some (o, pvCtx)) by (unfold ht_get; rewrite Eent; cbn [te_pvObj te_pvCtx]; by rewrite Efree).
  destruct (freelink_spec t i _ fl Hinv (proj1 (u32_range _)) Hg) as (Hinv'&Hs&Hget).
  split; [done|]. split; [by eexists|]. split; [done|]. exact Hget.
Qed.
End callbacks_lemmas.

(** * Creation and destruction *)

Lemma create_spec fFlags uBase cMax fRetain rThis rSpin rc ot ev :
  0 ≤ uBase < 2 ^ 32 → 0 ≤ cMax < 2 ^ 32 →
  (∀ p, rThis = Some p → VALID_PTR p = true) →
  Z.land fFlags RTHANDLETABLE_FLAGS_CONTEXT ≠ 0 →
  RTHandleTableCreateEx fFlags uBase cMax fRetain rThis rSpin = (rc, ot, ev) →
  match ot with
  | Some t => rc = VINF_SUCCESS ∧ ev = [] ∧ ht_inv t [] ∧ ht_uBase t = uBase ∧ (cMax ≤ ht_cMax t < cMax + 2048 ∨ ht_cMax t = 2 ^ 32 - 2048)
      ∧ ht_pfnRetain t = fRetain ∧ ∀ i, 0 ≤ i → ht_get t i = None
  | None => RT_FAILURE rc = true ∧ (ev = [] ∨ ∃ p, rThis = Some p ∧ ev = [EvMemFree p])
  end.
Proof.
  intros Hb Hm Hp Hctx H. unfold RTHandleTableCreateEx in H. unfold UINT32_MAX, RTHT_LEVEL2_ENTRIES in H.
  destruct (negb (_ =? 0)); [injection H as <- <- <-; auto|].
  destruct (Z.leb_spec cMax 0); [injection H as <- <- <-; auto|].
  destruct (Z.ltb_spec (0xffffffff - cMax) uBase); [injection H as <- <- <-; auto|].
  destruct rThis as [p|]; [|injection H as <- <- <-; auto]. specialize (Hp p eq_refl).
  set (c0 := if _ <=? cMax then _ else _) in H.
  assert (Hc0 : 0 < c0 ≤ 0xffffffff - 2047 ∧ (c0 = cMax ∨ c0 = 0xffffffff - 2047)).
  { subst c0. destruct (Z.leb_spec (0xffffffff - 2048) cMax); lia. }
  rewrite (u32_small (c0 + 2048 - 1)) in H by lia. set (m := (c0 + 2048 - 1) / 2048) in H.
  assert (Hm2 : c0 ≤ m * 2048 < c0 + 2048).
  { unfold m. pose proof (Z.div_mod (c0 + 2048 - 1) 2048 ltac:(done)).
    pose proof (Z.mod_pos_bound (c0 + 2048 - 1) 2048 ltac:(done)). lia. }
  assert (Hm3 : cMax ≤ m * 2048 < cMax + 2048 ∨ m * 2048 = 2 ^ 32 - 2048).
  { destruct (proj2 Hc0) as [| ->]; [lia|]. right. reflexivity. }
  rewrite Z.div_mul in H by done.
  assert (Hok : ∀ hSpin, let t := mkHt p RTHANDLETABLE_MAGIC fFlags uBase 0 hSpin
            (if m <? RTHT_LEVEL1_DYN_ALLOC_THRESHOLD then p + 72 else NULL)
            (if m <? RTHT_LEVEL1_DYN_ALLOC_THRESHOLD then replicate (Z.to_nat m) None else []) fRetain (m * 2048) 0
            (if m <? RTHT_LEVEL1_DYN_ALLOC_THRESHOLD then m else 0) NIL_RTHT_INDEX NIL_RTHT_INDEX in
          ht_inv t [] ∧ ∀ i, 0 ≤ i → ht_get t i = None).
  { intros hSpin t. assert (Hg : ∀ i, 0 ≤ i → ht_get t i = None).
    { intros i Hi. unfold ht_get. rewrite ent_out; [done|]. simpl. lia. }
    split; [|done]. constructor; simpl; try done.
    - unfold ht_valid. simpl. by rewrite Hp.
    - by rewrite Z.mod_mul; try lia.
    - split; [lia|done].
    - rewrite Z.div_mul by done. destruct (Z.ltb_spec m RTHT_LEVEL1_DYN_ALLOC_THRESHOLD);
        rewrite ?length_replicate; simpl; lia.
    - change (Z.to_nat (0 / 2048)) with 0%nat. split_and!; [lia|intros; lia|]. intros k _ Hk.
      destruct (Z.ltb_spec m RTHT_LEVEL1_DYN_ALLOC_THRESHOLD); [|simpl in Hk; lia].
      rewrite length_replicate in Hk. by apply lookup_replicate_2.
    - constructor.
    - intros i. split; [by intros ?%not_elem_of_nil|]. lia. }
  destruct (negb (_ =? 0)).
  - destruct rSpin as [rc1 hS]. destruct (RT_FAILURE rc1) eqn:Ef.
    + injection H as <- <- <-. split; [done|]. right. eauto.
    + injection H as <- <- <-. destruct (Hok hS) as [? ?]. simpl. split_and!; (done || lia).
  - injection H as <- <- <-. destruct (Hok NIL_RTSPINLOCK) as [? ?]. simpl. split_and!; (done || lia).
Qed.

(** The handles of a table with their objects and contexts, in ascending order. *)
Definition ht_live (t : RTHANDLETABLEINT) : list (Z * (Z * Z)) :=
  omap (λ i, (λ p, (u32 (ht_uBase t + i), p)) <$> ht_get t i) (seqZ 0 (ht_cCur t)).

Section destroy.
Context {S : Type} (pfnDelete : Z → ptr → ptr → S → S * list event).

(** The callback on every element of a list. *)
Fixpoint delete_all (l : list (Z * (Z * Z))) (s : S) : S * list event :=
  match l with
  | [] => (s, [])
  | (h, (pvObj, pvCtx)) :: l =>
      let '(s, ev) := pfnDelete h pvObj pvCtx s in
      let '(s, ev') := delete_all l s in (s, ev ++ ev')
  end.

Lemma delete_all_app l1 l2 s :
  delete_all (l1 ++ l2) s
  = let '(s, ev) := delete_all l1 s in let '(s, ev') := delete_all l2 s in (s, ev ++ ev').
Proof.
  revert s. induction l1 as [|[h [o c]] l1 IH]; intros s; simpl; [by destruct (delete_all l2 s)|].
  destruct (pfnDelete h o c s) as [s1 ev1]. rewrite IH. destruct (delete_all l1 s1) as [s2 ev2].
  destruct (delete_all l2 s2) as [s3 ev3]. by rewrite app_assoc.
Qed.

Definition live_entry (h : Z) (e : RTHTENTRYCTX) : list (Z * (Z * Z)) :=
  if RTHT_IS_FREE (te_pvObj e) then [] else [(u32 h, (te_pvObj e, te_pvCtx e))].

Fixpoint table_live (h : Z) (l : list RTHTENTRYCTX) : list (Z * (Z * Z)) :=
  match l with [] => [] | e :: l => live_entry h e ++ table_live (h + 1) l end.

Lemma destroy_table_spec l : ∀ h cLeft s,
  Z.of_nat (length (table_live h l)) ≤ cLeft < 2 ^ 32 →
  destroy_table pfnDelete h l cLeft s
  = let '(s, ev) := delete_all (table_live h l) s in (cLeft - Z.of_nat (length (table_live h l)), s, ev).
Proof.
  induction l as [|e l IH]; intros h cLeft s Hc; simpl; [by rewrite Z.sub_0_r|].
  simpl in Hc. unfold live_entry in *. destruct (RTHT_IS_FREE (te_pvObj e)); simpl in *; [by apply IH|].
  destruct (pfnDelete (u32 h) _ _ s) as [s1 ev1]. rewrite u32_small by lia. rewrite IH by lia.
  destruct (delete_all (table_live (h + 1) l) s1) as [s2 ev2]. do 2 f_equal. lia.
Qed.

Definition opt_table (o : option (ptr * list RTHTENTRYCTX)) : list RTHTENTRYCTX := from_option snd [] o.

Fixpoint level1_live (h : Z) (l : list (option (ptr * list RTHTENTRYCTX))) : list (Z * (Z * Z)) :=
  match l with
  | [] => []
  | o :: l => table_live h (opt_table o) ++ level1_live (h + RTHT_LEVEL2_ENTRIES) l
  end.

Lemma destroy_level1_spec l : ∀ h cLeft s,
  cLeft = Z.of_nat (length (level1_live h l)) → cLeft < 2 ^ 32 →
  destroy_level1 pfnDelete h l cLeft s = delete_all (level1_live h l) s.
Proof.
  induction l as [|o l IH]; intros h cLeft s Hc Hlt; cbn [destroy_level1 level1_live]; [done|].
  cbn [level1_live] in Hc. rewrite length_app in Hc. destruct (Z.ltb_spec 0 cLeft) as [Hpos|Hz].
  - assert (Ht : (match o with
                  | Some (_, paTable) => destroy_table pfnDelete h paTable cLeft s
                  | None => (cLeft, s, [])
                  end) = let '(s, ev) := delete_all (table_live h (opt_table o)) s in
                         (cLeft - Z.of_nat (length (table_live h (opt_table o))), s, ev)).
    { destruct o as [[p tbl]|]; [apply destroy_table_spec; simpl in *; lia|]. simpl. by rewrite Z.sub_0_r. }
    rewrite Ht, delete_all_app. destruct (delete_all (table_live h (opt_table o)) s) as [s1 ev1].
    rewrite (IH _ _ s1); [done|lia|lia].
  - destruct (table_live h (opt_table o)); [|simpl in *; lia].
    destruct (level1_live (h + RTHT_LEVEL2_ENTRIES) l); [done|simpl in *; lia].
Qed.

(** A table's live entries are those of the map. *)
(** What every call of the delete callback preserves, destruction preserves. *)
Lemma destroy_preserves (P : S → Prop) :
  (∀ h o c s, P s → P (fst (pfnDelete h o c s))) →
  ∀ ot s rc s' ev, RTHandleTableDestroy pfnDelete ot s = (rc, s', ev) → P s → P s'.
Proof.
  intros Hdel. assert (Htab : ∀ l h cLeft s, P s → P (destroy_table pfnDelete h l cLeft s).1.2).
  { induction l as [|e l IH]; intros h cLeft s Hs; cbn [destroy_table]; [done|].
    destruct (RTHT_IS_FREE (te_pvObj e)); cbn [negb]; [by apply IH|].
    specialize (Hdel (u32 h) (te_pvObj e) (te_pvCtx e) s Hs). destruct (pfnDelete _ _ _ s) as [s1 ev1].
    specialize (IH (h + 1) (u32 (cLeft - 1)) s1 Hdel). by destruct (destroy_table pfnDelete _ l _ s1) as [[? ?] ?]. }
  assert (Hlev : ∀ l h cLeft s, P s → P (destroy_level1 pfnDelete h l cLeft s).1).
  { induction l as [|o l IH]; intros h cLeft s Hs; cbn [destroy_level1]; [done|].
    destruct (0 <? cLeft); [|done].
    assert (Hs1 : P (match o with Some (_, paTable) => destroy_table pfnDelete h paTable cLeft s
                     | None => (cLeft, s, []) end).1.2).
    { destruct o as [[p paTable]|]; [by apply Htab|done]. }
    destruct (match o with Some _ => _ | None => _ end) as [[c1 s1] ev1].
    specialize (IH (h + RTHT_LEVEL2_ENTRIES) c1 s1 Hs1). by destruct (destroy_level1 pfnDelete _ l _ s1). }
  intros ot s rc s' ev H Hs. unfold RTHandleTableDestroy in H. destruct ot as [t|]; [|by simplify_eq].
  destruct (negb (ht_valid t)); [by simplify_eq|].
  specialize (Hlev (take (Z.to_nat (ht_cLevel1 t)) (ht_level1 t)) (ht_uBase t) (ht_cCurAllocated t) s Hs).
  destruct (destroy_level1 pfnDelete _ _ _ s) as [s1 ev2]. by injection H as <- <- <-.
Qed.

Lemma table_live_omap (g : Z → option (Z * Z)) base tbl : ∀ a,
  (∀ r e, tbl !! r = Some e →
     g (a + Z.of_nat r) = if RTHT_IS_FREE (te_pvObj e) then None else Some (te_pvObj e, te_pvCtx e)) →
  table_live (base + a) tbl = omap (λ i, (λ p, (u32 (base + i), p)) <$> g i) (seqZ a (Z.of_nat (length tbl))).
Proof.
  induction tbl as [|e tbl IH]; intros a H; [done|].
  simpl length. rewrite seqZ_cons by lia. replace (Z.pred _) with (Z.of_nat (length tbl)) by lia. simpl.
  pose proof (H 0%nat e eq_refl) as H0. rewrite Z.add_0_r in H0. rewrite H0. unfold live_entry.
  replace (base + a + 1) with (base + Z.succ a) by lia.
  assert (table_live (base + Z.succ a) tbl
          = omap (λ i, (λ p, (u32 (base + i), p)) <$> g i) (seqZ (Z.succ a) (Z.of_nat (length tbl)))) as ->.
  { apply IH. intros r e' Hr. replace (Z.succ a + Z.of_nat r) with (a + Z.of_nat (Datatypes.S r)) by lia.
    by apply H. }
  by destruct (RTHT_IS_FREE (te_pvObj e)).
Qed.
End destroy.

Lemma level1_live_omap (g : Z → option (Z * Z)) base l : ∀ a n,
  level1_ok l n →
  (∀ k p tbl r e, (k < n)%nat → l !! k = Some (Some (p, tbl)) → tbl !! r = Some e →
     g (a + 2048 * Z.of_nat k + Z.of_nat r)
     = if RTHT_IS_FREE (te_pvObj e) then None else Some (te_pvObj e, te_pvCtx e)) →
  level1_live (base + a) l
  = omap (λ i, (λ p, (u32 (base + i), p)) <$> g i) (seqZ a (2048 * Z.of_nat n)).
Proof.
  induction l as [|o l IH]; intros a n (Hle&Hl&Hr) Hg.
  { simpl in Hle. destruct n; [done|lia]. }
  simpl level1_live. unfold RTHT_LEVEL2_ENTRIES. rewrite <- Z.add_assoc.
  destruct n as [|n].
  - pose proof (Hr 0%nat ltac:(lia) ltac:(simpl; lia)) as [= ->]. simpl opt_table. simpl table_live. simpl app.
    rewrite (IH (a + 2048) 0%nat); [done| |intros; lia].
    split_and!; [lia|intros; lia|]. intros k _ Hk. apply (Hr (S k)); simpl; lia.
  - destruct (Hl 0%nat) as (p&tbl&[= ->]&Hlen); [lia|]. simpl opt_table.
    rewrite (table_live_omap g base tbl a).
    + rewrite (IH (a + 2048) n).
      * rewrite Hlen, <- omap_app. f_equal.
        rewrite <- seqZ_app by lia. f_equal. lia.
      * split_and!; [simpl in Hle; lia| |].
        -- intros k Hk. apply (Hl (S k)). lia.
        -- intros k Hk1 Hk2. apply (Hr (S k)); simpl; lia.
      * intros k p' tbl' r e Hk Hlk Hre. rewrite <- (Hg (S k) p' tbl' r e); [f_equal; lia|lia|done|done].
    + intros r e Hre. rewrite <- (Hg 0%nat p tbl r e); [f_equal; lia|lia|done|done].
Qed.

Lemma level1_live_spec t fl : ht_inv t fl → level1_live (ht_uBase t) (ht_level1 t) = ht_live t.
Proof.
  intros Hinv. pose proof (inv_cur_n _ _ Hinv) as Hn. unfold ht_live. rewrite Hn.
  rewrite <- (Z.add_0_r (ht_uBase t)) at 1. apply level1_live_omap; [apply Hinv|].
  intros k p tbl r e Hk Hlk Hre. unfold ht_get, rtHandleTableLookupWithCtxIdx, RTHT_LEVEL2_ENTRIES.
  destruct (hv_level1 _ _ Hinv) as (_&Hl&_). destruct (Hl k Hk) as (p'&tbl'&Hlk'&Hlen). simplify_eq.
  apply lookup_lt_Some in Hre as Hr.
  assert (Hq : (0 + 2048 * Z.of_nat k + Z.of_nat r) / 2048 = Z.of_nat k)
    by (symmetry; apply (Z.div_unique_pos _ _ _ (Z.of_nat r)); lia).
  assert (Hm : (0 + 2048 * Z.of_nat k + Z.of_nat r) mod 2048 = Z.of_nat r)
    by (symmetry; apply (Z.mod_unique_pos _ _ (Z.of_nat k)); lia).
  rewrite Hq, Hm, !Nat2Z.id, Hlk, Hre. destruct (Z.ltb_spec (0 + 2048 * Z.of_nat k + Z.of_nat r) (ht_cCur t)); [done|lia].
Qed.

Lemma omap_None_length {A B} (f : A → option B) (l : list A) `{∀ x, Decision (f x = None)} :
  (length (omap f l) + length (filter (λ x, f x = None) l) = length l)%nat.
Proof.
  induction l as [|x l IH]; [done|]. rewrite filter_cons. simpl.
  unfold omap in IH. case_decide as E; [rewrite E; simpl; lia|]. destruct (f x); [simpl; lia|done].
Qed.

Lemma live_length t fl : ht_inv t fl → Z.of_nat (length (ht_live t)) = ht_cCurAllocated t.
Proof.
  intros Hinv. rewrite (hv_alloc _ _ Hinv).
  assert (Hfl : fl ≡ₚ filter (λ i, (λ p, (u32 (ht_uBase t + i), p)) <$> ht_get t i = None) (seqZ 0 (ht_cCur t))).
  { apply NoDup_Permutation; [apply Hinv|apply NoDup_filter, NoDup_seqZ|]. intros i.
    rewrite list_elem_of_filter, elem_of_seqZ, (hv_free _ _ Hinv), fmap_None. naive_solver lia. }
  rewrite Hfl. unfold ht_live.
  pose proof (omap_None_length (λ i, (λ p, (u32 (ht_uBase t + i), p)) <$> ht_get t i) (seqZ 0 (ht_cCur t))) as H.
  rewrite length_seqZ in H. destruct (hv_cur _ _ Hinv) as [? _]. lia.
Qed.

Section steps.
Context {S : Type} (pfnRetain : ptr → ptr → S → Z * S).

(** The operations on an existing table, with other threads that keep it well-formed. *)
Inductive ht_step : RTHANDLETABLEINT → RTHANDLETABLEINT → Prop :=
| step_alloc t envs pvObj pvCtx rc h t' ev :
    Forall env_stable envs →
    RTHandleTableAllocWithCtx envs t pvObj pvCtx = Some (rc, h, t', ev) → ht_step t t'
| step_free t h pvCtx s pvObj t' s' :
    RTHandleTableFreeWithCtx pfnRetain t h pvCtx s = (pvObj, t', s') → ht_step t t'.

(** Tables that creation with context and then operations lead to. *)
Definition ht_reach (t : RTHANDLETABLEINT) : Prop :=
  ∃ fFlags uBase cMax fRetain p rSpin rc t0 ev,
    0 ≤ uBase < 2 ^ 32 ∧ 0 ≤ cMax < 2 ^ 32 ∧ VALID_PTR p = true
    ∧ Z.land fFlags RTHANDLETABLE_FLAGS_CONTEXT ≠ 0
    ∧ RTHandleTableCreateEx fFlags uBase cMax fRetain (Some p) rSpin = (rc, Some t0, ev)
    ∧ rtc ht_step t0 t.

Lemma ht_step_ok t t' : ht_ok t → ht_step t t' → ht_ok t'.
Proof.
  intros Hok H. destruct H as [t envs o c rc h t' ev Henv H|t h c s o t' s' H].
  - unfold RTHandleTableAllocWithCtx in H.
    destruct (negb (ht_valid t)); [by injection H as <- <- <- <-|].
    destruct (_ =? 0); [by injection H as <- <- <- <-|].
    destruct (RTHT_IS_FREE o) eqn:Ef; [by injection H as <- <- <- <-|].
    destruct (alloc_loop envs t o c _) as [[[[rc1 h1] t1] ev1]|] eqn:El; [|done].
    injection H as <- <- <- <-. by destruct (alloc_loop_ok _ _ _ _ _ _ _ _ _ Hok Henv Ef El).
  - by destruct (free_spec pfnRetain _ _ _ _ _ _ _ Hok H) as (_&?&_).
Qed.

Lemma ht_reach_ok t : ht_reach t → ht_ok t.
Proof.
  intros (fl&b&m&fr&p&sp&rc&t0&ev&Hb&Hm&Hp&Hctx&Hc&Hs).
  pose proof (create_spec fl b m fr (Some p) sp rc (Some t0) ev Hb Hm) as H.
  destruct H as (_&_&Hinv&_); [intros q [= <-]; done|done|done|].
  assert (ht_ok t0) as H0 by by exists []. clear -H0 Hs.
  induction Hs as [|t0 t1 t2 H1 _ IH]; [done|]. apply IH. by eapply ht_step_ok.
Qed.
End steps.

(** Allocation without other threads. *)
Lemma alloc_alone t a b pvObj pvCtx :
  ht_ok t → RTHT_IS_FREE pvObj = false →
  ∃ rc h t' ev,
    RTHandleTableAllocWithCtx [env_alone a b] t pvObj pvCtx = Some (rc, Some h, t', ev)
    ∧ ht_ok t' ∧ same_table t t'
    ∧ ((rc = VINF_SUCCESS ∧ inserted t t' h pvObj pvCtx)
       ∨ (rc = VERR_NO_MORE_HANDLES ∧ t' = t ∧ h = u32 (ht_uBase t - 1)
          ∧ ∀ i, 0 ≤ i < ht_cMax t → is_Some (ht_get t i))
       ∨ (rc = VERR_NO_MEMORY ∧ (a = None ∨ b = None) ∧ h = u32 (ht_uBase t - 1)
          ∧ ∀ i, 0 ≤ i → ht_get t' i = ht_get t i)).
Proof.
  intros [fl Hinv] Hobj. unfold RTHandleTableAllocWithCtx. rewrite (hv_valid _ _ Hinv). cbn [negb].
  destruct (Z.eqb_spec (Z.land (ht_fFlags t) RTHANDLETABLE_FLAGS_CONTEXT) 0) as [E|_];
    [by destruct (hv_ctx _ _ Hinv)|].
  rewrite Hobj. cbn [alloc_loop]. destruct (Z.eqb_spec (ht_iFreeHead t) NIL_RTHT_INDEX) as [E|E]; cbn [negb].
  2:{ pose proof (grab_inserted t fl pvObj pvCtx Hinv E Hobj) as H.
      destruct (alloc_grab t pvObj pvCtx) as [h t']. destruct H as (?&?&?).
      eexists _, _, _, _. split; [reflexivity|]. split; [done|]. split; [done|]. by left. }
  apply (inv_head_nil _ _ Hinv) in E as ->. destruct (hv_cur _ _ Hinv) as [Hc _].
  destruct (Z.leb_spec (ht_cMax t) (ht_cCur t)) as [Hfull|Hroom].
  { eexists _, _, _, _. split; [reflexivity|]. split; [by exists []|]. split; [apply same_table_refl|].
    right; left. split_and!; try done. intros i Hi. apply seqZ_full; [done|lia]. }
  pose proof (expand_alone t a b Hinv Hroom) as Hexp.
  destruct (alloc_expand t (env_alone a b)) as [[fOk t1] ev1]. destruct Hexp as ([fl1 Hinv1]&Hs1&Hg1&Hok).
  destruct fOk.
  - rewrite (proj2 (Z.eqb_neq _ _) Hok). cbn [negb].
    pose proof (grab_inserted t1 fl1 pvObj pvCtx Hinv1 Hok Hobj) as H.
    destruct (alloc_grab t1 pvObj pvCtx) as [h t']. destruct H as (Hok2&Hs2&i&Hi&Hh&Hn&Hget).
    eexists _, _, _, _. split; [reflexivity|]. split; [done|]. split; [by eapply same_table_trans|].
    left. split; [done|]. destruct Hs1 as (Hb&Hm&_). exists i. rewrite Hm in Hi. rewrite Hb in Hh.
    split; [done|]. split; [done|]. rewrite Hg1 in Hn by lia. split; [done|].
    intros j Hj. rewrite Hget, Hg1 by done. done.
  - eexists _, _, _, _. split; [reflexivity|]. split; [by exists fl1|]. split; [done|].
    right; right. done.
Qed.

Lemma ht_index_spec t i : 0 ≤ i < ht_cMax t → ht_ok t → ht_index t (u32 (i + ht_uBase t)) = i.
Proof.
  intros Hi [fl Hinv]. destruct (hv_max _ _ Hinv) as [Hm _]. unfold ht_index, u32.
  rewrite Zminus_mod_idemp_l, Z.add_simpl_r. apply Z.mod_small. lia.
Qed.

(** * Properties *)

(** C14. Handle tables are well-formed in every reachable state, other threads expanding the
    same table included: the free list runs from head to tail through every free entry once
    and through no used one, and the count of allocated handles is exact. *)
Theorem handle_table_invariant {S} (pfnRetain : ptr → ptr → S → Z * S) t :
  ht_reach pfnRetain t →
  ∃ fl, ht_inv t fl ∧ Z.of_nat (length (ht_live t)) = ht_cCurAllocated t
    ∧ Z.of_nat (length fl) + ht_cCurAllocated t = ht_cCur t.
Proof.
  intros [fl Hinv]%ht_reach_ok. exists fl. split; [done|]. split; [by eapply live_length|].
  rewrite (hv_alloc _ _ Hinv). lia.
Qed.

(** C15. Allocation terminates after at most one expansion when no other thread interferes,
    and refines insertion in a finite map: it adds the object and context under a handle
    that was free and leaves every other handle alone; or every possible handle is in use
    and nothing changes; or memory ran out and the handles are what they were. *)
Theorem handle_alloc_refines t a b pvObj pvCtx :
  ht_ok t → RTHT_IS_FREE pvObj = false →
  ∃ rc h t' ev,
    RTHandleTableAllocWithCtx [env_alone a b] t pvObj pvCtx = Some (rc, Some h, t', ev)
    ∧ ht_ok t' ∧ same_table t t'
    ∧ ((rc = VINF_SUCCESS ∧ inserted t t' h pvObj pvCtx)
       ∨ (rc = VERR_NO_MORE_HANDLES ∧ t' = t ∧ h = u32 (ht_uBase t - 1)
          ∧ ∀ i, 0 ≤ i < ht_cMax t → is_Some (ht_get t i))
       ∨ (rc = VERR_NO_MEMORY ∧ (a = None ∨ b = None) ∧ h = u32 (ht_uBase t - 1)
          ∧ ∀ i, 0 ≤ i → ht_get t' i = ht_get t i)).
Proof. apply alloc_alone. Qed.

(** C16. A handle that was allocated, no other thread working on the table meanwhile, is
    looked up under its own context by calling the table's retain callback, if it has one, on
    its object: what the lookup returns is the object, or nothing when the callback fails;
    under any other context it is looked up as nothing, and the callback is not called.
    Releasing it calls the callback in the same way.  When the callback fails the release
    returns nothing and the table is as it was; otherwise it returns the object, the map is
    what it was before the allocation, and neither lookup nor release find the handle from
    then on.  Objects are neither null nor one of the addresses the table marks free entries
    with. *)
Theorem handle_roundtrip {S} (pfnRetain : ptr → ptr → S → Z * S) t a b pvObj pvCtx h t1 ev (s : S) :
  ht_ok t → RTHT_IS_FREE pvObj = false → pvObj ≠ NULL →
  RTHandleTableAllocWithCtx [env_alone a b] t pvObj pvCtx = Some (VINF_SUCCESS, Some h, t1, ev) →
  let '(o, s1) := if ht_pfnRetain t
                  then let '(rc, s1) := pfnRetain pvObj pvCtx s in (if RT_FAILURE rc then NULL else pvObj, s1)
                  else (pvObj, s) in
  RTHandleTableLookupWithCtx pfnRetain t1 h pvCtx s = (o, s1)
  ∧ (∀ c, c ≠ pvCtx → RTHandleTableLookupWithCtx pfnRetain t1 h c s = (NULL, s))
  ∧ ∃ t2, RTHandleTableFreeWithCtx pfnRetain t1 h pvCtx s = (o, t2, s1) ∧ ht_ok t2
    ∧ if o =? NULL then t2 = t1
      else o = pvObj ∧ (∀ i, 0 ≤ i → ht_get t2 i = ht_get t i)
           ∧ ∀ c s', RTHandleTableLookupWithCtx pfnRetain t2 h c s' = (NULL, s')
                     ∧ RTHandleTableFreeWithCtx pfnRetain t2 h c s' = (NULL, t2, s').
Proof.
  intros Hok Hobj Hnn H. destruct (alloc_alone t a b pvObj pvCtx Hok Hobj) as (rc&h'&t'&ev'&Ha&Hok1&Hs1&Hc).
  rewrite H in Ha. injection Ha as <- <- <- <-.
  destruct Hc as [(_&i&Hi&->&Hn&Hget)|[(?&_)|(?&_)]]; [|done..].
  pose proof Hs1 as (Hb&Hm&Hr&_). fold (ht_retain pfnRetain t pvObj pvCtx s).
  destruct (ht_retain pfnRetain t pvObj pvCtx s) as [o s1] eqn:Er.
  assert (Hix : ht_index t1 (u32 (i + ht_uBase t)) = i) by (rewrite <- Hb; apply ht_index_spec; [lia|done]).
  assert (Hlk : ∀ c, RTHandleTableLookupWithCtx pfnRetain t1 (u32 (i + ht_uBase t)) c s
                  = if pvCtx =? c then (o, s1) else (NULL, s)).
  { intros c. rewrite lookup_spec by done. rewrite Hix, Hget, Z.eqb_refl by lia.
    destruct (Z.eqb_spec pvCtx c) as [<-|]; [|done]. rewrite <- Er. unfold ht_retain. by rewrite Hr. }
  split; [by rewrite Hlk, Z.eqb_refl|]. split.
  { intros c Hc. rewrite Hlk. by destruct (Z.eqb_spec pvCtx c). }
  pose proof (Hlk pvCtx) as Hlc. rewrite Z.eqb_refl in Hlc.
  destruct (Z.eqb_spec o NULL) as [->|Hne].
  { exists t1. split; [by apply free_miss|done]. }
  destruct (RTHandleTableFreeWithCtx pfnRetain t1 (u32 (i + ht_uBase t)) pvCtx s) as [[o2 t2] s2] eqn:Ef.
  destruct (free_spec pfnRetain _ _ _ _ _ _ _ Hok1 Ef) as (Hl&Hok2&Hs2&Hg2).
  rewrite Hlc in Hl. injection Hl as <- <-. exists t2. split; [done|]. split; [done|].
  rewrite Hix in Hg2. rewrite (proj2 (Z.eqb_neq _ _) Hne) in Hg2. cbn [negb andb] in Hg2.
  assert (Hix2 : ht_index t2 (u32 (i + ht_uBase t)) = i) by (destruct Hs2 as (Hb2&_); unfold ht_index; by rewrite Hb2).
  assert (Hg2i : ht_get t2 i = None) by (rewrite Hg2, Z.eqb_refl by lia; done).
  split. { unfold ht_retain in Er. repeat case_match; by simplify_eq. }
  split. { intros j Hj. rewrite Hg2, Hget by done. by destruct (Z.eqb_spec j i) as [->|]. }
  intros c s'. assert (Hmiss : RTHandleTableLookupWithCtx pfnRetain t2 (u32 (i + ht_uBase t)) c s' = (NULL, s'))
    by (rewrite lookup_spec, Hix2, Hg2i; done).
  split; [done|]. by apply free_miss.
Qed.

(** Destruction calls the delete callback exactly once for every handle in use, in
    ascending order, with its object and context, and frees every table and the structure. *)
Lemma handle_destroy_once {S} (pfnDelete : Z → ptr → ptr → S → S * list event) t (s : S) :
  ht_ok t →
  let '(s', ev) := delete_all pfnDelete (ht_live t) s in
  ∃ evs evf,
    RTHandleTableDestroy pfnDelete (Some t) s = (VINF_SUCCESS, s', evs ++ ev ++ evf)
    ∧ (evs = if negb (ht_hSpinlock t =? NIL_RTSPINLOCK) then [EvSpinlockDestroy (ht_hSpinlock t)] else [])
    ∧ (∀ k p tbl, ht_level1 t !! k = Some (Some (p, tbl)) → p ≠ NULL → EvMemFree p ∈ evf)
    ∧ last evf = Some (EvMemFree (ht_self t)).
Proof.
  intros [fl Hinv]. destruct (hv_len _ _ Hinv) as [Hlen _].
  pose proof (inv_cur_max _ _ Hinv) as Hmax. unfold NIL_RTHT_INDEX in Hmax.
  assert (Hal : ht_cCurAllocated t < 2 ^ 32) by (rewrite (hv_alloc _ _ Hinv); lia).
  unfold RTHandleTableDestroy. rewrite (hv_valid _ _ Hinv). cbn [negb].
  rewrite (take_ge (ht_level1 t)) by lia.
  rewrite destroy_level1_spec; [|by rewrite (level1_live_spec _ _ Hinv), (live_length _ _ Hinv)|done].
  rewrite (level1_live_spec _ _ Hinv).
  destruct (delete_all pfnDelete (ht_live t) s) as [s' ev]. eexists _, _. split; [reflexivity|].
  split; [done|]. split.
  - intros k p tbl Hk Hp. apply elem_of_app; left. apply list_elem_of_bind. exists (Some (p, tbl)).
    split; [|by eapply list_elem_of_lookup_2]. simpl. unfold ev_free.
    destruct (Z.eqb_spec p NULL); [done|]. left.
  - rewrite app_assoc. apply last_snoc.
Qed.

(** * Witnesses *)

(** The table of a session: base 1 and 32768 handles. *)
Definition demo_ht0 : RTHANDLETABLEINT :=
  mkHt 0xffff880000070000 RTHANDLETABLE_MAGIC 3 1 0 31 (0xffff880000070000 + 72) (replicate 16 None) false
    32768 0 16 NIL_RTHT_INDEX NIL_RTHT_INDEX.
Definition demo_env : AllocEnv := env_alone None (Some 0xffff880000080000).
Definition demo_ht1 : RTHANDLETABLEINT :=
  match RTHandleTableAllocWithCtx [demo_env] demo_ht0 0xffff880000090000 4 with
  | Some (_, _, t, _) => t
  | None => demo_ht0
  end.
Definition no_retain (pvObj pvCtx : ptr) (s : unit) : Z * unit := (VINF_SUCCESS, s).

Lemma demo_ht0_create :
  RTHandleTableCreateEx 3 1 32768 false (Some 0xffff880000070000) (VINF_SUCCESS, 31)
  = (VINF_SUCCESS, Some demo_ht0, []).
Proof. vm_compute. reflexivity. Qed.

Lemma demo_env_stable : env_stable demo_env.
Proof. split_and!; intros t Ht; (split; [done|apply same_table_refl]). Qed.

Lemma demo_ht0_reach : ht_reach no_retain demo_ht0.
Proof.
  exists 3, 1, 32768, false, 0xffff880000070000, (VINF_SUCCESS, 31), VINF_SUCCESS, demo_ht0, [].
  split; [lia|]. split; [lia|]. split; [reflexivity|]. split; [discriminate|].
  split; [apply demo_ht0_create|constructor].
Qed.

Lemma demo_ht0_ok : ht_ok demo_ht0.
Proof. apply (ht_reach_ok no_retain), demo_ht0_reach. Qed.

Lemma handle_table_invariant_witness :
  ∃ fl, ht_inv demo_ht1 fl ∧ ht_cCurAllocated demo_ht1 = 1 ∧ Z.of_nat (length fl) = 2047.
Proof.
  destruct (handle_table_invariant no_retain demo_ht1) as (fl&Hinv&_&Hlen).
  - destruct demo_ht0_reach as (fFlags&b&m&fr&p&sp&rc&t0&ev&H1&H2&H3&H4&H5&H6).
    exists fFlags, b, m, fr, p, sp, rc, t0, ev. repeat (split; [assumption|]). eapply rtc_r; [exact H6|].
    apply (step_alloc no_retain demo_ht0 [demo_env] 0xffff880000090000 4 VINF_SUCCESS (Some 1) demo_ht1 []).
    + constructor; [apply demo_env_stable|constructor].
    + vm_compute. reflexivity.
  - exists fl. split; [exact Hinv|]. assert (ht_cCurAllocated demo_ht1 = 1) as Ha by (vm_compute; reflexivity).
    assert (ht_cCur demo_ht1 = 2048) as Hc by (vm_compute; reflexivity). split; lia.
Defined.

Lemma handle_alloc_refines_witness :
  ∃ rc h t' ev, RTHandleTableAllocWithCtx [demo_env] demo_ht0 0xffff880000090000 4 = Some (rc, Some h, t', ev)
    ∧ rc = VINF_SUCCESS ∧ h = 1.
Proof.
  destruct (handle_alloc_refines demo_ht0 None (Some 0xffff880000080000) 0xffff880000090000 4)
    as (rc&h&t'&ev&H&_); [exact demo_ht0_ok|reflexivity|].
  exists rc, h, t', ev. split; [exact H|].
  assert (match RTHandleTableAllocWithCtx [demo_env] demo_ht0 0xffff880000090000 4 with
          | Some (rc, Some h, _, _) => rc = VINF_SUCCESS ∧ h = 1 | _ => False end) as Hv by (vm_compute; split; reflexivity).
  unfold demo_env in Hv. rewrite H in Hv. exact Hv.
Defined.

(** A table with a retain callback, which counts its calls and refuses the third. *)
Definition demo_htr0 : RTHANDLETABLEINT :=
  mkHt 0xffff880000070000 RTHANDLETABLE_MAGIC 3 1 0 31 (0xffff880000070000 + 72) (replicate 16 None) true
    32768 0 16 NIL_RTHT_INDEX NIL_RTHT_INDEX.
Definition count_retain (pvObj pvCtx : ptr) (n : Z) : Z * Z :=
  (if n <? 2 then VINF_SUCCESS else VERR_INVALID_PARAMETER, n + 1).
Definition demo_htr1 : RTHANDLETABLEINT :=
  match RTHandleTableAllocWithCtx [demo_env] demo_htr0 0xffff880000090000 4 with
  | Some (_, _, t, _) => t
  | None => demo_htr0
  end.

Lemma demo_htr0_ok : ht_ok demo_htr0.
Proof.
  apply (ht_reach_ok no_retain).
  exists 3, 1, 32768, true, 0xffff880000070000, (VINF_SUCCESS, 31), VINF_SUCCESS, demo_htr0, [].
  split; [lia|]. split; [lia|]. split; [reflexivity|]. split; [discriminate|].
  split; [vm_compute; reflexivity|constructor].
Qed.

Lemma handle_roundtrip_witness :
  RTHandleTableLookupWithCtx count_retain demo_htr1 1 4 1 = (0xffff880000090000, 2)
  ∧ RTHandleTableLookupWithCtx count_retain demo_htr1 1 5 1 = (NULL, 1)
  ∧ RTHandleTableLookupWithCtx count_retain demo_htr1 1 4 2 = (NULL, 3).
Proof.
  destruct (handle_roundtrip count_retain demo_htr0 None (Some 0xffff880000080000) 0xffff880000090000 4 1 demo_htr1 [] 1)
    as (H1&H2&_); [exact demo_htr0_ok|reflexivity|discriminate|vm_compute; reflexivity|].
  destruct (handle_roundtrip count_retain demo_htr0 None (Some 0xffff880000080000) 0xffff880000090000 4 1 demo_htr1 [] 2)
    as (H3&_); [exact demo_htr0_ok|reflexivity|discriminate|vm_compute; reflexivity|].
  split; [exact H1|]. split; [apply H2; discriminate|exact H3].
Defined.

Lemma demo_ht1_ok : ht_ok demo_ht1.
Proof.
  destruct (alloc_alone demo_ht0 None (Some 0xffff880000080000) 0xffff880000090000 4)
    as (rc&h&t'&ev&H&Hok&_); [exact demo_ht0_ok|reflexivity|].
  assert (demo_ht1 = t') as ->; [|done]. unfold demo_ht1, demo_env. by rewrite H.
Qed.

Lemma handle_destroy_once_witness :
  ∃ ev, RTHandleTableDestroy (λ h o c s, (s ++ [(h, o)], [])) (Some demo_ht1) []
        = (VINF_SUCCESS, [(1, 0xffff880000090000)], ev).
Proof.
  pose proof (handle_destroy_once (λ h o c s, (s ++ [(h, o)], [])) demo_ht1 [] demo_ht1_ok) as H.
  assert (ht_live demo_ht1 = [(1, (0xffff880000090000, 4))]) as Hl by (vm_compute; reflexivity).
  rewrite Hl in H. cbn [delete_all app] in H. destruct H as (evs&evf&H&_). eexists. exact H.
Defined.
