(* ===== verification/Sem.v ===== *)
(** Event semaphores: SUPDrvSem.c, on the object registry and the session's handle table.

    An event semaphore is an object whose [pvUser1] is the runtime's semaphore and whose
    handle is an entry of the session's handle table, with the kind as context; the entry
    holds one reference of the session.  The two kinds of the source are written once here,
    with the kind as [ctx].  The runtime's semaphores themselves are outside: what their
    functions return is an argument or in [SemApi], the calls are events. *)

From S2P Require Import Prelude SupTypes ObjReg HandleTab.
Local Open Scope Z_scope.

(** * Data *)

Definition SUPDRV_HANDLE_CTX_EVENT : Z := SUPDRVOBJTYPE_SEM_EVENT.
Definition SUPDRV_HANDLE_CTX_EVENT_MULTI : Z := SUPDRVOBJTYPE_SEM_EVENT_MULTI.
Definition NIL_SUPSEMEVENT : Z := 0.

Definition RTSEMWAIT_FLAGS_RELATIVE : Z := RT_BIT 0.
Definition RTSEMWAIT_FLAGS_ABSOLUTE : Z := RT_BIT 1.
Definition RTSEMWAIT_FLAGS_NANOSECS : Z := RT_BIT 2.
Definition RTSEMWAIT_FLAGS_MILLISECS : Z := RT_BIT 3.
Definition RTSEMWAIT_FLAGS_INDEFINITE : Z := RT_BIT 4.
Definition RTSEMWAIT_FLAGS_INTERRUPTIBLE : Z := RT_BIT 5.
Definition RTSEMWAIT_FLAGS_UNINTERRUPTIBLE : Z := RT_BIT 6.
Definition RT_INDEFINITE_WAIT : Z := 2 ^ 32 - 1.

(** The registry and the handle table of the session. *)
Abbreviation SemState := (ObjState * RTHANDLETABLEINT)%type.

(** What the runtime's functions return for a kind and a semaphore. *)
Record SemApi := mkSemApi {
  sa_Signal : Z → ptr → Z;
  sa_Reset : ptr → Z;
  sa_WaitEx : Z → ptr → Z → Z → Z;
}.

(** * The handle table's callbacks *)

(** [fNoBlocking] is set, so nothing is allocated and no other thread comes in between. *)
Definition supdrvSessionObjHandleRetain (pSession : SUPDRVSESSION) (pvObj pvCtx : ptr) (o : ObjState)
    : Z * ObjState :=
  SUPR0ObjAddRefEx o pvObj pSession true None id.

Definition supdrvSessionObjHandleDelete (pSession : SUPDRVSESSION) (h : Z) (pvObj pvCtx : ptr)
    (o : ObjState) : ObjState * list event :=
  let '(_, o, ev) := SUPR0ObjRelease o pvObj pSession in (o, ev).

(** * Operations *)

(** The destructor registered with a semaphore object. *)
Definition supR0SemEventDestructor (ctx : Z) (pvObj pvUser1 pvUser2 : ptr) : list event :=
  [EvSemDestroy ctx pvUser1].

(** [pfnDestructor]: the address of [supR0SemEventDestructor] or its multi variant; [rCreate]:
    status and handle of the runtime's semaphore; [rObj], [rUsage], [others]: as for
    [SUPR0ObjRegister]; [envs]: as for [RTHandleTableAllocWithCtx].  The results are the
    status, [*phEvent] when it is stored, the state and the calls. *)
Definition sem_create (ctx : Z) (pfnDestructor : ptr) (st : SemState) (pSession : SUPDRVSESSION)
    (phEvent : ptr) (rCreate : Z * Z) (rObj rUsage : option ptr) (others : ObjState → ObjState)
    (envs : list AllocEnv) : option (Z * option Z * SemState * list event) :=
  let '(o, t) := st in
  if negb (SUP_IS_SESSION_VALID pSession) then Some (VERR_INVALID_PARAMETER, None, st, [])
  else if negb (VALID_PTR phEvent) then Some (VERR_INVALID_POINTER, None, st, [])
  else
    let '(rc, hEventReal) := rCreate in
    if RT_SUCCESS rc then
      let '(pvObj, o, ev1) := SUPR0ObjRegister o pSession ctx pfnDestructor hEventReal NULL rObj rUsage others in
      if negb (pvObj =? NULL) then
        match RTHandleTableAllocWithCtx envs t pvObj ctx with
        | None => None
        | Some (rc, h32, t, ev2) =>
            if RT_SUCCESS rc then Some (VINF_SUCCESS, h32, (o, t), ev1 ++ ev2)
            else
              let '(_, o, ev3) := SUPR0ObjRelease o pvObj pSession in
              Some (rc, None, (o, t), ev1 ++ ev2 ++ ev3)
        end
      else (* rc is still that of the creation *)
        Some (rc, None, (o, t), ev1 ++ [EvSemDestroy ctx hEventReal])
    else Some (rc, None, st, []).

Definition sem_close (ctx : Z) (st : SemState) (pSession : SUPDRVSESSION) (hEvent : Z)
    : Z * SemState * list event :=
  let '(o, t) := st in
  if negb (SUP_IS_SESSION_VALID pSession) then (VERR_INVALID_PARAMETER, st, [])
  else if hEvent =? NIL_SUPSEMEVENT then (VINF_SUCCESS, st, [])
  else if negb (u32 hEvent =? hEvent) then (VERR_INVALID_HANDLE, st, [])
  else
    let '(pObj, t, o) := RTHandleTableFreeWithCtx (supdrvSessionObjHandleRetain pSession) t (u32 hEvent) ctx o in
    if pObj =? NULL then (VERR_INVALID_HANDLE, (o, t), [])
    else
      (* the reference of the release above, then that of the handle table *)
      let '(_, o, ev1) := SUPR0ObjRelease o pObj pSession in
      let '(rc, o, ev2) := SUPR0ObjRelease o pObj pSession in
      (rc, (o, t), ev1 ++ ev2).

(** The common shape of signal, reset and wait: [op] is the call on the semaphore, [others]
    what the other threads do while it lasts. *)
Definition sem_use (ctx : Z) (op : ptr → Z * event) (st : SemState) (pSession : SUPDRVSESSION)
    (hEvent : Z) (others : SemState → SemState) : Z * SemState * list event :=
  let '(o, t) := st in
  if negb (SUP_IS_SESSION_VALID pSession) then (VERR_INVALID_PARAMETER, st, [])
  else if negb (u32 hEvent =? hEvent) then (VERR_INVALID_HANDLE, st, [])
  else
    let '(pObj, o) := RTHandleTableLookupWithCtx (supdrvSessionObjHandleRetain pSession) t (u32 hEvent) ctx o in
    if pObj =? NULL then (VERR_INVALID_HANDLE, (o, t), [])
    else
      let '(rc, evop) := op (from_option obj_pvUser1 NULL (o_heap o !! pObj)) in
      let '(o, t) := others (o, t) in
      let '(_, o, ev) := SUPR0ObjRelease o pObj pSession in
      (rc, (o, t), evop :: ev).

Definition supR0SemEventWaitEx (api : SemApi) (ctx : Z) (st : SemState) (pSession : SUPDRVSESSION)
    (hEvent fFlags uTimeout : Z) (others : SemState → SemState) : Z * SemState * list event :=
  sem_use ctx (λ h, (sa_WaitEx api ctx h fFlags uTimeout, EvSemWait ctx h fFlags uTimeout))
    st pSession hEvent others.

Definition wait_ms_flags (fInterruptible cMillies : Z) : Z :=
  let fFlags := Z.lor (Z.lor RTSEMWAIT_FLAGS_RELATIVE RTSEMWAIT_FLAGS_MILLISECS) fInterruptible in
  if cMillies =? RT_INDEFINITE_WAIT then Z.lor fFlags RTSEMWAIT_FLAGS_INDEFINITE else fFlags.

(** ** The functions of the two kinds *)

Definition SUPSemEventCreate := sem_create SUPDRV_HANDLE_CTX_EVENT.
Definition SUPSemEventMultiCreate := sem_create SUPDRV_HANDLE_CTX_EVENT_MULTI.
Definition SUPSemEventClose := sem_close SUPDRV_HANDLE_CTX_EVENT.
Definition SUPSemEventMultiClose := sem_close SUPDRV_HANDLE_CTX_EVENT_MULTI.

Definition SUPSemEventSignal (api : SemApi) :=
  let ctx := SUPDRV_HANDLE_CTX_EVENT in sem_use ctx (λ h, (sa_Signal api ctx h, EvSemSignal ctx h)).
Definition SUPSemEventMultiSignal (api : SemApi) :=
  let ctx := SUPDRV_HANDLE_CTX_EVENT_MULTI in sem_use ctx (λ h, (sa_Signal api ctx h, EvSemSignal ctx h)).
Definition SUPSemEventMultiReset (api : SemApi) :=
  let ctx := SUPDRV_HANDLE_CTX_EVENT_MULTI in sem_use ctx (λ h, (sa_Reset api h, EvSemReset ctx h)).

Definition SUPSemEventWait (api : SemApi) (st : SemState) (pSession : SUPDRVSESSION) (hEvent cMillies : Z) :=
  supR0SemEventWaitEx api SUPDRV_HANDLE_CTX_EVENT st pSession hEvent
    (wait_ms_flags RTSEMWAIT_FLAGS_UNINTERRUPTIBLE cMillies) cMillies.
Definition SUPSemEventMultiWait (api : SemApi) (st : SemState) (pSession : SUPDRVSESSION) (hEvent cMillies : Z) :=
  supR0SemEventWaitEx api SUPDRV_HANDLE_CTX_EVENT_MULTI st pSession hEvent
    (wait_ms_flags RTSEMWAIT_FLAGS_UNINTERRUPTIBLE cMillies) cMillies.

Definition SUPSemEventWaitNoResume (api : SemApi) (st : SemState) (pSession : SUPDRVSESSION) (hEvent cMillies : Z) :=
  supR0SemEventWaitEx api SUPDRV_HANDLE_CTX_EVENT st pSession hEvent
    (wait_ms_flags RTSEMWAIT_FLAGS_INTERRUPTIBLE cMillies) cMillies.
Definition SUPSemEventMultiWaitNoResume (api : SemApi) (st : SemState) (pSession : SUPDRVSESSION) (hEvent cMillies : Z) :=
  supR0SemEventWaitEx api SUPDRV_HANDLE_CTX_EVENT_MULTI st pSession hEvent
    (wait_ms_flags RTSEMWAIT_FLAGS_INTERRUPTIBLE cMillies) cMillies.

Definition wait_ns_flags (fRelAbs : Z) : Z :=
  Z.lor (Z.lor fRelAbs RTSEMWAIT_FLAGS_NANOSECS) RTSEMWAIT_FLAGS_INTERRUPTIBLE.

Definition SUPSemEventWaitNsAbsIntr (api : SemApi) (st : SemState) (pSession : SUPDRVSESSION) (hEvent uNsTimeout : Z) :=
  supR0SemEventWaitEx api SUPDRV_HANDLE_CTX_EVENT st pSession hEvent (wait_ns_flags RTSEMWAIT_FLAGS_ABSOLUTE) uNsTimeout.
Definition SUPSemEventMultiWaitNsAbsIntr (api : SemApi) (st : SemState) (pSession : SUPDRVSESSION) (hEvent uNsTimeout : Z) :=
  supR0SemEventWaitEx api SUPDRV_HANDLE_CTX_EVENT_MULTI st pSession hEvent (wait_ns_flags RTSEMWAIT_FLAGS_ABSOLUTE) uNsTimeout.
Definition SUPSemEventWaitNsRelIntr (api : SemApi) (st : SemState) (pSession : SUPDRVSESSION) (hEvent cNsTimeout : Z) :=
  supR0SemEventWaitEx api SUPDRV_HANDLE_CTX_EVENT st pSession hEvent (wait_ns_flags RTSEMWAIT_FLAGS_RELATIVE) cNsTimeout.
Definition SUPSemEventMultiWaitNsRelIntr (api : SemApi) (st : SemState) (pSession : SUPDRVSESSION) (hEvent cNsTimeout : Z) :=
  supR0SemEventWaitEx api SUPDRV_HANDLE_CTX_EVENT_MULTI st pSession hEvent (wait_ns_flags RTSEMWAIT_FLAGS_RELATIVE) cNsTimeout.

(** * Specification *)

(** The table as a finite map. *)
Definition ht_map (t : RTHANDLETABLEINT) : gmap Z (Z * Z) :=
  list_to_map (omap (λ i, (λ p, (i, p)) <$> ht_get t i) (seqZ 0 (ht_cCur t))).

(** How many handles name the object at [p]. *)
Definition ht_refs (t : RTHANDLETABLEINT) (p : ptr) : Z :=
  gsum (λ x, if x.1 =? p then 1 else 0) (ht_map t).

(** A handle's object is live, of the kind of the handle. *)
Definition handle_obj_ok (o : ObjState) (p ctx : Z) : Prop :=
  VALID_PTR p = true ∧ RTHT_IS_FREE p = false
  ∧ ∃ ob, o_heap o !! p = Some ob ∧ obj_u32Magic ob = SUPDRVOBJ_MAGIC ∧ obj_enmType ob = ctx.

(** The registry and the table are well-formed, every handle names a live object, and the
    session holds at least one reference for every handle. *)
Record sem_inv (st : SemState) (s : ptr) : Prop := {
  si_obj : obj_inv (fst st);
  si_ht : ht_ok (snd st);
  si_retain : ht_pfnRetain (snd st) = true;
  si_base : ht_uBase (snd st) = 1;
  si_live i p ctx : 0 ≤ i → ht_get (snd st) i = Some (p, ctx) → handle_obj_ok (fst st) p ctx;
  si_refs p : ht_refs (snd st) p ≤ sess_refs (fst st) s p;
}.

(** The members of an object that registration fixes. *)
Definition obj_ident (ob : SUPDRVOBJ) : Z * ptr * ptr * ptr :=
  (obj_enmType ob, obj_pfnDestructor ob, obj_pvUser1 ob, obj_pvUser2 ob).

Definition same_idents (o o' : ObjState) : Prop :=
  ∀ q, obj_ident <$> o_heap o' !! q = obj_ident <$> o_heap o !! q.

(** * The table as a map *)

Lemma ht_map_lookup_range t i : ∀ n a, 0 ≤ n →
  (list_to_map (omap (λ i, (λ p, (i, p)) <$> ht_get t i) (seqZ a n)) : gmap Z (Z * Z)) !! i
  = if (a <=? i) && (i <? a + n) then ht_get t i else None.
Proof.
  intros n a Hn. revert a. pattern n. apply natlike_ind; [| |done].
  { intros a. simpl. destruct (Z.leb_spec a i), (Z.ltb_spec i (a + 0)); simpl; try lia; by rewrite lookup_empty. }
  intros x Hx IH a. rewrite seqZ_cons by lia. replace (Z.pred (Z.succ x)) with x by lia.
  specialize (IH (Z.succ a)). simpl. unfold omap in IH.
  assert (Hr : i ≠ a → (Z.succ a <=? i) && (i <? Z.succ a + x) = (a <=? i) && (i <? a + Z.succ x)).
  { intros. destruct (Z.leb_spec (Z.succ a) i), (Z.leb_spec a i), (Z.ltb_spec i (Z.succ a + x)),
      (Z.ltb_spec i (a + Z.succ x)); simpl; lia || done. }
  destruct (decide (i = a)) as [->|Hne].
  - rewrite Z.leb_refl. destruct (Z.ltb_spec a (a + Z.succ x)); [|lia]. simpl.
    destruct (ht_get t a) as [p|]; simpl; [by rewrite lookup_insert_eq|].
    rewrite IH. by destruct (Z.leb_spec (Z.succ a) a); [lia|].
  - destruct (ht_get t a) as [p|]; simpl; [rewrite lookup_insert_ne by done|]; by rewrite IH, Hr.
Qed.

Lemma ht_map_lookup t i : ht_ok t → ht_map t !! i = if 0 <=? i then ht_get t i else None.
Proof.
  intros [fl Hinv]. pose proof (inv_cur_max _ _ Hinv) as Hm. unfold ht_map.
  rewrite ht_map_lookup_range by lia.
  destruct (Z.leb_spec 0 i), (Z.ltb_spec i (0 + ht_cCur t)); simpl; try done.
  unfold ht_get. by rewrite ent_out by lia.
Qed.

Lemma ht_map_insert t t' i x :
  ht_ok t → ht_ok t' → 0 ≤ i →
  (∀ j, 0 ≤ j → ht_get t' j = if j =? i then Some x else ht_get t j) → ht_map t' = <[i := x]> (ht_map t).
Proof.
  intros Hok Hok' Hi Hg. apply map_eq. intros j. rewrite ht_map_lookup by done.
  destruct (Z.leb_spec 0 j).
  - rewrite Hg by done. destruct (Z.eqb_spec j i) as [->|]; [by rewrite lookup_insert_eq|].
    rewrite lookup_insert_ne, ht_map_lookup by done. by destruct (Z.leb_spec 0 j); [|lia].
  - rewrite lookup_insert_ne, ht_map_lookup by (done || lia). by destruct (Z.leb_spec 0 j); [lia|].
Qed.

Lemma ht_map_delete t t' i :
  ht_ok t → ht_ok t' → 0 ≤ i →
  (∀ j, 0 ≤ j → ht_get t' j = if j =? i then None else ht_get t j) → ht_map t' = delete i (ht_map t).
Proof.
  intros Hok Hok' Hi Hg. apply map_eq. intros j. rewrite ht_map_lookup by done.
  destruct (Z.leb_spec 0 j).
  - rewrite Hg by done. destruct (Z.eqb_spec j i) as [->|]; [by rewrite lookup_delete_eq|].
    rewrite lookup_delete_ne, ht_map_lookup by done. by destruct (Z.leb_spec 0 j); [|lia].
  - rewrite lookup_delete_ne, ht_map_lookup by (done || lia). by destruct (Z.leb_spec 0 j); [lia|].
Qed.

Lemma ht_map_same t t' :
  ht_ok t → ht_ok t' → (∀ j, 0 ≤ j → ht_get t' j = ht_get t j) → ht_map t' = ht_map t.
Proof.
  intros Hok Hok' Hg. apply map_eq. intros j. rewrite !ht_map_lookup by done.
  destruct (Z.leb_spec 0 j); [by apply Hg|done].
Qed.

Lemma ht_refs_insert t t' i p c q :
  ht_ok t → ht_ok t' → 0 ≤ i → ht_get t i = None →
  (∀ j, 0 ≤ j → ht_get t' j = if j =? i then Some (p, c) else ht_get t j) →
  ht_refs t' q = ht_refs t q + if p =? q then 1 else 0.
Proof.
  intros Hok Hok' Hi Hn Hg. unfold ht_refs. rewrite (ht_map_insert t t' i (p, c)) by done.
  rewrite gsum_insert_new; [simpl; lia|]. rewrite ht_map_lookup by done. by destruct (0 <=? i).
Qed.

Lemma ht_refs_delete t t' i p c q :
  ht_ok t → ht_ok t' → 0 ≤ i → ht_get t i = Some (p, c) →
  (∀ j, 0 ≤ j → ht_get t' j = if j =? i then None else ht_get t j) →
  ht_refs t' q = ht_refs t q - if p =? q then 1 else 0.
Proof.
  intros Hok Hok' Hi Hs Hg. unfold ht_refs. rewrite (ht_map_delete t t' i) by done.
  rewrite (gsum_delete _ (ht_map t) i (p, c)); [simpl; lia|].
  rewrite ht_map_lookup by done. by destruct (Z.leb_spec 0 i); [|lia].
Qed.

Lemma ht_refs_pos t i p c : ht_ok t → 0 ≤ i → ht_get t i = Some (p, c) → 1 ≤ ht_refs t p.
Proof.
  intros Hok Hi Hg. unfold ht_refs.
  pose proof (gsum_elem (λ x : Z * Z, if x.1 =? p then 1 else 0) (ht_map t) i (p, c)) as H.
  simpl in H. rewrite Z.eqb_refl in H. apply H.
  - intros k x _. by destruct (_ =? _).
  - rewrite ht_map_lookup by done. by destruct (Z.leb_spec 0 i); [|lia].
Qed.

Lemma ht_refs_nonneg t p : 0 ≤ ht_refs t p.
Proof. apply gsum_nonneg. intros k x _. by destruct (_ =? _). Qed.

(** * Retaining and releasing *)

Lemma same_idents_trans o1 o2 o3 : same_idents o1 o2 → same_idents o2 o3 → same_idents o1 o3.
Proof. intros H1 H2 q. by rewrite H2, H1. Qed.

Lemma alter_ident f p (h : gmap Z SUPDRVOBJ) q :
  (∀ ob, obj_ident (f ob) = obj_ident ob) → obj_ident <$> alter f p h !! q = obj_ident <$> h !! q.
Proof.
  intros Hf. destruct (decide (q = p)) as [->|].
  - rewrite lookup_alter_eq. destruct (h !! p); simpl; [by rewrite Hf|done].
  - by rewrite lookup_alter_ne.
Qed.

Lemma release_locked_ident o p ses rc o' : ObjRelease_locked o p ses = (rc, o') → same_idents o o'.
Proof.
  unfold ObjRelease_locked. intros H q. repeat case_match; simplify_eq; simpl; try done; by apply alter_ident.
Qed.

Lemma addref_ident o p ses fNoBlocking rUsage rc o' :
  SUPR0ObjAddRefEx o p ses fNoBlocking rUsage id = (rc, o') → same_idents o o'.
Proof.
  unfold SUPR0ObjAddRefEx, ObjAddRef_commit. intros H q.
  repeat case_match; simplify_eq; simpl; try done; by rewrite !alter_ident.
Qed.

(** A live object the session holds is retained, and releasing it again undoes that
    exactly. *)
Lemma retain_release o p ses :
  obj_inv o → SUP_IS_SESSION_VALID ses = true → VALID_PTR p = true → obj_magic o p = SUPDRVOBJ_MAGIC →
  1 ≤ sess_refs o (s_self ses) p → total o p + 1 < 2 ^ 32 →
  ∃ o1, SUPR0ObjAddRefEx o p ses true None id = (VINF_SUCCESS, o1)
    ∧ obj_inv o1 ∧ total o1 p = total o p + 1 ∧ same_idents o o1
    ∧ (∀ s q, sess_refs o1 s q = bump (sess_refs o) (s_self ses) p 1 s q)
    ∧ SUPR0ObjRelease o1 p ses = (VINF_SUCCESS, o, []).
Proof.
  intros Hinv Hses Hv Hm Hr Ht. set (s := s_self ses) in *.
  destruct (find_split (λ u, us_pObj u =? p) (sess_usage o s)) as [[[pr u] post]|] eqn:F.
  2:{ destruct (inv_find_None o _ _ F) as [Hz _]. lia. }
  destruct (inv_find o Hinv _ _ _ _ _ F) as (Hl&Hu&Hru&Hu1&_).
  set (l := pr ++ set_usUsage (u32 (us_cUsage u + 1)) u :: post).
  assert (E : SUPR0ObjAddRefEx o p ses true None id = (VINF_SUCCESS, move_refs o s p l (pUsageFree o) 1)).
  { unfold SUPR0ObjAddRefEx. rewrite Hses, Hv, Hm. simpl. destruct (pUsageFree o) as [|a free] eqn:Ef.
    - rewrite (commit_found _ _ _ _ _ _ _ F). simpl. by rewrite Ef.
    - by rewrite (commit_found (set_pUsageFree free o) _ _ _ _ _ _ F). }
  eexists. split; [exact E|].
  pose proof E as Hspec. eapply addref_spec in Hspec; [|done|done|done|done].
  destruct Hspec as (Hinv1&[(_&_&_&Hb)|(Hf&_)]); [|done].
  (* the release finds the record with the count raised *)
  pose proof (sess_refs_le_total o Hinv s p) as Hle.
  assert (Hc1 : u32 (us_cUsage u + 1) = us_cUsage u + 1) by (rewrite u32_small; lia).
  destruct (obj_magic_lookup _ _ Hm) as (ob&Hob&Hmob).
  destruct (oi_obj _ Hinv p ob Hob) as [(_&Hcu&Hcb)|[Hd _]]; [|by rewrite Hmob in Hd].
  assert (Hob1 : o_heap (move_refs o s p l (pUsageFree o) 1) !! p = Some (set_objUsage (u32 (obj_cUsage ob + 1)) ob))
    by (unfold move_refs; simpl; by rewrite lookup_alter_eq, Hob).
  split; [done|]. split.
  { destruct (oi_obj _ Hinv1 p _ Hob1) as [(_&Hc&_)|[Hd _]]; simpl in *; [|by rewrite Hmob in Hd].
    rewrite <- Hc, u32_small; lia. }
  split; [intros q; by apply alter_ident|]. split; [done|].
  assert (Hm1 : obj_magic (move_refs o s p l (pUsageFree o) 1) p = SUPDRVOBJ_MAGIC).
  { unfold obj_magic, move_refs. simpl. by rewrite lookup_alter_eq, Hob. }
  unfold SUPR0ObjRelease. rewrite Hses, Hv, Hm1. simpl. unfold ObjRelease_locked. fold s.
  assert (Hsu : sess_usage (move_refs o s p l (pUsageFree o) 1) s = l).
  { unfold sess_usage. simpl. by rewrite lookup_insert_eq. }
  assert (Hfs : find_split (λ u, us_pObj u =? p) l = Some (pr, set_usUsage (u32 (us_cUsage u + 1)) u, post)).
  { apply find_split_Some in F as (_&Hfu&Hpre). by apply find_split_Some. }
  rewrite Hsu, Hfs. simpl. rewrite Hc1. destruct (Z.ltb_spec 1 (us_cUsage u + 1)); [|lia]. simpl.
  f_equal. f_equal. destruct o as [h os fr us]. unfold move_refs, set_pUsage, upd_obj, set_heap. simpl. f_equal.
  - apply map_eq. intros q. destruct (decide (q = p)) as [->|]; [|by rewrite !lookup_alter_ne].
    simpl in Hob. rewrite !lookup_alter_eq, Hob. simpl. f_equal.
    assert (u32 (u32 (obj_cUsage ob + 1) - 1) = obj_cUsage ob) as Hback
      by (rewrite (u32_small (obj_cUsage ob + 1)) by lia; rewrite u32_small; lia).
    unfold set_objUsage in *. simpl. rewrite Hback. by destruct ob.
  - rewrite insert_insert_eq. apply insert_id. unfold sess_usage in Hl. simpl in Hl.
    destruct (us !! s) as [l0|] eqn:El; simpl in Hl; [|by destruct pr].
    rewrite Hl. do 3 f_equal. unfold set_usUsage. simpl.
    replace (u32 (us_cUsage u + 1 - 1)) with (us_cUsage u) by (rewrite u32_small; lia). by destruct u.
Qed.

(** * The operations on the invariant *)

(** The object a handle of the kind names. *)
Definition named (t : RTHANDLETABLEINT) (ctx hEvent : Z) : option ptr :=
  if u32 hEvent =? hEvent then
    match ht_get t (ht_index t (u32 hEvent)) with
    | Some (p, c) => if c =? ctx then Some p else None
    | None => None
    end
  else None.

Lemma named_get t ctx hEvent p :
  named t ctx hEvent = Some p → ht_get t (ht_index t (u32 hEvent)) = Some (p, ctx).
Proof.
  unfold named. intros H. destruct (_ =? hEvent); [|done]. destruct (ht_get t _) as [[q c]|]; [|done].
  destruct (c =? ctx) eqn:E; [|done]. apply Z.eqb_eq in E. by simplify_eq.
Qed.

Lemma sem_inv_live st s i p ctx :
  sem_inv st s → 0 ≤ i → ht_get (snd st) i = Some (p, ctx) →
  handle_obj_ok (fst st) p ctx ∧ obj_magic (fst st) p = SUPDRVOBJ_MAGIC ∧ 1 ≤ sess_refs (fst st) s p.
Proof.
  intros Hinv Hi Hg. pose proof (si_live _ _ Hinv i p ctx Hi Hg) as Hok. split; [done|].
  destruct Hok as (_&_&ob&Hob&Hm&_). split; [unfold obj_magic; by rewrite Hob|].
  pose proof (ht_refs_pos _ _ _ _ (si_ht _ _ Hinv) Hi Hg). pose proof (si_refs _ _ Hinv p). lia.
Qed.

Lemma handle_obj_ok_same o o' p ctx :
  same_idents o o' → obj_magic o' p = SUPDRVOBJ_MAGIC → handle_obj_ok o p ctx → handle_obj_ok o' p ctx.
Proof.
  intros Hs Hm (Hv&Hf&ob&Hob&_&Ht). split; [done|]. split; [done|].
  destruct (obj_magic_lookup _ _ Hm) as (ob'&Hob'&Hm'). exists ob'. split; [done|]. split; [done|].
  specialize (Hs p). rewrite Hob, Hob' in Hs. unfold obj_ident in Hs. simpl in Hs. by simplify_eq.
Qed.

Lemma valid_ptr_nonnull p : VALID_PTR p = true → (p =? NULL) = false.
Proof. intros H. destruct (Z.eqb_spec p NULL) as [->|]; done. Qed.

(** What the lookup of a handle retains. *)
Lemma retain_named o (t : RTHANDLETABLEINT) ses ctx hEvent :
  sem_inv (o, t) (s_self ses) → SUP_IS_SESSION_VALID ses = true → u32 hEvent = hEvent →
  (∀ p, named t ctx hEvent = Some p → total o p + 1 < 2 ^ 32) →
  match named t ctx hEvent with
  | Some p =>
      ∃ o1, RTHandleTableLookupWithCtx (supdrvSessionObjHandleRetain ses) t (u32 hEvent) ctx o = (p, o1)
        ∧ (p =? NULL) = false ∧ obj_inv o1 ∧ same_idents o o1 ∧ total o1 p = total o p + 1
        ∧ obj_magic o p = SUPDRVOBJ_MAGIC ∧ handle_obj_ok o p ctx
        ∧ (∀ s q, sess_refs o1 s q = bump (sess_refs o) (s_self ses) p 1 s q)
        ∧ SUPR0ObjRelease o1 p ses = (VINF_SUCCESS, o, [])
  | None => RTHandleTableLookupWithCtx (supdrvSessionObjHandleRetain ses) t (u32 hEvent) ctx o = (NULL, o)
  end.
Proof.
  intros Hinv Hses Hh Ht. pose proof (si_ht _ _ Hinv) as Hok. simpl in Hok. unfold named.
  unfold named in Ht. rewrite (proj2 (Z.eqb_eq _ _) Hh) in *. rewrite lookup_spec by done.
  destruct (ht_get t (ht_index t (u32 hEvent))) as [[p c]|] eqn:Eg; [|done].
  destruct (Z.eqb_spec c ctx) as [->|]; [|done]. specialize (Ht p eq_refl).
  destruct (sem_inv_live (o, t) (s_self ses) (ht_index t (u32 hEvent)) p ctx Hinv) as (Hobj&Hm&Hr);
    [apply u32_range|done|]. simpl in Hobj, Hm, Hr.
  destruct Hobj as (Hv&Hf&Hobj). unfold ht_retain. pose proof (si_retain _ _ Hinv) as Hret. simpl in Hret.
  rewrite Hret. unfold supdrvSessionObjHandleRetain.
  destruct (retain_release o p ses (si_obj _ _ Hinv) Hses Hv Hm Hr Ht) as (o1&->&?&?&?&?&?).
  exists o1. simpl. split_and!; try done. by apply valid_ptr_nonnull.
Qed.

(** Using a semaphore while no other thread runs: the state is as before. *)
Lemma use_spec ctx op o (t : RTHANDLETABLEINT) ses hEvent :
  sem_inv (o, t) (s_self ses) → SUP_IS_SESSION_VALID ses = true →
  (∀ p, named t ctx hEvent = Some p → total o p + 1 < 2 ^ 32) →
  sem_use ctx op (o, t) ses hEvent id
  = match named t ctx hEvent with
    | Some p => let '(rc, ev) := op (from_option obj_pvUser1 NULL (o_heap o !! p)) in (rc, (o, t), [ev])
    | None => (VERR_INVALID_HANDLE, (o, t), [])
    end.
Proof.
  intros Hinv Hses Ht. unfold sem_use. rewrite Hses. cbn [negb].
  destruct (Z.eqb_spec (u32 hEvent) hEvent) as [Hh|Hh]; cbn [negb].
  2:{ unfold named. by rewrite (proj2 (Z.eqb_neq _ _) Hh). }
  pose proof (retain_named o t ses ctx hEvent Hinv Hses Hh Ht) as H.
  destruct (named t ctx hEvent) as [p|]; [|by rewrite H].
  destruct H as (o1&->&->&_&Hid&_&_&_&_&Hrel).
  assert (Hu : from_option obj_pvUser1 NULL (o_heap o1 !! p) = from_option obj_pvUser1 NULL (o_heap o !! p)).
  { specialize (Hid p). destruct (o_heap o1 !! p), (o_heap o !! p); simplify_eq/=; [|done].
    unfold obj_ident in *. by simplify_eq. }
  rewrite Hu. destruct (op _) as [rc ev]. cbn [id]. by rewrite Hrel.
Qed.

(** A release changes no object but for removing it. *)
Lemma release_ident o p ses rc o' ev q ob ob' :
  SUPR0ObjRelease o p ses = (rc, o', ev) → o_heap o !! q = Some ob → o_heap o' !! q = Some ob' →
  obj_ident ob' = obj_ident ob.
Proof.
  intros H Hob Hob'. assert (Hi : obj_ident <$> o_heap o' !! q = obj_ident <$> o_heap o !! q).
  2:{ rewrite Hob, Hob' in Hi. by apply (inj Some) in Hi. }
  unfold SUPR0ObjRelease in H. destruct (negb (SUP_IS_SESSION_VALID ses)); [by simplify_eq|].
  destruct (negb _); [by simplify_eq|].
  destruct (ObjRelease_locked o p ses) as [rc1 o1] eqn:El. apply release_locked_ident in El.
  destruct (rc1 =? VINF_OBJECT_DESTROYED); [|by simplify_eq].
  unfold ObjDestroy in H. destruct (o_heap o1 !! p) eqn:Ep; injection H as <- <- <-; [|done].
  simpl in *. rewrite lookup_delete_ne; [done|]. intros ->. by rewrite lookup_delete_eq in Hob'.
Qed.

(** One release of a reference behind a handle, as the invariant sees it. *)
Lemma release_inv o ses p rc o' ev :
  obj_inv o → SUP_IS_SESSION_VALID ses = true → VALID_PTR p = true → obj_magic o p = SUPDRVOBJ_MAGIC →
  0 < sess_refs o (s_self ses) p →
  SUPR0ObjRelease o p ses = (rc, o', ev) →
  obj_inv o' ∧ (∀ s q, sess_refs o' s q = bump (sess_refs o) (s_self ses) p (-1) s q)
  ∧ (∀ q c, 0 < sess_refs o' (s_self ses) q → handle_obj_ok o q c → handle_obj_ok o' q c)
  ∧ ((1 < total o p ∧ rc = VINF_SUCCESS ∧ ev = [])
     ∨ (total o p = 1 ∧ rc = VINF_OBJECT_DESTROYED ∧ o_heap o' = delete p (o_heap o)
        ∧ ∃ ob, o_heap o !! p = Some ob ∧ ev = destroy_events p ob)).
Proof.
  intros Hinv Hses Hv Hm Hr H.
  pose proof (release_cases o ses p rc o' ev Hinv Hses Hv Hm H) as [(?&_)|(_&Hinv'&Hb&Hc)]; [lia|].
  split; [done|]. split; [done|]. split.
  2:{ destruct Hc as [(?&->&->&_)|(?&->&Hh&_&Hev)]; [by left|by right]. }
  intros q c Hq (Hvq&Hfq&ob&Hob&Hmob&Hty).
  pose proof (sess_refs_le_total o' Hinv' (s_self ses) q) as Hle.
  destruct (o_heap o' !! q) as [ob'|] eqn:Hob'; [|pose proof (inv_no_refs o' Hinv' q Hob'); lia].
  assert (Hm' : obj_u32Magic ob' = SUPDRVOBJ_MAGIC)
    by (destruct (oi_obj _ Hinv' q ob' Hob') as [[? _]|[_ Hz]]; [done|lia]).
  pose proof (release_ident _ _ _ _ _ _ _ _ _ H Hob Hob') as Hid. unfold obj_ident in Hid.
  split; [done|]. split; [done|]. exists ob'. split; [done|]. split; [done|]. by simplify_eq.
Qed.

(** Closing: the handle goes and the reference it held goes with it. *)
Lemma close_spec ctx o (t : RTHANDLETABLEINT) ses hEvent rc o' t' ev :
  sem_inv (o, t) (s_self ses) → SUP_IS_SESSION_VALID ses = true →
  (∀ p, named t ctx hEvent = Some p → total o p + 1 < 2 ^ 32) →
  hEvent ≠ NIL_SUPSEMEVENT →
  sem_close ctx (o, t) ses hEvent = (rc, (o', t'), ev) →
  match named t ctx hEvent with
  | Some p =>
      sem_inv (o', t') (s_self ses)
      ∧ (∀ j, 0 ≤ j → ht_get t' j = if j =? ht_index t (u32 hEvent) then None else ht_get t j)
      ∧ same_table t t'
      ∧ (∀ q ob ob', o_heap o !! q = Some ob → o_heap o' !! q = Some ob' → obj_ident ob' = obj_ident ob)
      ∧ (∀ s q, sess_refs o' s q = bump (sess_refs o) (s_self ses) p (-1) s q)
      ∧ ((1 < total o p ∧ rc = VINF_SUCCESS ∧ ev = [])
         ∨ (total o p = 1 ∧ rc = VINF_OBJECT_DESTROYED ∧ o_heap o' = delete p (o_heap o)
            ∧ ∃ ob, o_heap o !! p = Some ob ∧ ev = destroy_events p ob))
  | None => rc = VERR_INVALID_HANDLE ∧ o' = o ∧ t' = t ∧ ev = []
  end.
Proof.
  intros Hinv Hses Ht Hnil H. unfold sem_close in H. rewrite Hses in H. cbn [negb] in H.
  rewrite (proj2 (Z.eqb_neq _ _) Hnil) in H.
  destruct (Z.eqb_spec (u32 hEvent) hEvent) as [Hh|Hh]; cbn [negb] in H.
  2:{ unfold named. rewrite (proj2 (Z.eqb_neq _ _) Hh). by simplify_eq. }
  pose proof (retain_named o t ses ctx hEvent Hinv Hses Hh Ht) as Hret.
  destruct (named t ctx hEvent) as [p|] eqn:En.
  2:{ rewrite (free_miss _ _ _ _ _ _ Hret) in H. by simplify_eq/=. }
  destruct Hret as (o1&Hlk&Hnn&_&_&_&Hm&(Hv&_)&_&Hrel).
  destruct (RTHandleTableFreeWithCtx (supdrvSessionObjHandleRetain ses) t (u32 hEvent) ctx o) as [[p0 t1] o2] eqn:Ef.
  pose proof (si_ht _ _ Hinv) as Hok. simpl in Hok.
  destruct (free_spec _ _ _ _ _ _ _ _ Hok Ef) as (Hlk'&Hok1&Hs1&Hg1).
  rewrite Hlk in Hlk'. injection Hlk' as <- <-. rewrite Hnn in H, Hg1. cbn [negb andb] in H, Hg1. rewrite Hrel in H.
  destruct (SUPR0ObjRelease o p ses) as [[rc2 o2] ev2] eqn:E2. injection H as <- <- <- <-.
  apply named_get in En as Hg.
  pose proof (u32_range (u32 hEvent - ht_uBase t)) as Hi. fold (ht_index t (u32 hEvent)) in Hi.
  destruct (sem_inv_live (o, t) _ _ p ctx Hinv (proj1 Hi) Hg) as (_&_&Hr). simpl in Hr.
  destruct (release_inv o ses p rc2 o2 ev2 (si_obj _ _ Hinv) Hses Hv Hm ltac:(lia) E2) as (Hinv2&Hb&Hkeep&Hc).
  pose proof (λ q, ht_refs_delete t t1 _ p ctx q Hok Hok1 (proj1 Hi) Hg Hg1) as Hrd.
  assert (Hrefs : ∀ q, ht_refs t1 q ≤ sess_refs o2 (s_self ses) q).
  { intros q. rewrite Hrd, Hb. pose proof (si_refs _ _ Hinv q) as Hq. simpl in Hq. unfold bump.
    destruct (Z.eqb_spec p q), (decide (s_self ses = s_self ses ∧ q = p)) as [[_ ?]|Hn]; lia. }
  split; [|split_and!; try done; intros q ob ob'; by eapply release_ident].
  split; simpl; try done.
  - destruct Hs1 as (_&_&->&_). apply (si_retain _ _ Hinv).
  - destruct Hs1 as (->&_). apply (si_base _ _ Hinv).
  - intros i q c Hi0 Hgi. pose proof (ht_refs_pos _ _ _ _ Hok1 Hi0 Hgi). pose proof (Hrefs q).
    apply Hkeep; [lia|]. rewrite Hg1 in Hgi by done. destruct (i =? _); [done|].
    by apply (si_live _ _ Hinv i).
Qed.

(** What happens to the registry keeps the invariant when the session keeps a reference for
    every handle. *)
Lemma sem_inv_registry o o' (t : RTHANDLETABLEINT) s :
  sem_inv (o, t) s → obj_inv o' → (∀ q, ht_refs t q ≤ sess_refs o' s q) →
  (∀ q ob ob', o_heap o !! q = Some ob → o_heap o' !! q = Some ob' → obj_enmType ob' = obj_enmType ob) →
  sem_inv (o', t) s.
Proof.
  intros Hinv Hinv' Hle Hid. split; simpl; try done; try apply Hinv.
  - intros i p ctx Hi Hg. destruct (sem_inv_live (o, t) s i p ctx Hinv Hi Hg) as ((Hv&Hf&ob&Hob&_&Hty)&_&_).
    pose proof (ht_refs_pos _ _ _ _ (si_ht _ _ Hinv) Hi Hg). simpl in *. pose proof (Hle p). pose proof (sess_refs_le_total o' Hinv' s p).
    destruct (o_heap o' !! p) as [ob'|] eqn:Hob'; [|pose proof (inv_no_refs o' Hinv' p Hob'); lia].
    specialize (Hid p ob ob' Hob Hob').
    split; [done|]. split; [done|]. exists ob'. split; [done|].
    destruct (oi_obj _ Hinv' p ob' Hob') as [[? _]|[_ Hz]]; [|lia]. by rewrite Hid.
Qed.

Lemma bump_le A s p d s' q : 0 ≤ d ∨ s' ≠ s → A s' q ≤ bump A s p d s' q.
Proof. intros H. unfold bump. destruct (decide _) as [[-> ->]|]; [destruct H; [lia|done]|lia]. Qed.

(** The handle of an inserted object. *)
Lemma named_inserted t t' h p ctx :
  ht_ok t' → same_table t t' → ht_uBase t = 1 → inserted t t' h p ctx →
  h ≠ NIL_SUPSEMEVENT ∧ u32 h = h ∧ named t' ctx h = Some p
  ∧ ∃ i, 0 ≤ i ∧ ht_index t' h = i ∧ ht_get t i = None
       ∧ ∀ j, 0 ≤ j → ht_get t' j = if j =? i then Some (p, ctx) else ht_get t j.
Proof.
  intros Hok' (Hb&Hm&_) Hbase (i&Hi&->&Hn&Hg). rewrite Hbase in Hb. rewrite Hbase.
  assert (Hix : ht_index t' (u32 (i + 1)) = i) by (rewrite <- Hb; apply ht_index_spec; [lia|done]).
  assert (Hcur : i < ht_cCur t') by (eapply inv_get_range; rewrite Hg, Z.eqb_refl by lia; done).
  pose proof Hok' as [fl Hinv']. pose proof (inv_cur_max _ _ Hinv') as Hc. unfold NIL_RTHT_INDEX in Hc.
  rewrite (u32_small (i + 1)) in * by lia. split; [unfold NIL_SUPSEMEVENT; lia|].
  split; [rewrite u32_small; lia|]. split.
  - unfold named. rewrite u32_small, Z.eqb_refl, Hix, Hg, Z.eqb_refl by lia. by rewrite Z.eqb_refl.
  - exists i. split; [lia|]. done.
Qed.

(** The pointers the allocator gives for a new object and a usage record. *)
Definition fresh_allocs (o : ObjState) (rObj rUsage : option ptr) : Prop :=
  (∀ q, rObj = Some q → o_heap o !! q = None ∧ VALID_PTR q = true ∧ RTHT_IS_FREE q = false)
  ∧ ∀ a, rUsage = Some a → slots o a = 0.

(** Registration, for a semaphore. *)
Lemma register_sem o (t : RTHANDLETABLEINT) ses ctx pfn h rObj rUsage p o1 ev :
  sem_inv (o, t) (s_self ses) → fresh_allocs o rObj rUsage →
  SUPR0ObjRegister o ses ctx pfn h NULL rObj rUsage id = (p, o1, ev) →
  (p = NULL ∧ o1 = o)
  ∨ (VALID_PTR p = true ∧ RTHT_IS_FREE p = false ∧ ev = [] ∧ VALID_PTR pfn = true
     ∧ obj_inv o1 ∧ o_heap o !! p = None
     ∧ o_heap o1 = <[p := new_obj ses ctx pfn h NULL]> (o_heap o) ∧ sem_inv (o1, t) (s_self ses)
     ∧ sess_refs o (s_self ses) p = 0 ∧ total o1 p = 1
     ∧ ∀ s q, sess_refs o1 s q = bump (sess_refs o) (s_self ses) p 1 s q).
Proof.
  intros Hinv [Hr Hu] Hreg. pose proof (si_obj _ _ Hinv) as Ho. simpl in Ho.
  assert (after_window o id = o) as Eb by (unfold after_window; by destruct (pUsageFree o)).
  destruct (register_spec _ _ _ _ _ _ _ _ _ _ _ _ Hreg) as [(->&[->|[-> _]]&_)|H]; rewrite ?Eb in *;
    [done|done|naive_solver|done|by left|by left|]. right.
  destruct H as (Hargs&->&->&Hinv1&Hh&_&Hb). destruct (Hr p eq_refl) as (Hnone&Hv&Hf).
  unfold register_args_ok in Hargs. zbool.
  assert (Hz : sess_refs o (s_self ses) p = 0).
  { pose proof (sess_refs_nonneg o Ho (s_self ses) p). pose proof (sess_refs_le_total o Ho (s_self ses) p).
    pose proof (inv_no_refs o Ho p Hnone). lia. }
  assert (total o1 p = 1).
  { destruct (oi_obj _ Hinv1 p _ ltac:(by rewrite Hh, lookup_insert_eq)) as [(_&Hc&_)|[Hd _]];
      [by rewrite <- Hc|done]. }
  split_and!; try done. eapply sem_inv_registry; [exact Hinv|done| |].
  - intros q. pose proof (si_refs _ _ Hinv q). simpl in *. rewrite Hb.
    pose proof (bump_le (sess_refs o) (s_self ses) p 1 (s_self ses) q). lia.
  - intros q ob ob' Hob. rewrite Hh, lookup_insert_ne by congruence. intros. by simplify_eq.
Qed.

(** Creation: a handle for a fresh object of which it holds the one reference, or no handle
    and the state as before. *)
Lemma create_cases ctx pfn o (t : RTHANDLETABLEINT) ses phEvent rCreate rObj rUsage a b :
  sem_inv (o, t) (s_self ses) → fresh_allocs o rObj rUsage →
  SUP_IS_SESSION_VALID ses = true → VALID_PTR phEvent = true →
  ∃ rc oh o' t' ev,
    sem_create ctx pfn (o, t) ses phEvent rCreate rObj rUsage id [env_alone a b] = Some (rc, oh, (o', t'), ev)
    ∧ sem_inv (o', t') (s_self ses) ∧ same_table t t'
    ∧ ((∃ h p, oh = Some h ∧ rc = VINF_SUCCESS ∧ RT_SUCCESS (fst rCreate) = true
          ∧ h ≠ NIL_SUPSEMEVENT ∧ named t' ctx h = Some p
          ∧ o_heap o !! p = None ∧ VALID_PTR pfn = true ∧ total o' p = 1
          ∧ o_heap o' = <[p := new_obj ses ctx pfn (snd rCreate) NULL]> (o_heap o)
          ∧ (∀ s q, sess_refs o' s q = bump (sess_refs o) (s_self ses) p 1 s q)
          ∧ ht_get t (ht_index t' h) = None
          ∧ ∀ j, 0 ≤ j → ht_get t' j = if j =? ht_index t' h then Some (p, ctx) else ht_get t j)
       ∨ (oh = None ∧ o_heap o' = o_heap o ∧ (∀ s q, sess_refs o' s q = sess_refs o s q)
          ∧ (∀ j, 0 ≤ j → ht_get t' j = ht_get t j)
          ∧ ((rc = fst rCreate ∧ (RT_SUCCESS rc = true → EvSemDestroy ctx (snd rCreate) ∈ ev))
             ∨ (RT_FAILURE rc = true ∧ ∃ p, EvDestructor pfn p (snd rCreate) NULL ∈ ev)))).
Proof.
  intros Hinv Hfr Hses Hph. unfold sem_create. rewrite Hses, Hph. cbn [negb].
  destruct rCreate as [rc0 hReal]. cbn [fst snd].
  destruct (RT_SUCCESS rc0) eqn:Erc.
  2:{ eexists _, _, _, _, _. split; [reflexivity|]. split; [done|]. split; [apply same_table_refl|].
      right. split_and!; try done. left. split; [done|]. by rewrite Erc. }
  destruct (SUPR0ObjRegister o ses ctx pfn hReal NULL rObj rUsage id) as [[p o1] ev1] eqn:Ereg.
  destruct (register_sem _ t _ _ _ _ _ _ _ _ _ Hinv Hfr Ereg)
    as [[-> ->]|(Hv&Hf&->&Hvp&Hinv1&Hnone&Hh1&Hsem1&Hz&Ht1&Hb1)].
  { cbn. eexists _, _, _, _, _. split; [reflexivity|]. split; [done|]. split; [apply same_table_refl|].
    right. split_and!; try done. left. split; [done|]. intros _. apply elem_of_app; right. by left. }
  rewrite (valid_ptr_nonnull p Hv). cbn [negb]. pose proof (si_ht _ _ Hinv) as Hok. simpl in Hok.
  destruct (alloc_alone t a b p ctx Hok Hf) as (rc&h&t1&ev2&->&Hok1&Hs1&Hc).
  assert (Hsem2 : (∀ i, 0 ≤ i → ht_get t1 i = ht_get t i) → sem_inv (o, t1) (s_self ses)).
  { intros Hg. pose proof Hs1 as (Hb&_&Hr&_). split; simpl; try done; try apply Hinv.
    - rewrite Hr. apply (si_retain _ _ Hinv).
    - rewrite Hb. apply (si_base _ _ Hinv).
    - intros i q c Hi. rewrite Hg by done. by apply (si_live _ _ Hinv i).
    - intros q. unfold ht_refs. rewrite (ht_map_same t t1) by done. apply (si_refs _ _ Hinv q). }
  destruct Hc as [[-> Hins]|Hfail].
  - destruct (named_inserted _ _ _ _ _ Hok1 Hs1 (si_base _ _ Hinv) Hins) as (Hnil&_&Hnamed&i&Hi&Hix&Hn&Hg).
    eexists _, _, o1, t1, _. split; [reflexivity|]. pose proof Hs1 as (Hb&_&Hr&_). split; [|split; [done|]].
    + pose proof (λ q, ht_refs_insert t t1 i p ctx q Hok Hok1 Hi Hn Hg) as Hri. split; simpl; try done.
      * rewrite Hr. apply (si_retain _ _ Hinv).
      * rewrite Hb. apply (si_base _ _ Hinv).
      * intros j q c Hj. rewrite Hg by done. destruct (j =? i); [|by apply (si_live _ _ Hsem1 j)].
        intros [= <- <-]. split; [done|]. split; [done|]. eexists. by rewrite Hh1, lookup_insert_eq.
      * intros q. rewrite Hri, Hb1. pose proof (si_refs _ _ Hinv q). simpl in *. unfold bump.
        destruct (Z.eqb_spec p q), (decide (s_self ses = s_self ses ∧ q = p)) as [[_ ?]|Hne]; lia.
    + left. exists h, p. rewrite Hix. by split_and!.
  - assert (Hnf : RT_FAILURE rc = true ∧ RT_SUCCESS rc = false ∧ ∀ i, 0 ≤ i → ht_get t1 i = ht_get t i).
    { destruct Hfail as [(->&->&_)|(->&_&_&Hg)]; by split_and!. }
    destruct Hnf as (Hrf&Hrs&Hg). rewrite Hrs.
    destruct (SUPR0ObjRelease o1 p ses) as [[rc3 o3] ev3] eqn:Erel.
    assert (Hm1 : obj_magic o1 p = SUPDRVOBJ_MAGIC) by (unfold obj_magic; by rewrite Hh1, lookup_insert_eq).
    assert (Hr1 : 0 < sess_refs o1 (s_self ses) p).
    { rewrite Hb1. unfold bump. rewrite decide_True by done. lia. }
    destruct (release_inv _ _ _ _ _ _ Hinv1 Hses Hv Hm1 Hr1 Erel) as (Hinv3&Hb3&_&[(?&_)|(_&->&Hh3&ob&Hob&->)]); [lia|].
    rewrite Hh1, lookup_insert_eq in Hob. injection Hob as <-. rewrite Hh1, delete_insert_id in Hh3 by done.
    assert (Hrefs : ∀ s q, sess_refs o3 s q = sess_refs o s q).
    { intros s q. rewrite Hb3. unfold bump. rewrite Hb1. unfold bump. destruct (decide _); lia. }
    eexists _, _, o3, t1, _. split; [reflexivity|]. split; [|split; [done|]].
    + eapply sem_inv_registry; [by apply Hsem2|done|intros q; rewrite Hrefs; apply (si_refs _ _ (Hsem2 Hg))|].
      intros q ob ob'. rewrite Hh3. intros. by simplify_eq.
    + right. split_and!; try done. right. split; [done|]. exists p. simpl. unfold destroy_events. simpl.
      rewrite (valid_ptr_nonnull pfn Hvp). cbn. apply elem_of_app; right. by left.
Qed.

(** * Operations in flight *)

(** Signal, reset and wait are a lookup that retains, the call, and a release; [fly] are the
    objects of the operations in between. *)
Definition sem_enter (ctx : Z) (st : SemState) (pSession : SUPDRVSESSION) (hEvent : Z) : ptr * SemState :=
  let '(p, o) := RTHandleTableLookupWithCtx (supdrvSessionObjHandleRetain pSession) (snd st) (u32 hEvent) ctx (fst st)
  in (p, (o, snd st)).

Definition sem_leave (st : SemState) (pSession : SUPDRVSESSION) (p : ptr) : SemState * list event :=
  let '(_, o, ev) := SUPR0ObjRelease (fst st) p pSession in ((o, snd st), ev).

Section concurrency.
Context (ses : SUPDRVSESSION).
Abbreviation s := (s_self ses).

(** What threads of the session and of others do, one call at a time. *)
Inductive sem_step : SemState * list ptr → SemState * list ptr → Prop :=
| step_create ctx pfn st phEvent rCreate rObj rUsage a b rc oh st' ev fly :
    fresh_allocs (fst st) rObj rUsage →
    sem_create ctx pfn st ses phEvent rCreate rObj rUsage id [env_alone a b] = Some (rc, oh, st', ev) →
    sem_step (st, fly) (st', fly)
| step_close ctx st hEvent rc st' ev fly :
    (∀ p, named (snd st) ctx hEvent = Some p → total (fst st) p + 1 < 2 ^ 32) →
    sem_close ctx st ses hEvent = (rc, st', ev) → sem_step (st, fly) (st', fly)
| step_enter ctx st hEvent p st' fly :
    (∀ p, named (snd st) ctx hEvent = Some p → total (fst st) p + 1 < 2 ^ 32) → u32 hEvent = hEvent →
    sem_enter ctx st ses hEvent = (p, st') → sem_step (st, fly) (st', if p =? NULL then fly else p :: fly)
| step_leave st p fly1 fly2 st' ev :
    sem_leave st ses p = (st', ev) → sem_step (st, fly1 ++ p :: fly2) (st', fly1 ++ fly2)
| step_register o t ses' enmType pfn pv1 pv2 rObj rUsage p o' ev fly :
    fresh_allocs o rObj rUsage →
    SUPR0ObjRegister o ses' enmType pfn pv1 pv2 rObj rUsage id = (p, o', ev) →
    sem_step ((o, t), fly) ((o', t), fly)
| step_addref o t ses' p fNoBlocking rUsage rc o' fly :
    (∀ a, rUsage = Some a → slots o a = 0) → total o p + 1 < 2 ^ 32 →
    SUPR0ObjAddRefEx o p ses' fNoBlocking rUsage id = (rc, o') → sem_step ((o, t), fly) ((o', t), fly)
| step_release o (t : RTHANDLETABLEINT) ses' p rc o' ev fly :
    (s_self ses' = s → ht_refs t p + occ p fly < sess_refs o s p) →
    SUPR0ObjRelease o p ses' = (rc, o', ev) → sem_step ((o, t), fly) ((o', t), fly).

(** The session's references cover its handles and its operations in flight. *)
Definition sem_conc_inv (stf : SemState * list ptr) : Prop :=
  sem_inv (fst stf) s ∧ Forall (λ p, VALID_PTR p = true) (snd stf)
  ∧ ∀ p, ht_refs (snd (fst stf)) p + occ p (snd stf) ≤ sess_refs (fst (fst stf)) s p.


Lemma conc_registry o o' (t : RTHANDLETABLEINT) (fly' : list ptr) :
  sem_inv (o, t) s → obj_inv o' → Forall (λ p, VALID_PTR p = true) fly' →
  (∀ q, ht_refs t q + occ q fly' ≤ sess_refs o' s q) →
  (∀ q ob ob', o_heap o !! q = Some ob → o_heap o' !! q = Some ob' → obj_ident ob' = obj_ident ob) →
  sem_conc_inv ((o', t), fly').
Proof.
  intros Hinv Hinv' Hv Hr Hid. split; [|done]. eapply sem_inv_registry; [done|done| |].
  - intros q. specialize (Hr q). pose proof (occ_nonneg q fly'). lia.
  - intros q ob ob' H1 H2. specialize (Hid q ob ob' H1 H2). unfold obj_ident in Hid. by simplify_eq.
Qed.

Lemma conc_create ctx pfn st phEvent rCreate rObj rUsage a b rc oh st' ev fly :
  sem_conc_inv (st, fly) → fresh_allocs (fst st) rObj rUsage →
  sem_create ctx pfn st ses phEvent rCreate rObj rUsage id [env_alone a b] = Some (rc, oh, st', ev) →
  sem_conc_inv (st', fly).
Proof.
  intros (Hinv&Hv&Hr) Hfr H. destruct st as [o t]. simpl in Hr, Hinv, Hv.
  destruct (SUP_IS_SESSION_VALID ses) eqn:Hses; [|unfold sem_create in H; rewrite Hses in H; by simplify_eq/=].
  destruct (VALID_PTR phEvent) eqn:Hph; [|unfold sem_create in H; rewrite Hses, Hph in H; by simplify_eq/=].
  destruct (create_cases ctx pfn o t ses phEvent rCreate rObj rUsage a b Hinv Hfr Hses Hph)
    as (rc1&oh1&o'&t'&ev1&E&Hinv'&_&Hc). rewrite H in E. injection E as -> -> -> ->.
  split; [done|]. split; [done|]. intros q. simpl in *. specialize (Hr q).
  pose proof (si_ht _ _ Hinv) as Hok. pose proof (si_ht _ _ Hinv') as Hok'. simpl in Hok, Hok'.
  destruct Hc as [(h&p&_&_&_&_&_&_&_&_&_&Hb&Hn&Hg)|(_&_&Hb&Hg&_)].
  - rewrite (ht_refs_insert t t' _ p ctx q Hok Hok' (proj1 (u32_range _)) Hn Hg), Hb. unfold bump.
    destruct (Z.eqb_spec p q), (decide (s = s ∧ q = p)) as [[_ ?]|Hne]; lia.
  - rewrite Hb. unfold ht_refs in *. by rewrite (ht_map_same t t').
Qed.

Lemma conc_close ctx st hEvent rc st' ev fly :
  sem_conc_inv (st, fly) → (∀ p, named (snd st) ctx hEvent = Some p → total (fst st) p + 1 < 2 ^ 32) →
  sem_close ctx st ses hEvent = (rc, st', ev) → sem_conc_inv (st', fly).
Proof.
  intros (Hinv&Hv&Hr) Ht H. destruct st as [o t], st' as [o' t']. simpl in Hr, Hinv, Hv.
  destruct (SUP_IS_SESSION_VALID ses) eqn:Hses; [|unfold sem_close in H; rewrite Hses in H; by simplify_eq/=].
  destruct (decide (hEvent = NIL_SUPSEMEVENT)) as [->|Hnil].
  { unfold sem_close in H. rewrite Hses in H. by simplify_eq/=. }
  pose proof (close_spec ctx o t ses hEvent _ _ _ _ Hinv Hses Ht Hnil H) as Hc.
  destruct (named t ctx hEvent) as [p|] eqn:En; [|destruct Hc as (_&->&->&_); done].
  destruct Hc as (Hinv'&Hg&_&_&Hb&_). split; [done|]. split; [done|]. intros q. simpl in *. specialize (Hr q).
  pose proof (si_ht _ _ Hinv) as Hok. pose proof (si_ht _ _ Hinv') as Hok'. simpl in Hok, Hok'.
  assert (Hp : ht_get t (ht_index t (u32 hEvent)) = Some (p, ctx)) by by apply named_get.
  rewrite (ht_refs_delete t t' _ p ctx q Hok Hok' (proj1 (u32_range _)) Hp Hg), Hb. unfold bump.
  destruct (Z.eqb_spec p q), (decide (s = s ∧ q = p)) as [[_ ?]|Hne]; lia.
Qed.

Lemma conc_enter ctx st hEvent p st' fly :
  sem_conc_inv (st, fly) → (∀ q, named (snd st) ctx hEvent = Some q → total (fst st) q + 1 < 2 ^ 32) →
  u32 hEvent = hEvent →
  sem_enter ctx st ses hEvent = (p, st') → sem_conc_inv (st', if p =? NULL then fly else p :: fly).
Proof.
  intros (Hinv&Hv&Hr) Ht Hh H. destruct st as [o t]. unfold sem_enter in H. simpl in *.
  destruct (SUP_IS_SESSION_VALID ses) eqn:Hses.
  2:{ rewrite (lookup_spec _ _ _ _ _ (si_ht _ _ Hinv)) in H. unfold ht_retain, supdrvSessionObjHandleRetain, SUPR0ObjAddRefEx in H.
      rewrite Hses, (si_retain _ _ Hinv) in H. simpl in H.
      destruct (ht_get t _) as [[q c]|]; [destruct (c =? ctx)|]; by simplify_eq. }
  pose proof (retain_named o t ses ctx hEvent Hinv Hses Hh Ht) as Hret.
  destruct (named t ctx hEvent) as [q|] eqn:En; [|rewrite Hret in H; by simplify_eq].
  destruct Hret as (o1&Hl&Hnn&Hinv1&Hid&_&_&(Hvq&_)&Hb&_). rewrite Hl in H. injection H as <- <-. rewrite Hnn.
  eapply conc_registry; [exact Hinv|done|by constructor| |].
  - intros q'. rewrite Hb, occ_cons. specialize (Hr q'). unfold bump.
    destruct (Z.eqb_spec q q'), (decide (s = s ∧ q' = q)) as [[_ ?]|Hne]; lia.
  - intros q' ob ob' Hob Hob'. specialize (Hid q'). rewrite Hob, Hob' in Hid. by apply (inj Some) in Hid.
Qed.

Lemma occ_app p (l1 l2 : list ptr) : occ p (l1 ++ l2) = occ p l1 + occ p l2.
Proof. induction l1 as [|q l1 IH]; [done|]. rewrite <- app_comm_cons, !occ_cons, IH. lia. Qed.

(** An object of an operation in flight is live. *)
Lemma fly_live st fly p :
  sem_conc_inv (st, fly) → p ∈ fly →
  VALID_PTR p = true ∧ obj_magic (fst st) p = SUPDRVOBJ_MAGIC ∧ 0 < sess_refs (fst st) s p.
Proof.
  intros (Hinv&Hv&Hr) Hp. rewrite Forall_forall in Hv. split; [by apply Hv|]. simpl in *.
  assert (H1 : 1 ≤ occ p fly).
  { apply list_elem_of_split in Hp as (l1&l2&->). rewrite occ_app, occ_cons, Z.eqb_refl.
    pose proof (occ_nonneg p l1). pose proof (occ_nonneg p l2). lia. }
  specialize (Hr p). pose proof (ht_refs_nonneg (snd st) p).
  pose proof (sess_refs_le_total _ (si_obj _ _ Hinv) s p). split; [|lia].
  destruct (o_heap (fst st) !! p) as [ob|] eqn:Hob; [|pose proof (inv_no_refs _ (si_obj _ _ Hinv) p Hob); lia].
  unfold obj_magic. rewrite Hob. destruct (oi_obj _ (si_obj _ _ Hinv) p ob Hob) as [[? _]|[_ Hz]]; [done|lia].
Qed.

(** A release, of a reference that is neither a handle's nor that of an operation left in
    flight when it is the session's. *)
Lemma conc_release o (t : RTHANDLETABLEINT) fly fly' ses' p rc o' ev :
  sem_conc_inv ((o, t), fly) → Forall (λ q, VALID_PTR q = true) fly' →
  (∀ q, occ q fly' ≤ occ q fly) → (s_self ses' = s → ht_refs t p + occ p fly' < sess_refs o s p) →
  SUPR0ObjRelease o p ses' = (rc, o', ev) → sem_conc_inv ((o', t), fly').
Proof.
  intros (Hinv&_&Hr) Hv Hle Hspare H. simpl in *. pose proof (si_obj _ _ Hinv) as Ho. simpl in Ho.
  assert (Hsame : o' = o → sem_conc_inv ((o', t), fly')).
  { intros ->. split; [done|]. split; [done|]. intros q. simpl. specialize (Hr q). specialize (Hle q). lia. }
  destruct (SUP_IS_SESSION_VALID ses') eqn:Hses.
  2:{ unfold SUPR0ObjRelease in H. rewrite Hses in H. simplify_eq/=. by apply Hsame. }
  destruct (VALID_PTR p && (obj_magic o p =? SUPDRVOBJ_MAGIC)) eqn:Hvm.
  2:{ unfold SUPR0ObjRelease in H. rewrite Hses, Hvm in H. simplify_eq/=. by apply Hsame. }
  apply andb_true_iff in Hvm as [Hvp Hm%Z.eqb_eq].
  destruct (release_cases o ses' p rc o' ev Ho Hses Hvp Hm H) as [(_&_&->&_)|(_&Hinv'&Hb&_)]; [by apply Hsame|].
  eapply conc_registry; [exact Hinv|done|done| |].
  - intros q. rewrite Hb. specialize (Hr q). specialize (Hle q). unfold bump.
    destruct (decide (s = s_self ses' ∧ q = p)) as [[Hs ->]|]; [specialize (Hspare (eq_sym Hs))|]; lia.
  - intros q ob ob' Hob Hob'. by eapply release_ident.
Qed.

Lemma conc_leave st ses' fly1 fly2 p st' ev :
  s_self ses' = s → sem_conc_inv (st, fly1 ++ p :: fly2) → sem_leave st ses' p = (st', ev) →
  sem_conc_inv (st', fly1 ++ fly2).
Proof.
  intros Hs Hinv H. destruct st as [o t]. unfold sem_leave in H. simpl in H.
  destruct (SUPR0ObjRelease o p ses') as [[rc o'] ev'] eqn:E. injection H as <- <-.
  pose proof Hinv as (_&Hv&Hr). simpl in Hr. eapply conc_release; [exact Hinv| | | |exact E].
  - apply Forall_app in Hv as [? Hv]. inversion Hv; subst. by apply Forall_app.
  - intros q. rewrite !occ_app, occ_cons. destruct (_ =? _); lia.
  - intros _. specialize (Hr p). rewrite !occ_app, occ_cons, Z.eqb_refl in *. lia.
Qed.

Lemma sem_step_inv stf stf' : sem_conc_inv stf → sem_step stf stf' → sem_conc_inv stf'.
Proof.
  intros Hinv H. destruct H.
  - by eapply conc_create.
  - by eapply conc_close.
  - by eapply conc_enter.
  - by eapply conc_leave.
  - destruct Hinv as (Hinv&Hv&Hr). destruct H as [Hob Hus]. pose proof (si_obj _ _ Hinv) as Ho. simpl in *.
    assert (after_window o id = o) as Eb by (unfold after_window; by destruct (pUsageFree o)).
    destruct (register_spec _ _ _ _ _ _ _ _ _ _ _ _ H0) as [(_&[->|[-> _]]&_)|Hc]; rewrite ?Eb in *;
      [done|done|naive_solver|done|done|done|].
    destruct Hc as (_&->&_&Hinv1&Hh&_&Hb). destruct (Hob p eq_refl) as (Hnone&_).
    eapply conc_registry; [exact Hinv|done|done| |].
    + intros q. rewrite Hb. specialize (Hr q). pose proof (bump_le (sess_refs o) (s_self ses') p 1 s q). lia.
    + intros q ob ob' Ha. rewrite Hh, lookup_insert_ne by congruence. intros. by simplify_eq.
  - destruct Hinv as (Hinv&Hv&Hr). pose proof (si_obj _ _ Hinv) as Ho. simpl in *.
    pose proof (addref_ident _ _ _ _ _ _ _ H1) as Hid.
    assert (Eb : (if fNoBlocking then o else after_window o id) = o)
      by (unfold after_window; destruct fNoBlocking; [done|by destruct (pUsageFree o)]).
    eapply addref_spec in H1 as (Hinv1&Hc); rewrite ?Eb; try done. rewrite Eb in Hc.
    destruct Hc as [(_&_&_&Hb)|(_&[->| ->]&_)]; [|done..].
    eapply conc_registry; [exact Hinv|done|done| |].
    + intros q. rewrite Hb. specialize (Hr q). pose proof (bump_le (sess_refs o) (s_self ses') p 1 s q). lia.
    + intros q ob ob' Ha Hb'. specialize (Hid q). rewrite Ha, Hb' in Hid. by apply (inj Some) in Hid.
  - pose proof Hinv as (_&Hv&_). eapply conc_release; [exact Hinv|done|done|done|exact H0].
Qed.
End concurrency.

(** The states of a session: the registry as it is and the table as session creation makes
    it, and then any steps. *)
Definition sem_reach (ses : SUPDRVSESSION) (stf : SemState * list ptr) : Prop :=
  ∃ o p rSpin rc t0 ev, obj_inv o ∧ VALID_PTR p = true
    ∧ RTHandleTableCreateEx (Z.lor RTHANDLETABLE_FLAGS_LOCKED RTHANDLETABLE_FLAGS_CONTEXT) 1 32768 true
        (Some p) rSpin = (rc, Some t0, ev)
    ∧ rtc (sem_step ses) ((o, t0), []) stf.

Lemma fresh_table_inv s o rTable rSpin rc t0 ev :
  obj_inv o → (∀ p, rTable = Some p → VALID_PTR p = true) →
  RTHandleTableCreateEx (Z.lor RTHANDLETABLE_FLAGS_LOCKED RTHANDLETABLE_FLAGS_CONTEXT) 1 32768 true
    rTable rSpin = (rc, Some t0, ev) →
  sem_inv (o, t0) s.
Proof.
  intros Ho Hp H.
  eapply create_spec in H as (_&_&Hok&Hb&_&Hr&Hg); [|lia|lia|exact Hp|done].
  assert (Hz : ∀ q, ht_refs t0 q = 0).
  { intros q. apply gsum_zero. intros i x. rewrite ht_map_lookup by by exists [].
    destruct (Z.leb_spec 0 i); [by rewrite Hg|done]. }
  split; simpl; try done; [by exists []| |].
  - intros i q c Hi. by rewrite Hg.
  - intros q. rewrite Hz. by apply sess_refs_nonneg.
Qed.

Lemma conc_inv_init ses o p rSpin rc t0 ev :
  obj_inv o → VALID_PTR p = true →
  RTHandleTableCreateEx (Z.lor RTHANDLETABLE_FLAGS_LOCKED RTHANDLETABLE_FLAGS_CONTEXT) 1 32768 true
    (Some p) rSpin = (rc, Some t0, ev) →
  sem_conc_inv ses ((o, t0), []).
Proof.
  intros Ho Hp H. assert (Hp' : ∀ q, Some p = Some q → VALID_PTR q = true) by by intros q [= <-].
  pose proof (fresh_table_inv (s_self ses) _ _ _ _ _ _ Ho Hp' H) as Hinv.
  split; [done|]. split; [done|]. intros q. simpl. rewrite Z.add_0_r. apply (si_refs _ _ Hinv q).
Qed.

Lemma sem_reach_inv ses stf : sem_reach ses stf → sem_conc_inv ses stf.
Proof.
  intros (o&p&rSpin&rc&t0&ev&Ho&Hp&Hc&Hs). pose proof (conc_inv_init ses o p rSpin rc t0 ev Ho Hp Hc) as Hinv.
  clear Hc. induction Hs as [|x y z Hxy _ IH]; [done|]. apply IH. by eapply sem_step_inv.
Qed.

(** * Properties *)

(** C18. However creations, closings, operations in flight and other sessions' use of the
    registry interleave, every handle names a live object of its kind, an operation in
    flight works on a live semaphore, and the session holds a reference for every handle
    and every such operation. *)
Theorem semaphore_invariant ses stf :
  sem_reach ses stf →
  sem_inv (fst stf) (s_self ses)
  ∧ (∀ p, p ∈ snd stf → obj_magic (fst (fst stf)) p = SUPDRVOBJ_MAGIC)
  ∧ ∀ p, ht_refs (snd (fst stf)) p + occ p (snd stf) ≤ sess_refs (fst (fst stf)) (s_self ses) p.
Proof.
  intros Hinv%sem_reach_inv. split; [apply Hinv|]. split; [|apply Hinv]. destruct stf as [st fly].
  intros p Hp. by destruct (fly_live ses st fly p Hinv Hp) as (_&?&_).
Qed.

(** Creating a semaphore and closing its handle: the close reports the destruction,
    calls the destructor with the runtime's semaphore, restores objects, counts and handles,
    and the handle is invalid from then on. *)
Lemma semaphore_roundtrip ctx pfn o t ses phEvent rCreate rObj rUsage a b rc h st1 ev1 :
  sem_inv (o, t) (s_self ses) → fresh_allocs o rObj rUsage →
  SUP_IS_SESSION_VALID ses = true → VALID_PTR phEvent = true →
  sem_create ctx pfn (o, t) ses phEvent rCreate rObj rUsage id [env_alone a b] = Some (rc, Some h, st1, ev1) →
  ∃ p o2 t2,
    sem_close ctx st1 ses h
    = (VINF_OBJECT_DESTROYED, (o2, t2), [EvDestructor pfn p (snd rCreate) NULL; EvMemFree p])
    ∧ o_heap o2 = o_heap o ∧ (∀ s q, sess_refs o2 s q = sess_refs o s q)
    ∧ (∀ i, 0 ≤ i → ht_get t2 i = ht_get t i)
    ∧ sem_close ctx (o2, t2) ses h = (VERR_INVALID_HANDLE, (o2, t2), []).
Proof.
  intros Hinv Hfr Hses Hph H.
  destruct (create_cases ctx pfn o t ses phEvent rCreate rObj rUsage a b Hinv Hfr Hses Hph)
    as (rc1&oh&o1&t1&ev&E&Hinv1&Hs1&Hc). rewrite H in E. injection E as -> <- -> ->.
  destruct Hc as [(h'&p&[= <-]&_&_&Hnil&Hn&Hnone&Hvp&Ht&Hh&Hb&Hf&Hg)|(?&_)]; [|done].
  destruct (sem_close ctx (o1, t1) ses h) as [[rc2 [o2 t2]] ev2] eqn:Ec.
  pose proof (close_spec ctx o1 t1 ses h rc2 o2 t2 ev2 Hinv1 Hses) as Hcl. rewrite Hn in Hcl.
  destruct (Hcl ltac:(intros ? [= <-]; lia) Hnil Ec) as (Hinv2&Hg2&Hs2&_&Hb2&[(?&_)|(_&->&Hh2&ob&Hob&->)]); [lia|].
  rewrite Hh, lookup_insert_eq in Hob. injection Hob as <-. exists p, o2, t2.
  assert (Hu : u32 h = h) by (unfold named in Hn; by destruct (Z.eqb_spec (u32 h) h)).
  assert (Hix : ht_index t2 (u32 h) = ht_index t1 (u32 h)) by (destruct Hs2 as (Hb0&_); unfold ht_index; by rewrite Hb0).
  split.
  { do 2 f_equal. unfold destroy_events. simpl. by rewrite (valid_ptr_nonnull pfn Hvp). }
  split; [by rewrite Hh2, Hh, delete_insert_id|]. split.
  { intros s q. rewrite Hb2. unfold bump. rewrite Hb. unfold bump. destruct (decide _); lia. }
  split.
  { intros i Hi. rewrite Hg2, Hu by done. destruct (Z.eqb_spec i (ht_index t1 h)) as [->|Hne]; [done|].
    rewrite Hg by done. by rewrite (proj2 (Z.eqb_neq _ _) Hne). }
  destruct (sem_close ctx (o2, t2) ses h) as [[rc3 [o3 t3]] ev3] eqn:Ec3.
  pose proof (close_spec ctx o2 t2 ses h rc3 o3 t3 ev3 Hinv2 Hses) as Hcl3.
  assert (Hn2 : named t2 ctx h = None).
  { unfold named. rewrite Hix, Hg2, Z.eqb_refl by apply u32_range. by destruct (_ =? h). }
  rewrite Hn2 in Hcl3. by destruct (Hcl3 ltac:(done) Hnil Ec3) as (->&->&->&->).
Qed.

(** Signalling, resetting and waiting act on the runtime's semaphore of the object the
    handle names, return its status and leave registry and table as they were; any other
    handle (closed, never given out, of the other kind, or beyond 32 bits) is refused
    without a call. *)
Lemma semaphore_use_spec ctx op o t ses hEvent :
  sem_inv (o, t) (s_self ses) → SUP_IS_SESSION_VALID ses = true →
  (∀ p, named t ctx hEvent = Some p → total o p + 1 < 2 ^ 32) →
  sem_use ctx op (o, t) ses hEvent id
  = match named t ctx hEvent with
    | Some p => let '(rc, ev) := op (from_option obj_pvUser1 NULL (o_heap o !! p)) in (rc, (o, t), [ev])
    | None => (VERR_INVALID_HANDLE, (o, t), [])
    end.
Proof. apply use_spec. Qed.

(** Closing the only handle of a semaphore while a thread waits on it does not destroy
    it: the close succeeds without a call, and the waiter's own release, after its call
    has returned, destroys the semaphore, once. *)
Lemma semaphore_wait_close ctx op o t ses hEvent p :
  sem_inv (o, t) (s_self ses) → SUP_IS_SESSION_VALID ses = true → hEvent ≠ NIL_SUPSEMEVENT →
  named t ctx hEvent = Some p → total o p = 1 →
  ∃ ob o1 o2 t2,
    o_heap o !! p = Some ob
    ∧ sem_enter ctx (o, t) ses hEvent = (p, (o1, t))
    ∧ fst (fst (sem_close ctx (o1, t) ses hEvent)) = VINF_SUCCESS ∧ snd (sem_close ctx (o1, t) ses hEvent) = []
    ∧ sem_use ctx op (o, t) ses hEvent (λ st, snd (fst (sem_close ctx st ses hEvent)))
      = (fst (op (obj_pvUser1 ob)), (o2, t2), snd (op (obj_pvUser1 ob)) :: destroy_events p ob)
    ∧ o_heap o2 !! p = None ∧ named t2 ctx hEvent = None.
Proof.
  intros Hinv Hses Hnil Hn Ht1.
  assert (Hh : u32 hEvent = hEvent) by (unfold named in Hn; by destruct (Z.eqb_spec (u32 hEvent) hEvent)).
  pose proof (retain_named o t ses ctx hEvent Hinv Hses Hh) as Hret. rewrite Hn in Hret.
  destruct (Hret ltac:(intros ? [= <-]; lia)) as (o1&Hl&Hnn&Hinv1&Hid&Ht1'&Hm&(Hv&_&ob&Hob&_)&Hb&_).
  assert (Henter : sem_enter ctx (o, t) ses hEvent = (p, (o1, t))) by (unfold sem_enter; simpl; by rewrite Hl).
  assert (Hc0 : sem_conc_inv ses ((o, t), [])).
  { split; [done|]. split; [done|]. intros q. simpl. rewrite Z.add_0_r. apply (si_refs _ _ Hinv q). }
  assert (Hc1 : sem_conc_inv ses ((o1, t), [p])).
  { pose proof (conc_enter ses ctx (o, t) hEvent p (o1, t) [] Hc0) as H. rewrite Hnn in H.
    apply H; [|done|done]. simpl. rewrite Hn. intros ? [= <-]. lia. }
  destruct (sem_close ctx (o1, t) ses hEvent) as [[rc2 [o2 t2]] ev2] eqn:Ec.
  assert (Hbd : ∀ q, named t ctx hEvent = Some q → total o1 q + 1 < 2 ^ 32) by (intros q; rewrite Hn; intros [= <-]; lia).
  pose proof (conc_close ses ctx (o1, t) hEvent _ _ _ [p] Hc1 Hbd Ec) as Hc2.
  pose proof (close_spec ctx o1 t ses hEvent rc2 o2 t2 ev2 (proj1 Hc1) Hses Hbd Hnil Ec) as Hcl. rewrite Hn in Hcl.
  destruct Hcl as (_&Hg2&Hs2&Hid2&Hb2&[(_&->&->)|(?&_)]); [|lia].
  destruct (fly_live ses (o2, t2) [p] p Hc2 ltac:(by left)) as (_&Hm2&Hr2). simpl in Hm2, Hr2.
  pose proof (total_bump _ _ _ _ _ Hb2) as Ht2.
  destruct (SUPR0ObjRelease o2 p ses) as [[rc3 o3] ev3] eqn:Er.
  destruct (release_inv o2 ses p rc3 o3 ev3 (si_obj _ _ (proj1 Hc2)) Hses Hv Hm2 Hr2 Er)
    as (_&_&_&[(?&_)|(_&->&Hh3&ob2&Hob2&->)]); [lia|].
  pose proof (Hid p) as Hid1. rewrite Hob in Hid1. destruct (o_heap o1 !! p) as [ob1|] eqn:Hob1; [|done].
  pose proof (Hid2 p ob1 ob2 Hob1 Hob2) as Hi2. apply (inj Some) in Hid1. rewrite Hid1 in Hi2.
  unfold obj_ident in Hid1, Hi2. injection Hid1 as _ _ Hpv1 _. injection Hi2 as _ Hpfn2 Hpv2 Hpv3.
  exists ob, o1, o3, t2. split; [done|]. split; [done|]. rewrite Ec.
  split; [done|]. split; [done|]. split; [|split].
  - unfold sem_use. rewrite Hses, Hl, Hh, Z.eqb_refl, Hnn, Hob1. cbn [negb from_option]. rewrite Hpv1.
    destruct (op (obj_pvUser1 ob)) as [rc ev]. rewrite Ec. cbn. rewrite Er.
    unfold destroy_events. by rewrite Hpfn2, Hpv2, Hpv3.
  - rewrite Hh3. apply lookup_delete_eq.
  - unfold named. rewrite Hh, Z.eqb_refl. destruct Hs2 as (Hb0&_).
    assert (Hix : ht_index t2 hEvent = ht_index t hEvent) by (unfold ht_index; by rewrite Hb0).
    rewrite Hh in Hg2. rewrite Hix, Hg2, Z.eqb_refl by apply u32_range. done.
Qed.

(** The states of the table and the objects alone. *)
Lemma reach_sem_inv ses st l : sem_reach ses (st, l) → sem_inv st (s_self ses).
Proof. intros Hr. apply (sem_reach_inv _ _ Hr). Qed.

(** * Witnesses *)

Definition demo_semt : RTHANDLETABLEINT :=
  mkHt 0xffff880000070000 RTHANDLETABLE_MAGIC 3 1 0 31 (0xffff880000070000 + 72) (replicate 16 None) true
    32768 0 16 NIL_RTHT_INDEX NIL_RTHT_INDEX.
Definition demo_sem_create : option (Z * option Z * SemState * list event) :=
  sem_create SUPDRV_HANDLE_CTX_EVENT 0xa0000 (obj_init, demo_semt) demoA 0x50000 (VINF_SUCCESS, 77)
    (Some 0xffff880000090000) (Some 0xffff880000091000) id [demo_env].
(** After one creation: handle 1. *)
Definition demo_sem1 : SemState := from_option (λ r, snd (fst r)) (obj_init, demo_semt) demo_sem_create.
Definition demo_sem_op (h : ptr) : Z * event := (VINF_SUCCESS, EvSemWait SUPDRV_HANDLE_CTX_EVENT h 0x29 1000).

Lemma demo_sem_create_eq :
  sem_create SUPDRV_HANDLE_CTX_EVENT 0xa0000 (obj_init, demo_semt) demoA 0x50000 (VINF_SUCCESS, 77)
    (Some 0xffff880000090000) (Some 0xffff880000091000) id [env_alone None (Some 0xffff880000080000)]
  = Some (VINF_SUCCESS, Some 1, demo_sem1, []).
Proof. vm_compute. reflexivity. Qed.

Lemma demo_sem_fresh : fresh_allocs obj_init (Some 0xffff880000090000) (Some 0xffff880000091000).
Proof. split; [intros ? [= <-]; by vm_compute|intros ? [= <-]; by vm_compute]. Qed.

Lemma demo_semt_create :
  RTHandleTableCreateEx (Z.lor RTHANDLETABLE_FLAGS_LOCKED RTHANDLETABLE_FLAGS_CONTEXT) 1 32768 true
    (Some 0xffff880000070000) (VINF_SUCCESS, 31) = (VINF_SUCCESS, Some demo_semt, []).
Proof. vm_compute. reflexivity. Qed.

Lemma demo_sem_reach : sem_reach demoA (demo_sem1, []).
Proof.
  exists obj_init, 0xffff880000070000, (VINF_SUCCESS, 31), VINF_SUCCESS, demo_semt, [].
  split; [apply obj_init_inv|]. split; [done|]. split; [apply demo_semt_create|].
  eapply rtc_l; [|apply rtc_refl]. eapply step_create; [|apply demo_sem_create_eq]. apply demo_sem_fresh.
Qed.

Lemma demo_sem_inv : sem_inv (obj_init, demo_semt) (s_self demoA) ∧ sem_inv demo_sem1 (s_self demoA).
Proof.
  split.
  - exact (proj1 (conc_inv_init demoA obj_init 0xffff880000070000 (VINF_SUCCESS, 31) VINF_SUCCESS demo_semt []
      obj_init_inv eq_refl demo_semt_create)).
  - apply (reach_sem_inv _ _ _ demo_sem_reach).
Qed.

Lemma demo_sem_named :
  named (snd demo_sem1) SUPDRV_HANDLE_CTX_EVENT 1 = Some 0xffff880000090000
  ∧ total (fst demo_sem1) 0xffff880000090000 = 1.
Proof. split; vm_compute; reflexivity. Qed.

(** A wait in flight on the semaphore of handle 1. *)
Lemma semaphore_invariant_witness :
  ∃ st, sem_reach demoA (st, [0xffff880000090000]) ∧ obj_magic (fst st) 0xffff880000090000 = SUPDRVOBJ_MAGIC.
Proof.
  eexists. assert (sem_reach demoA ((sem_enter SUPDRV_HANDLE_CTX_EVENT demo_sem1 demoA 1).2, [0xffff880000090000])) as Hr.
  { destruct demo_sem_reach as (o&p&rs&rc&t0&ev&H1&H2&H3&H4).
    exists o, p, rs, rc, t0, ev. repeat (split; [assumption|]). eapply rtc_r; [exact H4|].
    apply (step_enter demoA SUPDRV_HANDLE_CTX_EVENT demo_sem1 1 0xffff880000090000); [|reflexivity|].
    - rewrite (proj1 demo_sem_named). intros ? [= <-]. rewrite (proj2 demo_sem_named). lia.
    - vm_compute. reflexivity. }
  split; [exact Hr|]. destruct (semaphore_invariant _ _ Hr) as (_&H&_). apply H. left.
Defined.

Lemma semaphore_roundtrip_witness :
  ∃ p o2 t2, sem_close SUPDRV_HANDLE_CTX_EVENT demo_sem1 demoA 1
    = (VINF_OBJECT_DESTROYED, (o2, t2), [EvDestructor 0xa0000 p 77 NULL; EvMemFree p]) ∧ o_heap o2 = ∅.
Proof.
  pose proof demo_sem_create_eq as Hc. revert Hc. generalize demo_sem1. intros st1 Hc.
  destruct (semaphore_roundtrip SUPDRV_HANDLE_CTX_EVENT 0xa0000 obj_init demo_semt demoA 0x50000 (VINF_SUCCESS, 77)
    (Some 0xffff880000090000) (Some 0xffff880000091000) None (Some 0xffff880000080000) VINF_SUCCESS 1 st1 []
    (proj1 demo_sem_inv) demo_sem_fresh eq_refl eq_refl Hc) as (p&o2&t2&H1&H2&_).
  exists p, o2, t2. split; [exact H1|exact H2].
Defined.

Lemma semaphore_use_spec_witness :
  sem_use SUPDRV_HANDLE_CTX_EVENT demo_sem_op demo_sem1 demoA 1 id
  = (VINF_SUCCESS, demo_sem1, [EvSemWait SUPDRV_HANDLE_CTX_EVENT 77 0x29 1000])
  ∧ sem_use SUPDRV_HANDLE_CTX_EVENT_MULTI demo_sem_op demo_sem1 demoA 1 id = (VERR_INVALID_HANDLE, demo_sem1, []).
Proof.
  pose proof (proj2 demo_sem_inv) as Hinv. rewrite (surjective_pairing demo_sem1) in Hinv |- *.
  split.
  - rewrite (semaphore_use_spec SUPDRV_HANDLE_CTX_EVENT demo_sem_op (fst demo_sem1) (snd demo_sem1) demoA 1 Hinv eq_refl).
    + rewrite (proj1 demo_sem_named). vm_compute. reflexivity.
    + rewrite (proj1 demo_sem_named). intros ? [= <-]. rewrite (proj2 demo_sem_named). lia.
  - assert (named (snd demo_sem1) SUPDRV_HANDLE_CTX_EVENT_MULTI 1 = None) as Hn by (vm_compute; reflexivity).
    rewrite (semaphore_use_spec SUPDRV_HANDLE_CTX_EVENT_MULTI demo_sem_op (fst demo_sem1) (snd demo_sem1) demoA 1 Hinv eq_refl);
      rewrite Hn; [reflexivity|discriminate].
Defined.

Lemma semaphore_wait_close_witness :
  ∃ ob o2 t2,
    sem_use SUPDRV_HANDLE_CTX_EVENT demo_sem_op demo_sem1 demoA 1
      (λ st, snd (fst (sem_close SUPDRV_HANDLE_CTX_EVENT st demoA 1)))
    = (VINF_SUCCESS, (o2, t2), snd (demo_sem_op (obj_pvUser1 ob)) :: destroy_events 0xffff880000090000 ob)
    ∧ named t2 SUPDRV_HANDLE_CTX_EVENT 1 = None.
Proof.
  pose proof (proj2 demo_sem_inv) as Hinv. rewrite (surjective_pairing demo_sem1) in Hinv |- *.
  destruct (semaphore_wait_close SUPDRV_HANDLE_CTX_EVENT demo_sem_op (fst demo_sem1) (snd demo_sem1) demoA 1 0xffff880000090000)
    as (ob&o1&o2&t2&_&_&_&_&H1&_&H2); [exact Hinv|reflexivity|discriminate|apply demo_sem_named|apply demo_sem_named|].
  exists ob, o2, t2. split; [exact H1|exact H2].
Defined.
