(* ===== verification/Driver.v ===== *)
(** The support driver as a whole: the device extension with the state of all components,
    [supdrvInitDevExt], [supdrvDeleteDevExt], [supdrvCreateSession],
    [supdrvCleanupSession] and [supdrvCloseSession].

    A session is its header (SupTypes) and what the components keep for its address; its
    handle table (HandleTab) is under its address in [x_handles]. *)

From S2P Require Import Prelude SupTypes ObjReg MemTrack Loader Factory GipPage Gip FuncTable HandleTab Sem.
Local Open Scope Z_scope.

(** * Data *)

Definition NIL_RTSEMFASTMUTEX : Z := 0.

(** [SUPDRVDEVEXT], the sessions that exist and the exported functions. *)
Record SUPDRVDEVEXT := mkDevExt {
  x_Spinlock : Z;
  x_mtxLdr : Z;
  x_mtxComponentFactory : Z;
  x_mtxGip : Z;
  x_u32Cookie : Z;
  x_cbSession : Z;
  x_objs : ObjState;
  x_mem : gmap Z SessMem;
  x_ldr : LdrState;
  x_fac : FacState;
  x_gip : GipState;
  x_sess : gmap Z SUPDRVSESSION;
  x_sessSpinlock : gmap Z Z;
  x_handles : gmap Z RTHANDLETABLEINT;
  x_aFunctions : list SUPFUNC;
}.

Definition set_locks (a b c d : Z) (x : SUPDRVDEVEXT) : SUPDRVDEVEXT :=
  mkDevExt a b c d (x_u32Cookie x) (x_cbSession x) (x_objs x) (x_mem x) (x_ldr x) (x_fac x)
    (x_gip x) (x_sess x) (x_sessSpinlock x) (x_handles x) (x_aFunctions x).

(** The sessions' parts. *)
Definition set_parts (objs : ObjState) (mem : gmap Z SessMem) (ldr : LdrState) (fac : FacState)
    (gip : GipState) (sess : gmap Z SUPDRVSESSION) (spin : gmap Z Z) (hts : gmap Z RTHANDLETABLEINT)
    (x : SUPDRVDEVEXT) : SUPDRVDEVEXT :=
  mkDevExt (x_Spinlock x) (x_mtxLdr x) (x_mtxComponentFactory x) (x_mtxGip x) (x_u32Cookie x)
    (x_cbSession x) objs mem ldr fac gip sess spin hts (x_aFunctions x).

(** [memset(pDevExt, 0, sizeof( *pDevExt))]; the page contents are meaningless while [pGip]
    is NULL. *)
Definition gipext_zero : GipExt :=
  mkGipExt NULL (supdrvGipInit (mkMpInfo 0 0 0 0 0 0 (λ _, 0)) 0 0 0) 0 0 NIL_RTR0MEMOBJ NULL 0 0 NULL.

Definition devext_zero (funcs : list SUPFUNC) : SUPDRVDEVEXT :=
  mkDevExt 0 0 0 0 0 0 obj_init ∅ ldr_init [] (gipext_zero, ∅) ∅ ∅ ∅ funcs.

(** * Initialisation *)

(** Statuses and handles of the four locks in the order of their creation. *)
Record InitEnv := mkInitEnv {
  ie_Spinlock : Z * Z;
  ie_mtxLdr : Z * Z;
  ie_mtxComponentFactory : Z * Z;
  ie_mtxGip : Z * Z;
  ie_gip : GipCreateEnv;
  ie_regs : SegRegs;
}.

(** [None] when the creation of the GIP does not come back. *)
Definition supdrvInitDevExt (funcs : list SUPFUNC) (cbSession : Z) (env : InitEnv)
    : option (Z * SUPDRVDEVEXT * list event) :=
  let x := devext_zero funcs in
  let '(rc, hSpin) := ie_Spinlock env in
  if RT_SUCCESS rc then
    let '(rc, hLdr) := ie_mtxLdr env in
    let r :=
      if RT_SUCCESS rc then
        let '(rc, hFac) := ie_mtxComponentFactory env in
        let r :=
          if RT_SUCCESS rc then
            let '(rc, hGip) := ie_mtxGip env in
            let r :=
              if RT_SUCCESS rc then
                match supdrvGipCreate gipext_zero (ie_gip env) with
                | None => None
                | Some (rc, g, ev) =>
                    if RT_SUCCESS rc then
                      Some (VINF_SUCCESS,
                            mkDevExt hSpin hLdr hFac hGip BIRD (u32 cbSession) obj_init ∅ ldr_init []
                              (g, ∅) ∅ ∅ ∅ (fixup_absolute (ie_regs env) funcs), ev, true)
                    else
                      Some (rc, set_parts obj_init ∅ ldr_init [] (g, ∅) ∅ ∅ ∅ x,
                            ev ++ [EvMutexDestroy hGip], false)
                end
              else Some (rc, x, [], false) in
            match r with
            | Some (rc, x, ev, false) => Some (rc, x, ev ++ [EvMutexDestroy hFac], false)
            | r => r
            end
          else Some (rc, x, [], false) in
        match r with
        | Some (rc, x, ev, false) => Some (rc, x, ev ++ [EvMutexDestroy hLdr], false)
        | r => r
        end
      else Some (rc, x, [], false) in
    match r with
    | Some (rc, x, ev, false) => Some (rc, x, ev ++ [EvSpinlockDestroy hSpin])
    | Some (rc, x, ev, true) => Some (rc, x, ev)
    | None => None
    end
  else Some (rc, x, []).

(** Objects still registered are freed without calling their destructors. *)
Definition supdrvDeleteDevExt (x : SUPDRVDEVEXT) : SUPDRVDEVEXT * list event :=
  let evl := [EvMutexDestroy (x_mtxGip x); EvMutexDestroy (x_mtxLdr x);
              EvSpinlockDestroy (x_Spinlock x); EvMutexDestroy (x_mtxComponentFactory x)] in
  let o := x_objs x in
  let evo := (EvMemFree <$> pObjs o) ++ (EvMemFree <$> pUsageFree o) in
  let o := set_heap (foldr delete (o_heap o) (pObjs o)) (set_pUsageFree [] (set_pObjs [] o)) in
  let '(d, evg) := supdrvGipDestroy (fst (x_gip x)) in
  (set_locks NIL_RTSPINLOCK NIL_RTSEMFASTMUTEX NIL_RTSEMFASTMUTEX NIL_RTSEMFASTMUTEX
     (set_parts o (x_mem x) (x_ldr x) (x_fac x) (d, snd (x_gip x)) (x_sess x) (x_sessSpinlock x)
        (x_handles x) x),
   evl ++ evo ++ evg).

(** * Sessions *)

(** [rAlloc]: the session [RTMemAllocZ] returns; [rSpin]: status and handle of
    [RTSpinlockCreate]; [rTable], [rTableSpin]: what the allocation of the handle table and
    its spinlock return; [Process], [R0Process]: the caller.  The results are the status,
    [*ppSession], the state and the calls. *)
Definition supdrvCreateSession (x : SUPDRVDEVEXT) (fUser : bool) (rAlloc : option ptr)
    (rSpin : Z * Z) (rTable : option ptr) (rTableSpin : Z * Z) (Process R0Process : Z)
    : Z * ptr * SUPDRVDEVEXT * list event :=
  match rAlloc with
  | None => (VERR_NO_MEMORY, NULL, x, [])
  | Some p =>
      let '(rc, hSpin) := rSpin in
      if rc =? 0 then
        let '(rc, ohTable, evt) :=
          RTHandleTableCreateEx (Z.lor RTHANDLETABLE_FLAGS_LOCKED RTHANDLETABLE_FLAGS_CONTEXT) 1 32768 true
            rTable rTableSpin in
        if RT_SUCCESS rc then
          let s := mkSession p BIRD_INV NULL (from_option ht_self NIL_RTHANDLETABLE ohTable) NIL_RTUID NIL_RTGID
                     (if fUser then Process else NIL_RTPROCESS)
                     (if fUser then R0Process else NIL_RTR0PROCESS) in
          (VINF_SUCCESS, p,
           set_parts (set_pUsage p [] (x_objs x)) (<[p := sessmem_init p]> (x_mem x))
             (set_pLdrUsage p [] (x_ldr x)) (x_fac x)
             (fst (x_gip x), <[p := mkGipSess NIL_RTR0MEMOBJ false]> (snd (x_gip x)))
             (<[p := s]> (x_sess x)) (<[p := hSpin]> (x_sessSpinlock x))
             (from_option (λ t, <[p := t]>) id ohTable (x_handles x)) x, evt)
        else (rc, NULL, x, evt ++ [EvSpinlockDestroy hSpin; EvMemFree p])
      else (rc, NULL, x, [EvMemFree p])
  end.

(** [rcGipFree]: what [RTR0MemObjFree] returns for the GIP mapping.  The other threads are
    quiet while a session is closed here; for the object registry the cleanup that runs
    between their steps is in ObjReg ([obj_step]). *)
Definition supdrvCleanupSession (x : SUPDRVDEVEXT) (pSession : SUPDRVSESSION) (rcGipFree : Z)
    : SUPDRVDEVEXT * list event :=
  let s := s_self pSession in
  let '(_, o, ev1) :=
    RTHandleTableDestroy (supdrvSessionObjHandleDelete pSession) (x_handles x !! s) (x_objs x) in
  let '(o, ev2) := supdrvCleanupSession_objs o s (λ _, id) in
  let '(m, ev3) := supdrvCleanupSession_mem (default [] (x_mem x !! s)) in
  let '(f, ev4) := supdrvCleanupSession_factories (x_fac x) s in
  let '(l, o, ev5) := supdrvCleanupSession_ldr (x_ldr x) o s in
  let '(g, ev6) := supdrvCleanupSession_gip (x_gip x) pSession rcGipFree in
  let pSession' := mkSession s (s_u32Cookie pSession) (s_pVM pSession) NIL_RTHANDLETABLE (s_Uid pSession)
                     (s_Gid pSession) (s_Process pSession) (s_R0Process pSession) in
  (set_parts o (<[s := m]> (x_mem x)) l f g (<[s := pSession']> (x_sess x)) (x_sessSpinlock x)
     (delete s (x_handles x)) x,
   ev1 ++ ev2 ++ ev3 ++ ev4 ++ ev5 ++ ev6).

Definition supdrvCloseSession (x : SUPDRVDEVEXT) (pSession : SUPDRVSESSION) (rcGipFree : Z)
    : SUPDRVDEVEXT * list event :=
  let s := s_self pSession in
  let '(x, ev) := supdrvCleanupSession x pSession rcGipFree in
  (set_parts (x_objs x) (delete s (x_mem x)) (x_ldr x) (x_fac x)
     (fst (x_gip x), delete s (snd (x_gip x))) (delete s (x_sess x)) (delete s (x_sessSpinlock x))
     (x_handles x) x,
   ev ++ [EvSpinlockDestroy (default NIL_RTSPINLOCK (x_sessSpinlock x !! s)); EvMemFree s]).

(** * Specification *)

(** The locks [supdrvInitDevExt] has created when it stops, in the order in which it has to
    destroy them. *)
Definition init_created (env : InitEnv) : list event :=
  if RT_SUCCESS (fst (ie_Spinlock env)) then
    (if RT_SUCCESS (fst (ie_mtxLdr env)) then
       (if RT_SUCCESS (fst (ie_mtxComponentFactory env)) then
          (if RT_SUCCESS (fst (ie_mtxGip env)) then [EvMutexDestroy (snd (ie_mtxGip env))] else [])
          ++ [EvMutexDestroy (snd (ie_mtxComponentFactory env))]
        else [])
       ++ [EvMutexDestroy (snd (ie_mtxLdr env))]
     else [])
    ++ [EvSpinlockDestroy (snd (ie_Spinlock env))]
  else [].

(** What the creation of the page has acquired by then, when it was tried at all. *)
Definition init_gip_undone (env : InitEnv) : list event :=
  if RT_SUCCESS (fst (ie_Spinlock env)) && RT_SUCCESS (fst (ie_mtxLdr env))
     && RT_SUCCESS (fst (ie_mtxComponentFactory env)) && RT_SUCCESS (fst (ie_mtxGip env))
  then create_undone (ie_gip env) else [].

(** A session that exists: its header, its memory bundles and its handle table. *)
Definition sess_ok (x : SUPDRVDEVEXT) (s : ptr) (p : SUPDRVSESSION) : Prop :=
  s_self p = s ∧ SUP_IS_SESSION_VALID p = true ∧ is_Some (x_mem x !! s) ∧ is_Some (x_handles x !! s).

(** What every component keeps of itself. *)
Record dev_inv (x : SUPDRVDEVEXT) : Prop := {
  di_objs : obj_inv (x_objs x);
  di_ldr : ldr_inv (x_ldr x);
  di_fac : fac_inv (x_fac x);
  di_handles s t : x_handles x !! s = Some t → sem_inv (x_objs x, t) s;
  di_mem s m : x_mem x !! s = Some m → mem_wf m;
  di_gip : ∃ fRunning, gip_users_ok (x_gip x, fRunning);
  di_sess s p : x_sess x !! s = Some p → sess_ok x s p;
}.

(** Nothing in the device extension refers to the session. *)
Definition session_gone (x : SUPDRVDEVEXT) (s : ptr) : Prop :=
  sess_usage (x_objs x) s = [] ∧ ldr_usage (x_ldr x) s = [] ∧ x_mem x !! s = None
  ∧ Forall (λ r, fr_pSession r ≠ s) (x_fac x) ∧ snd (x_gip x) !! s = None
  ∧ x_sess x !! s = None ∧ x_sessSpinlock x !! s = None ∧ x_handles x !! s = None.

(** Whether closing a session gives its reference to the page back: only the cleanup of a
    mapping does, and only if the mapping can be freed. *)
Definition gip_given_back (x : SUPDRVDEVEXT) (pSession : SUPDRVSESSION) (rcGipFree : Z) : bool :=
  let g := gip_sess (snd (x_gip x)) (s_self pSession) in
  SUP_IS_SESSION_VALID pSession && negb (gs_GipMapObjR3 g =? NIL_RTR0MEMOBJ) && gs_fGipReferenced g
  && (rcGipFree =? 0).

(** Another session is as it was. *)
Definition session_same (x x' : SUPDRVDEVEXT) (s : ptr) : Prop :=
  sess_usage (x_objs x') s = sess_usage (x_objs x) s
  ∧ ldr_usage (x_ldr x') s = ldr_usage (x_ldr x) s
  ∧ x_mem x' !! s = x_mem x !! s
  ∧ filter (λ r, fr_pSession r = s) (x_fac x') = filter (λ r, fr_pSession r = s) (x_fac x)
  ∧ snd (x_gip x') !! s = snd (x_gip x) !! s
  ∧ x_sess x' !! s = x_sess x !! s ∧ x_sessSpinlock x' !! s = x_sessSpinlock x !! s
  ∧ x_handles x' !! s = x_handles x !! s.

(** The memory of a new session is fresh. *)
Definition fresh_session (x : SUPDRVDEVEXT) (rAlloc rTable : option ptr) : Prop :=
  (∀ p, rAlloc = Some p → VALID_PTR p = true ∧ sess_usage (x_objs x) p = [] ∧ ldr_usage (x_ldr x) p = []
                         ∧ snd (x_gip x) !! p = None)
  ∧ ∀ q, rTable = Some q → VALID_PTR q = true.

(** * Objects *)

(** Objects have only gone, and those left are of the type they were. *)
Definition heap_sub (o o' : ObjState) : Prop :=
  ∀ q ob', o_heap o' !! q = Some ob' → ∃ ob, o_heap o !! q = Some ob ∧ obj_enmType ob' = obj_enmType ob.

Lemma heap_sub_refl o : heap_sub o o.
Proof. intros q ob H. by exists ob. Qed.

Lemma heap_sub_trans o1 o2 o3 : heap_sub o1 o2 → heap_sub o2 o3 → heap_sub o1 o3.
Proof. intros H1 H2 q ob (ob2&H&->)%H2. by apply H1. Qed.

(** What the steps of a session's end do to the registry. *)
Definition session_step (s : ptr) (o o' : ObjState) : Prop :=
  obj_inv o' ∧ heap_sub o o' ∧ ∀ s', s' ≠ s → sess_usage o' s' = sess_usage o s'.

Lemma session_step_refl s o : obj_inv o → session_step s o o.
Proof. intros H. split; [done|]. split; [apply heap_sub_refl|done]. Qed.

Lemma session_step_trans s o1 o2 o3 : session_step s o1 o2 → session_step s o2 o3 → session_step s o1 o3.
Proof.
  intros (_&H1&U1) (Hi&H2&U2). split; [done|]. split; [by eapply heap_sub_trans|].
  intros s' Hs. by rewrite U2, U1.
Qed.

Lemma locked_sub o p ses rc o' : ObjRelease_locked o p ses = (rc, o') → heap_sub o o'.
Proof.
  intros H%release_locked_ident q ob' Hq. specialize (H q). rewrite Hq in H.
  destruct (o_heap o !! q) as [ob|]; [|done]. exists ob. split; [done|]. apply (inj Some) in H.
  unfold obj_ident in H. by simplify_eq.
Qed.

Lemma handle_delete_step h o p c pSession :
  obj_inv o → session_step (s_self pSession) o (fst (supdrvSessionObjHandleDelete pSession h p c o)).
Proof.
  intros Hinv. unfold supdrvSessionObjHandleDelete, SUPR0ObjRelease.
  destruct (negb (SUP_IS_SESSION_VALID pSession)); [by apply session_step_refl|].
  destruct (VALID_PTR p && (obj_magic o p =? SUPDRVOBJ_MAGIC)) eqn:E; cbn [negb]; [|by apply session_step_refl].
  apply andb_true_iff in E as [_ Hm%Z.eqb_eq].
  destruct (ObjRelease_locked o p pSession) as [rc o1] eqn:Hr. pose proof (locked_sub _ _ _ _ _ Hr) as Hsub.
  assert (Hoth : ∀ s, s ≠ s_self pSession → sess_usage o1 s = sess_usage o s).
  { intros s Hs. unfold ObjRelease_locked in Hr. repeat case_match; simplify_eq; try done;
      unfold sess_usage; simpl; by rewrite lookup_insert_ne. }
  assert (Hdead : rc = VINF_OBJECT_DESTROYED → obj_magic o1 p = SUPDRVOBJ_MAGIC_DEAD).
  { intros ->. destruct (release_locked_spec _ _ _ _ _ Hinv Hm Hr)
      as [(_&?&_)|(_&_&_&[(_&?&_)|(_&_&_&Hh)])]; [done|done|].
    destruct (obj_magic_lookup _ _ Hm) as (ob&Hob&_). unfold obj_magic.
    by rewrite Hh, lookup_alter_eq, Hob. }
  assert (Hinv1 : obj_inv o1).
  { by destruct (release_locked_spec _ _ _ _ _ Hinv Hm Hr) as [(_&_&->)|(_&?&_)]. }
  destruct (Z.eqb_spec rc VINF_OBJECT_DESTROYED) as [Hrc|Hrc]; [|done].
  unfold ObjDestroy. destruct (o_heap o1 !! p) as [ob|] eqn:Hob; [|done].
  split; [apply inv_delete_dead; auto|]. split; [|exact Hoth].
  intros q ob' Hq. simpl in Hq. apply lookup_delete_Some in Hq as [_ Hq]. by apply Hsub.
Qed.

Lemma destroy_handles_step pSession ot o rc o' ev :
  obj_inv o → RTHandleTableDestroy (supdrvSessionObjHandleDelete pSession) ot o = (rc, o', ev) →
  session_step (s_self pSession) o o'.
Proof.
  intros Hinv H. eapply (destroy_preserves _ (session_step (s_self pSession) o)) in H; [done| |by apply session_step_refl].
  intros h p c o1 H1. eapply session_step_trans; [exact H1|]. apply handle_delete_step, H1.
Qed.

(** Objects whose magic and count do not change. *)
Lemma obj_inv_heap o h :
  obj_inv o →
  (∀ p, (λ ob, (obj_u32Magic ob, obj_cUsage ob)) <$> h !! p
        = (λ ob, (obj_u32Magic ob, obj_cUsage ob)) <$> o_heap o !! p) →
  obj_inv (set_heap h o).
Proof.
  intros Hinv Hh. constructor; simpl.
  - apply Hinv.
  - intros p. rewrite (oi_list _ Hinv). specialize (Hh p).
    destruct (h !! p) as [o1|], (o_heap o !! p) as [o2|]; simplify_eq/=; [|done].
    split; intros (ob&[= <-]&Hm); eexists; (split; [done|congruence]).
  - intros p o1 Hp. specialize (Hh p). rewrite Hp in Hh.
    destruct (o_heap o !! p) as [o2|] eqn:E; simplify_eq/=.
    pose proof (oi_obj _ Hinv p o2 E) as Hok. unfold obj_ok in *.
    change (total (set_heap h o) p) with (total o p). by rewrite H, H0.
  - intros s us Hus. destruct (oi_sess _ Hinv s us Hus) as [Hnd Hall]. split; [done|].
    eapply Forall_impl; [exact Hall|]. intros u [Hu [ob Hob]]. split; [done|].
    specialize (Hh (us_pObj u)). rewrite Hob in Hh. destruct (h !! us_pObj u); [by eexists|done].
  - intros a. apply (oi_slots _ Hinv).
Qed.

Lemma clear_destructors_inv o i :
  obj_inv o → obj_inv (clear_destructors o i) ∧ heap_sub o (clear_destructors o i).
Proof.
  intros Hinv. pose proof (λ p, clear_destructors_lookup o i p (oi_nodup _ Hinv)) as Hl.
  unfold clear_destructors in *. split.
  - apply obj_inv_heap; [done|]. intros p. specialize (Hl p). simpl in Hl. rewrite Hl.
    destruct (decide _); [|done]. destruct (o_heap o !! p) as [ob|]; [|done]. simpl.
    by destruct (in_image i (obj_pfnDestructor ob)).
  - intros p ob' Hp. rewrite Hl in Hp. destruct (o_heap o !! p) as [ob|]; [|by destruct (decide _)].
    exists ob. split; [done|]. destruct (decide _); simpl in Hp; [|by simplify_eq].
    by destruct (in_image i (obj_pfnDestructor ob)); simplify_eq.
Qed.

(** The loader's cleanup as the object registry sees it. *)
Lemma cleanup_ldr_objs us : ∀ st o,
  obj_inv o →
  obj_inv (cleanup_ldr_usages st o us).1.2 ∧ heap_sub o (cleanup_ldr_usages st o us).1.2
  ∧ pUsage (cleanup_ldr_usages st o us).1.2 = pUsage o.
Proof.
  induction us as [|u us IH]; intros st o Hinv; cbn [cleanup_ldr_usages].
  { split; [done|]. split; [apply heap_sub_refl|done]. }
  assert (H1 : obj_inv (cleanup_ldr_usage st o u).1.2 ∧ heap_sub o (cleanup_ldr_usage st o u).1.2
               ∧ pUsage (cleanup_ldr_usage st o u).1.2 = pUsage o).
  { pose proof (heap_sub_refl o). unfold cleanup_ldr_usage. destruct (_ <? _); [done|]. unfold supdrvLdrFree.
    destruct (l_heap st !! lu_pImage u) as [im|]; [|done]. by destruct (clear_destructors_inv o im Hinv). }
  destruct (cleanup_ldr_usage st o u) as [[st1 o1] ev1]. destruct H1 as (Hinv1&Hs1&Hpu).
  specialize (IH st1 o1 Hinv1). simpl in *.
  destruct (cleanup_ldr_usages st1 o1 us) as [[st2 o2] ev2]. simpl in *.
  destruct IH as (?&?&->). split; [done|]. split; [by eapply heap_sub_trans|done].
Qed.

Lemma cleanup_objs_step o s o' ev :
  obj_inv o → supdrvCleanupSession_objs o s (λ _, id) = (o', ev) → session_step s o o' ∧ sess_usage o' s = [].
Proof.
  intros Hinv H. destruct (cleanup_usages_spec s _ _ o o' ev Hinv eq_refl (le_n _) H) as (Hi&Hs&Ho&_&Hh&_).
  split; [|done]. split; [done|]. split; [|done]. intros q ob' Hq. rewrite Hh in Hq. unfold cleanup_obj in Hq.
  repeat case_match; simplify_eq; [eauto|].
  destruct (o_heap o !! q) as [ob|]; simplify_eq/=. by exists ob.
Qed.

(** Another session's handles stay good. *)
Lemma session_step_handles s o o' (t : RTHANDLETABLEINT) s' :
  session_step s o o' → s' ≠ s → sem_inv (o, t) s' → sem_inv (o', t) s'.
Proof.
  intros (Hi&Hsub&Hu) Hs Hinv. eapply sem_inv_registry; [exact Hinv|done| |].
  - intros q. pose proof (si_refs _ _ Hinv q). unfold sess_refs in *. simpl in *. by rewrite Hu.
  - intros q ob ob' Hq (ob2&Hq2&->)%Hsub. by simplify_eq.
Qed.

(** Closing gives the GIP's session entry away and leaves the others. *)
Lemma cleanup_gip_other g pSession rcFree s :
  s ≠ s_self pSession → snd (supdrvCleanupSession_gip g pSession rcFree).1 !! s = snd g !! s.
Proof.
  intros Hs. destruct g as [d m]. unfold supdrvCleanupSession_gip.
  destruct (negb _); [|done]. unfold SUPR0GipUnmap.
  repeat (case_match; simplify_eq/=); rewrite ?lookup_alter_ne by done; try done;
    by rewrite ?lookup_insert_ne by done.
Qed.

Lemma cleanup_mem_events m : (supdrvCleanupSession_mem m).2
  = default [] ((λ b, (cleanup_bundle b).2) <$> head m)
    ++ (tail m ≫= λ b, (cleanup_bundle b).2 ++ [EvMemFree (bu_self b)]).
Proof. destruct m as [|b m]; [done|]. simpl. by destruct (cleanup_bundle b). Qed.

Lemma cleanup_mem_frees m e ev :
  e ∈ tracked m → ev ∈ memref_free e → ev ∈ (supdrvCleanupSession_mem m).2.
Proof.
  intros (b&He&Hb)%list_elem_of_bind Hev. rewrite cleanup_mem_events.
  assert (Hbe : ev ∈ (cleanup_bundle b).2).
  { rewrite cleanup_bundle_events. apply list_elem_of_bind. by exists e. }
  destruct m as [|b0 m]; [by apply not_elem_of_nil in Hb|]. simpl.
  apply elem_of_cons in Hb as [->|Hb]; apply elem_of_app; [by left|right].
  apply list_elem_of_bind. exists b. split; [|done]. apply elem_of_app. by left.
Qed.

(** * Sessions *)

(** The users of the page after a session's cleanup, and the page's mapping. *)
Lemma cleanup_gip_count x pSession rcFree fRun :
  gip_users_ok (x_gip x, fRun) →
  let r := supdrvCleanupSession_gip (x_gip x) pSession rcFree in
  d_cGipUsers (fst r.1) = d_cGipUsers (fst (x_gip x)) - (if gip_given_back x pSession rcFree then 1 else 0)
  ∧ (SUP_IS_SESSION_VALID pSession = true →
     gs_GipMapObjR3 (gip_sess (snd (x_gip x)) (s_self pSession)) ≠ NIL_RTR0MEMOBJ →
     EvMemObjFree (gs_GipMapObjR3 (gip_sess (snd (x_gip x)) (s_self pSession))) false ∈ r.2).
Proof.
  unfold gip_given_back, supdrvCleanupSession_gip, SUPR0GipUnmap. destruct (x_gip x) as [d m]. intros [Hu _].
  cbn [fst snd]. pose proof (gip_refs_referenced m (s_self pSession)) as Hpos.
  set (g := gip_sess m (s_self pSession)) in *.
  destruct (SUP_IS_SESSION_VALID pSession) eqn:Ev; cbn [negb andb];
    [|destruct (negb (gs_GipMapObjR3 g =? NIL_RTR0MEMOBJ)); cbn [fst snd]; split; [lia|done|lia|done]].
  destruct (Z.eqb_spec (gs_GipMapObjR3 g) NIL_RTR0MEMOBJ) as [Em|Em]; cbn [negb andb fst snd].
  { split; [lia|done]. }
  assert (Hr : gs_fGipReferenced (if RT_SUCCESS rcFree then mkGipSess NIL_RTR0MEMOBJ (gs_fGipReferenced g) else g)
               = gs_fGipReferenced g) by by destruct (RT_SUCCESS rcFree).
  rewrite Hr. destruct (gs_fGipReferenced g) eqn:Ef; cbn [andb]; [|cbn [fst snd]; split; [lia|set_solver]].
  specialize (Hpos eq_refl). destruct (Z.eqb_spec rcFree 0) as [->|]; cbn [andb]; [|cbn [fst snd]; split; [lia|set_solver]].
  destruct (Z.ltb_spec 0 (d_cGipUsers d)); [|lia]. cbn [andb].
  destruct (d_cGipUsers d - 1 =? 0); cbn [fst snd]; (split; [reflexivity|set_solver]).
Qed.

(** Closing, component by component. *)
Lemma close_cases x pSession rcGipFree x' ev :
  dev_inv x →
  supdrvCloseSession x pSession rcGipFree = (x', ev) →
  let s := s_self pSession in
  dev_inv x' ∧ session_gone x' s ∧ (∀ s', s' ≠ s → session_same x x' s')
  ∧ (∀ e f, e ∈ tracked (default [] (x_mem x !! s)) → f ∈ memref_free e → f ∈ ev)
  ∧ d_cGipUsers (fst (x_gip x')) = d_cGipUsers (fst (x_gip x)) - (if gip_given_back x pSession rcGipFree then 1 else 0)
  ∧ (SUP_IS_SESSION_VALID pSession = true →
     gs_GipMapObjR3 (gip_sess (snd (x_gip x)) s) ≠ NIL_RTR0MEMOBJ →
     EvMemObjFree (gs_GipMapObjR3 (gip_sess (snd (x_gip x)) s)) false ∈ ev)
  ∧ ∃ ev', ev = ev' ++ [EvSpinlockDestroy (default NIL_RTSPINLOCK (x_sessSpinlock x !! s)); EvMemFree s].
Proof.
  intros [Hobj Hldr Hfac Hht Hmwf [fRun Hgip] Hses] Hcl. cbv zeta. unfold supdrvCloseSession, supdrvCleanupSession in Hcl.
  set (s := s_self pSession) in *.
  destruct (RTHandleTableDestroy (supdrvSessionObjHandleDelete pSession) (x_handles x !! s) (x_objs x))
    as [[rc1 o1] ev1] eqn:E1.
  pose proof (destroy_handles_step _ _ _ _ _ _ Hobj E1) as Hs1. fold s in Hs1.
  destruct (supdrvCleanupSession_objs o1 s (λ _, id)) as [o2 ev2] eqn:E2.
  destruct (cleanup_objs_step _ _ _ _ (proj1 Hs1) E2) as [Hs2 Hgone].
  pose proof (λ e f, cleanup_mem_frees (default [] (x_mem x !! s)) e f) as Hmem.
  destruct (supdrvCleanupSession_mem (default [] (x_mem x !! s))) as [m3 ev3].
  destruct (supdrvCleanupSession_factories (x_fac x) s) as [f4 ev4] eqn:E4.
  rewrite cleanup_factories_filter in E4. injection E4 as <- <-.
  pose proof (cleanup_ldr_inv (x_ldr x) o2 s Hldr) as Hl.
  pose proof (cleanup_ldr_objs (ldr_usage (x_ldr x) s) (set_pLdrUsage s [] (x_ldr x)) o2 (proj1 Hs2)) as Hlo.
  unfold supdrvCleanupSession_ldr in *.
  destruct (cleanup_ldr_usages (set_pLdrUsage s [] (x_ldr x)) o2 (ldr_usage (x_ldr x) s)) as [[l5 o5] ev5].
  cbn [fst snd] in Hl, Hlo. destruct Hl as (Hl5&_&Hu5), Hlo as (Hi5&Hsub5&Hp5).
  pose proof (λ s' H, cleanup_gip_other (x_gip x) pSession rcGipFree s' H) as Hg.
  pose proof (cleanup_gip_count x pSession rcGipFree fRun Hgip) as Hcnt.
  destruct (supdrvCleanupSession_gip (x_gip x) pSession rcGipFree) as [g6 ev6] eqn:E6.
  pose proof (gip_step_ok _ _ Hgip (gstep_close _ _ _ _ _ _ E6)) as Hgip6. fold s in Hgip6.
  cbn [fst snd] in Hg, Hcnt. injection Hcl as <- <-.
  assert (Husage : ∀ s', sess_usage o5 s' = sess_usage o2 s') by (intros s'; unfold sess_usage; by rewrite Hp5).
  assert (Hall : session_step s (x_objs x) o5).
  { eapply session_step_trans; [exact Hs1|]. eapply session_step_trans; [exact Hs2|].
    split; [done|]. split; [done|]. intros s' _. apply Husage. }
  split_and!.
  - constructor; cbn [x_objs x_ldr x_fac x_handles x_mem x_gip set_parts fst snd]; [apply Hall|done| | | |by eexists|].
    + eapply fac_sublist_inv; [|exact Hfac]. apply sublist_filter.
    + intros s' t [Hne Ht]%lookup_delete_Some. eapply session_step_handles; [exact Hall|done|by apply Hht].
    + intros s' m [Hne Hm]%lookup_delete_Some. rewrite lookup_insert_ne in Hm by done. by eapply Hmwf.
    + intros s' p Hp. cbn [x_sess set_parts] in Hp. apply lookup_delete_Some in Hp as [Hne Hp].
      rewrite lookup_insert_ne in Hp by done. unfold sess_ok. cbn [x_mem x_handles set_parts].
      rewrite !lookup_delete_ne, lookup_insert_ne by done. by apply Hses.
  - unfold session_gone. cbn [x_objs x_ldr x_mem x_fac x_gip x_sess x_sessSpinlock x_handles set_parts snd].
    rewrite Husage. split_and!; try apply lookup_delete_eq; [done| |].
    + unfold ldr_usage. by rewrite Hu5, lookup_insert_eq.
    + apply Forall_forall. intros r [Hr _]%list_elem_of_filter. done.
  - intros s' Hs'. unfold session_same.
    cbn [x_objs x_ldr x_mem x_fac x_gip x_sess x_sessSpinlock x_handles set_parts snd].
    rewrite !lookup_delete_ne, !lookup_insert_ne by done. split_and!; try done.
    + by apply Hall.
    + unfold ldr_usage. by rewrite Hu5, lookup_insert_ne by done.
    + rewrite list_filter_filter. apply list_filter_iff. intros r. split; [tauto|].
      intros <-. done.
    + by apply Hg.
  - intros e f He Hf. apply elem_of_app; left.
    apply elem_of_app; right. apply elem_of_app; right. apply elem_of_app; left. by eapply Hmem.
  - exact (proj1 Hcnt).
  - intros Hv Hm. apply elem_of_app; left. do 5 (apply elem_of_app; right). by apply (proj2 Hcnt).
  - by eexists.
Qed.

(** The entry points, too, are as good as they were. *)
Lemma close_eps x pSession rcGipFree x' ev :
  dev_inv x → supdrvCloseSession x pSession rcGipFree = (x', ev) → eps_ok (x_ldr x) → eps_ok (x_ldr x').
Proof.
  intros Hinv Hcl Heps. unfold supdrvCloseSession, supdrvCleanupSession in Hcl.
  destruct (RTHandleTableDestroy _ _ _) as [[rc1 o1] ev1]. destruct (supdrvCleanupSession_objs o1 _ _) as [o2 ev2].
  destruct (supdrvCleanupSession_mem _) as [m3 ev3]. destruct (supdrvCleanupSession_factories _ _) as [f4 ev4].
  destruct (cleanup_ldr_inv (x_ldr x) o2 (s_self pSession) (di_ldr _ Hinv)) as (_&He&_).
  destruct (supdrvCleanupSession_ldr _ _ _) as [[l5 o5] ev5]. destruct (supdrvCleanupSession_gip _ _ _) as [g6 ev6].
  injection Hcl as <- <-. by apply He.
Qed.

(** C8. Closing a session while no other thread works on the driver.  In a device extension
    that satisfies the invariant, which is kept, it removes its usage records for objects and images, its memory
    bundles, component factories, GIP entry, header, spinlock and handle table; every
    other session's object references, image references, memory, factories, GIP state,
    handles and header are what they were; everything the session's memory bundles track is
    freed, and so is its mapping of the page; and the calls end with the destruction of the
    session's spinlock and structure.  One thing may stay behind, the session's share of
    [cGipUsers]: the count goes down exactly if the session referenced the page and also had
    it mapped, and the mapping could be freed ([gip_given_back]); a session that only asked
    for the physical address leaves the count as it is. *)
Theorem close_session_spec x pSession rcGipFree x' ev :
  dev_inv x →
  supdrvCloseSession x pSession rcGipFree = (x', ev) →
  let s := s_self pSession in
  dev_inv x' ∧ session_gone x' s ∧ (∀ s', s' ≠ s → session_same x x' s')
  ∧ (∀ e f, e ∈ tracked (default [] (x_mem x !! s)) → f ∈ memref_free e → f ∈ ev)
  ∧ d_cGipUsers (fst (x_gip x')) = d_cGipUsers (fst (x_gip x)) - (if gip_given_back x pSession rcGipFree then 1 else 0)
  ∧ (SUP_IS_SESSION_VALID pSession = true →
     gs_GipMapObjR3 (gip_sess (snd (x_gip x)) s) ≠ NIL_RTR0MEMOBJ →
     EvMemObjFree (gs_GipMapObjR3 (gip_sess (snd (x_gip x)) s)) false ∈ ev)
  ∧ ∃ ev', ev = ev' ++ [EvSpinlockDestroy (default NIL_RTSPINLOCK (x_sessSpinlock x !! s)); EvMemFree s].
Proof. apply close_cases. Qed.

(** Loading, case by case. *)
Lemma init_cases funcs cbSession env x rc ev rcA hMem pv phys :
  0 < ce_Resolution (ie_gip env) < 2 ^ 32 → 0 ≤ ce_cArray (ie_gip env) →
  ce_Alloc (ie_gip env) = (rcA, hMem, pv, phys) →
  (RT_SUCCESS rcA = true → hMem ≠ NIL_RTR0MEMOBJ ∧ pv ≠ NULL) →
  supdrvInitDevExt funcs cbSession env = Some (rc, x, ev) →
  if RT_SUCCESS rc then
    dev_inv x ∧ x_sess x = ∅ ∧ x_u32Cookie x = BIRD
    ∧ x_aFunctions x = fixup_absolute (ie_regs env) funcs
    ∧ ev = [] ∧ create_notify_ok (ie_gip env) = true
    ∧ let '(x', ev') := supdrvDeleteDevExt x in
      gip_none (fst (x_gip x'))
      ∧ ev' ≡ₚ init_created env ++ create_undo hMem (negb (snd (create_timer (ie_gip env)) =? NULL)) false
      ∧ EvMpDeregister ∉ ev'
  else ev = init_gip_undone env ++ init_created env ∧ gip_none (fst (x_gip x)).
Proof.
  intros Hres Harr Halloc Hh Hinit. unfold supdrvInitDevExt in Hinit.
  assert (Hnone0 : gip_none gipext_zero) by (repeat split).
  unfold init_created, init_gip_undone.
  destruct (ie_Spinlock env) as [rc1 h1]. cbn [fst snd].
  destruct (RT_SUCCESS rc1) eqn:E1.
  2:{ injection Hinit as <- <- <-. by rewrite E1. }
  destruct (ie_mtxLdr env) as [rc2 h2]. cbn [fst snd].
  destruct (RT_SUCCESS rc2) eqn:E2.
  2:{ injection Hinit as <- <- <-. by rewrite E2. }
  destruct (ie_mtxComponentFactory env) as [rc3 h3]. cbn [fst snd].
  destruct (RT_SUCCESS rc3) eqn:E3.
  2:{ injection Hinit as <- <- <-. by rewrite E3. }
  destruct (ie_mtxGip env) as [rc4 h4]. cbn [fst snd].
  destruct (RT_SUCCESS rc4) eqn:E4.
  2:{ injection Hinit as <- <- <-. by rewrite E4. }
  destruct (gip_create_cases gipext_zero (ie_gip env) rcA hMem pv phys Hnone0 Hres Halloc Hh Harr)
    as (rc5&g&evg&Hcreate&Hcases).
  rewrite Hcreate in Hinit. destruct (RT_SUCCESS rc5) eqn:E5.
  - injection Hinit as <- <- <-. change (RT_SUCCESS VINF_SUCCESS) with true. cbv iota.
    destruct Hcases as (->&EA&_&_&Hmem&Hstart&Htm&Hnot&_).
    split.
    { split; [apply obj_init_inv|apply ldr_init_inv|split; constructor|done|done| |done].
      exists false. destruct Hstart as [H0 H1]. cbn. by rewrite H0, H1. }
    split_and!; [done|done|done|done|done|].
    unfold supdrvDeleteDevExt, supdrvGipDestroy. cbn [x_gip fst snd set_locks set_parts x_objs].
    destruct (Hh EA) as [Hne _]. rewrite Hmem, Htm, (proj2 (Z.eqb_neq _ _) Hne).
    destruct Hstart as [_ ->]. cbn [negb Z.eqb].
    cbn [pObjs pUsageFree obj_init fmap list_fmap app x_mtxGip x_mtxLdr x_Spinlock x_mtxComponentFactory].
    split; [repeat split|]. split.
    + apply perm_skip, (Permutation_app_tail _ (Permutation_app_comm [_; _] [_])).
    + destruct (negb _); cbn [app]; repeat (apply not_elem_of_cons; split; [done|]); apply not_elem_of_nil.
  - injection Hinit as <- <- <-. rewrite E5. destruct Hcases as (Hn&->&_). split; [|exact Hn].
    cbn [andb]. by rewrite <- !app_assoc.
Qed.

(** C9. Loading and unloading the driver.  When [supdrvInitDevExt] succeeds, the device
    extension satisfies the components' invariants, has no session, the initial cookie and
    the function table, and it has registered the notification of processors that come and
    go; unloading it as it is then calls exactly the destruction of the four locks and of the
    timer, if there is one, and the freeing of the page's memory, and leaves nothing of the
    page in the device extension, but it does not deregister the notification: it never
    does, so the system can call [supdrvGipMpEvent] after the driver has gone.  When
    [supdrvInitDevExt] fails, it gives back exactly what it had acquired and in reverse
    order: what the creation of the page had got by then, notification included, then the
    locks created so far.  This is for a timer resolution that is not zero, and an allocator
    that returns neither the nil handle nor the null address with success. *)
Theorem init_delete_devext funcs cbSession env x rc ev rcA hMem pv phys :
  0 < ce_Resolution (ie_gip env) < 2 ^ 32 → 0 ≤ ce_cArray (ie_gip env) →
  ce_Alloc (ie_gip env) = (rcA, hMem, pv, phys) →
  (RT_SUCCESS rcA = true → hMem ≠ NIL_RTR0MEMOBJ ∧ pv ≠ NULL) →
  supdrvInitDevExt funcs cbSession env = Some (rc, x, ev) →
  if RT_SUCCESS rc then
    dev_inv x ∧ x_sess x = ∅ ∧ x_u32Cookie x = BIRD
    ∧ x_aFunctions x = fixup_absolute (ie_regs env) funcs
    ∧ ev = [] ∧ create_notify_ok (ie_gip env) = true
    ∧ let '(x', ev') := supdrvDeleteDevExt x in
      gip_none (fst (x_gip x'))
      ∧ ev' ≡ₚ init_created env ++ create_undo hMem (negb (snd (create_timer (ie_gip env)) =? NULL)) false
      ∧ EvMpDeregister ∉ ev'
  else ev = init_gip_undone env ++ init_created env ∧ gip_none (fst (x_gip x)).
Proof. apply init_cases. Qed.

(** An empty usage list for an address that has none changes no count. *)
Lemma fresh_usage_inv o p :
  obj_inv o → sess_usage o p = [] →
  obj_inv (set_pUsage p [] o) ∧ ∀ s q, sess_refs (set_pUsage p [] o) s q = sess_refs o s q.
Proof.
  intros [H1 H2 H3 H4 H5] Ho. split.
  - split; simpl.
    + done.
    + done.
    + intros q ob Hq. rewrite total_set_pUsage. unfold sess_refs. rewrite Ho.
      change (sess_count q []) with 0. replace (total o q - 0 + 0) with (total o q) by lia. auto.
    + intros s us. rewrite lookup_insert_Some. intros [[_ <-]|[_ Hus]]; [split; constructor|eauto].
    + intros a'. unfold set_pUsage. rewrite slots_set, Ho. specialize (H5 a').
      change (slot_count a' []) with 0. lia.
  - intros s q. unfold sess_refs, sess_usage in *. simpl. destruct (decide (s = p)) as [->|].
    + by rewrite lookup_insert_eq, Ho.
    + by rewrite lookup_insert_ne.
Qed.

(** A fresh session has empty lists everywhere and disturbs nobody. *)
Lemma create_session_inv x fUser rAlloc rSpin rTable rTableSpin Process R0Process rc p x' ev :
  dev_inv x →
  (∀ p, rAlloc = Some p → VALID_PTR p = true ∧ sess_usage (x_objs x) p = [] ∧ ldr_usage (x_ldr x) p = []
                         ∧ snd (x_gip x) !! p = None) →
  (∀ q, rTable = Some q → VALID_PTR q = true) →
  supdrvCreateSession x fUser rAlloc rSpin rTable rTableSpin Process R0Process = (rc, p, x', ev) →
  dev_inv x'.
Proof.
  intros [Hobj Hldr Hfac Hht Hmwf Hgip Hses] Hfresh Htab H. unfold supdrvCreateSession in H.
  destruct rAlloc as [a|]; [|by injection H as <- <- <- <-].
  destruct (Hfresh a eq_refl) as (Hva&Ho&Hl&Hg). destruct rSpin as [rc1 h1].
  destruct (Z.eqb_spec rc1 0) as [->|]; [|by injection H as <- <- <- <-].
  destruct (RTHandleTableCreateEx _ 1 32768 true rTable rTableSpin) as [[rc2 ot] evt] eqn:Et.
  destruct (RT_SUCCESS rc2) eqn:Erc; injection H as <- <- <- <-; [|done].
  assert (Hot : is_Some ot).
  { eapply create_spec in Et; [|lia|lia|exact Htab|done]. destruct ot; [by eexists|].
    destruct Et as [Hrc _]. by rewrite (RT_FAILURE_SUCCESS _ Hrc) in Erc. }
  destruct (fresh_usage_inv _ _ Hobj Ho) as [Hobj' Hsame].
  split; cbn [x_objs x_ldr x_fac x_handles x_mem x_gip set_parts]; [done| |done| | | |].
  - apply linv_set_usage; [done|split; [split|]; constructor|]. intros q i Hq.
    destruct (lv_count _ Hldr q i Hq). unfold ldr_refs. rewrite Hl.
    change (rcount lu_pImage lu_cUsage q []) with 0. lia.
  - assert (Hold : ∀ s t, x_handles x !! s = Some t → sem_inv (set_pUsage a [] (x_objs x), t) s).
    { intros s t Ht. eapply sem_inv_registry; [by apply Hht|done| |].
      - intros q. rewrite Hsame. apply (si_refs _ _ (Hht s t Ht) q).
      - intros q ob ob' H1 H2. simpl in H2. by simplify_eq. }
    intros s t. destruct ot as [t0|]; [|by apply Hold]. simpl. rewrite lookup_insert_Some.
    intros [[<- <-]|[_ Ht]]; [|by apply Hold]. by eapply fresh_table_inv.
  - intros s m. rewrite lookup_insert_Some. intros [[_ <-]|[_ Hm]]; [apply sessmem_init_wf|by eapply Hmwf].
  - destruct Hgip as [b Hgip], (x_gip x) as [d m]. exists b. destruct Hgip as (Hr&Hb). split; [|exact Hb].
    cbn [snd] in *. rewrite gip_refs_insert. unfold gip_sess. rewrite Hg. simpl. lia.
  - destruct Hot as [t ->]. intros s p. simpl. rewrite lookup_insert_Some. unfold sess_ok. simpl.
    intros [[<- <-]|[Hne Hp]].
    + rewrite !lookup_insert_eq. split_and!; try by eexists. unfold SUP_IS_SESSION_VALID. simpl. by rewrite Hva.
    + rewrite !lookup_insert_ne by done. by apply Hses.
Qed.

Lemma create_session_eps x fUser rAlloc rSpin rTable rTableSpin Process R0Process rc p x' ev :
  supdrvCreateSession x fUser rAlloc rSpin rTable rTableSpin Process R0Process = (rc, p, x', ev) →
  eps_ok (x_ldr x) → eps_ok (x_ldr x').
Proof.
  intros H Heps. unfold supdrvCreateSession in H. repeat case_match; simplify_eq; exact Heps.
Qed.

(** * Witnesses *)

Definition demo_init_env : InitEnv :=
  mkInitEnv (VINF_SUCCESS, 11) (VINF_SUCCESS, 12) (VINF_SUCCESS, 13) (VINF_SUCCESS, 14) demo_create
    (mkSegRegs 16 24 0 0 0 0).
Definition demo_dev : SUPDRVDEVEXT :=
  mkDevExt 11 12 13 14 BIRD 8192 obj_init ∅ ldr_init [] (demo_ext1, ∅) ∅ ∅ ∅ [].
Definition demo_dev1 : SUPDRVDEVEXT :=
  (supdrvCreateSession demo_dev true (Some 0xffff880000010000) (0, 21) (Some 0xffff880000070000)
    (VINF_SUCCESS, 31) 1234 1234).1.2.

Lemma init_delete_devext_witness :
  ∃ x, supdrvInitDevExt [] 8192 demo_init_env = Some (VINF_SUCCESS, x, [])
    ∧ dev_inv x ∧ gip_none (fst (x_gip (supdrvDeleteDevExt x).1)).
Proof.
  destruct (supdrvInitDevExt [] 8192 demo_init_env) as [[[rc x] ev]|] eqn:E; [|vm_compute in E; discriminate E].
  pose proof (init_delete_devext [] 8192 demo_init_env x rc ev VINF_SUCCESS 7 0xffff880000400000 0x123000)
    as H.
  assert (match supdrvInitDevExt [] 8192 demo_init_env with Some (rc, _, ev) => (rc, ev) | None => (1, []) end
          = (VINF_SUCCESS, [])) as Hr by (vm_compute; reflexivity).
  rewrite E in Hr. injection Hr as -> ->.
  destruct H as (Hinv&_&_&_&_&_&H); [split; reflexivity|discriminate|reflexivity|split; discriminate|exact E|].
  exists x. split; [reflexivity|]. split; [exact Hinv|].
  destruct (supdrvDeleteDevExt x) as [x' ev']. exact (proj1 H).
Defined.

Lemma close_session_spec_witness :
  session_gone (supdrvCloseSession demo_dev1 demo_user VINF_SUCCESS).1 0xffff880000010000.
Proof.
  destruct (supdrvCloseSession demo_dev1 demo_user VINF_SUCCESS) as [x' ev] eqn:E.
  assert (dev_inv demo_dev1) as Hinv.
  { apply (create_session_inv demo_dev true (Some 0xffff880000010000) (0, 21) (Some 0xffff880000070000)
             (VINF_SUCCESS, 31) 1234 1234 VINF_SUCCESS 0xffff880000010000 demo_dev1 []).
    - split; [apply obj_init_inv|apply ldr_init_inv|split; constructor|done|done| |done].
      exists false. split_and!; reflexivity || discriminate.
    - intros p [= <-]. split_and!; reflexivity.
    - intros q [= <-]. reflexivity.
    - reflexivity. }
  exact (proj1 (proj2 (close_session_spec demo_dev1 demo_user VINF_SUCCESS x' ev Hinv E))).
Defined.
