(* ===== verification/Idc.v ===== *)
(** Inter-driver communication: [supdrvIDC], its Linux entry [SUPDrvLinuxIDC], and the client
    library that other ring-0 drivers link (SUPR0IdcClient.c, SUPR0IdcClientComponent.c and
    the stubs of SUPR0IdcClientStubs.c).

    The client and the support driver run in the same kernel, so the client's calls change
    the device extension (Driver).  The members of a request's input union are the fields of
    [SUPDRVIDCREQ]: what reading the union as each of its structures gives. *)

From S2P Require Import Prelude SupTypes ObjReg MemTrack Loader Factory GipPage Gip FuncTable HandleTab Sem Driver.
Local Open Scope Z_scope.

(** * Data *)

Definition SUPDRV_IDC_VERSION : Z := 0x00010000.
Definition SUP_IDC_CODE (Function : Z) : Z := Z.lor 0xc0ffee00 (Z.land 0xff Function).
Definition SUPDRV_IDC_REQ_CONNECT : Z := SUP_IDC_CODE 1.
Definition SUPDRV_IDC_REQ_DISCONNECT : Z := SUP_IDC_CODE 2.
Definition SUPDRV_IDC_REQ_GET_SYMBOL : Z := SUP_IDC_CODE 3.
Definition SUPDRV_IDC_REQ_COMPONENT_REGISTER_FACTORY : Z := SUP_IDC_CODE 10.
Definition SUPDRV_IDC_REQ_COMPONENT_DEREGISTER_FACTORY : Z := SUP_IDC_CODE 11.
Definition SUPDRVIDCREQ_CONNECT_MAGIC_COOKIE : Z := 0x69726f74.

(** The sizes of the requests on a 64-bit host. *)
Definition SUPDRVIDCREQHDR_size : Z := 16.
Definition SUPDRVIDCREQCONNECT_size : Z := 40.
Definition SUPDRVIDCREQGETSYM_size : Z := 32.
Definition SUPDRVIDCREQCOMP_size : Z := 24.

Record SUPDRVIDCREQ := mkIdcReq {
  rq_cb : Z;
  rq_pSession : ptr;
  rq_u32MagicCookie : Z;
  rq_uReqVersion : Z;
  rq_uMinVersion : Z;
  rq_pszModule : option (list Z);
  rq_pszSymbol : option (list Z);
  rq_pFactory : ptr;
}.

(** What is stored in the output union. *)
Inductive IdcOut : Type :=
| OutNone
| OutConnect (pSession : ptr) (uSessionVersion uDriverVersion uDriverRevision : Z)
| OutSymbol (pfnSymbol : option ptr).

(** The function's result, [Hdr.rc] and the output when they are stored, the state and the
    calls. *)
Record IdcRes := mkIdcRes {
  ir_ret : Z;
  ir_rc : option Z;
  ir_out : IdcOut;
  ir_x : SUPDRVDEVEXT;
  ir_ev : list event;
}.

(** [ic_rAlloc] to [ic_rTableSpin]: as for [supdrvCreateSession]; [ic_facmem]: the memory of
    the factories; [ic_rReg], [ic_rUsage]: a registration and a usage record; [ic_pReq]: the
    address of the request, on the caller's stack. *)
Record IdcEnv := mkIdcEnv {
  ic_rAlloc : option ptr;
  ic_rSpin : Z * Z;
  ic_rTable : option ptr;
  ic_rTableSpin : Z * Z;
  ic_rcGipFree : Z;
  ic_facmem : gmap Z SUPDRVFACTORY;
  ic_rReg : option ptr;
  ic_rcLock : Z;
  ic_rUsage : option ptr;
  ic_VBOX_SVN_REV : Z;
  ic_pReq : ptr;
}.

Definition set_fac (f : FacState) (x : SUPDRVDEVEXT) : SUPDRVDEVEXT :=
  set_parts (x_objs x) (x_mem x) (x_ldr x) f (x_gip x) (x_sess x) (x_sessSpinlock x) (x_handles x) x.
Definition set_xldr (l : LdrState) (x : SUPDRVDEVEXT) : SUPDRVDEVEXT :=
  set_parts (x_objs x) (x_mem x) l (x_fac x) (x_gip x) (x_sess x) (x_sessSpinlock x) (x_handles x) x.

(** * The support driver's side *)

(** The major versions agree. *)
Definition same_major (a b : Z) : bool := Z.land a 0xffff0000 =? Z.land b 0xffff0000.

Section server.
Context (env : IdcEnv).

Definition idc_CONNECT (x : SUPDRVDEVEXT) (pSession : option SUPDRVSESSION) (pReq : SUPDRVIDCREQ) : IdcRes :=
  let invalid := mkIdcRes VERR_INVALID_PARAMETER (Some VERR_INVALID_PARAMETER) OutNone x [] in
  if negb (rq_pSession pReq =? NULL) then invalid
  else if negb (rq_u32MagicCookie pReq =? SUPDRVIDCREQ_CONNECT_MAGIC_COOKIE) then invalid
  else if (rq_uReqVersion pReq <? rq_uMinVersion pReq) || negb (same_major (rq_uMinVersion pReq) (rq_uReqVersion pReq))
  then invalid
  else
    match pSession with
    | Some _ => invalid
    | None =>
        let rev := ic_VBOX_SVN_REV env in
        if (SUPDRV_IDC_VERSION <? rq_uMinVersion pReq) || negb (same_major (rq_uMinVersion pReq) SUPDRV_IDC_VERSION)
        then mkIdcRes VINF_SUCCESS (Some VERR_VERSION_MISMATCH)
               (OutConnect NULL 0xffffffff SUPDRV_IDC_VERSION rev) x []
        else
          let '(rc, p, x, ev) :=
            supdrvCreateSession x false (ic_rAlloc env) (ic_rSpin env) (ic_rTable env) (ic_rTableSpin env)
              NIL_RTPROCESS NIL_RTR0PROCESS in
          if RT_FAILURE rc
          then mkIdcRes VINF_SUCCESS (Some rc) (OutConnect NULL SUPDRV_IDC_VERSION SUPDRV_IDC_VERSION rev) x ev
          else (* [Hdr.pSession] becomes the session, too *)
            mkIdcRes VINF_SUCCESS (Some rc) (OutConnect p SUPDRV_IDC_VERSION SUPDRV_IDC_VERSION rev) x ev
    end.

(** A null session fails [SUP_IS_SESSION_VALID]. *)
Definition null_session : SUPDRVSESSION := mkSession NULL 0 NULL NIL_RTHANDLETABLE 0 0 0 0.

(** [None]: a null session is used; the OS specific code refuses such a request before. *)
Definition supdrvIDC (uReq : Z) (x : SUPDRVDEVEXT) (pSession : option SUPDRVSESSION) (pReq : SUPDRVIDCREQ)
    : option IdcRes :=
  let bad_size := Some (mkIdcRes VERR_INVALID_PARAMETER (Some VERR_INVALID_PARAMETER) OutNone x []) in
  if from_option (λ s, negb (s_R0Process s =? NIL_RTR0PROCESS)) false pSession
  then Some (mkIdcRes VERR_INVALID_PARAMETER None OutNone x [])
  else if uReq =? SUPDRV_IDC_REQ_CONNECT then
    if negb (rq_cb pReq =? SUPDRVIDCREQCONNECT_size) then bad_size else Some (idc_CONNECT x pSession pReq)
  else if uReq =? SUPDRV_IDC_REQ_DISCONNECT then
    if negb (rq_cb pReq =? SUPDRVIDCREQHDR_size) then bad_size
    else
      match pSession with
      | None => None
      | Some s =>
          let '(x, ev) := supdrvCloseSession x s (ic_rcGipFree env) in
          Some (mkIdcRes VINF_SUCCESS (Some VINF_SUCCESS) OutNone x ev)
      end
  else if uReq =? SUPDRV_IDC_REQ_GET_SYMBOL then
    if negb (rq_cb pReq =? SUPDRVIDCREQGETSYM_size) then bad_size
    else
      match pSession with
      | None => None
      | Some s =>
          let '(rc, pfn, l) :=
            supdrvIDC_LdrGetSymbol (x_ldr x) (s_self s) (x_aFunctions x) (rq_pszModule pReq) (rq_pszSymbol pReq)
              (ic_rUsage env) in
          Some (mkIdcRes VINF_SUCCESS (Some rc) (OutSymbol pfn) (set_xldr l x) [])
      end
  else if uReq =? SUPDRV_IDC_REQ_COMPONENT_REGISTER_FACTORY then
    if negb (rq_cb pReq =? SUPDRVIDCREQCOMP_size) then bad_size
    else
      let '(rc, f, ev) :=
        SUPR0ComponentRegisterFactory (x_fac x) (ic_facmem env) (default null_session pSession) (rq_pFactory pReq)
          (ic_rReg env) (ic_rcLock env) in
      Some (mkIdcRes VINF_SUCCESS (Some rc) OutNone (set_fac f x) ev)
  else if uReq =? SUPDRV_IDC_REQ_COMPONENT_DEREGISTER_FACTORY then
    if negb (rq_cb pReq =? SUPDRVIDCREQCOMP_size) then bad_size
    else
      let '(rc, f, ev) :=
        SUPR0ComponentDeregisterFactory (x_fac x) (default null_session pSession) (rq_pFactory pReq) (ic_rcLock env) in
      Some (mkIdcRes VINF_SUCCESS (Some rc) OutNone (set_fac f x) ev)
  else Some (mkIdcRes VERR_NOT_SUPPORTED None OutNone x []).

(** A pointer that is no session of the driver is taken to have another [pDevExt]. *)
Definition SUPDrvLinuxIDC (uReq : Z) (x : SUPDRVDEVEXT) (ppReq : ptr) (pReq : SUPDRVIDCREQ) : option IdcRes :=
  let ret rc := Some (mkIdcRes rc None OutNone x []) in
  if negb (VALID_PTR ppReq) then ret VERR_INVALID_POINTER
  else if negb (rq_pSession pReq =? NULL) then
    if negb (VALID_PTR (rq_pSession pReq)) then ret VERR_INVALID_PARAMETER
    else
      match x_sess x !! rq_pSession pReq with
      | None => ret VERR_INVALID_PARAMETER
      | Some s => supdrvIDC uReq x (Some s) pReq
      end
  else if negb (uReq =? SUPDRV_IDC_REQ_CONNECT) then ret VERR_INVALID_PARAMETER
  else supdrvIDC uReq x None pReq.

(** * The client *)

(** [g_pMainHandle], and [s.pSession] of every handle structure. *)
Record IdcClient := mkIdcClient {
  c_pMainHandle : ptr;
  c_pSession : gmap Z ptr;
}.

Definition set_main (old new : ptr) (c : IdcClient) : IdcClient :=
  if c_pMainHandle c =? old then mkIdcClient new (c_pSession c) else c.
Definition set_hSession (pHandle p : ptr) (c : IdcClient) : IdcClient :=
  mkIdcClient (c_pMainHandle c) (<[pHandle := p]> (c_pSession c)).
Definition hSession (c : IdcClient) (pHandle : ptr) : ptr := default NULL (c_pSession c !! pHandle).

(** [Hdr.rc] is [VERR_WRONG_ORDER] before the call. *)
Definition supR0IdcNativeCall (uReq : Z) (x : SUPDRVDEVEXT) (pReq : SUPDRVIDCREQ)
    : option (Z * IdcOut * SUPDRVDEVEXT * list event) :=
  match SUPDrvLinuxIDC uReq x (ic_pReq env) pReq with
  | None => None
  | Some r =>
      Some (if RT_SUCCESS (ir_ret r) then default VERR_WRONG_ORDER (ir_rc r) else ir_ret r, ir_out r, ir_x r, ir_ev r)
  end.

Definition hdr_req (cb : Z) (pSession : ptr) : SUPDRVIDCREQ := mkIdcReq cb pSession 0 0 0 None None NULL.

Definition SUPR0IdcClose (c : IdcClient) (x : SUPDRVDEVEXT) (pHandle : ptr)
    : option (Z * IdcClient * SUPDRVDEVEXT * list event) :=
  if negb (VALID_PTR pHandle) then Some (VERR_INVALID_POINTER, c, x, [])
  else if hSession c pHandle =? NULL then Some (VERR_INVALID_HANDLE, c, x, [])
  else if negb (VALID_PTR (hSession c pHandle)) then Some (VERR_INVALID_HANDLE, c, x, [])
  else
    match supR0IdcNativeCall SUPDRV_IDC_REQ_DISCONNECT x (hdr_req SUPDRVIDCREQHDR_size (hSession c pHandle)) with
    | None => None
    | Some (rc, _, x, ev) =>
        Some (rc, if RT_SUCCESS rc then set_main pHandle NULL (set_hSession pHandle NULL c) else c, x, ev)
    end.

(** What is stored through an optional pointer. *)
Definition store_opt (p : ptr) (v : Z) : list (ptr * Z) := if negb (p =? NULL) then [(p, v)] else [].

(** The result holds the stores through the three optional pointers, in order. *)
Definition SUPR0IdcOpen (c : IdcClient) (x : SUPDRVDEVEXT) (pHandle : ptr) (uReqVersion uMinVersion : Z)
    (puSessionVersion puDriverVersion puDriverRevision : ptr)
    : option (Z * list (ptr * Z) * IdcClient * SUPDRVDEVEXT * list event) :=
  if negb (VALID_PTR pHandle) then Some (VERR_INVALID_POINTER, [], c, x, [])
  else
    let c := set_hSession pHandle NULL c in
    if negb (VALID_PTR_OR_NULL puSessionVersion) then Some (VERR_INVALID_POINTER, [], c, x, [])
    else
      let out1 := store_opt puSessionVersion 0 in
      if negb (VALID_PTR_OR_NULL puDriverVersion) then Some (VERR_INVALID_POINTER, out1, c, x, [])
      else
        let out2 := out1 ++ store_opt puDriverVersion 0 in
        if negb (VALID_PTR_OR_NULL puDriverRevision) then Some (VERR_INVALID_POINTER, out2, c, x, [])
        else
          let out3 := out2 ++ store_opt puDriverRevision 0 in
          if negb ((uMinVersion =? 0) || same_major uMinVersion SUPDRV_IDC_VERSION)
          then Some (VERR_INVALID_PARAMETER, out3, c, x, [])
          else if negb ((uReqVersion =? 0) || same_major uReqVersion SUPDRV_IDC_VERSION)
          then Some (VERR_INVALID_PARAMETER, out3, c, x, [])
          else
            let uDefaultMinVersion := Z.land SUPDRV_IDC_VERSION 0xffff0000 in
            let uMinVersion := if (uMinVersion =? 0) || (uMinVersion <? uDefaultMinVersion)
                               then uDefaultMinVersion else uMinVersion in
            let uReqVersion := if (uReqVersion =? 0) || (uReqVersion <? uDefaultMinVersion)
                               then uDefaultMinVersion else uReqVersion in
            let Req := mkIdcReq SUPDRVIDCREQCONNECT_size NULL SUPDRVIDCREQ_CONNECT_MAGIC_COOKIE uReqVersion uMinVersion
                         None None NULL in
            match supR0IdcNativeCall SUPDRV_IDC_REQ_CONNECT x Req with
            | None => None
            | Some (rc, OutConnect pSession uSessionVersion uDriverVersion uDriverRevision, x, ev) =>
                if RT_SUCCESS rc then
                  let c := set_hSession pHandle pSession c in
                  let out := out3 ++ store_opt puSessionVersion uSessionVersion
                             ++ store_opt puDriverVersion uDriverVersion
                             ++ store_opt puDriverRevision uDriverRevision in
                  if VALID_PTR pSession && (uMinVersion <=? uSessionVersion)
                     && same_major uSessionVersion SUPDRV_IDC_VERSION
                  then Some (rc, out, set_main NULL pHandle c, x, ev)
                  else
                    match SUPR0IdcClose c x pHandle with
                    | None => None
                    | Some (_, c, x, ev') => Some (VERR_VERSION_MISMATCH, out, c, x, ev ++ ev')
                    end
                else Some (rc, out3, c, x, ev)
            | Some (rc, _, x, ev) => Some (rc, out3, c, x, ev)
            end.

Definition SUPR0IdcGetSession (c : IdcClient) (pHandle : ptr) : ptr :=
  if negb (VALID_PTR pHandle) then NULL
  else if negb (VALID_PTR (hSession c pHandle)) then NULL
  else hSession c pHandle.

Definition supR0IdcGetHandleFromSession (c : IdcClient) (pSession : ptr) : ptr :=
  let pHandle := c_pMainHandle c in
  if VALID_PTR pHandle && (hSession c pHandle =? pSession) then pHandle else NULL.

(** ** Components *)

Definition idc_component (uReq : Z) (c : IdcClient) (x : SUPDRVDEVEXT) (pHandle pFactory : ptr)
    : option (Z * SUPDRVDEVEXT * list event) :=
  if negb (VALID_PTR pHandle) then Some (VERR_INVALID_HANDLE, x, [])
  else if negb (VALID_PTR (hSession c pHandle)) then Some (VERR_INVALID_HANDLE, x, [])
  else
    match supR0IdcNativeCall uReq x
            (mkIdcReq SUPDRVIDCREQCOMP_size (hSession c pHandle) 0 0 0 None None pFactory) with
    | None => None
    | Some (rc, _, x, ev) => Some (rc, x, ev)
    end.

Definition SUPR0IdcComponentRegisterFactory := idc_component SUPDRV_IDC_REQ_COMPONENT_REGISTER_FACTORY.
Definition SUPR0IdcComponentDeregisterFactory := idc_component SUPDRV_IDC_REQ_COMPONENT_DEREGISTER_FACTORY.

(** ** Stubs *)

(** [ppfn]: the stub's static variable.  A success that stores no symbol leaves the union
    as the input has it, [pszModule], which is NULL. *)
Definition supR0IdcGetSymbol (c : IdcClient) (x : SUPDRVDEVEXT) (pHandle ppfn : ptr) (pszName : list Z)
    : option (ptr * SUPDRVDEVEXT) :=
  match supR0IdcNativeCall SUPDRV_IDC_REQ_GET_SYMBOL x
          (mkIdcReq SUPDRVIDCREQGETSYM_size (hSession c pHandle) 0 0 0 None (Some pszName) NULL) with
  | None => None
  | Some (rc, out, x, _) =>
      Some (if RT_SUCCESS rc then match out with OutSymbol pfn => default NULL pfn | _ => NULL end else ppfn, x)
  end.

Definition supR0IdcGetSymbolBySession (c : IdcClient) (x : SUPDRVDEVEXT) (pSession ppfn : ptr) (pszName : list Z)
    : option (ptr * SUPDRVDEVEXT) :=
  let pHandle := supR0IdcGetHandleFromSession c pSession in
  if negb (pHandle =? NULL) then supR0IdcGetSymbol c x pHandle ppfn pszName else Some (ppfn, x).

(** What a stub of the name calls, NULL for nothing, with its static variable and the state
    after; [pSession] is the stub's argument. *)
Definition idc_stub (szName : string) (s_pfn : ptr) (c : IdcClient) (x : SUPDRVDEVEXT) (pSession : ptr)
    : option (ptr * SUPDRVDEVEXT) :=
  if s_pfn =? NULL then supR0IdcGetSymbolBySession c x pSession s_pfn (bytes_of szName) else Some (s_pfn, x).

Definition stub_ObjRegister := idc_stub "SUPR0ObjRegister".
Definition stub_ObjAddRef := idc_stub "SUPR0ObjAddRef".
Definition stub_ObjRelease := idc_stub "SUPR0ObjRelease".
Definition stub_ObjVerifyAccess := idc_stub "SUPR0ObjVerifyAccess".
End server.

(** * Lemmas *)

Lemma set_fac_inv x f : dev_inv x → fac_inv f → dev_inv (set_fac f x).
Proof. intros [H1 H2 H3 H4 H5 H6 H7] Hf. by split. Qed.

Lemma set_xldr_id x : set_xldr (x_ldr x) x = x.
Proof. by destruct x. Qed.

Lemma set_fac_id x : set_fac (x_fac x) x = x.
Proof. by destruct x. Qed.

(** The driver's own symbols. *)
Definition own_module (pszModule : option (list Z)) : Prop := pszModule = None ∨ pszModule = Some szSupDrv.

Lemma own_symbol_state st s funcs pszModule pszSymbol rUsage :
  own_module pszModule → (supdrvIDC_LdrGetSymbol st s funcs pszModule pszSymbol rUsage).2 = st.
Proof.
  intros Hm. unfold supdrvIDC_LdrGetSymbol. destruct pszSymbol as [sz|]; [|done].
  destruct (negb _); [done|]. destruct (negb _); [done|].
  assert (from_option (λ szModule, bool_decide (szModule = szSupDrv)) true pszModule = true) as -> by by destruct Hm as [->| ->].
  by destruct (find_split _ _) as [[[? ?] ?]|].
Qed.

(** Creating a session that succeeds. *)
Lemma create_session_some x fUser rAlloc rSpin rTable rTableSpin Process R0Process rc p x' ev :
  supdrvCreateSession x fUser rAlloc rSpin rTable rTableSpin Process R0Process = (rc, p, x', ev) →
  p ≠ NULL →
  rAlloc = Some p
  ∧ ∃ ses, x_sess x' = <[p := ses]> (x_sess x) ∧ s_self ses = p
      ∧ s_R0Process ses = (if fUser then R0Process else NIL_RTR0PROCESS).
Proof.
  unfold supdrvCreateSession. destruct rAlloc as [a|]; [|by intros [= <- <- <- <-]].
  destruct rSpin as [rc1 h]. destruct (rc1 =? 0); [|by intros [= <- <- <- <-]].
  destruct (RTHandleTableCreateEx _ _ _ _ _ _) as [[rc2 ot] evt].
  destruct (RT_SUCCESS rc2); intros [= <- <- <- <-]; [|done]. intros _. split; [done|]. eexists. by split_and!.
Qed.

Lemma session_same_refl x s : session_same x x s.
Proof. by split_and!. Qed.

Lemma session_same_trans x1 x2 x3 s : session_same x1 x2 s → session_same x2 x3 s → session_same x1 x3 s.
Proof.
  intros (H1&H2&H3&H4&H5&H6&H7&H8) (G1&G2&G3&G4&G5&G6&G7&G8). split_and!; congruence.
Qed.

(** A new session leaves the others alone. *)
Lemma create_session_same x fUser rAlloc rSpin rTable rTableSpin Process R0Process rc p x' ev s :
  supdrvCreateSession x fUser rAlloc rSpin rTable rTableSpin Process R0Process = (rc, p, x', ev) →
  (∀ a, rAlloc = Some a → s ≠ a) → session_same x x' s.
Proof.
  intros H Hs. unfold supdrvCreateSession in H.
  destruct rAlloc as [a|]; [|injection H as <- <- <- <-; apply session_same_refl]. specialize (Hs a eq_refl).
  destruct rSpin as [rc1 h]. destruct (rc1 =? 0); [|injection H as <- <- <- <-; apply session_same_refl].
  destruct (RTHandleTableCreateEx _ _ _ _ _ _) as [[rc2 ot] evt].
  destruct (RT_SUCCESS rc2); injection H as <- <- <- <-; [|apply session_same_refl].
  unfold session_same, sess_usage, ldr_usage. cbn. rewrite !lookup_insert_ne by done. split_and!; try done.
  destruct ot; [simpl; by rewrite lookup_insert_ne|done].
Qed.

(** What a request through the Linux entry may be. *)
Definition idc_allowed (uReq : Z) (x : SUPDRVDEVEXT) (pReq : SUPDRVIDCREQ) : Prop :=
  (uReq = SUPDRV_IDC_REQ_CONNECT ∧ rq_pSession pReq = NULL ∧ rq_u32MagicCookie pReq = SUPDRVIDCREQ_CONNECT_MAGIC_COOKIE
   ∧ rq_uMinVersion pReq ≤ rq_uReqVersion pReq ∧ rq_uMinVersion pReq ≤ SUPDRV_IDC_VERSION
   ∧ same_major (rq_uMinVersion pReq) SUPDRV_IDC_VERSION = true)
  ∨ (uReq ≠ SUPDRV_IDC_REQ_CONNECT
     ∧ ∃ ses, x_sess x !! rq_pSession pReq = Some ses ∧ s_R0Process ses = NIL_RTR0PROCESS).

Lemma connect_cases env x pReq :
  (ir_x (idc_CONNECT env x None pReq) = x ∧ ir_ev (idc_CONNECT env x None pReq) = []
   ∧ (RT_SUCCESS (ir_ret (idc_CONNECT env x None pReq)) = true →
      ∃ rc, ir_rc (idc_CONNECT env x None pReq) = Some rc ∧ RT_SUCCESS rc = false))
  ∨ (rq_pSession pReq = NULL ∧ rq_u32MagicCookie pReq = SUPDRVIDCREQ_CONNECT_MAGIC_COOKIE
     ∧ rq_uMinVersion pReq ≤ rq_uReqVersion pReq ∧ rq_uMinVersion pReq ≤ SUPDRV_IDC_VERSION
     ∧ same_major (rq_uMinVersion pReq) SUPDRV_IDC_VERSION = true
     ∧ ∃ rc p x' ev,
         supdrvCreateSession x false (ic_rAlloc env) (ic_rSpin env) (ic_rTable env) (ic_rTableSpin env)
           NIL_RTPROCESS NIL_RTR0PROCESS = (rc, p, x', ev)
         ∧ idc_CONNECT env x None pReq
           = mkIdcRes VINF_SUCCESS (Some rc)
               (OutConnect (if RT_FAILURE rc then NULL else p) SUPDRV_IDC_VERSION SUPDRV_IDC_VERSION (ic_VBOX_SVN_REV env))
               x' ev).
Proof.
  unfold idc_CONNECT. destruct (Z.eqb_spec (rq_pSession pReq) NULL); [|by left]. cbn [negb].
  destruct (Z.eqb_spec (rq_u32MagicCookie pReq) SUPDRVIDCREQ_CONNECT_MAGIC_COOKIE); [|by left]. cbn [negb].
  destruct (Z.ltb_spec (rq_uReqVersion pReq) (rq_uMinVersion pReq)); [by left|]. cbn [orb].
  destruct (same_major (rq_uMinVersion pReq) (rq_uReqVersion pReq)); [|by left]. cbn [negb]. cbv zeta.
  destruct (Z.ltb_spec SUPDRV_IDC_VERSION (rq_uMinVersion pReq)); cbn [orb].
  { left. split_and!; try done. intros _. by eexists. }
  destruct (same_major (rq_uMinVersion pReq) SUPDRV_IDC_VERSION); cbn [negb].
  2:{ left. split_and!; try done. intros _. by eexists. }
  right. split_and!; try done.
  destruct (supdrvCreateSession _ _ _ _ _ _ _ _) as [[[rc p] x'] ev]. exists rc, p, x', ev.
  split; [done|]. by destruct (RT_FAILURE rc).
Qed.

(** Taking the Linux entry apart. *)
Lemma linux_idc_cases env uReq x ppReq pReq r :
  SUPDrvLinuxIDC env uReq x ppReq pReq = Some r →
  (ir_x r = x ∧ ir_ev r = [])
  ∨ (idc_allowed uReq x pReq
     ∧ ((uReq = SUPDRV_IDC_REQ_CONNECT ∧ r = idc_CONNECT env x None pReq)
        ∨ ∃ ses, x_sess x !! rq_pSession pReq = Some ses ∧ supdrvIDC env uReq x (Some ses) pReq = Some r)).
Proof.
  unfold SUPDrvLinuxIDC. cbv zeta. destruct (VALID_PTR ppReq); cbn [negb]; [|intros [= <-]; by left].
  destruct (Z.eqb_spec (rq_pSession pReq) NULL) as [Hn|Hn]; cbn [negb].
  - destruct (Z.eqb_spec uReq SUPDRV_IDC_REQ_CONNECT) as [->|]; cbn [negb]; [|intros [= <-]; by left].
    unfold supdrvIDC. cbn [from_option]. rewrite Z.eqb_refl. destruct (negb (rq_cb pReq =? _)); intros [= <-]; [by left|].
    destruct (connect_cases env x pReq) as [(?&?&_)|(?&?&?&?&?&_)]; [by left|]. right.
    split; [left; by split_and!|by left].
  - destruct (VALID_PTR (rq_pSession pReq)); cbn [negb]; [|intros [= <-]; by left].
    destruct (x_sess x !! rq_pSession pReq) as [ses|] eqn:E; [|intros [= <-]; by left]. intros H.
    assert (Hor : uReq = SUPDRV_IDC_REQ_CONNECT ∨ uReq ≠ SUPDRV_IDC_REQ_CONNECT) by lia.
    destruct (Z.eqb_spec (s_R0Process ses) NIL_RTR0PROCESS) as [Hk|Hk].
    2:{ unfold supdrvIDC in H. cbn [from_option] in H. rewrite (proj2 (Z.eqb_neq _ _) Hk) in H.
        injection H as <-. by left. }
    destruct Hor as [->|Hne].
    { unfold supdrvIDC, idc_CONNECT in H. cbn [from_option] in H. rewrite Hk, !Z.eqb_refl in H. cbn [negb] in H.
      rewrite (proj2 (Z.eqb_neq _ _) Hn) in H. cbn [negb] in H.
      destruct (negb _); injection H as <-; by left. }
    right. split; [right; split; [done|by exists ses]|]. right. by exists ses.
Qed.

(** The symbol requests keep the loader as it is when they ask for the driver's own. *)
Definition idc_own (uReq : Z) (pReq : SUPDRVIDCREQ) : Prop :=
  uReq = SUPDRV_IDC_REQ_GET_SYMBOL → own_module (rq_pszModule pReq).

(** The memory of a session or a registration a request makes is fresh. *)
Definition idc_fresh (env : IdcEnv) (x : SUPDRVDEVEXT) : Prop :=
  fresh_session x (ic_rAlloc env) (ic_rTable env) ∧ ∀ p, ic_rReg env = Some p → p ∉ fr_self <$> x_fac x.

Lemma idc_inv env uReq x ppReq pReq r :
  dev_inv x → idc_fresh env x → idc_own uReq pReq →
  SUPDrvLinuxIDC env uReq x ppReq pReq = Some r → dev_inv (ir_x r).
Proof.
  intros Hinv [[Hf Ht] Hreg] Hown H.
  destruct (linux_idc_cases _ _ _ _ _ _ H) as [[-> _]|[_ [[_ ->]|(ses&Hs&Hr)]]]; [done| |].
  - destruct (connect_cases env x pReq) as [(->&_)|(_&_&_&_&_&rc&p&x'&ev&Hc&->)]; [done|].
    by eapply create_session_inv.
  - unfold supdrvIDC in Hr. destruct (from_option _ _ _); [by injection Hr as <-|].
    destruct (uReq =? SUPDRV_IDC_REQ_CONNECT).
    { destruct (negb _); injection Hr as <-; [done|]. unfold idc_CONNECT. cbv zeta. by repeat (destruct (negb _) || destruct (_ || _)). }
    destruct (uReq =? SUPDRV_IDC_REQ_DISCONNECT).
    { destruct (negb _); [by injection Hr as <-|]. destruct (supdrvCloseSession _ _ _) as [x' ev] eqn:E.
      injection Hr as <-. by destruct (close_cases _ _ _ _ _ Hinv E) as [? _]. }
    destruct (Z.eqb_spec uReq SUPDRV_IDC_REQ_GET_SYMBOL) as [->|].
    { destruct (negb _); [by injection Hr as <-|].
      pose proof (own_symbol_state (x_ldr x) (s_self ses) (x_aFunctions x) (rq_pszModule pReq) (rq_pszSymbol pReq)
        (ic_rUsage env) (Hown eq_refl)) as Hl.
      destruct (supdrvIDC_LdrGetSymbol _ _ _ _ _ _) as [[rc pfn] l]. simpl in Hl. subst l. injection Hr as <-.
      simpl. by rewrite set_xldr_id. }
    destruct (uReq =? SUPDRV_IDC_REQ_COMPONENT_REGISTER_FACTORY).
    { destruct (negb _); [by injection Hr as <-|].
      destruct (SUPR0ComponentRegisterFactory _ _ _ _ _ _) as [[rc f] ev] eqn:E. injection Hr as <-.
      apply set_fac_inv; [done|]. replace f with (SUPR0ComponentRegisterFactory (x_fac x) (ic_facmem env)
        (default null_session (Some ses)) (rq_pFactory pReq) (ic_rReg env) (ic_rcLock env)).1.2 by by rewrite E.
      eapply fac_step_inv; [apply (di_fac _ Hinv)|]. by apply fstep_register. }
    destruct (uReq =? SUPDRV_IDC_REQ_COMPONENT_DEREGISTER_FACTORY); [|by injection Hr as <-].
    destruct (negb _); [by injection Hr as <-|].
    destruct (SUPR0ComponentDeregisterFactory _ _ _ _) as [[rc f] ev] eqn:E. injection Hr as <-.
    apply set_fac_inv; [done|]. replace f with (SUPR0ComponentDeregisterFactory (x_fac x)
      (default null_session (Some ses)) (rq_pFactory pReq) (ic_rcLock env)).1.2 by by rewrite E.
    eapply fac_step_inv; [apply (di_fac _ Hinv)|]. apply fstep_deregister.
Qed.

(** A successful opening. *)
Lemma open_cases env c x pHandle uReq uMin p1 p2 p3 rc out c1 x1 ev :
  SUPR0IdcOpen env c x pHandle uReq uMin p1 p2 p3 = Some (rc, out, c1, x1, ev) → RT_SUCCESS rc = true →
  VALID_PTR pHandle = true ∧ VALID_PTR (ic_pReq env) = true
  ∧ ∃ p rcC, VALID_PTR p = true ∧ RT_FAILURE rcC = false
      ∧ supdrvCreateSession x false (ic_rAlloc env) (ic_rSpin env) (ic_rTable env) (ic_rTableSpin env)
          NIL_RTPROCESS NIL_RTR0PROCESS = (rcC, p, x1, ev)
      ∧ c1 = set_main NULL pHandle (set_hSession pHandle p (set_hSession pHandle NULL c)).
Proof.
  intros H Hrc. unfold SUPR0IdcOpen in H. cbv zeta in H.
  destruct (VALID_PTR pHandle) eqn:Ev; cbn [negb] in H; [|by simplify_eq].
  do 3 (destruct (negb (VALID_PTR_OR_NULL _)); [by simplify_eq|]).
  do 2 (destruct (negb (_ || _)); [by simplify_eq|]).
  match type of H with context [supR0IdcNativeCall _ _ _ ?req] => set (Req := req) in H end.
  unfold supR0IdcNativeCall, SUPDrvLinuxIDC in H. cbv zeta in H.
  destruct (VALID_PTR (ic_pReq env)) eqn:Er; cbn [negb] in H; [|cbn in H; by simplify_eq].
  change (rq_pSession Req =? NULL) with true in H. cbn [negb] in H. rewrite Z.eqb_refl in H. cbn [negb] in H.
  unfold supdrvIDC in H. cbn [from_option] in H. rewrite Z.eqb_refl in H.
  change (rq_cb Req =? SUPDRVIDCREQCONNECT_size) with true in H. cbn [negb] in H.
  destruct (connect_cases env x Req) as [(Hx&Hev&Hs)|(_&_&_&_&_&rcC&p&x'&ev'&Hc&HC)].
  - assert (Hf : RT_SUCCESS (if RT_SUCCESS (ir_ret (idc_CONNECT env x None Req))
                             then default VERR_WRONG_ORDER (ir_rc (idc_CONNECT env x None Req))
                             else ir_ret (idc_CONNECT env x None Req)) = false).
    { destruct (RT_SUCCESS (ir_ret _)) eqn:E; [|done]. destruct (Hs eq_refl) as (rc'&->&?). done. }
    destruct (ir_out (idc_CONNECT env x None Req)); rewrite ?Hf in H; simplify_eq; by rewrite Hf in Hrc.
  - rewrite HC in H. cbn in H. destruct (RT_SUCCESS rcC) eqn:Es; [|simplify_eq; congruence].
    rewrite RT_FAILURE_negb, Es in H. cbn [negb] in H.
    destruct (VALID_PTR p) eqn:Evp; cbn [andb] in H.
    2:{ destruct (SUPR0IdcClose _ _ _ _) as [[[[? ?] ?] ?]|]; by simplify_eq. }
    destruct (_ && _) in H.
    2:{ destruct (SUPR0IdcClose _ _ _ _) as [[[[? ?] ?] ?]|]; by simplify_eq. }
    simplify_eq. split; [done|]. split; [done|]. exists p, rc. split_and!; try done. by rewrite RT_FAILURE_negb, Es.
Qed.

Lemma hSession_set c pHandle p : hSession (set_hSession pHandle p c) pHandle = p.
Proof. unfold hSession, set_hSession. simpl. by rewrite lookup_insert_eq. Qed.

Lemma hSession_main c a b pHandle : hSession (set_main a b c) pHandle = hSession c pHandle.
Proof. unfold set_main. by destruct (_ =? a). Qed.

(** A session of the kernel that the client has as its main handle's. *)
Definition idc_main_session (c : IdcClient) (x : SUPDRVDEVEXT) (p : ptr) : Prop :=
  VALID_PTR p = true ∧ VALID_PTR (c_pMainHandle c) = true ∧ hSession c (c_pMainHandle c) = p
  ∧ ∃ ses, x_sess x !! p = Some ses ∧ s_R0Process ses = NIL_RTR0PROCESS.

(** The entry of a function in the fixed-up table. *)
Lemma function_entry r link n :
  n ∈ function_names_1 ++ function_names_2 →
  ∃ k, fixup_absolute r (g_aFunctions link) !! k = Some (bytes_of n, link n).
Proof.
  intros Hn. apply list_elem_of_lookup in Hn as [k Hk]. exists (length abs_names + k)%nat.
  rewrite fixup_lookup. unfold g_aFunctions. rewrite lookup_app_r by (rewrite length_fmap; lia).
  rewrite length_fmap, Nat.add_comm, Nat.add_sub, list_lookup_fmap, Hk. simpl.
  by rewrite (proj2 (lookup_ge_None _ (k + 10)%nat)) by (simpl; lia).
Qed.

(** * Properties *)

(** C37. Who may ask.  A request through the Linux entry changes the driver's state or calls
    anything only when it is a connection without a session, with the magic cookie and a
    version range of the driver's major version that includes it, or when it comes with a
    session of the driver that belongs to the kernel.  And it keeps the invariant of the
    driver where that holds, unless it asks for a symbol of a module other than the driver
    itself ([idc_own]): such a request takes a usage record without a reference, and an
    image can then be freed under it ([idc_symbol_use_after_free]).  The session and
    registration a request allocates are memory not in use ([idc_fresh]). *)
Theorem idc_access_control env uReq x ppReq pReq r :
  SUPDrvLinuxIDC env uReq x ppReq pReq = Some r →
  (ir_x r ≠ x ∨ ir_ev r ≠ [] → idc_allowed uReq x pReq)
  ∧ (dev_inv x → idc_fresh env x → idc_own uReq pReq → dev_inv (ir_x r)).
Proof.
  intros H. split; [|intros Hinv Hf Hown; by eapply idc_inv]. intros Hch.
  destruct (linux_idc_cases _ _ _ _ _ _ H) as [[? ?]|[? _]]; [by destruct Hch|done].
Qed.

(** A client connects and disconnects.  An opening that succeeds gives the handle a new
    session of the kernel, for which the driver's invariant holds, and makes the handle the
    main one if there is none; closing it then succeeds, nothing of the session remains in
    the driver, every other session is as before the opening, the handle is empty and no
    longer the main one. *)
Lemma idc_open_close_roundtrip env env' c x pHandle uReq uMin p1 p2 p3 rc out c1 x1 ev :
  dev_inv x → idc_fresh env x → VALID_PTR (ic_pReq env') = true →
  SUPR0IdcOpen env c x pHandle uReq uMin p1 p2 p3 = Some (rc, out, c1, x1, ev) → RT_SUCCESS rc = true →
  let p := SUPR0IdcGetSession c1 pHandle in
  dev_inv x1 ∧ (s_R0Process <$> x_sess x1 !! p) = Some NIL_RTR0PROCESS
  ∧ (c_pMainHandle c = NULL → supR0IdcGetHandleFromSession c1 p = pHandle)
  ∧ ∃ c2 x2 ev2, SUPR0IdcClose env' c1 x1 pHandle = Some (VINF_SUCCESS, c2, x2, ev2)
      ∧ dev_inv x2 ∧ session_gone x2 p ∧ (∀ s, s ≠ p → session_same x x2 s)
      ∧ SUPR0IdcGetSession c2 pHandle = NULL ∧ c_pMainHandle c2 ≠ pHandle.
Proof.
  intros Hinv [[Hf Ht] _] Hreq H Hrc. destruct (open_cases _ _ _ _ _ _ _ _ _ _ _ _ _ _ H Hrc)
    as (Hvh&_&p&rcC&Hvp&_&Hc&->).
  assert (Hn0 : ∀ q, VALID_PTR q = true → q ≠ NULL) by by intros q Hq ->.
  set (c0 := set_hSession pHandle NULL c). set (c1 := set_main NULL pHandle (set_hSession pHandle p c0)).
  assert (Hhs : hSession c1 pHandle = p) by (unfold c1; by rewrite hSession_main, hSession_set).
  assert (Hp : SUPR0IdcGetSession c1 pHandle = p) by (unfold SUPR0IdcGetSession; by rewrite Hvh, Hhs, Hvp).
  cbv zeta. rewrite Hp. pose proof (create_session_inv _ _ _ _ _ _ _ _ _ _ _ _ Hinv Hf Ht Hc) as Hinv1.
  destruct (create_session_some _ _ _ _ _ _ _ _ _ _ _ _ Hc (Hn0 p Hvp)) as (Ha&ses&Hs&Hself&Hk).
  assert (Hl : x_sess x1 !! p = Some ses) by (rewrite Hs; apply lookup_insert_eq).
  split; [done|]. split; [rewrite Hl; simpl; by rewrite Hk|]. split.
  { intros Hm. unfold supR0IdcGetHandleFromSession. assert (c_pMainHandle c1 = pHandle) as ->.
    { unfold c1, set_main. simpl. by rewrite Hm. }
    by rewrite Hvh, Hhs, Z.eqb_refl. }
  unfold SUPR0IdcClose. rewrite Hvh, Hhs, Hvp. cbn [negb]. rewrite (proj2 (Z.eqb_neq p NULL) (Hn0 p Hvp)).
  unfold supR0IdcNativeCall, SUPDrvLinuxIDC. cbv zeta. rewrite Hreq. cbn [negb].
  change (rq_pSession (hdr_req SUPDRVIDCREQHDR_size p)) with p.
  rewrite (proj2 (Z.eqb_neq p NULL) (Hn0 p Hvp)), Hvp, Hl. cbn [negb]. unfold supdrvIDC. cbn [from_option].
  rewrite Hk, Z.eqb_refl. cbn [negb].
  change (SUPDRV_IDC_REQ_DISCONNECT =? SUPDRV_IDC_REQ_CONNECT) with false. rewrite Z.eqb_refl.
  change (rq_cb (hdr_req SUPDRVIDCREQHDR_size p) =? SUPDRVIDCREQHDR_size) with true. cbn [negb].
  destruct (supdrvCloseSession x1 ses (ic_rcGipFree env')) as [x2 ev2] eqn:Ecl.
  destruct (close_cases _ _ _ _ _ Hinv1 Ecl) as (Hinv2&Hgone&Hsame&_). rewrite Hself in Hgone, Hsame.
  exists (set_main pHandle NULL (set_hSession pHandle NULL c1)), x2, ev2. split; [reflexivity|]. split_and!; [done|done| | |].
  - intros s Hne. eapply session_same_trans; [|by apply Hsame].
    eapply create_session_same; [exact Hc|]. intros a Ea. congruence.
  - unfold SUPR0IdcGetSession. rewrite Hvh, hSession_main, hSession_set. done.
  - unfold set_main at 1. destruct (Z.eqb_spec (c_pMainHandle (set_hSession pHandle NULL c1)) pHandle) as [_|E]; simpl.
    + intros <-. done.
    + exact E.
Qed.

(** The stubs find what the driver exports.  Where the client's main handle has a
    session of the kernel and the driver's function table has had its absolute symbols fixed
    up, a stub of any exported function that is called for the first time with that session
    goes to the address the driver has for the function, the driver's state being as
    before; a stub that has been resolved goes to the same address for every session, without a
    call to the driver; and a stub called with a session that is not the main handle's calls
    nothing. *)
Lemma stub_resolves env c x p r link n :
  idc_main_session c x p → VALID_PTR (ic_pReq env) = true →
  x_aFunctions x = fixup_absolute r (g_aFunctions link) →
  n ∈ function_names_1 ++ function_names_2 → link n ≠ NULL →
  idc_stub env n NULL c x p = Some (link n, x)
  ∧ (∀ c' x' q, idc_stub env n (link n) c' x' q = Some (link n, x'))
  ∧ ∀ q, q ≠ p → idc_stub env n NULL c x q = Some (NULL, x).
Proof.
  intros (Hvp&Hvh&Hh&ses&Hl&Hk) Hreq Hf Hn Hnz. unfold idc_stub. change (NULL =? NULL) with true. cbn match.
  split_and!.
  - unfold supR0IdcGetSymbolBySession, supR0IdcGetHandleFromSession. rewrite Hvh, Hh, Z.eqb_refl. cbn [andb].
    rewrite (proj2 (Z.eqb_neq _ NULL)) by (intros E; by rewrite E in Hvh). cbn [negb].
    unfold supR0IdcGetSymbol. rewrite Hh. unfold supR0IdcNativeCall, SUPDrvLinuxIDC. cbv zeta. rewrite Hreq. cbn [negb].
    cbn [rq_pSession]. rewrite (proj2 (Z.eqb_neq p NULL)) by (intros E; by rewrite E in Hvp).
    rewrite Hvp, Hl. cbn [negb]. unfold supdrvIDC. cbn [from_option]. rewrite Hk, Z.eqb_refl. cbn [negb].
    change (SUPDRV_IDC_REQ_GET_SYMBOL =? SUPDRV_IDC_REQ_CONNECT) with false.
    change (SUPDRV_IDC_REQ_GET_SYMBOL =? SUPDRV_IDC_REQ_DISCONNECT) with false.
    cbn [rq_cb rq_pszModule rq_pszSymbol]. rewrite !Z.eqb_refl. cbn [negb].
    destruct (function_entry r link n Hn) as [k Hkf]. rewrite Hf.
    destruct (exported_symbol_lookup (x_ldr x) (s_self ses) link r k _ None (ic_rUsage env) Hkf) as [Hget _]; [by left|].
    cbn [fst snd] in Hget. rewrite Hget.
    simpl. by rewrite set_xldr_id.
  - intros c' x' q. by rewrite (proj2 (Z.eqb_neq _ _) Hnz).
  - intros q Hq. unfold supR0IdcGetSymbolBySession, supR0IdcGetHandleFromSession. rewrite Hvh, Hh.
    rewrite (proj2 (Z.eqb_neq p q)) by congruence. done.
Qed.

(** * Witnesses *)

Definition demo_idc_env : IdcEnv :=
  mkIdcEnv (Some 0xffff880000010000) (0, 21) (Some 0xffff880000070000) (VINF_SUCCESS, 31) VINF_SUCCESS ∅ None VINF_SUCCESS
    None 76000 0xffff880000000100.
Definition demo_idc_connect : SUPDRVIDCREQ :=
  mkIdcReq SUPDRVIDCREQCONNECT_size NULL SUPDRVIDCREQ_CONNECT_MAGIC_COOKIE 0x10000 0x10000 None None NULL.
Definition demo_client0 : IdcClient := mkIdcClient NULL ∅.
Definition demo_handle : ptr := 0xffff880000000200.
Definition demo_dev_r : SUPDRVDEVEXT :=
  mkDevExt 11 12 13 14 BIRD 8192 obj_init ∅ ldr_init []
    (demo_ext1, ∅) ∅ ∅ ∅ (fixup_absolute (mkSegRegs 16 24 0 0 0 0) (g_aFunctions (λ _, 0xffffffff81000000))).

Lemma demo_dev_inv r : dev_inv (mkDevExt 11 12 13 14 BIRD 8192 obj_init ∅ ldr_init [] (demo_ext1, ∅) ∅ ∅ ∅ r).
Proof.
  split; [apply obj_init_inv|apply ldr_init_inv|split; constructor|done|done| |done].
  exists false. split_and!; reflexivity || discriminate.
Qed.

Lemma demo_idc_fresh r :
  idc_fresh demo_idc_env (mkDevExt 11 12 13 14 BIRD 8192 obj_init ∅ ldr_init [] (demo_ext1, ∅) ∅ ∅ ∅ r).
Proof.
  split; [|intros p [=]]. split.
  - intros p [= <-]. split_and!; reflexivity.
  - intros q [= <-]. reflexivity.
Qed.

Lemma idc_access_control_witness :
  ∃ r, SUPDrvLinuxIDC demo_idc_env SUPDRV_IDC_REQ_CONNECT demo_dev 0xffff880000000100 demo_idc_connect = Some r
    ∧ dev_inv (ir_x r) ∧ idc_allowed SUPDRV_IDC_REQ_CONNECT demo_dev demo_idc_connect.
Proof.
  destruct (SUPDrvLinuxIDC demo_idc_env SUPDRV_IDC_REQ_CONNECT demo_dev 0xffff880000000100 demo_idc_connect) as [r|] eqn:E;
    [|vm_compute in E; discriminate E].
  destruct (idc_access_control demo_idc_env SUPDRV_IDC_REQ_CONNECT demo_dev 0xffff880000000100 demo_idc_connect r)
    as [H2 H1]; [exact E|].
  exists r. split; [reflexivity|].
  split; [apply H1; [apply demo_dev_inv|apply demo_idc_fresh|discriminate]|]. apply H2. left. intros Hx.
  assert (from_option (λ r, length (map_to_list (x_sess (ir_x r)))) 7%nat
            (SUPDrvLinuxIDC demo_idc_env SUPDRV_IDC_REQ_CONNECT demo_dev 0xffff880000000100 demo_idc_connect) = 1%nat) as Hl
    by (vm_compute; reflexivity).
  rewrite E in Hl. simpl in Hl. rewrite Hx in Hl. vm_compute in Hl. discriminate Hl.
Defined.

Definition demo_open := SUPR0IdcOpen demo_idc_env demo_client0 demo_dev demo_handle 0 0 NULL NULL NULL.

Lemma idc_open_close_roundtrip_witness :
  ∃ rc out c1 x1 ev, demo_open = Some (rc, out, c1, x1, ev)
    ∧ dev_inv x1 ∧ (s_R0Process <$> x_sess x1 !! SUPR0IdcGetSession c1 demo_handle) = Some NIL_RTR0PROCESS.
Proof.
  destruct demo_open as [[[[[rc out] c1] x1] ev]|] eqn:E; [|vm_compute in E; discriminate E].
  assert (from_option (λ r, r.1.1.1.1) 7 demo_open = 0) as Hr by (vm_compute; reflexivity).
  rewrite E in Hr. simpl in Hr. subst rc. exists 0, out, c1, x1, ev. split; [reflexivity|].
  destruct (idc_open_close_roundtrip demo_idc_env demo_idc_env demo_client0 demo_dev demo_handle 0 0 NULL NULL NULL
              0 out c1 x1 ev) as (H1&H2&_); [apply demo_dev_inv|apply demo_idc_fresh|reflexivity|exact E|reflexivity|].
  split; [exact H1|exact H2].
Defined.

Definition demo_client1 : IdcClient := from_option (λ r, r.1.1.2) demo_client0
  (SUPR0IdcOpen demo_idc_env demo_client0 demo_dev_r demo_handle 0 0 NULL NULL NULL).
Definition demo_dev_r1 : SUPDRVDEVEXT := from_option (λ r, r.1.2) demo_dev_r
  (SUPR0IdcOpen demo_idc_env demo_client0 demo_dev_r demo_handle 0 0 NULL NULL NULL).

Lemma stub_resolves_witness :
  stub_ObjRegister demo_idc_env NULL demo_client1 demo_dev_r1 0xffff880000010000 = Some (0xffffffff81000000, demo_dev_r1).
Proof.
  apply (stub_resolves demo_idc_env demo_client1 demo_dev_r1 0xffff880000010000 (mkSegRegs 16 24 0 0 0 0)
           (λ _, 0xffffffff81000000) "SUPR0ObjRegister").
  - split_and!; [reflexivity|reflexivity|reflexivity|].
    destruct (x_sess demo_dev_r1 !! 0xffff880000010000) as [ses|] eqn:E; [|vm_compute in E; discriminate E].
    exists ses. split; [reflexivity|]. vm_compute in E. injection E as <-. reflexivity.
  - reflexivity.
  - vm_compute; reflexivity.
  - apply (bool_decide_unpack _). vm_compute. exact I.
  - discriminate.
Defined.
