(* ===== verification/IOCtl.v ===== *)
(** The I/O control entry points: what [supdrvIOCtl] does with a request its checks accept
    (Request), the fast path [supdrvIOCtlFast], and the Linux host's buffering in front of
    them.

    A handler works on the whole driver state and yields the function's result, the
    status and the output size it stores in the header, the other members it stores (offset
    and value in the buffer), the state and the calls.  What the world answers is in
    [IoEnv]. *)

From S2P Require Import Prelude SupTypes ObjReg MemTrack MemApi Loader Factory GipPage Gip Cpu FuncTable Logger Request HandleTab Sem Driver.
Local Open Scope Z_scope.
Local Open Scope sup_scope.

(** * Data *)

Definition SUPDRV_IOC_VERSION : Z := 0x00190000.
(** [The Magic Word!] *)
Definition SUPCOOKIE_MAGIC : list Z := [84; 104; 101; 32; 77; 97; 103; 105; 99; 32; 87; 111; 114; 100; 33].

Definition SUP_SEM_TYPE_EVENT : Z := 0.
Definition SUP_SEM_TYPE_EVENT_MULTI : Z := 1.
Definition SUPSEMOP2_WAIT_MS_REL : Z := 0.
Definition SUPSEMOP2_WAIT_NS_ABS : Z := 1.
Definition SUPSEMOP2_WAIT_NS_REL : Z := 2.
Definition SUPSEMOP2_SIGNAL : Z := 3.
Definition SUPSEMOP2_RESET : Z := 4.
Definition SUPSEMOP2_CLOSE : Z := 5.
Definition SUPSEMOP3_CREATE : Z := 0.
Definition SUPSEMOP3_GET_RESOLUTION : Z := 1.

Definition SUP_VMMR0_DO_RAW_RUN : Z := 0.
Definition SUP_VMMR0_DO_HWACC_RUN : Z := 1.
Definition SUP_VMMR0_DO_NOP : Z := 2.

(** The device extension and the runtime's default loggers. *)
Record IoState := mkIoState {
  io_x : SUPDRVDEVEXT;
  io_log : LogState;
}.

Definition set_x (x : SUPDRVDEVEXT) (st : IoState) : IoState := mkIoState x (io_log st).

(** The parts of the device extension a handler changes. *)
Definition set_mem (s : ptr) (m : SessMem) (x : SUPDRVDEVEXT) : SUPDRVDEVEXT :=
  set_parts (x_objs x) (<[s := m]> (x_mem x)) (x_ldr x) (x_fac x) (x_gip x) (x_sess x) (x_sessSpinlock x)
    (x_handles x) x.
Definition set_ldr (l : LdrState) (o : ObjState) (x : SUPDRVDEVEXT) : SUPDRVDEVEXT :=
  set_parts o (x_mem x) l (x_fac x) (x_gip x) (x_sess x) (x_sessSpinlock x) (x_handles x) x.
Definition set_gip (g : GipState) (x : SUPDRVDEVEXT) : SUPDRVDEVEXT :=
  set_parts (x_objs x) (x_mem x) (x_ldr x) (x_fac x) g (x_sess x) (x_sessSpinlock x) (x_handles x) x.
Definition set_sem (s : ptr) (o : ObjState) (t : RTHANDLETABLEINT) (x : SUPDRVDEVEXT) : SUPDRVDEVEXT :=
  set_parts o (x_mem x) (x_ldr x) (x_fac x) (x_gip x) (x_sess x) (x_sessSpinlock x) (<[s := t]> (x_handles x)) x.
Definition set_session (p : SUPDRVSESSION) (x : SUPDRVDEVEXT) : SUPDRVDEVEXT :=
  set_parts (x_objs x) (x_mem x) (x_ldr x) (x_fac x) (x_gip x) (<[s_self p := p]> (x_sess x)) (x_sessSpinlock x)
    (x_handles x) x.

(** A value stored: [size] bytes of a number, or bytes. *)
Inductive OutVal : Type :=
| OWord (size v : Z)
| OBytes (l : list Z).

Definition out_size (v : OutVal) : Z :=
  match v with OWord size _ => size | OBytes l => Z.of_nat (length l) end.

Record IoRes := mkIoRes {
  r_ret : Z;
  r_rc : option Z;
  r_cbOut : option Z;
  r_out : list (Z * OutVal);
  r_st : IoState;
  r_ev : list event;
}.

(** What the rest of the world answers.  [ie_pReq]: the address of the buffer;
    [ie_rAlloc], [ie_rAlloc2]: memory the operation allocates; [ie_memOthers],
    [ie_objOthers], [ie_semOthers]: other threads where a lock is dropped; the others are
    named after the functions they stand for. *)
Record IoEnv := mkIoEnv {
  ie_pReq : ptr;
  ie_rAlloc : option ptr;
  ie_rAlloc2 : option ptr;
  ie_memOthers : SessMem → SessMem;
  ie_objOthers : ObjState → ObjState;
  ie_semOthers : SemState → SemState;
  ie_RTMemExecAlloc : Z → option ptr;
  ie_callInit : ptr → Z;
  ie_callService : ptr → Z → Z → ptr → Z;
  ie_pfnVMMR0EntryEx : Z → Z → Z → ptr → Z → Z;
  ie_cr0 : Z;
  ie_cr4 : Z;
  ie_fHasCpuId : bool;
  ie_cpuid : Z → Z * Z * Z * Z;
  ie_rdmsr : Z → Z;
  ie_gip : GipMapEnv;
  ie_rcGipFree : Z;
  ie_log : LogApi;
  ie_sem : SemApi;
  ie_semCreate : Z * Z;
  ie_semDestructor : Z → ptr;
  ie_semResolution : Z → Z;
  ie_allocEnvs : list AllocEnv;
}.

(** * Handlers *)

Section handlers.
Context `{MemObjApi} (env : IoEnv) (st : IoState) (pSession : SUPDRVSESSION).
Abbreviation x := (io_x st).
Abbreviation s := (s_self pSession).
Abbreviation mem := (default [] (x_mem x !! s)).

(** [pReq->Hdr.rc = rc; return 0] *)
Definition io_done (rc : Z) (out : list (Z * OutVal)) (x' : SUPDRVDEVEXT) (ev : list event) : IoRes :=
  mkIoRes 0 (Some rc) None out (set_x x' st) ev.

(** The same where a failure cuts the output down to the header. *)
Definition io_done_cut (rc : Z) (out : list (Z * OutVal)) (x' : SUPDRVDEVEXT) (ev : list event) : IoRes :=
  mkIoRes 0 (Some rc) (if RT_FAILURE rc then Some SUPREQHDR_size else None) out (set_x x' st) ev.

(** [return pReq->Hdr.rc = VERR_INVALID_PARAMETER] *)
Definition io_invalid : IoRes :=
  mkIoRes VERR_INVALID_PARAMETER (Some VERR_INVALID_PARAMETER) None [] st [].

Definition io_COOKIE (szMagic : list Z) (u32ReqVersion u32MinVersion : Z) : IoRes :=
  if negb (bool_decide (until_nul szMagic = SUPCOOKIE_MAGIC)) then io_done VERR_INVALID_MAGIC [] x []
  else if (SUPDRV_IOC_VERSION <? u32MinVersion)
          || negb (Z.land u32MinVersion 0xffff0000 =? Z.land SUPDRV_IOC_VERSION 0xffff0000)
  then io_done VERR_VERSION_MISMATCH
         [(24, OWord 4 0xffffffff); (28, OWord 4 0xffffffff); (32, OWord 4 0xffffffff);
          (36, OWord 4 SUPDRV_IOC_VERSION); (48, OWord 8 NULL); (40, OWord 4 0)] x []
  else io_done VINF_SUCCESS
         [(24, OWord 4 (x_u32Cookie x)); (28, OWord 4 (s_u32Cookie pSession)); (32, OWord 4 SUPDRV_IOC_VERSION);
          (36, OWord 4 SUPDRV_IOC_VERSION); (48, OWord 8 s);
          (40, OWord 4 (Z.of_nat (length (x_aFunctions x))))] x [].

(** A [SUPFUNC]: the name in a field of 32 bytes, the address. *)
Definition func_out (i : Z) (f : SUPFUNC) : list (Z * OutVal) :=
  [(32 + 40 * i, OBytes (take 32 (fst f ++ replicate 32 0))); (64 + 40 * i, OWord 8 (snd f))].

Definition io_QUERY_FUNCS : IoRes :=
  io_done VINF_SUCCESS
    ((24, OWord 4 (Z.of_nat (length (x_aFunctions x)))) ::
     concat (imap (λ i f, func_out (Z.of_nat i) f) (x_aFunctions x))) x [].

(** An array of page addresses at [off]. *)
Definition pages_out (off : Z) (pages : list Z) : list (Z * OutVal) :=
  imap (λ i p, (off + 8 * Z.of_nat i, OWord 8 p)) pages.

(** [buf]: the array is the buffer's own memory. *)
Definition io_PAGE_LOCK (buf : list Z) (pvR3 cPages : Z) : IoRes :=
  let pages := (λ i, le_word (take 8 (drop (Z.to_nat (24 + 8 * i)) buf))) <$> seqZ 0 cPages in
  let '(rc, pages, m, ev) :=
    SUPR0LockMem mem pSession pvR3 cPages (ie_pReq env + 24) pages (ie_rAlloc env) (ie_memOthers env) in
  io_done_cut rc (pages_out 24 pages) (set_mem s m x) ev.

(** The requests that release memory. *)
Definition io_mem_free (f : SessMem → SUPDRVSESSION → ptr → Z * SessMem * list event) (p : Z) : IoRes :=
  let '(rc, m, ev) := f mem pSession p in io_done rc [] (set_mem s m x) ev.

Definition io_PAGE_UNLOCK : Z → IoRes := io_mem_free SUPR0UnlockMem.
Definition io_CONT_FREE : Z → IoRes := io_mem_free SUPR0ContFree.
Definition io_LOW_FREE : Z → IoRes := io_mem_free SUPR0LowFree.
Definition io_PAGE_FREE : Z → IoRes := io_mem_free SUPR0PageFree.

Definition io_CONT_ALLOC (cPages : Z) : IoRes :=
  let p := ie_pReq env in
  let '(rc, out, m, ev) :=
    SUPR0ContAlloc mem pSession cPages (p + 24) (p + 32) (p + 40) (ie_rAlloc env) (ie_memOthers env) in
  io_done_cut rc
    (from_option (λ o, (24, OWord 8 (out_R0 o)) :: (32, OWord 8 (out_R3 o)) :: pages_out 40 (out_pages o)) [] out)
    (set_mem s m x) ev.

Definition io_LOW_ALLOC (cPages : Z) : IoRes :=
  let p := ie_pReq env in
  let '(rc, out, m, ev) :=
    SUPR0LowAlloc mem pSession cPages (p + 32) (p + 24) (p + 40) (ie_rAlloc env) (ie_memOthers env) in
  io_done_cut rc
    (from_option (λ o, (32, OWord 8 (out_R0 o)) :: (24, OWord 8 (out_R3 o)) :: pages_out 40 (out_pages o)) [] out)
    (set_mem s m x) ev.

Definition io_PAGE_ALLOC_EX (cPages : Z) (fKernelMapping fUserMapping : bool) : IoRes :=
  let p := ie_pReq env in
  let '(rc, out, m, ev) :=
    SUPR0PageAllocEx mem pSession cPages 0 (if fUserMapping then p + 24 else NULL)
      (if fKernelMapping then p + 32 else NULL) (p + 40) (ie_rAlloc env) (ie_memOthers env) in
  io_done_cut rc
    (from_option
       (λ o, (if fUserMapping then [(24, OWord 8 (out_R3 o))] else [])
             ++ (if fKernelMapping then [(32, OWord 8 (out_R0 o))] else []) ++ pages_out 40 (out_pages o)) [] out)
    (set_mem s m x) ev.

Definition io_PAGE_MAP_KERNEL (pvR3 offSub cbSub fFlags : Z) : IoRes :=
  let '(rc, _, pvR0) := SUPR0PageMapKernel mem pSession pvR3 offSub cbSub fFlags (ie_pReq env + 24) in
  io_done_cut rc (from_option (λ p, [(24, OWord 8 p)]) [] pvR0) x [].

Definition io_PAGE_PROTECT (pvR3 pvR0 offSub cbSub fProt : Z) : IoRes :=
  let '(rc, ev) := SUPR0PageProtect mem pSession pvR3 pvR0 offSub cbSub fProt in io_done rc [] x ev.

Definition io_LDR_OPEN (pReq : LdrOpenReq) : IoRes :=
  let '(rc, out, l, ev) :=
    supdrvIOCtl_LdrOpen (x_ldr x) s pReq (ie_rAlloc env) (ie_rAlloc2 env) (ie_RTMemExecAlloc env) in
  io_done rc
    (from_option (λ o, [(24, OWord 8 (lo_pvImageBase o)); (32, OWord 1 (Z.b2z (lo_fNeedsLoading o)));
                        (33, OWord 1 (Z.b2z (lo_fNativeLoader o)))]) [] out) (set_ldr l (x_objs x) x) ev.

Definition io_LDR_LOAD (pReq : LdrLoadReq) : IoRes :=
  let '(rc, l, ev) := supdrvIOCtl_LdrLoad (x_ldr x) s pReq (ie_rAlloc env) (ie_rAlloc2 env) (ie_callInit env) in
  io_done rc [] (set_ldr l (x_objs x) x) ev.

Definition io_LDR_FREE (pvImageBase : Z) : IoRes :=
  let '(rc, l, o, ev) := supdrvIOCtl_LdrFree (x_ldr x) (x_objs x) s pvImageBase in
  io_done rc [] (set_ldr l o x) ev.

Definition io_LDR_GET_SYMBOL (pvImageBase : Z) (szSymbol : list Z) : IoRes :=
  let '(rc, pv) := supdrvIOCtl_LdrGetSymbol (x_ldr x) s pvImageBase szSymbol in
  io_done rc (from_option (λ p, [(24, OWord 8 p)]) [] pv) x [].

(** Without the entry point: [VERR_WRONG_ORDER]. *)
Definition io_CALL_VMMR0 (pVMR0 idCpu uOperation u64Arg : Z) (fPkt : bool) : IoRes :=
  let pfn := pfnVMMR0EntryEx (x_ldr x) in
  let pPkt := if fPkt then ie_pReq env + SUP_IOCTL_CALL_VMMR0_SIZE 0 else NULL in
  if negb (pfn =? NULL)
  then io_done (ie_pfnVMMR0EntryEx env pVMR0 idCpu uOperation pPkt u64Arg) [] x
         [EvEntryEx pfn pVMR0 idCpu uOperation pPkt u64Arg s]
  else io_done VERR_WRONG_ORDER [] x [].

Definition io_GET_PAGING_MODE : IoRes :=
  let '(_, _, _, fAmdFeatures) := ie_cpuid env 0x80000001 in
  io_done VINF_SUCCESS
    [(24, OWord 4 (SUPR0GetPagingMode (ie_cr0 env) (ie_cr4 env) fAmdFeatures (ie_rdmsr env)))] x [].

Definition io_GIP_MAP : IoRes :=
  let p := ie_pReq env in
  let '(rc, (pGipR3, HCPhysGip), g, ev) := SUPR0GipMap (x_gip x) pSession (p + 32) (p + 24) (ie_gip env) in
  io_done rc
    ([(32, OWord 8 pGipR3); (24, OWord 8 HCPhysGip)]
     ++ if RT_SUCCESS rc then [(40, OWord 8 (d_pGip (fst (x_gip x))))] else []) (set_gip g x) ev.

Definition io_GIP_UNMAP : IoRes :=
  let '(rc, g, ev) := SUPR0GipUnmap (x_gip x) pSession (ie_rcGipFree env) in io_done rc [] (set_gip g x) ev.

Definition io_SET_VM_FOR_FAST (pVMR0 : Z) : IoRes :=
  let p := mkSession s (s_u32Cookie pSession) pVMR0 (s_hHandleTable pSession) (s_Uid pSession)
             (s_Gid pSession) (s_Process pSession) (s_R0Process pSession) in
  io_done VINF_SUCCESS [] (set_session p x) [].

(** [cbIn]: a packet is passed on unless the size says that there is none. *)
Definition io_CALL_SERVICE (cbIn : Z) (szName : list Z) (uOperation u64Arg : Z) : IoRes :=
  let '(rc, ev) :=
    supdrvIOCtl_CallServiceModule (x_ldr x) s szName cbIn uOperation u64Arg
      (ie_pReq env + SUP_IOCTL_CALL_SERVICE_SIZE 0) (ie_callService env) in
  io_done rc [] x ev.

Definition io_LOGGER_SETTINGS (pReq : LoggerReq) : IoRes :=
  let '(rc, l, ev) := supdrvIOCtl_LoggerSettings (ie_log env) (io_log st) pReq in
  mkIoRes 0 (Some rc) None [] (mkIoState x l) ev.

(** The semaphore operations on a handle. *)
Definition sem_op2 (ctx : Z) (ss : SemState) (hSem uOp uArg : Z) : Z * SemState * list event :=
  let api := ie_sem env in
  let others := ie_semOthers env in
  let fMulti := ctx =? SUPDRV_HANDLE_CTX_EVENT_MULTI in
  if uOp =? SUPSEMOP2_WAIT_MS_REL
  then (if fMulti then SUPSemEventMultiWaitNoResume else SUPSemEventWaitNoResume) api ss pSession hSem (u32 uArg) others
  else if uOp =? SUPSEMOP2_WAIT_NS_ABS
  then (if fMulti then SUPSemEventMultiWaitNsAbsIntr else SUPSemEventWaitNsAbsIntr) api ss pSession hSem uArg others
  else if uOp =? SUPSEMOP2_WAIT_NS_REL
  then (if fMulti then SUPSemEventMultiWaitNsRelIntr else SUPSemEventWaitNsRelIntr) api ss pSession hSem uArg others
  else if uOp =? SUPSEMOP2_SIGNAL
  then (if fMulti then SUPSemEventMultiSignal else SUPSemEventSignal) api ss pSession hSem others
  else if uOp =? SUPSEMOP2_CLOSE
  then (if fMulti then SUPSemEventMultiClose else SUPSemEventClose) ss pSession hSem
  else if (uOp =? SUPSEMOP2_RESET) && fMulti then SUPSemEventMultiReset api ss pSession hSem others
  else (VERR_INVALID_FUNCTION, ss, []).

(** Storing what a semaphore operation leaves. *)
Definition sem_store (ss : SemState) : SUPDRVDEVEXT := set_sem s (fst ss) (snd ss) x.

Definition io_SEM_OP2 (t : RTHANDLETABLEINT) (uType hSem uOp uArg : Z) : IoRes :=
  if (uType =? SUP_SEM_TYPE_EVENT) || (uType =? SUP_SEM_TYPE_EVENT_MULTI) then
    let ctx := if uType =? SUP_SEM_TYPE_EVENT then SUPDRV_HANDLE_CTX_EVENT else SUPDRV_HANDLE_CTX_EVENT_MULTI in
    let '(rc, ss, ev) := sem_op2 ctx (x_objs x, t) hSem uOp uArg in
    io_done rc [] (sem_store ss) ev
  else io_done VERR_INVALID_PARAMETER [] x [].

(** [None] when [ie_allocEnvs] does not have an environment for every expansion. *)
Definition io_SEM_OP3 (t : RTHANDLETABLEINT) (uType hSem uOp : Z) : option IoRes :=
  if (uType =? SUP_SEM_TYPE_EVENT) || (uType =? SUP_SEM_TYPE_EVENT_MULTI) then
    let ctx := if uType =? SUP_SEM_TYPE_EVENT then SUPDRV_HANDLE_CTX_EVENT else SUPDRV_HANDLE_CTX_EVENT_MULTI in
    if uOp =? SUPSEMOP3_CREATE then
      if negb (hSem =? NIL_SUPSEMEVENT) then Some io_invalid
      else
        (* the handle is a local variable on the stack *)
        match sem_create ctx (ie_semDestructor env ctx) (x_objs x, t) pSession (ie_pReq env) (ie_semCreate env)
                (ie_rAlloc env) (ie_rAlloc2 env) (ie_objOthers env) (ie_allocEnvs env) with
        | None => None
        | Some (rc, oh, ss, ev) =>
            Some (io_done rc [(24, OWord 4 (u32 (default hSem oh)))] (sem_store ss) ev)
        end
    else if uOp =? SUPSEMOP3_GET_RESOLUTION then
      if negb (hSem =? NIL_SUPSEMEVENT) then Some io_invalid
      else
        Some (mkIoRes 0 (Some VINF_SUCCESS)
                (if uType =? SUP_SEM_TYPE_EVENT then Some SUP_IOCTL_SEM_OP3_SIZE else None)
                [(24, OWord 4 (ie_semResolution env ctx))] st [])
    else Some (io_done VERR_INVALID_FUNCTION [] x [])
  else Some (io_done VERR_INVALID_PARAMETER [] x []).

Definition io_VT_CAPS : IoRes :=
  let '(rc, Caps) :=
    SUPR0QueryVTCaps pSession (ie_pReq env + 24) (ie_fHasCpuId env) (ie_cpuid env) (ie_rdmsr env) in
  io_done_cut rc (from_option (λ c, [(24, OWord 4 c)]) [] Caps) x [].
End handlers.

(** * The entry points *)

Section entry.
Context `{MemObjApi} (env : IoEnv).

(** The switch, on a request its checks accepted.  [None]: a session without a handle table
    does not exist. *)
Definition io_exec (st : IoState) (pSession : SUPDRVSESSION) (buf : list Z) (h : SUPREQHDR) (r : IoReq)
    : option IoRes :=
  match r with
  | ReqCookie szMagic uReq uMin => Some (io_COOKIE st pSession szMagic uReq uMin)
  | ReqQueryFuncs => Some (io_QUERY_FUNCS st)
  | ReqPageLock pvR3 cPages => Some (io_PAGE_LOCK env st pSession buf pvR3 cPages)
  | ReqPageUnlock pvR3 => Some (io_PAGE_UNLOCK st pSession pvR3)
  | ReqContAlloc cPages => Some (io_CONT_ALLOC env st pSession cPages)
  | ReqContFree pvR3 => Some (io_CONT_FREE st pSession pvR3)
  | ReqLdrOpen pReq => Some (io_LDR_OPEN env st pSession pReq)
  | ReqLdrLoad pReq => Some (io_LDR_LOAD env st pSession pReq)
  | ReqLdrFree pvImageBase => Some (io_LDR_FREE st pSession pvImageBase)
  | ReqLdrGetSymbol pvImageBase szSymbol => Some (io_LDR_GET_SYMBOL st pSession pvImageBase szSymbol)
  | ReqCallVMMR0 pVMR0 idCpu uOperation u64Arg fPkt =>
      Some (io_CALL_VMMR0 env st pSession pVMR0 idCpu uOperation u64Arg fPkt)
  | ReqGetPagingMode => Some (io_GET_PAGING_MODE env st)
  | ReqLowAlloc cPages => Some (io_LOW_ALLOC env st pSession cPages)
  | ReqLowFree pvR3 => Some (io_LOW_FREE st pSession pvR3)
  | ReqGipMap => Some (io_GIP_MAP env st pSession)
  | ReqGipUnmap => Some (io_GIP_UNMAP env st pSession)
  | ReqSetVMForFast pVMR0 => Some (io_SET_VM_FOR_FAST st pSession pVMR0)
  | ReqPageAllocEx cPages fKernel fUser => Some (io_PAGE_ALLOC_EX env st pSession cPages fKernel fUser)
  | ReqPageMapKernel pvR3 offSub cbSub fFlags => Some (io_PAGE_MAP_KERNEL env st pSession pvR3 offSub cbSub fFlags)
  | ReqPageProtect pvR3 pvR0 offSub cbSub fProt => Some (io_PAGE_PROTECT st pSession pvR3 pvR0 offSub cbSub fProt)
  | ReqPageFree pvR3 => Some (io_PAGE_FREE st pSession pvR3)
  | ReqCallService szName uOperation u64Arg => Some (io_CALL_SERVICE env st pSession (h_cbIn h) szName uOperation u64Arg)
  | ReqLoggerSettings pReq => Some (io_LOGGER_SETTINGS env st pReq)
  | ReqSemOp2 uType hSem uOp uArg =>
      (λ t, io_SEM_OP2 env st pSession t uType hSem uOp uArg) <$> x_handles (io_x st) !! s_self pSession
  | ReqSemOp3 uType hSem uOp => x_handles (io_x st) !! s_self pSession ≫= λ t, io_SEM_OP3 env st pSession t uType hSem uOp
  | ReqVtCaps => Some (io_VT_CAPS env st pSession)
  end.

(** [buf]: the request, the first [cbIn] bytes, and room for the output.  [None] also for a
    read outside of it. *)
Definition supdrvIOCtl (uIOCtl : Z) (st : IoState) (pSession : SUPDRVSESSION) (buf : list Z) : option IoRes :=
  let x := io_x st in
  match supdrvIOCtl_check (x_u32Cookie x) (Z.of_nat (length (x_aFunctions x))) uIOCtl pSession buf with
  | IoFault => None
  | IoReject => Some (mkIoRes VERR_INVALID_PARAMETER None None [] st [])
  | IoRejectRc => Some (io_invalid st)
  | IoUnknown => Some (mkIoRes VERR_GENERAL_FAILURE None None [] st [])
  | IoAccept h r => io_exec st pSession buf h r
  end.

(** [uIOCtl] compared with the three codes of the fast path. *)
Definition SUP_IOCTL_FAST_DO_RAW_RUN : Z := SUP_CTL_CODE_BIG 64.
Definition SUP_IOCTL_FAST_DO_HWACC_RUN : Z := SUP_CTL_CODE_BIG 65.
Definition SUP_IOCTL_FAST_DO_NOP : Z := SUP_CTL_CODE_BIG 66.

Definition supdrvIOCtlFast (uIOCtl idCpu : Z) (x : SUPDRVDEVEXT) (pSession : SUPDRVSESSION) : Z * list event :=
  let pfn := pfnVMMR0EntryFast (x_ldr x) in
  if VALID_PTR (s_self pSession) && negb (s_pVM pSession =? NULL) && negb (pfn =? NULL) then
    if uIOCtl =? SUP_IOCTL_FAST_DO_RAW_RUN
    then (VINF_SUCCESS, [EvFastEntry pfn (s_pVM pSession) idCpu SUP_VMMR0_DO_RAW_RUN])
    else if uIOCtl =? SUP_IOCTL_FAST_DO_HWACC_RUN
    then (VINF_SUCCESS, [EvFastEntry pfn (s_pVM pSession) idCpu SUP_VMMR0_DO_HWACC_RUN])
    else if uIOCtl =? SUP_IOCTL_FAST_DO_NOP
    then (VINF_SUCCESS, [EvFastEntry pfn (s_pVM pSession) idCpu SUP_VMMR0_DO_NOP])
    else (VERR_INTERNAL_ERROR, [])
  else (VERR_INTERNAL_ERROR, []).

(** ** The Linux host *)

Definition EFAULT : Z := 14.
Definition EINVAL : Z := 22.
Definition ENOMEM : Z := 12.
Definition E2BIG : Z := 7.

Definition IOC_SIZE (uCmd : Z) : Z := Z.land (Z.shiftr uCmd 16) 0x3fff.

(** User memory as each of the copies from it finds it: [None] for a fault. *)
Record UserCopies := mkUserCopies {
  uc_Hdr : option (list Z);
  uc_Req : Z → option (list Z);
  uc_To : bool;
}.

(** [rAlloc]: the content of the block of [cbBuf] bytes [RTMemAlloc] returns.  The results
    are the return value, how many bytes are copied back and the result of the request;
    [None] when the request does not come back or leaves its buffer. *)
Definition VBoxDrvLinuxIOCtlSlow (uCmd : Z) (st : IoState) (pSession : SUPDRVSESSION) (uc : UserCopies)
    (rAlloc : Z → option (list Z)) : option (Z * option Z * IoState * list event) :=
  match uc_Hdr uc with
  | None => Some (- EFAULT, None, st, [])
  | Some hdr =>
      match rd_hdr hdr with
      | Ok h =>
          if negb (Z.land (h_fFlags h) SUPREQHDR_FLAGS_MAGIC_MASK =? SUPREQHDR_FLAGS_MAGIC)
          then Some (- EINVAL, None, st, [])
          else
            let cbBuf := Z.max (h_cbIn h) (h_cbOut h) in
            if 0x100000 * 16 <? cbBuf then Some (- E2BIG, None, st, [])
            else if negb (cbBuf =? IOC_SIZE uCmd) && negb (IOC_SIZE uCmd =? 0) then Some (- EINVAL, None, st, [])
            else
              match rAlloc cbBuf with
              | None => Some (- ENOMEM, None, st, [])
              | Some block =>
                  match uc_Req uc (h_cbIn h) with
                  | None => Some (- EFAULT, None, st, [])
                  | Some req =>
                      let buf := req ++ drop (length req) block in
                      match supdrvIOCtl uCmd st pSession buf with
                      | None => None
                      | Some r =>
                          if r_ret r =? 0 then
                            let cbOut := default (rd_u32 buf 12) (r_cbOut r) in
                            let cbOut := if cbBuf <? cbOut then cbBuf else cbOut in
                            Some (if uc_To uc then - EFAULT else 0, Some cbOut, r_st r, r_ev r)
                          else Some (- EINVAL, None, r_st r, r_ev r)
                      end
                  end
              end
      | _ => None
      end
  end.
End entry.

(** * Specification *)

(** Everything a handler stores lies between the header and the output size. *)
Definition out_ok (cbOut : Z) (out : list (Z * OutVal)) : Prop :=
  Forall (λ o, 24 ≤ fst o ∧ fst o + out_size (snd o) ≤ cbOut) out.

(** * Output *)

Lemma out_ok_app c l1 l2 : out_ok c l1 → out_ok c l2 → out_ok c (l1 ++ l2).
Proof. intros H1 H2. by apply Forall_app. Qed.

Lemma out_ok_mono c c' l : out_ok c l → c ≤ c' → out_ok c' l.
Proof. intros H Hc. eapply Forall_impl; [exact H|]. simpl. intros o ?. lia. Qed.

Lemma pages_out_ok off pages :
  24 ≤ off → out_ok (off + 8 * Z.of_nat (length pages)) (pages_out off pages).
Proof.
  intros Hoff. unfold pages_out. apply Forall_lookup. intros i o Ho.
  rewrite list_lookup_imap in Ho. destruct (pages !! i) eqn:E; [|done]. simpl in Ho. simplify_eq.
  apply lookup_lt_Some in E. simpl. lia.
Qed.

Lemma lock_pages_length `{MemObjApi} hMem n : ∀ pages, length (lock_pages hMem n pages).2 = length pages.
Proof.
  induction n as [|n IH]; intros pages; cbn [lock_pages]; [done|].
  destruct (_ =? NIL_RTHCPHYS); [simpl; by rewrite length_insert|]. by rewrite IH, length_insert.
Qed.

Section output.
Context `{MemObjApi}.

Lemma LockMem_length m ses pvR3 cPages p pages rAlloc others :
  length (SUPR0LockMem m ses pvR3 cPages p pages rAlloc others).1.1.2 = length pages.
Proof.
  unfold SUPR0LockMem. repeat step_if; try done.
  destruct (RTR0MemObjLockUser _ _ _) as [rc hMem]. step_if; [|done].
  pose proof (lock_pages_length hMem (Z.to_nat cPages) pages) as Hl.
  destruct (lock_pages hMem (Z.to_nat cPages) pages) as [rcp pages']. simpl in Hl.
  destruct (if RT_SUCCESS _ then _ else _) as [rc' m']. by step_if.
Qed.

Lemma ContAlloc_out m ses cPages p0 p3 ph rAlloc others o :
  (SUPR0ContAlloc m ses cPages p0 p3 ph rAlloc others).1.1.2 = Some o → length (out_pages o) = 1%nat.
Proof.
  unfold SUPR0ContAlloc. intros Ho. repeat case_match; by simplify_eq/=.
Qed.

Lemma LowAlloc_out m ses cPages p0 p3 pp rAlloc others o :
  (SUPR0LowAlloc m ses cPages p0 p3 pp rAlloc others).1.1.2 = Some o →
  1 ≤ cPages < 256 ∧ Z.of_nat (length (out_pages o)) = cPages.
Proof.
  unfold SUPR0LowAlloc. intros Ho. destruct (negb _); [done|]. destruct (_ || _); [done|].
  destruct ((cPages <? 1) || (256 <=? cPages)) eqn:E; [done|]. zbool. split; [lia|].
  repeat case_match; simplify_eq/=. rewrite length_fmap, length_seqZ. lia.
Qed.

Lemma PageAllocEx_out m ses cPages fFlags p3 p0 pp rAlloc others o :
  (SUPR0PageAllocEx m ses cPages fFlags p3 p0 pp rAlloc others).1.1.2 = Some o →
  1 ≤ cPages ∧ Z.of_nat (length (out_pages o)) ≤ cPages.
Proof.
  unfold SUPR0PageAllocEx. intros Ho. do 3 (destruct (negb _); [done|]). destruct (_ && _); [done|].
  destruct (negb _); [done|]. destruct ((cPages <? 1) || _) eqn:E; [done|]. zbool. split; [lia|].
  destruct (if negb (p0 =? NULL) then _ else _) as [rc hMem]. destruct (RT_SUCCESS rc); [|done].
  destruct (if negb (p3 =? NULL) then _ else _) as [rc2 hMap]. destruct (RT_SUCCESS rc2); [|done].
  destruct (supdrvMemAdd _ _ _ _) as [rc3 m']. destruct (rc3 =? 0); simplify_eq/=.
  destruct (negb (pp =? NULL)); simpl; [rewrite length_fmap, length_seqZ|]; lia.
Qed.

Ltac outs := unfold out_ok; repeat first [apply Forall_app; split | constructor]; simpl; lia.

Context (env : IoEnv) (st : IoState) (ses : SUPDRVSESSION).

Lemma QUERY_FUNCS_out :
  out_ok (SUP_IOCTL_QUERY_FUNCS_SIZE_OUT (Z.of_nat (length (x_aFunctions (io_x st))))) (r_out (io_QUERY_FUNCS st)).
Proof.
  unfold io_QUERY_FUNCS, SUP_IOCTL_QUERY_FUNCS_SIZE_OUT. simpl. constructor; [simpl; lia|].
  apply Forall_concat, Forall_lookup. intros i l Hl. rewrite list_lookup_imap in Hl.
  destruct (x_aFunctions (io_x st) !! i) as [f|] eqn:E; [|done]. simpl in Hl. simplify_eq.
  apply lookup_lt_Some in E. unfold func_out.
  repeat constructor; simpl; rewrite ?length_take, ?length_app, ?length_replicate; lia.
Qed.

Lemma PAGE_LOCK_out buf pvR3 cPages :
  0 ≤ cPages → out_ok (24 + 8 * cPages) (r_out (io_PAGE_LOCK env st ses buf pvR3 cPages)).
Proof.
  intros Hc. unfold io_PAGE_LOCK.
  set (pages := _ <$> seqZ 0 cPages). assert (Hp : Z.of_nat (length pages) = cPages)
    by (unfold pages; rewrite length_fmap, length_seqZ; lia). clearbody pages.
  pose proof (LockMem_length (default [] (x_mem (io_x st) !! s_self ses)) ses pvR3 cPages (ie_pReq env + 24)
    pages (ie_rAlloc env) (ie_memOthers env)) as Hl.
  destruct (SUPR0LockMem _ _ _ _ _ _ _ _) as [[[rc pages'] m'] ev]. simpl in *.
  rewrite <- Hp, <- Hl. by apply pages_out_ok.
Qed.

Lemma CONT_ALLOC_out cPages : out_ok SUP_IOCTL_CONT_ALLOC_SIZE_OUT (r_out (io_CONT_ALLOC env st ses cPages)).
Proof.
  unfold io_CONT_ALLOC, SUP_IOCTL_CONT_ALLOC_SIZE_OUT. cbv zeta.
  destruct (SUPR0ContAlloc _ _ _ _ _ _ _ _) as [[[rc o] m'] ev] eqn:E. simpl.
  destruct o as [o|]; simpl; [|constructor]. repeat (constructor; [simpl; lia|]).
  eapply out_ok_mono; [by apply pages_out_ok|].
  rewrite (ContAlloc_out _ _ _ _ _ _ _ _ _ ltac:(by rewrite E)). lia.
Qed.

Lemma LOW_ALLOC_out cPages :
  out_ok (SUP_IOCTL_LOW_ALLOC_SIZE_OUT cPages) (r_out (io_LOW_ALLOC env st ses cPages)).
Proof.
  unfold io_LOW_ALLOC, SUP_IOCTL_LOW_ALLOC_SIZE_OUT. cbv zeta.
  destruct (SUPR0LowAlloc _ _ _ _ _ _ _ _) as [[[rc o] m'] ev] eqn:E. simpl.
  destruct o as [o|]; simpl; [|constructor].
  destruct (LowAlloc_out _ _ _ _ _ _ _ _ _ ltac:(by rewrite E)) as [Hc Hl].
  rewrite u32_small by lia. repeat (constructor; [simpl; lia|]).
  eapply out_ok_mono; [by apply pages_out_ok|]. lia.
Qed.

Lemma PAGE_ALLOC_EX_out cPages fKernel fUser :
  out_ok (SUP_IOCTL_PAGE_ALLOC_EX_SIZE_OUT cPages) (r_out (io_PAGE_ALLOC_EX env st ses cPages fKernel fUser)).
Proof.
  unfold io_PAGE_ALLOC_EX, SUP_IOCTL_PAGE_ALLOC_EX_SIZE_OUT. cbv zeta.
  destruct (SUPR0PageAllocEx _ _ _ _ _ _ _ _ _) as [[[rc o] m'] ev] eqn:E. simpl.
  destruct o as [o|]; simpl; [|constructor].
  destruct (PageAllocEx_out _ _ _ _ _ _ _ _ _ _ ltac:(by rewrite E)) as [Hc Hl].
  apply out_ok_app; [destruct fUser; outs|]. apply out_ok_app; [destruct fKernel; outs|].
  eapply out_ok_mono; [by apply pages_out_ok|]. lia.
Qed.

Lemma SEM_OP3_out t uType hSem uOp res :
  io_SEM_OP3 env st ses t uType hSem uOp = Some res → out_ok SUP_IOCTL_SEM_OP3_SIZE (r_out res).
Proof. unfold io_SEM_OP3, SUP_IOCTL_SEM_OP3_SIZE. intros Hx. repeat case_match; simplify_eq; outs. Qed.

Lemma mem_free_out f p : r_out (io_mem_free st ses f p) = [].
Proof. unfold io_mem_free. by destruct (f _ _ _) as [[? ?] ?]. Qed.

(** The sizes of the stores of a request. *)
Lemma exec_out buf h r res :
  req_ok (Z.of_nat (length (x_aFunctions (io_x st)))) h r → 24 ≤ h_cbOut h →
  io_exec env st ses buf h r = Some res → out_ok (h_cbOut h) (r_out res).
Proof.
  intros Hr Hc Hx.
  assert (Hnil : r_out res = [] → out_ok (h_cbOut h) (r_out res)) by (intros ->; constructor).
  destruct r; cbn [io_exec req_ok] in Hr, Hx; try injection Hx as <-;
    try (apply Hnil; first [apply mem_free_out | by unfold io_SET_VM_FOR_FAST]).
  - rewrite Hr. unfold io_COOKIE, SUP_IOCTL_COOKIE_SIZE_OUT. repeat case_match; outs.
  - rewrite Hr. apply QUERY_FUNCS_out.
  - destruct Hr as (Hp&_&->). apply PAGE_LOCK_out. lia.
  - rewrite Hr. apply CONT_ALLOC_out.
  - destruct Hr as (->&_). unfold io_LDR_OPEN, SUP_IOCTL_LDR_OPEN_SIZE_OUT.
    destruct (supdrvIOCtl_LdrOpen _ _ _ _ _ _) as [[[? o] ?] ?]. destruct o; outs.
  - apply Hnil. unfold io_LDR_LOAD. by destruct (supdrvIOCtl_LdrLoad _ _ _ _ _ _) as [[? ?] ?].
  - apply Hnil. unfold io_LDR_FREE. by destruct (supdrvIOCtl_LdrFree _ _ _ _) as [[[? ?] ?] ?].
  - destruct Hr as (->&_). unfold io_LDR_GET_SYMBOL, SUP_IOCTL_LDR_GET_SYMBOL_SIZE_OUT.
    destruct (supdrvIOCtl_LdrGetSymbol _ _ _ _) as [? o]. destruct o; outs.
  - apply Hnil. unfold io_CALL_VMMR0. by destruct (negb _).
  - rewrite Hr. unfold io_GET_PAGING_MODE, SUP_IOCTL_GET_PAGING_MODE_SIZE_OUT.
    destruct (ie_cpuid env _) as [[[? ?] ?] ?]. outs.
  - destruct Hr as (_&->). apply LOW_ALLOC_out.
  - rewrite Hr. unfold io_GIP_MAP, SUP_IOCTL_GIP_MAP_SIZE_OUT.
    destruct (SUPR0GipMap _ _ _ _ _) as [[[? [? ?]] ?] ?]. destruct (RT_SUCCESS _); outs.
  - apply Hnil. unfold io_GIP_UNMAP. by destruct (SUPR0GipUnmap _ _ _) as [[? ?] ?].
  - destruct Hr as (_&_&->). apply PAGE_ALLOC_EX_out.
  - destruct Hr as (->&_). unfold io_PAGE_MAP_KERNEL, SUP_IOCTL_PAGE_MAP_KERNEL_SIZE.
    destruct (SUPR0PageMapKernel _ _ _ _ _ _ _) as [[? ?] o]. destruct o; outs.
  - apply Hnil. unfold io_PAGE_PROTECT. by destruct (SUPR0PageProtect _ _ _ _ _ _ _).
  - apply Hnil. unfold io_CALL_SERVICE. by destruct (supdrvIOCtl_CallServiceModule _ _ _ _ _ _ _ _).
  - apply Hnil. unfold io_LOGGER_SETTINGS. by destruct (supdrvIOCtl_LoggerSettings _ _ _) as [[? ?] ?].
  - apply Hnil. destruct (x_handles _ !! _) as [t|]; simplify_eq/=. unfold io_SEM_OP2. destruct (_ || _); [|done].
    cbv zeta. by destruct (sem_op2 _ _ _ _ _ _ _) as [[? ?] ?].
  - rewrite Hr. destruct (x_handles _ !! _) as [t|]; [|done]. by eapply SEM_OP3_out.
  - rewrite Hr. unfold io_VT_CAPS, SUP_IOCTL_VT_CAPS_SIZE_OUT.
    destruct (SUPR0QueryVTCaps _ _ _ _ _) as [? o]. destruct o; outs.
Qed.

(** The output size only ever shrinks. *)
Lemma exec_cbOut buf h r res c :
  req_ok (Z.of_nat (length (x_aFunctions (io_x st)))) h r → 24 ≤ h_cbOut h →
  io_exec env st ses buf h r = Some res → r_cbOut res = Some c → c ≤ h_cbOut h.
Proof.
  intros Hr Hh Hx Hc.
  assert (H24 : c = SUPREQHDR_size ∨ h_cbOut h = c → c ≤ h_cbOut h) by (unfold SUPREQHDR_size; lia).
  apply H24. clear H24. destruct r; cbn [io_exec req_ok] in Hr, Hx; simplify_eq;
    unfold io_COOKIE, io_PAGE_LOCK, io_PAGE_UNLOCK, io_CONT_FREE, io_LOW_FREE, io_PAGE_FREE, io_mem_free, io_CONT_ALLOC,
      io_LOW_ALLOC, io_PAGE_ALLOC_EX, io_PAGE_MAP_KERNEL, io_PAGE_PROTECT, io_LDR_OPEN, io_LDR_LOAD, io_LDR_FREE,
      io_LDR_GET_SYMBOL, io_CALL_VMMR0, io_GET_PAGING_MODE, io_GIP_MAP, io_GIP_UNMAP, io_CALL_SERVICE,
      io_LOGGER_SETTINGS, io_VT_CAPS, io_done_cut in Hc;
    try (repeat case_match; simplify_eq/=; by left).
  - destruct (x_handles _ !! _) as [t|]; simplify_eq/=. unfold io_SEM_OP2 in Hc.
    destruct (_ || _); [|done]. cbv zeta in Hc. by destruct (sem_op2 _ _ _ _ _ _ _) as [[? ?] ?].
  - destruct (x_handles _ !! _) as [t|]; [|done]. cbn in Hx. unfold io_SEM_OP3 in Hx.
    repeat case_match; simplify_eq/=; by right.
Qed.
End output.

(** What [supdrvIOCtl] returns, by the outcome of its checks. *)
Lemma ioctl_cases `{MemObjApi} env uIOCtl st ses buf r :
  bytes_ok buf → 24 ≤ Z.of_nat (length buf) →
  rd_u32 buf 8 ≤ Z.of_nat (length buf) → rd_u32 buf 8 < 2 ^ 31 →
  supdrvIOCtl env uIOCtl st ses buf = Some r →
  (r_st r = st ∧ r_ev r = [] ∧ r_out r = [] ∧ r_cbOut r = None ∧ r_ret r ≠ 0)
  ∨ ∃ h q, rd_hdr buf = Ok h ∧ h_cbOut h = rd_u32 buf 12 ∧ 24 ≤ h_cbOut h
      ∧ supdrvIOCtl_check (x_u32Cookie (io_x st)) (Z.of_nat (length (x_aFunctions (io_x st)))) uIOCtl ses buf
        = IoAccept h q
      ∧ VALID_PTR (s_self ses) = true ∧ supdrvIOCtl_cookie_ok (x_u32Cookie (io_x st)) uIOCtl ses h = true
      ∧ req_ok (Z.of_nat (length (x_aFunctions (io_x st)))) h q ∧ io_exec env st ses buf h q = Some r.
Proof.
  intros Hb Hl Hin Hmax Hr. unfold supdrvIOCtl in Hr. destruct (rd_hdr_ok buf Hb Hl) as (h0&Eh&_&_&_&Hcb).
  pose proof (check_cases (x_u32Cookie (io_x st)) (Z.of_nat (length (x_aFunctions (io_x st)))) uIOCtl ses buf
    Hb Hl Hin Hmax) as Hc.
  destruct (supdrvIOCtl_check _ _ _ _ _) as [h q| | | |] eqn:Ec; simplify_eq/=; try (left; by split_and!).
  destruct Hc as (Hh&Hok&Hv&Hck&Hq). rewrite Eh in Hh. simplify_eq. right. exists h, q. split_and!; try done.
  unfold supdrvIOCtl_hdr_ok, SUPREQHDR_size in Hok. zbool. lia.
Qed.

(** * The invariant *)

(** What an operation leaves alone keeps its part of the invariant. *)
Lemma dev_inv_same x x' :
  dev_inv x → x_objs x' = x_objs x → x_ldr x' = x_ldr x → x_fac x' = x_fac x → x_handles x' = x_handles x →
  x_mem x' = x_mem x → x_gip x' = x_gip x → x_sess x' = x_sess x → dev_inv x'.
Proof.
  intros [H1 H2 H3 H4 H5 H6 H7] E1 E2 E3 E4 E5 E6 E7.
  split; unfold sess_ok in *; by rewrite ?E1, ?E2, ?E3, ?E4, ?E5, ?E6, ?E7.
Qed.

(** A session keeps what it has. *)
Lemma sess_ok_mono x x' s p :
  sess_ok x s p → (is_Some (x_mem x !! s) → is_Some (x_mem x' !! s)) →
  (is_Some (x_handles x !! s) → is_Some (x_handles x' !! s)) → sess_ok x' s p.
Proof. intros (H1&H2&H3&H4) Hm Hh. by split_and!; auto. Qed.

Lemma insert_is_Some' {A} (m : gmap Z A) i j a : is_Some (m !! i) → is_Some (<[j := a]> m !! i).
Proof. intros H. rewrite lookup_insert. by case_decide. Qed.

Lemma set_mem_inv x s m : dev_inv x → mem_wf m → dev_inv (set_mem s m x).
Proof.
  intros [H1 H2 H3 H4 H5 H6 H7] Hm. split; try done.
  - intros s' m'. simpl. rewrite lookup_insert_Some. intros [[_ <-]|[_ ?]]; [done|by eapply H5].
  - intros s' p Hp. eapply sess_ok_mono; [by apply H7|apply insert_is_Some'|done].
Qed.

Lemma set_gip_inv x g b : dev_inv x → gip_users_ok (g, b) → dev_inv (set_gip g x).
Proof. intros [H1 H2 H3 H4 H5 H6 H7] Hg. split; try done. by exists b. Qed.

(** The registry may lose objects and destructors but no reference. *)
Lemma set_ldr_inv x l o :
  dev_inv x → ldr_inv l → obj_inv o → heap_sub (x_objs x) o → pUsage o = pUsage (x_objs x) →
  dev_inv (set_ldr l o x).
Proof.
  intros [H1 H2 H3 H4 H5 H6 H7] Hl Ho Hsub Hu. split; try done. intros s t Ht. simpl in *.
  eapply sem_inv_registry; [by apply H4|done| |].
  - intros q. pose proof (si_refs _ _ (H4 s t Ht) q) as Hq. unfold sess_refs, sess_usage in *. by rewrite Hu.
  - intros q ob ob' Hq (ob2&Hq2&->)%Hsub. by simplify_eq.
Qed.

(** A step on the registry and one session's table. *)
Definition sem_kept (x : SUPDRVDEVEXT) (s : ptr) (o : ObjState) (t : RTHANDLETABLEINT) : Prop :=
  sem_inv (o, t) s
  ∧ (∀ s' q, s' ≠ s → sess_refs o s' q = sess_refs (x_objs x) s' q)
  ∧ ∀ q ob ob', o_heap (x_objs x) !! q = Some ob → o_heap o !! q = Some ob' → obj_enmType ob' = obj_enmType ob.

Lemma sem_kept_same x s t : sem_inv (x_objs x, t) s → sem_kept x s (x_objs x) t.
Proof. intros H. split_and!; [done|done|]. intros q ob ob' H1 H2. by simplify_eq. Qed.

(** References of the session itself come and go. *)
Lemma sem_kept_bump x s o t p d :
  sem_inv (o, t) s → (∀ s' q, sess_refs o s' q = bump (sess_refs (x_objs x)) s p d s' q) →
  (∀ q ob ob', o_heap (x_objs x) !! q = Some ob → o_heap o !! q = Some ob' → obj_enmType ob' = obj_enmType ob) →
  sem_kept x s o t.
Proof.
  intros H Hb Hty. split_and!; [done| |done]. intros s' q Hne. rewrite Hb. unfold bump.
  by destruct (decide _) as [[? _]|]; [|lia].
Qed.

Lemma set_sem_inv x s o t : dev_inv x → sem_kept x s o t → dev_inv (set_sem s o t x).
Proof.
  intros [H1 H2 H3 H4 H5 H6 H7] (Hs&Hr&Hty). split; try done; [apply Hs| |].
  2:{ intros s' p Hp. eapply sess_ok_mono; [by apply H7|done|apply insert_is_Some']. }
  intros s' t'. simpl. rewrite lookup_insert_Some. intros [[<- <-]|[Hne Ht]]; [done|].
  eapply sem_inv_registry; [by apply H4|apply Hs| |done].
  intros q. rewrite Hr by done. apply (si_refs _ _ (H4 s' t' Ht) q).
Qed.

(** What a request runs in: the allocator gives memory nobody has, no count leaves its 32
    bits, and no other thread comes in between but to track memory. *)
Record env_ok (env : IoEnv) (x : SUPDRVDEVEXT) : Prop := {
  eo_req : VALID_PTR (ie_pReq env) = true;
  eo_image p : ie_rAlloc2 env = Some p → l_heap (x_ldr x) !! p = None;
  eo_exec cb a : ie_RTMemExecAlloc env cb = Some a →
    ∀ p i, l_heap (x_ldr x) !! p = Some i → li_pvImage i ≠ RT_ALIGN_P32 a;
  eo_alloc : fresh_allocs (x_objs x) (ie_rAlloc env) (ie_rAlloc2 env);
  eo_images p i : l_heap (x_ldr x) !! p = Some i → li_cUsage i + 1 < 2 ^ 32;
  eo_objs p : total (x_objs x) p + 1 < 2 ^ 32;
  eo_gip : d_cGipUsers (fst (x_gip x)) < 2 ^ 32 - 1;
  eo_mem m : mem_wf m → mem_wf (ie_memOthers env m);
  eo_objOthers : ie_objOthers env = id;
  eo_semOthers : ie_semOthers env = id;
  eo_handles : ∃ a b, ie_allocEnvs env = [env_alone a b];
}.

(** A load request gives the base of its image as the VMMR0 handle. *)
Definition req_base (r : IoReq) : Prop :=
  match r with ReqLdrLoad q => vmmr0_is_base q | _ => True end.

Section invariant.
Context `{HA : MemObjApi} `{!MemObjLaws HA} (env : IoEnv) (st : IoState) (ses : SUPDRVSESSION).
Abbreviation x := (io_x st).
Abbreviation s := (s_self ses).
Context (Hinv : dev_inv x) (Henv : env_ok env x) (Hses : x_sess x !! s = Some ses).

Lemma session_valid : SUP_IS_SESSION_VALID ses = true.
Proof. by destruct (di_sess _ Hinv _ _ Hses) as (_&?&_). Qed.

Lemma session_mem : mem_wf (default [] (x_mem x !! s)).
Proof.
  destruct (di_sess _ Hinv _ _ Hses) as (_&_&[m Hm]&_). apply (di_mem _ Hinv s).
  transitivity (Some (default [] (Some m))); [exact Hm|]. do 2 f_equal. symmetry. exact Hm.
Qed.

Lemma LDR_FREE_inv pv : dev_inv (io_x (r_st (io_LDR_FREE st ses pv))).
Proof.
  unfold io_LDR_FREE. pose proof (free_inv (x_ldr x) (x_objs x) s pv) as Hf.
  pose proof (di_ldr _ Hinv) as Hl. destruct (Hf Hl) as [Hf' _]. clear Hf. simpl in Hf'.
  destruct (supdrvIOCtl_LdrFree _ _ _ _) as [[[rc l] o] ev] eqn:E. simpl in *.
  destruct (free_cases _ _ _ _ _ _ _ _ Hl E) as [(_&->)|[(p&i&_&->&_)|(p&i&_&_&_&_&->&_)]];
    try (apply set_ldr_inv; [done|done|apply Hinv|apply heap_sub_refl|done]).
  destruct (clear_destructors_inv (x_objs x) i (di_objs _ Hinv)). by apply set_ldr_inv.
Qed.

Lemma sem_op2_kept ctx t hSem uOp uArg rc o' t' ev :
  x_handles x !! s = Some t →
  sem_op2 env ses ctx (x_objs x, t) hSem uOp uArg = (rc, (o', t'), ev) → sem_kept x s o' t'.
Proof.
  intros Ht H. pose proof (di_handles _ Hinv _ _ Ht) as Hs. pose proof session_valid as Hv.
  pose proof (sem_kept_same x s t Hs) as Hsame.
  assert (Huse : ∀ ctx' op, sem_use ctx' op (x_objs x, t) ses hSem id = (rc, (o', t'), ev) → sem_kept x s o' t').
  { intros ctx' op Hu. rewrite (use_spec ctx' op) in Hu; [|done|done|intros; apply (eo_objs _ _ Henv)].
    destruct (named _ _ _); [destruct (op _)|]; by simplify_eq. }
  assert (Hclose : ∀ ctx', sem_close ctx' (x_objs x, t) ses hSem = (rc, (o', t'), ev) → sem_kept x s o' t').
  { intros ctx' Hc. destruct (decide (hSem = NIL_SUPSEMEVENT)) as [->|Hn].
    { unfold sem_close in Hc. rewrite Hv in Hc. simpl in Hc. by simplify_eq. }
    pose proof (close_spec ctx' _ _ _ _ _ _ _ _ Hs Hv (λ p _, eo_objs _ _ Henv p) Hn Hc) as Hcl.
    destruct (named t ctx' hSem) as [p|]; [|by destruct Hcl as (_&->&->&_)].
    destruct Hcl as (Hs'&_&_&Hid&Hb&_). eapply sem_kept_bump; [done|exact Hb|].
    intros q ob ob' H1 H2. specialize (Hid q ob ob' H1 H2). unfold obj_ident in Hid. by simplify_eq. }
  unfold sem_op2 in H. rewrite (eo_semOthers _ _ Henv) in H. cbv zeta in H.
  unfold SUPSemEventMultiWaitNoResume, SUPSemEventWaitNoResume, SUPSemEventMultiWaitNsAbsIntr,
    SUPSemEventWaitNsAbsIntr, SUPSemEventMultiWaitNsRelIntr, SUPSemEventWaitNsRelIntr, SUPSemEventMultiSignal,
    SUPSemEventSignal, SUPSemEventMultiReset, SUPSemEventMultiClose, SUPSemEventClose, supR0SemEventWaitEx in H.
  repeat (match type of H with context [if ?b then _ else _] => destruct b end);
    first [by eapply Huse | by eapply Hclose | by simplify_eq].
Qed.

(** What a semaphore request leaves: the state, or a step on the registry and the table. *)
Definition sem_res (r : IoRes) : Prop :=
  io_x (r_st r) = x ∨ ∃ o t, io_x (r_st r) = set_sem s o t x ∧ sem_kept x s o t.

Lemma SEM_OP2_res t uType hSem uOp uArg :
  x_handles x !! s = Some t → sem_res (io_SEM_OP2 env st ses t uType hSem uOp uArg).
Proof.
  intros Ht. unfold io_SEM_OP2. destruct (_ || _); [|by left]. cbv zeta.
  destruct (sem_op2 _ _ _ _ _ _ _) as [[rc [o' t']] ev] eqn:E. right. exists o', t'.
  split; [done|]. by eapply sem_op2_kept.
Qed.

Lemma SEM_OP3_res t uType hSem uOp :
  x_handles x !! s = Some t → ∃ r, io_SEM_OP3 env st ses t uType hSem uOp = Some r ∧ sem_res r.
Proof.
  intros Ht. pose proof (di_handles _ Hinv _ _ Ht) as Hs. unfold io_SEM_OP3.
  destruct (_ || _); [|by eexists; split; [|left]]. cbv zeta. destruct (uOp =? SUPSEMOP3_CREATE).
  2:{ destruct (uOp =? SUPSEMOP3_GET_RESOLUTION); [destruct (negb _)|]; by eexists; split; [|left]. }
  destruct (negb _); [by eexists; split; [|left]|]. set (ctx := if uType =? _ then _ else _).
  destruct (eo_handles _ _ Henv) as (a&b&->). rewrite (eo_objOthers _ _ Henv).
  destruct (create_cases ctx (ie_semDestructor env ctx) _ _ _ (ie_pReq env) (ie_semCreate env) _ _ a b Hs
    (eo_alloc _ _ Henv) session_valid (eo_req _ _ Henv)) as (rc&oh&o'&t'&ev&->&Hs'&_&Hc).
  eexists. split; [reflexivity|]. right. exists o', t'. split; [done|].
  destruct Hc as [(h&p&_&_&_&_&_&Hnone&_&_&Hh&Hb&_)|(_&Hh&Hb&_)].
  - eapply sem_kept_bump; [done|exact Hb|]. intros q ob ob' H1 H2.
    rewrite Hh, lookup_insert_ne in H2 by congruence. by simplify_eq.
  - split_and!; [done|intros s' q _; by rewrite Hb|]. intros q ob ob' H1 H2. rewrite Hh in H2. by simplify_eq.
Qed.

Lemma sem_res_inv r : sem_res r → dev_inv (io_x (r_st r)).
Proof. intros [->|(o&t&->&Hk)]; [done|by apply set_sem_inv]. Qed.

Lemma SET_VM_inv pVM : dev_inv (io_x (r_st (io_SET_VM_FOR_FAST st ses pVM))).
Proof.
  unfold io_SET_VM_FOR_FAST. destruct Hinv as [H1 H2 H3 H4 H5 H6 H7]. split; try done.
  intros s' p. simpl. rewrite lookup_insert_Some. intros [[<- <-]|[_ Hp]]; [|by apply H7].
  destruct (H7 _ _ Hses) as (?&Hv&?&?). by split_and!.
Qed.

Lemma mem_free_inv f p :
  (∀ m, mem_wf m → mem_wf (f m ses p).1.2) → dev_inv (io_x (r_st (io_mem_free st ses f p))).
Proof.
  intros Hf. unfold io_mem_free. specialize (Hf _ session_mem). destruct (f _ ses p) as [[rc m] ev].
  by apply set_mem_inv.
Qed.

(** The requests that track memory. *)
Lemma alloc_res_inv {A} (res : Z * A * SessMem * list event) (k : Z → A → SessMem → list event → IoRes) :
  mem_wf res.1.2 → (∀ rc a m ev, io_x (r_st (k rc a m ev)) = set_mem s m x) →
  dev_inv (io_x (r_st (let '(rc, a, m, ev) := res in k rc a m ev))).
Proof. destruct res as [[[rc a] m] ev]. intros Hm Hk. rewrite Hk. by apply set_mem_inv. Qed.

Lemma GIP_MAP_inv : dev_inv (io_x (r_st (io_GIP_MAP env st ses))).
Proof.
  unfold io_GIP_MAP. destruct (di_gip _ Hinv) as [b Hg].
  destruct (SUPR0GipMap _ _ _ _ _) as [[[rc out] g] ev] eqn:E. destruct out as [p3 phys].
  refine (set_gip_inv _ _ _ Hinv (gip_step_ok _ _ Hg (gstep_map _ _ _ _ _ _ _ _ _ _ _ E))).
  apply (eo_gip _ _ Henv).
Qed.

Lemma GIP_UNMAP_inv : dev_inv (io_x (r_st (io_GIP_UNMAP env st ses))).
Proof.
  unfold io_GIP_UNMAP. destruct (di_gip _ Hinv) as [b Hg].
  destruct (SUPR0GipUnmap _ _ _) as [[rc g] ev] eqn:E.
  exact (set_gip_inv _ _ _ Hinv (gip_step_ok _ _ Hg (gstep_unmap _ _ _ _ _ _ _ E))).
Qed.

Lemma LDR_inv l : ldr_inv l → dev_inv (set_ldr l (x_objs x) x).
Proof. intros Hl. apply set_ldr_inv; [done|done|apply Hinv|apply heap_sub_refl|done]. Qed.

(** The requests that change the state without a semaphore. *)
Lemma exec_state_inv buf h q r :
  io_exec env st ses buf h q = Some r →
  match q with ReqSemOp2 _ _ _ _ | ReqSemOp3 _ _ _ => True | _ => dev_inv (io_x (r_st r)) end.
Proof.
  intros Hx. pose proof session_mem as Hm. pose proof (eo_mem _ _ Henv _ Hm) as Hmo.
  pose proof (di_ldr _ Hinv) as Hl.
  destruct q; cbn [io_exec] in Hx; simplify_eq; try done.
  - unfold io_COOKIE. by repeat case_match.
  - unfold io_PAGE_LOCK. apply alloc_res_inv; [by apply LockMem_wf|done].
  - apply mem_free_inv. intros m. apply free_wf.
  - unfold io_CONT_ALLOC. cbv zeta. apply alloc_res_inv; [by apply ContAlloc_wf|done].
  - apply mem_free_inv. intros m. apply free_wf.
  - unfold io_LDR_OPEN. pose proof (open_inv (x_ldr x) s pReq (ie_rAlloc env) (ie_rAlloc2 env) (ie_RTMemExecAlloc env)
      Hl (eo_image _ _ Henv) (eo_exec _ _ Henv) (eo_images _ _ Henv)) as [H _].
    destruct (supdrvIOCtl_LdrOpen _ _ _ _ _ _) as [[[??]?]?]. by apply LDR_inv.
  - unfold io_LDR_LOAD. pose proof (load_inv (x_ldr x) s pReq (ie_rAlloc env) (ie_rAlloc2 env) (ie_callInit env)
      Hl) as [H _].
    destruct (supdrvIOCtl_LdrLoad _ _ _ _ _ _) as [[??]?]. by apply LDR_inv.
  - apply LDR_FREE_inv.
  - unfold io_LDR_GET_SYMBOL. by destruct (supdrvIOCtl_LdrGetSymbol _ _ _ _).
  - unfold io_CALL_VMMR0. by destruct (negb _).
  - unfold io_GET_PAGING_MODE. by destruct (ie_cpuid env _) as [[[??]?]?].
  - unfold io_LOW_ALLOC. cbv zeta. apply alloc_res_inv; [by apply LowAlloc_wf|done].
  - apply mem_free_inv. intros m. apply free_wf.
  - apply GIP_MAP_inv.
  - apply GIP_UNMAP_inv.
  - apply SET_VM_inv.
  - unfold io_PAGE_ALLOC_EX. cbv zeta. apply alloc_res_inv; [by apply PageAllocEx_wf|done].
  - unfold io_PAGE_MAP_KERNEL. by destruct (SUPR0PageMapKernel _ _ _ _ _ _ _) as [[??]?].
  - unfold io_PAGE_PROTECT. by destruct (SUPR0PageProtect _ _ _ _ _ _ _).
  - apply mem_free_inv. intros m. apply free_wf.
  - unfold io_CALL_SERVICE. by destruct (supdrvIOCtl_CallServiceModule _ _ _ _ _ _ _ _).
  - unfold io_LOGGER_SETTINGS. by destruct (supdrvIOCtl_LoggerSettings _ _ _) as [[??]?].
  - unfold io_VT_CAPS. by destruct (SUPR0QueryVTCaps _ _ _ _ _).
Qed.

(** Every accepted request comes back and keeps the invariant. *)
Lemma exec_inv buf h q :
  ∃ r, io_exec env st ses buf h q = Some r ∧ dev_inv (io_x (r_st r)).
Proof.
  destruct (di_sess _ Hinv _ _ Hses) as (_&_&_&[t Ht]).
  pose proof (λ r, exec_state_inv buf h q r) as Hst.
  destruct q; cbn [io_exec] in *; try (eexists; split; [reflexivity|by eapply Hst]).
  - rewrite Ht. simpl. eexists. split; [reflexivity|]. by apply sem_res_inv, SEM_OP2_res.
  - rewrite Ht. simpl. destruct (SEM_OP3_res t uType hSem uOp Ht) as (r&->&Hr). eexists. split; [done|].
    by apply sem_res_inv.
Qed.

(** The entry points stay good as long as loads give the image base. *)
Lemma exec_eps buf h q r :
  req_base q → io_exec env st ses buf h q = Some r → eps_ok (x_ldr x) → eps_ok (x_ldr (io_x (r_st r))).
Proof.
  intros Hq Hx He. pose proof (di_ldr _ Hinv) as Hl. destruct (di_sess _ Hinv _ _ Hses) as (_&_&_&[t Ht]).
  destruct q; cbn [io_exec] in Hx; rewrite ?Ht in Hx; simplify_eq; try exact He;
    unfold io_COOKIE, io_PAGE_LOCK, io_PAGE_UNLOCK, io_CONT_FREE, io_LOW_FREE, io_PAGE_FREE, io_mem_free, io_CONT_ALLOC,
      io_LOW_ALLOC, io_PAGE_ALLOC_EX, io_PAGE_MAP_KERNEL, io_PAGE_PROTECT, io_LDR_GET_SYMBOL, io_CALL_VMMR0,
      io_GET_PAGING_MODE, io_CALL_SERVICE, io_LOGGER_SETTINGS, io_VT_CAPS, io_GIP_MAP, io_GIP_UNMAP;
    try (repeat case_match; exact He).
  - unfold io_LDR_OPEN. pose proof (open_inv (x_ldr x) s pReq (ie_rAlloc env) (ie_rAlloc2 env) (ie_RTMemExecAlloc env)
      Hl (eo_image _ _ Henv) (eo_exec _ _ Henv) (eo_images _ _ Henv)) as [_ H].
    destruct (supdrvIOCtl_LdrOpen _ _ _ _ _ _) as [[[??]?]?]. by apply H.
  - unfold io_LDR_LOAD. pose proof (load_inv (x_ldr x) s pReq (ie_rAlloc env) (ie_rAlloc2 env) (ie_callInit env)
      Hl) as [_ H].
    destruct (supdrvIOCtl_LdrLoad _ _ _ _ _ _) as [[??]?]. by apply H.
  - unfold io_LDR_FREE. pose proof (free_inv (x_ldr x) (x_objs x) s pvImageBase Hl) as [_ H].
    destruct (supdrvIOCtl_LdrFree _ _ _ _) as [[[??]?]?]. by apply H.
  - simpl in Hx. simplify_eq. by destruct (SEM_OP2_res t uType hSem uOp uArg Ht) as [->|(o&t'&->&_)].
  - simpl in Hx. destruct (SEM_OP3_res t uType hSem uOp Ht) as (r'&Hr'&Hres).
    rewrite Hr' in Hx. simplify_eq. by destruct Hres as [->|(o&t'&->&_)].
Qed.
End invariant.
