(* ===== verification/System.v ===== *)
(** The driver as a transition system: sessions are created, make requests and are closed,
    in any order, on the state loading leaves.  The theorems here compose those of the
    components: the invariant of the whole, what a request may do to it and to ring-3's
    buffer, and the Linux host's part. *)

From S2P Require Import Prelude SupTypes ObjReg MemTrack MemApi Loader Factory GipPage Gip Cpu FuncTable Logger Request HandleTab Sem Driver IOCtl.
Local Open Scope Z_scope.
Local Open Scope sup_scope.

(** * Specification *)

(** A buffer of bytes with the header and the [cbIn] bytes of the request in it. *)
Definition buf_ok (buf : list Z) : Prop :=
  bytes_ok buf ∧ 24 ≤ Z.of_nat (length buf) ∧ rd_u32 buf 8 ≤ Z.of_nat (length buf) ∧ rd_u32 buf 8 < 2 ^ 31.

(** The check a state makes. *)
Definition st_check (st : IoState) (uIOCtl : Z) (ses : SUPDRVSESSION) (buf : list Z) : IoCheck :=
  supdrvIOCtl_check (x_u32Cookie (io_x st)) (Z.of_nat (length (x_aFunctions (io_x st)))) uIOCtl ses buf.

(** If the buffer is a load request, it gives the base of its image as the VMMR0 handle. *)
Definition loads_base (st : IoState) (uIOCtl : Z) (ses : SUPDRVSESSION) (buf : list Z) : Prop :=
  ∀ h q, st_check st uIOCtl ses buf = IoAccept h q → req_base q.

(** With [fBase], the load requests among the steps give the image base as the VMMR0 handle;
    the driver does not check it, and without [fBase] they give anything. *)
Inductive drv_step `{MemObjApi} (fBase : bool) : IoState → IoState → Prop :=
| dstep_create st fUser rAlloc rSpin rTable rTableSpin Process R0Process rc p x' ev :
    fresh_session (io_x st) rAlloc rTable →
    supdrvCreateSession (io_x st) fUser rAlloc rSpin rTable rTableSpin Process R0Process = (rc, p, x', ev) →
    drv_step fBase st (set_x x' st)
| dstep_ioctl st ses env uIOCtl buf r :
    x_sess (io_x st) !! s_self ses = Some ses → env_ok env (io_x st) →
    buf_ok buf → (fBase = true → loads_base st uIOCtl ses buf) →
    supdrvIOCtl env uIOCtl st ses buf = Some r → drv_step fBase st (r_st r)
| dstep_close st ses rcGipFree x' ev :
    x_sess (io_x st) !! s_self ses = Some ses →
    supdrvCloseSession (io_x st) ses rcGipFree = (x', ev) → drv_step fBase st (set_x x' st).

(** The environment in which loading the driver can be relied on. *)
Definition init_ok (env : InitEnv) : Prop :=
  0 < ce_Resolution (Driver.ie_gip env) < 2 ^ 32 ∧ 0 ≤ ce_cArray (Driver.ie_gip env)
  ∧ let '(rc, hMem, pv, _) := ce_Alloc (Driver.ie_gip env) in RT_SUCCESS rc = true → hMem ≠ NIL_RTR0MEMOBJ ∧ pv ≠ NULL.

(** The states of a driver that loaded. *)
Definition drv_reach `{MemObjApi} (fBase : bool) (st : IoState) : Prop :=
  ∃ funcs cbSession env rc x log ev,
    init_ok env ∧ supdrvInitDevExt funcs cbSession env = Some (rc, x, ev) ∧ RT_SUCCESS rc = true
    ∧ rtc (drv_step fBase) (mkIoState x log) st.

(** An address in the code of a loaded image. *)
Definition in_loaded_image (l : LdrState) (pfn : ptr) : Prop :=
  ∃ p i, l_heap l !! p = Some i ∧ li_uState i = SUP_IOCTL_LDR_LOAD ∧ in_image i pfn = true.

(** * Lemmas *)

(** A request comes back and keeps the invariant. *)
Lemma ioctl_inv `{HA : MemObjApi} `{!MemObjLaws HA} env uIOCtl st ses buf :
  dev_inv (io_x st) → x_sess (io_x st) !! s_self ses = Some ses → env_ok env (io_x st) →
  buf_ok buf →
  ∃ r, supdrvIOCtl env uIOCtl st ses buf = Some r ∧ dev_inv (io_x (r_st r))
    ∧ (loads_base st uIOCtl ses buf → eps_ok (x_ldr (io_x st)) → eps_ok (x_ldr (io_x (r_st r)))).
Proof.
  intros Hinv Hses Henv (Hb&Hl&Hin&Hmax). unfold supdrvIOCtl, loads_base, st_check.
  pose proof (check_cases (x_u32Cookie (io_x st)) (Z.of_nat (length (x_aFunctions (io_x st)))) uIOCtl ses buf
    Hb Hl Hin Hmax) as Hc.
  destruct (supdrvIOCtl_check _ _ _ _ _) as [h q| | | |]; try first [done | by eexists].
  destruct (exec_inv env st ses Hinv Henv Hses buf h q) as (r&Hr&Hi). exists r. split_and!; [done..|].
  intros Hbase. by apply (exec_eps env st ses Hinv Henv Hses buf h q r (Hbase h q eq_refl)).
Qed.

Lemma init_inv funcs cbSession env rc x ev :
  init_ok env → supdrvInitDevExt funcs cbSession env = Some (rc, x, ev) → RT_SUCCESS rc = true →
  dev_inv x ∧ eps_ok (x_ldr x).
Proof.
  intros (Hres&Harr&Hal) H Hrc.
  destruct (ce_Alloc (Driver.ie_gip env)) as [[[rcA hMem] pv] phys] eqn:E.
  pose proof (init_cases funcs cbSession env x rc ev rcA hMem pv phys Hres Harr E Hal H) as Hc.
  rewrite Hrc in Hc. split; [apply Hc|]. unfold supdrvInitDevExt in H.
  repeat case_match; simplify_eq/=; first [congruence | by left].
Qed.

Lemma drv_step_inv `{HA : MemObjApi} `{!MemObjLaws HA} fBase st st' :
  dev_inv (io_x st) → drv_step fBase st st' →
  dev_inv (io_x st') ∧ (fBase = true → eps_ok (x_ldr (io_x st)) → eps_ok (x_ldr (io_x st'))).
Proof.
  intros Hinv Hs. destruct Hs as [st fUser rA rS rT rTS P R rc p x' ev [Hf Ht] H
                                  |st ses env u buf r Hses Henv Hb Hl H|st ses rcG x' ev Hses H].
  - split; [by eapply create_session_inv|]. intros _. by eapply create_session_eps.
  - destruct (ioctl_inv env u st ses buf Hinv Hses Henv Hb) as (r'&H'&Hi&He). rewrite H in H'. simplify_eq.
    split; [done|]. auto.
  - destruct (close_cases _ _ _ _ _ Hinv H) as [? _]. split; [done|]. intros _. by eapply close_eps.
Qed.

Lemma drv_steps_inv `{HA : MemObjApi} `{!MemObjLaws HA} fBase st st' :
  rtc (drv_step fBase) st st' → dev_inv (io_x st) →
  dev_inv (io_x st') ∧ (fBase = true → eps_ok (x_ldr (io_x st)) → eps_ok (x_ldr (io_x st'))).
Proof.
  induction 1 as [|st1 st2 st3 H12 _ IH]; intros Hinv; [done|].
  destruct (drv_step_inv _ _ _ Hinv H12) as [H2 He2]. destruct (IH H2) as [H3 He3]. split; [done|]. auto.
Qed.

Lemma drv_reach_inv `{HA : MemObjApi} `{!MemObjLaws HA} fBase st : drv_reach fBase st → dev_inv (io_x st).
Proof.
  intros (funcs&cb&env&rc&x&log&ev&He&Hi&Hrc&Hs). destruct (init_inv _ _ _ _ _ _ He Hi Hrc) as [H0 _].
  by apply (drv_steps_inv _ _ _ Hs).
Qed.

Lemma drv_reach_eps `{HA : MemObjApi} `{!MemObjLaws HA} st : drv_reach true st → eps_ok (x_ldr (io_x st)).
Proof.
  intros (funcs&cb&env&rc&x&log&ev&He&Hi&Hrc&Hs). destruct (init_inv _ _ _ _ _ _ He Hi Hrc) as [H0 H1].
  by apply (drv_steps_inv _ _ _ Hs).
Qed.

(** ** Other sessions *)

(** What a request of another session leaves a session. *)
Definition session_kept (x x' : SUPDRVDEVEXT) (s : ptr) : Prop :=
  (∀ q, sess_refs (x_objs x') s q = sess_refs (x_objs x) s q)
  ∧ ldr_usage (x_ldr x') s = ldr_usage (x_ldr x) s
  ∧ x_mem x' !! s = x_mem x !! s ∧ x_fac x' = x_fac x ∧ snd (x_gip x') !! s = snd (x_gip x) !! s
  ∧ x_sess x' !! s = x_sess x !! s ∧ x_handles x' !! s = x_handles x !! s.

Lemma open_other st s pReq rUsage rImage exec s' :
  s' ≠ s → ldr_usage (supdrvIOCtl_LdrOpen st s pReq rUsage rImage exec).1.2 s' = ldr_usage st s'.
Proof.
  intros Hs. assert (Hadd : ∀ st p, ldr_usage (supdrvLdrAddUsage st s p rUsage).2 s' = ldr_usage st s').
  { intros st0 p. unfold supdrvLdrAddUsage, ldr_usage. repeat case_match; simpl; try done; by rewrite lookup_insert_ne. }
  unfold supdrvIOCtl_LdrOpen. destruct (find_split _ _) as [[[pre p] post]|].
  - destruct (l_heap _ !! p); simpl; [by rewrite Hadd|done].
  - destruct rImage as [p|]; [|done]. cbv zeta. destruct (if _ =? VERR_NOT_SUPPORTED then _ else _) as [rc i].
    destruct (RT_FAILURE rc); simpl; [done|by rewrite Hadd].
Qed.

Lemma load_other st s pReq rStr rSym callInit s' :
  ldr_inv st →
  ldr_usage (supdrvIOCtl_LdrLoad st s pReq rStr rSym callInit).1.2 s' = ldr_usage st s'.
Proof.
  intros Hinv. destruct (supdrvIOCtl_LdrLoad st s pReq rStr rSym callInit) as [[rc st'] ev] eqn:E. simpl.
  destruct (ldrload_cases _ _ _ _ _ _ _ _ _ Hinv E) as [(_&->&_)|(u&i&_&Hp&Hbase&Ho&Hv&Hc)]; [done|].
  destruct (load_commit_spec _ _ _ _ _ _ _ _ _ _ Hinv Hp Ho Hv Hc) as (_&H2&_).
  unfold ldr_usage. by rewrite H2.
Qed.

Lemma free_other st os s pv s' :
  s' ≠ s →
  ldr_usage (supdrvIOCtl_LdrFree st os s pv).1.1.2 s' = ldr_usage st s'
  ∧ pUsage (supdrvIOCtl_LdrFree st os s pv).1.2 = pUsage os.
Proof.
  intros Hs. unfold supdrvIOCtl_LdrFree, ldr_usage. destruct (find_split _ _) as [[[pre u] post]|]; [|done].
  destruct (l_heap st !! lu_pImage u) as [i|]; [|done]. destruct (_ || _).
  - destruct (dangling_objects _ _ _); [done|]. destruct (_ <=? 1).
    + unfold supdrvLdrFree. destruct (l_heap _ !! _); simpl; [|by rewrite lookup_insert_ne].
      destruct (_ =? _); simpl; by rewrite lookup_insert_ne.
    + simpl. by rewrite lookup_insert_ne.
  - simpl. by rewrite lookup_insert_ne.
Qed.

Lemma gipmap_other g pSession p1 p2 env s' :
  s' ≠ s_self pSession → snd (SUPR0GipMap g pSession p1 p2 env).1.2 !! s' = snd g !! s'.
Proof.
  intros Hs. destruct g as [d m]. unfold SUPR0GipMap. do 3 (destruct (negb _); [done|]).
  destruct (negb _); [|done]. destruct (if negb (p1 =? NULL) then _ else _) as [[rc g] p3]. cbv zeta.
  destruct (_ && _); [destruct (_ =? 1)|]; simpl; by rewrite lookup_insert_ne.
Qed.

Lemma gipunmap_other g pSession rcFree s' :
  s' ≠ s_self pSession → snd (SUPR0GipUnmap g pSession rcFree).1.2 !! s' = snd g !! s'.
Proof.
  intros Hs. destruct g as [d m]. unfold SUPR0GipUnmap. destruct (negb _); [done|].
  destruct (if negb (_ =? NIL_RTR0MEMOBJ) then _ else _) as [[rc g] ev]. cbv zeta.
  destruct (_ && (rc =? 0)); [destruct (_ && _)|]; simpl; by rewrite lookup_insert_ne.
Qed.

Lemma session_kept_refl x s : session_kept x x s.
Proof. by split_and!. Qed.

Lemma set_mem_kept x s m s' : s' ≠ s → session_kept x (set_mem s m x) s'.
Proof. intros Hs. unfold session_kept. simpl. by rewrite lookup_insert_ne. Qed.

Lemma set_ldr_kept x l o s' :
  pUsage o = pUsage (x_objs x) → ldr_usage l s' = ldr_usage (x_ldr x) s' → session_kept x (set_ldr l o x) s'.
Proof. intros Ho Hl. unfold session_kept, sess_refs, sess_usage. simpl. by rewrite Ho, Hl. Qed.

Lemma set_gip_kept x g s' : snd g !! s' = snd (x_gip x) !! s' → session_kept x (set_gip g x) s'.
Proof. intros Hg. by split_and!. Qed.

Lemma sem_res_kept st ses r s' :
  s' ≠ s_self ses → sem_res st ses r → session_kept (io_x st) (io_x (r_st r)) s'.
Proof.
  intros Hs [->|(o&t&->&_&Hr&_)]; [apply session_kept_refl|]. unfold session_kept. simpl.
  rewrite lookup_insert_ne by done. split; [|done]. intros q. by apply Hr.
Qed.

Section isolation.
Context `{HA : MemObjApi} `{!MemObjLaws HA} (env : IoEnv) (st : IoState) (ses : SUPDRVSESSION).
Context (Hinv : dev_inv (io_x st)) (Henv : env_ok env (io_x st)).
Context (Hses : x_sess (io_x st) !! s_self ses = Some ses) (s' : ptr) (Hs : s' ≠ s_self ses).

Lemma exec_kept buf h q r :
  io_exec env st ses buf h q = Some r → session_kept (io_x st) (io_x (r_st r)) s'.
Proof.
  intros Hx. pose proof (session_kept_refl (io_x st) s') as Hrefl.
  pose proof (λ m, set_mem_kept (io_x st) _ m s' Hs) as Hm. pose proof (di_ldr _ Hinv) as Hl.
  destruct (di_sess _ Hinv _ _ Hses) as (_&_&_&[t Ht]).
  destruct q; cbn [io_exec] in Hx; rewrite ?Ht in Hx; simplify_eq; try done;
    unfold io_COOKIE, io_PAGE_LOCK, io_PAGE_UNLOCK, io_CONT_FREE, io_LOW_FREE, io_PAGE_FREE, io_mem_free, io_CONT_ALLOC,
      io_LOW_ALLOC, io_PAGE_ALLOC_EX, io_PAGE_MAP_KERNEL, io_PAGE_PROTECT, io_LDR_GET_SYMBOL, io_CALL_VMMR0,
      io_GET_PAGING_MODE, io_CALL_SERVICE, io_LOGGER_SETTINGS, io_VT_CAPS;
    try (repeat case_match; first [exact Hrefl | apply Hm]).
  - unfold io_LDR_OPEN. pose proof (open_other (x_ldr (io_x st)) _ pReq (ie_rAlloc env) (ie_rAlloc2 env)
      (ie_RTMemExecAlloc env) s' Hs) as H. destruct (supdrvIOCtl_LdrOpen _ _ _ _ _ _) as [[[??]?]?].
    by apply set_ldr_kept.
  - unfold io_LDR_LOAD. pose proof (load_other (x_ldr (io_x st)) (s_self ses) pReq (ie_rAlloc env) (ie_rAlloc2 env)
      (ie_callInit env) s' Hl) as H. destruct (supdrvIOCtl_LdrLoad _ _ _ _ _ _) as [[??]?].
    by apply set_ldr_kept.
  - unfold io_LDR_FREE. pose proof (free_other (x_ldr (io_x st)) (x_objs (io_x st)) _ pvImageBase s' Hs) as [H1 H2].
    destruct (supdrvIOCtl_LdrFree _ _ _ _) as [[[??]?]?]. by apply set_ldr_kept.
  - unfold io_GIP_MAP. pose proof (gipmap_other (x_gip (io_x st)) ses (ie_pReq env + 32) (ie_pReq env + 24)
      (ie_gip env) s' Hs) as H. cbv zeta. destruct (SUPR0GipMap _ _ _ _ _) as [[[? [??]]?]?]. by apply set_gip_kept.
  - unfold io_GIP_UNMAP. pose proof (gipunmap_other (x_gip (io_x st)) ses (ie_rcGipFree env) s' Hs) as H.
    destruct (SUPR0GipUnmap _ _ _) as [[??]?]. by apply set_gip_kept.
  - unfold io_SET_VM_FOR_FAST, session_kept. simpl. by rewrite lookup_insert_ne.
  - simpl in Hx. simplify_eq. apply (sem_res_kept st ses); [done|]. by apply SEM_OP2_res.
  - simpl in Hx. destruct (SEM_OP3_res env st ses Hinv Henv Hses t uType hSem uOp Ht) as (r'&Hr'&Hres).
    rewrite Hr' in Hx. simplify_eq. by eapply sem_res_kept.
Qed.
End isolation.

(** ** Refusals *)

(** A request whose checks passed is answered in its header, or, for a handle where none
    may be, refused. *)
Lemma exec_ret `{MemObjApi} env st ses buf h q r :
  io_exec env st ses buf h q = Some r →
  (r_ret r = 0 ∧ is_Some (r_rc r)) ∨ (r_ret r ≠ 0 ∧ r_st r = st ∧ r_ev r = [] ∧ r_out r = []).
Proof.
  intros Hx. destruct q; cbn [io_exec] in Hx; simplify_eq;
    [left; unfold io_COOKIE; destruct (negb _); [|destruct (_ || _)]; (split; [done|by eexists])|..];
    unfold io_QUERY_FUNCS, io_PAGE_LOCK, io_PAGE_UNLOCK, io_CONT_FREE, io_LOW_FREE, io_PAGE_FREE, io_mem_free,
      io_CONT_ALLOC, io_LOW_ALLOC, io_PAGE_ALLOC_EX, io_PAGE_MAP_KERNEL, io_PAGE_PROTECT, io_LDR_OPEN, io_LDR_LOAD,
      io_LDR_FREE, io_LDR_GET_SYMBOL, io_CALL_VMMR0, io_GET_PAGING_MODE, io_GIP_MAP, io_GIP_UNMAP, io_SET_VM_FOR_FAST,
      io_CALL_SERVICE, io_LOGGER_SETTINGS, io_VT_CAPS, io_done_cut, io_done in *;
    try (repeat case_match; simplify_eq/=; left; (split; [done|by eexists])).
  - destruct (x_handles _ !! _) as [t|]; simplify_eq/=. left. unfold io_SEM_OP2. destruct (_ || _); [|(split; [done|by eexists])].
    cbv zeta. destruct (sem_op2 _ _ _ _ _ _ _) as [[??]?]. (split; [done|by eexists]).
  - destruct (x_handles _ !! _) as [t|]; [|done]. cbn in Hx. unfold io_SEM_OP3, io_invalid, io_done in Hx.
    repeat case_match; simplify_eq/=; first [by right | left; (split; [done|by eexists])].
Qed.

(** A cookie request changes nothing. *)
Lemma check_COOKIE x ses buf h q n : supdrvIOCtl_check x n SUP_IOCTL_COOKIE ses buf = IoAccept h q →
  ∃ m a b, q = ReqCookie m a b.
Proof.
  unfold supdrvIOCtl_check. destruct (rd_hdr buf) as [h0| |]; [|done..]. do 3 (destruct (negb _); [done|]).
  assert (io_switch (io_cases n) (SUP_CTL_CODE_NO_SIZE SUP_IOCTL_COOKIE) = Some req_COOKIE) as -> by (vm_compute; reflexivity).
  destruct (req_COOKIE h0 buf) as [r| |] eqn:E; [|done..]. intros [= <- <-].
  unfold req_COOKIE, mbind, Rd_bind, mret, Rd_ret in E. repeat case_match; simplify_eq. by eexists _, _, _.
Qed.

(** What the outcome of a request is. *)
Lemma ioctl_ret `{MemObjApi} env uIOCtl st ses buf r :
  buf_ok buf → supdrvIOCtl env uIOCtl st ses buf = Some r →
  (r_ret r = 0 ∧ is_Some (r_rc r)) ∨ (r_ret r ≠ 0 ∧ r_st r = st ∧ r_ev r = [] ∧ r_out r = []).
Proof.
  intros (Hb&Hl&Hin&Hmax) Hr. destruct (ioctl_cases env uIOCtl st ses buf r Hb Hl Hin Hmax Hr)
    as [(?&?&?&_&?)|(h&q&_&_&_&_&_&_&_&Hx)]; [by right|by eapply exec_ret].
Qed.

(** * Properties *)

(** C1. The whole driver.  In every state a loaded driver reaches by creating sessions,
    handling their requests, whatever their code and bytes, and closing sessions, in any
    order, the object registry, the loader, the component factories, the users of the page,
    and every session's handle table, memory and header are consistent.  What the steps
    assume: requests are handled one after another ([env_ok]: no other thread works on the
    objects or handles meanwhile, only the tracking of memory may be interleaved); the
    allocators return memory that is not in use; no reference count reaches [2^32]; the
    request is in its buffer and shorter than [2^31] bytes ([buf_ok]); and loading
    succeeded with a sane timer resolution and GIP allocation ([init_ok]).  The VMMR0 entry
    points are not part of this invariant: a load request can make them dangle
    ([vmmr0_handle_not_base_dangles]). *)
Theorem driver_invariant `{HA : MemObjApi} `{!MemObjLaws HA} fBase st : drv_reach fBase st → dev_inv (io_x st).
Proof. apply drv_reach_inv. Qed.

(** C4. Every request comes back.  In a state the driver reaches as in [driver_invariant],
    for a session that exists, whatever code and bytes ring-3 passes, provided the buffer
    holds the header and the [cbIn] bytes the header gives, fewer than [2^31] ([buf_ok]),
    and nothing but memory tracking comes in between ([env_ok]): [supdrvIOCtl] neither reads
    outside of the buffer nor runs on, and either stores a status for the request or refuses
    it, and then has changed nothing, called nothing and stored nothing but a status. *)
Theorem ioctl_completes `{HA : MemObjApi} `{!MemObjLaws HA} fBase env uIOCtl st ses buf :
  drv_reach fBase st → x_sess (io_x st) !! s_self ses = Some ses → env_ok env (io_x st) → buf_ok buf →
  ∃ r, supdrvIOCtl env uIOCtl st ses buf = Some r
    ∧ ((r_ret r = 0 ∧ is_Some (r_rc r)) ∨ (r_ret r ≠ 0 ∧ r_st r = st ∧ r_ev r = [] ∧ r_out r = [])).
Proof.
  intros Hst Hses Henv Hb. pose proof (drv_reach_inv fBase st Hst) as Hinv.
  destruct (ioctl_inv env uIOCtl st ses buf Hinv Hses Henv Hb) as (r&Hr&_). exists r. split; [done|].
  by eapply ioctl_ret.
Qed.

(** C2. The cookies.  A request that changes the driver's state, calls anything or stores
    anything carries the cookie of the device extension and that of the session, unless it
    is the one that asks for the cookies, with the initial cookie, and that one changes
    nothing and calls nothing. *)
Theorem ioctl_access_control `{MemObjApi} env uIOCtl st ses buf r :
  buf_ok buf → supdrvIOCtl env uIOCtl st ses buf = Some r →
  r_st r ≠ st ∨ r_ev r ≠ [] ∨ r_out r ≠ [] →
  VALID_PTR (s_self ses) = true
  ∧ ∃ h, rd_hdr buf = Ok h
    ∧ if uIOCtl =? SUP_IOCTL_COOKIE
      then h_u32Cookie h = SUPCOOKIE_INITIAL_COOKIE ∧ io_x (r_st r) = io_x st ∧ r_ev r = []
      else h_u32Cookie h = x_u32Cookie (io_x st) ∧ h_u32SessionCookie h = s_u32Cookie ses.
Proof.
  intros (Hb&Hl&Hin&Hmax) Hr Heff. destruct (ioctl_cases env uIOCtl st ses buf r Hb Hl Hin Hmax Hr)
    as [(?&?&?&_)|(h&q&Hh&_&_&Hc&Hv&Hck&_&Hx)]; [by destruct Heff as [?|[?|?]]|].
  split; [done|]. exists h. split; [done|]. unfold supdrvIOCtl_cookie_ok in Hck.
  destruct (Z.eqb_spec uIOCtl SUP_IOCTL_COOKIE) as [->|]; zbool; [|done]. split; [done|].
  destruct (check_COOKIE _ _ _ _ _ _ Hc) as (m&a&b&->). cbn [io_exec] in Hx. injection Hx as <-.
  unfold io_COOKIE. by destruct (negb _); [|destruct (_ || _)].
Qed.

(** C3. Sessions are isolated.  In a state the driver reaches as in [driver_invariant], a
    request of one session, whatever its code and bytes, leaves every other session's object
    and image references, memory, GIP state, handles and header, and the component
    factories, as they were.  The request is in its buffer ([buf_ok]), and it is handled
    without other threads coming in between but to track memory of the session, with
    allocators that return memory not in use and counts below [2^32] ([env_ok]). *)
Theorem ioctl_session_isolation `{HA : MemObjApi} `{!MemObjLaws HA} fBase env uIOCtl st ses buf r s' :
  drv_reach fBase st → x_sess (io_x st) !! s_self ses = Some ses → env_ok env (io_x st) → buf_ok buf →
  supdrvIOCtl env uIOCtl st ses buf = Some r → s' ≠ s_self ses →
  session_kept (io_x st) (io_x (r_st r)) s'.
Proof.
  intros Hst Hses Henv (Hb&Hl&Hin&Hmax) Hr Hs. pose proof (drv_reach_inv fBase st Hst) as Hinv.
  destruct (ioctl_cases env uIOCtl st ses buf r Hb Hl Hin Hmax Hr) as [(->&_)|(h&q&_&_&_&Hc&_&_&_&Hx)];
    [apply session_kept_refl|].
  eapply exec_kept; [done|exact Henv|done|done|exact Hx].
Qed.

(** C5. Everything a request stores lies behind the header and within the output size the
    header gives, and a new output size is no larger: ring-3 never gets, and the driver
    never writes, more than [cbOut] bytes of the buffer. *)
Theorem ioctl_output_in_bounds `{MemObjApi} env uIOCtl st ses buf r :
  buf_ok buf → supdrvIOCtl env uIOCtl st ses buf = Some r →
  out_ok (rd_u32 buf 12) (r_out r) ∧ ∀ c, r_cbOut r = Some c → c ≤ rd_u32 buf 12.
Proof.
  intros (Hb&Hl&Hin&Hmax) Hr. destruct (ioctl_cases env uIOCtl st ses buf r Hb Hl Hin Hmax Hr)
    as [(_&_&->&->&_)|(h&q&_&<-&Hh&_&_&_&Hq&Hx)]; [split; [constructor|done]|].
  split; [by eapply exec_out|]. intros c. by eapply exec_cbOut.
Qed.

(** C7. Calls into VMMR0 go into a loaded image, as long as every load request has given the
    base of its image as the VMMR0 handle, which the driver does not check: in every state a
    driver reaches by such steps ([drv_reach true]), the fast path calls only for a session
    with a VM, with that VM and the CPU given, and it and [SUP_IOCTL_CALL_VMMR0] only call
    an address in the code of an image that is loaded.  A load request with another handle
    breaks it: the entry points then outlive their image
    ([vmmr0_handle_not_base_dangles]). *)
Theorem vmmr0_calls_in_image `{HA : MemObjApi} `{!MemObjLaws HA} st ses :
  drv_reach true st →
  (∀ uIOCtl idCpu e, e ∈ snd (supdrvIOCtlFast uIOCtl idCpu (io_x st) ses) →
     ∃ pfn op, e = EvFastEntry pfn (s_pVM ses) idCpu op ∧ s_pVM ses ≠ NULL
       ∧ op ∈ [SUP_VMMR0_DO_RAW_RUN; SUP_VMMR0_DO_HWACC_RUN; SUP_VMMR0_DO_NOP]
       ∧ in_loaded_image (x_ldr (io_x st)) pfn)
  ∧ ∀ env pVMR0 idCpu uOp arg fPkt e, e ∈ r_ev (io_CALL_VMMR0 env st ses pVMR0 idCpu uOp arg fPkt) →
     ∃ pfn pPkt, e = EvEntryEx pfn pVMR0 idCpu uOp pPkt arg (s_self ses)
       ∧ in_loaded_image (x_ldr (io_x st)) pfn.
Proof.
  intros He%drv_reach_eps.
  assert (Hin : (pfnVMMR0EntryFast (x_ldr (io_x st)) ≠ NULL →
                 in_loaded_image (x_ldr (io_x st)) (pfnVMMR0EntryFast (x_ldr (io_x st))))
                ∧ (pfnVMMR0EntryEx (x_ldr (io_x st)) ≠ NULL →
                   in_loaded_image (x_ldr (io_x st)) (pfnVMMR0EntryEx (x_ldr (io_x st))))).
  { destruct He as [(_&_&->&->)|(p&i&Hp&_&Hs&_&H2&H3)]; [done|]. by split; intros _; exists p, i. }
  destruct Hin as [Hfast Hex]. split.
  - intros uIOCtl idCpu e He'. unfold supdrvIOCtlFast in He'. cbv zeta in He'.
    destruct (_ && negb _) eqn:E; [|by apply not_elem_of_nil in He']. zbool.
    repeat (destruct (uIOCtl =? _)); [apply list_elem_of_singleton in He' as ->..|by apply not_elem_of_nil in He'];
      do 2 eexists; (split; [done|]); (split; [done|]); (split; [set_solver|by apply Hfast]).
  - intros env pVMR0 idCpu uOp arg fPkt e He'. unfold io_CALL_VMMR0 in He'. cbv zeta in He'.
    destruct (Z.eqb_spec (pfnVMMR0EntryEx (x_ldr (io_x st))) NULL) as [|Hn]; [by apply not_elem_of_nil in He'|].
    apply list_elem_of_singleton in He' as ->. do 2 eexists. split; [done|by apply Hex].
Qed.


(** The host does not look at the size before it allocates: a request that says it has four
    bytes makes [supdrvIOCtl] read its header behind a buffer of four bytes. *)
Lemma linux_short_request_overread `{MemObjApi} env st ses :
  VBoxDrvLinuxIOCtlSlow env (Z.shiftl 4 16) st ses
    (mkUserCopies (Some ([67; 0; 0; 0; 0; 0; 0; 0; 4; 0; 0; 0; 4; 0; 0; 0; 66; 0; 0; 66; 0; 0; 0; 0]))
       (λ n, Some (take (Z.to_nat n) [67; 0; 0; 0])) true)
    (λ n, Some (replicate (Z.to_nat n) 0)) = None.
Proof. reflexivity. Qed.

(** * Witnesses *)

Definition demo_ioenv (k : Z) : IoEnv :=
  mkIoEnv 0xffff880000020000 (Some (0xffff880000030000 + k)) (Some (0xffff880000031000 + k)) id id id
    (λ _, Some (0xffff880000100000 + 0x1000 * k)) (λ _, VINF_SUCCESS) (λ _ _ _ _, VINF_SUCCESS) (λ _ _ _ _ _, VINF_SUCCESS)
    0x80000011 0x20 true (λ _, (0, 0, 0, 0)) (λ _, 0) demo_map VINF_SUCCESS
    (mkLogApi (λ _ _, (VINF_SUCCESS, 0x90000)) (λ _ _, VINF_SUCCESS) (λ _ _, VINF_SUCCESS) (λ _, VINF_SUCCESS))
    (mkSemApi (λ _ _, VINF_SUCCESS) (λ _, VINF_SUCCESS) (λ _ _ _ _, VINF_SUCCESS)) (VINF_SUCCESS, 77)
    (λ _, 0xffff8800000a0000) (λ _, 1000000) [env_alone None (Some (0xffff880000080000 + k))].

(** A driver that loaded, and then a session. *)
Definition demo_sys0 : IoState :=
  mkIoState (from_option (λ r, snd (fst r)) (devext_zero []) (supdrvInitDevExt [] 8192 demo_init_env)) (mkLogState NULL NULL).
Definition demo_sys1 : IoState :=
  set_x (supdrvCreateSession (io_x demo_sys0) true (Some 0xffff880000010000) (0, 21) (Some 0xffff880000070000)
    (VINF_SUCCESS, 31) 1234 1234).1.2 demo_sys0.

Definition demo_io `{MemObjApi} (k uIOCtl : Z) (ses : SUPDRVSESSION) (buf : list Z) (st : IoState) : IoState :=
  from_option r_st st (supdrvIOCtl (demo_ioenv k) uIOCtl st ses buf).

Definition demo_buf_open : list Z :=
  demo_hdr 328 40 ++ le_bytes 4 42 ++ le_bytes 4 0x20 ++ [86; 77] ++ replicate 30 0 ++ [47; 86] ++ replicate 262 0.
Definition demo_buf_vmmr0 : list Z :=
  demo_buf_load 1 0xffff880000100000 0xffff880000100004 0xffff880000100008 0xffff88000010000c.
Definition demo_buf_setvm : list Z := demo_hdr 32 24 ++ le_bytes 8 0xffff880000200000.

(** An image opened, loaded as VMMR0, and a VM for the fast path. *)
Definition demo_sys2 : IoState := demo_io (H := demo_api) 0 SUP_IOCTL_LDR_OPEN demo_ioses demo_buf_open demo_sys1.
Definition demo_sys3 : IoState := demo_io (H := demo_api) 16 SUP_IOCTL_LDR_LOAD demo_ioses demo_buf_vmmr0 demo_sys2.
Definition demo_sys4 : IoState :=
  demo_io (H := demo_api) 32 (SUP_CTL_CODE_SIZE 19 32) demo_ioses demo_buf_setvm demo_sys3.

Lemma demo_sys_facts :
  x_sess (io_x demo_sys1) !! 0xffff880000010000 = Some demo_ioses
  ∧ x_sess (io_x demo_sys2) !! 0xffff880000010000 = Some demo_ioses
  ∧ x_sess (io_x demo_sys3) !! 0xffff880000010000 = Some demo_ioses
  ∧ pfnVMMR0EntryFast (x_ldr (io_x demo_sys4)) = 0xffff880000100008
  ∧ x_objs (io_x demo_sys1) = set_pUsage 0xffff880000010000 [] obj_init
  ∧ x_objs (io_x demo_sys2) = set_pUsage 0xffff880000010000 [] obj_init
  ∧ x_objs (io_x demo_sys3) = set_pUsage 0xffff880000010000 [] obj_init.
Proof. vm_compute. split_and!; reflexivity. Qed.

(** A decided property of every entry of a map. *)
Lemma map_all {A} (P : Z → A → Prop) `{∀ k a, Decision (P k a)} (m : gmap Z A) :
  bool_decide (map_Forall P m) = true → ∀ k a, m !! k = Some a → P k a.
Proof. intros H'%bool_decide_eq_true. exact H'. Qed.

(** The environment of the requests suits states without objects. *)
Lemma demo_env_ok k x :
  x_objs x = set_pUsage 0xffff880000010000 [] obj_init →
  l_heap (x_ldr x) !! (0xffff880000031000 + k) = None →
  bool_decide (map_Forall (λ _ i, li_cUsage i + 1 < 2 ^ 32
                             ∧ li_pvImage i ≠ RT_ALIGN_P32 (0xffff880000100000 + 0x1000 * k)) (l_heap (x_ldr x))) = true →
  d_cGipUsers (fst (x_gip x)) < 2 ^ 32 - 1 →
  VALID_PTR (0xffff880000030000 + k) && negb (RTHT_IS_FREE (0xffff880000030000 + k)) = true →
  env_ok (demo_ioenv k) x.
Proof.
  intros Ho Hi Hh Hg Hk. pose proof (map_all _ _ Hh) as Hall. simpl in Hall.
  assert (Hz : ∀ p, total (x_objs x) p = 0) by (intros p; by rewrite Ho).
  apply andb_true_iff in Hk as [Hv Hf%negb_true_iff].
  constructor; simpl; try done.
  - by intros p [= <-].
  - intros _ a [= <-] p i Hp. by apply (Hall p i Hp).
  - split; rewrite Ho; [by intros q [= <-]|done].
  - intros p i Hp. by apply (Hall p i Hp).
  - intros p. by rewrite Hz.
  - by eexists _, _.
Qed.

Lemma demo_reach0 : drv_reach (H := demo_api) true demo_sys0.
Proof.
  destruct (supdrvInitDevExt [] 8192 demo_init_env) as [[[rc x] ev]|] eqn:E; [|vm_compute in E; discriminate E].
  exists [], 8192, demo_init_env, rc, x, (mkLogState NULL NULL), ev. split_and!.
  - split_and!; done.
  - exact E.
  - assert (from_option (λ r, fst (fst r)) 1 (supdrvInitDevExt [] 8192 demo_init_env) = 0) as Hr
      by (vm_compute; reflexivity).
    rewrite E in Hr. simpl in Hr. by rewrite Hr.
  - unfold demo_sys0. rewrite E. apply rtc_refl.
Qed.

Lemma drv_reach_r `{H : MemObjApi} fBase st st' : drv_reach fBase st → drv_step fBase st st' → drv_reach fBase st'.
Proof.
  intros (funcs&cb&env&rc&x&log&ev&H1&H2&H3&H4) Hs. exists funcs, cb, env, rc, x, log, ev.
  split_and!; try done. by eapply rtc_r.
Qed.

Lemma demo_reach1 : drv_reach (H := demo_api) true demo_sys1.
Proof.
  apply (drv_reach_r (H := demo_api) true demo_sys0); [apply demo_reach0|].
  destruct (supdrvCreateSession (io_x demo_sys0) true (Some 0xffff880000010000) (0, 21) (Some 0xffff880000070000)
    (VINF_SUCCESS, 31) 1234 1234) as [[[rc p] x'] ev] eqn:E.
  unfold demo_sys1. rewrite E. eapply dstep_create; [|exact E].
  split; [|by intros q [= <-]]. intros q [= <-]. vm_compute. split_and!; reflexivity.
Qed.

(** One more request. *)
Lemma demo_io_reach k uIOCtl ses buf st :
  drv_reach (H := demo_api) true st → x_sess (io_x st) !! s_self ses = Some ses → env_ok (demo_ioenv k) (io_x st) →
  buf_ok buf → loads_base st uIOCtl ses buf → drv_reach (H := demo_api) true (demo_io (H := demo_api) k uIOCtl ses buf st).
Proof.
  intros Hst Hses Henv Hb Hl. apply (drv_reach_r (H := demo_api) true st); [done|].
  destruct (ioctl_inv (HA := demo_api) (demo_ioenv k) uIOCtl st ses buf (drv_reach_inv true st Hst) Hses Henv Hb) as (r&Hr&_).
  unfold demo_io. rewrite Hr. by eapply dstep_ioctl.
Qed.

Lemma buf_ok_dec buf :
  forallb (λ b, (0 <=? b) && (b <? 256)) buf && (24 <=? Z.of_nat (length buf))
  && (rd_u32 buf 8 <=? Z.of_nat (length buf)) && (rd_u32 buf 8 <? 2 ^ 31) = true → buf_ok buf.
Proof.
  intros H. apply andb_true_iff in H as [H H4]. apply andb_true_iff in H as [H H3].
  apply andb_true_iff in H as [H1 H2]. split_and!; [by apply bytes_ok_dec|lia..].
Qed.

(** Whether a check lets a load request through whose VMMR0 handle is not the base. *)
Definition check_base (c : IoCheck) : bool :=
  match c with
  | IoAccept _ (ReqLdrLoad q) =>
      match ll_EP q with SUPLDRLOADEP_VMMR0 pv _ _ _ => pv =? ll_pvImageBase q | _ => true end
  | _ => true
  end.

Lemma loads_base_dec st uIOCtl ses buf : check_base (st_check st uIOCtl ses buf) = true → loads_base st uIOCtl ses buf.
Proof.
  intros H h q Hc. rewrite Hc in H. destruct q; simpl in *; try done. unfold vmmr0_is_base.
  destruct (ll_EP pReq); try done. by apply Z.eqb_eq.
Qed.

(** The host copies the header twice, and the size of the buffer is that of the first copy:
    ring-3 that changes the header in between makes [supdrvIOCtl] read behind the buffer.
    Here the first copy says 24 bytes, and the second 32. *)
Lemma linux_double_fetch_overread :
  VBoxDrvLinuxIOCtlSlow (H := demo_api) (demo_ioenv 32) (SUP_CTL_CODE_SIZE 19 24) demo_sys3 demo_ioses
    (mkUserCopies (Some (demo_hdr 24 24)) (λ n, Some (demo_hdr 32 24)) true)
    (λ n, Some (replicate (Z.to_nat n) 0)) = None.
Proof.
  assert (match VBoxDrvLinuxIOCtlSlow (H := demo_api) (demo_ioenv 32) (SUP_CTL_CODE_SIZE 19 24) demo_sys3 demo_ioses
    (mkUserCopies (Some (demo_hdr 24 24)) (λ n, Some (demo_hdr 32 24)) true)
    (λ n, Some (replicate (Z.to_nat n) 0)) with None => true | _ => false end = true) as H by (vm_compute; reflexivity).
  by destruct (VBoxDrvLinuxIOCtlSlow _ _ _ _ _ _).
Qed.

Ltac demo_request :=
  first [ apply demo_sys_facts | apply demo_env_ok; [apply demo_sys_facts|vm_compute; reflexivity..]
        | apply buf_ok_dec; vm_compute; reflexivity | apply loads_base_dec; vm_compute; reflexivity ].

Lemma demo_reach2 : drv_reach (H := demo_api) true demo_sys2.
Proof. apply demo_io_reach; [apply demo_reach1|demo_request..]. Qed.

Lemma demo_reach3 : drv_reach (H := demo_api) true demo_sys3.
Proof. apply demo_io_reach; [apply demo_reach2|demo_request..]. Qed.

Lemma demo_reach4 : drv_reach (H := demo_api) true demo_sys4.
Proof. apply demo_io_reach; [apply demo_reach3|demo_request..]. Qed.

Lemma driver_invariant_witness : drv_reach (H := demo_api) true demo_sys4 ∧ dev_inv (io_x demo_sys4).
Proof. split; [exact demo_reach4|exact (driver_invariant true demo_sys4 demo_reach4)]. Defined.

Lemma ioctl_completes_witness :
  ∃ r, supdrvIOCtl (H := demo_api) (demo_ioenv 16) SUP_IOCTL_LDR_LOAD demo_sys2 demo_ioses demo_buf_vmmr0 = Some r.
Proof.
  destruct (ioctl_completes (HA := demo_api) true (demo_ioenv 16) SUP_IOCTL_LDR_LOAD demo_sys2 demo_ioses demo_buf_vmmr0)
    as (r&Hr&_); [exact demo_reach2|demo_request..|]. exists r. exact Hr.
Defined.

Lemma ioctl_access_control_witness :
  ∃ h, rd_hdr demo_buf_setvm = Ok h ∧ h_u32Cookie h = BIRD ∧ h_u32SessionCookie h = BIRD_INV.
Proof.
  destruct (supdrvIOCtl (H := demo_api) (demo_ioenv 32) (SUP_CTL_CODE_SIZE 19 32) demo_sys3 demo_ioses demo_buf_setvm)
    as [r|] eqn:E; [|vm_compute in E; discriminate E].
  assert (s_pVM <$> x_sess (io_x (from_option r_st demo_sys3 (Some r))) !! 0xffff880000010000 = Some 0xffff880000200000)
    as Hr by (rewrite <- E; vm_compute; reflexivity).
  destruct (ioctl_access_control (H := demo_api) (demo_ioenv 32) (SUP_CTL_CODE_SIZE 19 32) demo_sys3 demo_ioses
    demo_buf_setvm r) as (_&h&Hh&H1&H2); [demo_request|exact E| |].
  - left. intros Heq. simpl in Hr. rewrite Heq in Hr. vm_compute in Hr. discriminate Hr.
  - exists h. split; [exact Hh|]. split; [rewrite H1; vm_compute; reflexivity|exact H2].
Defined.

Lemma ioctl_session_isolation_witness :
  ∃ r, supdrvIOCtl (H := demo_api) (demo_ioenv 32) (SUP_CTL_CODE_SIZE 19 32) demo_sys3 demo_ioses demo_buf_setvm = Some r
    ∧ session_kept (io_x demo_sys3) (io_x (r_st r)) 0xffff880000012000.
Proof.
  destruct (supdrvIOCtl (H := demo_api) (demo_ioenv 32) (SUP_CTL_CODE_SIZE 19 32) demo_sys3 demo_ioses demo_buf_setvm)
    as [r|] eqn:E; [|vm_compute in E; discriminate E].
  exists r. split; [reflexivity|].
  apply (ioctl_session_isolation (HA := demo_api) true (demo_ioenv 32) (SUP_CTL_CODE_SIZE 19 32) demo_sys3 demo_ioses
    demo_buf_setvm r 0xffff880000012000); [exact demo_reach3|demo_request..|exact E|discriminate].
Defined.

Lemma ioctl_output_in_bounds_witness :
  ∃ r, supdrvIOCtl (H := demo_api) (demo_ioenv 0) SUP_IOCTL_LDR_OPEN demo_sys1 demo_ioses demo_buf_open = Some r
    ∧ out_ok 40 (r_out r).
Proof.
  destruct (supdrvIOCtl (H := demo_api) (demo_ioenv 0) SUP_IOCTL_LDR_OPEN demo_sys1 demo_ioses demo_buf_open)
    as [r|] eqn:E; [|vm_compute in E; discriminate E].
  exists r. split; [reflexivity|].
  apply (ioctl_output_in_bounds (H := demo_api) (demo_ioenv 0) SUP_IOCTL_LDR_OPEN demo_sys1 demo_ioses demo_buf_open r);
    [demo_request|exact E].
Defined.

Lemma vmmr0_calls_in_image_witness :
  ∃ ses, x_sess (io_x demo_sys4) !! 0xffff880000010000 = Some ses ∧ s_pVM ses = 0xffff880000200000
    ∧ in_loaded_image (x_ldr (io_x demo_sys4)) 0xffff880000100008.
Proof.
  destruct (x_sess (io_x demo_sys4) !! 0xffff880000010000) as [ses|] eqn:E; [|vm_compute in E; discriminate E].
  exists ses. split; [reflexivity|]. vm_compute in E. injection E as <-. split; [reflexivity|].
  destruct (vmmr0_calls_in_image (HA := demo_api) demo_sys4
    (mkSession 0xffff880000010000 BIRD_INV 0xffff880000200000 0xffff880000070000 NIL_RTUID NIL_RTGID 1234 1234)
    demo_reach4) as [Hf _].
  destruct (Hf SUP_IOCTL_FAST_DO_NOP 3 (EvFastEntry 0xffff880000100008 0xffff880000200000 3 SUP_VMMR0_DO_NOP))
    as (pfn&op&[= <- <-]&_&_&Hin); [|exact Hin].
  assert (snd (supdrvIOCtlFast SUP_IOCTL_FAST_DO_NOP 3 (io_x demo_sys4)
    (mkSession 0xffff880000010000 BIRD_INV 0xffff880000200000 0xffff880000070000 NIL_RTUID NIL_RTGID 1234 1234))
    = [EvFastEntry 0xffff880000100008 0xffff880000200000 3 SUP_VMMR0_DO_NOP]) as -> by (vm_compute; reflexivity).
  left.
Defined.

