(* ===== verification/SpinMutex.v ===== *)
(** The spinning mutex of the ring-0 runtime (semspinmutex-r0drv-generic.c, Linux variant),
    with the event semaphore it sleeps on (semevent-r0drv-linux.c) and the preemption
    functions it uses (thread-r0drv-linux.c, with kernel preemption).

    Several threads run the functions at once.  A thread is at a program point, and one
    step of it is everything up to and including its next access to the shared structure;
    [mtx_run] is the code after each point.  The system is the structure, the state of the
    event and the threads; its steps are calls from outside and single steps of threads, in
    any order.  An interrupt handler is a thread of its own; that the code would see the
    handle of the interrupted thread is not modelled. *)

From S2P Require Import Prelude.
Local Open Scope Z_scope.

(** * Data *)

Definition NIL_RTNATIVETHREAD : Z := 2 ^ 64 - 1.
Definition RTSEMSPINMUTEX_MAGIC : Z := 0x18670209.
Definition RTSEMSPINMUTEX_MAGIC_DEAD : Z := 0x19161209.
Definition RTSEMSPINMUTEX_FLAGS_IRQ_SAFE : Z := RT_BIT 0.
Definition RTSEMSPINMUTEX_FLAGS_VALID_MASK : Z := 1.
Definition VERR_INTERRUPTED : Z := -39.
Definition VERR_NOT_OWNER : Z := -355.
Definition VERR_SEM_BUSY : Z := -360.
Definition VERR_SEM_DESTROYED : Z := -363.
Definition VERR_SEM_NESTED : Z := -364.
Definition VERR_SEM_BAD_CONTEXT : Z := -367.
Definition VINF_SEM_BAD_CONTEXT : Z := 367.

(** What the code uses of a thread's processor state: whether interrupts are enabled, and
    how often preemption has been disabled. *)
Record CpuState := mkCpu {
  cpu_fInt : bool;
  cpu_cPreempt : Z;
}.

Record RTSEMSPINMUTEXSTATE := mkSpinState {
  ss_fSavedFlags : bool;
  ss_PreemptState : Z;
  ss_fSpin : bool;
  ss_fValidFlags : bool;
}.

Record RTSEMSPINMUTEXINTERNAL := mkSpinMutex {
  sm_u32Magic : Z;
  sm_fFlags : Z;
  sm_hOwner : Z;
  sm_cLockers : Z;
  sm_SavedState : RTSEMSPINMUTEXSTATE;
}.

Definition sm_set_owner (h : Z) (m : RTSEMSPINMUTEXINTERNAL) : RTSEMSPINMUTEXINTERNAL :=
  mkSpinMutex (sm_u32Magic m) (sm_fFlags m) h (sm_cLockers m) (sm_SavedState m).
Definition sm_set_lockers (c : Z) (m : RTSEMSPINMUTEXINTERNAL) : RTSEMSPINMUTEXINTERNAL :=
  mkSpinMutex (sm_u32Magic m) (sm_fFlags m) (sm_hOwner m) c (sm_SavedState m).
Definition sm_set_saved (St : RTSEMSPINMUTEXSTATE) (m : RTSEMSPINMUTEXINTERNAL) : RTSEMSPINMUTEXINTERNAL :=
  mkSpinMutex (sm_u32Magic m) (sm_fFlags m) (sm_hOwner m) (sm_cLockers m) St.

(** * The processor *)

Definition RTThreadPreemptIsEnabled (c : CpuState) : bool := (cpu_cPreempt c =? 0) && cpu_fInt c.
Definition RTThreadPreemptDisable (c : CpuState) : Z * CpuState := (42, mkCpu (cpu_fInt c) (cpu_cPreempt c + 1)).
Definition RTThreadPreemptRestore (PreemptState : Z) (c : CpuState) : CpuState := mkCpu (cpu_fInt c) (cpu_cPreempt c - 1).
Definition ASMIntDisableFlags (c : CpuState) : bool * CpuState := (cpu_fInt c, mkCpu false (cpu_cPreempt c)).
Definition ASMSetFlags (f : bool) (c : CpuState) : CpuState := mkCpu f (cpu_cPreempt c).

(** The status is positive in interrupt context, which [RT_FAILURE] does not see. *)
Definition rtSemSpinMutexEnter (fInInterrupt : bool) (fFlags : Z) (c : CpuState) : Z * RTSEMSPINMUTEXSTATE * CpuState :=
  let fSpin := negb (RTThreadPreemptIsEnabled c) in
  let irq_safe := negb (Z.land fFlags RTSEMSPINMUTEX_FLAGS_IRQ_SAFE =? 0) in
  let '(rc, fSpin) := if fInInterrupt then (if negb irq_safe then VINF_SEM_BAD_CONTEXT else VINF_SUCCESS, true)
                      else (VINF_SUCCESS, fSpin) in
  let '(PreemptState, c) := RTThreadPreemptDisable c in
  let '(fSavedFlags, c) := if irq_safe then ASMIntDisableFlags c else (false, c) in
  (rc, mkSpinState fSavedFlags PreemptState fSpin irq_safe, c).

Definition rtSemSpinMutexLeave (St : RTSEMSPINMUTEXSTATE) (c : CpuState) : CpuState :=
  let c := if ss_fValidFlags St then ASMSetFlags (ss_fSavedFlags St) c else c in
  RTThreadPreemptRestore (ss_PreemptState St) c.

(** * Creation and destruction *)

(** [rAlloc]: whether the structure is allocated; [rcEvent]: the status of
    [RTSemEventCreateEx].  [true]: the structure has been freed again. *)
Definition RTSemSpinMutexCreate (fFlags : Z) (rAlloc : bool) (rcEvent : Z)
    : Z * option RTSEMSPINMUTEXINTERNAL * bool :=
  if negb (Z.land fFlags (Z.lnot RTSEMSPINMUTEX_FLAGS_VALID_MASK) =? 0) then (VERR_INVALID_PARAMETER, None, false)
  else if negb rAlloc then (VERR_NO_MEMORY, None, false)
  else if RT_SUCCESS rcEvent
  then (VINF_SUCCESS, Some (mkSpinMutex RTSEMSPINMUTEX_MAGIC fFlags NIL_RTNATIVETHREAD 0 (mkSpinState false 0 false false)), false)
  else (rcEvent, None, true).

(** What [RTSEMSPINMUTEX_VALIDATE_RETURN] returns for a magic that is not that of a mutex. *)
Definition validate_rc (u32Magic : Z) : Z :=
  if u32Magic =? RTSEMSPINMUTEX_MAGIC_DEAD then VERR_SEM_DESTROYED else VERR_INVALID_HANDLE.

(** The caller has to see to it that nobody uses the mutex; what is left is the structure as
    it is when it is freed.  [rcEvent]: the status of [RTSemEventDestroy]. *)
Definition RTSemSpinMutexDestroy (hSpinMtx : option RTSEMSPINMUTEXINTERNAL) (rcEvent : Z)
    : Z * option RTSEMSPINMUTEXINTERNAL :=
  match hSpinMtx with
  | None => (VINF_SUCCESS, None)
  | Some m =>
      if negb (sm_u32Magic m =? RTSEMSPINMUTEX_MAGIC) then (validate_rc (sm_u32Magic m), None)
      else (rcEvent, Some (mkSpinMutex RTSEMSPINMUTEX_MAGIC_DEAD (sm_fFlags m) (sm_hOwner m) (sm_cLockers m) (sm_SavedState m)))
  end.

(** * The threads *)

(** The points of the three functions, each before an access to the shared structure.  [St] is
    the local variable [State], [cSpins] that of the loops. *)
Inductive pc : Type :=
| Idle                                                          (* in the caller *)
| TryCas (St : RTSEMSPINMUTEXSTATE)                              (* TryRequest: the exchange *)
| TryNested (St : RTSEMSPINMUTEXSTATE)                           (* busy: hOwner == hSelf? *)
| TryInc (St : RTSEMSPINMUTEXSTATE)                              (* taken: cLockers++ *)
| ReqInc (rc : Z) (St : RTSEMSPINMUTEXSTATE)                     (* Request: cLockers++ *)
| ReqCas (rc : Z) (St : RTSEMSPINMUTEXSTATE)                     (* the first exchange *)
| ReqNested (rc : Z) (St : RTSEMSPINMUTEXSTATE)                  (* busy: hOwner == hSelf? *)
| SpinCas (St : RTSEMSPINMUTEXSTATE) (cSpins : Z)                (* spinning: the exchange *)
| SpinMagic (St : RTSEMSPINMUTEXSTATE) (cSpins : Z)              (* spinning: the magic *)
| SleepCas (St : RTSEMSPINMUTEXSTATE) (cSpins : Z)               (* may sleep: the exchange *)
| SleepMagic (St : RTSEMSPINMUTEXSTATE) (cSpins : Z)             (* may sleep: the magic *)
| SleepWait (St : RTSEMSPINMUTEXSTATE) (cSpins : Z)              (* RTSemEventWait *)
| SleepWoken (St : RTSEMSPINMUTEXSTATE) (cSpins : Z) (rc : Z)    (* after it *)
| Save (St : RTSEMSPINMUTEXSTATE)                                (* owner: SavedState = State *)
| RelLoad                                                       (* Release: State = SavedState *)
| RelCas (St : RTSEMSPINMUTEXSTATE)                              (* the exchange *)
| RelDec (St : RTSEMSPINMUTEXSTATE)                              (* cLockers-- *)
| RelSignal.                                                    (* RTSemEventSignal *)

(** [th_rc]: the result of the last call; [th_held]: the last successful request has not been
    given back.  [th_call] and [th_outer] only record the processor state at the current
    call and at the call [th_held] is about. *)
Record Thread := mkThread {
  th_pc : pc;
  th_cpu : CpuState;
  th_fInInterrupt : bool;
  th_rc : Z;
  th_held : bool;
  th_call : CpuState;
  th_outer : CpuState;
}.

Definition th_at (p : pc) (c : CpuState) (th : Thread) : Thread :=
  mkThread p c (th_fInInterrupt th) (th_rc th) (th_held th) (th_call th) (th_outer th).
Definition th_return (rc : Z) (c : CpuState) (th : Thread) : Thread :=
  mkThread Idle c (th_fInInterrupt th) rc (th_held th) (th_call th) (th_outer th).
Definition th_acquired (th : Thread) : Thread :=
  mkThread Idle (th_cpu th) (th_fInInterrupt th) VINF_SUCCESS true (th_call th) (th_call th).
Definition th_released (p : pc) (th : Thread) : Thread :=
  mkThread p (th_cpu th) (th_fInInterrupt th) (th_rc th) false (th_call th) (th_outer th).

Inductive op : Type :=
| OpTryRequest
| OpRequest
| OpRelease.

(** A call: the validation, and for the requests [rtSemSpinMutexEnter], which only concern
    the thread itself. *)
Definition mtx_call (m : RTSEMSPINMUTEXINTERNAL) (o : op) (th : Thread) : Thread :=
  let th := mkThread (th_pc th) (th_cpu th) (th_fInInterrupt th) (th_rc th) (th_held th) (th_cpu th) (th_outer th) in
  if negb (sm_u32Magic m =? RTSEMSPINMUTEX_MAGIC) then th_return (validate_rc (sm_u32Magic m)) (th_cpu th) th
  else
    match o with
    | OpRelease => th_at RelLoad (th_cpu th) th
    | _ =>
        let '(rc, St, c) := rtSemSpinMutexEnter (th_fInInterrupt th) (sm_fFlags m) (th_cpu th) in
        if RT_FAILURE rc then th_return rc c th
        else th_at (match o with OpTryRequest => TryCas St | _ => ReqInc rc St end) c th
    end.

(** The result of a step: the structure, the state of the event, the thread, and how many
    more requests have failed after [cLockers] was incremented for them. *)
Abbreviation StepRes := (RTSEMSPINMUTEXINTERNAL * Z * Thread * Z)%type.

(** One step of thread [hSelf] inside a function.  [rcWait]: how [RTSemEventWait] fails, if
    it does; [None]: it waits on. *)
Definition mtx_run (hSelf : Z) (rcWait : option Z) (m : RTSEMSPINMUTEXINTERNAL) (fState : Z) (th : Thread)
    : option StepRes :=
  let c := th_cpu th in
  let fFree := sm_hOwner m =? NIL_RTNATIVETHREAD in
  let fMagic := sm_u32Magic m =? RTSEMSPINMUTEX_MAGIC in
  let go p := Some (m, fState, th_at p c th, 0) in
  let take p := Some (sm_set_owner hSelf m, fState, th_at p c th, 0) in
  let reenter St (cSpins : Z) p :=
    let '(rc, St, c) := rtSemSpinMutexEnter (th_fInInterrupt th) (sm_fFlags m) c in
    if RT_FAILURE rc then Some (m, fState, th_return rc c th, 1)
    else Some (m, fState, th_at (p St (u32 (cSpins + 1))) c th, 0) in
  match th_pc th with
  | Idle => None
  | TryCas St => if fFree then take (TryInc St) else go (TryNested St)
  | TryNested St =>
      let rc := if sm_hOwner m =? hSelf then VERR_SEM_NESTED else VERR_SEM_BUSY in
      Some (m, fState, th_return rc (rtSemSpinMutexLeave St c) th, 0)
  | TryInc St => Some (sm_set_lockers (s32 (sm_cLockers m + 1)) m, fState, th_at (Save St) c th, 0)
  | ReqInc rc St => Some (sm_set_lockers (s32 (sm_cLockers m + 1)) m, fState, th_at (ReqCas rc St) c th, 0)
  | ReqCas rc St => if fFree then take (Save St) else go (ReqNested rc St)
  | ReqNested rc St =>
      if sm_hOwner m =? hSelf then Some (m, fState, th_return VERR_SEM_NESTED (rtSemSpinMutexLeave St c) th, 1)
      else if rc =? VINF_SEM_BAD_CONTEXT
      then Some (m, fState, th_return VERR_SEM_BAD_CONTEXT (rtSemSpinMutexLeave St c) th, 1)
      else if ss_fSpin St then go (SpinCas St 0) else go (SleepCas St 0)
  | SpinCas St cSpins => if fFree then take (Save St) else go (SpinMagic St cSpins)
  | SpinMagic St cSpins =>
      if negb fMagic then Some (m, fState, th_return VERR_SEM_DESTROYED (rtSemSpinMutexLeave St c) th, 1)
      else if Z.land cSpins 0x7f =? 0x1f then
        let '(_, St, c) := rtSemSpinMutexEnter (th_fInInterrupt th) (sm_fFlags m) (rtSemSpinMutexLeave St c) in
        Some (m, fState, th_at (SpinCas St (u32 (cSpins + 1))) c th, 0)
      else go (SpinCas St (u32 (cSpins + 1)))
  | SleepCas St cSpins => if fFree then take (Save St) else go (SleepMagic St cSpins)
  | SleepMagic St cSpins =>
      if negb fMagic then Some (m, fState, th_return VERR_SEM_DESTROYED (rtSemSpinMutexLeave St c) th, 1)
      else if Z.land cSpins 15 =? 15
      then Some (m, fState, th_at (SleepWait St cSpins) (rtSemSpinMutexLeave St c) th, 0)
      else go (SleepCas St (u32 (cSpins + 1)))
  | SleepWait St cSpins =>
      match rcWait with
      | None => if fState =? 1 then Some (m, 0, th_at (SleepWoken St cSpins VINF_SUCCESS) c th, 0) else None
      | Some rc => if RT_SUCCESS rc then None else go (SleepWoken St cSpins rc)
      end
  | SleepWoken St cSpins rc =>
      if RT_SUCCESS rc then
        if negb fMagic then Some (m, fState, th_return VERR_SEM_DESTROYED c th, 1)
        else reenter St cSpins SleepCas
      else if rc =? VERR_INTERRUPTED then reenter St cSpins SleepCas
      else Some (m, fState, th_return rc c th, 1)
  | Save St => Some (sm_set_saved St m, fState, th_acquired th, 0)
  | RelLoad => go (RelCas (sm_SavedState m))
  | RelCas St =>
      if sm_hOwner m =? hSelf
      then Some (sm_set_owner NIL_RTNATIVETHREAD m, fState, th_released (RelDec St) th, 0)
      else Some (m, fState, th_return VERR_NOT_OWNER c th, 0)
  | RelDec St =>
      let cLockers := s32 (sm_cLockers m - 1) in
      let c := rtSemSpinMutexLeave St c in
      Some (sm_set_lockers cLockers m, fState,
            if negb (u32 cLockers =? 0) then th_at RelSignal c th else th_return VINF_SUCCESS c th, 0)
  | RelSignal => Some (m, 1, th_return VINF_SUCCESS c th, 0)
  end.

(** * The system *)

(** [mx_cLeaked] only records; see [StepRes]. *)
Record MtxSys := mkSys {
  mx_mutex : RTSEMSPINMUTEXINTERNAL;
  mx_fState : Z;
  mx_threads : gmap Z Thread;
  mx_cLeaked : Z;
}.

(** A step of a thread inside a function. *)
Inductive mtx_inner (rcWait : option Z) : MtxSys → MtxSys → Prop :=
| inner_run s hSelf th m fState th' n :
    mx_threads s !! hSelf = Some th →
    mtx_run hSelf rcWait (mx_mutex s) (mx_fState s) th = Some (m, fState, th', n) →
    mtx_inner rcWait s (mkSys m fState (<[hSelf := th']> (mx_threads s)) (mx_cLeaked s + n)).

(** A caller between its calls may change its processor state, unless it holds the mutex. *)
Inductive mtx_step : MtxSys → MtxSys → Prop :=
| step_call s hSelf th o :
    mx_threads s !! hSelf = Some th → th_pc th = Idle →
    mtx_step s (mkSys (mx_mutex s) (mx_fState s) (<[hSelf := mtx_call (mx_mutex s) o th]> (mx_threads s)) (mx_cLeaked s))
| step_cpu s hSelf th c :
    mx_threads s !! hSelf = Some th → th_pc th = Idle → th_held th = false →
    mtx_step s (mkSys (mx_mutex s) (mx_fState s) (<[hSelf := th_at Idle c th]> (mx_threads s)) (mx_cLeaked s))
| step_inner rcWait s s' : mtx_inner rcWait s s' → mtx_step s s'.

(** A new mutex, and threads that have not used it. *)
Definition mtx_init (s : MtxSys) : Prop :=
  ∃ fFlags m, RTSemSpinMutexCreate fFlags true VINF_SUCCESS = (VINF_SUCCESS, Some m, false) ∧ mx_mutex s = m
    ∧ mx_fState s = 0 ∧ mx_cLeaked s = 0 ∧ mx_threads s !! NIL_RTNATIVETHREAD = None
    ∧ ∀ t th, mx_threads s !! t = Some th → th_pc th = Idle ∧ th_held th = false.

Definition mtx_reach (s : MtxSys) : Prop := ∃ s0, mtx_init s0 ∧ rtc mtx_step s0 s.

(** * Specification *)

(** The thread owns the mutex. *)
Definition owning (p : pc) : bool := match p with TryInc _ | Save _ => true | _ => false end.
Definition owns (th : Thread) : bool := th_held th || owning (th_pc th).

(** Where a thread that holds the mutex may be: a request of it gets no further than the
    check for nesting. *)
Definition held_pc (p : pc) : bool :=
  match p with
  | Idle | TryCas _ | TryNested _ | ReqInc _ _ | ReqCas _ _ | ReqNested _ _ | RelLoad | RelCas _ => true
  | _ => false
  end.

(** How often the thread is counted in [cLockers]: for the call it is in, and as owner. *)
Definition pending (p : pc) : bool :=
  match p with
  | ReqCas _ _ | ReqNested _ _ | SpinCas _ _ | SpinMagic _ _ | SleepCas _ _ | SleepMagic _ _ | SleepWait _ _
  | SleepWoken _ _ _ | Save _ | RelDec _ => true
  | _ => false
  end.
Definition counted (th : Thread) : Z := Z.b2z (pending (th_pc th)) + Z.b2z (th_held th).

(** The thread sleeps, or is going to unless the mutex is destroyed. *)
Definition about_to_sleep (cSpins : Z) : bool := Z.land cSpins 15 =? 15.
Definition sleeping (th : Thread) : bool :=
  match th_pc th with
  | SleepWait _ _ => true
  | SleepMagic _ cSpins => about_to_sleep cSpins
  | _ => false
  end.

(** The thread is going to try the exchange again. *)
Definition trying (th : Thread) : bool :=
  match th_pc th with
  | TryCas _ | ReqInc _ _ | ReqCas _ _ | SpinCas _ _ | SpinMagic _ _ | SleepCas _ _ => true
  | SleepWoken _ _ rc => RT_SUCCESS rc || (rc =? VERR_INTERRUPTED)
  | ReqNested rc _ => negb (rc =? VINF_SEM_BAD_CONTEXT)
  | SleepMagic _ cSpins => negb (about_to_sleep cSpins)
  | _ => false
  end.

(** The thread is releasing the mutex and has yet to see whether to wake somebody. *)
Definition waking (th : Thread) : bool :=
  match th_pc th with RelDec _ | RelSignal => true | _ => false end.

Definition some_thread (P : Thread → bool) (m : gmap Z Thread) : Prop := ∃ t th, m !! t = Some th ∧ P th = true.

(** Nobody sleeps past a release: where the mutex is free and a thread sleeps, the event is
    signalled, or some thread is going to try the exchange or to see to the sleepers. *)
Definition no_lost_wakeup (s : MtxSys) : Prop :=
  sm_hOwner (mx_mutex s) = NIL_RTNATIVETHREAD → some_thread sleeping (mx_threads s) →
  mx_fState s = 1 ∨ some_thread (λ th, trying th || waking th) (mx_threads s).

(** The counter cannot have wrapped to 0. *)
Definition mtx_bounded (s : MtxSys) : Prop := 2 * Z.of_nat (size (mx_threads s)) + mx_cLeaked s < 2 ^ 32.

(** What [rtSemSpinMutexEnter] makes of a processor state. *)
Definition entered (fInInterrupt : bool) (fFlags : Z) (c : CpuState) : RTSEMSPINMUTEXSTATE * CpuState :=
  let r := rtSemSpinMutexEnter fInInterrupt fFlags c in (r.1.2, r.2).

(** The local [State] of a point between entering and leaving, for the call or, in a
    release, for the call that acquired. *)
Definition pc_state (p : pc) : option RTSEMSPINMUTEXSTATE :=
  match p with
  | TryCas St | TryNested St | TryInc St | ReqInc _ St | ReqCas _ St | ReqNested _ St | SpinCas St _ | SpinMagic St _
  | SleepCas St _ | SleepMagic St _ | Save St => Some St
  | _ => None
  end.

(** The processor state of the caller: that of the call while a request lasts. *)
Definition base_cpu (th : Thread) : CpuState :=
  match th_pc th with Idle | RelLoad | RelCas _ | RelDec _ => th_cpu th | _ => th_call th end.

Record cpu_ok (m : RTSEMSPINMUTEXINTERNAL) (th : Thread) : Prop := {
  ck_in : ∀ St, pc_state (th_pc th) = Some St → (St, th_cpu th) = entered (th_fInInterrupt th) (sm_fFlags m) (th_call th);
  ck_out : match th_pc th with SleepWait _ _ | SleepWoken _ _ _ | RelLoad | RelCas _ => th_cpu th = th_call th | _ => True end;
  ck_held : th_held th = true →
            (sm_SavedState m, base_cpu th) = entered (th_fInInterrupt th) (sm_fFlags m) (th_outer th);
  ck_rel : ∀ St, th_pc th = RelCas St → th_held th = true → St = sm_SavedState m;
  ck_dec : ∀ St, th_pc th = RelDec St → (St, th_cpu th) = entered (th_fInInterrupt th) (sm_fFlags m) (th_outer th);
  ck_sig : th_pc th = RelSignal → th_cpu th = th_outer th;
}.

Record mtx_inv (s : MtxSys) : Prop := {
  mi_magic : sm_u32Magic (mx_mutex s) = RTSEMSPINMUTEX_MAGIC;
  mi_nil : mx_threads s !! NIL_RTNATIVETHREAD = None;
  mi_owner : ∀ t th, mx_threads s !! t = Some th → (owns th = true ↔ sm_hOwner (mx_mutex s) = t);
  mi_held : ∀ t th, mx_threads s !! t = Some th → th_held th = true → held_pc (th_pc th) = true;
  mi_some : sm_hOwner (mx_mutex s) = NIL_RTNATIVETHREAD ∨ is_Some (mx_threads s !! sm_hOwner (mx_mutex s));
  mi_count : u32 (sm_cLockers (mx_mutex s)) = u32 (gsum counted (mx_threads s) + mx_cLeaked s);
  mi_leaked : 0 ≤ mx_cLeaked s;
  mi_wakeup : mtx_bounded s → no_lost_wakeup s;
  mi_cpu : ∀ t th, mx_threads s !! t = Some th → cpu_ok (mx_mutex s) th;
}.

(** * Lemmas *)

(** ** The processor *)

Lemma enter_ok b f c : RT_FAILURE (rtSemSpinMutexEnter b f c).1.1 = false.
Proof. unfold rtSemSpinMutexEnter. by destruct b, (negb (_ =? 0)). Qed.

Lemma enter_eq b f c rc St c' :
  rtSemSpinMutexEnter b f c = (rc, St, c') → RT_FAILURE rc = false ∧ entered b f c = (St, c').
Proof. intros H. pose proof (enter_ok b f c) as Hok. unfold entered. by rewrite H in Hok |- *. Qed.

Lemma leave_entered b f c St c' : (St, c') = entered b f c → rtSemSpinMutexLeave St c' = c.
Proof.
  unfold entered, rtSemSpinMutexEnter. intros [= -> ->]. destruct c as [i n].
  destruct b, (negb (Z.land f _ =? 0)); cbn; unfold rtSemSpinMutexLeave, RTThreadPreemptRestore; cbn; f_equal; lia.
Qed.

(** ** Single steps *)

(** Taking a step apart. *)
Ltac run_cases H :=
  unfold mtx_run in H; cbv zeta in H; repeat case_match; simplify_eq;
  repeat match goal with E : rtSemSpinMutexEnter _ _ _ = _ |- _ => apply enter_eq in E as [? ?] end;
  rewrite ?negb_true_iff, ?negb_false_iff, ?Z.eqb_eq, ?Z.eqb_neq in *; try congruence.

Section run.
Context (t : Z) (rcWait : option Z) (m : RTSEMSPINMUTEXINTERNAL) (f : Z) (th : Thread).
Context (m' : RTSEMSPINMUTEXINTERNAL) (f' : Z) (th' : Thread) (n : Z).
Context (Hrun : mtx_run t rcWait m f th = Some (m', f', th', n)).

Lemma run_frame :
  sm_u32Magic m' = sm_u32Magic m ∧ sm_fFlags m' = sm_fFlags m ∧ 0 ≤ n
  ∧ th_fInInterrupt th' = th_fInInterrupt th ∧ th_call th' = th_call th.
Proof. pose proof Hrun as H. run_cases H; by split_and!. Qed.

Context (Hmagic : sm_u32Magic m = RTSEMSPINMUTEX_MAGIC) (Ht : t ≠ NIL_RTNATIVETHREAD).
Context (Hown : owns th = true ↔ sm_hOwner m = t).
Context (Hheld : th_held th = true → held_pc (th_pc th) = true).

Lemma run_owner :
  (owns th' = true ↔ sm_hOwner m' = t)
  ∧ (sm_hOwner m' = sm_hOwner m ∨ (sm_hOwner m = NIL_RTNATIVETHREAD ∧ sm_hOwner m' = t)
     ∨ (sm_hOwner m = t ∧ sm_hOwner m' = NIL_RTNATIVETHREAD)).
Proof.
  pose proof Hrun as H. unfold owns in *. destruct (th_held th) eqn:Eh; run_cases H;
    unfold owning in *; simpl in *; rewrite ?Eh in *; simpl in *; intuition congruence.
Qed.

Lemma u32_s32 x : u32 (s32 x) = u32 x.
Proof.
  unfold s32. cbv zeta. destruct (Z.ltb_spec (u32 x) (2 ^ 31)); [by apply u32_small, u32_range|].
  unfold u32. rewrite Zminus_mod, Z_mod_same_full, Z.sub_0_r, !Z.mod_mod; lia.
Qed.

Lemma run_count : u32 (sm_cLockers m') = u32 (sm_cLockers m + (counted th' - counted th + n)).
Proof.
  pose proof Hrun as H. pose proof Hheld as Hh. unfold counted. destruct (th_held th) eqn:Eh; run_cases H; simpl in *; try done;
    rewrite ?u32_s32, ?Eh; simpl; try (f_equal; lia).
  match goal with E : th_pc th = _ |- _ => unfold owns in Hown; rewrite Eh, E in Hown; simpl in Hown; intuition congruence end.
Qed.

Lemma run_held :
  th_held th' = true → held_pc (th_pc th') = true.
Proof.
  pose proof Hrun as H. pose proof Hheld as Hh. unfold owns in Hown. destruct (th_held th) eqn:Eh;
    run_cases H; simpl in *; rewrite ?Eh in *; try done; intros _; intuition congruence.
Qed.

(** What a step means for the sleepers. *)
Lemma run_wake :
  sm_hOwner m' ≠ NIL_RTNATIVETHREAD ∨ f' = 1 ∨ trying th' || waking th' = true
  ∨ (sm_hOwner m' = sm_hOwner m ∧ f' = f ∧ (sleeping th' = true → sleeping th = true)
     ∧ trying th || waking th = false)
  ∨ u32 (sm_cLockers m') = 0.
Proof.
  pose proof Hrun as H. run_cases H;
    try match goal with E : th_pc th = _ |- _ => unfold sleeping, trying, waking; rewrite E end; simpl;
    unfold about_to_sleep in *; rewrite ?orb_false_r; try (by eauto);
    repeat match goal with
           | E : ?x = true |- context [?x] => rewrite E
           | E : ?x = false |- context [?x] => rewrite E
           | E : @eq Z ?x ?y |- context [?x =? ?y] => rewrite E, Z.eqb_refl
           | E : ¬ (@eq Z ?x ?y) |- context [?x =? ?y] => rewrite (proj2 (Z.eqb_neq _ _) E)
           end; simpl; try (intuition congruence).
Qed.

Lemma run_cpu : cpu_ok m th → cpu_ok m' th'.
Proof.
  pose proof Hrun as H. pose proof (leave_entered (th_fInInterrupt th) (sm_fFlags m) (th_call th)) as Hl.
  pose proof (leave_entered (th_fInInterrupt th) (sm_fFlags m) (th_outer th)) as Hl'.
  unfold owns in Hown. intros [Hin Hout Hh Hr Hd Hs]. destruct (th_held th) eqn:Eh; run_cases H;
    try match goal with E : th_pc th = _ |- _ => unfold base_cpu in Hh; rewrite E in * end; simpl in *;
    repeat match goal with
           | Hx : ∀ S : RTSEMSPINMUTEXSTATE, Some ?x = Some S → _ |- _ => specialize (Hx _ eq_refl)
           | Hx : true = true → _ |- _ => specialize (Hx eq_refl)
           | Hx : ∀ S : RTSEMSPINMUTEXSTATE, ?C ?x = ?C S → _ |- _ => specialize (Hx _ eq_refl)
           end;
    try rewrite (Hl _ _ Hin) in *; try (rewrite Hout in * );
    split; unfold base_cpu; simpl; intros; simplify_eq; try done; try congruence.
  - exfalso. intuition congruence.
  - by apply Hl'.
Qed.

Lemma run_saved : sm_SavedState m' = sm_SavedState m ∨ sm_hOwner m = t.
Proof.
  pose proof Hrun as H. unfold owns in Hown. run_cases H; try (by left);
    try match goal with E : th_pc th = _ |- _ => rewrite E in Hown end; simpl in Hown; rewrite ?orb_true_r in Hown; right; by apply Hown.
Qed.
End run.

Lemma counted_range th : 0 ≤ counted th ≤ 2.
Proof. unfold counted. destruct (pending _), (th_held th); simpl; lia. Qed.

Lemma cpu_ok_other m m' th :
  sm_fFlags m' = sm_fFlags m → (sm_SavedState m' = sm_SavedState m ∨ th_held th = false) →
  cpu_ok m th → cpu_ok m' th.
Proof.
  intros Hf Hs [H1 H2 H3 H4 H5 H6]. split; rewrite ?Hf; try done.
  - intros Hh. destruct Hs as [->|Hs]; [by apply H3|congruence].
  - intros St Hp Hh. destruct Hs as [->|Hs]; [by apply H4|congruence].
Qed.

(** The mutex is free for the sleepers. *)
Lemma some_thread_insert P t th th' (ths : gmap Z Thread) :
  ths !! t = Some th → some_thread P (<[t := th']> ths) → (P th' = true → P th = true) → some_thread P ths.
Proof.
  intros Ht (u&th2&Hu&HP) Hi. destruct (decide (t = u)) as [<-|Hne].
  - rewrite lookup_insert_eq in Hu. simplify_eq. exists t, th. eauto.
  - rewrite lookup_insert_ne in Hu by done. by exists u, th2.
Qed.

Lemma some_thread_here (P : Thread → bool) t th (ths : gmap Z Thread) : P th = true → some_thread P (<[t := th]> ths).
Proof. intros H. exists t, th. by rewrite lookup_insert_eq. Qed.

Lemma some_thread_there (P : Thread → bool) t th th' (ths : gmap Z Thread) :
  ths !! t = Some th → P th = false → some_thread P ths → some_thread P (<[t := th']> ths).
Proof.
  intros Ht Hf (u&th2&Hu&HP). exists u, th2. split; [|done]. rewrite lookup_insert_ne; [done|]. intros <-. congruence.
Qed.

Lemma sleeping_counted th : sleeping th = true → 1 ≤ counted th.
Proof. unfold sleeping, counted. destruct (th_pc th); simpl; try done; destruct (th_held th); simpl; lia. Qed.

Lemma gsum_bound (ths : gmap Z Thread) : 0 ≤ gsum counted ths ≤ 2 * Z.of_nat (size ths).
Proof.
  split; [apply gsum_nonneg; intros ? ? _; apply counted_range|].
  induction ths as [|t th ths Ht IH] using map_ind; [by rewrite gsum_empty, map_size_empty|].
  rewrite gsum_insert_new, map_size_insert_None by done. pose proof (counted_range th). lia.
Qed.

(** Where somebody sleeps, [cLockers] is not 0. *)
Lemma lockers_nonzero ths cLeaked cLockers :
  u32 cLockers = u32 (gsum counted ths + cLeaked) → 0 ≤ cLeaked →
  2 * Z.of_nat (size ths) + cLeaked < 2 ^ 32 → some_thread sleeping ths → u32 cLockers ≠ 0.
Proof.
  intros Hc Hl Hb (t&th&Ht&Hs). pose proof (gsum_elem counted _ t th (λ _ x _, proj1 (counted_range x)) Ht).
  pose proof (sleeping_counted _ Hs). pose proof (gsum_bound ths). rewrite Hc, u32_small; lia.
Qed.

Lemma inner_inv rcWait s s' : mtx_inv s → mtx_inner rcWait s s' → mtx_inv s'.
Proof.
  intros Hinv Hin. destruct Hin as [s0 t th m f th' n Ht Hrun]. destruct Hinv as [Hm Hn Ho Hh Hs Hc Hl Hw Hcpu].
  assert (Htn : t ≠ NIL_RTNATIVETHREAD) by (intros ->; congruence).
  destruct (run_frame _ _ _ _ _ _ _ _ _ Hrun) as (Hm'&Hf'&Hn0&_).
  destruct (run_owner _ _ _ _ _ _ _ _ _ Hrun Hm Htn (Ho _ _ Ht) (Hh _ _ Ht)) as [Ho' Hch].
  pose proof (run_count _ _ _ _ _ _ _ _ _ Hrun Hm Htn (Ho _ _ Ht) (Hh _ _ Ht)) as Hc'.
  assert (Hsum : gsum counted (<[t:=th']> (mx_threads s0)) = gsum counted (mx_threads s0) - counted th + counted th')
    by by rewrite gsum_insert, Ht.
  split; simpl.
  - congruence.
  - by rewrite lookup_insert_ne.
  - intros u th2. rewrite lookup_insert_Some. intros [[<- <-]|[Hne Hu]]; [done|].
    rewrite (Ho _ _ Hu). assert (u ≠ NIL_RTNATIVETHREAD) by (intros ->; congruence). intuition congruence.
  - intros u th2. rewrite lookup_insert_Some. intros [[<- <-]|[Hne Hu]]; [|by eapply Hh].
    eapply run_held; eauto.
  - destruct Hch as [->|[[_ ->]|[_ ->]]]; [|right; rewrite lookup_insert_eq; eauto|by left].
    destruct Hs as [?|Hs]; [by left|right]. by apply lookup_insert_is_Some'; right.
  - rewrite Hc', Hsum. unfold u32 in *. rewrite Z.add_mod, Hc, <- Z.add_mod by done. f_equal. lia.
  - lia.
  - intros Hb. assert (Hbs : mtx_bounded s0).
    { unfold mtx_bounded in *. simpl in Hb. rewrite map_size_insert_Some in Hb by eauto. lia. }
    specialize (Hw Hbs). unfold no_lost_wakeup in *. simpl. intros Hnil Hsl.
    destruct (run_wake _ _ _ _ _ _ _ _ _ Hrun Hm Htn (Ho _ _ Ht) (Hh _ _ Ht)) as [?|[?|[Ha|[(He&->&Hsi&Hna)|Hz]]]].
    + done.
    + by left.
    + right. by apply some_thread_here.
    + rewrite He in Hnil. destruct (Hw Hnil) as [?|Ha].
      * by eapply some_thread_insert.
      * by left.
      * right. by eapply some_thread_there.
    + exfalso. unfold mtx_bounded in Hb. simpl in Hb. revert Hz.
      apply (lockers_nonzero (<[t:=th']> (mx_threads s0)) (mx_cLeaked s0 + n)); [|lia|exact Hb|exact Hsl].
      rewrite Hc', Hsum. unfold u32 in *. rewrite Z.add_mod, Hc, <- Z.add_mod by done. f_equal. lia.
  - intros u th2. rewrite lookup_insert_Some. intros [[<- <-]|[Hne Hu]].
    + eapply run_cpu; eauto.
    + apply (cpu_ok_other (mx_mutex s0)); [done| |by eapply Hcpu].
      assert (sm_SavedState m = sm_SavedState (mx_mutex s0) ∨ sm_hOwner (mx_mutex s0) = t) as [?|Hot];
        [by eapply run_saved; eauto|by left|right].
      destruct (th_held th2) eqn:E; [|done]. exfalso. apply Hne. rewrite <- Hot. apply (Ho _ _ Hu). unfold owns. by rewrite E.
Qed.

(** A call that still finds the destroyed structure does nothing but say so. *)
Lemma destroyed_calls m rcEvent m' o th :
  RTSemSpinMutexDestroy (Some m) rcEvent = (rcEvent, Some m') →
  let th' := mtx_call m' o th in
  th_pc th' = Idle ∧ th_rc th' = VERR_SEM_DESTROYED ∧ th_cpu th' = th_cpu th ∧ th_held th' = th_held th.
Proof. unfold RTSemSpinMutexDestroy. destruct (negb _); intros H; simplify_eq. done. Qed.

(** A call only moves the thread. *)
Lemma call_spec m o th :
  sm_u32Magic m = RTSEMSPINMUTEX_MAGIC → th_pc th = Idle → cpu_ok m th →
  let th' := mtx_call m o th in
  owns th' = owns th ∧ counted th' = counted th ∧ th_held th' = th_held th ∧ sleeping th' = false
  ∧ held_pc (th_pc th') = true ∧ cpu_ok m th'.
Proof.
  intros Hm Hp [H1 H2 H3 H4 H5 H6]. unfold mtx_call. cbv zeta. simpl. rewrite Hm, Z.eqb_refl. cbn [negb].
  destruct (rtSemSpinMutexEnter (th_fInInterrupt th) (sm_fFlags m) (th_cpu th)) as [[rc St] c] eqn:E.
  apply enter_eq in E as [Hrc He]. rewrite Hrc. unfold owns, counted, sleeping, base_cpu in *. rewrite Hp in *.
  destruct o; simpl; split_and!; try done; split; unfold base_cpu; simpl; intros; simplify_eq; try done; try congruence; by apply H3.
Qed.

Lemma mtx_step_inv s s' : mtx_inv s → mtx_step s s' → mtx_inv s'.
Proof.
  intros Hinv Hst. destruct Hst as [s0 t th o Ht Hp|s0 t th c Ht Hp Hne|rcWait s0 s1 Hin]; [| |by eapply inner_inv].
  - destruct Hinv as [Hm Hn Ho Hh Hs Hc Hl Hw Hcpu].
    destruct (call_spec _ o _ Hm Hp (Hcpu _ _ Ht)) as (E1&E2&E3&E4&E5&E6).
    set (th' := mtx_call (mx_mutex s0) o th) in *. clearbody th'.
    assert (Htn : t ≠ NIL_RTNATIVETHREAD) by (intros ->; congruence).
    split; simpl; try done.
    + by rewrite lookup_insert_ne.
    + intros u th2. rewrite lookup_insert_Some. intros [[<- <-]|[_ Hu]]; [rewrite E1|]; by apply Ho.
    + intros u th2. rewrite lookup_insert_Some. intros [[<- <-]|[_ Hu]]; [done|by eapply Hh].
    + destruct Hs as [?|Hs]; [by left|right]. destruct (decide (t = sm_hOwner (mx_mutex s0))) as [<-|];
        [rewrite lookup_insert_eq; eauto|by rewrite lookup_insert_ne].
    + rewrite gsum_insert, Ht. simpl. rewrite Hc. f_equal. lia.
    + unfold mtx_bounded, no_lost_wakeup. simpl. rewrite map_size_insert_Some by eauto. intros Hb Hnil Hsl.
      destruct (Hw Hb Hnil) as [?|Ha]; [eapply some_thread_insert; eauto; congruence|by left|right].
      eapply some_thread_there; [done| |done]. unfold trying, waking. by rewrite Hp.
    + intros u th2. rewrite lookup_insert_Some. intros [[<- <-]|[_ Hu]]; [done|by eapply Hcpu].
  - destruct Hinv as [Hm Hn Ho Hh Hs Hc Hl Hw Hcpu].
    assert (Htn : t ≠ NIL_RTNATIVETHREAD) by (intros ->; congruence).
    split; simpl; try done.
    + by rewrite lookup_insert_ne.
    + intros u th2. rewrite lookup_insert_Some. intros [[<- <-]|[_ Hu]]; [|by apply Ho].
      rewrite <- (Ho _ _ Ht). unfold owns. simpl. by rewrite Hp.
    + intros u th2. rewrite lookup_insert_Some. intros [[<- <-]|[_ Hu]]; [done|by eapply Hh].
    + destruct Hs as [?|Hs]; [by left|right]. destruct (decide (t = sm_hOwner (mx_mutex s0))) as [<-|];
        [rewrite lookup_insert_eq; eauto|by rewrite lookup_insert_ne].
    + rewrite gsum_insert, Ht. unfold counted at 2 3. simpl. rewrite Hp, Hc. f_equal. simpl. lia.
    + unfold mtx_bounded, no_lost_wakeup. simpl. rewrite map_size_insert_Some by eauto. intros Hb Hnil Hsl.
      destruct (Hw Hb Hnil) as [?|Ha]; [by eapply some_thread_insert|by left|right].
      eapply some_thread_there; [done| |done]. unfold trying, waking. by rewrite Hp.
    + intros u th2. rewrite lookup_insert_Some. intros [[<- <-]|[_ Hu]]; [|by eapply Hcpu].
      split; simpl; intros; first [done|congruence].
Qed.

Lemma mtx_init_inv s : mtx_init s → mtx_inv s.
Proof.
  intros (fFlags&m0&Hcr&Hm&Hf&Hl&Hn&Hth). destruct s as [m f ths n]; simpl in *; subst. unfold RTSemSpinMutexCreate in Hcr. destruct (negb _); [done|]. simpl in Hcr.
  simplify_eq. assert (Hc : ∀ t th, ths !! t = Some th → counted th = 0).
  { intros t th Hl. destruct (Hth _ _ Hl) as [Hp Hh]. unfold counted. by rewrite Hp, Hh. }
  split; simpl; try done.
  - intros t th Hl. destruct (Hth _ _ Hl) as [Hp Hh]. unfold owns. rewrite Hp, Hh. simpl.
    split; [done|]. intros <-. congruence.
  - intros t th Hl. destruct (Hth _ _ Hl) as [Hp Hh]. congruence.
  - by left.
  - by rewrite gsum_zero.
  - intros _ _ (t&th&Hl&Hs). destruct (Hth _ _ Hl) as [Hp _]. unfold sleeping in Hs. by rewrite Hp in Hs.
  - intros t th Hl. destruct (Hth _ _ Hl) as [Hp Hh]. split; rewrite ?Hp; simpl; first [done|congruence].
Qed.

Lemma mtx_reach_inv s : mtx_reach s → mtx_inv s.
Proof.
  intros (s0&Hi&Hr). apply mtx_init_inv in Hi. induction Hr as [|s0 s1 s2 Hs _ IH]; [done|]. eapply IH, mtx_step_inv; eauto.
Qed.

(** ** Progress *)

(** Threads inside the functions run on, waits do not fail and nobody calls. *)
Abbreviation mtx_runs := (rtc (mtx_inner None)).

Definition at_exchange (p : pc) : bool :=
  match p with TryCas _ | ReqCas _ _ | SpinCas _ _ | SleepCas _ _ => true | _ => false end.

Lemma exchange_takes t m f th :
  at_exchange (th_pc th) = true → sm_hOwner m = NIL_RTNATIVETHREAD →
  ∃ p, owning p = true ∧ mtx_run t None m f th = Some (sm_set_owner t m, f, th_at p (th_cpu th) th, 0).
Proof.
  intros Hp Hnil. unfold mtx_run. rewrite Hnil, Z.eqb_refl. destruct (th_pc th); try done;
    (eexists; split; [|reflexivity]; done).
Qed.

(** The next step takes a thread that is not there yet to the exchange. *)
Lemma trying_approaches t m f th :
  sm_u32Magic m = RTSEMSPINMUTEX_MAGIC → sm_hOwner m = NIL_RTNATIVETHREAD → t ≠ NIL_RTNATIVETHREAD →
  trying th = true → at_exchange (th_pc th) = false →
  ∃ m' th' n, mtx_run t None m f th = Some (m', f, th', n) ∧ sm_hOwner m' = NIL_RTNATIVETHREAD
    ∧ at_exchange (th_pc th') = true.
Proof.
  intros Hm Hnil Ht Htry Hx. unfold mtx_run, trying, about_to_sleep in *. rewrite Hm, Hnil, Z.eqb_refl. cbv zeta.
  destruct (th_pc th) as [| | | | |rc St|rc St| |St k| |St k| |St k rc| | | | |]; try done; cbn [negb].
  - by eexists _, _, _.
  - rewrite (proj2 (Z.eqb_neq NIL_RTNATIVETHREAD t)) by congruence. destruct (rc =? _); [done|].
    destruct (ss_fSpin St); by eexists _, _, _.
  - destruct (_ =? 0x1f); [|by eexists _, _, _].
    destruct (rtSemSpinMutexEnter _ _ _) as [[? ?] ?]. by eexists _, _, _.
  - destruct (_ =? 15); [done|]. by eexists _, _, _.
  - destruct (rtSemSpinMutexEnter _ _ _) as [[rc' St'] c'] eqn:E. apply enter_eq in E as [Hrc _]; rewrite Hrc.
    destruct (RT_SUCCESS rc); [by eexists _, _, _|]. simpl in Htry. rewrite Htry. by eexists _, _, _.
Qed.

Lemma inner_at s t th m f th' n :
  mx_threads s !! t = Some th → mtx_run t None (mx_mutex s) (mx_fState s) th = Some (m, f, th', n) →
  mtx_inner None s (mkSys m f (<[t := th']> (mx_threads s)) (mx_cLeaked s + n)).
Proof. apply inner_run. Qed.

(** Some thread has just taken the mutex. *)
Definition taken (s : MtxSys) : Prop :=
  ∃ u th, mx_threads s !! u = Some th ∧ owning (th_pc th) = true ∧ sm_hOwner (mx_mutex s) = u.

Lemma trying_takes s t th :
  mtx_inv s → sm_hOwner (mx_mutex s) = NIL_RTNATIVETHREAD → mx_threads s !! t = Some th → trying th = true →
  ∃ s', mtx_runs s s' ∧ taken s'.
Proof.
  intros Hinv. assert (Hx : ∀ s th, sm_hOwner (mx_mutex s) = NIL_RTNATIVETHREAD → mx_threads s !! t = Some th →
    at_exchange (th_pc th) = true → ∃ s', mtx_runs s s' ∧ taken s').
  { intros s0 th0 Hnil Ht Hat. destruct (exchange_takes t (mx_mutex s0) (mx_fState s0) th0 Hat Hnil) as (p&Hp&Hr).
    eexists. split; [by eapply rtc_once, inner_at|]. exists t, (th_at p (th_cpu th0) th0). simpl. by rewrite lookup_insert_eq. }
  intros Hnil Ht Htry. destruct (at_exchange (th_pc th)) eqn:Hat; [by eapply Hx|].
  assert (Htn : t ≠ NIL_RTNATIVETHREAD) by (intros ->; by rewrite (mi_nil _ Hinv) in Ht).
  destruct (trying_approaches t (mx_mutex s) (mx_fState s) th (mi_magic _ Hinv) Hnil Htn Htry Hat) as (m'&th'&n&Hr&Hnil'&Hat').
  destruct (Hx (mkSys m' (mx_fState s) (<[t := th']> (mx_threads s)) (mx_cLeaked s + n)) th') as (s'&Hs'&Ht'); [exact Hnil'|eapply lookup_insert_eq|exact Hat'|].
  exists s'. split; [|done]. eapply rtc_l; [|exact Hs']. by eapply inner_at.
Qed.

(** A sleeper takes a signalled event. *)
Lemma sleeping_wakes s t th :
  mtx_inv s → sm_hOwner (mx_mutex s) = NIL_RTNATIVETHREAD → mx_threads s !! t = Some th → sleeping th = true →
  mx_fState s = 1 → ∃ s', mtx_runs s s' ∧ taken s'.
Proof.
  intros Hinv. assert (Hw : ∀ s St k th, mtx_inv s → sm_hOwner (mx_mutex s) = NIL_RTNATIVETHREAD →
    mx_threads s !! t = Some th → th_pc th = SleepWait St k → mx_fState s = 1 → ∃ s', mtx_runs s s' ∧ taken s').
  { intros s0 St k th0 Hi Hnil Ht Hp Hf.
    assert (Hst : mtx_inner None s0 (mkSys (mx_mutex s0) 0 (<[t := th_at (SleepWoken St k VINF_SUCCESS) (th_cpu th0) th0]> (mx_threads s0)) (mx_cLeaked s0 + 0))).
    { eapply inner_at; [done|]. unfold mtx_run. by rewrite Hp, Hf. }
    destruct (trying_takes (mkSys (mx_mutex s0) 0 (<[t := th_at (SleepWoken St k VINF_SUCCESS) (th_cpu th0) th0]> (mx_threads s0)) (mx_cLeaked s0 + 0))
      t (th_at (SleepWoken St k VINF_SUCCESS) (th_cpu th0) th0)) as (s'&Hr&Htk);
      [by eapply inner_inv|done|eapply lookup_insert_eq|done|].
    exists s'. split; [|done]. by eapply rtc_l. }
  intros Hnil Ht Hs Hf. unfold sleeping in Hs. destruct (th_pc th) as [| | | | | | | | | |St k|St k| | | | | |] eqn:Hp; try done.
  - assert (Hst : mtx_inner None s (mkSys (mx_mutex s) (mx_fState s)
      (<[t := th_at (SleepWait St k) (rtSemSpinMutexLeave St (th_cpu th)) th]> (mx_threads s)) (mx_cLeaked s + 0))).
    { eapply inner_at; [done|]. unfold mtx_run, about_to_sleep in *. by rewrite Hp, (mi_magic _ Hinv), Z.eqb_refl, Hs. }
    pose proof (inner_inv _ _ _ Hinv Hst) as Hinv'.
    destruct (Hw _ St k (th_at (SleepWait St k) (rtSemSpinMutexLeave St (th_cpu th)) th) Hinv' Hnil) as (s'&Hr&Htk);
      [apply lookup_insert_eq|done|exact Hf|].
    exists s'. split; [|done]. by eapply rtc_l.
  - by eapply Hw.
Qed.

(** A thread that is releasing signals when somebody sleeps. *)
Lemma waking_signals s u thu :
  mtx_inv s → mtx_bounded s → sm_hOwner (mx_mutex s) = NIL_RTNATIVETHREAD → mx_threads s !! u = Some thu → waking thu = true →
  some_thread sleeping (mx_threads s) →
  ∃ s', mtx_runs s s' ∧ mtx_inv s' ∧ sm_hOwner (mx_mutex s') = NIL_RTNATIVETHREAD ∧ mx_fState s' = 1
    ∧ some_thread sleeping (mx_threads s').
Proof.
  assert (Hg : ∀ s thu, mtx_inv s → sm_hOwner (mx_mutex s) = NIL_RTNATIVETHREAD → mx_threads s !! u = Some thu →
    th_pc thu = RelSignal → some_thread sleeping (mx_threads s) →
    ∃ s', mtx_runs s s' ∧ mtx_inv s' ∧ sm_hOwner (mx_mutex s') = NIL_RTNATIVETHREAD ∧ mx_fState s' = 1
      ∧ some_thread sleeping (mx_threads s')).
  { intros s0 th0 Hi Hnil Hu Hp Hsl.
    assert (Hst : mtx_inner None s0 (mkSys (mx_mutex s0) 1 (<[u := th_return VINF_SUCCESS (th_cpu th0) th0]> (mx_threads s0)) (mx_cLeaked s0 + 0))).
    { eapply inner_at; [done|]. unfold mtx_run. by rewrite Hp. }
    eexists. split; [by apply rtc_once|]. split_and!; [by eapply inner_inv|done|done|].
    eapply some_thread_there; [done| |done]. unfold sleeping. by rewrite Hp. }
  intros Hinv Hb Hnil Hu Hw Hsl. unfold waking in Hw. destruct (th_pc thu) as [| | | | | | | | | | | | | | | |St|] eqn:Hp; try done.
  - destruct (mtx_run u None (mx_mutex s) (mx_fState s) thu) as [[[[m f] th'] n]|] eqn:Hr.
    2:{ unfold mtx_run in Hr. by rewrite Hp in Hr. }
    assert (Hst : mtx_inner None s (mkSys m f (<[u := th']> (mx_threads s)) (mx_cLeaked s + n))) by by eapply inner_at.
    pose proof (inner_inv _ _ _ Hinv Hst) as Hinv'.
    assert (Hsl' : some_thread sleeping (<[u := th']> (mx_threads s))).
    { eapply some_thread_there; [done| |done]. unfold sleeping. by rewrite Hp. }
    unfold mtx_run in Hr. rewrite Hp in Hr. cbv zeta in Hr. injection Hr as <- <- <- <-.
    pose proof (mi_count _ Hinv') as Hc. simpl in Hc, Hinv', Hsl', Hst.
    assert (Hnz : u32 (s32 (sm_cLockers (mx_mutex s) - 1)) ≠ 0).
    { eapply lockers_nonzero; [exact Hc|apply (mi_leaked _ Hinv')| |exact Hsl'].
      rewrite map_size_insert_Some by eauto. unfold mtx_bounded in Hb. lia. }
    rewrite (proj2 (Z.eqb_neq _ _) Hnz) in *. cbn [negb] in *.
    destruct (Hg _ _ Hinv' Hnil (lookup_insert_eq (mx_threads s) u _) eq_refl Hsl') as (s'&Hr&H'). exists s'. split; [|done].
    by eapply rtc_l.
  - by eapply Hg.
Qed.

(** ** Runs of the system *)

(** A schedule: which thread goes next, and what it calls if it is with its caller. *)
Fixpoint mtx_exec (sched : list (Z * option op)) (s : MtxSys) : option MtxSys :=
  match sched with
  | [] => Some s
  | (t, o) :: sched =>
      th ← mx_threads s !! t;
      match th_pc th, o with
      | Idle, Some o =>
          mtx_exec sched (mkSys (mx_mutex s) (mx_fState s) (<[t := mtx_call (mx_mutex s) o th]> (mx_threads s)) (mx_cLeaked s))
      | Idle, None | _, Some _ => None
      | _, None =>
          '(m, f, th', n) ← mtx_run t None (mx_mutex s) (mx_fState s) th;
          mtx_exec sched (mkSys m f (<[t := th']> (mx_threads s)) (mx_cLeaked s + n))
      end
  end.

Lemma mtx_exec_steps sched s s' : mtx_exec sched s = Some s' → rtc mtx_step s s'.
Proof.
  revert s. induction sched as [|[t o] sched IH]; intros s H; simpl in H; [by simplify_eq|].
  destruct (mx_threads s !! t) as [th|] eqn:Ht; simpl in H; [|done].
  destruct o as [o|].
  - destruct (th_pc th) eqn:Hp; try done. eapply rtc_l; [by eapply step_call|by apply IH].
  - destruct (mtx_run t None (mx_mutex s) (mx_fState s) th) as [[[[m f] th'] n]|] eqn:Hr;
      [|by destruct (th_pc th)].
    eapply rtc_l; [eapply step_inner; by eapply inner_run|]. apply IH. by destruct (th_pc th).
Qed.

(** * Theorems *)

(** C20. In every interleaving at most one thread holds the mutex, and the structure names it
    as the owner.  A request of the holder never gets as far as the loops, so it cannot wait
    for itself.  While its caller has the processor, the holder runs with preemption and,
    where the mutex asks for it, interrupts disabled as [rtSemSpinMutexEnter] left them, and
    the structure has the state to give back. *)
Theorem spinmtx_mutual_exclusion s t th :
  mtx_reach s → mx_threads s !! t = Some th → th_held th = true →
  sm_hOwner (mx_mutex s) = t
  ∧ (∀ u thu, mx_threads s !! u = Some thu → th_held thu = true → u = t)
  ∧ held_pc (th_pc th) = true
  ∧ (th_pc th = Idle →
     (sm_SavedState (mx_mutex s), th_cpu th) = entered (th_fInInterrupt th) (sm_fFlags (mx_mutex s)) (th_outer th)).
Proof.
  intros Hr Ht Hh. apply mtx_reach_inv in Hr as [_ _ Ho Hp _ _ _ _ Hcpu].
  assert (Hown : ∀ u thu, mx_threads s !! u = Some thu → th_held thu = true → sm_hOwner (mx_mutex s) = u).
  { intros u thu Hu Hhu. apply (Ho _ _ Hu). unfold owns. by rewrite Hhu. }
  split_and!; [by eapply Hown| |by eapply Hp|].
  - intros u thu Hu Hhu. rewrite <- (Hown _ _ Hu Hhu). by eapply Hown.
  - intros Hi. destruct (Hcpu _ _ Ht) as [_ _ H _ _ _]. unfold base_cpu in H. rewrite Hi in H. by apply H.
Qed.

(** C34. No release is lost on the sleepers.  Wherever the mutex is free while a thread sleeps
    on the event or is still trying, the threads already inside the functions can, without a
    new call or a failing wait, bring one of them to own it: the event is signalled, or the
    releasing thread has yet to look at [cLockers] and will find it different from 0.  It
    takes that the counter has not wrapped, which the requests that fail without giving
    their count back bring closer. *)
Theorem spinmtx_progress s :
  mtx_reach s → mtx_bounded s → sm_hOwner (mx_mutex s) = NIL_RTNATIVETHREAD →
  some_thread (λ th, sleeping th || trying th) (mx_threads s) →
  ∃ s', rtc (mtx_inner None) s s' ∧ taken s'.
Proof.
  intros Hr Hb Hnil (t&th&Ht&Hs). apply mtx_reach_inv in Hr as Hinv.
  destruct (trying th) eqn:Htry; [by eapply trying_takes|]. rewrite orb_false_r in Hs.
  destruct (mi_wakeup _ Hinv Hb Hnil) as [Hf|(u&thu&Hu&Hw)]; [by exists t, th|by eapply sleeping_wakes|].
  destruct (trying thu) eqn:Hut; [by eapply trying_takes|].
  destruct (waking_signals s u thu) as (s1&Hr1&Hinv1&Hnil1&Hf1&(t1&th1&Ht1&Hs1)); [done..|by exists t, th|].
  destruct (sleeping_wakes s1 t1 th1) as (s'&Hr2&Htk); [done..|]. exists s'. split; [by etrans|done].
Qed.

(** Whenever a function returns from its inner steps, the processor is as it should be: a
    request that succeeds leaves the caller holding the mutex in the state
    [rtSemSpinMutexEnter] makes of the one at the call; a release that succeeds gives back
    the state of the call that acquired, whatever was called in between; and a call that
    fails leaves preemption, interrupts, the ownership and what the thread holds as they
    were when it was made. *)
Lemma spinmtx_restores_context s t th rcWait m f th' n :
  mtx_reach s → mx_threads s !! t = Some th →
  mtx_run t rcWait (mx_mutex s) (mx_fState s) th = Some (m, f, th', n) → th_pc th' = Idle →
  let St := entered (th_fInInterrupt th) (sm_fFlags (mx_mutex s)) (th_call th) in
  (th_rc th' = VINF_SUCCESS ∧ th_held th = false ∧ th_held th' = true ∧ th_cpu th' = St.2 ∧ sm_SavedState m = St.1)
  ∨ (th_rc th' = VINF_SUCCESS ∧ waking th = true ∧ th_held th' = false ∧ th_cpu th' = th_outer th)
  ∨ (RT_FAILURE (th_rc th') = true ∧ th_held th' = th_held th ∧ sm_hOwner m = sm_hOwner (mx_mutex s)
     ∧ th_cpu th' = th_call th).
Proof.
  intros Hr Ht H Hi. apply mtx_reach_inv in Hr as [_ _ Ho Hp _ _ _ _ Hcpu].
  specialize (Hcpu _ _ Ht) as [Hin Hout _ _ Hdec Hsig]. specialize (Hp _ _ Ht).
  pose proof (leave_entered (th_fInInterrupt th) (sm_fFlags (mx_mutex s)) (th_call th)) as Hl.
  pose proof (leave_entered (th_fInInterrupt th) (sm_fFlags (mx_mutex s)) (th_outer th)) as Hl'.
  cbv zeta. unfold waking. destruct (th_held th) eqn:Eh; run_cases H; simpl in *;
    try (by specialize (Hp eq_refl)); try done.
  all: try (right; right; split_and!; [done..|]; by apply Hl, Hin).
  all: try (right; left; split_and!; [done..|]; by first [apply Hl', Hdec|apply Hsig]).
  1-2: by right; right; split_and!.
  - right. right. split_and!; try done. unfold RT_FAILURE, RT_SUCCESS in *. lia.
  - specialize (Hin _ eq_refl). unfold entered in Hin. injection Hin as -> ->. by left.
  - by right; right; split_and!.
Qed.

(** ** Concrete runs *)

Definition demo_mtx : MtxSys :=
  let th := mkThread Idle (mkCpu true 0) false 0 false (mkCpu true 0) (mkCpu true 0) in
  mkSys (default (mkSpinMutex 0 0 0 0 (mkSpinState false 0 false false))
           (RTSemSpinMutexCreate RTSEMSPINMUTEX_FLAGS_IRQ_SAFE true VINF_SUCCESS).1.2)
    0 (<[1 := th]> (<[2 := th]> ∅)) 0.
Definition demo_mtx_after (sched : list (Z * option op)) : MtxSys := default demo_mtx (mtx_exec sched demo_mtx).

Lemma demo_mtx_reach sched : mtx_reach (demo_mtx_after sched).
Proof.
  exists demo_mtx. split.
  - eexists RTSEMSPINMUTEX_FLAGS_IRQ_SAFE, _. split_and!; try reflexivity. intros t th Ht. unfold demo_mtx in Ht. simpl in Ht.
    apply lookup_insert_Some in Ht as [[_ <-]|[_ Ht]]; [done|].
    apply lookup_insert_Some in Ht as [[_ <-]|[_ Ht]]; [done|]. by rewrite lookup_empty in Ht.
  - unfold demo_mtx_after. destruct (mtx_exec sched demo_mtx) as [s|] eqn:E; [by eapply mtx_exec_steps|apply rtc_refl].
Qed.

(** Thread 1 acquires; thread 2 goes to sleep; thread 1 gives it up, as far as the exchange. *)
Definition sched_acquire : list (Z * option op) := [(1, Some OpRequest); (1, None); (1, None); (1, None)].
Definition sched_sleep : list (Z * option op) := (2, Some OpRequest) :: replicate 35 (2, None).
Definition sched_release : list (Z * option op) := [(1, Some OpRelease); (1, None); (1, None)].
Definition sched_busy : list (Z * option op) := [(2, Some OpTryRequest); (2, None)].
Definition th_default : Thread := mkThread Idle (mkCpu true 0) false 0 false (mkCpu true 0) (mkCpu true 0).
Definition th_of (s : MtxSys) (t : Z) : Thread := default th_default (mx_threads s !! t).

Lemma spinmtx_mutual_exclusion_witness :
  let s := demo_mtx_after (sched_acquire ++ sched_sleep) in
  th_held (th_of s 1) = true ∧ sleeping (th_of s 2) = true ∧ sm_hOwner (mx_mutex s) = 1.
Proof.
  intros s. split; [vm_compute; reflexivity|]. split; [vm_compute; reflexivity|].
  apply (spinmtx_mutual_exclusion s 1 (th_of s 1)); [apply demo_mtx_reach|vm_compute; reflexivity..].
Defined.

Lemma spinmtx_progress_witness :
  let s := demo_mtx_after (sched_acquire ++ sched_sleep ++ sched_release) in
  mx_fState s = 0 ∧ sleeping (th_of s 2) = true ∧ ∃ s', rtc (mtx_inner None) s s' ∧ taken s'.
Proof.
  intros s. split; [vm_compute; reflexivity|]. split; [vm_compute; reflexivity|].
  apply (spinmtx_progress s); [apply demo_mtx_reach|vm_compute; reflexivity..|].
  exists 2, (th_of s 2). split; vm_compute; reflexivity.
Defined.

Lemma spinmtx_restores_context_witness :
  let s := demo_mtx_after (sched_acquire ++ sched_busy) in
  let th' := th_return VERR_SEM_BUSY (mkCpu true 0) (th_of s 2) in
  mtx_run 2 None (mx_mutex s) (mx_fState s) (th_of s 2) = Some (mx_mutex s, 0, th', 0)
  ∧ (RT_FAILURE (th_rc th') = true → th_cpu th' = th_call (th_of s 2)).
Proof.
  intros s th'. split; [vm_compute; reflexivity|]. intros _.
  destruct (spinmtx_restores_context s 2 (th_of s 2) None (mx_mutex s) 0 th' 0) as [H|[H|H]];
    [apply demo_mtx_reach|vm_compute; reflexivity..| | |].
  - exfalso. destruct H as [H _]. vm_compute in H. discriminate H.
  - exfalso. destruct H as [H _]. vm_compute in H. discriminate H.
  - apply H.
Defined.
