(* ===== verification/MemObj.v ===== *)
(** Memory objects, the part common to their generic and their Linux half
    (memobj-r0drv.cpp, memobj-r0drv-linux.c, internal/memobj.h): the data, what is used of
    the kernel, and the computations both are written in.

    The kernel is the class [LinuxKernel]: constants, and functions of its state [World]
    with arbitrary answers.  A computation works on the objects in memory, the kernel, and a
    ledger of what has been taken from the kernel and not been given back.  It has no result
    where the C code would leave memory that is allocated, write past the end of an array,
    or give back what it has not taken. *)

From S2P Require Import Prelude SupTypes.
From stdpp Require Import gmultiset.
Local Open Scope Z_scope.

(** * Constants *)

Definition RTR0MEMOBJ_MAGIC : Z := 0x19611210.
Definition VERR_LOCK_FAILED : Z := -5.
Definition VERR_OUT_OF_RANGE : Z := -54.
Definition VERR_MEMORY_BUSY : Z := -67.
Definition VERR_MAP_FAILED : Z := -75.
Definition RTMEM_CACHE_POLICY_DONT_CARE : Z := 0.
Definition RTMEM_CACHE_POLICY_MMIO : Z := 1.
Definition RTR0MEMOBJ_FLAGS_PROT_CHANGED : Z := RT_BIT 0.

(** [RT_ALIGN_Z(cb, PAGE_SIZE)] *)
Definition RT_ALIGN_PAGE (cb : Z) : Z := Z.land (u64 (cb + 0xfff)) 0xfffffffffffff000.

(** * Data *)

Inductive RTR0MEMOBJTYPE : Type :=
| RTR0MEMOBJTYPE_INVALID
| RTR0MEMOBJTYPE_PAGE
| RTR0MEMOBJTYPE_LOW
| RTR0MEMOBJTYPE_CONT
| RTR0MEMOBJTYPE_LOCK
| RTR0MEMOBJTYPE_PHYS
| RTR0MEMOBJTYPE_PHYS_NC
| RTR0MEMOBJTYPE_RES_VIRT
| RTR0MEMOBJTYPE_MAPPING
| RTR0MEMOBJTYPE_END.

#[export] Instance RTR0MEMOBJTYPE_eq_dec : EqDecision RTR0MEMOBJTYPE.
Proof. solve_decision. Defined.

(** [RTR0MEMOBJINTERNAL] with the Linux members of [RTR0MEMOBJLNX].  [mo_uWord0] is what every
    variant of the union [u] starts with: [R0Process], [Phys] or [PhysBase].  The member
    [uRel] overlays [pParent] on the two counts, which are only used of objects that are not
    mappings; [mo_papMappings] has what has been stored in that array.  [mo_apPages] is the
    array at the end, as long as was allocated. *)
Record RTR0MEMOBJLNX := mkMemObj {
  mo_u32Magic : Z;
  mo_cbSelf : Z;
  mo_enmType : RTR0MEMOBJTYPE;
  mo_fFlags : Z;
  mo_cb : Z;
  mo_pv : ptr;
  mo_cMappingsAllocated : Z;
  mo_cMappings : Z;
  mo_papMappingsPtr : ptr;
  mo_papMappings : gmap Z ptr;
  mo_pParent : ptr;
  mo_uWord0 : Z;
  mo_fAllocated : bool;
  mo_uCachePolicy : Z;
  mo_fContiguous : bool;
  mo_fMappedToRing0 : bool;
  mo_cPages : Z;
  mo_apPages : list ptr;
}.

Definition mo_set_type (m : Z) (t : RTR0MEMOBJTYPE) (o : RTR0MEMOBJLNX) : RTR0MEMOBJLNX :=
  mkMemObj m (mo_cbSelf o) t (mo_fFlags o) (mo_cb o) (mo_pv o) (mo_cMappingsAllocated o) (mo_cMappings o)
    (mo_papMappingsPtr o) (mo_papMappings o) (mo_pParent o) (mo_uWord0 o) (mo_fAllocated o) (mo_uCachePolicy o)
    (mo_fContiguous o) (mo_fMappedToRing0 o) (mo_cPages o) (mo_apPages o).
Definition mo_set_flags (f : Z) (o : RTR0MEMOBJLNX) : RTR0MEMOBJLNX :=
  mkMemObj (mo_u32Magic o) (mo_cbSelf o) (mo_enmType o) f (mo_cb o) (mo_pv o) (mo_cMappingsAllocated o) (mo_cMappings o)
    (mo_papMappingsPtr o) (mo_papMappings o) (mo_pParent o) (mo_uWord0 o) (mo_fAllocated o) (mo_uCachePolicy o)
    (mo_fContiguous o) (mo_fMappedToRing0 o) (mo_cPages o) (mo_apPages o).
Definition mo_set_pv (pv : ptr) (fMapped : bool) (o : RTR0MEMOBJLNX) : RTR0MEMOBJLNX :=
  mkMemObj (mo_u32Magic o) (mo_cbSelf o) (mo_enmType o) (mo_fFlags o) (mo_cb o) pv (mo_cMappingsAllocated o) (mo_cMappings o)
    (mo_papMappingsPtr o) (mo_papMappings o) (mo_pParent o) (mo_uWord0 o) (mo_fAllocated o) (mo_uCachePolicy o)
    (mo_fContiguous o) fMapped (mo_cPages o) (mo_apPages o).
Definition mo_set_mappings (cAlloc c : Z) (p : ptr) (m : gmap Z ptr) (o : RTR0MEMOBJLNX) : RTR0MEMOBJLNX :=
  mkMemObj (mo_u32Magic o) (mo_cbSelf o) (mo_enmType o) (mo_fFlags o) (mo_cb o) (mo_pv o) cAlloc c
    p m (mo_pParent o) (mo_uWord0 o) (mo_fAllocated o) (mo_uCachePolicy o)
    (mo_fContiguous o) (mo_fMappedToRing0 o) (mo_cPages o) (mo_apPages o).
Definition mo_set_parent (p : ptr) (o : RTR0MEMOBJLNX) : RTR0MEMOBJLNX :=
  mkMemObj (mo_u32Magic o) (mo_cbSelf o) (mo_enmType o) (mo_fFlags o) (mo_cb o) (mo_pv o) (mo_cMappingsAllocated o) (mo_cMappings o)
    (mo_papMappingsPtr o) (mo_papMappings o) p (mo_uWord0 o) (mo_fAllocated o) (mo_uCachePolicy o)
    (mo_fContiguous o) (mo_fMappedToRing0 o) (mo_cPages o) (mo_apPages o).
Definition mo_set_u (w : Z) (fAllocated : bool) (uCachePolicy : Z) (o : RTR0MEMOBJLNX) : RTR0MEMOBJLNX :=
  mkMemObj (mo_u32Magic o) (mo_cbSelf o) (mo_enmType o) (mo_fFlags o) (mo_cb o) (mo_pv o) (mo_cMappingsAllocated o) (mo_cMappings o)
    (mo_papMappingsPtr o) (mo_papMappings o) (mo_pParent o) w fAllocated uCachePolicy
    (mo_fContiguous o) (mo_fMappedToRing0 o) (mo_cPages o) (mo_apPages o).
Definition mo_set_word0 (w : Z) (o : RTR0MEMOBJLNX) : RTR0MEMOBJLNX := mo_set_u w (mo_fAllocated o) (mo_uCachePolicy o) o.
Definition mo_set_contiguous (b : bool) (o : RTR0MEMOBJLNX) : RTR0MEMOBJLNX :=
  mkMemObj (mo_u32Magic o) (mo_cbSelf o) (mo_enmType o) (mo_fFlags o) (mo_cb o) (mo_pv o) (mo_cMappingsAllocated o) (mo_cMappings o)
    (mo_papMappingsPtr o) (mo_papMappings o) (mo_pParent o) (mo_uWord0 o) (mo_fAllocated o) (mo_uCachePolicy o)
    b (mo_fMappedToRing0 o) (mo_cPages o) (mo_apPages o).
Definition mo_set_pages (c : Z) (l : list ptr) (o : RTR0MEMOBJLNX) : RTR0MEMOBJLNX :=
  mkMemObj (mo_u32Magic o) (mo_cbSelf o) (mo_enmType o) (mo_fFlags o) (mo_cb o) (mo_pv o) (mo_cMappingsAllocated o) (mo_cMappings o)
    (mo_papMappingsPtr o) (mo_papMappings o) (mo_pParent o) (mo_uWord0 o) (mo_fAllocated o) (mo_uCachePolicy o)
    (mo_fContiguous o) (mo_fMappedToRing0 o) c l.
Definition mo_set_cPages (c : Z) (o : RTR0MEMOBJLNX) : RTR0MEMOBJLNX := mo_set_pages c (mo_apPages o) o.

(** * The kernel *)

(** What has been taken from the kernel: memory of its allocator, 2^order pages, the reserved
    flag of a page, a mapping into kernel space, one into a process, a reference that
    [get_user_pages] took, and the semaphore of the process, for reading or writing. *)
Inductive kres : Type :=
| KHeap (p : ptr)
| KPages (p : ptr) (order : Z)
| KReserved (p : ptr)
| KVmap (p : ptr)
| KMmap (p : ptr) (cb : Z)
| KPin (p : ptr)
| KSem (fWrite : bool).

#[export] Instance kres_eq_dec : EqDecision kres.
Proof. solve_decision. Defined.
#[export] Instance kres_countable : Countable kres.
Proof.
  refine (inj_countable' (λ r, match r with
    | KHeap p => (0, p, 0) | KPages p o => (1, p, o) | KReserved p => (2, p, 0) | KVmap p => (3, p, 0)
    | KMmap p cb => (4, p, cb) | KPin p => (5, p, 0) | KSem b => (6, Z.b2z b, 0) end)
    (λ '(k, p, x), if k =? 0 then KHeap p else if k =? 1 then KPages p x else if k =? 2 then KReserved p
      else if k =? 3 then KVmap p else if k =? 4 then KMmap p x else if k =? 5 then KPin p else KSem (p =? 1)) _).
  by intros [| | | | | |[]].
Defined.

(** The kernel, as far as it is used.  The page tables are read level by level. *)
Class LinuxKernel := {
  World : Type;
  GFP_HIGHUSER : Z;
  GFP_USER : Z;
  GFP_DMA32 : Z;
  GFP_DMA : Z;
  __GFP_COMP : Z;
  __GFP_REPEAT : Z;
  __GFP_NOMEMALLOC : Z;
  _PAGE_PRESENT : Z;
  _PAGE_RW : Z;
  _PAGE_NX : Z;
  VM_MAP : Z;
  PAGE_NONE : Z;
  PAGE_READONLY : Z;
  PAGE_SHARED : Z;
  PAGE_READONLY_EXEC : Z;
  PAGE_SHARED_EXEC : Z;
  PAGE_KERNEL : Z;
  PAGE_KERNEL_RO : Z;
  PAGE_KERNEL_EXEC : Z;
  PROT_NONE : Z;
  PROT_READ : Z;
  PROT_WRITE : Z;
  PROT_EXEC : Z;
  MAP_SHARED : Z;
  MAP_ANONYMOUS : Z;
  MAP_FIXED : Z;
  VM_DONTCOPY : Z;
  VM_LOCKED : Z;
  VM_RESERVED : Z;
  PAGE_OFFSET : Z;
  va0 : ptr;
  high_memory : ptr;
  PUD_SHIFT : Z;
  PMD_SHIFT : Z;
  k_kmalloc : Z → World → ptr * World;
  k_alloc_pages : Z → Z → World → ptr * World;
  sizeof_page : Z;
  page_to_phys : ptr → Z;
  page_to_pfn : ptr → Z;
  pfn_to_page : Z → ptr;
  phys_to_virt : Z → ptr;
  virt_to_page : ptr → ptr;
  PageHighMem : ptr → bool;
  PageReserved : ptr → World → bool;
  k_SetPageReserved : ptr → World → World;
  k_ClearPageReserved : ptr → World → World;
  k_SetPageDirty : ptr → World → World;
  k_flush_dcache_page : ptr → World → World;
  k_vmap : list ptr → Z → Z → World → ptr * World;
  k_ioremap : bool → Z → Z → World → ptr * World;
  k_do_mmap : ptr → Z → Z → Z → World → Z * World;
  k_get_user_pages : ptr → Z → World → Z * list ptr * list ptr * World;
  k_vma_or_flags : ptr → Z → World → World;
  k_find_vma : ptr → World → ptr;
  k_vm_insert_page : ptr → ptr → ptr → World → Z * World;
  k_remap_pfn_range : ptr → ptr → Z → Z → Z → World → Z * World;
  active_mm : World → bool;
  pgd_none : ptr → World → bool;
  pud_none : ptr → World → bool;
  pud_large_page : ptr → World → option ptr;
  pmd_none : ptr → World → bool;
  pmd_large_page : ptr → World → option ptr;
  pte_page_present : ptr → World → option ptr;
}.

(** Who calls: [RTR0ProcHandleSelf()], and whether [current->mm] is set. *)
Record Caller := mkCaller {
  hSelf : Z;
  fMm : bool;
}.

(** * Computations *)

Section kernel.
Context `{LinuxKernel}.

Record MemSt := mkMemSt {
  ms_objs : gmap ptr RTR0MEMOBJLNX;
  ms_ledger : gmultiset kres;
  ms_w : World;
}.

Definition M (A : Type) : Type := MemSt → option (A * MemSt).
Definition kret {A} (a : A) : M A := λ s, Some (a, s).
Definition kfault {A} : M A := λ s, None.
Definition mseq {A B} (m : M A) (k : A → M B) : M B := λ s,
  match m s with Some (a, s') => k a s' | None => None end.

Definition kcall {A} (f : World → A * World) : M A := λ s,
  Some ((f (ms_w s)).1, mkMemSt (ms_objs s) (ms_ledger s) (f (ms_w s)).2).
Definition kdo (f : World → World) : M unit := λ s, Some (tt, mkMemSt (ms_objs s) (ms_ledger s) (f (ms_w s))).
Definition kget {A} (f : World → A) : M A := λ s, Some (f (ms_w s), s).

(** Taking and giving back. *)
Definition take_res (r : kres) : M unit := λ s,
  Some (tt, mkMemSt (ms_objs s) (ms_ledger s ⊎ {[+ r +]}) (ms_w s)).
Definition give_res (r : kres) : M unit := λ s,
  if decide (r ∈ ms_ledger s) then Some (tt, mkMemSt (ms_objs s) (ms_ledger s ∖ {[+ r +]}) (ms_w s)) else None.

(** The members of an object. *)
Definition obj_get (p : ptr) : M RTR0MEMOBJLNX := λ s, o ← ms_objs s !! p; Some (o, s).
Definition obj_upd (p : ptr) (f : RTR0MEMOBJLNX → RTR0MEMOBJLNX) : M unit := λ s,
  o ← ms_objs s !! p; Some (tt, mkMemSt (<[p := f o]> (ms_objs s)) (ms_ledger s) (ms_w s)).
Definition obj_new (p : ptr) (o : RTR0MEMOBJLNX) : M unit := λ s,
  Some (tt, mkMemSt (<[p := o]> (ms_objs s)) (ms_ledger s) (ms_w s)).
Definition obj_drop (p : ptr) : M unit := λ s,
  Some (tt, mkMemSt (delete p (ms_objs s)) (ms_ledger s) (ms_w s)).
End kernel.

Notation "x ←m m ;; k" := (mseq m (λ x, k)) (at level 100, m at next level, right associativity) : sup_scope.
Notation "m ;;m k" := (mseq m (λ _, k)) (at level 100, right associativity) : sup_scope.
Open Scope sup_scope.

Section kernel.
Context `{LinuxKernel}.

(** [RTMemAlloc] and [RTMemAllocZ]: the allocator does not answer with memory that is in use,
    an answer that does is taken for NULL. *)
Definition RTMemAlloc (cb : Z) : M ptr :=
  p ←m kcall (k_kmalloc cb) ;;
  λ s, if (p =? NULL) || bool_decide (KHeap p ∈ ms_ledger s) then Some (NULL, s)
       else (take_res (KHeap p) ;;m kret p) s.
Definition RTMemFree (p : ptr) : M unit := if p =? NULL then kret tt else give_res (KHeap p).
Definition RTMemRealloc (pOld : ptr) (cb : Z) : M ptr :=
  p ←m kcall (k_kmalloc cb) ;;
  λ s, if (p =? NULL) || (negb (p =? pOld) && bool_decide (KHeap p ∈ ms_ledger s)) then Some (NULL, s)
       else (RTMemFree pOld ;;m take_res (KHeap p) ;;m kret p) s.

Definition alloc_pages (fFlags order : Z) : M ptr :=
  p ←m kcall (k_alloc_pages fFlags order) ;;
  if p =? NULL then kret NULL else take_res (KPages p order) ;;m kret p.
Definition __free_pages (p : ptr) (order : Z) : M unit := give_res (KPages p order).
Definition alloc_page (fFlags : Z) : M ptr := alloc_pages fFlags 0.
Definition __free_page (p : ptr) : M unit := __free_pages p 0.
Definition SetPageReserved (p : ptr) : M unit := kdo (k_SetPageReserved p) ;;m take_res (KReserved p).
Definition ClearPageReserved (p : ptr) : M unit := kdo (k_ClearPageReserved p) ;;m give_res (KReserved p).
Definition SetPageDirty (p : ptr) : M unit := kdo (k_SetPageDirty p).
Definition page_cache_release (p : ptr) : M unit := give_res (KPin p).
Definition vmap (pages : list ptr) (flags prot : Z) : M ptr :=
  p ←m kcall (k_vmap pages flags prot) ;;
  if p =? NULL then kret NULL else take_res (KVmap p) ;;m kret p.
Definition ioremap (fNoCache : bool) (Phys cb : Z) : M ptr :=
  p ←m kcall (k_ioremap fNoCache Phys cb) ;;
  if p =? NULL then kret NULL else take_res (KVmap p) ;;m kret p.
Definition vunmap (p : ptr) : M unit := give_res (KVmap p).
Definition down_mmap_sem (fWrite : bool) : M unit := take_res (KSem fWrite).
Definition up_mmap_sem (fWrite : bool) : M unit := give_res (KSem fWrite).
(** An error is an address that is not at a page boundary. *)
Definition do_mmap (addr cb prot flags : Z) : M Z :=
  a ←m kcall (k_do_mmap addr cb prot flags) ;;
  if Z.land a PAGE_OFFSET_MASK =? 0 then take_res (KMmap a cb) ;;m kret a else kret a.
Definition do_munmap (addr cb : Z) : M unit := give_res (KMmap addr cb).

(** [&p[i]] in the array of page structures *)
Definition page_elem (p : ptr) (i : Z) : ptr := p + i * sizeof_page.

(** The loops over page indices. *)
Fixpoint each {A} (l : list A) (f : A → M unit) : M unit :=
  match l with
  | [] => kret tt
  | x :: l => f x ;;m each l f
  end.
Definition up_to (n : Z) : list Z := seqZ 0 n.
Definition down_from (n : Z) : list Z := reverse (seqZ 0 n).

(** [apPages[iPage]] and [papMappings[i]] *)
Definition page_get (p : ptr) (iPage : Z) : M ptr :=
  o ←m obj_get p ;; match mo_apPages o !! Z.to_nat iPage with Some pg => kret pg | None => kfault end.
Definition page_set (p : ptr) (iPage : Z) (pg : ptr) : M unit :=
  o ←m obj_get p ;;
  if (0 <=? iPage) && (iPage <? Z.of_nat (length (mo_apPages o)))
  then obj_upd p (mo_set_pages (mo_cPages o) (<[Z.to_nat iPage := pg]> (mo_apPages o)))
  else kfault.

(** * Common operations *)

(** [sizeof(RTR0MEMOBJLNX)] and [RT_OFFSETOF(RTR0MEMOBJLNX, apPages[cPages])] *)
Definition sizeof_MEMOBJLNX : Z := 88.
Definition OFFSETOF_apPages (cPages : Z) : Z := u64 (80 + 8 * cPages).

(** The Linux structure without its array has to fit in what is allocated. *)
Definition rtR0MemObjNew (cbSelf : Z) (enmType : RTR0MEMOBJTYPE) (pv : ptr) (cb : Z) : M ptr :=
  let cbSelf := if cbSelf =? 0 then sizeof_MEMOBJLNX else cbSelf in
  p ←m RTMemAlloc cbSelf ;;
  if p =? NULL then kret NULL
  else if cbSelf <? OFFSETOF_apPages 0 then kfault
  else
    obj_new p (mkMemObj RTR0MEMOBJ_MAGIC (u32 cbSelf) enmType 0 cb pv 0 0 NULL ∅ NULL 0 false 0 false false 0
                 (replicate (Z.to_nat ((cbSelf - OFFSETOF_apPages 0) / 8)) NULL)) ;;m
    kret p.

(** Freeing the structure. *)
Definition obj_free (p : ptr) : M unit := obj_drop p ;;m RTMemFree p.

Definition rtR0MemObjDelete (p : ptr) : M unit :=
  if p =? NULL then kret tt
  else
    obj_upd p (mo_set_type (u32 (Z.lnot RTR0MEMOBJ_MAGIC)) RTR0MEMOBJTYPE_END) ;;m
    obj_free p.

Definition rtR0MemObjIsMapping (o : RTR0MEMOBJLNX) : bool := bool_decide (mo_enmType o = RTR0MEMOBJTYPE_MAPPING).
Definition rtR0MemObjIsProtectable (o : RTR0MEMOBJLNX) : bool :=
  match mo_enmType o with
  | RTR0MEMOBJTYPE_MAPPING | RTR0MEMOBJTYPE_PAGE | RTR0MEMOBJTYPE_LOW | RTR0MEMOBJTYPE_CONT => true
  | _ => false
  end.

Definition rtR0MemObjLink (pParent pChild : ptr) : M Z :=
  o ←m obj_get pParent ;;
  let i := mo_cMappings o in
  fOk ←m (if mo_cMappingsAllocated o <=? i then
            pv ←m RTMemRealloc (mo_papMappingsPtr o) (u64 (u32 (i + 32) * 8)) ;;
            if pv =? NULL then kret false
            else
              obj_upd pParent (λ o, mo_set_mappings (u32 (i + 32)) (mo_cMappings o) pv (mo_papMappings o) o) ;;m
              kret true
          else kret true) ;;
  if negb fOk then kret VERR_NO_MEMORY
  else
    obj_upd pParent (λ o, mo_set_mappings (mo_cMappingsAllocated o) (u32 (i + 1)) (mo_papMappingsPtr o)
                            (<[i := pChild]> (mo_papMappings o)) o) ;;m
    obj_upd pChild (mo_set_parent pParent) ;;m
    kret VINF_SUCCESS.
End kernel.

(** * Reasoning *)

(** What holds of the result, the objects and the ledger after a computation, from any state
    of the kernel: the computation has a result, and it satisfies [Q]. *)
Section wp.
Context `{LinuxKernel}.

Definition wp {A} (m : M A) (Q : A → gmap ptr RTR0MEMOBJLNX → gmultiset kres → Prop)
    (O : gmap ptr RTR0MEMOBJLNX) (L : gmultiset kres) : Prop :=
  ∀ w, match m (mkMemSt O L w) with Some (a, s) => Q a (ms_objs s) (ms_ledger s) | None => False end.

Lemma wp_ret {A} (a : A) Q O L : Q a O L → wp (kret a) Q O L.
Proof. by intros HQ w. Qed.

Lemma wp_bind {A B} (m : M A) (k : A → M B) Q O L : wp m (λ a, wp (k a) Q) O L → wp (mseq m k) Q O L.
Proof.
  intros Hm w. specialize (Hm w). unfold mseq. destruct (m _) as [[a [O' L' w']]|]; [|done]. apply Hm.
Qed.

Lemma wp_mono {A} (m : M A) (Q Q' : _ → _ → _ → Prop) O L :
  wp m Q O L → (∀ a O' L', Q a O' L' → Q' a O' L') → wp m Q' O L.
Proof. intros Hm HQ w. specialize (Hm w). destruct (m _) as [[a s]|]; [|done]. by apply HQ. Qed.

Lemma wp_call {A} (f : World → A * World) Q O L : (∀ a, Q a O L) → wp (kcall f) Q O L.
Proof. intros HQ w. apply HQ. Qed.

Lemma wp_do (f : World → World) (Q : unit → _ → _ → Prop) O L : Q tt O L → wp (kdo f) Q O L.
Proof. intros HQ w. apply HQ. Qed.

Lemma wp_kget {A} (f : World → A) Q O L : (∀ a, Q a O L) → wp (kget f) Q O L.
Proof. intros HQ w. apply HQ. Qed.

Lemma wp_take r (Q : unit → _ → _ → Prop) O L : Q tt O (L ⊎ {[+ r +]}) → wp (take_res r) Q O L.
Proof. intros HQ w. apply HQ. Qed.

Lemma wp_give r (Q : unit → _ → _ → Prop) O L : Q tt O L → wp (give_res r) Q O (L ⊎ {[+ r +]}).
Proof.
  intros HQ w. unfold give_res. simpl. rewrite decide_True by multiset_solver. simpl.
  replace ((L ⊎ {[+ r +]}) ∖ {[+ r +]}) with L by multiset_solver. done.
Qed.

Lemma wp_get p o (Q : _ → _ → _ → Prop) O L : O !! p = Some o → Q o O L → wp (obj_get p) Q O L.
Proof. intros Hp HQ w. unfold obj_get. simpl. by rewrite Hp. Qed.

Lemma wp_upd p f o (Q : unit → _ → _ → Prop) O L : O !! p = Some o → Q tt (<[p := f o]> O) L → wp (obj_upd p f) Q O L.
Proof. intros Hp HQ w. unfold obj_upd. simpl. by rewrite Hp. Qed.

Lemma wp_drop p (Q : unit → _ → _ → Prop) O L : Q tt (delete p O) L → wp (obj_drop p) Q O L.
Proof. intros HQ w. apply HQ. Qed.

Lemma wp_new p o (Q : unit → _ → _ → Prop) O L : Q tt (<[p := o]> O) L → wp (obj_new p o) Q O L.
Proof. intros HQ w. apply HQ. Qed.

(** ** The kernel's functions *)

Lemma wp_RTMemAlloc cb (Q : _ → _ → _ → Prop) O L :
  Q NULL O L → (∀ p, p ≠ NULL → KHeap p ∉ L → Q p O (L ⊎ {[+ KHeap p +]})) → wp (RTMemAlloc cb) Q O L.
Proof.
  intros H0 H1. apply wp_bind, wp_call. intros p w. simpl. destruct (Z.eqb_spec p NULL) as [->|Hp]; [done|].
  simpl. case_bool_decide as Hin; [done|]. simpl. by apply H1.
Qed.

Lemma wp_RTMemFree p (Q : unit → _ → _ → Prop) O L : p ≠ NULL → Q tt O L → wp (RTMemFree p) Q O (L ⊎ {[+ KHeap p +]}).
Proof. intros Hp HQ. unfold RTMemFree. rewrite (proj2 (Z.eqb_neq _ _) Hp). by apply wp_give. Qed.

Lemma wp_RTMemRealloc pOld cb (Q : _ → _ → _ → Prop) O L :
  let old := if pOld =? NULL then ∅ else {[+ KHeap pOld +]} in
  Q NULL O (L ⊎ old) → (∀ p, p ≠ NULL → Q p O (L ⊎ {[+ KHeap p +]})) → wp (RTMemRealloc pOld cb) Q O (L ⊎ old).
Proof.
  intros old H0 H1. apply wp_bind, wp_call. intros p w. simpl. destruct (Z.eqb_spec p NULL) as [->|Hp]; [done|].
  simpl. destruct (_ && _); [done|].
  assert (Hw : wp (RTMemFree pOld ;;m take_res (KHeap p) ;;m kret p) Q O (L ⊎ old)); [|apply (Hw w)].
  unfold old. apply wp_bind. unfold RTMemFree. destruct (pOld =? NULL).
  - apply wp_ret. rewrite (right_id_L ∅ (⊎)). by apply wp_bind, wp_take, wp_ret, H1.
  - by apply wp_give, wp_bind, wp_take, wp_ret, H1.
Qed.

Lemma wp_alloc_pages fl order (Q : _ → _ → _ → Prop) O L :
  Q NULL O L → (∀ p, p ≠ NULL → Q p O (L ⊎ {[+ KPages p order +]})) → wp (alloc_pages fl order) Q O L.
Proof.
  intros H0 H1. apply wp_bind, wp_call. intros p. destruct (Z.eqb_spec p NULL) as [->|Hp]; [by apply wp_ret|].
  apply wp_bind, wp_take, wp_ret, H1, Hp.
Qed.

Lemma wp_vmap pages fl prot (Q : _ → _ → _ → Prop) O L :
  Q NULL O L → (∀ p, p ≠ NULL → Q p O (L ⊎ {[+ KVmap p +]})) → wp (vmap pages fl prot) Q O L.
Proof.
  intros H0 H1. apply wp_bind, wp_call. intros p. destruct (Z.eqb_spec p NULL) as [->|Hp]; [by apply wp_ret|].
  apply wp_bind, wp_take, wp_ret, H1, Hp.
Qed.

Lemma wp_ioremap b a cb (Q : _ → _ → _ → Prop) O L :
  Q NULL O L → (∀ p, p ≠ NULL → Q p O (L ⊎ {[+ KVmap p +]})) → wp (ioremap b a cb) Q O L.
Proof.
  intros H0 H1. apply wp_bind, wp_call. intros p. destruct (Z.eqb_spec p NULL) as [->|Hp]; [by apply wp_ret|].
  apply wp_bind, wp_take, wp_ret, H1, Hp.
Qed.

Lemma wp_do_mmap a cb prot fl (Q : _ → _ → _ → Prop) O L :
  (∀ p, Z.land p PAGE_OFFSET_MASK ≠ 0 → Q p O L) →
  (∀ p, Z.land p PAGE_OFFSET_MASK = 0 → Q p O (L ⊎ {[+ KMmap p cb +]})) → wp (do_mmap a cb prot fl) Q O L.
Proof.
  intros H0 H1. apply wp_bind, wp_call. intros p. destruct (Z.eqb_spec (Z.land p PAGE_OFFSET_MASK) 0) as [Hp|Hp].
  - by apply wp_bind, wp_take, wp_ret, H1.
  - by apply wp_ret, H0.
Qed.

(** ** Pages *)

Lemma wp_page_get p o i pg (Q : _ → _ → _ → Prop) O L :
  O !! p = Some o → mo_apPages o !! Z.to_nat i = Some pg → Q pg O L → wp (page_get p i) Q O L.
Proof. intros Hp Hi HQ. eapply wp_bind, wp_get; [done|]. rewrite Hi. by apply wp_ret. Qed.

Lemma wp_page_set p o i pg (Q : unit → _ → _ → Prop) O L :
  O !! p = Some o → 0 ≤ i < Z.of_nat (length (mo_apPages o)) →
  Q tt (<[p := mo_set_pages (mo_cPages o) (<[Z.to_nat i := pg]> (mo_apPages o)) o]> O) L → wp (page_set p i pg) Q O L.
Proof.
  intros Hp Hi HQ. eapply wp_bind, wp_get; [done|].
  replace ((0 <=? i) && _) with true by lia. by eapply wp_upd.
Qed.

(** The loops, by an invariant over how many rounds have been made. *)
Lemma wp_each {A} (I : nat → gmap ptr RTR0MEMOBJLNX → gmultiset kres → Prop) (l : list A) f O L :
  (∀ k x O L, l !! k = Some x → I k O L → wp (f x) (λ _, I (S k)) O L) →
  I 0%nat O L → wp (each l f) (λ _, I (length l)) O L.
Proof.
  revert I O L. induction l as [|x l IH]; intros I O L Hf HI; [by apply wp_ret|].
  apply wp_bind. eapply wp_mono; [by apply (Hf 0%nat)|]. intros [] O' L' HI'. simpl.
  apply (IH (λ k, I (S k))); [|done]. intros k y O2 L2 Hk. by apply (Hf (S k)).
Qed.

Lemma lookup_up_to (n : nat) k x : up_to (Z.of_nat n) !! k = Some x → x = Z.of_nat k ∧ (k < n)%nat.
Proof. unfold up_to. rewrite lookup_seqZ. lia. Qed.

Lemma up_to_S (n : nat) : up_to (Z.of_nat (S n)) = up_to (Z.of_nat n) ++ [Z.of_nat n].
Proof. unfold up_to. replace (Z.of_nat (S n)) with (Z.of_nat n + 1) by lia. by rewrite seqZ_app by lia. Qed.

Lemma length_up_to (n : nat) : length (up_to (Z.of_nat n)) = n.
Proof. unfold up_to. rewrite length_seqZ. lia. Qed.

Lemma lookup_down_from (n : nat) k x :
  down_from (Z.of_nat n) !! k = Some x → x = Z.of_nat (n - 1 - k) ∧ (k < n)%nat.
Proof.
  unfold down_from. rewrite reverse_lookup_Some. rewrite length_seqZ, lookup_seqZ. lia.
Qed.

Lemma down_from_nat z : down_from z = down_from (Z.of_nat (Z.to_nat z)).
Proof. unfold down_from, seqZ. by rewrite Nat2Z.id. Qed.

Lemma length_down_from (n : nat) : length (down_from (Z.of_nat n)) = n.
Proof. unfold down_from. rewrite length_reverse, length_seqZ. lia. Qed.

Definition lset (l : list kres) : gmultiset kres := list_to_set_disj l.

Lemma lset_snoc l r : lset (l ++ [r]) = lset l ⊎ {[+ r +]}.
Proof. unfold lset. rewrite list_to_set_disj_app. simpl. multiset_solver. Qed.

Lemma take_S_lset (R : ptr → kres) (l : list ptr) k x :
  l !! k = Some x → lset (R <$> take (S k) l) = lset (R <$> take k l) ⊎ {[+ R x +]}.
Proof. intros Hk. rewrite (take_S_r _ _ x Hk), fmap_app. apply lset_snoc. Qed.

(** One resource given back, or taken, for each of the first [n] pages of an object. *)
Lemma wp_give_pages (R : ptr → kres) (f : ptr → M unit) p o (n : nat) (Q : unit → _ → _ → Prop) O L :
  (∀ pg (Q : unit → _ → _ → Prop) O L, Q tt O L → wp (f pg) Q O (L ⊎ {[+ R pg +]})) →
  O !! p = Some o → (n ≤ length (mo_apPages o))%nat → Q tt O L →
  wp (each (down_from (Z.of_nat n)) (λ i, pg ←m page_get p i ;; f pg)) Q O (L ⊎ lset (R <$> take n (mo_apPages o))).
Proof.
  intros Hf Hp Hn HQ. eapply wp_mono.
  - apply (wp_each (λ k O' L', O' = O ∧ L' = L ⊎ lset (R <$> take (n - k) (mo_apPages o)))); [|by rewrite Nat.sub_0_r].
    intros k x O' L' Hk [-> ->]. apply lookup_down_from in Hk as [-> Hk].
    destruct (lookup_lt_is_Some_2 (mo_apPages o) (n - 1 - k)) as [pg Hpg]; [lia|].
    eapply wp_bind, wp_page_get; [done|by rewrite Nat2Z.id|].
    replace (n - k)%nat with (S (n - 1 - k)) by lia. rewrite (take_S_lset _ _ _ pg Hpg), (assoc_L (⊎)).
    apply Hf. split; [done|]. f_equal. do 3 f_equal. lia.
  - intros [] O' L' [-> ->]. rewrite length_down_from, Nat.sub_diag. simpl. by replace (L ⊎ lset []) with L by (unfold lset; simpl; multiset_solver).
Qed.

Lemma wp_take_pages (R : ptr → kres) (f : ptr → M unit) p o (n : nat) (Q : unit → _ → _ → Prop) O L :
  (∀ pg (Q : unit → _ → _ → Prop) O L, Q tt O (L ⊎ {[+ R pg +]}) → wp (f pg) Q O L) →
  O !! p = Some o → (n ≤ length (mo_apPages o))%nat → Q tt O (L ⊎ lset (R <$> take n (mo_apPages o))) →
  wp (each (up_to (Z.of_nat n)) (λ i, pg ←m page_get p i ;; f pg)) Q O L.
Proof.
  intros Hf Hp Hn HQ. eapply wp_mono.
  - apply (wp_each (λ k O' L', O' = O ∧ L' = L ⊎ lset (R <$> take k (mo_apPages o)))).
    + intros k x O' L' Hk [-> ->]. apply lookup_up_to in Hk as [-> Hk].
      destruct (lookup_lt_is_Some_2 (mo_apPages o) k) as [pg Hpg]; [lia|].
      eapply wp_bind, wp_page_get; [done|by rewrite Nat2Z.id|].
      apply Hf. split; [done|]. by rewrite (take_S_lset _ _ _ pg Hpg), (assoc_L (⊎)).
    + split; [done|]. unfold lset. simpl. multiset_solver.
  - intros [] O' L' [-> ->]. by rewrite length_up_to.
Qed.

(** ** Objects *)

(** The structure [rtR0MemObjNew] makes. *)
Definition new_object (cbSelf : Z) (enmType : RTR0MEMOBJTYPE) (pv : ptr) (cb : Z) : RTR0MEMOBJLNX :=
  mkMemObj RTR0MEMOBJ_MAGIC (u32 cbSelf) enmType 0 cb pv 0 0 NULL ∅ NULL 0 false 0 false false 0
    (replicate (Z.to_nat ((cbSelf - OFFSETOF_apPages 0) / 8)) NULL).

(** Objects are in memory that has been allocated. *)
Definition heap_ok (O : gmap ptr RTR0MEMOBJLNX) (L : gmultiset kres) : Prop := ∀ p, is_Some (O !! p) → KHeap p ∈ L.

Lemma heap_fresh O L p : heap_ok O L → KHeap p ∉ L → O !! p = None.
Proof. intros Hok Hp. apply eq_None_not_Some. intros Hs. by apply Hp, Hok. Qed.

Lemma wp_New cbSelf t pv cb (Q : _ → _ → _ → Prop) O L :
  OFFSETOF_apPages 0 ≤ cbSelf → heap_ok O L → Q NULL O L →
  (∀ p, p ≠ NULL → O !! p = None → KHeap p ∉ L → Q p (<[p := new_object cbSelf t pv cb]> O) (L ⊎ {[+ KHeap p +]})) →
  wp (rtR0MemObjNew cbSelf t pv cb) Q O L.
Proof.
  intros Hcb Hok H0 H1. unfold rtR0MemObjNew. change (OFFSETOF_apPages 0) with 80 in *.
  replace (cbSelf =? 0) with false by lia. apply wp_bind, wp_RTMemAlloc; [by apply wp_ret|].
  intros p Hp Hin. rewrite (proj2 (Z.eqb_neq _ _) Hp). change (OFFSETOF_apPages 0) with 80. replace (cbSelf <? 80) with false by lia.
  apply wp_bind, wp_new, wp_ret. apply H1; [done| |done]. by eapply heap_fresh.
Qed.

Lemma wp_obj_free p (Q : unit → _ → _ → Prop) O L : p ≠ NULL → Q tt (delete p O) L → wp (obj_free p) Q O (L ⊎ {[+ KHeap p +]}).
Proof. intros Hp HQ. by apply wp_bind, wp_drop, wp_RTMemFree. Qed.

Lemma wp_Delete p o (Q : unit → _ → _ → Prop) O L :
  p ≠ NULL → O !! p = Some o → Q tt (delete p O) L → wp (rtR0MemObjDelete p) Q O (L ⊎ {[+ KHeap p +]}).
Proof.
  intros Hp Ho HQ. unfold rtR0MemObjDelete. rewrite (proj2 (Z.eqb_neq _ _) Hp).
  eapply wp_bind, wp_upd; [done|]. apply wp_obj_free; [done|]. by rewrite delete_insert_eq.
Qed.
End wp.
