(* ===== verification/MemObjLnx.v ===== *)
(** The native half of the memory objects on Linux (r0drv/linux/memobj-r0drv-linux.c): the
    allocation of pages and their mapping into kernel space, locking, reserving and mapping,
    and the native free.  For AMD64 and a kernel from 2.6.25 on. *)

From S2P Require Import Prelude SupTypes MemObj.
From stdpp Require Import gmultiset.
Local Open Scope Z_scope.

(** * Helpers *)

(** [cTmp >>= 1; ++iOrder] *)
Fixpoint order_loop (fuel : nat) (cTmp iOrder : Z) : Z :=
  match fuel with
  | O => iOrder
  | S fuel => let cTmp := Z.shiftr cTmp 1 in if cTmp =? 0 then iOrder else order_loop fuel cTmp (iOrder + 1)
  end.

Definition rtR0MemObjLinuxOrder (cPages : Z) : Z :=
  let iOrder := order_loop 64 cPages 0 in
  if negb (Z.land cPages (Z.lnot (Z.shiftl 1 iOrder)) =? 0) then iOrder + 1 else iOrder.

Section linux.
Context `{LinuxKernel}.

(** The task, if it is the one that runs. *)
Definition rtR0ProcessToLinuxTask (c : Caller) (R0Process : Z) : bool := R0Process =? hSelf c.

Definition rtR0MemObjLinuxConvertProt (fProt : Z) (fKernel : bool) : Z :=
  if fProt =? RTMEM_PROT_READ then (if fKernel then PAGE_KERNEL_RO else PAGE_READONLY)
  else if (fProt =? RTMEM_PROT_WRITE) || (fProt =? Z.lor RTMEM_PROT_WRITE RTMEM_PROT_READ)
  then (if fKernel then PAGE_KERNEL else PAGE_SHARED)
  else if (fProt =? RTMEM_PROT_EXEC) || (fProt =? Z.lor RTMEM_PROT_EXEC RTMEM_PROT_READ)
  then (if fKernel then Z.land PAGE_KERNEL_EXEC (Z.lnot _PAGE_RW) else PAGE_READONLY_EXEC)
  else if (fProt =? Z.lor RTMEM_PROT_WRITE RTMEM_PROT_EXEC)
          || (fProt =? Z.lor (Z.lor RTMEM_PROT_WRITE RTMEM_PROT_EXEC) RTMEM_PROT_READ)
  then (if fKernel then PAGE_KERNEL_EXEC else PAGE_SHARED_EXEC)
  else PAGE_NONE.

(** * Pages *)

Definition rtR0MemObjLinuxFreePages (pMemLnx : ptr) : M unit :=
  o ←m obj_get pMemLnx ;;
  if mo_cPages o =? 0 then kret tt
  else
    each (down_from (mo_cPages o)) (λ iPage, pg ←m page_get pMemLnx iPage ;; ClearPageReserved pg) ;;m
    (if negb (mo_fContiguous o)
     then each (down_from (mo_cPages o)) (λ iPage, pg ←m page_get pMemLnx iPage ;; __free_page pg)
     else pg ←m page_get pMemLnx 0 ;; __free_pages pg (rtR0MemObjLinuxOrder (mo_cPages o))) ;;m
    obj_upd pMemLnx (mo_set_cPages 0).

(** [while (iPage-- > 0) __free_page(pMemLnx->apPages[iPage]);] *)
Definition free_taken (pMemLnx : ptr) (iPage : Z) : M unit :=
  each (down_from iPage) (λ i, pg ←m page_get pMemLnx i ;; __free_page pg).

(** Page by page, [n] to go; [false]: failed, and what was taken is free again. *)
Fixpoint alloc_single (pMemLnx : ptr) (fFlagsLnx : Z) (n : nat) (iPage : Z) : M bool :=
  match n with
  | O => kret true
  | S n =>
      pg ←m alloc_page fFlagsLnx ;;
      page_set pMemLnx iPage pg ;;m
      if pg =? NULL then free_taken pMemLnx iPage ;;m kret false
      else alloc_single pMemLnx fFlagsLnx n (iPage + 1)
  end.

(** Taking the pages: in one block, or one by one.  [None]: failed, and the object is gone;
    otherwise whether they are contiguous. *)
Definition take_pages (pMemLnx : ptr) (cb cPages fFlagsLnx : Z) (fContiguous : bool) : M (option bool) :=
  r ←m (if fContiguous || (cb <=? PAGE_SIZE * 2) then
          paPages ←m alloc_pages (Z.lor fFlagsLnx __GFP_COMP) (rtR0MemObjLinuxOrder cPages) ;;
          if negb (paPages =? NULL) then
            each (up_to cPages) (λ iPage, page_set pMemLnx iPage (page_elem paPages iPage)) ;;m
            kret (Some true)
          else if fContiguous then rtR0MemObjDelete pMemLnx ;;m kret None
          else kret (Some false)
        else kret (Some false)) ;;
  match r with
  | Some false =>
      fOk ←m alloc_single pMemLnx fFlagsLnx (Z.to_nat cPages) 0 ;;
      if negb fOk then rtR0MemObjDelete pMemLnx ;;m kret None else kret r
  | _ => kret r
  end.

(** Reserving them, and the check of the alignment. *)
Definition finish_pages (pMemLnx : ptr) (cPages uAlignment : Z) (fContiguous : bool) : M (Z * ptr) :=
  obj_upd pMemLnx (mo_set_contiguous fContiguous) ;;m
  each (up_to cPages) (λ iPage, pg ←m page_get pMemLnx iPage ;; SetPageReserved pg) ;;m
  if fContiguous && (PAGE_SIZE <? uAlignment) then
    pg ←m page_get pMemLnx 0 ;;
    if negb (Z.land (page_to_phys pg) (uAlignment - 1) =? 0)
    then rtR0MemObjLinuxFreePages pMemLnx ;;m kret (VERR_NO_MEMORY, NULL)
    else kret (VINF_SUCCESS, pMemLnx)
  else kret (VINF_SUCCESS, pMemLnx).

(** The status, and the object if there is one. *)
Definition rtR0MemObjLinuxAllocPages (enmType : RTR0MEMOBJTYPE) (cb uAlignment fFlagsLnx : Z) (fContiguous : bool)
    : M (Z * ptr) :=
  let cPages := Z.shiftr cb PAGE_SHIFT in
  pMemLnx ←m rtR0MemObjNew (OFFSETOF_apPages cPages) enmType NULL cb ;;
  if pMemLnx =? NULL then kret (VERR_NO_MEMORY, NULL)
  else
    obj_upd pMemLnx (mo_set_cPages cPages) ;;m
    let fFlagsLnx := if 255 <? cPages then Z.lor (Z.lor fFlagsLnx __GFP_REPEAT) __GFP_NOMEMALLOC else fFlagsLnx in
    r ←m take_pages pMemLnx cb cPages fFlagsLnx fContiguous ;;
    match r with
    | None => kret (VERR_NO_MEMORY, NULL)
    | Some fContiguous => finish_pages pMemLnx cPages uAlignment fContiguous
    end.

(** * Mapping into kernel space *)

Definition rtR0MemObjLinuxVMap (pMemLnx : ptr) (fExecutable : bool) : M Z :=
  o ←m obj_get pMemLnx ;;
  let pages := take (Z.to_nat (mo_cPages o)) (mo_apPages o) in
  let fMustMap := fExecutable || negb (mo_fContiguous o) || existsb PageHighMem pages in
  if fMustMap then
    let fPg := Z.lor _PAGE_PRESENT _PAGE_RW in
    let fPg := if negb fExecutable then Z.lor fPg _PAGE_NX else fPg in
    pv ←m vmap pages VM_MAP fPg ;;
    obj_upd pMemLnx (λ o, mo_set_pv pv (negb (pv =? NULL) || mo_fMappedToRing0 o) o) ;;m
    kret (if negb (pv =? NULL) then VINF_SUCCESS else VERR_MAP_FAILED)
  else
    pg ←m page_get pMemLnx 0 ;;
    obj_upd pMemLnx (λ o, mo_set_pv (phys_to_virt (page_to_phys pg)) (mo_fMappedToRing0 o) o) ;;m
    kret VINF_SUCCESS.

Definition rtR0MemObjLinuxVUnmap (pMemLnx : ptr) : M unit :=
  o ←m obj_get pMemLnx ;;
  (if mo_fMappedToRing0 o then vunmap (mo_pv o) else kret tt) ;;m
  obj_upd pMemLnx (mo_set_pv NULL false).

(** * The native free *)

Definition munmap_of (c : Caller) (o : RTR0MEMOBJLNX) : M unit :=
  if rtR0ProcessToLinuxTask c (mo_uWord0 o) && fMm c then
    down_mmap_sem true ;;m do_munmap (mo_pv o) (mo_cb o) ;;m up_mmap_sem true
  else kret tt.

(** [SetPageDirty] unless reserved, and the release of the reference. *)
Definition unpin (pg : ptr) : M unit :=
  fReserved ←m kget (PageReserved pg) ;;
  (if fReserved : bool then kret tt else SetPageDirty pg) ;;m
  page_cache_release pg.

Definition rtR0MemObjNativeFree (c : Caller) (pMem : ptr) : M Z :=
  o ←m obj_get pMem ;;
  match mo_enmType o with
  | RTR0MEMOBJTYPE_LOW | RTR0MEMOBJTYPE_PAGE | RTR0MEMOBJTYPE_CONT | RTR0MEMOBJTYPE_PHYS | RTR0MEMOBJTYPE_PHYS_NC =>
      rtR0MemObjLinuxVUnmap pMem ;;m rtR0MemObjLinuxFreePages pMem ;;m kret VINF_SUCCESS
  | RTR0MEMOBJTYPE_LOCK =>
      if negb (mo_uWord0 o =? NIL_RTR0PROCESS) then
        let fSem := rtR0ProcessToLinuxTask c (mo_uWord0 o) && fMm c in
        (if fSem then down_mmap_sem false else kret tt) ;;m
        each (down_from (mo_cPages o)) (λ iPage, pg ←m page_get pMem iPage ;; unpin pg) ;;m
        (if fSem then up_mmap_sem false else kret tt) ;;m
        kret VINF_SUCCESS
      else kret VINF_SUCCESS
  | RTR0MEMOBJTYPE_RES_VIRT =>
      (if negb (mo_uWord0 o =? NIL_RTR0PROCESS) then munmap_of c o
       else
         vunmap (mo_pv o) ;;m
         pg ←m page_get pMem 0 ;;
         __free_page pg ;;m
         page_set pMem 0 NULL ;;m
         obj_upd pMem (mo_set_cPages 0)) ;;m
      obj_upd pMem (λ o, mo_set_pv NULL (mo_fMappedToRing0 o) o) ;;m
      kret VINF_SUCCESS
  | RTR0MEMOBJTYPE_MAPPING =>
      (if negb (mo_uWord0 o =? NIL_RTR0PROCESS) then munmap_of c o else vunmap (mo_pv o)) ;;m
      obj_upd pMem (λ o, mo_set_pv NULL (mo_fMappedToRing0 o) o) ;;m
      kret VINF_SUCCESS
  | _ => kret VERR_INTERNAL_ERROR
  end.

(** * Allocation *)

(** What the three allocations do with the pages they got. *)
Definition vmap_or_free (r : Z * ptr) (fExecutable : bool) (complete : ptr → M unit) : M (Z * ptr) :=
  if RT_SUCCESS r.1 then
    rc ←m rtR0MemObjLinuxVMap r.2 fExecutable ;;
    if RT_SUCCESS rc then complete r.2 ;;m kret (rc, r.2)
    else rtR0MemObjLinuxFreePages r.2 ;;m rtR0MemObjDelete r.2 ;;m kret (rc, NULL)
  else kret r.

Definition rtR0MemObjNativeAllocPage (cb : Z) (fExecutable : bool) : M (Z * ptr) :=
  r ←m rtR0MemObjLinuxAllocPages RTR0MEMOBJTYPE_PAGE cb PAGE_SIZE GFP_HIGHUSER false ;;
  vmap_or_free r fExecutable (λ _, kret tt).

Definition rtR0MemObjNativeAllocLow (cb : Z) (fExecutable : bool) : M (Z * ptr) :=
  r ←m rtR0MemObjLinuxAllocPages RTR0MEMOBJTYPE_LOW cb PAGE_SIZE GFP_DMA32 false ;;
  r ←m (if RT_FAILURE r.1 then rtR0MemObjLinuxAllocPages RTR0MEMOBJTYPE_LOW cb PAGE_SIZE GFP_DMA false else kret r) ;;
  vmap_or_free r fExecutable (λ _, kret tt).

Definition rtR0MemObjNativeAllocCont (cb : Z) (fExecutable : bool) : M (Z * ptr) :=
  r ←m rtR0MemObjLinuxAllocPages RTR0MEMOBJTYPE_CONT cb PAGE_SIZE GFP_DMA32 true ;;
  r ←m (if RT_FAILURE r.1 then rtR0MemObjLinuxAllocPages RTR0MEMOBJTYPE_CONT cb PAGE_SIZE GFP_DMA true else kret r) ;;
  vmap_or_free r fExecutable (λ p, pg ←m page_get p 0 ;; obj_upd p (mo_set_word0 (page_to_phys pg))).

Definition rtR0MemObjLinuxAllocPhysSub2 (enmType : RTR0MEMOBJTYPE) (cb uAlignment PhysHighest fGfp : Z) : M (Z * ptr) :=
  r ←m rtR0MemObjLinuxAllocPages enmType cb uAlignment fGfp (bool_decide (enmType = RTR0MEMOBJTYPE_PHYS)) ;;
  if RT_FAILURE r.1 then kret r
  else
    o ←m obj_get r.2 ;;
    if negb (PhysHighest =? NIL_RTHCPHYS)
       && existsb (λ pg, PhysHighest <=? page_to_phys pg) (take (Z.to_nat (mo_cPages o)) (mo_apPages o))
    then rtR0MemObjLinuxFreePages r.2 ;;m rtR0MemObjDelete r.2 ;;m kret (VERR_NO_MEMORY, NULL)
    else
      (if bool_decide (enmType = RTR0MEMOBJTYPE_PHYS)
       then pg ←m page_get r.2 0 ;; obj_upd r.2 (λ o, mo_set_u (page_to_phys pg) true (mo_uCachePolicy o) o)
       else kret tt) ;;m
      kret r.

Definition rtR0MemObjLinuxAllocPhysSub (enmType : RTR0MEMOBJTYPE) (cb uAlignment PhysHighest : Z) : M (Z * ptr) :=
  let sub2 := rtR0MemObjLinuxAllocPhysSub2 enmType cb uAlignment PhysHighest in
  let retry fGfp r := if RT_FAILURE r.1 : bool then sub2 fGfp else kret r in
  if PhysHighest =? NIL_RTHCPHYS then sub2 GFP_HIGHUSER
  else if PhysHighest <=? 0x100000 * 16 then sub2 GFP_DMA
  else
    r ←m sub2 GFP_HIGHUSER ;;
    r ←m retry GFP_USER r ;;
    r ←m retry GFP_DMA32 r ;;
    retry GFP_DMA r.

Definition rtR0MemObjNativeAllocPhys (cb PhysHighest uAlignment : Z) : M (Z * ptr) :=
  rtR0MemObjLinuxAllocPhysSub RTR0MEMOBJTYPE_PHYS cb uAlignment PhysHighest.
Definition rtR0MemObjNativeAllocPhysNC (cb PhysHighest : Z) : M (Z * ptr) :=
  rtR0MemObjLinuxAllocPhysSub RTR0MEMOBJTYPE_PHYS_NC cb PAGE_SIZE PhysHighest.

(** [dma_addr_t] has 64 bits. *)
Definition rtR0MemObjNativeEnterPhys (Phys cb uCachePolicy : Z) : M (Z * ptr) :=
  p ←m rtR0MemObjNew sizeof_MEMOBJLNX RTR0MEMOBJTYPE_PHYS NULL cb ;;
  if p =? NULL then kret (VERR_NO_MEMORY, NULL)
  else obj_upd p (mo_set_u Phys false uCachePolicy) ;;m kret (VINF_SUCCESS, p).

(** * Locking *)

(** Where the table entry for the address is a large page, its page structure is that of the
    first of the small ones. *)
Definition large_page (pPage : ptr) (shift ulAddr : Z) : ptr :=
  if pPage =? NULL then NULL
  else pfn_to_page (page_to_pfn pPage + Z.land (Z.shiftr ulAddr PAGE_SHIFT) (u32 (Z.shiftl 1 (shift - PAGE_SHIFT)) - 1)).

Definition rtR0MemObjLinuxVirtToPage (pv : ptr) (w : World) : ptr :=
  if negb (active_mm w) then NULL
  else if pgd_none pv w then NULL
  else if pud_none pv w then NULL
  else
    match pud_large_page pv w with
    | Some pPage => large_page pPage PUD_SHIFT pv
    | None =>
        if pmd_none pv w then NULL
        else
          match pmd_large_page pv w with
          | Some pPage => large_page pPage PMD_SHIFT pv
          | None => match pte_page_present pv w with Some pPage => pPage | None => NULL end
          end
    end.

(** The first [cPages] pages of the process from [R3Ptr] on; the answer is how many there are,
    or an error, with their page structures and areas.  It is not more than were asked for;
    an answer that is, is taken for an error. *)
Definition get_user_pages (pMemLnx R3Ptr : ptr) (cPages : Z) : M (Z * list ptr) := λ s,
  let '(rc, pages, vmas, w) := k_get_user_pages R3Ptr cPages (ms_w s) in
  let rc := if cPages <? rc then -1 else rc in
  let n := Z.to_nat rc in
  let pages := take n (pages ++ replicate n NULL) in
  (each pages (λ pg, take_res (KPin pg)) ;;m
   obj_upd pMemLnx (λ o, mo_set_pages (mo_cPages o) (pages ++ drop n (mo_apPages o)) o) ;;m
   kret (rc, vmas)) (mkMemSt (ms_objs s) (ms_ledger s) w).

Definition rtR0MemObjNativeLockUser (c : Caller) (R3Ptr cb fAccess R0Process : Z) : M (Z * ptr) :=
  let cPages := s32 (Z.shiftr cb PAGE_SHIFT) in
  if negb (rtR0ProcessToLinuxTask c R0Process) then kret (VERR_NOT_SUPPORTED, NULL)
  else if negb (u64 (Z.shiftl cPages PAGE_SHIFT) =? cb) then kret (VERR_OUT_OF_RANGE, NULL)
  else
    pMemLnx ←m rtR0MemObjNew (OFFSETOF_apPages cPages) RTR0MEMOBJTYPE_LOCK R3Ptr cb ;;
    if pMemLnx =? NULL then kret (VERR_NO_MEMORY, NULL)
    else
      papVMAs ←m RTMemAlloc (u64 (8 * cPages)) ;;
      if papVMAs =? NULL then rtR0MemObjDelete pMemLnx ;;m kret (VERR_NO_MEMORY, NULL)
      else if negb (fMm c) then kfault
      else
        down_mmap_sem false ;;m
        r ←m get_user_pages pMemLnx R3Ptr cPages ;;
        let '(rc, vmas) := r in
        if rc =? cPages then
          each (down_from rc) (λ i, pg ←m page_get pMemLnx i ;;
                                    kdo (k_flush_dcache_page pg) ;;m
                                    kdo (k_vma_or_flags (nth (Z.to_nat i) vmas NULL) (Z.lor VM_DONTCOPY VM_LOCKED))) ;;m
          up_mmap_sem false ;;m
          RTMemFree papVMAs ;;m
          obj_upd pMemLnx (mo_set_word0 R0Process) ;;m
          obj_upd pMemLnx (mo_set_cPages cPages) ;;m
          kret (VINF_SUCCESS, pMemLnx)
        else
          each (down_from rc) (λ i, pg ←m page_get pMemLnx i ;; unpin pg) ;;m
          up_mmap_sem false ;;m
          RTMemFree papVMAs ;;m
          rtR0MemObjDelete pMemLnx ;;m
          kret (VERR_LOCK_FAILED, NULL).

(** Gathering the pages, from the last one down; [false]: one is not mapped. *)
Fixpoint gather_pages (pMemLnx : ptr) (fLinearMapping : bool) (pbPage : ptr) (n : nat) : M bool :=
  match n with
  | O => kret true
  | S n =>
      pPage ←m (if fLinearMapping then kret (virt_to_page pbPage) else kget (rtR0MemObjLinuxVirtToPage pbPage)) ;;
      if negb fLinearMapping && (pPage =? NULL) then kret false
      else
        page_set pMemLnx (Z.of_nat n) pPage ;;m
        gather_pages pMemLnx fLinearMapping (u64 (pbPage - PAGE_SIZE)) n
  end.

Definition RTR0MemKernelIsValidAddr (pv : ptr) : bool := PAGE_OFFSET <=? pv.

Definition rtR0MemObjNativeLockKernel (pv cb fAccess : Z) : M (Z * ptr) :=
  let pvLast := u64 (pv + cb - 1) in
  let cPages := Z.shiftr cb PAGE_SHIFT in
  if negb (RTR0MemKernelIsValidAddr pv) || negb (RTR0MemKernelIsValidAddr (u64 (pv + cb)))
  then kret (VERR_INVALID_PARAMETER, NULL)
  else
    let fLinearMapping := (va0 <=? pv) && (pvLast <? high_memory) in
    pMemLnx ←m rtR0MemObjNew (OFFSETOF_apPages cPages) RTR0MEMOBJTYPE_LOCK pv cb ;;
    if pMemLnx =? NULL then kret (VERR_NO_MEMORY, NULL)
    else
      fOk ←m gather_pages pMemLnx fLinearMapping pvLast (Z.to_nat cPages) ;;
      if fOk : bool then
        obj_upd pMemLnx (mo_set_word0 NIL_RTR0PROCESS) ;;m
        obj_upd pMemLnx (mo_set_cPages cPages) ;;m
        kret (VINF_SUCCESS, pMemLnx)
      else rtR0MemObjDelete pMemLnx ;;m kret (VERR_LOCK_FAILED, NULL).

(** * Reserving *)

Definition rtR0MemObjNativeReserveKernel (pvFixed cb uAlignment : Z) : M (Z * ptr) :=
  let cPages := Z.shiftr cb PAGE_SHIFT in
  if negb (pvFixed =? PTR_ANY) then kret (VERR_NOT_SUPPORTED, NULL)
  else if PAGE_SIZE <? uAlignment then kret (VERR_NOT_SUPPORTED, NULL)
  else
    pDummyPage ←m alloc_page GFP_HIGHUSER ;;
    if pDummyPage =? NULL then kret (VERR_NO_MEMORY, NULL)
    else
      papPages ←m RTMemAlloc (u64 (8 * cPages)) ;;
      pMemLnx ←m (if papPages =? NULL then kret NULL
                  else
                    pv ←m vmap (replicate (Z.to_nat cPages) pDummyPage) VM_MAP PAGE_KERNEL_RO ;;
                    RTMemFree papPages ;;m
                    if pv =? NULL then kret NULL
                    else
                      p ←m rtR0MemObjNew sizeof_MEMOBJLNX RTR0MEMOBJTYPE_RES_VIRT pv cb ;;
                      if negb (p =? NULL) then
                        obj_upd p (mo_set_word0 NIL_RTR0PROCESS) ;;m
                        obj_upd p (mo_set_cPages 1) ;;m
                        page_set p 0 pDummyPage ;;m
                        kret p
                      else vunmap pv ;;m kret NULL) ;;
      if negb (pMemLnx =? NULL) then kret (VINF_SUCCESS, pMemLnx)
      else __free_page pDummyPage ;;m kret (VERR_NO_MEMORY, NULL).

(** The address, or [(void * )-1]. *)
Definition rtR0MemObjLinuxDoMmap (R3PtrFixed cb uAlignment fProt : Z) : M ptr :=
  let fProt := Z.land fProt (Z.lor (Z.lor (Z.lor RTMEM_PROT_NONE RTMEM_PROT_READ) RTMEM_PROT_WRITE) RTMEM_PROT_EXEC) in
  let bit f p acc := if negb (Z.land fProt f =? 0) then Z.lor acc p else acc in
  let fLnxProt := if fProt =? RTMEM_PROT_NONE then PROT_NONE
                  else bit RTMEM_PROT_EXEC PROT_EXEC (bit RTMEM_PROT_WRITE PROT_WRITE (bit RTMEM_PROT_READ PROT_READ 0)) in
  ulAddr ←m (if negb (R3PtrFixed =? PTR_ANY)
             then do_mmap R3PtrFixed cb fLnxProt (Z.lor (Z.lor MAP_SHARED MAP_ANONYMOUS) MAP_FIXED)
             else do_mmap 0 cb fLnxProt (Z.lor MAP_SHARED MAP_ANONYMOUS)) ;;
  kret (if negb (Z.land ulAddr PAGE_OFFSET_MASK =? 0) then PTR_ANY else ulAddr).

Definition rtR0MemObjNativeReserveUser (c : Caller) (R3PtrFixed cb uAlignment R0Process : Z) : M (Z * ptr) :=
  if negb (rtR0ProcessToLinuxTask c R0Process) then kret (VERR_NOT_SUPPORTED, NULL)
  else if PAGE_SIZE <? uAlignment then kret (VERR_NOT_SUPPORTED, NULL)
  else if negb (fMm c) then kfault
  else
    down_mmap_sem true ;;m
    pv ←m rtR0MemObjLinuxDoMmap R3PtrFixed cb uAlignment RTMEM_PROT_NONE ;;
    up_mmap_sem true ;;m
    if pv =? PTR_ANY then kret (VERR_NO_MEMORY, NULL)
    else
      pMemLnx ←m rtR0MemObjNew sizeof_MEMOBJLNX RTR0MEMOBJTYPE_RES_VIRT pv cb ;;
      if pMemLnx =? NULL then
        down_mmap_sem true ;;m do_munmap pv cb ;;m up_mmap_sem true ;;m kret (VERR_NO_MEMORY, NULL)
      else obj_upd pMemLnx (mo_set_word0 R0Process) ;;m kret (VINF_SUCCESS, pMemLnx).

(** * Mapping *)

Definition rtR0MemObjNativeMapKernel (pMemToMap pvFixed uAlignment fProt offSub cbSub : Z) : M (Z * ptr) :=
  if negb ((offSub =? 0) && (cbSub =? 0)) then kret (VERR_NOT_SUPPORTED, NULL)
  else if negb (pvFixed =? PTR_ANY) then kret (VERR_NOT_SUPPORTED, NULL)
  else if PAGE_SIZE <? uAlignment then kret (VERR_NOT_SUPPORTED, NULL)
  else
    o ←m obj_get pMemToMap ;;
    pMemLnx ←m rtR0MemObjNew sizeof_MEMOBJLNX RTR0MEMOBJTYPE_MAPPING NULL (mo_cb o) ;;
    if pMemLnx =? NULL then kret (VERR_NO_MEMORY, NULL)
    else
      rc ←m (if negb (mo_cPages o =? 0) then
               pv ←m vmap (take (Z.to_nat (mo_cPages o)) (mo_apPages o)) VM_MAP (rtR0MemObjLinuxConvertProt fProt true) ;;
               obj_upd pMemLnx (λ o, mo_set_pv pv (negb (pv =? NULL)) o) ;;m
               kret (if negb (pv =? NULL) then VINF_SUCCESS else VERR_MAP_FAILED)
             else
               pv ←m ioremap (mo_uCachePolicy o =? RTMEM_CACHE_POLICY_MMIO) (mo_uWord0 o) (mo_cb o) ;;
               obj_upd pMemLnx (λ o, mo_set_pv pv false o) ;;m
               kret (if negb (pv =? NULL) then VINF_SUCCESS else VERR_NO_MEMORY)) ;;
      if RT_SUCCESS rc then obj_upd pMemLnx (mo_set_word0 NIL_RTR0PROCESS) ;;m kret (VINF_SUCCESS, pMemLnx)
      else rtR0MemObjDelete pMemLnx ;;m kret (rc, NULL).

(** The loops that map page by page: [insert i ulAddrCur] maps one, the result is 0 or an
    error. *)
Fixpoint map_pages (insert : Z → ptr → ptr → M Z) (n : nat) (iPage ulAddrCur : Z) : M Z :=
  match n with
  | O => kret 0
  | S n =>
      vma ←m kget (k_find_vma ulAddrCur) ;;
      if vma =? NULL then kret VERR_INTERNAL_ERROR
      else
        rc ←m insert iPage vma ulAddrCur ;;
        if negb (rc =? 0) then kret VERR_NO_MEMORY
        else map_pages insert n (iPage + 1) (u64 (ulAddrCur + PAGE_SIZE))
  end.

Definition insert_page (pMemToMap : ptr) (iPage : Z) (vma ulAddrCur : ptr) : M Z :=
  pg ←m page_get pMemToMap iPage ;;
  rc ←m kcall (k_vm_insert_page vma ulAddrCur pg) ;;
  kdo (k_vma_or_flags vma VM_RESERVED) ;;m
  kret rc.

(** The third argument of [remap_pfn_range] is the address the source passes. *)
Definition remap_phys (Phys fPg : Z) (iPage : Z) (vma ulAddrCur : ptr) : M Z :=
  kcall (k_remap_pfn_range vma ulAddrCur (u64 (Phys + iPage * PAGE_SIZE)) PAGE_SIZE fPg).

Definition rtR0MemObjNativeMapUser (c : Caller) (pMemToMap R3PtrFixed uAlignment fProt R0Process : Z) : M (Z * ptr) :=
  if negb (rtR0ProcessToLinuxTask c R0Process) then kret (VERR_NOT_SUPPORTED, NULL)
  else if PAGE_SIZE <? uAlignment then kret (VERR_NOT_SUPPORTED, NULL)
  else
    o ←m obj_get pMemToMap ;;
    pMemLnx ←m rtR0MemObjNew sizeof_MEMOBJLNX RTR0MEMOBJTYPE_MAPPING NULL (mo_cb o) ;;
    if pMemLnx =? NULL then kret (VERR_NO_MEMORY, NULL)
    else if negb (fMm c) then kfault
    else
      down_mmap_sem true ;;m
      pv ←m rtR0MemObjLinuxDoMmap R3PtrFixed (mo_cb o) uAlignment fProt ;;
      rc ←m (if pv =? PTR_ANY then kret VERR_NO_MEMORY
             else
               let fPg := rtR0MemObjLinuxConvertProt fProt false in
               let cPages := Z.to_nat (Z.shiftr (mo_cb o) PAGE_SHIFT) in
               if negb (mo_cPages o =? 0) then map_pages (insert_page pMemToMap) cPages 0 pv
               else
                 let Phys := match mo_enmType o with
                             | RTR0MEMOBJTYPE_PHYS | RTR0MEMOBJTYPE_CONT => mo_uWord0 o
                             | _ => NIL_RTHCPHYS
                             end in
                 if negb (Phys =? NIL_RTHCPHYS) then map_pages (remap_phys Phys fPg) cPages 0 pv else kret 0) ;;
      if rc =? 0 then
        up_mmap_sem true ;;m
        obj_upd pMemLnx (λ o, mo_set_pv pv (mo_fMappedToRing0 o) o) ;;m
        obj_upd pMemLnx (mo_set_word0 R0Process) ;;m
        kret (VINF_SUCCESS, pMemLnx)
      else
        (if pv =? PTR_ANY then kret tt else do_munmap pv (mo_cb o)) ;;m
        up_mmap_sem true ;;m
        rtR0MemObjDelete pMemLnx ;;m
        kret (rc, NULL).

(** * Protection and addresses *)

Definition rtR0MemObjNativeProtect (pMem offSub cbSub fProt : Z) : M Z := kret VERR_NOT_SUPPORTED.

(** [fuel]: how many parents to ask. *)
Fixpoint rtR0MemObjNativeGetPagePhysAddr (fuel : nat) (pMem iPage : Z) : M Z :=
  o ←m obj_get pMem ;;
  if negb (mo_cPages o =? 0) then pg ←m page_get pMem iPage ;; kret (page_to_phys pg)
  else
    match mo_enmType o with
    | RTR0MEMOBJTYPE_CONT | RTR0MEMOBJTYPE_PHYS => kret (u64 (mo_uWord0 o + Z.shiftl iPage PAGE_SHIFT))
    | RTR0MEMOBJTYPE_MAPPING =>
        match fuel with
        | O => kfault
        | S fuel => rtR0MemObjNativeGetPagePhysAddr fuel (mo_pParent o) iPage
        end
    | _ => kret NIL_RTHCPHYS
    end.
End linux.

(** * Specification *)

Section spec.
Context `{LinuxKernel}.

Definition pages_of (o : RTR0MEMOBJLNX) : list ptr := take (Z.to_nat (mo_cPages o)) (mo_apPages o).
Definition page_block (pg : ptr) : kres := KPages pg 0.

(** What the pages of an object have been taken with. *)
Definition res_pages (o : RTR0MEMOBJLNX) : gmultiset kres :=
  if mo_cPages o =? 0 then ∅
  else
    (if mo_fContiguous o then {[+ KPages (nth 0 (mo_apPages o) NULL) (rtR0MemObjLinuxOrder (mo_cPages o)) +]}
     else lset (page_block <$> pages_of o))
    ⊎ lset (KReserved <$> pages_of o).

(** The object is made of pages, which it owns. *)
Definition page_type (t : RTR0MEMOBJTYPE) : bool :=
  match t with
  | RTR0MEMOBJTYPE_LOW | RTR0MEMOBJTYPE_PAGE | RTR0MEMOBJTYPE_CONT | RTR0MEMOBJTYPE_PHYS | RTR0MEMOBJTYPE_PHYS_NC => true
  | _ => false
  end.

(** What an object has been made with and its native free gives back. *)
Definition owned (o : RTR0MEMOBJLNX) : gmultiset kres :=
  let user := negb (mo_uWord0 o =? NIL_RTR0PROCESS) in
  match mo_enmType o with
  | RTR0MEMOBJTYPE_LOW | RTR0MEMOBJTYPE_PAGE | RTR0MEMOBJTYPE_CONT | RTR0MEMOBJTYPE_PHYS | RTR0MEMOBJTYPE_PHYS_NC =>
      (if mo_fMappedToRing0 o then {[+ KVmap (mo_pv o) +]} else ∅) ⊎ res_pages o
  | RTR0MEMOBJTYPE_LOCK => if user then lset (KPin <$> pages_of o) else ∅
  | RTR0MEMOBJTYPE_RES_VIRT =>
      if user then {[+ KMmap (mo_pv o) (mo_cb o) +]}
      else {[+ KVmap (mo_pv o) +]} ⊎ {[+ KPages (nth 0 (mo_apPages o) NULL) 0 +]}
  | RTR0MEMOBJTYPE_MAPPING => if user then {[+ KMmap (mo_pv o) (mo_cb o) +]} else {[+ KVmap (mo_pv o) +]}
  | _ => ∅
  end.

(** The page array is as long as it has to be. *)
Record obj_wf (o : RTR0MEMOBJLNX) : Prop := {
  ow_magic : mo_u32Magic o = RTR0MEMOBJ_MAGIC;
  ow_type : mo_enmType o ≠ RTR0MEMOBJTYPE_INVALID ∧ mo_enmType o ≠ RTR0MEMOBJTYPE_END;
  ow_pages : 0 ≤ mo_cPages o ≤ Z.of_nat (length (mo_apPages o));
  ow_res : mo_enmType o = RTR0MEMOBJTYPE_RES_VIRT → mo_uWord0 o = NIL_RTR0PROCESS → (0 < length (mo_apPages o))%nat;
  ow_all : mo_enmType o ≠ RTR0MEMOBJTYPE_RES_VIRT → mo_cPages o ≠ 0 → Z.shiftr (mo_cb o) PAGE_SHIFT ≤ mo_cPages o;
}.

(** What the native free leaves behind: a mapping into a process other than the caller's. *)
Definition left_behind (c : Caller) (o : RTR0MEMOBJLNX) : gmultiset kres :=
  let user := negb (mo_uWord0 o =? NIL_RTR0PROCESS) in
  match mo_enmType o with
  | RTR0MEMOBJTYPE_RES_VIRT | RTR0MEMOBJTYPE_MAPPING =>
      if user && negb (rtR0ProcessToLinuxTask c (mo_uWord0 o) && fMm c) then {[+ KMmap (mo_pv o) (mo_cb o) +]} else ∅
  | _ => ∅
  end.

(** What the native free does not touch of an object. *)
Definition same_frame (o o' : RTR0MEMOBJLNX) : Prop :=
  mo_u32Magic o' = mo_u32Magic o ∧ mo_enmType o' = mo_enmType o ∧ mo_fFlags o' = mo_fFlags o ∧ mo_cb o' = mo_cb o
  ∧ mo_cMappingsAllocated o' = mo_cMappingsAllocated o ∧ mo_cMappings o' = mo_cMappings o
  ∧ mo_papMappingsPtr o' = mo_papMappingsPtr o ∧ mo_papMappings o' = mo_papMappings o ∧ mo_pParent o' = mo_pParent o.

(** Neither mapped nor a mapping of anything. *)
Definition no_links (o : RTR0MEMOBJLNX) : Prop :=
  mo_cMappingsAllocated o = 0 ∧ mo_cMappings o = 0 ∧ mo_papMappingsPtr o = NULL ∧ mo_papMappings o = ∅ ∧ mo_pParent o = NULL.

(** One more object, with what it has been made with. *)
Definition add_obj (p : ptr) (o : RTR0MEMOBJLNX) (st st' : gmap ptr RTR0MEMOBJLNX * gmultiset kres) : Prop :=
  p ≠ NULL ∧ st.1 !! p = None ∧ obj_wf o ∧ no_links o
  ∧ st' = (<[p := o]> st.1, st.2 ⊎ {[+ KHeap p +]} ⊎ owned o).
Definition add_some (st st' : gmap ptr RTR0MEMOBJLNX * gmultiset kres) : Prop :=
  ∃ p o, add_obj p o st st' ∧ page_type (mo_enmType o) = true ∧ 0 ≤ mo_cb o ∧ mo_cPages o = 0.

(** The type and the size asked for. *)
Definition is_obj (t : RTR0MEMOBJTYPE) (cb : Z) (o : RTR0MEMOBJLNX) : Prop := mo_enmType o = t ∧ mo_cb o = cb.

(** How a creating function ends: with one new object satisfying [P], its handle and success, or with an
    error, NIL and nothing.  Unless it is [fExact] it may have left objects behind that
    nobody has the handle of. *)
Definition created (fExact : bool) (P : RTR0MEMOBJLNX → Prop) (st : gmap ptr RTR0MEMOBJLNX * gmultiset kres)
    (r : Z * ptr) (O' : gmap ptr RTR0MEMOBJLNX) (L' : gmultiset kres) : Prop :=
  ∃ st1, rtc add_some st st1 ∧ (fExact = true → st1 = st)
    ∧ ((r.1 = VINF_SUCCESS ∧ ∃ o, add_obj r.2 o st1 (O', L') ∧ P o)
       ∨ (RT_FAILURE r.1 = true ∧ r.2 = NULL ∧ (O', L') = st1)).

(** A new object with these pages. *)
Definition alloc_object (t : RTR0MEMOBJTYPE) (cb : Z) (pages : list ptr) (fContiguous : bool) : RTR0MEMOBJLNX :=
  mo_set_contiguous fContiguous
    (mo_set_pages (Z.shiftr cb PAGE_SHIFT) pages (new_object (OFFSETOF_apPages (Z.shiftr cb PAGE_SHIFT)) t NULL cb)).
End spec.

(** * Lemmas *)

(** Reordering the ledger. *)
Ltac ledger L' :=
  match goal with |- wp _ _ _ ?L => replace L with L' by (clear; multiset_solver) end.

Section lemmas.
Context `{LinuxKernel}.

Lemma wp_fill p o (f : Z → ptr) (n : nat) (Q : unit → _ → _ → Prop) O L :
  O !! p = Some o → length (mo_apPages o) = n →
  Q tt (<[p := mo_set_pages (mo_cPages o) (f <$> up_to (Z.of_nat n)) o]> O) L →
  wp (each (up_to (Z.of_nat n)) (λ i, page_set p i (f i))) Q O L.
Proof.
  intros Hp Hlen HQ. eapply wp_mono.
  - apply (wp_each (λ k O' L', L' = L ∧
      O' = <[p := mo_set_pages (mo_cPages o) ((f <$> up_to (Z.of_nat k)) ++ drop k (mo_apPages o)) o]> O)).
    + intros k x O' L' Hk [-> ->]. apply lookup_up_to in Hk as [-> Hk].
      eapply wp_page_set; [apply lookup_insert_eq| |].
      { simpl. rewrite length_app, length_fmap, length_up_to, length_drop. lia. }
      simpl. split; [done|]. rewrite insert_insert_eq. f_equal. unfold mo_set_pages. simpl. f_equal.
      rewrite insert_app_r_alt by (rewrite length_fmap, length_up_to; lia).
      rewrite length_fmap, length_up_to, Nat2Z.id, Nat.sub_diag, up_to_S, fmap_app, <- (assoc_L (++)). f_equal. simpl.
      destruct (lookup_lt_is_Some_2 (mo_apPages o) k) as [pg Hpg]; [lia|]. by rewrite (drop_S _ _ _ Hpg).
    + split; [done|]. simpl. rewrite drop_0. rewrite insert_id; [done|]. rewrite Hp. by destruct o.
  - intros [] O' L' [-> ->]. rewrite length_up_to. rewrite drop_ge, (right_id_L [] (++)) by lia. done.
Qed.

(** The pages taken so far go back when one is missing. *)
Lemma wp_alloc_single p fl n : ∀ o pre (Q : bool → _ → _ → Prop) O L,
  O !! p = Some o → mo_apPages o = pre ++ replicate n NULL →
  (∀ pages, length pages = (length pre + n)%nat →
     Q true (<[p := mo_set_pages (mo_cPages o) pages o]> O) (L ⊎ lset (page_block <$> pages))) →
  (∀ o', Q false (<[p := o']> O) L) →
  wp (alloc_single p fl n (Z.of_nat (length pre))) Q O (L ⊎ lset (page_block <$> pre)).
Proof.
  induction n as [|n IH]; intros o pre Q O L Hp Hpre H1 H0; simpl.
  - apply wp_ret. specialize (H1 pre). rewrite Nat.add_0_r in H1. specialize (H1 eq_refl).
    simpl in Hpre. rewrite (right_id_L [] (++)) in Hpre. rewrite <- Hpre in H1.
    replace (<[p:=mo_set_pages (mo_cPages o) (mo_apPages o) o]> O) with O in H1; [by rewrite <- Hpre|].
    rewrite insert_id; [done|]. rewrite Hp. by destruct o.
  - assert (Hset : ∀ pg, <[Z.to_nat (Z.of_nat (length pre)) := pg]> (mo_apPages o) = (pre ++ [pg]) ++ replicate n NULL).
    { intros pg. rewrite Nat2Z.id, Hpre, insert_app_r_alt, Nat.sub_diag by lia. simpl. by rewrite <- (assoc_L (++)). }
    assert (Hlt : 0 ≤ Z.of_nat (length pre) < Z.of_nat (length (mo_apPages o))).
    { rewrite Hpre, length_app, length_replicate. lia. }
    apply wp_bind, wp_alloc_pages.
    + eapply wp_bind, wp_page_set; [done|done|]. rewrite Hset. rewrite Z.eqb_refl.
      apply wp_bind. unfold free_taken.
      replace (page_block <$> pre) with (page_block <$> take (length pre) ((pre ++ [NULL]) ++ replicate n NULL))
        by by rewrite <- (assoc_L (++)), take_app_length.
      eapply (wp_give_pages page_block __free_page p (mo_set_pages (mo_cPages o) ((pre ++ [NULL]) ++ replicate n NULL) o)); [intros; by apply wp_give|apply lookup_insert_eq| |].
      * simpl. rewrite !length_app. simpl. lia.
      * apply wp_ret, H0.
    + intros pg Hpg. eapply wp_bind, wp_page_set; [done|done|]. rewrite Hset, (proj2 (Z.eqb_neq _ _) Hpg).
      rewrite <- (assoc_L (⊎)). fold (page_block pg). rewrite <- lset_snoc.
      replace (Z.of_nat (length pre) + 1) with (Z.of_nat (length (pre ++ [pg]))) by (rewrite length_app; simpl; lia).
      change [page_block pg] with (page_block <$> [pg]). rewrite <- fmap_app.
      eapply IH; [apply lookup_insert_eq|done| |].
      * intros pages Hlen. rewrite length_app in Hlen. simpl in Hlen. rewrite insert_insert_eq. apply H1. lia.
      * intros o'. rewrite insert_insert_eq. apply H0.
Qed.

Lemma wp_FreePages p o (Q : unit → _ → _ → Prop) O L :
  O !! p = Some o → 0 ≤ mo_cPages o ≤ Z.of_nat (length (mo_apPages o)) →
  (∀ o', o' = mo_set_cPages 0 o → Q tt (<[p := o']> O) L) → wp (rtR0MemObjLinuxFreePages p) Q O (L ⊎ res_pages o).
Proof.
  intros Hp Hc HQ. unfold rtR0MemObjLinuxFreePages, res_pages. eapply wp_bind, wp_get; [done|].
  destruct (Z.eqb_spec (mo_cPages o) 0) as [E|E].
  - apply wp_ret. replace (L ⊎ ∅) with L by multiset_solver. specialize (HQ _ eq_refl).
    replace (<[p:=mo_set_cPages 0 o]> O) with O in HQ; [done|]. rewrite insert_id; [done|]. rewrite Hp.
    destruct o; simpl in *. by subst.
  - apply wp_bind. rewrite (assoc_L (⊎)). unfold pages_of. replace (mo_cPages o) with (Z.of_nat (Z.to_nat (mo_cPages o))) at 1 by lia.
    eapply (wp_give_pages KReserved ClearPageReserved p o); [|done|lia|].
    { intros. by apply wp_bind, wp_do, wp_give. }
    apply wp_bind. destruct (mo_fContiguous o); simpl.
    + destruct (mo_apPages o) as [|pg l] eqn:El; [simpl in Hc; lia|].
      eapply wp_bind, wp_page_get; [done|by rewrite El|]. apply wp_give. eapply wp_upd; [done|]. by apply HQ.
    + replace (mo_cPages o) with (Z.of_nat (Z.to_nat (mo_cPages o))) at 1 by lia.
      eapply (wp_give_pages page_block __free_page p o); [intros; by apply wp_give|done|lia|].
      eapply wp_upd; [done|]. by apply HQ.
Qed.

Lemma OFFSETOF_le cPages : 0 ≤ cPages < 2 ^ 52 → OFFSETOF_apPages 0 ≤ OFFSETOF_apPages cPages.
Proof. intros Hc. unfold OFFSETOF_apPages. rewrite !u64_small; lia. Qed.

Lemma new_object_pages cPages t pv cb :
  0 ≤ cPages < 2 ^ 52 → length (mo_apPages (new_object (OFFSETOF_apPages cPages) t pv cb)) = Z.to_nat cPages.
Proof.
  intros Hc. unfold new_object, OFFSETOF_apPages. simpl. rewrite length_replicate, !u64_small by lia. f_equal.
  replace (80 + 8 * cPages - (80 + 8 * 0)) with (cPages * 8) by lia. by rewrite Z.div_mul.
Qed.

Lemma cPages_pages (n : Z) : Z.shiftr (n * PAGE_SIZE) PAGE_SHIFT = n.
Proof. unfold PAGE_SIZE, PAGE_SHIFT. rewrite Z.shiftr_div_pow2 by lia. change (2 ^ 12) with 4096. by rewrite Z.div_mul. Qed.

(** Pages of a block in a row. *)
Definition block_pages (base : ptr) (n : nat) : list ptr := page_elem base <$> up_to (Z.of_nat n).

Lemma block_pages_hd n base : (0 < n)%nat → nth 0 (block_pages base n) NULL = base.
Proof.
  intros Hn. unfold block_pages. destruct n as [|k]; [lia|]. unfold up_to. rewrite seqZ_cons by lia. simpl. unfold page_elem. lia.
Qed.

Section pages.
Context (n : nat) (al : Z) (Q : Z * ptr → gmap ptr RTR0MEMOBJLNX → gmultiset kres → Prop).
Context (O : gmap ptr RTR0MEMOBJLNX) (L : gmultiset kres) (p : ptr) (o0 : RTR0MEMOBJLNX).
Context (Hn : (0 < n)%nat) (Hp : p ≠ NULL) (HO : O !! p = None) (Hlen : length (mo_apPages o0) = n).

(** What the pages themselves have been taken with. *)
Definition res_blocks (fc : bool) (pages : list ptr) : gmultiset kres :=
  if fc then {[+ KPages (nth 0 pages NULL) (rtR0MemObjLinuxOrder (Z.of_nat n)) +]} else lset (page_block <$> pages).

Lemma res_pages_blocks fc pages :
  length pages = n →
  res_pages (mo_set_contiguous fc (mo_set_pages (Z.of_nat n) pages o0)) = res_blocks fc pages ⊎ lset (KReserved <$> pages).
Proof.
  intros Hl. unfold res_pages, pages_of, res_blocks. simpl. rewrite Nat2Z.id, take_ge by lia.
  by replace (Z.of_nat n =? 0) with false by lia.
Qed.

Lemma wp_take_pages_all cb fl cont (R : option bool → gmap ptr RTR0MEMOBJLNX → gmultiset kres → Prop) :
  mo_apPages o0 = replicate n NULL → R None O L →
  (∀ pages fc, length pages = n → (cont = true → fc = true) →
     (fc = true → ∃ base, base ≠ NULL ∧ pages = block_pages base n) →
     R (Some fc) (<[p := mo_set_pages (Z.of_nat n) pages o0]> O) (L ⊎ {[+ KHeap p +]} ⊎ res_blocks fc pages)) →
  wp (take_pages p cb (Z.of_nat n) fl cont) R (<[p := mo_set_cPages (Z.of_nat n) o0]> O) (L ⊎ {[+ KHeap p +]}).
Proof.
  intros Hpages H0 H1. unfold take_pages. apply wp_bind.
  set (single := λ r : option bool, wp _ R).
  assert (Hs : ¬ cont = true → single (Some false) (<[p := mo_set_cPages (Z.of_nat n) o0]> O) (L ⊎ {[+ KHeap p +]})).
  { intros Hc. unfold single. apply wp_bind. rewrite Nat2Z.id.
    replace (L ⊎ {[+ KHeap p +]}) with (L ⊎ {[+ KHeap p +]} ⊎ lset (page_block <$> [])) by (unfold lset; simpl; multiset_solver).
    eapply (wp_alloc_single _ _ _ _ []); [apply lookup_insert_eq|done| |].
    - intros pages Hl. simpl. apply wp_ret. rewrite insert_insert_eq. by apply (H1 pages false).
    - intros o'. simpl. rewrite insert_insert_eq. eapply wp_bind, wp_Delete; [done|apply lookup_insert_eq|].
      apply wp_ret. by rewrite delete_insert_id. }
  destruct (cont || _) eqn:Ec; [|apply wp_ret, Hs; by destruct cont].
  apply wp_bind, wp_alloc_pages.
  - rewrite Z.eqb_refl. simpl. destruct cont; [|by apply wp_ret, Hs].
    eapply wp_bind, wp_Delete; [done|apply lookup_insert_eq|]. by apply wp_ret, wp_ret; rewrite delete_insert_id.
  - intros base Hb. rewrite (proj2 (Z.eqb_neq _ _) Hb). simpl.
    eapply wp_bind, wp_fill; [apply lookup_insert_eq|by simpl|]. apply wp_ret, wp_ret.
    rewrite insert_insert_eq. change (page_elem base <$> up_to (Z.of_nat n)) with (block_pages base n).
    specialize (H1 (block_pages base n) true). unfold res_blocks in H1.
    rewrite (block_pages_hd n base) in H1 by done.
    apply H1; [by unfold block_pages; rewrite length_fmap, length_up_to|done|]. intros _. by exists base.
Qed.

Lemma wp_finish_pages fc pages :
  length pages = n → (fc = true → ∃ base, base ≠ NULL ∧ pages = block_pages base n) →
  let o := mo_set_contiguous fc (mo_set_pages (Z.of_nat n) pages o0) in
  ((fc = true → PAGE_SIZE < al → Z.land (page_to_phys (nth 0 pages NULL)) (al - 1) = 0) →
   Q (VINF_SUCCESS, p) (<[p := o]> O) (L ⊎ {[+ KHeap p +]} ⊎ res_pages o)) →
  (PAGE_SIZE < al → Q (VERR_NO_MEMORY, NULL) (<[p := mo_set_cPages 0 o]> O) (L ⊎ {[+ KHeap p +]})) →
  wp (finish_pages p (Z.of_nat n) al fc) Q (<[p := mo_set_pages (Z.of_nat n) pages o0]> O)
    (L ⊎ {[+ KHeap p +]} ⊎ res_blocks fc pages).
Proof.
  intros Hl Hbase o HQ1 HQ2. unfold finish_pages.
  eapply wp_bind, wp_upd; [apply lookup_insert_eq|]. rewrite insert_insert_eq. fold o.
  eapply wp_bind, (wp_take_pages KReserved SetPageReserved p o);
    [intros; by apply wp_bind, wp_do, wp_take|apply lookup_insert_eq|simpl; lia|].
  replace (take n (mo_apPages o)) with pages by (simpl; by rewrite take_ge by lia).
  rewrite <- (assoc_L (⊎)), <- res_pages_blocks by done. fold o.
  destruct (fc && (PAGE_SIZE <? al)) eqn:E; [|apply wp_ret, HQ1; intros -> ?; simpl in E; lia].
  apply andb_true_iff in E as [-> Hal%Z.ltb_lt]. destruct pages as [|pg pages'] eqn:Ep; [simpl in Hl; lia|].
  eapply wp_bind, wp_page_get; [apply lookup_insert_eq|reflexivity|].
  destruct (Z.eqb_spec (Z.land (page_to_phys pg) (al - 1)) 0) as [Eq|Eq]; simpl; [by apply wp_ret, HQ1|].
  apply wp_bind. eapply wp_FreePages; [apply lookup_insert_eq|simpl in *; lia|].
  intros o' ->. apply wp_ret. rewrite insert_insert_eq. by apply HQ2.
Qed.
End pages.

(** How an allocation of pages ends: with nothing; with a new object; or, when the pages are
    not aligned as they should be, with the pages given back but the object left. *)
Lemma wp_AllocPages t (n : nat) al fl cont (Q : Z * ptr → _ → _ → Prop) O L :
  let cb := Z.of_nat n * PAGE_SIZE in
  (0 < n)%nat → cb < 2 ^ 64 → heap_ok O L →
  Q (VERR_NO_MEMORY, NULL) O L →
  (∀ p pages fc, p ≠ NULL → O !! p = None → KHeap p ∉ L → length pages = n → (cont = true → fc = true) →
     (fc = true → (∃ base, base ≠ NULL ∧ pages = block_pages base n)
                  ∧ (PAGE_SIZE < al → Z.land (page_to_phys (nth 0 pages NULL)) (al - 1) = 0)) →
     Q (VINF_SUCCESS, p) (<[p := alloc_object t cb pages fc]> O) (L ⊎ {[+ KHeap p +]} ⊎ res_pages (alloc_object t cb pages fc))) →
  (PAGE_SIZE < al → ∀ p pages fc, p ≠ NULL → O !! p = None → length pages = n →
     Q (VERR_NO_MEMORY, NULL) (<[p := mo_set_cPages 0 (alloc_object t cb pages fc)]> O) (L ⊎ {[+ KHeap p +]})) →
  wp (rtR0MemObjLinuxAllocPages t cb al fl cont) Q O L.
Proof.
  intros cb Hn Hcb Hok HQ0 HQ1 HQ2. unfold rtR0MemObjLinuxAllocPages. subst cb.
  assert (Hlt : Z.of_nat n < 2 ^ 52) by (unfold PAGE_SIZE in Hcb; lia). unfold alloc_object in *. rewrite cPages_pages in *.
  apply wp_bind, wp_New; [by apply OFFSETOF_le; lia|done|by apply wp_ret|].
  intros p Hp HO HL. rewrite (proj2 (Z.eqb_neq _ _) Hp).
  assert (Hlen : length (mo_apPages (new_object (OFFSETOF_apPages (Z.of_nat n)) t NULL (Z.of_nat n * PAGE_SIZE))) = n)
    by (rewrite new_object_pages; lia).
  eapply wp_bind, wp_upd; [apply lookup_insert_eq|]. rewrite insert_insert_eq.
  apply wp_bind, wp_take_pages_all; try done.
  - pose proof Hlen as Hl. simpl in Hl. rewrite length_replicate in Hl. simpl. by rewrite Hl.
  - by apply wp_ret.
  - intros pages fc Hl Hc Hbase. apply wp_finish_pages; try done.
    + intros Hal. apply HQ1; auto.
    + intros Hal. by apply HQ2.
Qed.

Lemma res_pages_ext o o' :
  mo_cPages o' = mo_cPages o → mo_apPages o' = mo_apPages o → mo_fContiguous o' = mo_fContiguous o → res_pages o' = res_pages o.
Proof. intros H1 H2 H3. unfold res_pages, pages_of. by rewrite H1, H2, H3. Qed.

(** Mapping pages into kernel space. *)
Lemma wp_VMap p o fx (Q : Z → _ → _ → Prop) O L :
  O !! p = Some o → mo_fMappedToRing0 o = false → (0 < length (mo_apPages o))%nat →
  (∀ pv b, Q VINF_SUCCESS (<[p := mo_set_pv pv b o]> O) (L ⊎ (if b then {[+ KVmap pv +]} else ∅))) →
  Q VERR_MAP_FAILED (<[p := mo_set_pv NULL false o]> O) L →
  wp (rtR0MemObjLinuxVMap p fx) Q O L.
Proof.
  intros Hp Hm Hl H1 H0. unfold rtR0MemObjLinuxVMap. eapply wp_bind, wp_get; [done|].
  destruct (fx || _ || _).
  - apply wp_bind, wp_vmap.
    + eapply wp_bind, wp_upd; [done|]. rewrite Z.eqb_refl, Hm. by apply wp_ret.
    + intros pv Hpv. eapply wp_bind, wp_upd; [done|]. rewrite (proj2 (Z.eqb_neq _ _) Hpv). apply wp_ret, (H1 pv true).
  - destruct (lookup_lt_is_Some_2 (mo_apPages o) 0) as [pg Hpg]; [done|].
    eapply wp_bind, wp_page_get; [done|done|]. eapply wp_bind, wp_upd; [done|]. rewrite Hm. apply wp_ret.
    specialize (H1 (phys_to_virt (page_to_phys pg)) false). cbn iota in H1. by rewrite (right_id_L ∅ (⊎)) in H1.
Qed.

Lemma wp_VUnmap p o (Q : unit → _ → _ → Prop) O L :
  O !! p = Some o → Q tt (<[p := mo_set_pv NULL false o]> O) L →
  wp (rtR0MemObjLinuxVUnmap p) Q O (L ⊎ (if mo_fMappedToRing0 o then {[+ KVmap (mo_pv o) +]} else ∅)).
Proof.
  intros Hp HQ. eapply wp_bind, wp_get; [done|]. apply wp_bind. destruct (mo_fMappedToRing0 o).
  - apply wp_give. eapply wp_upd; [done|done].
  - apply wp_ret. replace (L ⊎ ∅) with L by multiset_solver. eapply wp_upd; [done|done].
Qed.

Lemma add_obj_heap_ok p o st st' : add_obj p o st st' → heap_ok st.1 st.2 → heap_ok st'.1 st'.2.
Proof.
  intros (_&_&_&_&->) Hok q. simpl. destruct (decide (q = p)) as [->|Hne]; [multiset_solver|].
  rewrite lookup_insert_ne by done. intros Hq. specialize (Hok q Hq). multiset_solver.
Qed.

Lemma add_some_heap_ok st st' : rtc add_some st st' → heap_ok st.1 st.2 → heap_ok st'.1 st'.2.
Proof. induction 1 as [|st1 st2 st3 (p&o&Ha&_) _ IH]; [done|]. intros Hok. by eapply IH, add_obj_heap_ok. Qed.

(** The objects made of pages. *)
Section alloc.
Context (t : RTR0MEMOBJTYPE) (n : nat) (O : gmap ptr RTR0MEMOBJLNX) (L : gmultiset kres).
Let cb := Z.of_nat n * PAGE_SIZE.
Context (Hn : (0 < n)%nat) (Hcb : cb < 2 ^ 64) (Hok : heap_ok O L) (Ht : page_type t = true).

Lemma alloc_object_wf pages fc : length pages = n → obj_wf (alloc_object t cb pages fc).
Proof.
  intros Hl. unfold alloc_object, cb. rewrite cPages_pages. split; simpl; [done|by destruct t|lia|by intros ->|].
  intros _ _. by rewrite cPages_pages.
Qed.

(** With its mapping and the member [u] completed. *)
Lemma add_alloc_object p pages fc pv b w fa :
  p ≠ NULL → O !! p = None → length pages = n →
  let o := mo_set_u w fa 0 (mo_set_pv pv b (alloc_object t cb pages fc)) in
  add_obj p o (O, L)
    (<[p := o]> O, L ⊎ {[+ KHeap p +]} ⊎ ((if b then {[+ KVmap pv +]} else ∅) ⊎ res_pages (alloc_object t cb pages fc))).
Proof.
  intros Hp HO Hl o. split_and!; [done|done| | |].
  - destruct (alloc_object_wf pages fc Hl) as [H1 H2 H3 H4 H5]. split; try done. simpl. intros ->. done.
  - done.
  - f_equal. f_equal. unfold owned. unfold o at 1. simpl. by destruct t.
Qed.

Lemma created_new p o r (P : RTR0MEMOBJLNX → Prop) :
  add_obj p o (O, L) r → P o → ∀ b, created b P (O, L) (VINF_SUCCESS, p) r.1 r.2.
Proof. intros Ha HP b. exists (O, L). split_and!; [done|done|]. left. split; [done|]. exists o. by destruct r. Qed.

Lemma created_fail rc b P : RT_FAILURE rc = true → created b P (O, L) (rc, NULL) O L.
Proof. intros Hrc. exists (O, L). split_and!; [done|done|]. by right. Qed.

Section with_pages.
Context (p : ptr) (pages : list ptr) (fc : bool) (Hp : p ≠ NULL) (HO : O !! p = None) (Hl : length pages = n).
Let o := alloc_object t cb pages fc.

(** Objects without a mapping. *)
Lemma created_pages e (P : RTR0MEMOBJLNX → Prop) w fa :
  P (mo_set_u w fa 0 o) →
  created e P (O, L) (VINF_SUCCESS, p) (<[p := mo_set_u w fa 0 o]> O) (L ⊎ {[+ KHeap p +]} ⊎ res_pages o).
Proof.
  intros HP. pose proof (add_alloc_object p pages fc NULL false w fa Hp HO Hl) as Ha. cbv zeta iota in Ha.
  rewrite (left_id_L ∅ (⊎)) in Ha. by apply (created_new p _ _ P Ha).
Qed.

(** The object that is left when the pages are not aligned. *)
Lemma add_stale : add_some (O, L) (<[p := mo_set_cPages 0 o]> O, L ⊎ {[+ KHeap p +]}).
Proof.
  exists p, (mo_set_cPages 0 o). split; [|split_and!; [done|simpl; unfold cb, PAGE_SIZE; lia|done]]. split_and!; [done|done| |done|].
  - destruct (alloc_object_wf pages fc Hl) as [H1 H2 H3 H4 H5]. split; simpl; [done|done|lia|by intros ->|done].
  - f_equal. unfold owned, o. simpl. clear -Ht. destruct t; try done; simpl; clear; multiset_solver.
Qed.

(** Giving up: the pages and the object go. *)
Lemma wp_free_delete {A} pv (k : M A) (Q : A → _ → _ → Prop) :
  wp k Q O L →
  wp (rtR0MemObjLinuxFreePages p ;;m rtR0MemObjDelete p ;;m k) Q (<[p := mo_set_pv pv false o]> O)
    (L ⊎ {[+ KHeap p +]} ⊎ res_pages o).
Proof.
  intros HQ. apply wp_bind. rewrite <- (res_pages_ext o (mo_set_pv pv false o)) by done.
  eapply wp_FreePages; [apply lookup_insert_eq|by eapply alloc_object_wf|].
  intros o' ->. rewrite insert_insert_eq. eapply wp_bind, wp_Delete; [done|apply lookup_insert_eq|]. by rewrite delete_insert_id.
Qed.

Lemma wp_vmap_or_free fx (complete : ptr → M unit) (P : RTR0MEMOBJLNX → Prop) :
  (∀ pv b (Q : unit → _ → _ → Prop) O' L', O' !! p = Some (mo_set_pv pv b o) →
     (∀ w, P (mo_set_u w false 0 (mo_set_pv pv b o)) → Q tt (<[p := mo_set_u w false 0 (mo_set_pv pv b o)]> O') L') →
     wp (complete p) Q O' L') →
  wp (vmap_or_free (VINF_SUCCESS, p) fx complete) (created true P (O, L)) (<[p := o]> O) (L ⊎ {[+ KHeap p +]} ⊎ res_pages o).
Proof.
  intros Hcomp. unfold vmap_or_free. simpl. apply wp_bind.
  eapply wp_VMap; [apply lookup_insert_eq|done|simpl; lia| |].
  - intros pv b. simpl. rewrite insert_insert_eq. eapply wp_bind, Hcomp; [apply lookup_insert_eq|].
    intros w HP. apply wp_ret. rewrite insert_insert_eq.
    rewrite <- (assoc_L (⊎)), (comm_L (⊎) (res_pages o)).
    by eapply (created_new p _ _ P (add_alloc_object p pages fc pv b w false Hp HO Hl)).
  - rewrite insert_insert_eq. simpl. by apply wp_free_delete, wp_ret, created_fail.
Qed.
End with_pages.
End alloc.

(** ** The creating functions *)

Lemma created_after e P st st1 r O' L' :
  rtc add_some st st1 → (e = true → st1 = st) → created e P st1 r O' L' → created e P st r O' L'.
Proof.
  intros Hs He (st2&Hs2&He2&H2). exists st2. split; [by etrans|]. split; [|done]. intros E. by rewrite He2, He.
Qed.

Lemma created_intro e (P : RTR0MEMOBJLNX → Prop) O L L' p o :
  p ≠ NULL → O !! p = None → obj_wf o → no_links o → P o → L' = L ⊎ {[+ KHeap p +]} ⊎ owned o →
  created e P (O, L) (VINF_SUCCESS, p) (<[p := o]> O) L'.
Proof. intros Hp HO Hwf Hl HP ->. exists (O, L). split_and!; [done|done|]. left. split; [done|]. by exists o. Qed.

(** After a failure the next way is tried. *)
Lemma wp_retry e P O L r O' L' (k : M (Z * ptr)) :
  created e P (O, L) r O' L' → heap_ok O L →
  (∀ O1 L1, heap_ok O1 L1 → wp k (created e P (O1, L1)) O1 L1) →
  wp (if RT_FAILURE r.1 : bool then k else kret r) (created e P (O, L)) O' L'.
Proof.
  intros (st1&Hs&He&[[Hr Hadd]|(Hr&Hn&<-)]) Hok Hk.
  - rewrite Hr. simpl. apply wp_ret. exists st1. eauto.
  - rewrite Hr. eapply wp_mono; [apply Hk|].
    + apply (add_some_heap_ok _ _ Hs Hok).
    + intros a O2 L2. by apply created_after.
Qed.

(** The pages of the object follow one another, and its physical address is where the first
    one is. *)
Definition cont_ok (o : RTR0MEMOBJLNX) : Prop :=
  mo_uWord0 o = page_to_phys (nth 0 (mo_apPages o) NULL)
  ∧ ∃ base, mo_apPages o = block_pages base (Z.to_nat (mo_cPages o)).

Section creating.
Context (n : nat).
Let cb := Z.of_nat n * PAGE_SIZE.
Context (Hn : (0 < n)%nat) (Hcb : cb < 2 ^ 64).

Lemma complete_nothing t p pages fc pv b (Q : unit → gmap ptr RTR0MEMOBJLNX → gmultiset kres → Prop) O' L' :
  let o0 := mo_set_pv pv b (alloc_object t cb pages fc) in
  O' !! p = Some o0 → (∀ w, is_obj t cb (mo_set_u w false 0 o0) → Q tt (<[p := mo_set_u w false 0 o0]> O') L') →
  wp (kret tt) Q O' L'.
Proof. intros o0 Hp HQ. apply wp_ret. specialize (HQ 0). rewrite insert_id in HQ; [by apply HQ|done]. Qed.

(** The first way fails, the second is tried. *)
Lemma wp_AllocPages_two t fl1 fl2 cont (k : Z * ptr → M (Z * ptr)) P O L :
  heap_ok O L →
  (∀ p pages fc, p ≠ NULL → O !! p = None → length pages = n →
     (cont = true → fc = true) → (fc = true → ∃ base, pages = block_pages base n) →
     let o := alloc_object t cb pages fc in
     wp (k (VINF_SUCCESS, p)) (created true P (O, L)) (<[p := o]> O) (L ⊎ {[+ KHeap p +]} ⊎ res_pages o)) →
  k (VERR_NO_MEMORY, NULL) = kret (VERR_NO_MEMORY, NULL) →
  wp (r ←m rtR0MemObjLinuxAllocPages t cb PAGE_SIZE fl1 cont ;;
      r ←m (if RT_FAILURE r.1 then rtR0MemObjLinuxAllocPages t cb PAGE_SIZE fl2 cont else kret r) ;;
      k r) (created true P (O, L)) O L.
Proof.
  intros Hok Hk Hk0.
  assert (Hk' : ∀ p pages fc, p ≠ NULL → O !! p = None → KHeap p ∉ L → length pages = n → (cont = true → fc = true) →
    (fc = true → (∃ base, base ≠ NULL ∧ pages = block_pages base n) ∧ (PAGE_SIZE < PAGE_SIZE →
       Z.land (page_to_phys (nth 0 pages NULL)) (PAGE_SIZE - 1) = 0)) →
    wp (k (VINF_SUCCESS, p)) (created true P (O, L)) (<[p := alloc_object t cb pages fc]> O)
      (L ⊎ {[+ KHeap p +]} ⊎ res_pages (alloc_object t cb pages fc))).
  { intros p pages fc Hp HO _ Hl Hc Hb. apply Hk; [done..|]. intros Hfc. destruct (Hb Hfc) as [(base&_&Hbase) _]. by exists base. }
  apply wp_bind, wp_AllocPages; [done|done|done| | |done].
  - simpl. apply wp_bind, wp_AllocPages; [done|done|done| |exact Hk'|done]. rewrite Hk0. by apply wp_ret, created_fail.
  - intros. simpl. apply wp_bind, wp_ret. by apply Hk'.
Qed.

Lemma create_AllocPage fx O L :
  heap_ok O L → wp (rtR0MemObjNativeAllocPage cb fx) (created true (is_obj RTR0MEMOBJTYPE_PAGE cb) (O, L)) O L.
Proof.
  intros Hok. apply wp_bind, wp_AllocPages; [done|done|done| | |done].
  - by apply wp_ret, created_fail.
  - intros p pages fc Hp HO _ Hl _ _. apply wp_vmap_or_free; try done. intros. by eapply complete_nothing.
Qed.

Lemma create_AllocLow fx O L :
  heap_ok O L → wp (rtR0MemObjNativeAllocLow cb fx) (created true (is_obj RTR0MEMOBJTYPE_LOW cb) (O, L)) O L.
Proof.
  intros Hok. apply wp_AllocPages_two; [done| |done]. intros p pages fc Hp HO Hl _ _ o.
  apply wp_vmap_or_free; try done. intros. by eapply complete_nothing.
Qed.

Lemma create_AllocCont fx O L :
  heap_ok O L →
  wp (rtR0MemObjNativeAllocCont cb fx) (created true (λ o, is_obj RTR0MEMOBJTYPE_CONT cb o ∧ cont_ok o) (O, L)) O L.
Proof.
  intros Hok. apply wp_AllocPages_two; [done| |done]. intros p pages fc Hp HO Hl Hc Hb o.
  apply wp_vmap_or_free; try done. intros pv b Q O' L' HO' HQ.
  destruct pages as [|pg pages'] eqn:Ep; [simpl in Hl; lia|].
  eapply wp_bind, wp_page_get; [done|reflexivity|]. eapply wp_upd; [done|]. apply HQ. split; [done|]. split; [done|].
  destruct (Hb (Hc eq_refl)) as [base Hbase]. exists base. simpl. unfold cb. by rewrite cPages_pages, Nat2Z.id.
Qed.

(** With a large alignment the object is lost when the pages are not aligned. *)
Lemma create_AllocPhysSub2 t al hi fl O L :
  heap_ok O L → t = RTR0MEMOBJTYPE_PHYS ∨ t = RTR0MEMOBJTYPE_PHYS_NC →
  wp (rtR0MemObjLinuxAllocPhysSub2 t cb al hi fl)
    (created (al <=? PAGE_SIZE) (λ o, is_obj t cb o ∧ (t = RTR0MEMOBJTYPE_PHYS → cont_ok o)) (O, L)) O L.
Proof.
  intros Hok Ht. assert (Hpt : page_type t = true) by by destruct Ht as [->| ->].
  apply wp_bind, wp_AllocPages; [done|done|done| | |].
  - by apply wp_ret, created_fail.
  - intros p pages fc Hp HO _ Hl Hc Hb. simpl. eapply wp_bind, wp_get; [apply lookup_insert_eq|].
    destruct (negb _ && _).
    + replace (<[p := alloc_object t cb pages fc]> O) with (<[p := mo_set_pv NULL false (alloc_object t cb pages fc)]> O) by done.
      by apply wp_free_delete; [..|apply wp_ret, created_fail].
    + apply wp_bind. destruct Ht as [-> | ->]; simpl.
      * destruct pages as [|pg pages'] eqn:Ep; [simpl in Hl; lia|].
        eapply wp_bind, wp_page_get; [apply lookup_insert_eq|reflexivity|]. eapply wp_upd; [apply lookup_insert_eq|].
        apply wp_ret. rewrite insert_insert_eq. apply created_pages; try done. split; [done|]. intros _. split; [done|].
        destruct (Hb (Hc eq_refl)) as [(base&_&Hbase) _]. exists base. simpl. unfold cb. by rewrite cPages_pages, Nat2Z.id.
      * apply wp_ret, wp_ret. set (o := alloc_object _ _ _ _).
        change (<[p := o]> O) with (<[p := mo_set_u 0 false 0 o]> O). by apply created_pages.
  - intros Hal p pages fc Hp HO Hl. simpl. apply wp_ret.
    eexists. split_and!; [by apply rtc_once, add_stale|intros ?; lia|by right].
Qed.
Lemma create_AllocPhysSub t al hi O L :
  heap_ok O L → t = RTR0MEMOBJTYPE_PHYS ∨ t = RTR0MEMOBJTYPE_PHYS_NC →
  wp (rtR0MemObjLinuxAllocPhysSub t cb al hi)
    (created (al <=? PAGE_SIZE) (λ o, is_obj t cb o ∧ (t = RTR0MEMOBJTYPE_PHYS → cont_ok o)) (O, L)) O L.
Proof.
  intros Hok Ht. unfold rtR0MemObjLinuxAllocPhysSub. cbv zeta.
  destruct (hi =? NIL_RTHCPHYS); [by apply create_AllocPhysSub2|].
  destruct (hi <=? 0x100000 * 16); [by apply create_AllocPhysSub2|].
  apply wp_bind. eapply wp_mono; [by apply create_AllocPhysSub2|]. intros r1 O1 L1 H1.
  apply wp_bind. eapply wp_mono; [apply (wp_retry _ _ _ _ _ _ _ _ H1 Hok); intros; by apply create_AllocPhysSub2|].
  intros r2 O2 L2 H2.
  apply wp_bind. eapply wp_mono; [apply (wp_retry _ _ _ _ _ _ _ _ H2 Hok); intros; by apply create_AllocPhysSub2|].
  intros r3 O3 L3 H3. apply (wp_retry _ _ _ _ _ _ _ _ H3 Hok). intros. by apply create_AllocPhysSub2.
Qed.

Lemma create_EnterPhys Phys pol O L :
  heap_ok O L → wp (rtR0MemObjNativeEnterPhys Phys cb pol)
    (created true (λ o, is_obj RTR0MEMOBJTYPE_PHYS cb o ∧ mo_uWord0 o = Phys ∧ mo_cPages o = 0) (O, L)) O L.
Proof.
  intros Hok. apply wp_bind, wp_New; [done|done|by apply wp_ret, created_fail|].
  intros p Hp HO _. rewrite (proj2 (Z.eqb_neq _ _) Hp). eapply wp_bind, wp_upd; [apply lookup_insert_eq|].
  rewrite insert_insert_eq. apply wp_ret, created_intro; [done|done| |done|done|].
  - by split; simpl; [| |lia| |].
  - clear. unfold owned. simpl. multiset_solver.
Qed.
End creating.

(** ** Locking *)

Lemma wp_unpin pg (Q : unit → _ → _ → Prop) O L : Q tt O L → wp (unpin pg) Q O (L ⊎ {[+ KPin pg +]}).
Proof.
  intros HQ. apply wp_bind, wp_kget. intros [].
  - by apply wp_bind, wp_ret, wp_give.
  - by apply wp_bind, wp_do, wp_give.
Qed.

Lemma wp_take_pins pages (Q : unit → _ → _ → Prop) O L :
  Q tt O (L ⊎ lset (KPin <$> pages)) → wp (each pages (λ pg, take_res (KPin pg))) Q O L.
Proof.
  revert L. induction pages as [|pg pages IH]; intros L HQ.
  - apply wp_ret. by replace (L ⊎ lset (KPin <$> [])) with L in HQ by (unfold lset; simpl; multiset_solver).
  - apply wp_bind, wp_take, IH. by replace (L ⊎ {[+ KPin pg +]} ⊎ lset (KPin <$> pages)) with (L ⊎ lset (KPin <$> pg :: pages))
      by (unfold lset; simpl; multiset_solver).
Qed.

Lemma wp_get_user_pages p o R3Ptr (n : nat) (Q : _ → _ → _ → Prop) O L :
  O !! p = Some o → length (mo_apPages o) = n →
  (∀ rc vmas pages, rc ≤ Z.of_nat n → length pages = n →
     Q (rc, vmas) (<[p := mo_set_pages (mo_cPages o) pages o]> O) (L ⊎ lset (KPin <$> take (Z.to_nat rc) pages))) →
  wp (get_user_pages p R3Ptr (Z.of_nat n)) Q O L.
Proof.
  intros Hp Hl HQ w. unfold get_user_pages. simpl. destruct (k_get_user_pages _ _ _) as [[[rc0 pages0] vmas] w'].
  set (rc := if Z.of_nat n <? rc0 then -1 else rc0). assert (Hrc : rc ≤ Z.of_nat n) by (unfold rc; case_match; lia). clearbody rc.
  set (pages := take _ (pages0 ++ _)).
  assert (Hpl : length pages = Z.to_nat rc) by (unfold pages; rewrite length_take, length_app, length_replicate; lia).
  specialize (HQ rc vmas (pages ++ drop (Z.to_nat rc) (mo_apPages o)) Hrc).
  rewrite length_app, length_drop, Hpl, Hl in HQ. rewrite <- Hpl, take_app_length in HQ.
  assert (Hw : wp (each pages (λ pg, take_res (KPin pg)) ;;m
     obj_upd p (λ o, mo_set_pages (mo_cPages o) (pages ++ drop (Z.to_nat rc) (mo_apPages o)) o) ;;m
     kret (rc, vmas)) Q O L); [|apply (Hw w')].
  apply wp_bind, wp_take_pins. eapply wp_bind, wp_upd; [done|]. apply wp_ret. rewrite <- Hpl. apply HQ. lia.
Qed.

Lemma create_LockUser c (n : nat) R3Ptr fa proc O L :
  let cb := Z.of_nat n * PAGE_SIZE in
  Z.of_nat n < 2 ^ 31 → heap_ok O L → fMm c = true → NIL_RTR0PROCESS ≠ hSelf c →
  wp (rtR0MemObjNativeLockUser c R3Ptr cb fa proc)
    (created true (λ o, is_obj RTR0MEMOBJTYPE_LOCK cb o ∧ mo_pv o = R3Ptr ∧ mo_uWord0 o = proc ∧ mo_cPages o = Z.of_nat n) (O, L)) O L.
Proof.
  intros cb Hn Hok Hmm Hnil. unfold rtR0MemObjNativeLockUser. subst cb. rewrite cPages_pages.
  replace (s32 (Z.of_nat n)) with (Z.of_nat n) by (unfold s32; rewrite u32_small by lia; by replace (Z.of_nat n <? 2 ^ 31) with true by lia).
  unfold rtR0ProcessToLinuxTask. destruct (Z.eqb_spec proc (hSelf c)) as [->|]; simpl; [|by apply wp_ret, created_fail].
  destruct (negb _); [by apply wp_ret, created_fail|].
  apply wp_bind, wp_New; [apply OFFSETOF_le; lia|done|by apply wp_ret, created_fail|].
  intros p Hp HO HL. rewrite (proj2 (Z.eqb_neq _ _) Hp). set (o0 := new_object _ _ _ _).
  assert (Hlen : length (mo_apPages o0) = n) by (unfold o0; rewrite new_object_pages; lia).
  apply wp_bind, wp_RTMemAlloc.
  { rewrite Z.eqb_refl. eapply wp_bind, wp_Delete; [done|apply lookup_insert_eq|]. apply wp_ret. rewrite delete_insert_id by done. by apply created_fail. }
  intros v Hv _. rewrite (proj2 (Z.eqb_neq _ _) Hv), Hmm. simpl. apply wp_bind, wp_take.
  eapply wp_bind, wp_get_user_pages; [apply lookup_insert_eq|done|]. intros rc vmas pages Hrc Hl. rewrite insert_insert_eq.
  set (o1 := mo_set_pages _ pages o0). destruct (Z.eqb_spec rc (Z.of_nat n)) as [->|Hne].
  - apply wp_bind. eapply wp_mono.
    + apply (wp_each (λ k O' L', O' = <[p := o1]> O ∧ L' = L ⊎ {[+ KHeap p +]} ⊎ {[+ KHeap v +]} ⊎ {[+ KSem false +]} ⊎ lset (KPin <$> take (Z.to_nat (Z.of_nat n)) pages))); [|done].
      intros k x O' L' Hk [-> ->]. apply lookup_down_from in Hk as [-> Hk].
      destruct (lookup_lt_is_Some_2 pages (n - 1 - k)) as [pg Hpg]; [lia|].
      eapply wp_bind, wp_page_get; [apply lookup_insert_eq|by rewrite Nat2Z.id|]. by apply wp_bind, wp_do, wp_do.
    + intros [] O' L' [-> ->]. rewrite Nat2Z.id, take_ge by lia. set (pins := lset _).
      ledger (L ⊎ {[+ KHeap p +]} ⊎ pins ⊎ {[+ KHeap v +]} ⊎ {[+ KSem false +]}).
      apply wp_bind, wp_give. apply wp_bind, wp_RTMemFree; [done|].
      eapply wp_bind, wp_upd; [apply lookup_insert_eq|]. rewrite insert_insert_eq.
      eapply wp_bind, wp_upd; [apply lookup_insert_eq|]. rewrite insert_insert_eq.
      apply wp_ret, created_intro; [done|done| |done|by split_and!|].
      * split; simpl; [done|done|lia|done|]. intros _ _. by rewrite cPages_pages.
      * unfold owned, pages_of. simpl. rewrite (proj2 (Z.eqb_neq _ _)) by congruence. simpl. by rewrite Nat2Z.id, take_ge by lia.
  - apply wp_bind. rewrite (down_from_nat rc).
    apply (wp_give_pages KPin unpin p o1); [by intros; apply wp_unpin|apply lookup_insert_eq|simpl; lia|].
    apply wp_bind, wp_give. apply wp_bind, wp_RTMemFree; [done|].
    eapply wp_bind, wp_Delete; [done|apply lookup_insert_eq|]. apply wp_ret. rewrite delete_insert_id by done. by apply created_fail.
Qed.

Lemma wp_gather p o lin (n : nat) : ∀ pb (Q : bool → _ → _ → Prop) O L,
  O !! p = Some o → (n ≤ length (mo_apPages o))%nat →
  (∀ b pages, length pages = length (mo_apPages o) → Q b (<[p := mo_set_pages (mo_cPages o) pages o]> O) L) →
  wp (gather_pages p lin pb n) Q O L.
Proof.
  revert o. induction n as [|n IH]; intros o pb Q O L Hp Hn HQ; simpl.
  - apply wp_ret. specialize (HQ true _ eq_refl). rewrite insert_id in HQ; [done|]. rewrite Hp. by destruct o.
  - assert (Hrest : ∀ pPage, wp (if negb lin && (pPage =? NULL) then kret false
        else page_set p (Z.of_nat n) pPage ;;m gather_pages p lin (u64 (pb - PAGE_SIZE)) n) Q O L).
    { intros pPage. destruct (_ && _).
      - apply wp_ret. specialize (HQ false _ eq_refl). rewrite insert_id in HQ; [done|]. rewrite Hp. by destruct o.
      - eapply wp_bind, wp_page_set; [done|lia|]. eapply IH; [apply lookup_insert_eq|simpl; rewrite length_insert; lia|].
        intros b pages Hl. rewrite insert_insert_eq. apply HQ. simpl in Hl. by rewrite length_insert in Hl. }
    apply wp_bind. destruct lin; [apply wp_ret, Hrest|]. apply wp_kget. intros a. apply Hrest.
Qed.

Lemma create_LockKernel pv (n : nat) fa O L :
  let cb := Z.of_nat n * PAGE_SIZE in
  cb < 2 ^ 64 → heap_ok O L →
  wp (rtR0MemObjNativeLockKernel pv cb fa)
    (created true (λ o, is_obj RTR0MEMOBJTYPE_LOCK cb o ∧ mo_pv o = pv ∧ mo_cPages o = Z.of_nat n) (O, L)) O L.
Proof.
  intros cb Hcb Hok. unfold rtR0MemObjNativeLockKernel. subst cb. rewrite cPages_pages. unfold PAGE_SIZE in Hcb.
  destruct (_ || _); [by apply wp_ret, created_fail|].
  apply wp_bind, wp_New; [apply OFFSETOF_le; lia|done|by apply wp_ret, created_fail|].
  intros p Hp HO _. rewrite (proj2 (Z.eqb_neq _ _) Hp). set (o0 := new_object _ _ _ _).
  assert (Hlen : length (mo_apPages o0) = n) by (unfold o0; rewrite new_object_pages; lia).
  eapply wp_bind, wp_gather; [apply lookup_insert_eq|rewrite Nat2Z.id; lia|]. intros [] pages Hl; rewrite insert_insert_eq.
  - eapply wp_bind, wp_upd; [apply lookup_insert_eq|]. rewrite insert_insert_eq.
    eapply wp_bind, wp_upd; [apply lookup_insert_eq|]. rewrite insert_insert_eq.
    apply wp_ret, created_intro; [done|done| |done|done|].
    + split; simpl; [done|done|lia|done|]. intros _ _. by rewrite cPages_pages.
    + clear. unfold owned. simpl. multiset_solver.
  - eapply wp_bind, wp_Delete; [done|apply lookup_insert_eq|]. apply wp_ret. rewrite delete_insert_id by done. by apply created_fail.
Qed.

(** ** Reserving *)

Lemma create_ReserveKernel pvFixed cb al O L :
  heap_ok O L →
  wp (rtR0MemObjNativeReserveKernel pvFixed cb al)
    (created true (λ o, is_obj RTR0MEMOBJTYPE_RES_VIRT cb o ∧ mo_uWord0 o = NIL_RTR0PROCESS) (O, L)) O L.
Proof.
  intros Hok. unfold rtR0MemObjNativeReserveKernel. destruct (negb _); [by apply wp_ret, created_fail|].
  destruct (PAGE_SIZE <? al); [by apply wp_ret, created_fail|].
  apply wp_bind, wp_alloc_pages; [rewrite Z.eqb_refl; by apply wp_ret, created_fail|].
  intros pg Hpg. rewrite (proj2 (Z.eqb_neq _ _) Hpg).
  set (fin := λ pMemLnx : ptr, if negb (pMemLnx =? NULL) then _ else _).
  assert (Hfail : wp (fin NULL) (created true (λ o, is_obj RTR0MEMOBJTYPE_RES_VIRT cb o ∧ mo_uWord0 o = NIL_RTR0PROCESS) (O, L)) O (L ⊎ {[+ KPages pg 0 +]})).
  { unfold fin. simpl. by apply wp_bind, wp_give, wp_ret, created_fail. }
  apply wp_bind, wp_RTMemAlloc; [by apply wp_bind, wp_ret|]. intros v Hv _. rewrite (proj2 (Z.eqb_neq _ _) Hv).
  apply wp_bind, wp_bind, wp_vmap.
  - by apply wp_bind, wp_RTMemFree, wp_ret.
  - intros pv Hpv. ledger (L ⊎ {[+ KPages pg 0 +]} ⊎ {[+ KVmap pv +]} ⊎ {[+ KHeap v +]}).
    apply wp_bind, wp_RTMemFree; [done|]. rewrite (proj2 (Z.eqb_neq _ _) Hpv).
    apply wp_bind, wp_New; [done| |by apply wp_bind, wp_give, wp_ret|].
    { intros q Hq. specialize (Hok q Hq). multiset_solver. }
    intros p Hp HO _. rewrite (proj2 (Z.eqb_neq _ _) Hp). simpl.
    eapply wp_bind, wp_upd; [apply lookup_insert_eq|]. rewrite insert_insert_eq.
    eapply wp_bind, wp_upd; [apply lookup_insert_eq|]. rewrite insert_insert_eq.
    eapply wp_bind, wp_page_set; [apply lookup_insert_eq|done|]. rewrite insert_insert_eq. apply wp_ret.
    unfold fin. rewrite (proj2 (Z.eqb_neq _ _) Hp). apply wp_ret, created_intro; [done|done| |done|done|].
    + split; [done|done|split; vm_compute; congruence|intros _ _; vm_compute; lia|done].
    + clear. unfold owned. simpl. multiset_solver.
Qed.

Lemma wp_DoMmap fixed cb al prot (Q : ptr → _ → _ → Prop) O L :
  Q PTR_ANY O L → (∀ pv, pv ≠ PTR_ANY → Q pv O (L ⊎ {[+ KMmap pv cb +]})) → wp (rtR0MemObjLinuxDoMmap fixed cb al prot) Q O L.
Proof.
  intros H0 H1. apply wp_bind.
  assert (Hk : ∀ p, Z.land p PAGE_OFFSET_MASK = 0 → p ≠ PTR_ANY) by by intros p Hp ->.
  destruct (negb _); (apply wp_do_mmap; intros p Hp; apply wp_ret;
    [by rewrite (proj2 (Z.eqb_neq _ _) Hp)|rewrite (proj2 (Z.eqb_eq _ _) Hp); by apply H1, Hk]).
Qed.

Lemma create_ReserveUser c fixed cb al proc O L :
  heap_ok O L → fMm c = true → NIL_RTR0PROCESS ≠ hSelf c →
  wp (rtR0MemObjNativeReserveUser c fixed cb al proc)
    (created true (λ o, is_obj RTR0MEMOBJTYPE_RES_VIRT cb o ∧ mo_uWord0 o = proc) (O, L)) O L.
Proof.
  intros Hok Hmm Hnil. unfold rtR0MemObjNativeReserveUser, rtR0ProcessToLinuxTask.
  destruct (Z.eqb_spec proc (hSelf c)) as [->|]; simpl; [|by apply wp_ret, created_fail].
  destruct (PAGE_SIZE <? al); [by apply wp_ret, created_fail|]. rewrite Hmm. simpl.
  apply wp_bind, wp_take, wp_bind, wp_DoMmap; [by apply wp_bind, wp_give, wp_ret, created_fail|].
  intros pv Hpv. ledger (L ⊎ {[+ KMmap pv cb +]} ⊎ {[+ KSem true +]}). apply wp_bind, wp_give.
  rewrite (proj2 (Z.eqb_neq _ _) Hpv). apply wp_bind, wp_New; [done| | |].
  - intros q Hq. specialize (Hok q Hq). multiset_solver.
  - rewrite Z.eqb_refl. apply wp_bind, wp_take. ledger (L ⊎ {[+ KSem true +]} ⊎ {[+ KMmap pv cb +]}).
    by apply wp_bind, wp_give, wp_bind, wp_give, wp_ret, created_fail.
  - intros p Hp HO _. rewrite (proj2 (Z.eqb_neq _ _) Hp). eapply wp_bind, wp_upd; [apply lookup_insert_eq|]. rewrite insert_insert_eq.
    apply wp_ret, created_intro; [done|done| |done|done|].
    + split; simpl; [done|done|lia|congruence|done].
    + unfold owned. simpl. rewrite (proj2 (Z.eqb_neq _ _)) by congruence. simpl. clear. multiset_solver.
Qed.

(** ** Mapping *)

Lemma create_MapKernel pMap om fixed al prot off cbSub O L :
  heap_ok O L → O !! pMap = Some om →
  wp (rtR0MemObjNativeMapKernel pMap fixed al prot off cbSub)
    (created true (λ o, is_obj RTR0MEMOBJTYPE_MAPPING (mo_cb om) o ∧ mo_uWord0 o = NIL_RTR0PROCESS ∧ mo_pv o ≠ NULL) (O, L)) O L.
Proof.
  intros Hok Hm. unfold rtR0MemObjNativeMapKernel. destruct (negb _); [by apply wp_ret, created_fail|].
  destruct (negb _); [by apply wp_ret, created_fail|]. destruct (PAGE_SIZE <? al); [by apply wp_ret, created_fail|].
  eapply wp_bind, wp_get; [done|]. apply wp_bind, wp_New; [done|done|by apply wp_ret, created_fail|].
  intros p Hp HO _. rewrite (proj2 (Z.eqb_neq _ _) Hp). set (P := λ o : RTR0MEMOBJLNX, _ ∧ _).
  assert (Hfail : ∀ rc o, RT_FAILURE rc = true →
    wp (if RT_SUCCESS rc then obj_upd p (mo_set_word0 NIL_RTR0PROCESS) ;;m kret (VINF_SUCCESS, p)
        else rtR0MemObjDelete p ;;m kret (rc, NULL)) (created true P (O, L)) (<[p := o]> O) (L ⊎ {[+ KHeap p +]})).
  { intros rc o Hrc. rewrite (RT_FAILURE_SUCCESS _ Hrc). eapply wp_bind, wp_Delete; [done|apply lookup_insert_eq|].
    apply wp_ret. rewrite delete_insert_id by done. by apply created_fail. }
  apply wp_bind. destruct (negb _); apply wp_bind.
  - apply wp_vmap.
    + eapply wp_bind, wp_upd; [apply lookup_insert_eq|]. rewrite insert_insert_eq. by apply wp_ret, Hfail.
    + intros pv Hpv. eapply wp_bind, wp_upd; [apply lookup_insert_eq|]. rewrite insert_insert_eq, (proj2 (Z.eqb_neq _ _) Hpv).
      apply wp_ret. simpl. eapply wp_bind, wp_upd; [apply lookup_insert_eq|]. rewrite insert_insert_eq.
      apply wp_ret, created_intro; [done|done|by split; simpl; [| |lia| |]|done|done|]. clear. unfold owned. simpl. multiset_solver.
  - apply wp_ioremap.
    + eapply wp_bind, wp_upd; [apply lookup_insert_eq|]. rewrite insert_insert_eq. by apply wp_ret, Hfail.
    + intros pv Hpv. eapply wp_bind, wp_upd; [apply lookup_insert_eq|]. rewrite insert_insert_eq, (proj2 (Z.eqb_neq _ _) Hpv).
      apply wp_ret. simpl. eapply wp_bind, wp_upd; [apply lookup_insert_eq|]. rewrite insert_insert_eq.
      apply wp_ret, created_intro; [done|done|by split; simpl; [| |lia| |]|done|done|]. clear. unfold owned. simpl. multiset_solver.
Qed.

(** The page by page loops take nothing, and every page is there. *)
Lemma wp_map_pages ins n : ∀ i a (Q : Z → _ → _ → Prop) O L,
  (∀ j vma a (Q : Z → _ → _ → Prop), i ≤ j < i + Z.of_nat n → (∀ rc, Q rc O L) → wp (ins j vma a) Q O L) →
  (∀ rc, rc = 0 ∨ RT_FAILURE rc = true → Q rc O L) → wp (map_pages ins n i a) Q O L.
Proof.
  induction n as [|n IH]; intros i a Q O L Hins HQ; simpl; [by apply wp_ret, HQ; left|].
  apply wp_bind, wp_kget. intros vma. destruct (vma =? NULL); [by apply wp_ret, HQ; right|].
  apply wp_bind, Hins; [lia|]. intros rc. destruct (negb _); [by apply wp_ret, HQ; right|].
  apply IH; [|done]. intros j vma' a' Q' Hj. apply Hins. lia.
Qed.

Lemma wp_insert_page p o i vma a (Q : Z → _ → _ → Prop) O L :
  O !! p = Some o → 0 ≤ i < Z.of_nat (length (mo_apPages o)) → (∀ rc, Q rc O L) → wp (insert_page p i vma a) Q O L.
Proof.
  intros Hp Hi HQ. destruct (lookup_lt_is_Some_2 (mo_apPages o) (Z.to_nat i)) as [pg Hpg]; [lia|].
  eapply wp_bind, wp_page_get; [done|done|]. apply wp_bind, wp_call. intros rc. by apply wp_bind, wp_do, wp_ret.
Qed.

Lemma create_MapUser c pMap om fixed al prot proc O L :
  heap_ok O L → O !! pMap = Some om → obj_wf om → mo_enmType om ≠ RTR0MEMOBJTYPE_RES_VIRT →
  0 ≤ mo_cb om → fMm c = true → NIL_RTR0PROCESS ≠ hSelf c →
  wp (rtR0MemObjNativeMapUser c pMap fixed al prot proc)
    (created true (λ o, is_obj RTR0MEMOBJTYPE_MAPPING (mo_cb om) o ∧ mo_uWord0 o = proc) (O, L)) O L.
Proof.
  intros Hok Hm Hwf Hres Hcb Hmm Hnil. unfold rtR0MemObjNativeMapUser, rtR0ProcessToLinuxTask.
  destruct (Z.eqb_spec proc (hSelf c)) as [->|]; simpl; [|by apply wp_ret, created_fail].
  destruct (PAGE_SIZE <? al); [by apply wp_ret, created_fail|].
  eapply wp_bind, wp_get; [done|]. apply wp_bind, wp_New; [done|done|by apply wp_ret, created_fail|].
  intros p Hp HO _. rewrite (proj2 (Z.eqb_neq _ _) Hp), Hmm. simpl. apply wp_bind, wp_take, wp_bind, wp_DoMmap.
  { rewrite Z.eqb_refl. apply wp_bind, wp_ret. simpl. apply wp_bind, wp_ret, wp_bind, wp_give.
    eapply wp_bind, wp_Delete; [done|apply lookup_insert_eq|]. apply wp_ret. rewrite delete_insert_id by done. by apply created_fail. }
  intros pv Hpv. rewrite (proj2 (Z.eqb_neq _ _) Hpv). apply wp_bind. set (o0 := new_object _ _ _ _).
  set (O1 := <[p := o0]> O). set (L1 := _ ⊎ {[+ KMmap pv _ +]}). assert (Hm1 : O1 !! pMap = Some om).
  { unfold O1. rewrite lookup_insert_ne; [done|congruence]. }
  set (R := λ rc : Z, _). assert (HR : ∀ rc, rc = 0 ∨ RT_FAILURE rc = true → R rc O1 L1); [|].
  - intros rc Hrc. unfold R, O1, L1. destruct (Z.eqb_spec rc 0) as [->|Hne].
    + ledger (L ⊎ {[+ KHeap p +]} ⊎ {[+ KMmap pv (mo_cb om) +]} ⊎ {[+ KSem true +]}). apply wp_bind, wp_give.
      eapply wp_bind, wp_upd; [apply lookup_insert_eq|]. rewrite insert_insert_eq.
      eapply wp_bind, wp_upd; [apply lookup_insert_eq|]. rewrite insert_insert_eq.
      apply wp_ret, created_intro; [done|done|by split; simpl; [| |lia| |]|done|done|].
      unfold owned. simpl. rewrite (proj2 (Z.eqb_neq _ _)) by congruence. done.
    + apply wp_bind, wp_give, wp_bind, wp_give. eapply wp_bind, wp_Delete; [done|apply lookup_insert_eq|]. apply wp_ret.
      rewrite delete_insert_id by done. apply created_fail. by destruct Hrc.
  - destruct (Z.eqb_spec (mo_cPages om) 0) as [E|E]; simpl.
    + destruct (negb _); [|apply wp_ret, HR; by left].
      apply wp_map_pages; [|done]. intros j vma a Q' _ HQ'. by apply wp_call.
    + apply wp_map_pages; [|done]. intros j vma a Q' Hj HQ'. apply (wp_insert_page _ om); [done| |done].
      pose proof (ow_all _ Hwf Hres E). pose proof (ow_pages _ Hwf).
      assert (0 ≤ Z.shiftr (mo_cb om) PAGE_SHIFT) by by apply Z.shiftr_nonneg. lia.
Qed.

(** ** The native free *)

Lemma wp_munmap_of c o (Q : unit → _ → _ → Prop) O L :
  Q tt O (L ⊎ (if negb (rtR0ProcessToLinuxTask c (mo_uWord0 o) && fMm c) then {[+ KMmap (mo_pv o) (mo_cb o) +]} else ∅)) →
  wp (munmap_of c o) Q O (L ⊎ {[+ KMmap (mo_pv o) (mo_cb o) +]}).
Proof.
  intros HQ. unfold munmap_of. destruct (_ && _); simpl in HQ; [|by apply wp_ret].
  rewrite (right_id_L ∅ (⊎)) in HQ. apply wp_bind, wp_take.
  ledger (L ⊎ {[+ KSem true +]} ⊎ {[+ KMmap (mo_pv o) (mo_cb o) +]}). by apply wp_bind, wp_give, wp_give.
Qed.

(** The free gives back what the object was made with, but for a mapping into another
    process. *)
Lemma wp_NativeFree c p o (Q : Z → _ → _ → Prop) O L :
  O !! p = Some o → obj_wf o →
  (∀ o', obj_wf o' → same_frame o o' → mo_pv o' = NULL ∨ mo_enmType o = RTR0MEMOBJTYPE_LOCK →
     Q VINF_SUCCESS (<[p := o']> O) (L ⊎ left_behind c o)) →
  wp (rtR0MemObjNativeFree c p) Q O (L ⊎ owned o).
Proof.
  intros Hp [Hm Ht Hc Hr Ha] HQ. eapply wp_bind, wp_get; [done|]. unfold owned.
  assert (Hpages : page_type (mo_enmType o) = true → (∀ o', obj_wf o' → same_frame o o' → mo_pv o' = NULL → Q VINF_SUCCESS (<[p := o']> O) L) →
    wp (rtR0MemObjLinuxVUnmap p ;;m rtR0MemObjLinuxFreePages p ;;m kret VINF_SUCCESS) Q O
      (L ⊎ ((if mo_fMappedToRing0 o then {[+ KVmap (mo_pv o) +]} else ∅) ⊎ res_pages o))).
  { intros Hpt HQ'. rewrite (comm_L (⊎) _ (res_pages o)), (assoc_L (⊎)). apply wp_bind, wp_VUnmap; [done|].
    rewrite <- (res_pages_ext o (mo_set_pv NULL false o)) by done.
    apply wp_bind. eapply wp_FreePages; [apply lookup_insert_eq|done|]. intros o' ->. apply wp_ret.
    rewrite insert_insert_eq. apply HQ'; [|done|done]. split; simpl; [done|done|lia| |done]. intros Ht'. by rewrite Ht' in Hpt. }
  unfold left_behind in HQ. destruct (mo_enmType o) eqn:Et; try (by destruct Ht).
  all: try (apply Hpages; [done|]; intros; rewrite <- (right_id_L ∅ (⊎) L); apply HQ; auto).
  - (* locked *)
    assert (Hdone : Q VINF_SUCCESS O L).
    { rewrite <- (insert_id O p o Hp), <- (right_id_L ∅ (⊎) L). apply HQ; [by split; rewrite ?Et|by split_and!|by right]. }
    destruct (negb (mo_uWord0 o =? NIL_RTR0PROCESS)); [|rewrite (right_id_L ∅ (⊎)); by apply wp_ret].
    destruct (rtR0ProcessToLinuxTask c (mo_uWord0 o) && fMm c).
    + apply wp_bind, wp_take. unfold pages_of. set (pins := lset _). ledger (L ⊎ {[+ KSem false +]} ⊎ pins). subst pins.
      apply wp_bind. replace (mo_cPages o) with (Z.of_nat (Z.to_nat (mo_cPages o))) at 1 by lia.
      apply (wp_give_pages KPin unpin p o); [by intros; apply wp_unpin|done|lia|]. by apply wp_bind, wp_give, wp_ret.
    + apply wp_bind, wp_ret, wp_bind. unfold pages_of.
      replace (mo_cPages o) with (Z.of_nat (Z.to_nat (mo_cPages o))) at 1 by lia.
      apply (wp_give_pages KPin unpin p o); [by intros; apply wp_unpin|done|lia|]. by apply wp_bind, wp_ret, wp_ret.
  - (* reserved *)
    apply wp_bind. destruct (Z.eqb_spec (mo_uWord0 o) NIL_RTR0PROCESS) as [E|E]; simpl in *.
    + specialize (Hr eq_refl E). destruct (mo_apPages o) as [|pg l] eqn:El; [simpl in Hr; lia|]. simpl.
      ledger (L ⊎ {[+ KPages pg 0 +]} ⊎ {[+ KVmap (mo_pv o) +]}). apply wp_bind, wp_give.
      eapply wp_bind, wp_page_get; [done|by rewrite El|]. apply wp_bind, wp_give.
      eapply wp_bind, wp_page_set; [done|rewrite El; simpl; lia|]. eapply wp_upd; [apply lookup_insert_eq|]. rewrite insert_insert_eq.
      eapply wp_bind, wp_upd; [apply lookup_insert_eq|]. rewrite insert_insert_eq. apply wp_ret.
      rewrite <- (right_id_L ∅ (⊎) L). apply HQ; [|by split_and!; simpl|by left].
      split; simpl; rewrite ?Et, ?El; simpl; [done|done|lia|lia|done].
    + apply wp_munmap_of. eapply wp_bind, wp_upd; [done|]. apply wp_ret.
      apply HQ; [by split; simpl; rewrite ?Et|by split_and!; simpl|by left].
  - (* a mapping *)
    apply wp_bind. destruct (Z.eqb_spec (mo_uWord0 o) NIL_RTR0PROCESS) as [E|E]; simpl in *.
    + apply wp_give. eapply wp_bind, wp_upd; [done|]. apply wp_ret. rewrite <- (right_id_L ∅ (⊎) L).
      apply HQ; [by split; simpl; rewrite ?Et|by split_and!; simpl|by left].
    + apply wp_munmap_of. eapply wp_bind, wp_upd; [done|]. apply wp_ret.
      apply HQ; [by split; simpl; rewrite ?Et|by split_and!; simpl|by left].
Qed.
End lemmas.
