(* ===== verification/RtMemObj.v ===== *)
(** The generic half of the memory objects (r0drv/memobj-r0drv.cpp): the [RTR0MemObj*]
    functions, on the native half of MemObjLnx.

    A creating function yields the status and the handle it stores; [pMemObj] is where it
    stores it, which is checked. *)

From S2P Require Import Prelude SupTypes MemObj MemObjLnx.
From stdpp Require Import gmultiset.
Local Open Scope Z_scope.

Section memobj.
Context `{LinuxKernel}.

(** * Queries *)

Definition obj_valid (o : RTR0MEMOBJLNX) : bool :=
  (mo_u32Magic o =? RTR0MEMOBJ_MAGIC)
  && negb (bool_decide (mo_enmType o = RTR0MEMOBJTYPE_INVALID)) && negb (bool_decide (mo_enmType o = RTR0MEMOBJTYPE_END)).

(** The object of a valid handle; [eInvalid] is returned for an invalid one. *)
Definition with_object {A} (MemObj : ptr) (eInvalid : A) (k : RTR0MEMOBJLNX → M A) : M A :=
  if negb (VALID_PTR MemObj) then kret eInvalid
  else o ←m obj_get MemObj ;; if negb (obj_valid o) then kret eInvalid else k o.

Definition RTR0MemObjIsMapping (MemObj : ptr) : M bool :=
  with_object MemObj false (λ o, kret (rtR0MemObjIsMapping o)).
Definition RTR0MemObjAddress (MemObj : ptr) : M ptr :=
  if MemObj =? NIL_RTR0MEMOBJ then kret NULL else with_object MemObj NULL (λ o, kret (mo_pv o)).
Definition RTR0MemObjAddressR3 (MemObj : ptr) : M ptr :=
  if MemObj =? NIL_RTR0MEMOBJ then kret NULL
  else
    with_object MemObj NULL (λ o,
      let ofType t := bool_decide (mo_enmType o = t) && negb (mo_uWord0 o =? NIL_RTR0PROCESS) in
      if negb (ofType RTR0MEMOBJTYPE_MAPPING) && negb (ofType RTR0MEMOBJTYPE_LOCK) && negb (ofType RTR0MEMOBJTYPE_PHYS_NC)
         && negb (ofType RTR0MEMOBJTYPE_RES_VIRT)
      then kret NULL else kret (mo_pv o)).
Definition RTR0MemObjSize (MemObj : ptr) : M Z :=
  if MemObj =? NIL_RTR0MEMOBJ then kret 0 else with_object MemObj 0 (λ o, kret (mo_cb o)).
Definition RTR0MemObjGetPagePhysAddr (MemObj iPage : Z) : M Z :=
  with_object MemObj NIL_RTHCPHYS (λ o,
    if Z.shiftr (mo_cb o) PAGE_SHIFT <=? iPage then kret NIL_RTHCPHYS
    else if bool_decide (mo_enmType o = RTR0MEMOBJTYPE_CONT) then kret (u64 (mo_uWord0 o + iPage * PAGE_SIZE))
    else if bool_decide (mo_enmType o = RTR0MEMOBJTYPE_PHYS) then kret (u64 (mo_uWord0 o + iPage * PAGE_SIZE))
    else rtR0MemObjNativeGetPagePhysAddr 1 MemObj iPage).

(** * Freeing *)

(** The mappings of an object, from the last one; [n] of them. *)
Fixpoint free_mappings (c : Caller) (pMem : ptr) (n : nat) : M Z :=
  match n with
  | O => kret VINF_SUCCESS
  | S n =>
      o ←m obj_get pMem ;;
      let i := u32 (mo_cMappings o - 1) in
      let pChild := default NULL (mo_papMappings o !! i) in
      obj_upd pMem (λ o, mo_set_mappings (mo_cMappingsAllocated o) i (mo_papMappingsPtr o) (<[i := NULL]> (mo_papMappings o)) o) ;;m
      oChild ←m obj_get pChild ;;
      if negb (obj_valid oChild && rtR0MemObjIsMapping oChild) then kfault
      else
        rc ←m rtR0MemObjNativeFree c pChild ;;
        if RT_FAILURE rc then
          obj_upd pMem (λ o, mo_set_mappings (mo_cMappingsAllocated o) (u32 (i + 1)) (mo_papMappingsPtr o)
                               (<[i := pChild]> (mo_papMappings o)) o) ;;m
          kret rc
        else free_mappings c pMem n
  end.

(** The position of a mapping in the array, looked for from position [n - 1] down. *)
Fixpoint find_mapping (papMappings : gmap Z ptr) (pMem : ptr) (n : nat) : option Z :=
  match n with
  | O => None
  | S n => if default NULL (papMappings !! Z.of_nat n) =? pMem then Some (Z.of_nat n) else find_mapping papMappings pMem n
  end.

Definition unlink_mapping (pMem : ptr) (o : RTR0MEMOBJLNX) : RTR0MEMOBJLNX :=
  match find_mapping (mo_papMappings o) pMem (Z.to_nat (mo_cMappings o)) with
  | Some i =>
      let cMappings := u32 (mo_cMappings o - 1) in
      mo_set_mappings (mo_cMappingsAllocated o) cMappings (mo_papMappingsPtr o)
        (<[i := default NULL (mo_papMappings o !! cMappings)]> (mo_papMappings o)) o
  | None => o
  end.

(** Invalidating and freeing the handle. *)
Definition obj_destroy (pMem : ptr) : M unit :=
  obj_upd pMem (λ o, mo_set_type (u32 (mo_u32Magic o + 1)) RTR0MEMOBJTYPE_END o) ;;m
  obj_free pMem.

(** What is left once an object has no mappings: the native free, taking a mapping out of the
    array of its parent, and freeing the handle. *)
Definition free_object (c : Caller) (MemObj : ptr) : M Z :=
  rc ←m rtR0MemObjNativeFree c MemObj ;;
  if negb (RT_SUCCESS rc) then kret rc
  else
    o ←m obj_get MemObj ;;
    (if rtR0MemObjIsMapping o then
       oParent ←m obj_get (mo_pParent o) ;;
       if negb (obj_valid oParent && negb (rtR0MemObjIsMapping oParent) && (0 <? mo_cMappings oParent)) then kfault
       else obj_upd (mo_pParent o) (unlink_mapping MemObj)
     else kret tt) ;;m
    obj_upd MemObj (λ o, mo_set_type (u32 (mo_u32Magic o + 1)) RTR0MEMOBJTYPE_END o) ;;m
    o ←m obj_get MemObj ;;
    (if negb (rtR0MemObjIsMapping o) then RTMemFree (mo_papMappingsPtr o) else kret tt) ;;m
    obj_free MemObj ;;m
    kret rc.

Definition RTR0MemObjFree (c : Caller) (MemObj : ptr) (fFreeMappings : bool) : M Z :=
  if MemObj =? NIL_RTR0MEMOBJ then kret VINF_SUCCESS
  else
    with_object MemObj VERR_INVALID_HANDLE (λ o,
      let fMappings := negb (rtR0MemObjIsMapping o) && (0 <? mo_cMappings o) in
      if fMappings && negb fFreeMappings then kret VERR_MEMORY_BUSY
      else
        rc ←m (if fMappings then free_mappings c MemObj (Z.to_nat (mo_cMappings o)) else kret VINF_SUCCESS) ;;
        if RT_FAILURE rc then kret rc else free_object c MemObj).

(** * Creation *)

(** The checks all the creating functions start and the sized ones go on with. *)
Definition create_checked (pMemObj : ptr) (fOk : bool) (k : M (Z * ptr)) : M (Z * ptr) :=
  if negb (VALID_PTR pMemObj) then kret (VERR_INVALID_POINTER, NULL)
  else if negb fOk then kret (VERR_INVALID_PARAMETER, NULL)
  else k.
Definition size_ok (cb cbAligned : Z) : bool := (0 <? cb) && (cb <=? cbAligned).

Definition RTR0MemObjAllocPageTag (pMemObj : ptr) (cb : Z) (fExecutable : bool) : M (Z * ptr) :=
  let cbAligned := RT_ALIGN_PAGE cb in
  create_checked pMemObj (size_ok cb cbAligned) (rtR0MemObjNativeAllocPage cbAligned fExecutable).
Definition RTR0MemObjAllocLowTag (pMemObj : ptr) (cb : Z) (fExecutable : bool) : M (Z * ptr) :=
  let cbAligned := RT_ALIGN_PAGE cb in
  create_checked pMemObj (size_ok cb cbAligned) (rtR0MemObjNativeAllocLow cbAligned fExecutable).
Definition RTR0MemObjAllocContTag (pMemObj : ptr) (cb : Z) (fExecutable : bool) : M (Z * ptr) :=
  let cbAligned := RT_ALIGN_PAGE cb in
  create_checked pMemObj (size_ok cb cbAligned) (rtR0MemObjNativeAllocCont cbAligned fExecutable).

(** [fAccess] is some of reading and writing. *)
Definition access_ok (fAccess : Z) : bool :=
  (Z.land fAccess (Z.lnot (Z.lor RTMEM_PROT_READ RTMEM_PROT_WRITE)) =? 0) && negb (fAccess =? 0).
Definition self_if_nil (c : Caller) (R0Process : Z) : Z := if R0Process =? NIL_RTR0PROCESS then hSelf c else R0Process.

Definition RTR0MemObjLockUserTag (c : Caller) (pMemObj R3Ptr : ptr) (cb fAccess R0Process : Z) : M (Z * ptr) :=
  let cbAligned := RT_ALIGN_PAGE (u64 (cb + Z.land R3Ptr PAGE_OFFSET_MASK)) in
  let R3PtrAligned := Z.land R3Ptr (u64 (Z.lnot PAGE_OFFSET_MASK)) in
  create_checked pMemObj (size_ok cb cbAligned && access_ok fAccess)
    (rtR0MemObjNativeLockUser c R3PtrAligned cbAligned fAccess (self_if_nil c R0Process)).

Definition RTR0MemObjLockKernelTag (pMemObj pv : ptr) (cb fAccess : Z) : M (Z * ptr) :=
  let cbAligned := RT_ALIGN_PAGE (u64 (cb + Z.land pv PAGE_OFFSET_MASK)) in
  let pvAligned := Z.land pv (u64 (Z.lnot PAGE_OFFSET_MASK)) in
  create_checked pMemObj (size_ok cb cbAligned)
    (if negb (VALID_PTR pvAligned) then kret (VERR_INVALID_POINTER, NULL)
     else if negb (access_ok fAccess) then kret (VERR_INVALID_PARAMETER, NULL)
     else rtR0MemObjNativeLockKernel pvAligned cbAligned fAccess).

Definition RTR0MemObjAllocPhysExTag (pMemObj : ptr) (cb PhysHighest uAlignment : Z) : M (Z * ptr) :=
  let cbAligned := RT_ALIGN_PAGE cb in
  let uAlignment := if uAlignment =? 0 then PAGE_SIZE else uAlignment in
  create_checked pMemObj (size_ok cb cbAligned && (cb <=? PhysHighest)
                          && ((uAlignment =? PAGE_SIZE) || (uAlignment =? 0x200000) || (uAlignment =? 0x400000)
                              || (uAlignment =? 0x40000000)))
    (rtR0MemObjNativeAllocPhys cbAligned PhysHighest uAlignment).
Definition RTR0MemObjAllocPhysTag (pMemObj : ptr) (cb PhysHighest : Z) : M (Z * ptr) :=
  let cbAligned := RT_ALIGN_PAGE cb in
  create_checked pMemObj (size_ok cb cbAligned && (cb <=? PhysHighest)) (rtR0MemObjNativeAllocPhys cbAligned PhysHighest PAGE_SIZE).
Definition RTR0MemObjAllocPhysNCTag (pMemObj : ptr) (cb PhysHighest : Z) : M (Z * ptr) :=
  let cbAligned := RT_ALIGN_PAGE cb in
  create_checked pMemObj (size_ok cb cbAligned && (cb <=? PhysHighest)) (rtR0MemObjNativeAllocPhysNC cbAligned PhysHighest).

Definition RTR0MemObjEnterPhysTag (pMemObj : ptr) (Phys cb uCachePolicy : Z) : M (Z * ptr) :=
  let cbAligned := RT_ALIGN_PAGE (u64 (cb + Z.land Phys PAGE_OFFSET_MASK)) in
  let PhysAligned := Z.land Phys (u64 (Z.lnot PAGE_OFFSET_MASK)) in
  create_checked pMemObj (size_ok cb cbAligned && negb (Phys =? NIL_RTHCPHYS)
                          && ((uCachePolicy =? RTMEM_CACHE_POLICY_DONT_CARE) || (uCachePolicy =? RTMEM_CACHE_POLICY_MMIO)))
    (rtR0MemObjNativeEnterPhys PhysAligned cbAligned uCachePolicy).

(** The alignments of virtual addresses, and a fixed address that has one. *)
Definition align_ok (pvFixed uAlignment : Z) : bool :=
  ((uAlignment =? PAGE_SIZE) || (uAlignment =? 0x200000) || (uAlignment =? 0x400000))
  && ((pvFixed =? PTR_ANY) || (Z.land pvFixed (uAlignment - 1) =? 0)).
Definition align_default (uAlignment : Z) : Z := if uAlignment =? 0 then PAGE_SIZE else uAlignment.

Definition RTR0MemObjReserveKernelTag (pMemObj pvFixed : ptr) (cb uAlignment : Z) : M (Z * ptr) :=
  let cbAligned := RT_ALIGN_PAGE cb in
  let uAlignment := align_default uAlignment in
  create_checked pMemObj (align_ok pvFixed uAlignment && size_ok cb cbAligned)
    (rtR0MemObjNativeReserveKernel pvFixed cbAligned uAlignment).
Definition RTR0MemObjReserveUserTag (c : Caller) (pMemObj R3PtrFixed : ptr) (cb uAlignment R0Process : Z) : M (Z * ptr) :=
  let cbAligned := RT_ALIGN_PAGE cb in
  let uAlignment := align_default uAlignment in
  create_checked pMemObj (align_ok R3PtrFixed uAlignment && size_ok cb cbAligned)
    (rtR0MemObjNativeReserveUser c R3PtrFixed cbAligned uAlignment (self_if_nil c R0Process)).

(** * Mapping *)

Definition prot_ok (fProt : Z) : bool :=
  negb (fProt =? RTMEM_PROT_NONE)
  && (Z.land fProt (Z.lnot (Z.lor (Z.lor RTMEM_PROT_READ RTMEM_PROT_WRITE) RTMEM_PROT_EXEC)) =? 0).

(** An object that can be mapped. *)
Definition mappable (o : RTR0MEMOBJLNX) : bool :=
  negb (rtR0MemObjIsMapping o) && negb (bool_decide (mo_enmType o = RTR0MEMOBJTYPE_RES_VIRT)).

(** Linking the new mapping, or freeing it again. *)
Definition link_or_free (c : Caller) (pMemToMap : ptr) (r : Z * ptr) : M (Z * ptr) :=
  if RT_SUCCESS r.1 then
    rc ←m rtR0MemObjLink pMemToMap r.2 ;;
    if RT_SUCCESS rc then kret (rc, r.2)
    else rtR0MemObjNativeFree c r.2 ;;m obj_destroy r.2 ;;m kret (rc, NULL)
  else kret (r.1, NULL).

Definition RTR0MemObjMapKernelExTag (c : Caller) (pMemObj MemObjToMap pvFixed : ptr) (uAlignment fProt offSub cbSub : Z)
    : M (Z * ptr) :=
  if negb (VALID_PTR pMemObj) then kret (VERR_INVALID_POINTER, NULL)
  else
    with_object MemObjToMap (VERR_INVALID_HANDLE, NULL) (λ o,
      let uAlignment := align_default uAlignment in
      if negb (mappable o && align_ok pvFixed uAlignment && prot_ok fProt
               && (Z.land offSub PAGE_OFFSET_MASK =? 0) && (offSub <? mo_cb o)
               && (Z.land cbSub PAGE_OFFSET_MASK =? 0) && (cbSub <=? mo_cb o)
               && ((offSub =? 0) && (cbSub =? 0) || (u64 (offSub + cbSub) <=? mo_cb o)))
      then kret (VERR_INVALID_PARAMETER, NULL)
      else
        let cbSub := if (offSub =? 0) && (cbSub =? mo_cb o) then 0 else cbSub in
        r ←m rtR0MemObjNativeMapKernel MemObjToMap pvFixed uAlignment fProt offSub cbSub ;;
        link_or_free c MemObjToMap r).
Definition RTR0MemObjMapKernelTag (c : Caller) (pMemObj MemObjToMap pvFixed : ptr) (uAlignment fProt : Z) : M (Z * ptr) :=
  RTR0MemObjMapKernelExTag c pMemObj MemObjToMap pvFixed uAlignment fProt 0 0.

Definition RTR0MemObjMapUserTag (c : Caller) (pMemObj MemObjToMap R3PtrFixed : ptr) (uAlignment fProt R0Process : Z)
    : M (Z * ptr) :=
  if negb (VALID_PTR pMemObj) then kret (VERR_INVALID_POINTER, NULL)
  else
    with_object MemObjToMap (VERR_INVALID_HANDLE, NULL) (λ o,
      let uAlignment := align_default uAlignment in
      if negb (mappable o && align_ok R3PtrFixed uAlignment && prot_ok fProt) then kret (VERR_INVALID_PARAMETER, NULL)
      else
        r ←m rtR0MemObjNativeMapUser c MemObjToMap R3PtrFixed uAlignment fProt (self_if_nil c R0Process) ;;
        link_or_free c MemObjToMap r).

Definition RTR0MemObjProtect (hMemObj offSub cbSub fProt : Z) : M Z :=
  with_object hMemObj VERR_INVALID_HANDLE (λ o,
    if negb (rtR0MemObjIsProtectable o && (Z.land offSub PAGE_OFFSET_MASK =? 0) && (offSub <? mo_cb o)
             && (Z.land cbSub PAGE_OFFSET_MASK =? 0) && (cbSub <=? mo_cb o) && (u64 (offSub + cbSub) <=? mo_cb o)
             && (Z.land fProt (Z.lnot (Z.lor (Z.lor RTMEM_PROT_READ RTMEM_PROT_WRITE) RTMEM_PROT_EXEC)) =? 0))
    then kret VERR_INVALID_PARAMETER
    else
      rc ←m rtR0MemObjNativeProtect hMemObj offSub cbSub fProt ;;
      (if RT_SUCCESS rc
       then obj_upd hMemObj (λ o, mo_set_flags (Z.lor (mo_fFlags o) RTR0MEMOBJ_FLAGS_PROT_CHANGED) o) else kret tt) ;;m
      kret rc).
End memobj.

(** * Specification *)

(** The sum of what the entries of a map stand for. *)
Definition msum {A} (f : ptr → A → gmultiset kres) (m : gmap ptr A) : gmultiset kres :=
  map_fold (λ p x acc, f p x ⊎ acc) ∅ m.

(** The mappings of an object, in the order of the array. *)
Definition kids (o : RTR0MEMOBJLNX) : list ptr :=
  (λ i, default NULL (mo_papMappings o !! i)) <$> up_to (mo_cMappings o).

(** A mapping counts as long as its parent lists it; one that was freed together with its
    parent's memory is only a structure that is left in memory. *)
Definition live (O : gmap ptr RTR0MEMOBJLNX) (p : ptr) (o : RTR0MEMOBJLNX) : bool :=
  if rtR0MemObjIsMapping o
  then match O !! mo_pParent o with
       | Some oParent => negb (rtR0MemObjIsMapping oParent) && bool_decide (p ∈ kids oParent)
       | None => false
       end
  else true.

(** What an object accounts for. *)
Definition account `{LinuxKernel} (O : gmap ptr RTR0MEMOBJLNX) (p : ptr) (o : RTR0MEMOBJLNX) : gmultiset kres :=
  {[+ KHeap p +]}
  ⊎ (if mo_papMappingsPtr o =? NULL then ∅ else {[+ KHeap (mo_papMappingsPtr o) +]})
  ⊎ (if live O p o then owned o else ∅).

Record links_ok (O : gmap ptr RTR0MEMOBJLNX) (p : ptr) (o : RTR0MEMOBJLNX) : Prop := {
  lk_count : 0 ≤ mo_cMappings o ≤ mo_cMappingsAllocated o ∧ mo_cMappingsAllocated o < 2 ^ 31 + 64;
  lk_array : 0 < mo_cMappingsAllocated o ↔ mo_papMappingsPtr o ≠ NULL;
  lk_nodup : NoDup (kids o);
  lk_kids : rtR0MemObjIsMapping o = false →
            ∀ c, c ∈ kids o → ∃ oc, O !! c = Some oc ∧ rtR0MemObjIsMapping oc = true ∧ mo_pParent oc = p;
  lk_none : rtR0MemObjIsMapping o = true → mo_cMappingsAllocated o = 0;
}.

(** Pages of an object that is contiguous follow one another. *)
Definition contig `{LinuxKernel} (o : RTR0MEMOBJLNX) : Prop :=
  mo_enmType o = RTR0MEMOBJTYPE_CONT ∨ mo_enmType o = RTR0MEMOBJTYPE_PHYS → mo_cPages o ≠ 0 → cont_ok o.

(** The objects are well formed and linked to one another, and what is taken from the kernel is
    what they account for and [F]. *)
Record memobj_inv `{LinuxKernel} (F : gmultiset kres) (O : gmap ptr RTR0MEMOBJLNX) (L : gmultiset kres) : Prop := {
  mi_nonnull : O !! NULL = None;
  mi_wf : ∀ p o, O !! p = Some o → obj_wf o ∧ 0 ≤ mo_cb o;
  mi_links : ∀ p o, O !! p = Some o → links_ok O p o;
  mi_ledger : L = F ⊎ msum (account O) O;
}.

(** * Lemmas *)

Lemma msum_insert {A} (f : ptr → A → gmultiset kres) m p x : m !! p = None → msum f (<[p := x]> m) = f p x ⊎ msum f m.
Proof. intros Hp. unfold msum. rewrite map_fold_insert_L; [done| |done]. intros. multiset_solver. Qed.

Lemma msum_delete {A} (f : ptr → A → gmultiset kres) m p x : m !! p = Some x → msum f m = f p x ⊎ msum f (delete p m).
Proof. intros Hp. rewrite <- (insert_delete_id m p x Hp) at 1. apply msum_insert, lookup_delete_eq. Qed.

Lemma msum_ext {A} (f g : ptr → A → gmultiset kres) m :
  (∀ p x, m !! p = Some x → f p x = g p x) → msum f m = msum g m.
Proof.
  induction m as [|p x m Hp IH] using map_ind; intros H; [by unfold msum; rewrite !map_fold_empty|].
  rewrite !msum_insert by done. rewrite (H p x) by apply lookup_insert_eq. f_equal. apply IH. intros q y Hq. apply H.
  rewrite lookup_insert_ne; [done|]. intros ->. congruence.
Qed.

Lemma msum_elem {A} (f : ptr → A → gmultiset kres) m p x : m !! p = Some x → f p x ⊆ msum f m.
Proof. intros Hp. rewrite (msum_delete f m p x Hp). multiset_solver. Qed.

Lemma length_kids o : 0 ≤ mo_cMappings o → length (kids o) = Z.to_nat (mo_cMappings o).
Proof. intros Hc. unfold kids. rewrite length_fmap. unfold up_to. rewrite length_seqZ. lia. Qed.

Lemma inv_heap_ok `{LinuxKernel} F O L : memobj_inv F O L → heap_ok O L.
Proof.
  intros [_ _ _ ->] p [o Hp]. pose proof (msum_elem (account O) O p o Hp). unfold account in *. multiset_solver.
Qed.

(** ** New objects *)

Lemma kids_none o : no_links o → kids o = [].
Proof. intros (_&Hc&_). unfold kids. by rewrite Hc. Qed.

Section add.
Context `{LinuxKernel} (O : gmap ptr RTR0MEMOBJLNX) (p : ptr) (o : RTR0MEMOBJLNX).
Context (HO : O !! p = None) (Hnl : no_links o).

Lemma live_add q oq : live (<[p := o]> O) q oq = live O q oq.
Proof.
  unfold live. destruct (rtR0MemObjIsMapping oq); [|done]. destruct (decide (mo_pParent oq = p)) as [->|Hne].
  - rewrite lookup_insert_eq, HO, (kids_none o Hnl). rewrite bool_decide_false by apply not_elem_of_nil. by rewrite andb_false_r.
  - by rewrite lookup_insert_ne.
Qed.

Lemma account_add q oq : account (<[p := o]> O) q oq = account O q oq.
Proof. unfold account. by rewrite live_add. Qed.

Lemma links_new O' : links_ok O' p o.
Proof.
  pose proof (kids_none o Hnl) as Hk. destruct Hnl as (Ha&Hc&Hptr&_). split; rewrite ?Ha, ?Hc, ?Hptr, ?Hk; [lia|lia|apply NoDup_nil_2| |done].
  intros _ c Hc'. by apply not_elem_of_nil in Hc'.
Qed.

Lemma links_add q oq : links_ok O q oq → links_ok (<[p := o]> O) q oq.
Proof.
  intros [H1 H2 H3 H4 H5]. split; try done. intros Hm c Hc. destruct (H4 Hm c Hc) as (oc&Ho&?). exists oc.
  rewrite lookup_insert_ne; [done|]. intros ->. congruence.
Qed.

(** A mapping that nobody lists yet is not accounted for by its object. *)
Lemma inv_add F L O' L' :
  memobj_inv F O L → add_obj p o (O, L) (O', L') → 0 ≤ mo_cb o →
  memobj_inv (F ⊎ (if rtR0MemObjIsMapping o then owned o else ∅)) O' L'.
Proof.
  intros [H0 Hwf Hlk ->] (Hp&_&Ho&_&[= -> ->]) Hcb. split.
  - rewrite lookup_insert_ne by congruence. done.
  - intros q oq [[<- <-]|[_ Hq]]%lookup_insert_Some; [done|exact (Hwf _ _ Hq)].
  - intros q oq [[<- <-]|[_ Hq]]%lookup_insert_Some; [apply links_new|by apply links_add, Hlk].
  - rewrite msum_insert by done. rewrite (msum_ext (account (<[p := o]> O)) (account O) O) by (intros; apply account_add).
    destruct Hnl as (_&_&Hptr&_&Hpar). rewrite account_add. unfold account at 2, live. rewrite Hptr, Z.eqb_refl, Hpar, H0.
    destruct (rtR0MemObjIsMapping o); clear; multiset_solver.
Qed.
End add.

Lemma inv_add_some `{LinuxKernel} F st st' : rtc add_some st st' → memobj_inv F st.1 st.2 → memobj_inv F st'.1 st'.2.
Proof.
  induction 1 as [|st [O1 L1] st' (p&o&Ha&Ht&Hcb&_) _ IH]; [done|]. intros Hinv. apply IH. destruct st as [O L].
  pose proof Ha as (_&HO&_&Hnl&_). pose proof (inv_add O p o HO Hnl F L O1 L1 Hinv Ha Hcb) as Hi.
  assert (Hm : rtR0MemObjIsMapping o = false) by (unfold rtR0MemObjIsMapping; case_bool_decide as E; [by rewrite E in Ht|done]).
  rewrite Hm, (right_id_L ∅ (⊎)) in Hi. done.
Qed.

(** Whatever a creating function does, the invariant is kept. *)
Lemma inv_created `{LinuxKernel} F O L e P r O' L' :
  memobj_inv F O L → created e P (O, L) r O' L' → (∀ o, P o → rtR0MemObjIsMapping o = false ∧ 0 ≤ mo_cb o) →
  memobj_inv F O' L'.
Proof.
  intros Hinv (st1&Hs&_&Hend) HP. pose proof (inv_add_some _ _ _ Hs Hinv) as H1. simpl in H1.
  destruct Hend as [[_ (o&Ha&Ho)]|(_&_&<-)]; [|done]. destruct st1 as [O1 L1]. pose proof Ha as (_&HO&_&Hnl&_).
  destruct (HP o Ho) as [Hm Hcb]. pose proof (inv_add O1 _ o HO Hnl F L1 O' L' H1 Ha Hcb) as Hi.
  by rewrite Hm, (right_id_L ∅ (⊎)) in Hi.
Qed.

(** ** Pages *)

Lemma land_page_mask x : 0 ≤ x < 2 ^ 64 → Z.land x 0xfffffffffffff000 = x / PAGE_SIZE * PAGE_SIZE.
Proof.
  intros Hx. change PAGE_SIZE with (2 ^ 12). rewrite <- Z.shiftr_div_pow2, <- Z.shiftl_mul_pow2 by lia.
  replace 0xfffffffffffff000 with (Z.shiftl (Z.ones 52) 12) by done.
  apply Z.bits_inj'. intros k Hk. rewrite Z.land_spec, !Z.shiftl_spec by done. destruct (Z.ltb_spec k 12).
  - rewrite !(Z.testbit_neg_r _ (k - 12)) by lia. apply andb_false_r.
  - rewrite Z.shiftr_spec by lia. replace (k - 12 + 12) with k by lia. destruct (Z.ltb_spec k 64).
    + by rewrite Z.ones_spec_low, andb_true_r by lia.
    + rewrite Z.ones_spec_high, andb_false_r by lia. symmetry. apply Z.bits_above_log2; [lia|].
      destruct (decide (x = 0)) as [->|]; [simpl; lia|]. assert (Z.log2 x < 64); [|lia]. apply Z.log2_lt_pow2; lia.
Qed.

Lemma land_page_off x : Z.land x PAGE_OFFSET_MASK = x mod PAGE_SIZE.
Proof. change PAGE_OFFSET_MASK with (Z.ones 12). by rewrite Z.land_ones. Qed.

(** An accepted size is rounded up to pages. *)
Lemma align_spec cb :
  size_ok cb (RT_ALIGN_PAGE cb) = true → cb < 2 ^ 64 →
  ∃ n : nat, (0 < n)%nat ∧ RT_ALIGN_PAGE cb = Z.of_nat n * PAGE_SIZE ∧ RT_ALIGN_PAGE cb < 2 ^ 64 ∧ RT_ALIGN_PAGE cb < cb + PAGE_SIZE.
Proof.
  unfold size_ok, RT_ALIGN_PAGE. intros Hs Hcb. rewrite land_page_mask in * by apply u64_range.
  pose proof (u64_range (cb + 0xfff)). assert (Hu : u64 (cb + 0xfff) ≤ cb + 0xfff) by (apply Z.mod_le; lia).
  set (x := u64 _) in *. clearbody x. pose proof (Z.mul_div_le x PAGE_SIZE eq_refl) as Hm.
  unfold PAGE_SIZE in *. exists (Z.to_nat (x / 4096)). assert (0 < x / 4096) by lia. rewrite Z2Nat.id by lia. split_and!; lia.
Qed.

(** Rounding up either wraps to 0 or does round up. *)
Lemma align_wraps x : 0 ≤ x < 2 ^ 64 → RT_ALIGN_PAGE x = 0 ∨ x ≤ RT_ALIGN_PAGE x.
Proof.
  intros Hx. unfold RT_ALIGN_PAGE. rewrite land_page_mask by apply u64_range. change PAGE_SIZE with 4096.
  destruct (Z.lt_ge_cases (x + 0xfff) (2 ^ 64)) as [Hlt|Hge].
  - right. rewrite u64_small by lia. pose proof (Z.div_mod (x + 0xfff) 4096). pose proof (Z.mod_pos_bound (x + 0xfff) 4096). lia.
  - left. assert (Hu : u64 (x + 0xfff) = x + 0xfff - 2 ^ 64).
    { unfold u64. symmetry. apply (Z.mod_unique_pos _ _ 1); lia. }
    rewrite Hu, Z.div_small by lia. done.
Qed.

(** ** Creation through the interface *)

Section create.
Context `{LinuxKernel} (O : gmap ptr RTR0MEMOBJLNX) (L : gmultiset kres) (Hok : heap_ok O L).

(** How a creating function of the interface ends; [cb] is the size asked for. *)
Definition created_api (e : bool) (t : RTR0MEMOBJTYPE) (cb : Z) : Z * ptr → gmap ptr RTR0MEMOBJLNX → gmultiset kres → Prop :=
  created e (λ o, mo_enmType o = t ∧ cb ≤ mo_cb o < 2 ^ 64 ∧ contig o) (O, L).

Lemma created_mono e (P P' : RTR0MEMOBJLNX → Prop) st r O' L' :
  (∀ o, P o → P' o) → created e P st r O' L' → created e P' st r O' L'.
Proof. intros HP (st1&Hs&He&[(Hr&o&Ha&Ho)|Hf]); exists st1; eauto 10. Qed.

Lemma wp_create_checked pMemObj fOk (k : M (Z * ptr)) e P :
  (fOk = true → wp k (created e P (O, L)) O L) → wp (create_checked pMemObj fOk k) (created e P (O, L)) O L.
Proof.
  intros Hk. unfold create_checked. destruct (negb (VALID_PTR _)); [by apply wp_ret, created_fail|].
  destruct fOk; simpl; [by apply Hk|by apply wp_ret, created_fail].
Qed.

Lemma wp_create_sized pMemObj cb fOk (k : Z → M (Z * ptr)) e t (P : Z → RTR0MEMOBJLNX → Prop) :
  cb < 2 ^ 64 → (∀ n o, P n o → is_obj t n o ∧ contig o) →
  (∀ n : nat, (0 < n)%nat → Z.of_nat n * PAGE_SIZE < 2 ^ 64 → wp (k (Z.of_nat n * PAGE_SIZE)) (created e (P (Z.of_nat n * PAGE_SIZE)) (O, L)) O L) →
  wp (create_checked pMemObj (size_ok cb (RT_ALIGN_PAGE cb) && fOk) (k (RT_ALIGN_PAGE cb))) (created_api e t cb) O L.
Proof.
  intros Hcb HP Hk. apply wp_create_checked. intros [Hs _]%andb_true_iff.
  destruct (align_spec cb Hs Hcb) as (n&Hn&Heq&Hlt&_). apply andb_true_iff in Hs as [_ Hle%Z.leb_le]. rewrite Heq in *.
  eapply wp_mono; [by apply Hk|]. intros r O' L'. apply created_mono. intros o Ho. destruct (HP _ _ Ho) as [[Ht Hc] Hcont]. rewrite Hc. by split_and!; [|lia|lia|].
Qed.

Lemma contig_type o : mo_enmType o ≠ RTR0MEMOBJTYPE_CONT → mo_enmType o ≠ RTR0MEMOBJTYPE_PHYS → contig o.
Proof. by intros H1 H2 [|]. Qed.

(** Only the type matters, or the pages do follow one another. *)
Ltac sized := intros ? o [? ?] || intros ? o ?; unfold is_obj in *; split; [naive_solver|];
  first [solve [intros _ _; naive_solver] | apply contig_type; intuition congruence].

Lemma create_api_AllocPage pMemObj cb fx :
  cb < 2 ^ 64 → wp (RTR0MemObjAllocPageTag pMemObj cb fx) (created_api true RTR0MEMOBJTYPE_PAGE cb) O L.
Proof.
  intros Hcb. unfold RTR0MemObjAllocPageTag. rewrite <- (andb_true_r (size_ok _ _)).
  apply (wp_create_sized _ _ _ (λ cb, rtR0MemObjNativeAllocPage cb fx) true _ (is_obj RTR0MEMOBJTYPE_PAGE)); [done|sized|].
  intros n Hn Hlt. by apply create_AllocPage.
Qed.

Lemma create_api_AllocLow pMemObj cb fx :
  cb < 2 ^ 64 → wp (RTR0MemObjAllocLowTag pMemObj cb fx) (created_api true RTR0MEMOBJTYPE_LOW cb) O L.
Proof.
  intros Hcb. unfold RTR0MemObjAllocLowTag. rewrite <- (andb_true_r (size_ok _ _)).
  apply (wp_create_sized _ _ _ (λ cb, rtR0MemObjNativeAllocLow cb fx) true _ (is_obj RTR0MEMOBJTYPE_LOW)); [done|sized|].
  intros n Hn Hlt. by apply create_AllocLow.
Qed.

Lemma create_api_AllocCont pMemObj cb fx :
  cb < 2 ^ 64 → wp (RTR0MemObjAllocContTag pMemObj cb fx) (created_api true RTR0MEMOBJTYPE_CONT cb) O L.
Proof.
  intros Hcb. unfold RTR0MemObjAllocContTag. rewrite <- (andb_true_r (size_ok _ _)).
  apply (wp_create_sized _ _ _ (λ cb, rtR0MemObjNativeAllocCont cb fx) true _ (λ n o, is_obj RTR0MEMOBJTYPE_CONT n o ∧ cont_ok o));
    [done|sized|]. intros n Hn Hlt. by apply create_AllocCont.
Qed.

Lemma create_api_AllocPhysEx pMemObj cb hi al :
  cb < 2 ^ 64 →
  wp (RTR0MemObjAllocPhysExTag pMemObj cb hi al)
    (created_api ((if al =? 0 then PAGE_SIZE else al) <=? PAGE_SIZE) RTR0MEMOBJTYPE_PHYS cb) O L.
Proof.
  intros Hcb. unfold RTR0MemObjAllocPhysExTag. set (al' := if al =? 0 then _ else _). rewrite <- andb_assoc.
  apply (wp_create_sized _ _ _ (λ cb, rtR0MemObjNativeAllocPhys cb hi al') _ _
    (λ n o, is_obj RTR0MEMOBJTYPE_PHYS n o ∧ (RTR0MEMOBJTYPE_PHYS = RTR0MEMOBJTYPE_PHYS → cont_ok o))); [done|sized|].
  intros n Hn Hlt. apply create_AllocPhysSub; auto.
Qed.

Lemma create_api_AllocPhys pMemObj cb hi :
  cb < 2 ^ 64 → wp (RTR0MemObjAllocPhysTag pMemObj cb hi) (created_api true RTR0MEMOBJTYPE_PHYS cb) O L.
Proof.
  intros Hcb. unfold RTR0MemObjAllocPhysTag.
  apply (wp_create_sized _ _ _ (λ cb, rtR0MemObjNativeAllocPhys cb hi PAGE_SIZE) (PAGE_SIZE <=? PAGE_SIZE) _
    (λ n o, is_obj RTR0MEMOBJTYPE_PHYS n o ∧ (RTR0MEMOBJTYPE_PHYS = RTR0MEMOBJTYPE_PHYS → cont_ok o))); [done|sized|].
  intros n Hn Hlt. apply create_AllocPhysSub; auto.
Qed.

Lemma create_api_AllocPhysNC pMemObj cb hi :
  cb < 2 ^ 64 → wp (RTR0MemObjAllocPhysNCTag pMemObj cb hi) (created_api true RTR0MEMOBJTYPE_PHYS_NC cb) O L.
Proof.
  intros Hcb. unfold RTR0MemObjAllocPhysNCTag.
  apply (wp_create_sized _ _ _ (λ cb, rtR0MemObjNativeAllocPhysNC cb hi) (PAGE_SIZE <=? PAGE_SIZE) _
    (λ n o, is_obj RTR0MEMOBJTYPE_PHYS_NC n o ∧ (RTR0MEMOBJTYPE_PHYS_NC = RTR0MEMOBJTYPE_PHYS → cont_ok o))); [done|sized|].
  intros n Hn Hlt. apply create_AllocPhysSub; auto.
Qed.

Lemma create_api_ReserveKernel pMemObj fixed cb al :
  cb < 2 ^ 64 → wp (RTR0MemObjReserveKernelTag pMemObj fixed cb al) (created_api true RTR0MEMOBJTYPE_RES_VIRT cb) O L.
Proof.
  intros Hcb. unfold RTR0MemObjReserveKernelTag. rewrite andb_comm.
  apply (wp_create_sized _ _ _ (λ cb, rtR0MemObjNativeReserveKernel fixed cb (align_default al)) true _
    (λ n o, is_obj RTR0MEMOBJTYPE_RES_VIRT n o ∧ mo_uWord0 o = NIL_RTR0PROCESS)); [done|sized|].
  intros n Hn Hlt. by apply create_ReserveKernel.
Qed.

Lemma create_api_ReserveUser c pMemObj fixed cb al proc :
  cb < 2 ^ 64 → fMm c = true → NIL_RTR0PROCESS ≠ hSelf c →
  wp (RTR0MemObjReserveUserTag c pMemObj fixed cb al proc) (created_api true RTR0MEMOBJTYPE_RES_VIRT cb) O L.
Proof.
  intros Hcb Hmm Hnil. unfold RTR0MemObjReserveUserTag. rewrite andb_comm.
  apply (wp_create_sized _ _ _ (λ cb, rtR0MemObjNativeReserveUser c fixed cb (align_default al) (self_if_nil c proc)) true _
    (λ n o, is_obj RTR0MEMOBJTYPE_RES_VIRT n o ∧ mo_uWord0 o = self_if_nil c proc)); [done|sized|].
  intros n Hn Hlt. by apply create_ReserveUser.
Qed.

(** ** Ranges *)

(** The pages of an object cover a range that starts within the first one. *)
Definition covers (start : Z) (o : RTR0MEMOBJLNX) (p cb : Z) : Prop := start ≤ p < start + PAGE_SIZE ∧ p + cb ≤ start + mo_cb o.

(** Rounding a range outward to pages. *)
Lemma range_spec p cb :
  0 ≤ p < 2 ^ 64 → 0 ≤ cb < 2 ^ 64 → size_ok cb (RT_ALIGN_PAGE (u64 (cb + Z.land p PAGE_OFFSET_MASK))) = true →
  let cbAligned := RT_ALIGN_PAGE (u64 (cb + Z.land p PAGE_OFFSET_MASK)) in
  let pAligned := Z.land p (u64 (Z.lnot PAGE_OFFSET_MASK)) in
  ∃ n : nat, (0 < n)%nat ∧ cbAligned = Z.of_nat n * PAGE_SIZE ∧ cbAligned < 2 ^ 64
    ∧ pAligned ≤ p < pAligned + PAGE_SIZE ∧ p + cb ≤ pAligned + cbAligned.
Proof.
  intros Hp Hcb Hs. cbv zeta. change (u64 (Z.lnot PAGE_OFFSET_MASK)) with 0xfffffffffffff000. rewrite land_page_mask by lia.
  rewrite land_page_off in *. pose proof (Z.mod_pos_bound p PAGE_SIZE eq_refl). pose proof (Z.div_mod p PAGE_SIZE).
  unfold size_ok in Hs. change PAGE_SIZE with 4096 in *. set (x := cb + p mod 4096) in *.
  assert (Hx : u64 x = x).
  { apply u64_small. split; [lia|]. destruct (Z.lt_ge_cases x (2 ^ 64)) as [|Hge]; [done|]. exfalso.
    assert (Hu : u64 x = x - 2 ^ 64) by (unfold u64; symmetry; apply (Z.mod_unique_pos _ _ 1); lia).
    rewrite Hu in Hs. unfold RT_ALIGN_PAGE in Hs. rewrite u64_small, land_page_mask in Hs by lia.
    pose proof (Z.mul_div_le (x - 2 ^ 64 + 0xfff) PAGE_SIZE eq_refl). change PAGE_SIZE with 4096 in *. lia. }
  pose proof (u64_range x). rewrite Hx in *. destruct (align_wraps x) as [E|Hge]; [done|rewrite E in Hs; lia|].
  destruct (align_spec x) as (n&Hn&Heq&Hlt&_); [unfold size_ok; lia|lia|].
  exists n. rewrite Heq in *. split_and!; [done|done|done|lia|lia|]. lia.
Qed.

Lemma create_api_LockUser c pMemObj R3Ptr cb fa proc :
  0 ≤ R3Ptr < 2 ^ 64 → 0 ≤ cb ≤ 2 ^ 42 → fMm c = true → NIL_RTR0PROCESS ≠ hSelf c →
  wp (RTR0MemObjLockUserTag c pMemObj R3Ptr cb fa proc)
    (created true (λ o, mo_enmType o = RTR0MEMOBJTYPE_LOCK ∧ contig o ∧ covers (mo_pv o) o R3Ptr cb) (O, L)) O L.
Proof.
  intros Hp Hcb Hmm Hnil. unfold RTR0MemObjLockUserTag. apply wp_create_checked. intros [Hs _]%andb_true_iff.
  destruct (range_spec R3Ptr cb Hp) as (n&Hn&Heq&Hlt&Hr1&Hr2); [lia|done|]. rewrite Heq in *.
  assert (Z.of_nat n < 2 ^ 31).
  { pose proof Heq as E. unfold RT_ALIGN_PAGE in E. rewrite land_page_off in E. pose proof (Z.mod_pos_bound R3Ptr PAGE_SIZE eq_refl).
    change PAGE_SIZE with 4096 in *. rewrite (u64_small (cb + _)), u64_small, land_page_mask in E by lia.
    change PAGE_SIZE with 4096 in *. pose proof (Z.mul_div_le (cb + R3Ptr mod 4096 + 0xfff) 4096 eq_refl). lia. }
  eapply wp_mono; [by apply create_LockUser|]. intros r O' L'. apply created_mono. intros o ([Ht Hc]&Hpv&_).
  split; [done|]. split; [apply contig_type; congruence|]. unfold covers. rewrite Hc, Hpv. lia.
Qed.

Lemma create_api_LockKernel pMemObj pv cb fa :
  0 ≤ pv < 2 ^ 64 → 0 ≤ cb < 2 ^ 64 →
  wp (RTR0MemObjLockKernelTag pMemObj pv cb fa)
    (created true (λ o, mo_enmType o = RTR0MEMOBJTYPE_LOCK ∧ contig o ∧ covers (mo_pv o) o pv cb) (O, L)) O L.
Proof.
  intros Hp Hcb. unfold RTR0MemObjLockKernelTag. apply wp_create_checked. intros Hs.
  destruct (range_spec pv cb Hp Hcb Hs) as (n&Hn&Heq&Hlt&Hr1&Hr2). rewrite Heq in *.
  destruct (negb _); [by apply wp_ret, created_fail|]. destruct (negb _); [by apply wp_ret, created_fail|].
  eapply wp_mono; [by apply create_LockKernel|]. intros r O' L'. apply created_mono. intros o ([Ht Hc]&Hpv&_).
  split; [done|]. split; [apply contig_type; congruence|]. unfold covers. rewrite Hc, Hpv. lia.
Qed.

Lemma create_api_EnterPhys pMemObj Phys cb pol :
  0 ≤ Phys < 2 ^ 64 → 0 ≤ cb < 2 ^ 64 →
  wp (RTR0MemObjEnterPhysTag pMemObj Phys cb pol)
    (created true (λ o, mo_enmType o = RTR0MEMOBJTYPE_PHYS ∧ contig o ∧ covers (mo_uWord0 o) o Phys cb) (O, L)) O L.
Proof.
  intros Hp Hcb. unfold RTR0MemObjEnterPhysTag. apply wp_create_checked. intros [[Hs _]%andb_true_iff _]%andb_true_iff.
  destruct (range_spec Phys cb Hp Hcb Hs) as (n&Hn&Heq&Hlt&Hr1&Hr2). rewrite Heq in *.
  eapply wp_mono; [by apply create_EnterPhys|]. intros r O' L'. apply created_mono. intros o ([Ht Hc]&Hw&Hc0).
  split; [done|]. split; [by intros _ ?|]. unfold covers. rewrite Hc, Hw. lia.
Qed.
End create.

(** ** Links *)

Section links.
Context `{LinuxKernel} (F : gmultiset kres) (O : gmap ptr RTR0MEMOBJLNX) (L : gmultiset kres).
Context (Hinv : memobj_inv F O L).

(** Two objects with the same links account for the same but for what they own. *)
Lemma kids_frame o o' : mo_cMappings o' = mo_cMappings o → mo_papMappings o' = mo_papMappings o → kids o' = kids o.
Proof. intros H1 H2. unfold kids. by rewrite H1, H2. Qed.

Lemma kids_snoc o c :
  0 ≤ mo_cMappings o → let o' := mo_set_mappings (mo_cMappingsAllocated o) (mo_cMappings o + 1) (mo_papMappingsPtr o)
                                   (<[mo_cMappings o := c]> (mo_papMappings o)) o in kids o' = kids o ++ [c].
Proof.
  intros Hc. unfold kids. simpl. replace (mo_cMappings o) with (Z.of_nat (Z.to_nat (mo_cMappings o))) by lia.
  set (n := Z.to_nat _). replace (Z.of_nat n + 1) with (Z.of_nat (S n)) by lia. rewrite up_to_S, fmap_app. simpl.
  rewrite lookup_insert_eq. simpl. f_equal. apply list_fmap_ext. intros i x Hx. apply lookup_up_to in Hx as [-> Hx].
  rewrite lookup_insert_ne by lia. done.
Qed.

(** Taking the last one off. *)
Lemma kids_pop o ks c n :
  kids o = ks ++ [c] → mo_cMappings o = Z.of_nat (S n) →
  default NULL (mo_papMappings o !! Z.of_nat n) = c
  ∧ kids (mo_set_mappings (mo_cMappingsAllocated o) (Z.of_nat n) (mo_papMappingsPtr o) (<[Z.of_nat n := NULL]> (mo_papMappings o)) o) = ks.
Proof.
  unfold kids. intros Hk Hc. rewrite Hc, up_to_S, fmap_app in Hk. simpl in Hk. apply app_inj_tail in Hk as [Hk ->].
  split; [done|]. simpl. rewrite <- Hk. apply list_fmap_ext. intros i x Hx. apply lookup_up_to in Hx as [-> Hx].
  by rewrite lookup_insert_ne by lia.
Qed.

Lemma inv_not_self p o : O !! p = Some o → rtR0MemObjIsMapping o = false → p ∉ kids o.
Proof.
  intros Hp Hm Hk. destruct (lk_kids _ _ _ (mi_links _ _ _ Hinv p o Hp) Hm p Hk) as (o'&Hp'&Hm'&_). congruence.
Qed.

(** ** A primary object [h] and a mapping [p] change together *)

Section relink.
Context (h p : ptr) (oh oh' oc oc' : RTR0MEMOBJLNX).
Context (Hh : O !! h = Some oh) (Hp : O !! p = Some oc).
Context (Hhm : rtR0MemObjIsMapping oh = false) (Hhm' : rtR0MemObjIsMapping oh' = false).
Context (Hpm : rtR0MemObjIsMapping oc = true) (Hpm' : rtR0MemObjIsMapping oc' = true).
Context (Hkids : ∀ q, q ≠ p → q ∈ kids oh' ↔ q ∈ kids oh).
Context (Hpar : mo_pParent oc = h ∨ mo_pParent oc = NULL).
Let O2 := <[p := oc']> (<[h := oh']> O).

Lemma relink_ne : h ≠ p.
Proof. intros ->. congruence. Qed.

Lemma relink_other q oq : q ≠ h → q ≠ p → O !! q = Some oq → account O2 q oq = account O q oq.
Proof.
  intros Hqh Hqp Hq. unfold account. f_equal. unfold live. destruct (rtR0MemObjIsMapping oq) eqn:Em; [|done].
  pose proof relink_ne. unfold O2. destruct (decide (mo_pParent oq = p)) as [->|Hne].
  { by rewrite lookup_insert_eq, Hp, Hpm, Hpm'. }
  rewrite lookup_insert_ne by done. destruct (decide (mo_pParent oq = h)) as [->|Hne'].
  - rewrite lookup_insert_eq, Hh, Hhm, Hhm'. by rewrite (bool_decide_ext _ _ (Hkids q Hqp)).
  - by rewrite lookup_insert_ne.
Qed.

Lemma msum_two f (m : gmap ptr RTR0MEMOBJLNX) ah ap :
  m !! h = Some ah → m !! p = Some ap → msum f m = f h ah ⊎ f p ap ⊎ msum f (delete p (delete h m)).
Proof.
  intros H1 H2. pose proof relink_ne. rewrite (msum_delete f m h ah H1), (msum_delete f (delete h m) p ap).
  - by rewrite (assoc_L (⊎)).
  - by rewrite lookup_delete_ne.
Qed.

Lemma relink_inv F2 L2 :
  obj_wf oh' ∧ 0 ≤ mo_cb oh' → obj_wf oc' ∧ 0 ≤ mo_cb oc' →
  0 ≤ mo_cMappings oh' ≤ mo_cMappingsAllocated oh' ∧ mo_cMappingsAllocated oh' < 2 ^ 31 + 64 →
  (0 < mo_cMappingsAllocated oh' ↔ mo_papMappingsPtr oh' ≠ NULL) → NoDup (kids oh') →
  (p ∈ kids oh' → mo_pParent oc' = h) → (mo_cMappings oc' = mo_cMappings oc ∧ mo_cMappingsAllocated oc' = mo_cMappingsAllocated oc
    ∧ mo_papMappingsPtr oc' = mo_papMappingsPtr oc) →
  L ⊎ account O2 h oh' ⊎ account O2 p oc' ⊎ F2 = L2 ⊎ account O h oh ⊎ account O p oc ⊎ F →
  memobj_inv F2 O2 L2.
Proof.
  intros Hwh Hwp Hcnt Harr Hnd Hin (Hc1&Hc2&Hc3) HL. pose proof relink_ne as Hne. destruct Hinv as [H0 Hwf Hlk HLed]. split.
  - unfold O2. rewrite !lookup_insert_ne by congruence. done.
  - intros q oq. unfold O2. intros [[<- <-]|[_ [[<- <-]|[_ Hq]]%lookup_insert_Some]]%lookup_insert_Some; [done|done|by apply (Hwf q)].
  - assert (Hkid : ∀ q oq c, O !! q = Some oq → rtR0MemObjIsMapping oq = false → c ∈ kids oq → q ≠ h →
      ∃ o, O2 !! c = Some o ∧ rtR0MemObjIsMapping o = true ∧ mo_pParent o = q).
    { intros q oq c Hq Hm Hc Hqh. destruct (lk_kids _ _ _ (Hlk q oq Hq) Hm c Hc) as (o&Ho&Hom&Hop).
      exists o. unfold O2. rewrite !lookup_insert_ne; [done| |]; intros ->; [congruence|].
      assert (o = oc) as -> by congruence. destruct Hpar; congruence. }
    intros q oq. unfold O2. intros [[<- <-]|[_ [[<- <-]|[Hqh Hq]]%lookup_insert_Some]]%lookup_insert_Some.
    + destruct (Hlk p oc Hp) as [L1 L2' L3 L4 L5]. split; rewrite ?Hc1, ?Hc2, ?Hc3; [done|done| |congruence|intros _; by apply L5].
      specialize (L5 Hpm). assert (E : mo_cMappings oc = 0) by lia. unfold kids. rewrite Hc1, E. apply NoDup_nil_2.
    + split; [done|done|done| |congruence]. intros _ c Hc. destruct (decide (c = p)) as [->|Hcp].
      * exists oc'. rewrite lookup_insert_eq. auto.
      * apply Hkids in Hc; [|done]. destruct (lk_kids _ _ _ (Hlk h oh Hh) Hhm c Hc) as (o&Ho&Hom&Hop).
        exists o. rewrite !lookup_insert_ne; [done|congruence|done].
    + destruct (Hlk q oq Hq) as [L1 L2' L3 L4 L5]. split; try done. intros Hm c Hc. by eapply Hkid.
  - rewrite (msum_two (account O2) O2 oh' oc'); [|unfold O2; by rewrite lookup_insert_ne, lookup_insert_eq|apply lookup_insert_eq].
    assert (E : delete p (delete h O2) = delete p (delete h O)).
    { unfold O2. rewrite delete_insert_ne, delete_insert_eq by done. rewrite delete_insert_eq. by rewrite delete_delete. }
    rewrite E. rewrite (msum_ext (account O2) (account O) (delete p (delete h O))).
    + rewrite HLed, (msum_two (account O) O oh oc Hh Hp) in HL. revert HL.
      generalize (account O2 h oh'), (account O2 p oc'), (account O h oh), (account O p oc), (msum (account O) (delete p (delete h O))).
      clear. intros a b x y z HL. multiset_solver.
    + intros q oq [Hqp [Hqh Hq]%lookup_delete_Some]%lookup_delete_Some. by apply relink_other.
Qed.
End relink.
End links.

(** ** Mapping through the interface *)

Section mapping.
Context `{LinuxKernel} (c : Caller) (F : gmultiset kres) (O : gmap ptr RTR0MEMOBJLNX) (L : gmultiset kres).
Context (Hinv : memobj_inv F O L) (h p : ptr) (oh oc : RTR0MEMOBJLNX).
Context (Hh : O !! h = Some oh) (Hhm : rtR0MemObjIsMapping oh = false) (Hcnt : mo_cMappings oh < 2 ^ 31).

(** How a mapping function ends: with one more object, linked to the one it maps; or with an
    error and nothing.  [w] is the process it is for. *)
Definition mapped (w : Z) (r : Z * ptr) (O' : gmap ptr RTR0MEMOBJLNX) (L' : gmultiset kres) : Prop :=
  (r.1 = VINF_SUCCESS ∧ memobj_inv F O' L' ∧ r.2 ≠ NULL ∧ O !! r.2 = None
   ∧ ∃ oh' oc', O' = <[r.2 := oc']> (<[h := oh']> O) ∧ kids oh' = kids oh ++ [r.2]
       ∧ (∃ cAlloc arr m, oh' = mo_set_mappings cAlloc (mo_cMappings oh + 1) arr m oh)
       ∧ rtR0MemObjIsMapping oc' = true ∧ mo_pParent oc' = h ∧ mo_cb oc' = mo_cb oh ∧ mo_uWord0 oc' = w)
  ∨ (RT_FAILURE r.1 = true ∧ r.2 = NULL ∧ O' = O ∧ L' = L).

(** The two structures as the link leaves them. *)
Lemma wp_Link (Q : Z → _ → _ → Prop) F1 O1 L1 :
  memobj_inv F1 O1 L1 → O1 !! h = Some oh → O1 !! p = Some oc → rtR0MemObjIsMapping oc = true → no_links oc →
  Q VERR_NO_MEMORY O1 L1 →
  (∀ cAlloc arr L2,
     let oh' := mo_set_mappings cAlloc (mo_cMappings oh + 1) arr (<[mo_cMappings oh := p]> (mo_papMappings oh)) oh in
     let oc' := mo_set_parent h oc in
     mo_cMappings oh < cAlloc < 2 ^ 31 + 64 → arr ≠ NULL →
     L2 ⊎ (if mo_papMappingsPtr oh =? NULL then ∅ else {[+ KHeap (mo_papMappingsPtr oh) +]}) = L1 ⊎ {[+ KHeap arr +]} →
     Q VINF_SUCCESS (<[p := oc']> (<[h := oh']> O1)) L2) →
  wp (rtR0MemObjLink h p) Q O1 L1.
Proof.
  intros Hinv1 Hh1 Hp1 Hpm Hnl H0 H1. assert (Hne : h ≠ p) by (intros ->; congruence).
  destruct (mi_links _ _ _ Hinv1 h oh Hh1) as [[Hc1 Hc2] Harr _ _ _].
  eapply wp_bind, wp_get; [done|].
  assert (Hfin : ∀ cAlloc arr L2 (o := mo_set_mappings cAlloc (mo_cMappings oh) arr (mo_papMappings oh) oh),
    mo_cMappings oh < cAlloc < 2 ^ 31 + 64 → arr ≠ NULL →
    L2 ⊎ (if mo_papMappingsPtr oh =? NULL then ∅ else {[+ KHeap (mo_papMappingsPtr oh) +]}) = L1 ⊎ {[+ KHeap arr +]} →
    wp (obj_upd h (λ o, mo_set_mappings (mo_cMappingsAllocated o) (u32 (mo_cMappings oh + 1)) (mo_papMappingsPtr o)
                            (<[mo_cMappings oh := p]> (mo_papMappings o)) o) ;;m
        obj_upd p (mo_set_parent h) ;;m kret VINF_SUCCESS) Q (<[h := o]> O1) L2).
  { intros cAlloc arr L2 o Hca Ha HL. eapply wp_bind, wp_upd; [apply lookup_insert_eq|]. rewrite insert_insert_eq.
    eapply wp_bind, wp_upd; [by rewrite lookup_insert_ne|]. apply wp_ret. simpl. rewrite u32_small by lia. by apply H1. }
  apply wp_bind. destruct (Z.leb_spec (mo_cMappingsAllocated oh) (mo_cMappings oh)) as [Hle|Hgt].
  - pose proof (msum_elem (account O1) O1 h oh Hh1) as Hsub.
    set (old := (if mo_papMappingsPtr oh =? NULL then ∅ else {[+ KHeap (mo_papMappingsPtr oh) +]}) : gmultiset kres).
    assert (HL : L1 = (L1 ∖ old) ⊎ old).
    { rewrite (mi_ledger _ _ _ Hinv1). revert Hsub. unfold account. fold old. generalize (msum (account O1) O1), (if live O1 h oh then owned oh else ∅).
      clear. clearbody old. intros x y Hsub. multiset_solver. }
    rewrite HL. apply wp_bind, wp_RTMemRealloc.
    + apply wp_ret. simpl. apply wp_ret. fold old. by rewrite <- HL.
    + intros arr Ha. rewrite (proj2 (Z.eqb_neq _ _) Ha). eapply wp_bind, wp_upd; [done|]. apply wp_ret. simpl.
      rewrite (u32_small (mo_cMappings oh + 32)) by lia. apply Hfin; [lia|done|]. fold old. rewrite HL at 2. clear. clearbody old. multiset_solver.
  - apply wp_ret. simpl. replace O1 with (<[h := mo_set_mappings (mo_cMappingsAllocated oh) (mo_cMappings oh) (mo_papMappingsPtr oh) (mo_papMappings oh) oh]> O1).
    + assert (Ha : mo_papMappingsPtr oh ≠ NULL) by (apply Harr; lia). apply Hfin; [lia|done|]. by rewrite (proj2 (Z.eqb_neq _ _) Ha).
    + rewrite insert_id; [done|]. rewrite Hh1. by destruct oh.
Qed.

Lemma wp_obj_destroy q o (Q : unit → _ → _ → Prop) O1 L1 :
  q ≠ NULL → O1 !! q = Some o → Q tt (delete q O1) L1 → wp (obj_destroy q) Q O1 (L1 ⊎ {[+ KHeap q +]}).
Proof. intros Hq Ho HQ. eapply wp_bind, wp_upd; [done|]. apply wp_obj_free; [done|]. by rewrite delete_insert_eq. Qed.

Lemma wp_link_or_free O1 L1 :
  add_obj p oc (O, L) (O1, L1) → rtR0MemObjIsMapping oc = true → mo_cb oc = mo_cb oh → 0 ≤ mo_cb oh →
  left_behind c oc = ∅ → wp (link_or_free c h (VINF_SUCCESS, p)) (mapped (mo_uWord0 oc)) O1 L1.
Proof.
  intros Ha Hpm Hcb Hcb0 Hlb. pose proof Ha as (Hp&HO&Hwf&Hnl&[= -> ->]). simpl in HO.
  pose proof (inv_add O p oc HO Hnl F L _ _ Hinv Ha) as Hinv1. rewrite Hpm in Hinv1. specialize (Hinv1 ltac:(lia)).
  assert (Hne : h ≠ p) by (intros ->; congruence).
  assert (Hh1 : <[p := oc]> O !! h = Some oh) by by rewrite lookup_insert_ne.
  unfold link_or_free. simpl. apply wp_bind.
  eapply (wp_Link _ _ _ _ Hinv1 Hh1 (lookup_insert_eq _ _ _) Hpm Hnl).
  - simpl. apply wp_bind. eapply wp_NativeFree; [apply lookup_insert_eq|done|]. intros o' Hwf' _ _. rewrite insert_insert_eq, Hlb.
    rewrite (right_id_L ∅ (⊎)). eapply wp_bind, wp_obj_destroy; [done|apply lookup_insert_eq|]. apply wp_ret. right.
    by rewrite delete_insert_id.
  - intros cAlloc arr L2 oh' oc' Hca Harr HL2. simpl. apply wp_ret. left. simpl.
    pose proof (mi_links _ _ _ Hinv h oh Hh) as [[Hc1 Hc2] _ Hnd _ _].
    assert (Hk : kids oh' = kids oh ++ [p]).
    { rewrite <- (kids_snoc oh p) by lia. by apply kids_frame. }
    assert (Hpk : p ∉ kids oh).
    { intros Hin. destruct (lk_kids _ _ _ (mi_links _ _ _ Hinv h oh Hh) Hhm p Hin) as (?&?&_). congruence. }
    split_and!; [done| |done|done|].
    + eapply (relink_inv _ _ _ Hinv1 h p oh oh' oc oc'); try done; [apply lookup_insert_eq|..].
      * intros q Hq. rewrite Hk, elem_of_app, list_elem_of_singleton. naive_solver.
      * right. apply Hnl.
      * destruct (mi_wf _ _ _ Hinv1 h oh Hh1) as [[H1 H2 H3 H4 H5] ?]. by split; [split|].
      * destruct (mi_wf _ _ _ Hinv1 p oc (lookup_insert_eq _ _ _)) as [[H1 H2 H3 H4 H5] ?]. by split; [split|].
      * simpl. lia.
      * simpl. split; [done|lia].
      * rewrite Hk. apply list.NoDup_app. split_and!; [done| |apply NoDup_singleton]. intros x Hx ->%list_elem_of_singleton. done.
      * unfold account, live. rewrite Hhm, Hpm. change (rtR0MemObjIsMapping oh') with (rtR0MemObjIsMapping oh).
        change (rtR0MemObjIsMapping oc') with (rtR0MemObjIsMapping oc). change (owned oh') with (owned oh).
        change (owned oc') with (owned oc). change (mo_pParent oc') with h. rewrite Hhm, Hpm.
        rewrite lookup_insert_ne, lookup_insert_eq, Hk by done. change (rtR0MemObjIsMapping oh') with (rtR0MemObjIsMapping oh).
        rewrite Hhm, bool_decide_true by (apply elem_of_app; right; by apply list_elem_of_singleton). simpl.
        destruct Hnl as (_&_&Hn1&_&Hn2). change (mo_papMappingsPtr oc') with (mo_papMappingsPtr oc). rewrite Hn1, Hn2.
        rewrite (lookup_insert_ne O p), (mi_nonnull _ _ _ Hinv) by done. rewrite (proj2 (Z.eqb_neq _ _) Harr). simpl. revert HL2.
        generalize (owned oc), (owned oh). destruct (mo_papMappingsPtr oh =? NULL); clear; intros; multiset_solver.
    + exists oh', oc'. split_and!; [|done|by repeat eexists|done..]. by rewrite (insert_insert_ne _ h p), insert_insert_eq.
Qed.
End mapping.

(** ** The mapping functions *)

Section map_api.
Context `{LinuxKernel} (c : Caller) (F : gmultiset kres) (O : gmap ptr RTR0MEMOBJLNX) (L : gmultiset kres).
Context (Hinv : memobj_inv F O L) (h : ptr) (oh : RTR0MEMOBJLNX) (Hh : O !! h = Some oh).

Lemma wf_valid o : obj_wf o → obj_valid o = true.
Proof. intros [Hm [H1 H2] _ _ _]. unfold obj_valid. rewrite Hm, !bool_decide_false by done. done. Qed.

Lemma wp_with_object {A} e (k : RTR0MEMOBJLNX → M A) (Q : A → _ → _ → Prop) :
  Q e O L → wp (k oh) Q O L → wp (with_object h e k) Q O L.
Proof.
  intros He Hk. unfold with_object. destruct (negb _); [by apply wp_ret|]. eapply wp_bind, wp_get; [done|].
  by rewrite (wf_valid oh (proj1 (mi_wf _ _ _ Hinv h oh Hh))).
Qed.

Lemma mapped_fail w rc : RT_FAILURE rc = true → mapped F O L h oh w (rc, NULL) O L.
Proof. intros Hrc. right. by split_and!. Qed.

(** A mapping into the process of the caller, or into the kernel, can be undone. *)
Lemma user_left o :
  mo_enmType o = RTR0MEMOBJTYPE_MAPPING → mo_uWord0 o = NIL_RTR0PROCESS ∨ mo_uWord0 o = hSelf c ∧ fMm c = true → left_behind c o = ∅.
Proof.
  intros Ht Hw. unfold left_behind, rtR0ProcessToLinuxTask. rewrite Ht. destruct Hw as [->|[-> ->]]; [done|].
  by rewrite Z.eqb_refl, andb_false_r.
Qed.

(** A mapping that has been made is linked. *)
Lemma wp_mapped w P (m : M (Z * ptr)) :
  rtR0MemObjIsMapping oh = false → mo_cMappings oh < 2 ^ 31 →
  (∀ o, P o → is_obj RTR0MEMOBJTYPE_MAPPING (mo_cb oh) o ∧ mo_uWord0 o = w) → w = NIL_RTR0PROCESS ∨ w = hSelf c ∧ fMm c = true →
  wp m (created true P (O, L)) O L → wp (r ←m m ;; link_or_free c h r) (mapped F O L h oh w) O L.
Proof.
  intros Hhm Hcnt HP Hw Hm. apply wp_bind. eapply wp_mono; [apply Hm|].
  intros [rc p] O' L' (st1&_&He&Hend). specialize (He eq_refl) as ->. simpl in *. destruct Hend as [[-> (o&Ha&Ho)]|(Hrc&->&[= -> ->])].
  - destruct (HP o Ho) as [[Ht Hcb] How]. rewrite <- How. eapply wp_link_or_free; try done.
    + unfold rtR0MemObjIsMapping. by apply bool_decide_eq_true.
    + by apply (mi_wf _ _ _ Hinv h oh Hh).
    + apply user_left; [by rewrite Ht|by rewrite How].
  - unfold link_or_free. simpl. rewrite (RT_FAILURE_SUCCESS _ Hrc). by apply wp_ret, mapped_fail.
Qed.

Lemma mappable_spec : mappable oh = true → rtR0MemObjIsMapping oh = false ∧ mo_enmType oh ≠ RTR0MEMOBJTYPE_RES_VIRT.
Proof. unfold mappable. intros [?%negb_true_iff ?%negb_true_iff%bool_decide_eq_false]%andb_true_iff. done. Qed.

Lemma map_api_kernel pMemObj fixed al prot off cbSub :
  mo_cMappings oh < 2 ^ 31 →
  wp (RTR0MemObjMapKernelExTag c pMemObj h fixed al prot off cbSub) (mapped F O L h oh NIL_RTR0PROCESS) O L.
Proof.
  intros Hcnt. unfold RTR0MemObjMapKernelExTag. destruct (negb _); [by apply wp_ret, mapped_fail|].
  apply wp_with_object; [by apply mapped_fail|]. destruct (negb _) eqn:Hg; [by apply wp_ret, mapped_fail|].
  assert (Hm : mappable oh = true) by by destruct (mappable oh). apply mappable_spec in Hm as [Hhm _].
  eapply wp_mapped; [done|done| |by left|eapply create_MapKernel; [by eapply inv_heap_ok|done]]. by intros o (Ho&Hw&_).
Qed.

Lemma map_api_user pMemObj fixed al prot proc :
  mo_cMappings oh < 2 ^ 31 → fMm c = true → NIL_RTR0PROCESS ≠ hSelf c →
  wp (RTR0MemObjMapUserTag c pMemObj h fixed al prot proc) (mapped F O L h oh (hSelf c)) O L.
Proof.
  intros Hcnt Hmm Hnil. unfold RTR0MemObjMapUserTag. destruct (negb _); [by apply wp_ret, mapped_fail|].
  apply wp_with_object; [by apply mapped_fail|]. destruct (negb _) eqn:Hg; [by apply wp_ret, mapped_fail|].
  assert (Hm : mappable oh = true) by by destruct (mappable oh). apply mappable_spec in Hm as [Hhm Hres].
  destruct (decide (self_if_nil c proc = hSelf c)) as [E|E].
  - destruct (mi_wf _ _ _ Hinv h oh Hh) as [Hwf Hcb].
    eapply wp_mapped; [done|done| |by right|eapply create_MapUser; [by eapply inv_heap_ok|done..]].
    intros o (Ho&Hw). split; [done|congruence].
  - unfold rtR0MemObjNativeMapUser, rtR0ProcessToLinuxTask. rewrite (proj2 (Z.eqb_neq _ _) E). simpl.
    by apply wp_bind, wp_ret, wp_ret, mapped_fail.
Qed.

(** Nothing can be protected on Linux. *)
Lemma protect_api off cbSub prot (Q : Z → _ → _ → Prop) :
  (∀ rc, RT_FAILURE rc = true → Q rc O L) → wp (RTR0MemObjProtect h off cbSub prot) Q O L.
Proof.
  intros HQ. apply wp_with_object; [by apply HQ|]. destruct (negb _); [by apply wp_ret, HQ|].
  apply wp_bind, wp_ret. simpl. by apply wp_bind, wp_ret, wp_ret, HQ.
Qed.
End map_api.
