(* ===== verification/MemObjSafe.v ===== *)
(** The memory objects as a whole: freeing keeps the objects and the ledger in order, and so
    does whatever sequence of calls. *)

From S2P Require Import Prelude SupTypes MemObj MemObjLnx RtMemObj.
From stdpp Require Import gmultiset.
Local Open Scope Z_scope.

(** * Specification of the free *)

(** What the native free leaves of the mappings [l] in other processes. *)
Definition kids_left `{LinuxKernel} (c : Caller) (O : gmap ptr RTR0MEMOBJLNX) (l : list ptr) : gmultiset kres :=
  foldr (λ q acc, (match O !! q with Some o => left_behind c o | None => ∅ end) ⊎ acc) ∅ l.

(** The mappings [l] have been freed natively: their structures are still there, and nothing
    else has been touched but [h]. *)
Definition kids_freed (h : ptr) (l : list ptr) (O O' : gmap ptr RTR0MEMOBJLNX) : Prop :=
  (∀ q, q ≠ h → q ∉ l → O' !! q = O !! q)
  ∧ (∀ q, q ∈ l → ∃ o o', O !! q = Some o ∧ O' !! q = Some o' ∧ same_frame o o').

(** How the free of [h] ends: the handle is gone; a mapping has been taken out of the array of
    the object it mapped, the mappings of another object have been freed natively. *)
Definition freed (h : ptr) (oh : RTR0MEMOBJLNX) (O O' : gmap ptr RTR0MEMOBJLNX) : Prop :=
  if rtR0MemObjIsMapping oh
  then ∃ op, O !! mo_pParent oh = Some op ∧ O' = delete h (<[mo_pParent oh := unlink_mapping h op]> O)
  else ∃ O1, kids_freed h (kids oh) O O1 ∧ O' = delete h O1.

(** What it leaves in other processes. *)
Definition free_left `{LinuxKernel} (c : Caller) (O : gmap ptr RTR0MEMOBJLNX) (oh : RTR0MEMOBJLNX) : gmultiset kres :=
  left_behind c oh ⊎ (if rtR0MemObjIsMapping oh then ∅ else kids_left c O (kids oh)).

(** * Lemmas *)

Section free.
Context `{LinuxKernel} (c : Caller).

(** An object nobody lists goes. *)
Lemma inv_delete F F2 O L L' h oh :
  memobj_inv F O L → O !! h = Some oh →
  (rtR0MemObjIsMapping oh = false → kids oh = []) →
  (∀ q oq, O !! q = Some oq → rtR0MemObjIsMapping oq = false → h ∉ kids oq) →
  L' ⊎ account O h oh ⊎ F = L ⊎ F2 → memobj_inv F2 (delete h O) L'.
Proof.
  intros [H0 Hwf Hlk HL] Hh Hk0 Hno HL'. split.
  - by apply lookup_delete_None; right.
  - intros q oq [_ Hq]%lookup_delete_Some. by apply (Hwf q).
  - intros q oq [Hqh Hq]%lookup_delete_Some. destruct (Hlk q oq Hq) as [H1 H2 H3 H4 H5]. split; try done.
    intros Hm x Hx. destruct (H4 Hm x Hx) as (ox&Hox&?). exists ox. rewrite lookup_delete_ne; [done|].
    intros <-. by apply (Hno q oq Hq Hm).
  - rewrite HL, (msum_delete _ O h oh Hh) in HL'. rewrite (msum_ext (account (delete h O)) (account O)).
    + revert HL'. generalize (account O h oh), (msum (account O) (delete h O)). clear. intros x y E. multiset_solver.
    + intros q oq [Hqh Hq]%lookup_delete_Some. unfold account. f_equal. unfold live.
      destruct (rtR0MemObjIsMapping oq); [|done]. destruct (decide (mo_pParent oq = h)) as [->|Hne]; [|by rewrite lookup_delete_ne].
      rewrite lookup_delete_eq, Hh. destruct (rtR0MemObjIsMapping oh) eqn:Em; [done|]. rewrite Hk0 by done.
      by rewrite bool_decide_false by apply not_elem_of_nil.
Qed.

Lemma kids_split o n : mo_cMappings o = Z.of_nat (S n) → ∃ ks q, kids o = ks ++ [q].
Proof.
  intros Hc. unfold kids. rewrite Hc, up_to_S, fmap_app. by eexists _, _.
Qed.

(** Taking the last mapping of an object off and freeing it natively. *)
Section pop.
Context (F : gmultiset kres) (O : gmap ptr RTR0MEMOBJLNX) (L : gmultiset kres) (Hinv : memobj_inv F O L).
Context (h q : ptr) (oh oq oq' : RTR0MEMOBJLNX) (ks : list ptr) (n : nat).
Context (Hh : O !! h = Some oh) (Hq : O !! q = Some oq) (Hhm : rtR0MemObjIsMapping oh = false).
Context (Hks : kids oh = ks ++ [q]) (Hn : mo_cMappings oh = Z.of_nat (S n)).
Let oh' := mo_set_mappings (mo_cMappingsAllocated oh) (Z.of_nat n) (mo_papMappingsPtr oh) (<[Z.of_nat n := NULL]> (mo_papMappings oh)) oh.

Lemma kid_facts : rtR0MemObjIsMapping oq = true ∧ mo_pParent oq = h ∧ q ∉ ks ∧ q ≠ h.
Proof.
  pose proof (mi_links _ _ _ Hinv h oh Hh) as [_ _ Hnd Hk _]. destruct (Hk Hhm q) as (o&Ho&Hm&Hp).
  { rewrite Hks. apply elem_of_app. right. by apply list_elem_of_singleton. }
  assert (o = oq) as -> by congruence. split_and!; [done|done| |intros ->; congruence].
  rewrite Hks in Hnd. apply list.NoDup_app in Hnd as (_&Hnd&_). intros Hin. apply (Hnd q Hin). by apply list_elem_of_singleton.
Qed.

Lemma live_kid : live O q oq = true.
Proof.
  destruct kid_facts as (Hm&Hp&_&_). unfold live. rewrite Hm, Hp, Hh, Hhm. simpl. apply bool_decide_eq_true.
  rewrite Hks. apply elem_of_app. right. by apply list_elem_of_singleton.
Qed.

Lemma inv_pop L1 :
  L = L1 ⊎ owned oq → obj_wf oq' → same_frame oq oq' →
  memobj_inv (F ⊎ left_behind c oq) (<[q := oq']> (<[h := oh']> O)) (L1 ⊎ left_behind c oq).
Proof.
  intros HL Hwf' (_&Ht&_&Hcb&Hf1&Hf2&Hf3&Hf4&Hf5). destruct kid_facts as (Hm&Hp&Hni&Hne).
  destruct (kids_pop oh ks q n Hks Hn) as [_ Hk']. fold oh' in Hk'.
  pose proof (mi_links _ _ _ Hinv h oh Hh) as [[Hc1 Hc2] Harr Hnd _ _].
  assert (Hm' : rtR0MemObjIsMapping oq' = true) by (unfold rtR0MemObjIsMapping in *; by rewrite Ht).
  eapply (relink_inv _ _ _ Hinv h q oh oh' oq oq'); try done.
  - intros x Hx. rewrite Hk', Hks, elem_of_app, list_elem_of_singleton. naive_solver.
  - by left.
  - destruct (mi_wf _ _ _ Hinv h oh Hh) as [[H1 H2 H3 H4 H5] ?]. by split; [split|].
  - destruct (mi_wf _ _ _ Hinv q oq Hq) as [_ ?]. split; [done|]. by rewrite Hcb.
  - simpl. lia.
  - rewrite Hk'. rewrite Hks in Hnd. by apply list.NoDup_app in Hnd as [? _].
  - by rewrite Hf5.
  - pose proof live_kid as Hlive. unfold account. rewrite Hlive. unfold live. rewrite Hm', Hf5, Hp, Hhm.
    change (rtR0MemObjIsMapping oh') with (rtR0MemObjIsMapping oh). rewrite Hhm, lookup_insert_ne, lookup_insert_eq, Hk' by done.
    rewrite bool_decide_false by done. change (rtR0MemObjIsMapping oh') with (rtR0MemObjIsMapping oh). rewrite Hhm, Hf3, HL.
    change (owned oh') with (owned oh). change (mo_papMappingsPtr oh') with (mo_papMappingsPtr oh). simpl. clear.
    generalize (owned oh), (owned oq), (left_behind c oq). intros. multiset_solver.
Qed.
End pop.

Lemma kids_left_snoc O l q oq : O !! q = Some oq → kids_left c O (l ++ [q]) = kids_left c O l ⊎ left_behind c oq.
Proof.
  intros Hq. induction l as [|x l IH]; simpl; [rewrite Hq; clear; multiset_solver|]. by rewrite IH, (assoc_L (⊎)).
Qed.

Lemma kids_left_ext O O' l : (∀ q, q ∈ l → O' !! q = O !! q) → kids_left c O' l = kids_left c O l.
Proof.
  induction l as [|x l IH]; intros Hl; simpl; [done|]. rewrite Hl by by left. f_equal. apply IH. intros q Hq. apply Hl. by right.
Qed.

Lemma owned_sub F O L p o : memobj_inv F O L → O !! p = Some o → live O p o = true → L = (L ∖ owned o) ⊎ owned o.
Proof.
  intros Hinv Hp Hlive. rewrite (mi_ledger _ _ _ Hinv). pose proof (msum_elem (account O) O p o Hp) as Hs. revert Hs.
  unfold account at 1. rewrite Hlive. generalize (owned o), (msum (account O) O). clear. intros x y Hs. multiset_solver.
Qed.

(** An object whose mappings have all been taken off. *)
Definition bare (o : RTR0MEMOBJLNX) (m : gmap Z ptr) : RTR0MEMOBJLNX :=
  mo_set_mappings (mo_cMappingsAllocated o) 0 (mo_papMappingsPtr o) m o.

Lemma wp_free_mappings h n : ∀ F O L o (Q : Z → _ → _ → Prop),
  memobj_inv F O L → O !! h = Some o → rtR0MemObjIsMapping o = false → mo_cMappings o = Z.of_nat n →
  (∀ O' L' m, memobj_inv (F ⊎ kids_left c O (kids o)) O' L' → O' !! h = Some (bare o m) → kids_freed h (kids o) O O' →
     Q VINF_SUCCESS O' L') →
  wp (free_mappings c h n) Q O L.
Proof.
  induction n as [|n IH]; intros F O L o Q Hinv Hh Hm Hn HQ; simpl.
  - assert (Hk : kids o = []) by (unfold kids; by rewrite Hn). rewrite Hk in HQ.
    apply wp_ret, (HQ O L (mo_papMappings o)); [by simpl; rewrite (right_id_L ∅ (⊎))| |].
    + rewrite Hh. f_equal. unfold bare. destruct o; simpl in *. by subst.
    + split; [done|]. by intros q ?%not_elem_of_nil.
  - destruct (kids_split o n Hn) as (ks&q&Hks). destruct (kids_pop o ks q n Hks Hn) as [Hget Hk'].
    pose proof (mi_links _ _ _ Hinv h o Hh) as [[Hc1 Hc2] _ Hnd Hkid _].
    destruct (Hkid Hm q) as (oq&Hq&_&_); [rewrite Hks; apply elem_of_app; right; by apply list_elem_of_singleton|].
    destruct (kid_facts F O L Hinv h q o oq ks Hh Hq Hm Hks) as (Hqm&Hqp&Hni&Hne).
    pose proof (live_kid F O L Hinv h q o oq ks Hh Hq Hm Hks) as Hlive.
    eapply wp_bind, wp_get; [done|]. rewrite Hn, u32_small by lia. replace (Z.of_nat (S n) - 1) with (Z.of_nat n) by lia. rewrite Hget.
    eapply wp_bind, wp_upd; [done|]. set (oh' := mo_set_mappings _ _ _ _ _) in *.
    eapply wp_bind, wp_get; [by rewrite lookup_insert_ne|]. destruct (mi_wf _ _ _ Hinv q oq Hq) as [Hwf _].
    rewrite (wf_valid oq Hwf), Hqm. simpl. rewrite (owned_sub F O L q oq Hinv Hq Hlive).
    apply wp_bind. eapply wp_NativeFree; [by rewrite lookup_insert_ne|done|]. intros oq' Hwf' Hsf _. simpl.
    pose proof (inv_pop F O L Hinv h q o oq oq' ks n Hh Hq Hm Hks Hn (L ∖ owned oq) (owned_sub F O L q oq Hinv Hq Hlive) Hwf' Hsf) as Hinv2.
    fold oh' in Hinv2. set (O2 := <[q := oq']> _) in *.
    assert (HO2 : ∀ x, x ≠ h → x ≠ q → O2 !! x = O !! x) by (intros x ??; unfold O2; by rewrite !lookup_insert_ne).
    assert (Hks2 : ∀ x, x ∈ ks → O2 !! x = O !! x).
    { intros x Hx. apply HO2; [|by intros ->]. intros ->. destruct (Hkid Hm h) as (?&?&?&_); [rewrite Hks; apply elem_of_app; by left|congruence]. }
    eapply (IH _ _ _ oh'); [done|unfold O2; by rewrite lookup_insert_ne, lookup_insert_eq|done|done|].
    intros O' L' m Hinv' Hh' [Hk1 Hk2]. rewrite Hk' in *. apply (HQ O' L' m).
    + by rewrite Hks, (kids_left_snoc _ _ q oq Hq), <- (kids_left_ext O O2 ks Hks2), (comm_L (⊎) _ (left_behind c oq)), (assoc_L (⊎)).
    + done.
    + rewrite Hks. split.
      * intros x Hxh Hx. rewrite elem_of_app, list_elem_of_singleton in Hx. rewrite Hk1 by naive_solver. apply HO2; naive_solver.
      * intros x [Hx| ->%list_elem_of_singleton]%elem_of_app.
        -- rewrite <- (Hks2 x Hx). by apply Hk2.
        -- exists oq, oq'. split_and!; [done| |done]. rewrite Hk1 by done. apply lookup_insert_eq.
Qed.

(** ** Taking a mapping out of the array *)

Lemma find_mapping_spec m p n :
  p ∈ ((λ i, default NULL (m !! i)) <$> up_to (Z.of_nat n)) →
  ∃ i : nat, find_mapping m p n = Some (Z.of_nat i) ∧ (i < n)%nat ∧ default NULL (m !! Z.of_nat i) = p.
Proof.
  induction n as [|n IH]; [by intros ?%not_elem_of_nil|]. rewrite up_to_S, fmap_app, elem_of_app. simpl. intros Hp.
  destruct (Z.eqb_spec (default NULL (m !! Z.of_nat n)) p) as [E|E]; [by exists n; auto with lia|].
  destruct Hp as [Hp|Hp%list_elem_of_singleton]; [|congruence]. destruct (IH Hp) as (i&?&?&?). exists i. auto with lia.
Qed.

Lemma perm_eq {A} (l l' : list A) : l = l' → l ≡ₚ l'.
Proof. by intros ->. Qed.

Lemma insert_swap {A} (l : list A) i x y : l !! i = Some x → l ++ [y] ≡ₚ x :: <[i := y]> l.
Proof.
  revert i. induction l as [|z l IH]; intros i Hi; [done|]. destruct i as [|i]; simpl in *.
  - injection Hi as ->. constructor. by rewrite <- Permutation_cons_append.
  - rewrite (IH i Hi). constructor.
Qed.

Lemma unlink_spec p o :
  p ∈ kids o → 0 ≤ mo_cMappings o < 2 ^ 32 →
  kids o ≡ₚ p :: kids (unlink_mapping p o)
  ∧ ∃ m, unlink_mapping p o = mo_set_mappings (mo_cMappingsAllocated o) (mo_cMappings o - 1) (mo_papMappingsPtr o) m o
  ∧ 0 < mo_cMappings o.
Proof.
  intros Hp Hc. set (n := Z.to_nat (mo_cMappings o)). assert (Hn : mo_cMappings o = Z.of_nat n) by lia.
  unfold kids in Hp. rewrite Hn in Hp. destruct (find_mapping_spec _ _ _ Hp) as (i&Hf&Hi&Hg).
  unfold unlink_mapping. fold n. rewrite Hf, u32_small by lia. split; [|by eexists; split; [done|lia]].
  destruct n as [|n']; [lia|]. unfold kids at 2. simpl. rewrite Hn. replace (Z.of_nat (S n') - 1) with (Z.of_nat n') by lia.
  set (f := λ i, default NULL (mo_papMappings o !! i)) in *. unfold kids. rewrite Hn. fold f. rewrite up_to_S, fmap_app. simpl.
  fold (f (Z.of_nat n')). change (f (Z.of_nat i) = p) in Hg. assert (Hl : length (f <$> up_to (Z.of_nat n')) = n') by by rewrite length_fmap, length_up_to.
  destruct (decide (i = n')) as [->|Hne].
  - rewrite Hg, <- Permutation_cons_append. constructor. apply perm_eq. apply list_fmap_ext.
    intros j x Hx. apply lookup_up_to in Hx as [-> Hx]. by rewrite lookup_insert_ne by lia.
  - rewrite (insert_swap _ i p).
    + constructor. apply perm_eq. apply list_eq. intros j. destruct (decide (j = i)) as [->|Hji].
      * rewrite list_lookup_insert_eq by lia. symmetry. apply list_lookup_fmap_Some. exists (Z.of_nat i).
        split; [|unfold up_to; rewrite lookup_seqZ; lia]. by rewrite lookup_insert_eq.
      * rewrite list_lookup_insert_ne by done. rewrite !list_lookup_fmap. destruct (up_to _ !! j) as [x|] eqn:Ex; [|done].
        apply lookup_up_to in Ex as [-> Ex]. simpl. by rewrite lookup_insert_ne by lia.
    + apply list_lookup_fmap_Some. exists (Z.of_nat i). split; [done|]. unfold up_to. rewrite lookup_seqZ. lia.
Qed.

(** ** Freeing the handle *)

Lemma heap_split F O L p o : memobj_inv F O L → O !! p = Some o → L = (L ∖ {[+ KHeap p +]}) ⊎ {[+ KHeap p +]}.
Proof. intros Hinv Hp. pose proof (inv_heap_ok F O L Hinv p ltac:(by eexists)). multiset_solver. Qed.

(** What a primary object without mappings accounts for. *)
Lemma account_primary O h oh : rtR0MemObjIsMapping oh = false →
  account O h oh = {[+ KHeap h +]} ⊎ (if mo_papMappingsPtr oh =? NULL then ∅ else {[+ KHeap (mo_papMappingsPtr oh) +]}) ⊎ owned oh.
Proof. intros Hm. unfold account, live. by rewrite Hm. Qed.

Lemma wp_free_primary F O L h oh (Q : Z → _ → _ → Prop) :
  memobj_inv F O L → O !! h = Some oh → rtR0MemObjIsMapping oh = false → kids oh = [] →
  (∀ L', memobj_inv (F ⊎ left_behind c oh) (delete h O) L' → Q VINF_SUCCESS (delete h O) L') →
  wp (free_object c h) Q O L.
Proof.
  intros Hinv Hh Hm Hk HQ. destruct (mi_wf _ _ _ Hinv h oh Hh) as [Hwf _].
  assert (Hne : h ≠ NULL) by (intros ->; by rewrite (mi_nonnull _ _ _ Hinv) in Hh).
  pose proof (msum_elem (account O) O h oh Hh) as Hs. pose proof (account_primary O h oh Hm) as Hacc.
  set (arr := (if mo_papMappingsPtr oh =? NULL then ∅ else {[+ KHeap (mo_papMappingsPtr oh) +]}) : gmultiset kres) in *.
  rewrite Hacc in Hs. assert (HL : ∃ L1, L = L1 ⊎ {[+ KHeap h +]} ⊎ arr ⊎ owned oh).
  { exists (L ∖ ({[+ KHeap h +]} ⊎ arr ⊎ owned oh)). rewrite (mi_ledger _ _ _ Hinv). revert Hs. clear. clearbody arr.
    generalize (owned oh), (msum (account O) O). intros x y Hs. multiset_solver. }
  destruct HL as [L1 HL]. rewrite HL. apply wp_bind. eapply wp_NativeFree; [done|done|].
  intros o' Hwf' (_&Ht&_&_&_&_&Hptr&_) _. simpl. eapply wp_bind, wp_get; [apply lookup_insert_eq|].
  assert (Hm' : rtR0MemObjIsMapping o' = false) by (unfold rtR0MemObjIsMapping in *; by rewrite Ht).
  rewrite Hm'. apply wp_bind, wp_ret. eapply wp_bind, wp_upd; [apply lookup_insert_eq|]. rewrite insert_insert_eq.
  eapply wp_bind, wp_get; [apply lookup_insert_eq|]. change (rtR0MemObjIsMapping (mo_set_type _ _ o')) with false. simpl. rewrite Hptr.
  assert (Hend : ∀ O', delete h O' = delete h O →
    wp (obj_free h ;;m kret VINF_SUCCESS) Q O' (L1 ⊎ left_behind c oh ⊎ {[+ KHeap h +]})).
  { intros O' HO'. apply wp_bind, wp_obj_free; [done|]. rewrite HO'. apply wp_ret, HQ.
    eapply inv_delete; [done|done|done| |].
    - intros q oq Hq Hqm Hin. destruct (lk_kids _ _ _ (mi_links _ _ _ Hinv q oq Hq) Hqm h Hin) as (?&?&?&_). congruence.
    - rewrite Hacc, HL. clear. clearbody arr. generalize (left_behind c oh), (owned oh). intros. multiset_solver. }
  apply wp_bind. unfold RTMemFree at 1. unfold arr. destruct (mo_papMappingsPtr oh =? NULL) eqn:Ep.
  - apply wp_ret. ledger (L1 ⊎ left_behind c oh ⊎ {[+ KHeap h +]}). apply Hend. by rewrite delete_insert_eq.
  - ledger (L1 ⊎ left_behind c oh ⊎ {[+ KHeap h +]} ⊎ {[+ KHeap (mo_papMappingsPtr oh) +]}). apply wp_give, Hend. by rewrite delete_insert_eq.
Qed.

Lemma wp_free_mapping F O L h oh (Q : Z → _ → _ → Prop) :
  memobj_inv F O L → O !! h = Some oh → rtR0MemObjIsMapping oh = true → live O h oh = true →
  (∀ O' L', memobj_inv (F ⊎ left_behind c oh) O' L' → freed h oh O O' → Q VINF_SUCCESS O' L') →
  wp (free_object c h) Q O L.
Proof.
  intros Hinv Hh Hm Hlive HQ. destruct (mi_wf _ _ _ Hinv h oh Hh) as [Hwf Hcb].
  assert (Hnn : h ≠ NULL) by (intros ->; by rewrite (mi_nonnull _ _ _ Hinv) in Hh).
  pose proof Hlive as Hl. unfold live in Hl. rewrite Hm in Hl. set (P := mo_pParent oh) in *.
  destruct (O !! P) as [op|] eqn:HP; [|done]. apply andb_true_iff in Hl as [Hpm%negb_true_iff Hin%bool_decide_eq_true].
  assert (Hne : h ≠ P) by (intros ->; congruence).
  pose proof (mi_links _ _ _ Hinv P op HP) as [[Hc1 Hc2] Harr Hnd Hkids _].
  pose proof (mi_links _ _ _ Hinv h oh Hh) as [_ Harr' _ _ Hnone]. specialize (Hnone Hm).
  assert (Hptr : mo_papMappingsPtr oh = NULL) by (destruct (decide (mo_papMappingsPtr oh = NULL)) as [|n]; [done|apply Harr' in n; lia]).
  destruct (unlink_spec h op Hin) as (Hperm&m&Hun&Hpos); [lia|].
  assert (HhU : h ∉ kids (unlink_mapping h op)) by (rewrite Hperm in Hnd; by apply list.NoDup_cons in Hnd as [? _]).
  rewrite (owned_sub F O L h oh Hinv Hh Hlive). apply wp_bind. eapply wp_NativeFree; [done|done|].
  intros o' Hwf' (_&Ht&_&Hcb'&Hf1&Hf2&Hf3&Hf4&Hf5) _. simpl. eapply wp_bind, wp_get; [apply lookup_insert_eq|].
  assert (Hm' : rtR0MemObjIsMapping o' = true) by (unfold rtR0MemObjIsMapping in *; by rewrite Ht).
  rewrite Hm', Hf5. fold P. apply wp_bind. eapply wp_bind, wp_get; [by rewrite lookup_insert_ne|].
  rewrite (wf_valid op (proj1 (mi_wf _ _ _ Hinv P op HP))), Hpm. replace (0 <? mo_cMappings op) with true by lia. simpl.
  eapply wp_upd; [by rewrite lookup_insert_ne|]. rewrite (insert_insert_ne _ P h) by done.
  set (O2 := <[h := o']> (<[P := unlink_mapping h op]> O)). set (L2 := _ ⊎ left_behind c oh).
  assert (Hinv2 : memobj_inv (F ⊎ left_behind c oh) O2 L2 ∧ account O2 h o' = {[+ KHeap h +]}).
  { assert (HmU : rtR0MemObjIsMapping (unlink_mapping h op) = false) by by rewrite Hun.
    assert (Hacc : account O2 h o' = {[+ KHeap h +]}).
    { unfold account, live, O2. rewrite Hm', Hf5, Hf3, Hptr. fold P. rewrite lookup_insert_ne, lookup_insert_eq, HmU by done.
      rewrite bool_decide_false by done. simpl. clear. multiset_solver. }
    split; [|done]. unfold O2. eapply (relink_inv _ _ _ Hinv P h op (unlink_mapping h op) oh o'); try done.
    - intros q Hq. rewrite Hperm, elem_of_cons. naive_solver.
    - by left.
    - rewrite Hun. destruct (mi_wf _ _ _ Hinv P op HP) as [[H1 H2 H3 H4 H5] ?]. by split; [split|].
    - split; [done|lia].
    - rewrite Hun. simpl. lia.
    - by rewrite Hun.
    - rewrite Hperm in Hnd. by apply list.NoDup_cons in Hnd as [_ ?].
    - fold O2. rewrite Hacc. rewrite (account_primary O2 P _ HmU), (account_primary O P op Hpm).
      replace (owned (unlink_mapping h op)) with (owned op) by by rewrite Hun.
      replace (mo_papMappingsPtr (unlink_mapping h op)) with (mo_papMappingsPtr op) by by rewrite Hun.
      unfold account. rewrite Hlive, Hptr. rewrite (owned_sub F O L h oh Hinv Hh Hlive) at 1. unfold L2. simpl. clear.
      generalize (L ∖ owned oh), (left_behind c oh), (owned oh), (owned op). intros. multiset_solver. }
  destruct Hinv2 as [Hinv2 Hacc]. clearbody L2. rewrite (heap_split _ O2 L2 h o' Hinv2) by apply lookup_insert_eq.
  eapply wp_bind, wp_upd; [apply lookup_insert_eq|]. unfold O2 at 1. rewrite insert_insert_eq.
  eapply wp_bind, wp_get; [apply lookup_insert_eq|]. change (rtR0MemObjIsMapping (mo_set_type _ _ o')) with false. simpl. rewrite Hf3, Hptr.
  apply wp_bind, wp_ret, wp_bind, wp_obj_free; [done|]. rewrite delete_insert_eq. apply wp_ret. apply HQ.
  - replace (delete h (<[P:=unlink_mapping h op]> O)) with (delete h O2) by (unfold O2; by rewrite delete_insert_eq).
    eapply inv_delete; [exact Hinv2|apply lookup_insert_eq|congruence| |].
    + intros q oq Hq Hqm Hin'. unfold O2 in Hq.
      destruct (lk_kids _ _ _ (mi_links _ _ _ Hinv2 q oq Hq) Hqm h Hin') as (oh''&Hoh&_&Hpar). unfold O2 in Hoh.
      rewrite lookup_insert_eq in Hoh. injection Hoh as <-. rewrite Hf5 in Hpar. fold P in Hpar. subst q.
      rewrite lookup_insert_ne, lookup_insert_eq in Hq by done. by injection Hq as <-.
    + rewrite Hacc. rewrite (heap_split _ O2 L2 h o' Hinv2) at 2 by apply lookup_insert_eq. clear. multiset_solver.
  - unfold freed. rewrite Hm. by exists op.
Qed.

Lemma kids_nil o : 0 ≤ mo_cMappings o → kids o = [] ↔ mo_cMappings o = 0.
Proof. intros Hc. pose proof (length_kids o Hc). split; intros E; [rewrite E in *; simpl in *; lia|]. apply nil_length_inv. lia. Qed.

(** A call of [RTR0MemObjFree] with a handle. *)
Lemma wp_RTR0MemObjFree F O L h oh fFree (Q : Z → _ → _ → Prop) :
  memobj_inv F O L → O !! h = Some oh → live O h oh = true →
  (VALID_PTR h = false → Q VERR_INVALID_HANDLE O L) →
  (rtR0MemObjIsMapping oh = false → kids oh ≠ [] → fFree = false → Q VERR_MEMORY_BUSY O L) →
  (VALID_PTR h = true → rtR0MemObjIsMapping oh = true ∨ kids oh = [] ∨ fFree = true →
   ∀ O' L', memobj_inv (F ⊎ free_left c O oh) O' L' → freed h oh O O' → Q VINF_SUCCESS O' L') →
  wp (RTR0MemObjFree c h fFree) Q O L.
Proof.
  intros Hinv Hh Hlive Q1 Q2 Q3. assert (Hnn : h ≠ NULL) by (intros ->; by rewrite (mi_nonnull _ _ _ Hinv) in Hh).
  unfold RTR0MemObjFree. change NIL_RTR0MEMOBJ with NULL. rewrite (proj2 (Z.eqb_neq _ _) Hnn). unfold with_object.
  destruct (VALID_PTR h) eqn:Ev; simpl; [|by apply wp_ret, Q1]. eapply wp_bind, wp_get; [done|].
  rewrite (wf_valid oh (proj1 (mi_wf _ _ _ Hinv h oh Hh))). simpl.
  pose proof (mi_links _ _ _ Hinv h oh Hh) as [[Hc1 Hc2] _ _ _ _]. pose proof (kids_nil oh ltac:(lia)) as Hnil.
  destruct (rtR0MemObjIsMapping oh) eqn:Hm; simpl.
  { apply wp_bind, wp_ret. simpl. eapply wp_free_mapping; [done..|]. intros O' L' Hi Hf. apply Q3; [done|by left| |done].
    unfold free_left. rewrite Hm. by rewrite (right_id_L ∅ (⊎)). }
  assert (Hfin : ∀ O1 L1 m, kids oh = [] ∨ fFree = true →
    memobj_inv (F ⊎ kids_left c O (kids oh)) O1 L1 → O1 !! h = Some (bare oh m) → kids_freed h (kids oh) O O1 → wp (free_object c h) Q O1 L1).
  { intros O1 L1 m Hor Hi Hh1 Hkf. eapply wp_free_primary; [done|done|done|done|]. intros L' Hi'. apply Q3; [done|by right| |].
    - unfold free_left. rewrite Hm. change (left_behind c (bare oh m)) with (left_behind c oh) in Hi'.
      by rewrite (comm_L (⊎) (left_behind c oh)), (assoc_L (⊎)).
    - unfold freed. rewrite Hm. by exists O1. }
  destruct (Z.ltb_spec 0 (mo_cMappings oh)) as [Hpos|Hz].
  - destruct fFree; simpl; [|apply wp_ret, Q2; [done| |done]; rewrite Hnil; lia].
    apply wp_bind. eapply wp_free_mappings; [done|done|done|lia|]. intros O1 L1 m Hi Hh1 Hkf. simpl. eapply Hfin; eauto.
  - assert (E : mo_cMappings oh = 0) by lia. assert (Hk : kids oh = []) by by apply Hnil. simpl. apply wp_bind, wp_ret. simpl.
    apply (Hfin O L (mo_papMappings oh)); [by left| | |].
    + rewrite Hk. simpl. by rewrite (right_id_L ∅ (⊎)).
    + rewrite Hh. f_equal. unfold bare. rewrite <- E at 1. by destruct oh.
    + split; [done|]. rewrite Hk. by intros q ?%not_elem_of_nil.
Qed.
End free.
