(* ===== verification/MemObjCalls.v ===== *)
(** The memory objects in use: the calls of the interface as the steps of a system, the
    states that are reached by them, and what holds of these. *)

From S2P Require Import Prelude SupTypes MemObj MemObjLnx RtMemObj MemObjSafe.
From stdpp Require Import gmultiset.
Local Open Scope Z_scope.

(** * Calls *)

Inductive mem_op : Type :=
| OpAllocPage (cb : Z) (fExecutable : bool)
| OpAllocLow (cb : Z) (fExecutable : bool)
| OpAllocCont (cb : Z) (fExecutable : bool)
| OpAllocPhys (cb PhysHighest : Z)
| OpAllocPhysEx (cb PhysHighest uAlignment : Z)
| OpAllocPhysNC (cb PhysHighest : Z)
| OpEnterPhys (Phys cb uCachePolicy : Z)
| OpLockUser (R3Ptr cb fAccess R0Process : Z)
| OpLockKernel (pv cb fAccess : Z)
| OpReserveKernel (pvFixed cb uAlignment : Z)
| OpReserveUser (R3PtrFixed cb uAlignment R0Process : Z)
| OpMapKernel (MemObjToMap pvFixed uAlignment fProt offSub cbSub : Z)
| OpMapUser (MemObjToMap R3PtrFixed uAlignment fProt R0Process : Z)
| OpProtect (hMemObj offSub cbSub fProt : Z)
| OpFree (MemObj : ptr) (fFreeMappings : bool).

Section calls.
Context `{LinuxKernel}.

(** A call, with the place for the handle; the handle is NULL of the calls that make none. *)
Definition exec_op (c : Caller) (pMemObj : ptr) (op : mem_op) : M (Z * ptr) :=
  match op with
  | OpAllocPage cb fExecutable => RTR0MemObjAllocPageTag pMemObj cb fExecutable
  | OpAllocLow cb fExecutable => RTR0MemObjAllocLowTag pMemObj cb fExecutable
  | OpAllocCont cb fExecutable => RTR0MemObjAllocContTag pMemObj cb fExecutable
  | OpAllocPhys cb PhysHighest => RTR0MemObjAllocPhysTag pMemObj cb PhysHighest
  | OpAllocPhysEx cb PhysHighest uAlignment => RTR0MemObjAllocPhysExTag pMemObj cb PhysHighest uAlignment
  | OpAllocPhysNC cb PhysHighest => RTR0MemObjAllocPhysNCTag pMemObj cb PhysHighest
  | OpEnterPhys Phys cb uCachePolicy => RTR0MemObjEnterPhysTag pMemObj Phys cb uCachePolicy
  | OpLockUser R3Ptr cb fAccess R0Process => RTR0MemObjLockUserTag c pMemObj R3Ptr cb fAccess R0Process
  | OpLockKernel pv cb fAccess => RTR0MemObjLockKernelTag pMemObj pv cb fAccess
  | OpReserveKernel pvFixed cb uAlignment => RTR0MemObjReserveKernelTag pMemObj pvFixed cb uAlignment
  | OpReserveUser R3PtrFixed cb uAlignment R0Process => RTR0MemObjReserveUserTag c pMemObj R3PtrFixed cb uAlignment R0Process
  | OpMapKernel h pvFixed uAlignment fProt offSub cbSub =>
      RTR0MemObjMapKernelExTag c pMemObj h pvFixed uAlignment fProt offSub cbSub
  | OpMapUser h R3PtrFixed uAlignment fProt R0Process => RTR0MemObjMapUserTag c pMemObj h R3PtrFixed uAlignment fProt R0Process
  | OpProtect h offSub cbSub fProt => rc ←m RTR0MemObjProtect h offSub cbSub fProt ;; kret (rc, NULL)
  | OpFree h fFreeMappings => rc ←m RTR0MemObjFree c h fFreeMappings ;; kret (rc, NULL)
  end.

(** Sizes and addresses have 64 bits. *)
Definition is_u64 (x : Z) : Prop := 0 ≤ x < 2 ^ 64.

(** A caller with an address space. *)
Definition user_caller (c : Caller) : Prop := fMm c = true ∧ NIL_RTR0PROCESS ≠ hSelf c.

(** What the caller has to see to: handles are those of objects, the free is not called for a
    mapping that went with what it mapped, nobody maps an object 2^31 times, calls for a process
    come from one, and no more than 4 TB are locked at once. *)
Definition op_ok (c : Caller) (O : gmap ptr RTR0MEMOBJLNX) (op : mem_op) : Prop :=
  match op with
  | OpAllocPage cb _ | OpAllocLow cb _ | OpAllocCont cb _ | OpAllocPhys cb _ | OpAllocPhysEx cb _ _ | OpAllocPhysNC cb _
  | OpReserveKernel _ cb _ => is_u64 cb
  | OpEnterPhys Phys cb _ => is_u64 Phys ∧ is_u64 cb
  | OpLockUser R3Ptr cb _ _ => is_u64 R3Ptr ∧ 0 ≤ cb ≤ 2 ^ 42 ∧ user_caller c
  | OpLockKernel pv cb _ => is_u64 pv ∧ is_u64 cb
  | OpReserveUser _ cb _ _ => is_u64 cb ∧ user_caller c
  | OpMapKernel h _ _ _ _ _ => ∃ oh, O !! h = Some oh ∧ mo_cMappings oh < 2 ^ 31
  | OpMapUser h _ _ _ _ => (∃ oh, O !! h = Some oh ∧ mo_cMappings oh < 2 ^ 31) ∧ user_caller c
  | OpProtect h _ _ _ => is_Some (O !! h)
  | OpFree h _ => h = NIL_RTR0MEMOBJ ∨ ∃ oh, O !! h = Some oh ∧ live O h oh = true
  end.

(** The calls of all processes one after the other, while the kernel changes. *)
Inductive mem_step : MemSt → MemSt → Prop :=
| mem_step_call c pMemObj op s r s' :
    op_ok c (ms_objs s) op → exec_op c pMemObj op s = Some (r, s') → mem_step s s'
| mem_step_kernel s w : mem_step s (mkMemSt (ms_objs s) (ms_ledger s) w).

(** What a call leaves with the kernel that no object in memory accounts for: freeing an
    object, or one with mappings, from a process other than the one they are mapped into. *)
Definition op_left (c : Caller) (O : gmap ptr RTR0MEMOBJLNX) (op : mem_op) (rc : Z) : gmultiset kres :=
  match op with
  | OpFree h _ =>
      if rc =? VINF_SUCCESS then match O !! h with Some oh => free_left c O oh | None => ∅ end else ∅
  | _ => ∅
  end.

(** The same steps from the start, with what has been left behind in all of them. *)
Inductive mem_run : gmultiset kres → MemSt → Prop :=
| mem_run_start w : mem_run ∅ (mkMemSt ∅ ∅ w)
| mem_run_call F s c pMemObj op r s' :
    mem_run F s → op_ok c (ms_objs s) op → exec_op c pMemObj op s = Some (r, s') →
    mem_run (F ⊎ op_left c (ms_objs s) op r.1) s'
| mem_run_kernel F s w : mem_run F s → mem_run F (mkMemSt (ms_objs s) (ms_ledger s) w).

Definition mem_reach (s : MemSt) : Prop := ∃ w, rtc mem_step (mkMemSt ∅ ∅ w) s.

(** * Specification *)

(** The calls that make an object of their own, and what they make. *)
Definition made (op : mem_op) (o : RTR0MEMOBJLNX) : Prop :=
  match op with
  | OpAllocPage cb _ => mo_enmType o = RTR0MEMOBJTYPE_PAGE ∧ cb ≤ mo_cb o
  | OpAllocLow cb _ => mo_enmType o = RTR0MEMOBJTYPE_LOW ∧ cb ≤ mo_cb o
  | OpAllocCont cb _ => mo_enmType o = RTR0MEMOBJTYPE_CONT ∧ cb ≤ mo_cb o
  | OpAllocPhys cb _ | OpAllocPhysEx cb _ _ => mo_enmType o = RTR0MEMOBJTYPE_PHYS ∧ cb ≤ mo_cb o
  | OpAllocPhysNC cb _ => mo_enmType o = RTR0MEMOBJTYPE_PHYS_NC ∧ cb ≤ mo_cb o
  | OpEnterPhys Phys cb _ => mo_enmType o = RTR0MEMOBJTYPE_PHYS ∧ covers (mo_uWord0 o) o Phys cb
  | OpLockUser p cb _ _ | OpLockKernel p cb _ => mo_enmType o = RTR0MEMOBJTYPE_LOCK ∧ covers (mo_pv o) o p cb
  | OpReserveKernel _ cb _ | OpReserveUser _ cb _ _ => mo_enmType o = RTR0MEMOBJTYPE_RES_VIRT ∧ cb ≤ mo_cb o
  | _ => False
  end.
Definition op_creates (op : mem_op) : bool :=
  match op with OpMapKernel _ _ _ _ _ _ | OpMapUser _ _ _ _ _ | OpProtect _ _ _ _ | OpFree _ _ => false | _ => true end.

(** The object a call maps. *)
Definition op_maps (op : mem_op) : option ptr :=
  match op with OpMapKernel h _ _ _ _ _ | OpMapUser h _ _ _ _ => Some h | _ => None end.

(** An allocation with a large alignment can leave objects behind. *)
Definition op_exact (op : mem_op) : bool :=
  match op with OpAllocPhysEx _ _ uAlignment => (if uAlignment =? 0 then PAGE_SIZE else uAlignment) <=? PAGE_SIZE | _ => true end.

(** What of an object does not change as long as it is there: all but its links, and for a
    mapping all but where it was mapped. *)
Definition kept (o o' : RTR0MEMOBJLNX) : Prop :=
  mo_enmType o' = mo_enmType o ∧ mo_cb o' = mo_cb o
  ∧ (rtR0MemObjIsMapping o = false → mo_pv o' = mo_pv o ∧ mo_uWord0 o' = mo_uWord0 o ∧ mo_cPages o' = mo_cPages o
       ∧ mo_apPages o' = mo_apPages o).
Definition objs_kept (O O' : gmap ptr RTR0MEMOBJLNX) : Prop :=
  ∀ q o', O' !! q = Some o' → (O !! q = None ∧ contig o') ∨ (∃ o, O !! q = Some o ∧ kept o o').

(** Only mappings into processes. *)
Definition user_maps (F : gmultiset kres) : Prop := ∀ r, r ∈ F → ∃ p cb, r = KMmap p cb.

Definition mem_good (s : MemSt) : Prop :=
  (∃ F, user_maps F ∧ memobj_inv F (ms_objs s) (ms_ledger s)) ∧ (∀ q o, ms_objs s !! q = Some o → contig o).

(** What every call keeps. *)
Definition op_post (F : gmultiset kres) (O : gmap ptr RTR0MEMOBJLNX) (O' : gmap ptr RTR0MEMOBJLNX) (L' : gmultiset kres) : Prop :=
  memobj_inv F O' L' ∧ objs_kept O O'.

(** * Lemmas *)

Lemma kept_refl o : kept o o.
Proof. by split_and!. Qed.

Lemma objs_kept_refl O : objs_kept O O.
Proof. intros q o Hq. right. exists o. split; [done|apply kept_refl]. Qed.

Lemma kept_contig o o' : kept o o' → contig o → contig o'.
Proof.
  intros (Ht&_&Hk) Hc Ht' Hn. unfold contig in Hc. rewrite Ht in Ht'.
  destruct Hk as (_&Hw&Hp&Ha). { unfold rtR0MemObjIsMapping. case_bool_decide as E; [|done]. destruct Ht'; congruence. }
  unfold cont_ok. rewrite Hw, Hp, Ha. apply Hc; [done|]. by rewrite <- Hp.
Qed.

Lemma user_maps_none : user_maps ∅.
Proof. intros r Hr. multiset_solver. Qed.

Lemma user_maps_disj F F' : user_maps F → user_maps F' → user_maps (F ⊎ F').
Proof. intros H1 H2 r [?|?]%gmultiset_elem_of_disj_union; auto. Qed.

Lemma left_user_maps c o : user_maps (left_behind c o).
Proof.
  unfold left_behind. intros r Hr. destruct (mo_enmType o); try multiset_solver.
  all: destruct (_ && _); [|multiset_solver]; apply gmultiset_elem_of_singleton in Hr as ->; eauto.
Qed.

Lemma kids_left_user_maps c O l : user_maps (kids_left c O l).
Proof.
  induction l as [|q l IH]; simpl; [apply user_maps_none|]. apply user_maps_disj; [|done].
  destruct (O !! q); [apply left_user_maps|apply user_maps_none].
Qed.

Lemma free_left_user_maps c O o : user_maps (free_left c O o).
Proof.
  apply user_maps_disj; [apply left_user_maps|]. destruct (rtR0MemObjIsMapping o); [apply user_maps_none|apply kids_left_user_maps].
Qed.

(** ** The calls that make an object *)

Lemma exec_create c p op O L :
  op_creates op = true → op_ok c O op → heap_ok O L →
  wp (exec_op c p op)
    (created (op_exact op) (λ o, made op o ∧ contig o ∧ rtR0MemObjIsMapping o = false ∧ 0 ≤ mo_cb o) (O, L)) O L.
Proof.
  assert (Hapi : ∀ e t cb r O' L', created_api O L e t cb r O' L' → 0 ≤ cb → t ≠ RTR0MEMOBJTYPE_MAPPING →
    created e (λ o, (mo_enmType o = t ∧ cb ≤ mo_cb o) ∧ contig o ∧ rtR0MemObjIsMapping o = false ∧ 0 ≤ mo_cb o) (O, L) r O' L').
  { intros e t cb r O' L' Hc Hcb Ht. eapply created_mono; [|exact Hc]. intros o (Hto&[? ?]&Hco). split_and!; try done; [|lia].
    unfold rtR0MemObjIsMapping. apply bool_decide_eq_false. congruence. }
  assert (Hcov : ∀ t (w : RTR0MEMOBJLNX → Z) a cb r O' L', 0 ≤ cb → t ≠ RTR0MEMOBJTYPE_MAPPING →
    created true (λ o, mo_enmType o = t ∧ contig o ∧ covers (w o) o a cb) (O, L) r O' L' →
    created true (λ o, (mo_enmType o = t ∧ covers (w o) o a cb) ∧ contig o ∧ rtR0MemObjIsMapping o = false ∧ 0 ≤ mo_cb o) (O, L) r O' L').
  { intros t w a cb r O' L' Hcb Ht Hc. eapply created_mono; [|exact Hc]. intros o (Hto&Hco&[? ?]). split_and!; try done; [|lia].
    unfold rtR0MemObjIsMapping. apply bool_decide_eq_false. congruence. }
  intros Hop Hok HO. destruct op; try done; simpl in *.
  - eapply wp_mono; [apply (create_api_AllocPage O L HO); apply Hok|]. intros r O' L' Hc. apply Hapi in Hc; [done|apply Hok|done].
  - eapply wp_mono; [apply (create_api_AllocLow O L HO); apply Hok|]. intros r O' L' Hc. apply Hapi in Hc; [done|apply Hok|done].
  - eapply wp_mono; [apply (create_api_AllocCont O L HO); apply Hok|]. intros r O' L' Hc. apply Hapi in Hc; [done|apply Hok|done].
  - eapply wp_mono; [apply (create_api_AllocPhys O L HO); apply Hok|]. intros r O' L' Hc. apply Hapi in Hc; [done|apply Hok|done].
  - eapply wp_mono; [apply (create_api_AllocPhysEx O L HO); apply Hok|]. intros r O' L' Hc. apply Hapi in Hc; [done|apply Hok|done].
  - eapply wp_mono; [apply (create_api_AllocPhysNC O L HO); apply Hok|]. intros r O' L' Hc. apply Hapi in Hc; [done|apply Hok|done].
  - destruct Hok as [H1 H2]. eapply wp_mono; [by apply (create_api_EnterPhys O L HO)|]. intros r O' L' Hc. apply (Hcov _ mo_uWord0); [apply H2|done|done].
  - destruct Hok as (H1&H2&H3&H4). eapply wp_mono; [by apply (create_api_LockUser O L HO)|]. intros r O' L' Hc. apply (Hcov _ mo_pv); [apply H2|done|done].
  - destruct Hok as [H1 H2]. eapply wp_mono; [by apply (create_api_LockKernel O L HO)|]. intros r O' L' Hc. apply (Hcov _ mo_pv); [apply H2|done|done].
  - eapply wp_mono; [apply (create_api_ReserveKernel O L HO); apply Hok|]. intros r O' L' Hc. apply Hapi in Hc; [done|apply Hok|done].
  - destruct Hok as (H1&H2&H3). eapply wp_mono; [apply (create_api_ReserveUser O L HO); [apply H1|done|done]|].
    intros r O' L' Hc. apply Hapi in Hc; [done|apply H1|done].
Qed.

(** More objects. *)
Definition objs_added (O O' : gmap ptr RTR0MEMOBJLNX) : Prop := O ⊆ O' ∧ objs_kept O O'.

Lemma objs_added_insert O O' p o : objs_added O O' → O' !! p = None → contig o → objs_added O (<[p := o]> O').
Proof.
  intros [Hs Hk] Hp Hc. assert (Hn : O !! p = None) by by eapply lookup_weaken_None. split; [by apply insert_subseteq_r|].
  intros q oq [[<- <-]|[_ Hq]]%lookup_insert_Some; [by left|by apply Hk].
Qed.

Lemma add_some_added st st' : rtc add_some st st' → objs_added st.1 st'.1.
Proof.
  revert st'. apply (rtc_ind_r (λ st', objs_added st.1 st'.1)); [split; [done|apply objs_kept_refl]|].
  intros st1 st2 _ (p&o&(_&Hp&_&_&->)&_&_&Hc0) IH.
  apply objs_added_insert; [done|done|]. by intros _ ?.
Qed.

Lemma created_post F O L e P r O' L' :
  memobj_inv F O L → created e (λ o, P o ∧ contig o ∧ rtR0MemObjIsMapping o = false ∧ 0 ≤ mo_cb o) (O, L) r O' L' →
  op_post F O O' L'.
Proof.
  intros Hinv Hc. split.
  - eapply inv_created; [done|exact Hc|]. naive_solver.
  - destruct Hc as (st1&Hs&_&Hend). apply add_some_added in Hs. destruct Hend as [[_ (o&(_&Hp&_&_&[= -> ->])&_&Hco&_)]|(_&_&<-)].
    + by apply objs_added_insert.
    + apply Hs.
Qed.

(** ** The calls that map *)

Lemma mapped_post F O L h oh w r O' L' :
  memobj_inv F O L → O !! h = Some oh → mapped F O L h oh w r O' L' → op_post F O O' L'.
Proof.
  intros Hinv Hh [(_&Hi&Hp&Hnone&oh'&oc'&->&_&(ca&arr&m&->)&Hm&_)|(_&_&->&->)].
  - split; [done|].
    intros q oq [[<- <-]|[_ [[<- <-]|[_ Hq]]%lookup_insert_Some]]%lookup_insert_Some.
    + left. split; [done|]. apply contig_type; intros E; unfold rtR0MemObjIsMapping in Hm; by rewrite E in Hm.
    + right. exists oh. split; [done|by split_and!].
    + right. exists oq. split; [done|apply kept_refl].
  - split; [done|apply objs_kept_refl].
Qed.

(** ** The free *)

Lemma freed_kept F O L h oh O' : memobj_inv F O L → O !! h = Some oh → freed h oh O O' → objs_kept O O'.
Proof.
  intros Hinv Hh Hf q oq Hq. right. unfold freed in Hf. destruct (rtR0MemObjIsMapping oh) eqn:Hm.
  - destruct Hf as (op&HP&->). apply lookup_delete_Some in Hq as [_ Hq]. apply lookup_insert_Some in Hq as [[<- <-]|[_ Hq]].
    + exists op. split; [done|]. unfold unlink_mapping. destruct (find_mapping _ _ _); by split_and!.
    + exists oq. split; [done|apply kept_refl].
  - destruct Hf as (O1&[Hk1 Hk2]&->). apply lookup_delete_Some in Hq as [Hqh Hq].
    destruct (decide (q ∈ kids oh)) as [Hin|Hin].
    + destruct (Hk2 q Hin) as (o&o'&Ho&Ho'&(_&Ht&_&Hcb&_)). assert (o' = oq) as -> by congruence.
      exists o. split; [done|]. split_and!; [done|done|]. intros Hm'.
      destruct (lk_kids _ _ _ (mi_links _ _ _ Hinv h oh Hh) Hm q Hin) as (?&?&?&_). congruence.
    + rewrite Hk1 in Hq by done. exists oq. split; [done|apply kept_refl].
Qed.

(** ** Every call *)

Lemma exec_op_post c p op F O L :
  memobj_inv F O L → op_ok c O op →
  wp (exec_op c p op) (λ r O' L', op_post (F ⊎ op_left c O op r.1) O O' L') O L.
Proof.
  intros Hinv Hok. pose proof (mi_nonnull _ _ _ Hinv) as Hnn.
  assert (Hsame : op_post (F ⊎ ∅) O O L) by (rewrite (right_id_L ∅ (⊎)); split; [done|apply objs_kept_refl]).
  destruct (op_creates op) eqn:Hc.
  - eapply wp_mono; [apply exec_create; [done|done|by eapply inv_heap_ok]|]. intros r O' L' Hr.
    assert (op_left c O op r.1 = ∅) as -> by by destruct op. rewrite (right_id_L ∅ (⊎)). by eapply created_post.
  - destruct op; try done; simpl in *.
    + destruct Hok as (oh&Hh&Hcnt). eapply wp_mono; [by eapply map_api_kernel|]. intros r O' L'.
      rewrite (right_id_L ∅ (⊎)). by apply mapped_post.
    + destruct Hok as [(oh&Hh&Hcnt) [Hmm Hn]]. eapply wp_mono; [by eapply map_api_user|]. intros r O' L'.
      rewrite (right_id_L ∅ (⊎)). by apply mapped_post.
    + destruct Hok as [oh Hh]. eapply wp_bind, protect_api; [done|done|]. intros rc _. by apply wp_ret.
    + apply wp_bind. destruct Hok as [->|(oh&Hh&Hlive)].
      { apply wp_ret, wp_ret. change NIL_RTR0MEMOBJ with NULL. rewrite Hnn. by simpl. }
      rewrite Hh. eapply wp_RTR0MemObjFree; [done..| | |].
      * intros _. by apply wp_ret.
      * intros _ _ _. by apply wp_ret.
      * intros _ _ O' L' Hi Hf. apply wp_ret. split; [exact Hi|by eapply freed_kept].
Qed.

Lemma exec_op_runs c p op s F :
  memobj_inv F (ms_objs s) (ms_ledger s) → op_ok c (ms_objs s) op →
  ∃ r s', exec_op c p op s = Some (r, s')
    ∧ op_post (F ⊎ op_left c (ms_objs s) op r.1) (ms_objs s) (ms_objs s') (ms_ledger s').
Proof.
  intros Hinv Hok. destruct s as [O L w]. pose proof (exec_op_post c p op F O L Hinv Hok w) as Hw. simpl in *.
  destruct (exec_op _ _ _ _) as [[r s']|]; [|done]. by exists r, s'.
Qed.

Lemma op_left_user_maps c O op rc : user_maps (op_left c O op rc).
Proof.
  destruct op; try apply user_maps_none. simpl. destruct (rc =? VINF_SUCCESS); [|apply user_maps_none].
  destruct (O !! _); [apply free_left_user_maps|apply user_maps_none].
Qed.

Lemma step_good s s' : mem_step s s' → mem_good s → mem_good s' ∧ objs_kept (ms_objs s) (ms_objs s').
Proof.
  intros [c p op s0 r s1 Hok He|s0 w] [(F&HF&Hinv) Hc]; [|split; [by split; [exists F|]|apply objs_kept_refl]].
  destruct (exec_op_runs c p op s0 F Hinv Hok) as (r'&s2&He'&Hinv'&Hk). assert (s2 = s1) as -> by congruence.
  split; [|done]. split.
  - eexists. split; [|exact Hinv']. apply user_maps_disj; [done|apply op_left_user_maps].
  - intros q o' Hq. destruct (Hk q o' Hq) as [[_ ?]|(o&Ho&Hoo)]; [done|]. eapply kept_contig; [done|by eapply Hc].
Qed.

(** The same states, with the account of what has been left behind. *)
Lemma mem_run_inv F s : mem_run F s → memobj_inv F (ms_objs s) (ms_ledger s) ∧ user_maps F.
Proof.
  induction 1 as [w|F s c p op r s' _ [IH1 IH2] Hok He|F s w _ IH]; [split; [by split; simpl|apply user_maps_none]| |done].
  destruct (exec_op_runs c p op s F IH1 Hok) as (r'&s2&He'&Hinv'&_). simplify_eq. split; [done|].
  apply user_maps_disj; [done|apply op_left_user_maps].
Qed.

Lemma mem_reach_run s : mem_reach s ↔ ∃ F, mem_run F s.
Proof.
  split.
  - intros [w Hr]. revert s Hr.
    apply (rtc_ind_r (λ s, ∃ F, mem_run F s)); [by eexists; constructor|].
    intros s1 s2 _ [c p op s0 r s3 Hok He|s0 w'] [F HF]; eexists; by econstructor.
  - intros [F HF]. induction HF as [w|F s c p op r s' _ [w Hr] Hok He|F s w' _ [w Hr]]; exists w; [done|..];
      (eapply rtc_r; [exact Hr|]); by econstructor.
Qed.

Lemma empty_good w : mem_good (mkMemSt ∅ ∅ w).
Proof.
  split; [|by intros q o]. exists ∅. split; [apply user_maps_none|]. split; simpl; try done.
Qed.

Lemma mem_reach_good s : mem_reach s → mem_good s.
Proof.
  intros [w Hr]. assert (Hg : ∀ s0, rtc mem_step s0 s → mem_good s0 → mem_good s).
  { clear. induction 1 as [|s0 s1 s2 Hs _ IH]; [done|]. intros Hg. by apply IH, (step_good s0). }
  by eapply Hg, empty_good.
Qed.
End calls.

(** * Properties *)

Section properties.
Context `{LinuxKernel}.

(** C17. In every state that sequences of calls reach, by whatever processes and whatever the
    kernel answers, the objects are well formed; an object and its mappings list and name one
    another, each mapping once; and what has been taken from the kernel and not been given back
    is exactly what the objects in memory account for -- their structures and arrays, pages,
    reserved flags, page references and mappings -- together with [F], what the frees so far
    have left behind ([mem_run], [op_left]): for each object freed, its mapping into a process,
    or those of the mappings freed with it, if that process was not the caller.  Once all
    objects are freed exactly [F] is left, which is only mappings into processes.  The calls
    are those of [mem_op], under [op_ok]: a handle given is that of an object in memory, and
    that of a mapping is not freed any more once it went with what it mapped; sizes have 64
    bits, at most 4 TB are locked at once, an object has less than 2^31 mappings, and calls
    for a process come from it. *)
Theorem memobj_invariant F s :
  mem_run F s →
  memobj_inv F (ms_objs s) (ms_ledger s) ∧ (ms_objs s = ∅ → ms_ledger s = F) ∧ user_maps F.
Proof.
  intros [Hi HF]%mem_run_inv. split_and!; [done| |done]. intros E. rewrite (mi_ledger _ _ _ Hi), E.
  unfold msum. by rewrite map_fold_empty, (right_id_L ∅ (⊎)).
Qed.

(** C39. A call in such a state comes to an end: the calls of [mem_op] under [op_ok] (handles
    of objects in memory, a mapping's handle not used any more once it went with what it
    mapped, at most 4 TB locked at once, less than 2^31 mappings of an object, user memory
    handled by its own process) never use memory that is freed, write or read past a page
    array, or give back what they do not have, and the state they leave is again one of
    these.  Asking for the physical address of a page comes to an end as well, and changes
    nothing, for an object that is neither a reservation nor a mapping; for a reservation of
    kernel space it can read past the page array ([reservation_page_out_of_array]). *)
Theorem memobj_calls_complete s :
  mem_reach s →
  (∀ c pMemObj op, op_ok c (ms_objs s) op → ∃ r s', exec_op c pMemObj op s = Some (r, s') ∧ mem_reach s')
  ∧ ∀ h o iPage, ms_objs s !! h = Some o → rtR0MemObjIsMapping o = false →
      mo_enmType o ≠ RTR0MEMOBJTYPE_RES_VIRT → 0 ≤ iPage →
      ∃ phys, RTR0MemObjGetPagePhysAddr h iPage s = Some (phys, s).
Proof.
  intros Hr. destruct (mem_reach_good _ Hr) as [(F&_&Hi) _]. split.
  - intros c pMemObj op Hok. destruct (exec_op_runs c pMemObj op s F Hi Hok) as (r&s'&He&_). exists r, s'. split; [done|].
    destruct Hr as [w Hr]. exists w. eapply rtc_r; [done|by eapply mem_step_call].
  - intros h o iPage Hh Hm Hres Hi0. destruct (mi_wf _ _ _ Hi h o Hh) as [Hwf _].
    unfold RTR0MemObjGetPagePhysAddr, with_object. destruct (negb _); [by eexists|].
    unfold mseq, obj_get. rewrite Hh. simpl. rewrite (wf_valid o Hwf). simpl.
    destruct (Z.leb_spec (Z.shiftr (mo_cb o) PAGE_SHIFT) iPage) as [|Hlt]; [by eexists|].
    do 2 (destruct (bool_decide _); [by eexists|]). unfold rtR0MemObjNativeGetPagePhysAddr, mseq, obj_get. rewrite Hh. simpl.
    destruct (Z.eqb_spec (mo_cPages o) 0) as [E|E]; simpl.
    + destruct (mo_enmType o) eqn:Et; try by eexists. unfold rtR0MemObjIsMapping in Hm. by rewrite Et in Hm.
    + unfold page_get, mseq, obj_get. rewrite Hh. simpl. pose proof (ow_all _ Hwf Hres E). pose proof (ow_pages _ Hwf).
      destruct (mo_apPages o !! Z.to_nat iPage) as [pg|] eqn:Ep; [by eexists|]. apply lookup_ge_None in Ep. lia.
Qed.

(** C19. A handle that stays valid over a call ([op_ok]) keeps its type: the magic and the type are
    valid, the type and the size are the same, and those of an object that is not a mapping
    have the same address and pages. *)
Theorem memobj_types_stable s s' q o o' :
  mem_reach s → mem_step s s' → ms_objs s !! q = Some o → ms_objs s' !! q = Some o' → obj_wf o' ∧ kept o o'.
Proof.
  intros Hr Hs Hq Hq'. destruct (step_good s s' Hs (mem_reach_good _ Hr)) as [[(F&_&Hi) _] Hk]. split.
  - by apply (mi_wf _ _ _ Hi q o' Hq').
  - destruct (Hk q o' Hq') as [[? _]|(o0&Ho&?)]; [congruence|]. by assert (o0 = o) as -> by congruence.
Qed.

(** C31. The calls that make objects, under the conditions on handles, sizes and callers of
    [op_ok], and except for an allocation of physical memory aligned to more than a page
    ([op_exact]), which can leave an object behind when it fails ([misaligned_leaks_object]).
    A call that allocates, enters, locks or reserves either succeeds with one new object of
    the type asked for, at least as large as asked for or covering the range it was given, and
    takes exactly what that object accounts for; or it fails and has changed nothing,
    whichever of the kernel's functions failed.  A call that maps an object either succeeds
    with one new mapping of the object's size, which the object lists last, and takes exactly
    what it accounts for; or it fails and has changed nothing. *)
Theorem memobj_create_exact s c pMemObj op r s' :
  mem_reach s → op_exact op = true → op_ok c (ms_objs s) op →
  exec_op c pMemObj op s = Some (r, s') →
  let failed := RT_FAILURE r.1 = true ∧ r.2 = NULL ∧ ms_objs s' = ms_objs s ∧ ms_ledger s' = ms_ledger s in
  let made_one := r.1 = VINF_SUCCESS ∧ r.2 ≠ NULL ∧ ms_objs s !! r.2 = None in
  (op_creates op = true →
   (made_one ∧ ∃ o, made op o ∧ ms_objs s' = <[r.2 := o]> (ms_objs s)
      ∧ ms_ledger s' = ms_ledger s ⊎ {[+ KHeap r.2 +]} ⊎ owned o)
   ∨ failed)
  ∧ ∀ h, op_maps op = Some h →
    (made_one ∧ ∃ oh oh' om, ms_objs s !! h = Some oh ∧ ms_objs s' = <[r.2 := om]> (<[h := oh']> (ms_objs s))
       ∧ kept oh oh' ∧ kids oh' = kids oh ++ [r.2]
       ∧ rtR0MemObjIsMapping om = true ∧ mo_pParent om = h ∧ mo_cb om = mo_cb oh
       ∧ ∃ F, memobj_inv F (ms_objs s) (ms_ledger s) ∧ memobj_inv F (ms_objs s') (ms_ledger s'))
    ∨ failed.
Proof.
  intros Hr Hex Hok He. destruct (mem_reach_good _ Hr) as [(F&_&Hi) _]. destruct s as [O L w]. cbv zeta. simpl in *. split.
  - intros Hop. pose proof (exec_create c pMemObj op O L Hop Hok (inv_heap_ok _ _ _ Hi) w) as Hw. rewrite He in Hw.
    destruct Hw as (st1&_&E&Hend). specialize (E Hex) as ->. destruct Hend as [[Hrc (o&(Hp&HO&_&_&[= -> ->])&Hm&_)]|(Hrc&Hn&[= -> ->])].
    + left. split; [by split_and!|]. by exists o.
    + by right.
  - intros h Hop. assert (Hw : ∃ oh w', O !! h = Some oh ∧ mapped F O L h oh w' r (ms_objs s') (ms_ledger s')).
    { destruct op; simplify_eq/=.
      - destruct Hok as (oh&Hh&Hcnt). exists oh, NIL_RTR0PROCESS. split; [done|].
        pose proof (map_api_kernel c F O L Hi h oh Hh pMemObj pvFixed uAlignment fProt offSub cbSub Hcnt w) as Hw. by rewrite He in Hw.
      - destruct Hok as [(oh&Hh&Hcnt) [Hmm Hn]]. exists oh, (hSelf c). split; [done|].
        pose proof (map_api_user c F O L Hi h oh Hh pMemObj R3PtrFixed uAlignment fProt R0Process Hcnt Hmm Hn w) as Hw. by rewrite He in Hw. }
    destruct Hw as (oh&w'&Hh&[(H1&Hi'&H2&H3&oh'&om&HO'&Hk&(ca&arr&m&Hoh')&Hm&Hp&Hcb&_)|Hf]); [left|by right].
    split; [done|]. exists oh, oh', om. split_and!; try done; [by rewrite Hoh'; split_and!|by exists F].
Qed.

(** C25. Freeing a handle: an object with mappings is busy unless they are to be freed as
    well, and then nothing changes; otherwise the object goes, with what it accounts for.  A
    mapping is taken out of what it maps; the mappings of another object are undone
    before.  Only mappings into a process other than the caller's are not undone. *)
Theorem memobj_free_spec s c h oh fFree r s' :
  mem_reach s → ms_objs s !! h = Some oh → live (ms_objs s) h oh = true → VALID_PTR h = true →
  RTR0MemObjFree c h fFree s = Some (r, s') →
  let busy := negb (rtR0MemObjIsMapping oh) && negb (bool_decide (kids oh = [])) && negb fFree in
  if busy then r = VERR_MEMORY_BUSY ∧ ms_objs s' = ms_objs s ∧ ms_ledger s' = ms_ledger s
  else r = VINF_SUCCESS ∧ freed h oh (ms_objs s) (ms_objs s') ∧ ms_objs s' !! h = None
       ∧ ∃ F, memobj_inv F (ms_objs s) (ms_ledger s)
            ∧ memobj_inv (F ⊎ free_left c (ms_objs s) oh) (ms_objs s') (ms_ledger s').
Proof.
  intros Hr Hh Hlive Hv He busy. destruct (mem_reach_good _ Hr) as [(F&_&Hi) _]. destruct s as [O L w]. simpl in *.
  assert (Hw : wp (RTR0MemObjFree c h fFree) (λ r O' L',
    if busy then r = VERR_MEMORY_BUSY ∧ O' = O ∧ L' = L
    else r = VINF_SUCCESS ∧ freed h oh O O' ∧ memobj_inv (F ⊎ free_left c O oh) O' L') O L).
  { eapply wp_RTR0MemObjFree; [done..|congruence| |].
    - intros Hm Hk ->. unfold busy. rewrite Hm, bool_decide_false by done. by split_and!.
    - intros _ Hor O' L' Hi' Hf. assert (busy = false) as ->; [|done]. unfold busy.
      destruct Hor as [-> | [-> | ->]]; [done|by rewrite andb_false_r|by rewrite andb_false_r]. }
  specialize (Hw w). rewrite He in Hw. destruct busy; [done|]. destruct Hw as (->&Hf&Hi'). split_and!; [done|done| |by exists F].
  unfold freed in Hf. destruct (rtR0MemObjIsMapping oh); [destruct Hf as (op&_&->)|destruct Hf as (O1&_&->)]; apply lookup_delete_eq.
Qed.

(** The physical address of a page of a contiguous object, which the interface computes
    from the address of the first one, is what looking the page up gives, for every page
    there is. *)
Lemma memobj_phys_addr_equiv s h o iPage :
  (∀ p i, 0 ≤ i → page_to_phys (page_elem p i) = u64 (page_to_phys p + i * PAGE_SIZE)) →
  mem_reach s → ms_objs s !! h = Some o → VALID_PTR h = true →
  mo_enmType o = RTR0MEMOBJTYPE_CONT ∨ mo_enmType o = RTR0MEMOBJTYPE_PHYS → 0 ≤ iPage < Z.shiftr (mo_cb o) PAGE_SHIFT →
  RTR0MemObjGetPagePhysAddr h iPage s = rtR0MemObjNativeGetPagePhysAddr 0 h iPage s
  ∧ RTR0MemObjGetPagePhysAddr h iPage s = Some (u64 (mo_uWord0 o + iPage * PAGE_SIZE), s).
Proof.
  intros Hlaw Hr Hh Hv Ht Hi. destruct (mem_reach_good _ Hr) as [(F&_&Hinv) Hc]. specialize (Hc h o Hh).
  destruct (mi_wf _ _ _ Hinv h o Hh) as [Hwf _].
  assert (Hg : RTR0MemObjGetPagePhysAddr h iPage s = Some (u64 (mo_uWord0 o + iPage * PAGE_SIZE), s)).
  { unfold RTR0MemObjGetPagePhysAddr, with_object. rewrite Hv. simpl. unfold mseq, obj_get. rewrite Hh. simpl.
    rewrite (wf_valid o Hwf). simpl. replace (_ <=? iPage) with false by lia.
    destruct Ht as [-> | ->]; simpl; done. }
  split; [|done]. rewrite Hg. unfold rtR0MemObjNativeGetPagePhysAddr, mseq, obj_get. rewrite Hh. simpl.
  destruct (Z.eqb_spec (mo_cPages o) 0) as [E|E]; simpl.
  - unfold PAGE_SHIFT in *. rewrite Z.shiftl_mul_pow2 by lia. by destruct Ht as [-> | ->].
  - destruct (Hc Ht E) as [Hw [base Hb]]. pose proof (ow_pages _ Hwf) as [Hp0 _].
    assert (Hle : Z.shiftr (mo_cb o) PAGE_SHIFT ≤ mo_cPages o) by (apply (ow_all _ Hwf); [destruct Ht; congruence|done]).
    unfold page_get, mseq, obj_get. rewrite Hh. simpl. rewrite Hb. unfold block_pages.
    rewrite list_lookup_fmap. rewrite Z2Nat.id by lia. unfold up_to. rewrite (proj2 (lookup_seqZ _ _ _ (0 + iPage))) by lia. simpl.
    rewrite Hlaw, Hw, Hb, block_pages_hd by lia. done.
Qed.
End properties.

(** * Examples *)

(** A kernel that hands out one address after the other; its pages follow one another, and
    page structures have 64 bytes. *)
Definition demo_page_phys (pg : ptr) : Z := u64 ((pg - 0xffffea0000000000) / 64 * PAGE_SIZE).
#[local] Instance demo_linux : LinuxKernel := {|
  World := Z;
  GFP_HIGHUSER := 0x200d2; GFP_USER := 0x200d0; GFP_DMA32 := 4; GFP_DMA := 1;
  __GFP_COMP := 0x4000; __GFP_REPEAT := 0x400; __GFP_NOMEMALLOC := 0x10000;
  _PAGE_PRESENT := 1; _PAGE_RW := 2; _PAGE_NX := 2 ^ 63; VM_MAP := 4;
  PAGE_NONE := 0x101; PAGE_READONLY := 0x25; PAGE_SHARED := 0x27; PAGE_READONLY_EXEC := 0x25; PAGE_SHARED_EXEC := 0x27;
  PAGE_KERNEL := 0x163; PAGE_KERNEL_RO := 0x161; PAGE_KERNEL_EXEC := 0x163;
  PROT_NONE := 0; PROT_READ := 1; PROT_WRITE := 2; PROT_EXEC := 4;
  MAP_SHARED := 1; MAP_ANONYMOUS := 0x20; MAP_FIXED := 0x10; VM_DONTCOPY := 0x20000; VM_LOCKED := 0x2000; VM_RESERVED := 0x80000;
  PAGE_OFFSET := 0xffff880000000000; va0 := 0xffff880000000000; high_memory := 0xffff880040000000;
  PUD_SHIFT := 30; PMD_SHIFT := 21;
  k_kmalloc := λ cb w, (0xffff880000000000 + w * 0x10000, w + 1);
  k_alloc_pages := λ fl order w, (0xffffea0000000000 + (w * 0x100 + 1) * 64, w + 1);
  sizeof_page := 64;
  page_to_phys := demo_page_phys;
  page_to_pfn := λ pg, (pg - 0xffffea0000000000) / 64;
  pfn_to_page := λ pfn, 0xffffea0000000000 + pfn * 64;
  phys_to_virt := λ phys, 0xffff880000000000 + phys;
  virt_to_page := λ pv, 0xffffea0000000000 + (pv - 0xffff880000000000) / PAGE_SIZE * 64;
  PageHighMem := λ _, false;
  PageReserved := λ _ _, false;
  k_SetPageReserved := λ _ w, w;
  k_ClearPageReserved := λ _ w, w;
  k_SetPageDirty := λ _ w, w;
  k_flush_dcache_page := λ _ w, w;
  k_vmap := λ pages fl prot w, (0xffffc90000000000 + w * 0x100000, w + 1);
  k_ioremap := λ nc phys cb w, (0xffffc90000000000 + w * 0x100000, w + 1);
  k_do_mmap := λ addr cb prot fl w, (0x7f0000000000 + w * 0x100000, w + 1);
  k_get_user_pages := λ p c w, (c, (λ i, 0xffffea0000000000 + i * 64) <$> up_to c, [], w);
  k_vma_or_flags := λ _ _ w, w;
  k_find_vma := λ _ _, 0xffff880000001000;
  k_vm_insert_page := λ _ _ _ w, (0, w);
  k_remap_pfn_range := λ _ _ _ _ _ w, (0, w);
  active_mm := λ _, true;
  pgd_none := λ _ _, false;
  pud_none := λ _ _, false;
  pud_large_page := λ _ _, None;
  pmd_none := λ _ _, false;
  pmd_large_page := λ _ _, None;
  pte_page_present := λ pv _, Some (0xffffea0000000000 + pv / PAGE_SIZE * 64);
|}.

(** Two processes, and where handles are stored. *)
Definition demo_proc : Caller := mkCaller 100 true.
Definition demo_other : Caller := mkCaller 200 true.
Definition demo_p : ptr := 0xffff8800ffff0000.

Definition run_op (c : Caller) (op : mem_op) (s : MemSt) : MemSt :=
  match exec_op c demo_p op s with Some (_, s') => s' | None => s end.

(** Two contiguous pages, mapped by the process and into the kernel. *)
Definition demo_objs0 : MemSt := mkMemSt ∅ ∅ (1 : World).
Definition demo_objs1 : MemSt := run_op demo_proc (OpAllocCont 0x2000 false) demo_objs0.
Definition demo_h : ptr := 0xffff880000010000.
Definition demo_objs2 : MemSt := run_op demo_proc (OpMapUser demo_h PTR_ANY 0 3 NIL_RTR0PROCESS) demo_objs1.
Definition demo_objs3 : MemSt := run_op demo_proc (OpMapKernel demo_h PTR_ANY 0 1 0 0) demo_objs2.

(** What is there of a state: handles and ledger. *)
Definition shown (s : MemSt) : list ptr * list kres := ((map_to_list (ms_objs s)).*1, elements (ms_ledger s)).

(** A mapping that is freed with what it maps keeps its structure, whose handle stays valid;
    and another process leaves what is mapped into the first. *)
Example free_keeps_handles :
  ((λ x, (x.1, shown x.2)) <$> exec_op demo_other demo_p (OpFree demo_h true) demo_objs3)
  = Some ((VINF_SUCCESS, NULL), ([0xffff880000030000; 0xffff880000060000],
      [KHeap 0xffff880000030000; KHeap 0xffff880000060000; KMmap 0x7f0000400000 0x2000])).
Proof. vm_compute. reflexivity. Qed.

(** An allocation whose pages are not aligned as asked for fails, and the object stays. *)
Example misaligned_leaks_object :
  ((λ x, (x.1, shown x.2)) <$> exec_op demo_proc demo_p (OpAllocPhysEx 0x1000 NIL_RTHCPHYS 0x200000) demo_objs0)
  = Some ((VERR_NO_MEMORY, NULL), ([0xffff880000010000], [KHeap 0xffff880000010000])).
Proof. vm_compute. reflexivity. Qed.

(** Asking for the second page of a kernel reservation, which has a single dummy page, reads
    past the array. *)
Example reservation_page_out_of_array :
  let s := run_op demo_proc (OpReserveKernel PTR_ANY 0x2000 0) demo_objs0 in
  (ms_objs s !! 0xffff880000040000) ≫= (λ o, Some (mo_cb o, length (mo_apPages o))) = Some (0x2000, 1%nat)
  ∧ (fst <$> RTR0MemObjGetPagePhysAddr 0xffff880000040000 0 s) = Some 0x101000
  ∧ (fst <$> RTR0MemObjGetPagePhysAddr 0xffff880000040000 1 s) = None.
Proof. vm_compute. done. Qed.

Lemma run_op_reach c op s : mem_reach s → op_ok c (ms_objs s) op → mem_reach (run_op c op s).
Proof.
  intros Hr Hok. destruct (mem_reach_good _ Hr) as [(F&_&Hi) _]. destruct (exec_op_runs c demo_p op s F Hi Hok) as (r&s'&He&_).
  unfold run_op. rewrite He. destruct Hr as [w Hr]. exists w. eapply rtc_r; [done|by eapply mem_step_call].
Qed.

(** The status of a computation says that there is a result. *)
Lemma fst_result {A B} (x : option (A * B)) a : fst <$> x = Some a → ∃ b, x = Some (a, b).
Proof. destruct x as [[a' b]|]; [|done]. intros [= ->]. by exists b. Qed.

Lemma run_op_exec c op s r : fst <$> exec_op c demo_p op s = Some r → exec_op c demo_p op s = Some (r, run_op c op s).
Proof. intros Hr. unfold run_op. apply fst_result in Hr as [s' ->]. done. Qed.

Lemma demo_reach_mem0 : mem_reach demo_objs0.
Proof. by exists 1. Qed.

Lemma demo_reach_mem1 : mem_reach demo_objs1.
Proof. apply run_op_reach; [apply demo_reach_mem0|]. by vm_compute. Qed.

Lemma demo_reach_mem2 : mem_reach demo_objs2.
Proof.
  apply run_op_reach; [apply demo_reach_mem1|]. split; [|by vm_compute]. eexists. split; [vm_compute; reflexivity|by vm_compute].
Qed.

Lemma demo_reach_mem3 : mem_reach demo_objs3.
Proof. apply run_op_reach; [apply demo_reach_mem2|]. eexists. split; [vm_compute; reflexivity|by vm_compute]. Qed.

Lemma demo_phys_law p i : 0 ≤ i → page_to_phys (page_elem p i) = u64 (page_to_phys p + i * PAGE_SIZE).
Proof.
  intros Hi. simpl. unfold page_elem, demo_page_phys. simpl.
  replace (p + i * 64 - 0xffffea0000000000) with (p - 0xffffea0000000000 + i * 64) by lia. rewrite Z.div_add by lia.
  unfold u64. rewrite Zplus_mod_idemp_l. f_equal. lia.
Qed.

(** The other process frees the mappings and then the object: the mapping into the first
    process stays. *)
Definition demo_objs4 : MemSt := run_op demo_other (OpFree 0xffff880000030000 false) demo_objs3.
Definition demo_objs5 : MemSt := run_op demo_other (OpFree 0xffff880000060000 false) demo_objs4.
Definition demo_objs6 : MemSt := run_op demo_other (OpFree demo_h false) demo_objs5.

Lemma demo_run6 : mem_run {[+ KMmap 0x7f0000400000 0x2000 +]} demo_objs6.
Proof.
  assert (Hrun : ∀ F s c op r F', mem_run F s → op_ok c (ms_objs s) op → fst <$> exec_op c demo_p op s = Some r →
                 F' = F ⊎ op_left c (ms_objs s) op r.1 → mem_run F' (run_op c op s)).
  { intros F s c op r F' HF Hok He ->. eapply mem_run_call; [done|done|by apply run_op_exec]. }
  assert (H1 : mem_run ∅ demo_objs1).
  { apply (Hrun ∅ demo_objs0 demo_proc (OpAllocCont 0x2000 false) (VINF_SUCCESS, demo_h));
      [constructor|by vm_compute|vm_compute; reflexivity|done]. }
  assert (H2 : mem_run ∅ demo_objs2).
  { apply (Hrun ∅ demo_objs1 demo_proc (OpMapUser demo_h PTR_ANY 0 3 NIL_RTR0PROCESS) (VINF_SUCCESS, 0xffff880000030000));
      [done| |vm_compute; reflexivity|done].
    split; [|by vm_compute]. eexists. split; [vm_compute; reflexivity|by vm_compute]. }
  assert (H3 : mem_run ∅ demo_objs3).
  { apply (Hrun ∅ demo_objs2 demo_proc (OpMapKernel demo_h PTR_ANY 0 1 0 0) (VINF_SUCCESS, 0xffff880000060000));
      [done| |vm_compute; reflexivity|done].
    eexists. split; [vm_compute; reflexivity|by vm_compute]. }
  assert (Hfree : ∀ F s h F', mem_run F s →
            match ms_objs s !! h with Some oh => live (ms_objs s) h oh | None => false end = true →
            fst <$> exec_op demo_other demo_p (OpFree h false) s = Some (VINF_SUCCESS, NULL) →
            F' = F ⊎ op_left demo_other (ms_objs s) (OpFree h false) VINF_SUCCESS → mem_run F' (run_op demo_other (OpFree h false) s)).
  { intros F s h F' HF Hl He HF'. apply (Hrun F s demo_other (OpFree h false) (VINF_SUCCESS, NULL)); try done.
    right. destruct (ms_objs s !! h) as [oh|]; [by exists oh|done]. }
  assert (H4 : mem_run {[+ KMmap 0x7f0000400000 0x2000 +]} demo_objs4) by (apply (Hfree ∅); [done|vm_compute; reflexivity..]).
  assert (H5 : mem_run {[+ KMmap 0x7f0000400000 0x2000 +]} demo_objs5)
    by (apply (Hfree {[+ KMmap 0x7f0000400000 0x2000 +]}); [done|vm_compute; reflexivity..]).
  apply (Hfree {[+ KMmap 0x7f0000400000 0x2000 +]}); [done|vm_compute; reflexivity..].
Qed.

Lemma memobj_invariant_witness : ms_objs demo_objs6 = ∅ ∧ ms_ledger demo_objs6 = {[+ KMmap 0x7f0000400000 0x2000 +]}.
Proof.
  destruct (memobj_invariant _ demo_objs6 demo_run6) as (_&H&_).
  assert (E : ms_objs demo_objs6 = ∅) by (vm_compute; reflexivity). split; [exact E|exact (H E)].
Defined.

Lemma memobj_calls_complete_witness :
  ∃ r s', exec_op demo_other demo_p (OpFree demo_h true) demo_objs3 = Some (r, s') ∧ mem_reach s'.
Proof.
  apply (memobj_calls_complete demo_objs3 demo_reach_mem3).
  right. eexists. split; [vm_compute; reflexivity|vm_compute; reflexivity].
Defined.

Lemma memobj_types_stable_witness :
  ∃ o o', ms_objs demo_objs1 !! demo_h = Some o ∧ ms_objs demo_objs2 !! demo_h = Some o' ∧ mo_cMappings o' ≠ mo_cMappings o ∧ kept o o'.
Proof.
  eexists _, _. split; [vm_compute; reflexivity|]. split; [vm_compute; reflexivity|]. split; [done|].
  eapply (memobj_types_stable demo_objs1 demo_objs2 demo_h); [apply demo_reach_mem1| |vm_compute; reflexivity|vm_compute; reflexivity].
  eapply (mem_step_call demo_proc demo_p (OpMapUser demo_h PTR_ANY 0 3 NIL_RTR0PROCESS) demo_objs1 (VINF_SUCCESS, 0xffff880000030000)).
  - split; [|by vm_compute]. eexists. split; [vm_compute; reflexivity|by vm_compute].
  - apply run_op_exec. vm_compute. reflexivity.
Defined.

Lemma memobj_create_exact_witness :
  ∃ o, made (OpLockUser 0x1234 0x2000 3 NIL_RTR0PROCESS) o
    ∧ ms_objs (run_op demo_proc (OpLockUser 0x1234 0x2000 3 NIL_RTR0PROCESS) demo_objs3) = <[0xffff880000080000 := o]> (ms_objs demo_objs3).
Proof.
  set (op := OpLockUser 0x1234 0x2000 3 NIL_RTR0PROCESS).
  destruct (memobj_create_exact demo_objs3 demo_proc demo_p op (VINF_SUCCESS, 0xffff880000080000) (run_op demo_proc op demo_objs3))
    as [Hc _]; [apply demo_reach_mem3|done|by vm_compute|apply run_op_exec; vm_compute; reflexivity|].
  destruct (Hc eq_refl) as [(_&o&Ho&HO&_)|[Hf _]]; [|discriminate Hf].
  exact (ex_intro _ o (conj Ho HO)).
Defined.

Lemma memobj_free_spec_witness :
  ∃ s', RTR0MemObjFree demo_other demo_h true demo_objs3 = Some (VINF_SUCCESS, s') ∧ ms_objs s' !! demo_h = None.
Proof.
  assert (He : fst <$> RTR0MemObjFree demo_other demo_h true demo_objs3 = Some VINF_SUCCESS) by (vm_compute; reflexivity).
  apply fst_result in He as [s' He]. exists s'. split; [done|].
  assert (Ho : ∃ oh, ms_objs demo_objs3 !! demo_h = Some oh ∧ rtR0MemObjIsMapping oh = false).
  { eexists. split; [vm_compute; reflexivity|by vm_compute]. }
  destruct Ho as (oh&Ho&Hm). assert (Hlive : live (ms_objs demo_objs3) demo_h oh = true) by (unfold live; by rewrite Hm).
  pose proof (memobj_free_spec demo_objs3 demo_other demo_h oh true VINF_SUCCESS s' demo_reach_mem3 Ho Hlive eq_refl He) as Hf.
  cbv zeta in Hf. change (negb true) with false in Hf. rewrite andb_false_r in Hf. apply Hf.
Defined.

Lemma memobj_phys_addr_equiv_witness :
  (fst <$> RTR0MemObjGetPagePhysAddr demo_h 1 demo_objs3) = Some 0x202000
  ∧ (fst <$> rtR0MemObjNativeGetPagePhysAddr 0 demo_h 1 demo_objs3) = Some 0x202000.
Proof.
  assert (E : ∃ o, ms_objs demo_objs3 !! demo_h = Some o ∧ mo_enmType o = RTR0MEMOBJTYPE_CONT ∧ mo_cb o = 0x2000 ∧ mo_uWord0 o = 0x201000).
  { eexists. split; [vm_compute; reflexivity|by vm_compute]. }
  destruct E as (o&Ho&Ht&Hcb&Hw).
  assert (Hi : 0 ≤ 1 < Z.shiftr (mo_cb o) PAGE_SHIFT) by (clear Ho; rewrite Hcb; done).
  pose proof (memobj_phys_addr_equiv demo_objs3 demo_h o 1 demo_phys_law demo_reach_mem3 Ho eq_refl (or_introl Ht) Hi) as [E1 E2].
  rewrite <- E1, E2, Hw. split; reflexivity.
Defined.
