(* ===== verification/MemObjDriver.v ===== *)
(** The memory objects under the driver: the runtime implements the interface [MemObjApi] the
    memory services are written against, and what the services do with the objects is done. *)

From S2P Require Import Prelude SupTypes MemTrack MemApi MemObj MemObjLnx RtMemObj MemObjSafe MemObjCalls.
From stdpp Require Import gmultiset.
Local Open Scope Z_scope.

(** * The interface *)

Section answers.
Context `{LinuxKernel}.

(** What a computation answers in a state, and the state after it. *)
Definition answer {A} (e : A) (m : M A) (s : MemSt) : A := match m s with Some (a, _) => a | None => e end.
Definition after {A} (m : M A) (s : MemSt) : MemSt := match m s with Some (_, s') => s' | None => s end.

(** A service that makes an object in the state [s], has it mapped in [s1], and asks about the
    two in [s2]. *)
Definition memobj_answers (c : Caller) (pMemObj : ptr) (s s1 s2 : MemSt) : MemObjApi :=
  let failed := (VERR_INTERNAL_ERROR, NULL) in
  {|
    MemTrack.RTR0MemObjAddress h := answer NULL (RTR0MemObjAddress h) s2;
    MemTrack.RTR0MemObjAddressR3 h := answer NULL (RTR0MemObjAddressR3 h) s2;
    MemTrack.RTR0MemObjSize h := answer 0 (RTR0MemObjSize h) s2;
    MemTrack.RTR0MemObjGetPagePhysAddr h i := answer NIL_RTHCPHYS (RTR0MemObjGetPagePhysAddr h i) s2;
    RTR0MemObjAllocPage cb x := answer failed (RTR0MemObjAllocPageTag pMemObj cb x) s;
    RTR0MemObjAllocLow cb x := answer failed (RTR0MemObjAllocLowTag pMemObj cb x) s;
    RTR0MemObjAllocCont cb x := answer failed (RTR0MemObjAllocContTag pMemObj cb x) s;
    RTR0MemObjAllocPhysNC cb hi := answer failed (RTR0MemObjAllocPhysNCTag pMemObj cb hi) s;
    RTR0MemObjLockUser p cb fAccess := answer failed (RTR0MemObjLockUserTag c pMemObj p cb fAccess NIL_RTR0PROCESS) s;
    RTR0MemObjMapUser h p al prot := answer failed (RTR0MemObjMapUserTag c pMemObj h p al prot NIL_RTR0PROCESS) s1;
    RTR0MemObjMapKernelEx h p al prot off cb := answer failed (RTR0MemObjMapKernelExTag c pMemObj h p al prot off cb) s1;
    MemTrack.RTR0MemObjProtect h off cb prot := answer VERR_INTERNAL_ERROR (RTR0MemObjProtect h off cb prot) s2;
  |}.

(** The calls of [RTR0MemObjFree] a service makes. *)
Fixpoint run_frees (c : Caller) (ev : list event) (s : MemSt) : option MemSt :=
  match ev with
  | [] => Some s
  | EvMemObjFree h fFreeMappings :: ev =>
      match RTR0MemObjFree c h fFreeMappings s with
      | Some (_, s') => run_frees c ev s'
      | None => None
      end
  | _ => None
  end.

(** ** Success comes with a handle *)

(** Whatever a computation returns satisfies [P]. *)
Definition yields {A} (m : M A) (P : A → Prop) : Prop := ∀ s a s', m s = Some (a, s') → P a.

Lemma yields_ret {A} (a : A) (P : A → Prop) : P a → yields (kret a) P.
Proof. by intros Ha s ? ? [= <- <-]. Qed.

Lemma yields_fault {A} (P : A → Prop) : yields kfault P.
Proof. by intros s r s'. Qed.

Lemma yields_seq {A B} (m : M A) (Q : A → Prop) (k : A → M B) P :
  yields m Q → (∀ a, Q a → yields (k a) P) → yields (mseq m k) P.
Proof.
  intros Hm Hk s r s' E. unfold mseq in E. destruct (m s) as [[a s1]|] eqn:Em; [|done].
  apply (Hk a (Hm _ _ _ Em) _ _ _ E).
Qed.

Lemma yields_bind {A B} (m : M A) (k : A → M B) P : (∀ a, yields (k a) P) → yields (mseq m k) P.
Proof. intros Hk. by apply (yields_seq m (λ _, True)); [|intros a _]. Qed.

Definition has_handle (r : Z * ptr) : Prop := RT_SUCCESS r.1 = true → r.2 ≠ NULL.
Abbreviation handled m := (yields m has_handle).

Lemma handled_failed rc : RT_SUCCESS rc = false → handled (kret (rc, NULL)).
Proof. intros Hrc. apply yields_ret. unfold has_handle. simpl. congruence. Qed.
End answers.

Abbreviation handled m := (yields m has_handle).

(** Along the branches of a computation. *)
Ltac handled :=
  repeat match goal with
  | |- yields (let '(_, _) := ?x in _) _ => destruct x
  | |- yields (if ?b then _ else _) _ => destruct b eqn:?
  | |- yields (match ?x with _ => _ end) _ => destruct x
  | |- yields kfault _ => apply yields_fault
  | |- yields (kret _) _ => apply yields_ret; unfold has_handle in *; simpl; intros; try first [done|congruence|solve [auto]]
  | |- yields (mseq _ _) _ => apply yields_bind; intros ?
  end.

Section laws.
Context `{LinuxKernel}.

Lemma AllocPages_handled t cb al fl cont : handled (rtR0MemObjLinuxAllocPages t cb al fl cont).
Proof.
  unfold rtR0MemObjLinuxAllocPages. apply yields_bind. intros p. destruct (Z.eqb_spec p NULL) as [->|Hp]; [by apply yields_ret|].
  unfold finish_pages. handled.
Qed.

Lemma vmap_or_free_handled r fx k : has_handle r → handled (vmap_or_free r fx k).
Proof. intros Hr. unfold vmap_or_free. handled. Qed.

Lemma two_handled m1 m2 (k : Z * ptr → M (Z * ptr)) :
  handled m1 → handled m2 → (∀ r, has_handle r → handled (k r)) →
  handled (r ←m m1 ;; r ←m (if RT_FAILURE r.1 then m2 else kret r) ;; k r).
Proof.
  intros H1 H2 Hk. eapply yields_seq; [done|]. intros r Hr. eapply yields_seq; [|done].
  destruct (RT_FAILURE r.1); [done|by apply yields_ret].
Qed.

Lemma PhysSub_handled t cb al hi : handled (rtR0MemObjLinuxAllocPhysSub t cb al hi).
Proof.
  assert (H2 : ∀ fl, handled (rtR0MemObjLinuxAllocPhysSub2 t cb al hi fl)).
  { intros fl. eapply yields_seq; [apply AllocPages_handled|]. intros r Hr. handled. }
  unfold rtR0MemObjLinuxAllocPhysSub. cbv zeta. destruct (_ =? _); [done|]. destruct (_ <=? _); [done|].
  eapply yields_seq; [done|]. intros r1 Hr1. apply two_handled; [|auto|].
  - destruct (RT_FAILURE r1.1); [done|by apply yields_ret].
  - intros r Hr. destruct (RT_FAILURE r.1); [done|by apply yields_ret].
Qed.

Lemma create_checked_handled p fOk k : handled k → handled (create_checked p fOk k).
Proof. intros Hk. unfold create_checked. destruct (negb _); [by apply yields_ret|]. destruct (negb _); [by apply yields_ret|done]. Qed.

Lemma New_handled cbSelf t pv cb (k : ptr → M (Z * ptr)) :
  (∀ p, p ≠ NULL → handled (k p)) →
  handled (p ←m rtR0MemObjNew cbSelf t pv cb ;; if p =? NULL then kret (VERR_NO_MEMORY, NULL) else k p).
Proof. intros Hk. apply yields_bind. intros p. destruct (Z.eqb_spec p NULL) as [->|Hp]; [by apply yields_ret|auto]. Qed.

Lemma LockUser_handled c p cb fa proc : handled (rtR0MemObjNativeLockUser c p cb fa proc).
Proof.
  unfold rtR0MemObjNativeLockUser. cbv zeta. destruct (negb _); [by apply yields_ret|]. destruct (negb _); [by apply yields_ret|].
  apply New_handled. intros q Hq. handled.
Qed.

Lemma map_pages_status ins n i a : yields (map_pages ins n i a) (λ rc, rc = 0 ∨ RT_SUCCESS rc = false).
Proof.
  revert i a. induction n as [|n IH]; intros i a; simpl; [apply yields_ret; by left|].
  apply yields_bind. intros vma. destruct (vma =? NULL); [apply yields_ret; by right|].
  apply yields_bind. intros rc. destruct (negb _); [apply yields_ret; by right|apply IH].
Qed.

Lemma MapUser_handled c h p al prot proc : handled (rtR0MemObjNativeMapUser c h p al prot proc).
Proof.
  unfold rtR0MemObjNativeMapUser. destruct (negb _); [by apply yields_ret|]. destruct (_ <? _); [by apply yields_ret|].
  apply yields_bind. intros o. apply New_handled. intros q Hq. destruct (negb _); [apply yields_fault|].
  apply yields_bind. intros _. apply yields_bind. intros pv. apply (yields_seq _ (λ rc, rc = 0 ∨ RT_SUCCESS rc = false)).
  - cbv zeta. destruct (pv =? PTR_ANY); [apply yields_ret; by right|].
    repeat destruct (negb _); [by apply map_pages_status..|apply yields_ret; by left].
  - intros rc [->|Hrc]; handled.
Qed.

Lemma link_or_free_handled c h r : has_handle r → handled (link_or_free c h r).
Proof. intros Hr. unfold link_or_free. handled. Qed.

Lemma MapUserTag_handled c p h fixed al prot proc : handled (RTR0MemObjMapUserTag c p h fixed al prot proc).
Proof.
  unfold RTR0MemObjMapUserTag, with_object. destruct (negb _); [by apply yields_ret|]. destruct (negb _); [by apply yields_ret|].
  apply yields_bind. intros o. destruct (negb _); [by apply yields_ret|]. cbv zeta. destruct (negb _); [by apply yields_ret|].
  eapply yields_seq; [apply MapUser_handled|]. intros r. apply link_or_free_handled.
Qed.

Lemma answer_handled (m : M (Z * ptr)) s :
  handled m → RT_SUCCESS (answer (VERR_INTERNAL_ERROR, NULL) m s).1 = true → (answer (VERR_INTERNAL_ERROR, NULL) m s).2 ≠ NULL.
Proof. unfold answer. intros Hm Hs. destruct (m s) as [[r s']|] eqn:E; [by eapply Hm|done]. Qed.

(** The memory objects keep what the driver relies on, in whatever state they are asked. *)
#[export] Instance memobj_answers_laws c p s s1 s2 : MemObjLaws (memobj_answers c p s s1 s2).
Proof.
  split; simpl; intros; (apply answer_handled; [|done]).
  - unfold RTR0MemObjAllocContTag, rtR0MemObjNativeAllocCont.
    apply create_checked_handled, two_handled; [apply AllocPages_handled..|]. intros r. apply vmap_or_free_handled.
  - unfold RTR0MemObjAllocLowTag, rtR0MemObjNativeAllocLow.
    apply create_checked_handled, two_handled; [apply AllocPages_handled..|]. intros r. apply vmap_or_free_handled.
  - unfold RTR0MemObjAllocPageTag, rtR0MemObjNativeAllocPage.
    apply create_checked_handled; eapply yields_seq; [apply AllocPages_handled|]. intros r. apply vmap_or_free_handled.
  - apply create_checked_handled, PhysSub_handled.
  - apply create_checked_handled, LockUser_handled.
  - apply MapUserTag_handled.
Qed.
End laws.

(** * Allocations backed by memory objects *)

Section backed.
Context `{LinuxKernel} (c : Caller) (pMemObj : ptr) (Hc : user_caller c).

(** Nothing is left of the objects [l] that were added: both the store and the ledger are
    what they were. *)
Definition restored (s s' : MemSt) : Prop := ms_objs s' = ms_objs s ∧ ms_ledger s' = ms_ledger s.

Lemma inv_restored F s s' :
  memobj_inv F (ms_objs s) (ms_ledger s) → memobj_inv F (ms_objs s') (ms_ledger s') → ms_objs s' = ms_objs s → restored s s'.
Proof. intros H1 H2 E. split; [done|]. by rewrite (mi_ledger _ _ _ H1), (mi_ledger _ _ _ H2), E. Qed.

Lemma wp_run {A} (m : M A) Q s : wp m Q (ms_objs s) (ms_ledger s) → ∃ a s', m s = Some (a, s') ∧ Q a (ms_objs s') (ms_ledger s').
Proof. intros Hm. specialize (Hm (ms_w s)). destruct s as [O L w]. simpl in *. destruct (m _) as [[a s']|]; [eauto|done]. Qed.

(** A new object of pages, not mapped yet. *)
Record fresh_object (F : gmultiset kres) (s s1 : MemSt) (h : ptr) (o : RTR0MEMOBJLNX) : Prop := {
  fo_inv : memobj_inv F (ms_objs s) (ms_ledger s);
  fo_inv1 : memobj_inv F (ms_objs s1) (ms_ledger s1);
  fo_new : ms_objs s !! h = None;
  fo_objs : ms_objs s1 = <[h := o]> (ms_objs s);
  fo_type : page_type (mo_enmType o) = true;
  fo_links : no_links o;
  fo_valid : VALID_PTR h = true;
}.

Lemma page_not_mapping o : page_type (mo_enmType o) = true → rtR0MemObjIsMapping o = false.
Proof. unfold rtR0MemObjIsMapping. intros Ht. apply bool_decide_eq_false. intros E. by rewrite E in Ht. Qed.

Lemma page_free_left O o : page_type (mo_enmType o) = true → kids o = [] → free_left c O o = ∅.
Proof.
  intros Ht Hk. unfold free_left. rewrite (page_not_mapping o Ht), Hk. unfold left_behind. destruct (mo_enmType o); try done; simpl; clear; multiset_solver.
Qed.

(** Freeing an object that has no mappings brings back what was there without it. *)
Lemma free_bare F s h o f :
  memobj_inv F (ms_objs s) (ms_ledger s) → ms_objs s !! h = Some o → page_type (mo_enmType o) = true → kids o = [] → VALID_PTR h = true →
  ∃ s', RTR0MemObjFree c h f s = Some (VINF_SUCCESS, s') ∧ ms_objs s' = delete h (ms_objs s)
        ∧ memobj_inv F (ms_objs s') (ms_ledger s').
Proof.
  intros Hi Ho Ht Hk Hv. pose proof (page_not_mapping o Ht) as Hm.
  assert (Hw : wp (RTR0MemObjFree c h f) (λ r O' L', r = VINF_SUCCESS ∧ O' = delete h (ms_objs s) ∧ memobj_inv F O' L') (ms_objs s) (ms_ledger s)).
  { eapply wp_RTR0MemObjFree; [done|done|unfold live; by rewrite Hm|congruence|done|].
    intros _ _ O' L' Hi' Hf. rewrite (page_free_left _ o Ht Hk), (right_id_L ∅ (⊎)) in Hi'. split_and!; [done| |done].
    unfold freed in Hf. rewrite Hm, Hk in Hf. destruct Hf as (O1&[Hk1 _]&->). apply map_eq. intros q.
    destruct (decide (q = h)) as [->|Hq]; [by rewrite !lookup_delete_eq|]. rewrite !lookup_delete_ne by done.
    apply Hk1; [done|apply not_elem_of_nil]. }
  destruct (wp_run _ _ s Hw) as (r&s'&He&->&HO&Hi'). by exists s'.
Qed.

(** Making an object. *)
Lemma make_object F s op t cb :
  memobj_inv F (ms_objs s) (ms_ledger s) → op_creates op = true → op_exact op = true → op_ok c (ms_objs s) op →
  page_type t = true → (∀ o, made op o → mo_enmType o = t ∧ cb ≤ mo_cb o) →
  ∃ r s1, exec_op c pMemObj op s = Some (r, s1) ∧ memobj_inv F (ms_objs s1) (ms_ledger s1)
    ∧ ((r.1 = VINF_SUCCESS ∧ ms_objs s !! r.2 = None ∧ ∃ o, mo_enmType o = t ∧ cb ≤ mo_cb o ∧ no_links o ∧ ms_objs s1 = <[r.2 := o]> (ms_objs s))
       ∨ (RT_SUCCESS r.1 = false ∧ r.2 = NULL ∧ restored s s1)).
Proof.
  intros Hi Hop Hex Hok Ht Hmade.
  destruct (wp_run _ _ s (exec_create c pMemObj op _ _ Hop Hok (inv_heap_ok _ _ _ Hi))) as (r&s1&He&Hcr).
  exists r, s1. split; [done|]. split.
  { eapply inv_created; [exact Hi|exact Hcr|]. naive_solver. }
  destruct Hcr as (st&_&E&Hend). specialize (E Hex) as ->. destruct Hend as [[Hrc (o&(_&HO&_&Hnl&[= HO1 _])&Hm&_)]|(Hrc&Hnull&[= HO1 HL1])].
  - left. destruct (Hmade o Hm). split_and!; [done|done|]. by exists o.
  - right. split; [by apply RT_FAILURE_SUCCESS|done].
Qed.

(** Mapping it into the process. *)
Definition map_user (h : ptr) : M (Z * ptr) :=
  RTR0MemObjMapUserTag c pMemObj h PTR_ANY 0 (Z.lor RTMEM_PROT_EXEC (Z.lor RTMEM_PROT_WRITE RTMEM_PROT_READ)) NIL_RTR0PROCESS.

Lemma map_object F s1 h o :
  memobj_inv F (ms_objs s1) (ms_ledger s1) → ms_objs s1 !! h = Some o → no_links o →
  ∃ r s2, map_user h s1 = Some (r, s2) ∧ mapped F (ms_objs s1) (ms_ledger s1) h o (hSelf c) r (ms_objs s2) (ms_ledger s2).
Proof.
  intros Hi Ho (_&Hn&_). destruct Hc as [Hmm Hnil].
  destruct (wp_run _ _ s1 (map_api_user c F _ _ Hi h o Ho pMemObj PTR_ANY 0 (Z.lor RTMEM_PROT_EXEC (Z.lor RTMEM_PROT_WRITE RTMEM_PROT_READ))
    NIL_RTR0PROCESS ltac:(rewrite Hn; done) Hmm Hnil)) as (r&s2&He&Hm). by exists r, s2.
Qed.

(** Freeing the mapping and then the object. *)
Lemma free_pair F s s1 s2 h o hMap rc f1 f2 :
  memobj_inv F (ms_objs s) (ms_ledger s) → memobj_inv F (ms_objs s1) (ms_ledger s1) →
  ms_objs s !! h = None → ms_objs s1 = <[h := o]> (ms_objs s) → page_type (mo_enmType o) = true → no_links o →
  RT_SUCCESS rc = true → mapped F (ms_objs s1) (ms_ledger s1) h o (hSelf c) (rc, hMap) (ms_objs s2) (ms_ledger s2) →
  VALID_PTR h = true → VALID_PTR hMap = true →
  ∃ s3, run_frees c [EvMemObjFree hMap f1; EvMemObjFree h f2] s2 = Some s3 ∧ restored s s3.
Proof.
  intros Hi Hi1 Hnew HO1 Ht Hnl Hrc Hmap Hv Hv2.
  destruct Hmap as [(_&Hi2&_&Hn2&oh&om&HO2&Hk&(ca&arr&mm&Hoh)&Hm&Hpar&_&Hw)|(Hf&_)]; simpl in *; [|by rewrite (RT_FAILURE_SUCCESS _ Hf) in Hrc].
  rewrite (kids_none o Hnl) in Hk. simpl in Hk. rewrite HO1 in Hn2. apply lookup_insert_None in Hn2 as [Hn2 Hne].
  assert (Hh2 : ms_objs s2 !! h = Some oh) by by rewrite HO2, lookup_insert_ne, lookup_insert_eq by done.
  assert (Hm2 : ms_objs s2 !! hMap = Some om) by by rewrite HO2, lookup_insert_eq.
  assert (Htoh : page_type (mo_enmType oh) = true) by by rewrite Hoh. pose proof (page_not_mapping oh Htoh) as Hhm.
  assert (Hlive : live (ms_objs s2) hMap om = true).
  { unfold live. rewrite Hm, Hpar, Hh2, Hhm, Hk. simpl. apply bool_decide_eq_true. by apply list_elem_of_singleton. }
  assert (Hlb : free_left c (ms_objs s2) om = ∅).
  { unfold free_left. rewrite Hm, (user_left c om), (right_id_L ∅ (⊎)); [done| |right; by destruct Hc].
    unfold rtR0MemObjIsMapping in Hm. by apply bool_decide_eq_true in Hm. }
  destruct (wp_run (RTR0MemObjFree c hMap f1) (λ r O' L', r = VINF_SUCCESS ∧ memobj_inv F O' L' ∧ freed hMap om (ms_objs s2) O') s2) as (r&s3&He&_&Hi3&Hf).
  { eapply wp_RTR0MemObjFree; [done..|congruence|congruence|]. intros _ _ O' L' Hi' Hf. by rewrite Hlb, (right_id_L ∅ (⊎)) in Hi'. }
  unfold freed in Hf. rewrite Hm, Hpar in Hf. destruct Hf as (op&Hop&HO3). assert (op = oh) as -> by congruence.
  destruct (mi_links _ _ _ Hi2 h oh Hh2) as [[Hc1 Hc2] _ _ _ _].
  destruct (unlink_spec hMap oh) as (Hperm&m'&Hun&_); [rewrite Hk; by apply list_elem_of_singleton|lia|].
  rewrite Hk in Hperm. apply Permutation_cons_inv, Permutation_nil_l in Hperm.
  destruct (free_bare F s3 h (unlink_mapping hMap oh) f2 Hi3) as (s4&He4&HO4&Hi4); [| |done|done|].
  - rewrite HO3, lookup_delete_ne, lookup_insert_eq by done. done.
  - by rewrite Hun.
  - exists s4. simpl. rewrite He, He4. split; [done|]. apply (inv_restored F); [done|done|]. rewrite HO4, HO3, HO2, HO1.
    apply map_eq. intros q. destruct (decide (q = h)) as [->|Hqh]; [by rewrite lookup_delete_eq|].
    rewrite lookup_delete_ne by done. destruct (decide (q = hMap)) as [->|Hqm]; [by rewrite lookup_delete_eq|].
    by rewrite lookup_delete_ne, !lookup_insert_ne by done.
Qed.

(** ** The services *)

(** The handles a service gets, and the states it gets them in. *)
Definition obj_handle (op : mem_op) (s : MemSt) : ptr := (answer (VERR_INTERNAL_ERROR, NULL) (exec_op c pMemObj op) s).2.
Definition state_made (op : mem_op) (s : MemSt) : MemSt := after (exec_op c pMemObj op) s.
Definition map_handle (op : mem_op) (s : MemSt) : ptr :=
  (answer (VERR_INTERNAL_ERROR, NULL) (map_user (obj_handle op s)) (state_made op s)).2.
Definition state_mapped (op : mem_op) (s : MemSt) : MemSt := after (map_user (obj_handle op s)) (state_made op s).

(** How an allocation ends: with the addresses of an object and its mapping, which the free
    that supdrvMemRelease makes of the pair undoes; or with an error, and then its own calls of
    the free undo everything. *)
Definition backed (op : mem_op) (t : RTR0MEMOBJTYPE) (cb : Z) (s : MemSt) (res : AllocRes) : Prop :=
  let s2 := state_mapped op s in
  let '(rc, out, _, ev) := res in
  if rc =? 0 then
    ev = [] ∧ (∃ s3, run_frees c [EvMemObjFree (map_handle op s) false; EvMemObjFree (obj_handle op s) true] s2 = Some s3 ∧ restored s s3)
    ∧ ∃ a o om, out = Some a ∧ ms_objs s2 !! obj_handle op s = Some o ∧ mo_enmType o = t ∧ cb ≤ mo_cb o ∧ out_R0 a = mo_pv o
        ∧ ms_objs s2 !! map_handle op s = Some om ∧ rtR0MemObjIsMapping om = true ∧ mo_pParent om = obj_handle op s ∧ out_R3 a = mo_pv om
  else out = None ∧ ∃ s3, run_frees c ev s2 = Some s3 ∧ restored s s3.

Lemma address_of F s h o :
  memobj_inv F (ms_objs s) (ms_ledger s) → ms_objs s !! h = Some o → VALID_PTR h = true → answer NULL (RTR0MemObjAddress h) s = mo_pv o.
Proof.
  intros Hi Ho Hv. unfold answer, RTR0MemObjAddress, with_object. change NIL_RTR0MEMOBJ with NULL.
  destruct (Z.eqb_spec h NULL) as [->|_]; [done|]. rewrite Hv. unfold mseq, obj_get. simpl. rewrite Ho. simpl.
  by rewrite (wf_valid o (proj1 (mi_wf _ _ _ Hi h o Ho))).
Qed.

Lemma addressR3_of F s h o :
  memobj_inv F (ms_objs s) (ms_ledger s) → ms_objs s !! h = Some o → VALID_PTR h = true →
  rtR0MemObjIsMapping o = true → mo_uWord0 o = hSelf c → answer NULL (RTR0MemObjAddressR3 h) s = mo_pv o.
Proof.
  intros Hi Ho Hv Hm Hw. destruct Hc as [_ Hnil]. unfold answer, RTR0MemObjAddressR3, with_object. change NIL_RTR0MEMOBJ with NULL.
  destruct (Z.eqb_spec h NULL) as [->|_]; [done|]. rewrite Hv. unfold mseq, obj_get. simpl. rewrite Ho. simpl.
  rewrite (wf_valid o (proj1 (mi_wf _ _ _ Hi h o Ho))). simpl. unfold rtR0MemObjIsMapping in Hm. apply bool_decide_eq_true in Hm.
  rewrite Hm, Hw, (proj2 (Z.eqb_neq _ _)) by congruence. done.
Qed.

Lemma core_backed F op t cb s m tr out rAlloc others :
  memobj_inv F (ms_objs s) (ms_ledger s) → op_creates op = true → op_exact op = true → op_ok c (ms_objs s) op →
  page_type t = true → (∀ o, made op o → mo_enmType o = t ∧ cb ≤ mo_cb o) →
  (∀ q, is_Some (ms_objs (state_mapped op s) !! q) → VALID_PTR q = true) →
  out_R0 out = answer NULL (RTR0MemObjAddress (obj_handle op s)) (state_mapped op s) →
  out_R3 out = answer NULL (RTR0MemObjAddressR3 (map_handle op s)) (state_mapped op s) →
  backed op t cb s
    (alloc_core m tr (answer (VERR_INTERNAL_ERROR, NULL) (exec_op c pMemObj op) s)
       (λ h, answer (VERR_INTERNAL_ERROR, NULL) (map_user h) (state_made op s)) out rAlloc others).
Proof.
  intros Hi Hop Hex Hok Ht Hmade Hv HR0 HR3. destruct (make_object F s op t cb Hi Hop Hex Hok Ht Hmade) as ([rc h]&s1&He&Hi1&Hcase).
  assert (Hs1 : state_made op s = s1) by (unfold state_made, after; by rewrite He).
  assert (Hh : obj_handle op s = h) by (unfold obj_handle, answer; by rewrite He).
  assert (Hr1 : answer (VERR_INTERNAL_ERROR, NULL) (exec_op c pMemObj op) s = (rc, h)) by (unfold answer; by rewrite He).
  assert (Hr2 : ∀ r s2, map_user h s1 = Some (r, s2) →
    state_mapped op s = s2 ∧ map_handle op s = r.2 ∧ answer (VERR_INTERNAL_ERROR, NULL) (map_user h) s1 = r).
  { intros r s2 Em. unfold state_mapped, map_handle, after, answer. by rewrite Hs1, Hh, Em. }
  unfold backed, alloc_core. rewrite Hr1, Hs1, Hh in *. simpl in *.
  destruct Hcase as [(->&Hnew&o&Hot&Hcb&Hnl&HO1)|(Hrc&->&Hres)].
  2: { rewrite Hrc. destruct (Z.eqb_spec rc 0) as [->|]; [done|]. split; [done|].
    assert (Em : ∃ r, map_user NULL s1 = Some (r, s1)).
    { unfold map_user, RTR0MemObjMapUserTag. destruct (negb _); [by eexists|]. by eexists. }
    destruct Em as [r Em]. destruct (Hr2 r s1 Em) as (->&_&_). by exists s1. }
  assert (Ho1 : ms_objs s1 !! h = Some o) by (rewrite HO1; apply lookup_insert_eq).
  destruct (map_object F s1 h o Hi1 Ho1 Hnl) as ([rc2 hMap]&s2&Em&Hmap).
  destruct (Hr2 _ _ Em) as (Hs2&HhM&Hr2'). rewrite Hs2, HhM, Hr2' in *. simpl in *. assert (Hto : page_type (mo_enmType o) = true) by by rewrite Hot.
  destruct (RT_SUCCESS rc2) eqn:Hrc2; simpl.
  2: { destruct (Z.eqb_spec rc2 0) as [->|]; [done|]. split; [done|].
    destruct Hmap as [(E&_)|(_&_&HO2&HL2)]; simpl in *; [by rewrite E in Hrc2|]. rewrite <- HO2, <- HL2 in Hi1. rewrite <- HO2 in Ho1.
    destruct (free_bare F s2 h o false Hi1 Ho1 Hto (kids_none o Hnl)) as (s3&->&HO3&Hi3); [apply Hv; by eexists|].
    exists s3. split; [done|]. apply (inv_restored F); [done|done|]. rewrite HO3, HO2, HO1. by rewrite delete_insert_id. }
  pose proof Hmap as [(_&Hi2&_&_&oh&om&HO2&_&(ca&arr&mm&Hoh)&Hm&Hpar&_&Hw)|(Hf&_)]; simpl in *; [|by rewrite (RT_FAILURE_SUCCESS _ Hf) in Hrc2].
  assert (Hne : h ≠ hMap).
  { intros <-. destruct Hmap as [(_&_&_&Hn&_)|(Hf&_)]; simpl in *; [congruence|by rewrite (RT_FAILURE_SUCCESS _ Hf) in Hrc2]. }
  assert (Hh2 : ms_objs s2 !! h = Some oh) by by rewrite HO2, lookup_insert_ne, lookup_insert_eq by done.
  assert (Hm2 : ms_objs s2 !! hMap = Some om) by by rewrite HO2, lookup_insert_eq.
  assert (Hpair : ∀ f1 f2, ∃ s3, run_frees c [EvMemObjFree hMap f1; EvMemObjFree h f2] s2 = Some s3 ∧ restored s s3).
  { intros f1 f2. apply (free_pair F s s1 s2 h o hMap rc2); try done; apply Hv; by eexists. }
  destruct (supdrvMemAdd _ _ _ _) as [rca m']. destruct (Z.eqb_spec rca 0) as [->|Hne0]; simpl.
  - split; [done|]. split; [apply Hpair|]. exists out, oh, om. split_and!; try done; [by rewrite Hoh|by rewrite Hoh| |].
    + rewrite HR0. eapply address_of; [exact Hi2|done|]. apply Hv. by eexists.
    + rewrite HR3. eapply addressR3_of; [exact Hi2|done| |done|done]. apply Hv. by eexists.
  - rewrite (proj2 (Z.eqb_neq _ _) Hne0). split; [done|apply Hpair].
Qed.
End backed.

(** The services behind their argument checks. *)
Section services.
Context `{MemObjApi} (m : SessMem) (ses : SUPDRVSESSION) (rAlloc : option ptr) (others : SessMem → SessMem).
Context (Hs : SUP_IS_SESSION_VALID ses = true).

Lemma ContAlloc_core n p q r :
  1 ≤ n < 256 → p ≠ NULL → q ≠ NULL → r ≠ NULL →
  let r1 := RTR0MemObjAllocCont (n * PAGE_SIZE) true in
  SUPR0ContAlloc m ses n p q r rAlloc others
  = alloc_core m MEMREF_TYPE_CONT r1 MapUserRWX
      (mkOut (MemTrack.RTR0MemObjAddress r1.2) (MemTrack.RTR0MemObjAddressR3 (MapUserRWX r1.2).2)
         [MemTrack.RTR0MemObjGetPagePhysAddr r1.2 0]) rAlloc others.
Proof.
  intros Hn Hp%Z.eqb_neq Hq%Z.eqb_neq Hr%Z.eqb_neq. unfold SUPR0ContAlloc, alloc_core. rewrite Hs, Hp, Hq, Hr. simpl.
  replace ((n <? 1) || (256 <=? n)) with false by lia. unfold PAGE_SHIFT, PAGE_SIZE. rewrite Z.shiftl_mul_pow2, u32_small by lia.
  change (2 ^ 12) with 4096. destruct (RTR0MemObjAllocCont _ _) as [rc h]. simpl. destruct (MapUserRWX h) as [rc2 hm]. done.
Qed.

Lemma LowAlloc_core n p q r :
  1 ≤ n < 256 → p ≠ NULL → q ≠ NULL → r ≠ NULL →
  let r1 := RTR0MemObjAllocLow (n * PAGE_SIZE) true in
  SUPR0LowAlloc m ses n p q r rAlloc others
  = alloc_core m MEMREF_TYPE_LOW r1 MapUserRWX
      (mkOut (MemTrack.RTR0MemObjAddress r1.2) (MemTrack.RTR0MemObjAddressR3 (MapUserRWX r1.2).2)
         (MemTrack.RTR0MemObjGetPagePhysAddr r1.2 <$> seqZ 0 n)) rAlloc others.
Proof.
  intros Hn Hp%Z.eqb_neq Hq%Z.eqb_neq Hr%Z.eqb_neq. unfold SUPR0LowAlloc, alloc_core. rewrite Hs, Hp, Hq, Hr. simpl.
  replace ((n <? 1) || (256 <=? n)) with false by lia. unfold PAGE_SHIFT, PAGE_SIZE. rewrite Z.shiftl_mul_pow2, u32_small by lia.
  change (2 ^ 12) with 4096. destruct (RTR0MemObjAllocLow _ _) as [rc h]. simpl. destruct (MapUserRWX h) as [rc2 hm]. done.
Qed.

Lemma MemAlloc_core cb p q :
  1 ≤ cb < 0x400000 → VALID_PTR p = true → VALID_PTR q = true →
  let r1 := RTR0MemObjAllocPage cb true in
  SUPR0MemAlloc m ses cb p q rAlloc others
  = alloc_core m MEMREF_TYPE_MEM r1 MapUserRWX
      (mkOut (MemTrack.RTR0MemObjAddress r1.2) (MemTrack.RTR0MemObjAddressR3 (MapUserRWX r1.2).2) []) rAlloc others.
Proof.
  intros Hn Hp Hq. unfold SUPR0MemAlloc, alloc_core. rewrite Hs, Hp, Hq. simpl.
  replace ((cb <? 1) || (0x400000 <=? cb)) with false by lia.
  destruct (RTR0MemObjAllocPage _ _) as [rc h]. simpl. destruct (MapUserRWX h) as [rc2 hm]. done.
Qed.
End services.

(** * Properties *)

(** The runtime as a service meets it that starts by making an object. *)
Definition runtime `{LinuxKernel} (c : Caller) (pMemObj : ptr) (s : MemSt) (op : mem_op) : MemObjApi :=
  memobj_answers c pMemObj s (state_made c pMemObj op s) (state_mapped c pMemObj op s).

(** Objects are at valid addresses. *)
Definition valid_objs `{LinuxKernel} (s : MemSt) : Prop := map_Forall (λ q _, VALID_PTR q = true) (ms_objs s).

(** C29. The driver's allocations on the memory objects of the runtime, from any state of these
    that calls reach: one that succeeds hands out the addresses of a new object of the right
    type and size and of a mapping of it into the process, and releasing the pair gives
    back everything; one that fails, in the runtime or for want of a bundle, has given
    everything back itself.  The kernel's allocator is taken to answer with valid pointers. *)
Theorem allocations_backed `{LinuxKernel} c pMemObj s m ses rAlloc others :
  mem_reach s → user_caller c → SUP_IS_SESSION_VALID ses = true →
  (∀ n p q r, 1 ≤ n < 256 → p ≠ NULL → q ≠ NULL → r ≠ NULL →
     let op := OpAllocCont (n * PAGE_SIZE) true in
     valid_objs (state_mapped c pMemObj op s) →
     backed c pMemObj op RTR0MEMOBJTYPE_CONT (n * PAGE_SIZE) s
       (@SUPR0ContAlloc (runtime c pMemObj s op) m ses n p q r rAlloc others)) ∧
  (∀ n p q r, 1 ≤ n < 256 → p ≠ NULL → q ≠ NULL → r ≠ NULL →
     let op := OpAllocLow (n * PAGE_SIZE) true in
     valid_objs (state_mapped c pMemObj op s) →
     backed c pMemObj op RTR0MEMOBJTYPE_LOW (n * PAGE_SIZE) s
       (@SUPR0LowAlloc (runtime c pMemObj s op) m ses n p q r rAlloc others)) ∧
  (∀ cb p q, 1 ≤ cb < 0x400000 → VALID_PTR p = true → VALID_PTR q = true →
     let op := OpAllocPage cb true in
     valid_objs (state_mapped c pMemObj op s) →
     backed c pMemObj op RTR0MEMOBJTYPE_PAGE cb s
       (@SUPR0MemAlloc (runtime c pMemObj s op) m ses cb p q rAlloc others)).
Proof.
  intros Hr Hc Hs. destruct (mem_reach_good _ Hr) as [(F&_&Hi) _]. split_and!.
  - intros n p q r Hn Hp Hq Hr' op Hv. rewrite (ContAlloc_core (H:=runtime c pMemObj s op)) by done.
    eapply (core_backed c pMemObj Hc F op); try done; [split; unfold PAGE_SIZE; lia|by intros x [o Ho]; apply (Hv x o)].
  - intros n p q r Hn Hp Hq Hr' op Hv. rewrite (LowAlloc_core (H:=runtime c pMemObj s op)) by done.
    eapply (core_backed c pMemObj Hc F op); try done; [split; unfold PAGE_SIZE; lia|by intros x [o Ho]; apply (Hv x o)].
  - intros cb p q Hn Hp Hq op Hv. rewrite (MemAlloc_core (H:=runtime c pMemObj s op)) by done.
    eapply (core_backed c pMemObj Hc F op); try done; [split; lia|by intros x [o Ho]; apply (Hv x o)].
Qed.

#[local] Existing Instance demo_linux.

(** Two contiguous pages for a session, with room in its bundle. *)
Definition demo_cont : mem_op := OpAllocCont (2 * PAGE_SIZE) true.
Definition demo_cont_run (rAlloc : option ptr) : AllocRes :=
  @SUPR0ContAlloc (runtime demo_proc demo_p demo_objs0 demo_cont) (sessmem_init 0x10100) demo_session 2 0x30000 0x30010 0x30020 rAlloc id.

Lemma allocations_backed_witness :
  backed demo_proc demo_p demo_cont RTR0MEMOBJTYPE_CONT (2 * PAGE_SIZE) demo_objs0 (demo_cont_run None)
  ∧ (demo_cont_run None).1.1 = (VINF_SUCCESS, Some (mkOut 0xffffc90000300000 0x7f0000500000 [0x201000])).
Proof.
  split.
  - destruct (allocations_backed demo_proc demo_p demo_objs0 (sessmem_init 0x10100) demo_session None id) as [Hcont _];
      [apply demo_reach_mem0|by vm_compute|by vm_compute|].
    apply Hcont; [done..|]. apply (bool_decide_unpack _). vm_compute. exact I.
  - vm_compute. reflexivity.
Defined.
