(* ===== verification/UsbExpr.v ===== *)
(** The two small languages of USB filters (HostDrivers/VBoxUSB/USBFilter.cpp): numeric
    expressions, [usbfilterReadNumber] to [usbfilterMatchNumExpression], and string patterns,
    [usbfilterMatchStringPattern].

    A C string is the list of its characters before the terminator, a pointer into it is what
    follows the pointer, and a read at the terminator gives 0.  Characters are the numbers 1
    to 255.  The loops over an expression or a pattern have fuel; the length of the string is
    enough, which the theorems of this file include.

    The definitions are compared with references that do not scan: a grammar of numerals
    and ranges, and a relation of patterns and the strings they stand for. *)

From S2P Require Import Prelude.
Local Open Scope Z_scope.

Definition VWRN_NUMBER_TOO_BIG : Z := 55.
Definition VERR_NO_DIGITS : Z := -56.
Definition UINT16_MAX : Z := 0xffff.

(** * Characters *)

Definition chr (psz : list Z) : Z := hd 0 psz.

Definition RTLocCIsBlank (ch : Z) : bool := (ch =? 32) || (ch =? 9).
Definition RTLocCIsDigit (ch : Z) : bool := (48 <=? ch) && (ch <=? 57).
Definition RTLocCIsODigit (ch : Z) : bool := (48 <=? ch) && (ch <=? 55).
Definition RTLocCIsXDigit (ch : Z) : bool :=
  ((48 <=? ch) && (ch <=? 57)) || ((97 <=? ch) && (ch <=? 102)) || ((65 <=? ch) && (ch <=? 70)).

(** The separator of sub-expressions, the range sign, and the wildcards. *)
Definition ch_bar : Z := 124.
Definition ch_minus : Z := 45.
Definition ch_any : Z := 63.
Definition ch_star : Z := 42.

(** [while (p( *psz )) psz++;] for a [p] that is false of the terminator. *)
Fixpoint skip_while (p : Z → bool) (psz : list Z) : list Z :=
  match psz with
  | [] => []
  | ch :: psz' => if p ch then skip_while p psz' else psz
  end.

Definition usbfilterSkipBlanks (psz : list Z) : list Z := skip_while RTLocCIsBlank psz.

(** * Numbers *)

Definition hex_digit (ch : Z) : Z :=
  if (97 <=? ch) && (ch <=? 102) then u32 (ch - 97 + 10)
  else if (65 <=? ch) && (ch <=? 70) then u32 (ch - 65 + 10)
  else u32 (ch - 48).

Definition dec_digit (ch : Z) : Z := u32 (ch - 48).

(** The digit loop of both workers: what is left, the 32-bit value and the status. *)
Fixpoint read_digits (uDigit : Z → Z) (uBase : Z) (pszExpr : list Z) (v rc : Z) : list Z * Z * Z :=
  match pszExpr with
  | [] => ([], v, rc)
  | ch :: psz' =>
      if uBase <=? uDigit ch then (pszExpr, v, rc)
      else
        let v := u32 (u32 (v * uBase) + uDigit ch) in
        let rc := if UINT16_MAX <? v then VWRN_NUMBER_TOO_BIG else rc in
        read_digits uDigit uBase psz' v rc
  end.

(** Results of reading: status, what is left of the expression, the value. *)
Definition usbfilterReadNumberHex (pszExpr : list Z) : Z * list Z * Z :=
  let '(psz, v, rc) := read_digits hex_digit 16 pszExpr 0 VINF_SUCCESS in
  (VINF_SUCCESS, usbfilterSkipBlanks psz, if rc =? VINF_SUCCESS then u16 v else UINT16_MAX).

Definition usbfilterReadNumberDecimal (pszExpr : list Z) (uBase : Z) : Z * list Z * Z :=
  let '(psz, v, rc) := read_digits dec_digit uBase pszExpr 0 VINF_SUCCESS in
  (rc, usbfilterSkipBlanks psz, if rc =? VINF_SUCCESS then u16 v else UINT16_MAX).

(** When it fails, pointer and value are left as they were. *)
Definition usbfilterReadNumber (ppszExpr : list Z) (u16Val : Z) : Z * list Z * Z :=
  let pszExpr := usbfilterSkipBlanks ppszExpr in
  if negb (RTLocCIsDigit (chr pszExpr)) then (VERR_NO_DIGITS, ppszExpr, u16Val)
  else if chr pszExpr =? 48 then
    if (chr (drop 1 pszExpr) =? 120) || (chr (drop 1 pszExpr) =? 88) then
      if negb (RTLocCIsXDigit (chr (drop 2 pszExpr))) then (VERR_NO_DIGITS, ppszExpr, u16Val)
      else usbfilterReadNumberHex (drop 2 pszExpr)
    else if RTLocCIsODigit (chr (drop 1 pszExpr)) then
      usbfilterReadNumberDecimal (drop 1 pszExpr) 8
    else if RTLocCIsDigit (chr (drop 1 pszExpr)) then (VERR_NO_DIGITS, ppszExpr, u16Val)
    else usbfilterReadNumberDecimal pszExpr 10
  else usbfilterReadNumberDecimal pszExpr 10.

(** * Numeric expressions *)

Definition is_separator (ch : Z) : bool := (ch =? ch_bar) || RTLocCIsBlank ch.
Definition not_bar (ch : Z) : bool := negb (ch =? ch_bar).

(** One sub-expression: [-N], [M] or [M-N].  The matcher skips blanks once more than the
    validator before it looks for the sign ([skip]).  Status, what is left, first, last. *)
Definition num_sub_expression (skip : list Z → list Z) (pszExpr : list Z) : Z * list Z * Z * Z :=
  if chr pszExpr =? ch_minus then
    let '(rc, psz, u16Last) := usbfilterReadNumber (drop 1 pszExpr) 0 in
    (rc, psz, 0, u16Last)
  else
    let '(rc, psz, u16First) := usbfilterReadNumber pszExpr 0 in
    if RT_SUCCESS rc then
      let psz := skip psz in
      if chr psz =? ch_minus then
        let '(rc, psz, u16Last) := usbfilterReadNumber (drop 1 psz) 0 in
        (rc, psz, u16First, u16Last)
      else (rc, psz, u16First, u16First)
    else (rc, psz, u16First, 0).

(** At the end of a sub-expression: the end of the string or a separator. *)
Definition at_end (psz : list Z) : bool := (chr psz =? 0) || (chr psz =? ch_bar).

Fixpoint validate_loop (n : nat) (pszExpr : list Z) (cSubExpressions : Z) : option Z :=
  match n with
  | O => None
  | S n =>
      let done := Some (if cSubExpressions =? 0 then VERR_INVALID_PARAMETER else VINF_SUCCESS) in
      if chr pszExpr =? 0 then done
      else
        let psz := skip_while is_separator pszExpr in
        if chr psz =? 0 then done
        else
          let '(rc, psz, _, _) := num_sub_expression id psz in
          if RT_FAILURE rc then Some rc
          else if negb (at_end psz) then Some VERR_INVALID_PARAMETER
          else validate_loop n psz (cSubExpressions + 1)
  end.

Definition usbfilterValidateNumExpression (pszExpr : list Z) : option Z :=
  if chr pszExpr =? 0 then Some VINF_SUCCESS
  else validate_loop (S (length pszExpr)) pszExpr 0.

Definition usbfilterValidateStringPattern (psz : list Z) : Z := VINF_SUCCESS.

Fixpoint match_num_loop (n : nat) (pszExpr : list Z) (u16Value : Z) : option bool :=
  match n with
  | O => None
  | S n =>
      if chr pszExpr =? 0 then Some false
      else
        let psz := skip_while is_separator pszExpr in
        if chr psz =? 0 then Some false
        else
          let '(rc, psz, u16First, u16Last) := num_sub_expression usbfilterSkipBlanks psz in
          let rc := if RT_SUCCESS rc && negb (at_end psz) then VERR_INVALID_PARAMETER else rc in
          if RT_SUCCESS rc then
            let '(u16First, u16Last) :=
              if u16Last <? u16First then (u16Last, u16First) else (u16First, u16Last) in
            if (u16First <=? u16Value) && (u16Value <=? u16Last) then Some true
            else match_num_loop n psz u16Value
          else match_num_loop n (skip_while not_bar psz) u16Value
  end.

Definition usbfilterMatchNumExpression (pszExpr : list Z) (u16Value : Z) : option bool :=
  match_num_loop (S (length pszExpr)) pszExpr u16Value.

(** * String patterns *)

Definition is_wild (ch : Z) : bool := (ch =? ch_star) || (ch =? ch_any).
Definition not_wild (ch : Z) : bool := negb (is_wild ch).

(** The length of the exact sequence at the start of a pattern. *)
Fixpoint exact_len (pszPattern : list Z) : nat :=
  match pszPattern with
  | [] => 0
  | ch :: p => if is_wild ch then 0 else S (exact_len p)
  end.

(** The search for the last place where the sequence [seq] occurs: at most [cch + 1] places
    are tried.  [strncmp] compares the first characters of two strings. *)
Fixpoint last_match (seq : list Z) (cch : Z) (psz : list Z) (pszMatch : option (list Z)) :
    option (list Z) :=
  match psz with
  | [] => pszMatch
  | ch :: psz' =>
      if cch <? 0 then pszMatch
      else
        last_match seq (cch - 1) psz'
          (if (ch =? chr seq) && bool_decide (take (length seq) psz = seq) then Some psz
           else pszMatch)
  end.

Fixpoint match_pattern_loop (n : nat) (pszPattern psz : list Z) : option bool :=
  match n with
  | O => None
  | S n =>
      match pszPattern with
      | [] => Some (chr psz =? 0)
      | ch :: pat =>
          if ch =? ch_any then match_pattern_loop n pat (drop 1 psz)
          else if ch =? ch_star then
            let pat := skip_while is_wild pat in
            if chr pat =? 0 then Some true
            else
              let cchMatch := exact_len pat in
              let cch := Z.of_nat (length psz) - Z.of_nat cchMatch in
              if cch <? 0 then Some false
              else if chr (drop cchMatch pat) =? 0 then
                Some (bool_decide (take cchMatch (drop (Z.to_nat cch) psz) = take cchMatch pat))
              else
                match last_match (take cchMatch pat) cch psz None with
                | None => Some false
                | Some pszMatch =>
                    match_pattern_loop n (drop cchMatch pat) (drop cchMatch pszMatch)
                end
          else if negb (ch =? chr psz) then Some false
          else match_pattern_loop n pat (drop 1 psz)
      end
  end.

Definition usbfilterMatchStringPattern (pszPattern psz : list Z) : option bool :=
  match_pattern_loop (S (length pszPattern)) pszPattern psz.

(** * References *)

(** The value of digits, and how it is stored in 16 bits. *)
Definition digits_val (uDigit : Z → Z) (uBase : Z) (ds : list Z) (v : Z) : Z :=
  foldl (λ v ch, v * uBase + uDigit ch) v ds.

Definition sat16 (v : Z) : Z := Z.min v UINT16_MAX.

Definition blanks (s : list Z) : Prop := Forall (λ ch, RTLocCIsBlank ch = true) s.

(** After the first digit of a hexadecimal number the six characters that follow the digit
    nine count as digits too, with the values 10 to 15. *)
Definition hex_follow (ch : Z) : bool := RTLocCIsXDigit ch || ((58 <=? ch) && (ch <=? 63)).

(** Numerals: hexadecimal, octal, decimal. *)
Inductive numeral : list Z → Z → Prop :=
| numeral_hex x d ds :
    (x = 120 ∨ x = 88) → RTLocCIsXDigit d = true → Forall (λ ch, hex_follow ch = true) ds →
    numeral (48 :: x :: d :: ds) (sat16 (digits_val hex_digit 16 (d :: ds) 0))
| numeral_oct ds :
    ds ≠ [] → Forall (λ ch, RTLocCIsODigit ch = true) ds →
    numeral (48 :: ds) (sat16 (digits_val dec_digit 8 ds 0))
| numeral_zero : numeral [48] 0
| numeral_dec d ds :
    d ≠ 48 → Forall (λ ch, RTLocCIsDigit ch = true) (d :: ds) →
    numeral (d :: ds) (sat16 (digits_val dec_digit 10 (d :: ds) 0)).

Definition padded (s : list Z) (v : Z) : Prop :=
  ∃ b1 ds b2, s = b1 ++ ds ++ b2 ∧ blanks b1 ∧ blanks b2 ∧ numeral ds v.

Inductive sub_expr : list Z → Z → Z → Prop :=
| sub_one s v : padded s v → sub_expr s v v
| sub_range s1 s2 v1 v2 : padded s1 v1 → padded s2 v2 → sub_expr (s1 ++ ch_minus :: s2) v1 v2
| sub_upto b s v : blanks b → padded s v → sub_expr (b ++ ch_minus :: s) 0 v.

(** The sub-expressions of an expression, empty ones included. *)
Fixpoint split_bar (s : list Z) : list (list Z) :=
  match s with
  | [] => [[]]
  | ch :: s' =>
      if ch =? ch_bar then [] :: split_bar s'
      else match split_bar s' with
           | p :: ps => (ch :: p) :: ps
           | [] => [[ch]]
           end
  end.

Definition in_range (v a b : Z) : Prop := Z.min a b ≤ v ≤ Z.max a b.

(** The strings a pattern stands for: a question mark for one character or the end of the
    string, a star, with all wildcards that follow it, for any characters. *)
Inductive glob : list Z → list Z → Prop :=
| glob_nil : glob [] []
| glob_exact ch p s : is_wild ch = false → glob p s → glob (ch :: p) (ch :: s)
| glob_any ch p s : glob p s → glob (ch_any :: p) (ch :: s)
| glob_any_end p : glob p [] → glob (ch_any :: p) []
| glob_star p x s : glob (skip_while is_wild p) s → glob (ch_star :: p) (x ++ s).

(** The characters of a string. *)
Definition is_cstr (s : list Z) : Prop := Forall (λ ch, 1 ≤ ch ≤ 255) s.

(** * Characters and scanning *)

Lemma byte_cases (P : Z → bool) ch :
  forallb P (Z.of_nat <$> seq 0 256) = true → 0 ≤ ch ≤ 255 → P ch = true.
Proof.
  intros H Hch. rewrite forallb_forall in H. apply H. apply list_elem_of_In.
  apply list_elem_of_fmap. exists (Z.to_nat ch). split; [lia|].
  apply elem_of_seq. lia.
Qed.

Lemma hex_digit_spec ch :
  0 ≤ ch ≤ 255 → 0 ≤ hex_digit ch ∧ (hex_digit ch < 16 ↔ hex_follow ch = true).
Proof.
  intros H.
  assert (E : (0 <=? hex_digit ch) && (Bool.eqb (hex_digit ch <? 16) (hex_follow ch)) = true)
    by (apply (byte_cases (λ ch, (0 <=? hex_digit ch)
          && Bool.eqb (hex_digit ch <? 16) (hex_follow ch))); [by vm_compute|done]).
  apply andb_true_iff in E as [E1 E2]. apply Bool.eqb_prop in E2. rewrite <- E2. lia.
Qed.

Lemma dec_digit_spec ch :
  0 ≤ ch ≤ 255 →
  0 ≤ dec_digit ch ∧ (dec_digit ch < 10 ↔ RTLocCIsDigit ch = true)
  ∧ (dec_digit ch < 8 ↔ RTLocCIsODigit ch = true).
Proof.
  intros H.
  assert (E : (0 <=? dec_digit ch) && (Bool.eqb (dec_digit ch <? 10) (RTLocCIsDigit ch)
              && Bool.eqb (dec_digit ch <? 8) (RTLocCIsODigit ch)) = true)
    by (apply (byte_cases (λ ch, (0 <=? dec_digit ch)
          && (Bool.eqb (dec_digit ch <? 10) (RTLocCIsDigit ch)
              && Bool.eqb (dec_digit ch <? 8) (RTLocCIsODigit ch)))); [by vm_compute|done]).
  apply andb_true_iff in E as [E1 E2]. apply andb_true_iff in E2 as [E2 E3].
  apply Bool.eqb_prop in E2, E3. rewrite <- E2, <- E3. lia.
Qed.

(** What holds of characters of which classes. *)
Ltac char_classes :=
  unfold hex_follow, RTLocCIsXDigit, RTLocCIsDigit, RTLocCIsODigit, RTLocCIsBlank, is_separator, not_bar,
    is_wild, not_wild, ch_bar, ch_minus, ch_star, ch_any in *; lia.

Lemma chr_0 s : is_cstr s → chr s = 0 ↔ s = [].
Proof.
  intros H. destruct s as [|ch s]; [done|]. simpl. inversion H. split; [lia|done].
Qed.

Lemma chr_0_eqb s : is_cstr s → (chr s =? 0) = bool_decide (s = []).
Proof.
  intros H. apply chr_0 in H. case_bool_decide; destruct (Z.eqb_spec (chr s) 0); tauto.
Qed.

Lemma is_cstr_app s1 s2 : is_cstr (s1 ++ s2) ↔ is_cstr s1 ∧ is_cstr s2.
Proof. apply Forall_app. Qed.

Lemma is_cstr_drop n s : is_cstr s → is_cstr (drop n s).
Proof. apply Forall_drop. Qed.

Lemma is_cstr_take n s : is_cstr s → is_cstr (take n s).
Proof. apply Forall_take. Qed.

#[export] Hint Resolve is_cstr_drop is_cstr_take : core.

Section skip_while.
Context (p : Z → bool).

Lemma skip_while_split s :
  ∃ pre, s = pre ++ skip_while p s ∧ Forall (λ ch, p ch = true) pre
         ∧ (skip_while p s = [] ∨ p (chr (skip_while p s)) = false).
Proof.
  induction s as [|ch s (pre&Hs&Hpre&Hr)]; simpl.
  - exists []. auto.
  - destruct (p ch) eqn:E.
    + exists (ch :: pre). simpl. rewrite <- Hs. auto.
    + exists []. auto.
Qed.

Lemma skip_while_app pre s :
  Forall (λ ch, p ch = true) pre → skip_while p (pre ++ s) = skip_while p s.
Proof. induction 1 as [|ch pre Hch Hpre IH]; simpl; [done|]. by rewrite Hch. Qed.

Lemma skip_while_id s : s = [] ∨ p (chr s) = false → skip_while p s = s.
Proof. destruct s as [|ch s]; simpl; [done|]. intros [?|E]; [done|by rewrite E]. Qed.

Lemma skip_while_idemp s : skip_while p (skip_while p s) = skip_while p s.
Proof. destruct (skip_while_split s) as (pre&_&_&H). by apply skip_while_id. Qed.

Lemma skip_while_cstr s : is_cstr s → is_cstr (skip_while p s).
Proof.
  destruct (skip_while_split s) as (pre&Hs&_). intros H. rewrite Hs in H.
  by destruct (proj1 (is_cstr_app _ _) H).
Qed.

Lemma skip_while_length s : (length (skip_while p s) ≤ length s)%nat.
Proof.
  destruct (skip_while_split s) as (pre&Hs&_). rewrite Hs at 2. rewrite length_app. lia.
Qed.
End skip_while.

#[export] Hint Resolve skip_while_cstr : core.

(** * Numbers *)

(** What the digit loop knows of the true value [w] of the digits it has seen: it has it,
    or has seen that it does not fit into 16 bits. *)
Definition digits_inv (v rc w : Z) : Prop :=
  (rc = VINF_SUCCESS ∧ v = w ∧ 0 ≤ w ≤ UINT16_MAX) ∨ (rc = VWRN_NUMBER_TOO_BIG ∧ UINT16_MAX < w).

Section digits.
Context (dig : Z → Z) (base : Z) (Hbase : 2 ≤ base ≤ 16).

Lemma digits_inv_step v rc w d :
  digits_inv v rc w → 0 ≤ d < base →
  let v' := u32 (u32 (v * base) + d) in
  digits_inv v' (if UINT16_MAX <? v' then VWRN_NUMBER_TOO_BIG else rc) (w * base + d).
Proof.
  unfold digits_inv, UINT16_MAX, VINF_SUCCESS, VWRN_NUMBER_TOO_BIG. cbv zeta.
  intros [(->&->&Hw)|(->&Hw)] Hd.
  - assert (0 ≤ w * base + d ≤ 65535 * 16 + 15) by nia.
    unfold u32. rewrite (Z.mod_small (w * base)) by nia. rewrite Z.mod_small by nia.
    destruct (Z.ltb_spec 65535 (w * base + d)); [right|left]; lia.
  - right. split; [by destruct (_ <? _)|nia].
Qed.

Lemma read_digits_app ds rest v rc w :
  Forall (λ ch, 0 ≤ dig ch < base) ds → rest = [] ∨ base ≤ dig (chr rest) →
  digits_inv v rc w →
  ∃ v' rc', read_digits dig base (ds ++ rest) v rc = (rest, v', rc')
            ∧ digits_inv v' rc' (digits_val dig base ds w).
Proof.
  intros Hds Hrest. revert v rc w. induction Hds as [|ch ds Hch Hds IH]; intros v rc w Hinv.
  - simpl. exists v, rc. split; [|done]. destruct rest as [|ch rest]; [done|].
    destruct Hrest as [?|Hrest]; [done|]. simpl in *. by rewrite (proj2 (Z.leb_le _ _) Hrest).
  - cbn [app read_digits]. rewrite (proj2 (Z.leb_gt _ _)) by lia. apply IH.
    by apply digits_inv_step.
Qed.

Lemma digits_inv_result v rc w :
  digits_inv v rc w → (if rc =? VINF_SUCCESS then u16 v else UINT16_MAX) = sat16 w
  ∧ RT_SUCCESS rc = true.
Proof.
  unfold digits_inv, sat16, UINT16_MAX, VINF_SUCCESS, VWRN_NUMBER_TOO_BIG, u16.
  intros [(->&->&Hw)|(->&Hw)]; simpl; split; try done; [rewrite Z.mod_small by lia|]; lia.
Qed.
End digits.

Lemma Forall_digits (f : Z → bool) (dig : Z → Z) base ds :
  (∀ ch, 0 ≤ ch ≤ 255 → 0 ≤ dig ch ∧ (dig ch < base ↔ f ch = true)) →
  is_cstr ds → Forall (λ ch, f ch = true) ds → Forall (λ ch, 0 ≤ dig ch < base) ds.
Proof.
  intros Hf Hc H. induction H as [|ch ds Hch Hds IH]; [done|]. inversion Hc; subst.
  constructor; [|auto]. destruct (Hf ch) as [? [_ ?]]; [lia|]. auto.
Qed.

(** Where digits end. *)
Lemma digits_stop (f : Z → bool) (dig : Z → Z) base rest :
  (∀ ch, 0 ≤ ch ≤ 255 → 0 ≤ dig ch ∧ (dig ch < base ↔ f ch = true)) →
  is_cstr rest → rest = [] ∨ f (chr rest) = false → rest = [] ∨ base ≤ dig (chr rest).
Proof.
  intros Hf Hc [->|H]; [by left|]. destruct rest as [|ch rest]; [by left|]. right. simpl in *.
  inversion Hc; subst. destruct (Hf ch) as [_ Hb]; [lia|]. rewrite H in Hb.
  destruct (Z.le_gt_cases base (dig ch)); [done|]. by apply Hb in H0.
Qed.

Lemma hex_ok : ∀ ch, 0 ≤ ch ≤ 255 → 0 ≤ hex_digit ch ∧ (hex_digit ch < 16 ↔ hex_follow ch = true).
Proof. apply hex_digit_spec. Qed.

Lemma dec_ok : ∀ ch, 0 ≤ ch ≤ 255 → 0 ≤ dec_digit ch ∧ (dec_digit ch < 10 ↔ RTLocCIsDigit ch = true).
Proof. intros ch H. apply dec_digit_spec in H. tauto. Qed.

Lemma oct_ok : ∀ ch, 0 ≤ ch ≤ 255 → 0 ≤ dec_digit ch ∧ (dec_digit ch < 8 ↔ RTLocCIsODigit ch = true).
Proof. intros ch H. apply dec_digit_spec in H. tauto. Qed.

Lemma read_hex_spec ds rest :
  is_cstr (ds ++ rest) → Forall (λ ch, hex_follow ch = true) ds →
  rest = [] ∨ hex_follow (chr rest) = false →
  usbfilterReadNumberHex (ds ++ rest)
  = (VINF_SUCCESS, usbfilterSkipBlanks rest, sat16 (digits_val hex_digit 16 ds 0)).
Proof.
  intros [Hc1 Hc2]%is_cstr_app Hds Hrest. unfold usbfilterReadNumberHex.
  destruct (read_digits_app hex_digit 16 ltac:(lia) ds rest 0 VINF_SUCCESS 0) as (v&rc&->&Hinv).
  - by apply (Forall_digits _ _ _ _ hex_ok).
  - by apply (digits_stop _ _ _ _ hex_ok).
  - left. unfold UINT16_MAX. lia.
  - by apply digits_inv_result in Hinv as [-> _].
Qed.

Lemma read_dec_spec f base ds rest :
  (∀ ch, 0 ≤ ch ≤ 255 → 0 ≤ dec_digit ch ∧ (dec_digit ch < base ↔ f ch = true)) →
  2 ≤ base ≤ 16 → is_cstr (ds ++ rest) → Forall (λ ch, f ch = true) ds →
  rest = [] ∨ f (chr rest) = false →
  ∃ rc, RT_SUCCESS rc = true ∧
  usbfilterReadNumberDecimal (ds ++ rest) base
  = (rc, usbfilterSkipBlanks rest, sat16 (digits_val dec_digit base ds 0)).
Proof.
  intros Hf Hb [Hc1 Hc2]%is_cstr_app Hds Hrest. unfold usbfilterReadNumberDecimal.
  destruct (read_digits_app dec_digit base Hb ds rest 0 VINF_SUCCESS 0) as (v&rc&->&Hinv).
  - by apply (Forall_digits _ _ _ _ Hf).
  - by apply (digits_stop _ _ _ _ Hf).
  - left. unfold UINT16_MAX. lia.
  - apply digits_inv_result in Hinv as [-> ?]. eauto.
Qed.

(** [usbfilterReadNumber] reads a padded numeral, as long as possible, or leaves the pointer
    where it is. *)

Lemma span (f : Z → bool) s :
  ∃ ds rest, s = ds ++ rest ∧ Forall (λ ch, f ch = true) ds ∧ (rest = [] ∨ f (chr rest) = false).
Proof. destruct (skip_while_split f s) as (ds&Hs&?&?). eauto. Qed.

Lemma skip_blanks_spec s :
  ∃ b, s = b ++ usbfilterSkipBlanks s ∧ blanks b.
Proof. destruct (skip_while_split RTLocCIsBlank s) as (b&?&?&_). eauto. Qed.

Lemma padded_intro b1 ds psz v s :
  s = b1 ++ ds ++ psz → blanks b1 → numeral ds v →
  ∃ p, s = p ++ usbfilterSkipBlanks psz ∧ padded p v.
Proof.
  intros -> Hb1 Hds. destruct (skip_blanks_spec psz) as (b2&Hs&Hb2).
  exists (b1 ++ ds ++ b2). split; [by rewrite <- !(assoc_L (++)), <- Hs|].
  exists b1, ds, b2. auto.
Qed.

(** A decimal number does not start with a zero, unless it is one. *)
Lemma numeral_decimal d ds :
  Forall (λ ch, RTLocCIsDigit ch = true) (d :: ds) → d ≠ 48 ∨ ds = [] →
  numeral (d :: ds) (sat16 (digits_val dec_digit 10 (d :: ds) 0)).
Proof.
  intros Hds [Hd| ->]; [by constructor|]. destruct (Z.eq_dec d 48) as [->|?].
  - apply numeral_zero.
  - by constructor.
Qed.

Lemma read_number_fail s v0 rc psz v :
  usbfilterReadNumber s v0 = (rc, psz, v) →
  (rc = VERR_NO_DIGITS ∧ psz = s ∧ v = v0) ∨ psz = usbfilterSkipBlanks psz.
Proof.
  unfold usbfilterReadNumber, usbfilterReadNumberHex, usbfilterReadNumberDecimal. intros H.
  repeat match type of H with
  | context [if ?b then _ else _] => destruct b
  | context [read_digits ?d ?b ?s ?v ?r] => destruct (read_digits d b s v r) as [[??] ?]
  end; injection H; intros; subst; try (by left); right; unfold usbfilterSkipBlanks;
    by rewrite skip_while_idemp.
Qed.

Lemma read_number_inv s v0 rc psz v :
  is_cstr s → usbfilterReadNumber s v0 = (rc, psz, v) → RT_SUCCESS rc = true →
  ∃ p, s = p ++ psz ∧ padded p v.
Proof.
  intros Hs H Hrc. destruct (skip_blanks_spec s) as (b1&Hs1&Hb1).
  assert (Hc1 : is_cstr (usbfilterSkipBlanks s)) by (by apply skip_while_cstr).
  unfold usbfilterReadNumber in H. remember (usbfilterSkipBlanks s) as s1 eqn:Es1. clear Es1.
  destruct (RTLocCIsDigit (chr s1)) eqn:Hd; simpl in H; [|injection H as <- _ _; done].
  destruct s1 as [|d s1]; [done|]. simpl in Hd, H.
  destruct (Z.eqb_spec d 48) as [->|Hnz].
  - destruct ((chr (drop 0 s1) =? 120) || (chr (drop 0 s1) =? 88)) eqn:Hx.
    + destruct (RTLocCIsXDigit (chr (drop 1 s1))) eqn:Hxd; simpl in H;
        [|injection H as <- _ _; done].
      destruct s1 as [|x [|d s1]]; [done|done|]. simpl in *.
      destruct (span hex_follow s1) as (ds&rest&->&Hds&Hrest).
      assert (E : usbfilterReadNumberHex (d :: ds ++ rest)
                  = (VINF_SUCCESS, usbfilterSkipBlanks rest,
                     sat16 (digits_val hex_digit 16 (d :: ds) 0))).
      { apply (read_hex_spec (d :: ds) rest); [|constructor; [|done]|done].
        - inversion Hc1; subst. by inversion H3.
        - unfold hex_follow. by rewrite Hxd. }
      rewrite E in H. injection H as <- <- <-. apply (padded_intro b1 (48 :: x :: d :: ds)).
      * by rewrite Hs1.
      * done.
      * constructor; [|done|done]. lia.
    + rewrite drop_0 in H. destruct (RTLocCIsODigit (chr s1)) eqn:Ho.
      * destruct (span RTLocCIsODigit s1) as (ds&rest&->&Hds&Hrest).
        destruct (read_dec_spec RTLocCIsODigit 8 ds rest oct_ok) as (rc'&Hrc'&E);
          [lia| |done|done|].
        { by inversion Hc1. }
        rewrite E in H. injection H as <- <- <-. apply (padded_intro b1 (48 :: ds)); [|done|].
        { by rewrite Hs1. }
        constructor; [|done]. destruct ds as [|? ds]; [|done]. destruct rest as [|c rest]; [done|].
        destruct Hrest as [?|Hrest]; [done|]. simpl in *. congruence.
      * destruct (RTLocCIsDigit (chr s1)) eqn:Hd1; [injection H as <- _ _; done|].
        destruct (read_dec_spec RTLocCIsDigit 10 [48] s1 dec_ok) as (rc'&Hrc'&E);
          [lia|done|by repeat constructor|by right|].
        simpl in E. rewrite E in H. injection H as <- <- <-.
        apply (padded_intro b1 [48]); [|done|apply numeral_zero]. by rewrite Hs1.
  - destruct (span RTLocCIsDigit s1) as (ds&rest&->&Hds&Hrest).
    destruct (read_dec_spec RTLocCIsDigit 10 (d :: ds) rest dec_ok) as (rc'&Hrc'&E);
      [lia|done|by constructor|done|].
    simpl in E. rewrite E in H. injection H as <- <- <-.
    apply (padded_intro b1 (d :: ds)); [|done|].
    { by rewrite Hs1. }
    apply numeral_decimal; [by constructor|by left].
Qed.

(** What may follow a number in an expression. *)
Definition num_stop (rest : list Z) : Prop :=
  rest = [] ∨ chr rest = ch_minus ∨ chr rest = ch_bar.

Lemma num_stop_not (f : Z → bool) rest :
  f ch_minus = false → f ch_bar = false → num_stop rest → rest = [] ∨ f (chr rest) = false.
Proof. intros ? ? [?|[E|E] ]; [auto|right; by rewrite E..]. Qed.

(** Behind the digits of a padded numeral come blanks or what may follow a number. *)
Lemma digits_end (f : Z → bool) b rest :
  (∀ ch, RTLocCIsBlank ch = true → f ch = false) → f ch_minus = false → f ch_bar = false →
  blanks b → num_stop rest → b ++ rest = [] ∨ f (chr (b ++ rest)) = false.
Proof.
  intros Hf ?? Hb Hr. destruct Hb as [|ch b Hch Hb]; simpl; [by apply num_stop_not|].
  right. auto.
Qed.

Lemma skip_blanks_stop b rest :
  blanks b → num_stop rest → usbfilterSkipBlanks (b ++ rest) = rest.
Proof.
  intros Hb Hr. unfold usbfilterSkipBlanks. rewrite skip_while_app by done.
  apply skip_while_id. by apply num_stop_not.
Qed.

Lemma read_number_complete p v rest v0 :
  is_cstr (p ++ rest) → padded p v → num_stop rest →
  ∃ rc, RT_SUCCESS rc = true ∧ usbfilterReadNumber (p ++ rest) v0 = (rc, rest, v).
Proof.
  intros Hc (b1&n&b2&->&Hb1&Hb2&Hn) Hr. rewrite <- !(assoc_L (++)) in *.
  apply is_cstr_app in Hc as [_ Hc]. unfold usbfilterReadNumber, usbfilterSkipBlanks.
  rewrite skip_while_app by done.
  assert (HX : b2 ++ rest = [] ∨ hex_follow (chr (b2 ++ rest)) = false)
    by (apply digits_end; [intros; char_classes|done..]).
  assert (HD : b2 ++ rest = [] ∨ RTLocCIsDigit (chr (b2 ++ rest)) = false)
    by (apply digits_end; [intros; char_classes|done..]).
  assert (HO : b2 ++ rest = [] ∨ RTLocCIsODigit (chr (b2 ++ rest)) = false)
    by (apply digits_end; [intros; char_classes|done..]).
  destruct Hn as [x d ds Hx Hd Hds|ds Hne Hds| |d ds Hd Hds].
  - rewrite skip_while_id by (by right). cbn [app chr hd drop].
    replace (RTLocCIsDigit 48) with true by done. simpl.
    rewrite (proj2 (orb_true_iff _ _)) by lia. rewrite Hd.
    pose proof (read_hex_spec (d :: ds) (b2 ++ rest)) as E. simpl in E. rewrite E; [|..].
    + rewrite skip_blanks_stop by done. by exists VINF_SUCCESS.
    + inversion Hc; subst. by inversion H2.
    + constructor; [|done]. unfold hex_follow. by rewrite Hd.
    + done.
  - rewrite skip_while_id by (by right). simpl. rewrite drop_0.
    destruct Hds as [|d ds Hd Hds]; [done|]. cbn [app chr hd].
    replace ((d =? 120) || (d =? 88)) with false by char_classes. rewrite Hd.
    destruct (read_dec_spec RTLocCIsODigit 8 (d :: ds) (b2 ++ rest) oct_ok) as (rc'&Hrc'&E);
      [lia|by inversion Hc|by constructor|done|].
    simpl in E. rewrite E. rewrite skip_blanks_stop by done. eauto.
  - rewrite skip_while_id by (by right). simpl. rewrite drop_0.
    assert (Hz : ∀ f, f 0 = false → b2 ++ rest = [] ∨ f (chr (b2 ++ rest)) = false →
                      f (chr (b2 ++ rest)) = false) by (intros f ? [->|?]; done).
    rewrite (Hz RTLocCIsODigit), (Hz RTLocCIsDigit) by done.
    replace ((chr (b2 ++ rest) =? 120) || (chr (b2 ++ rest) =? 88)) with false.
    2: { symmetry. apply (Hz (λ ch, (ch =? 120) || (ch =? 88))); [done|].
         apply (digits_end (λ ch, (ch =? 120) || (ch =? 88))); [intros; char_classes|done..]. }
    destruct (read_dec_spec RTLocCIsDigit 10 [48] (b2 ++ rest) dec_ok) as (rc'&Hrc'&E);
      [lia|done|by repeat constructor|done|].
    simpl in E. rewrite E. rewrite skip_blanks_stop by done. eauto.
  - inversion Hds; subst. rewrite skip_while_id by (right; simpl; char_classes). simpl.
    rewrite (proj2 (Z.eqb_neq _ _) Hd). rewrite H1. simpl.
    destruct (read_dec_spec RTLocCIsDigit 10 (d :: ds) (b2 ++ rest) dec_ok) as (rc'&Hrc'&E);
      [lia|done|done|done|].
    simpl in E. rewrite E. rewrite skip_blanks_stop by done. eauto.
Qed.

(** * Sub-expressions *)

(** The matcher skips blanks where none are left. *)
Lemma num_sub_skip s :
  num_sub_expression usbfilterSkipBlanks s = num_sub_expression id s.
Proof.
  unfold num_sub_expression. destruct (_ =? _); [done|].
  destruct (usbfilterReadNumber s 0) as [[rc psz] v] eqn:E.
  destruct (RT_SUCCESS rc) eqn:Hrc; [|done].
  apply read_number_fail in E as [(->&_)|E]; [done|]. by rewrite <- E.
Qed.

Lemma numeral_head n v : numeral n v → ∃ d ds, n = d :: ds ∧ RTLocCIsDigit d = true.
Proof.
  intros [x d ds Hx Hd Hds|ds Hne Hds| |d ds Hd Hds]; [by eexists _, _..|].
  inversion Hds; subst. by eexists _, _.
Qed.

Lemma numeral_nobar n v : numeral n v → Forall (λ ch, not_bar ch = true) n.
Proof.
  intros [x d ds Hx Hd Hds|ds Hne Hds| |d ds Hd Hds]; repeat (constructor; [char_classes|]);
    try done; eapply Forall_impl; try done; intros ch; simpl; char_classes.
Qed.

Lemma blanks_nobar b : blanks b → Forall (λ ch, not_bar ch = true) b.
Proof. intros H. eapply Forall_impl; [done|]. simpl. char_classes. Qed.

Lemma padded_nobar p v : padded p v → Forall (λ ch, not_bar ch = true) p.
Proof.
  intros (b1&n&b2&->&?%blanks_nobar&?%blanks_nobar&?%numeral_nobar).
  by rewrite !Forall_app.
Qed.

Lemma sub_expr_nobar p a b : sub_expr p a b → Forall (λ ch, not_bar ch = true) p.
Proof.
  intros [s v ?%padded_nobar|s1 s2 v1 v2 ?%padded_nobar ?%padded_nobar|b' s v ?%blanks_nobar ?%padded_nobar];
    rewrite ?Forall_app, ?Forall_cons; auto.
Qed.

Lemma padded_ne p v : padded p v → p ≠ [].
Proof. intros (b1&n&b2&->&_&_&(d&ds&->&_)%numeral_head). by destruct b1. Qed.

Lemma sub_expr_ne p a b : sub_expr p a b → p ≠ [].
Proof.
  intros [s v ?%padded_ne|s1 s2 v1 v2 _ _|b' s v _ _]; [done|by destruct s1|by destruct b'].
Qed.

(** Blanks in front do not matter. *)
Lemma padded_blank c p v : RTLocCIsBlank c = true → padded (c :: p) v ↔ padded p v.
Proof.
  intros Hc. split.
  - intros (b1&n&b2&H&Hb1&Hb2&Hn). destruct Hb1 as [|c' b1 Hc' Hb1].
    + apply numeral_head in Hn as (d&ds&->&Hd). simplify_list_eq. char_classes.
    + simplify_list_eq. by exists b1, n, b2.
  - intros (b1&n&b2&->&Hb1&Hb2&Hn). exists (c :: b1), n, b2.
    split_and!; [done|by constructor|done..].
Qed.

Lemma sub_expr_blank c p a b :
  RTLocCIsBlank c = true → sub_expr (c :: p) a b ↔ sub_expr p a b.
Proof.
  intros Hc. split; intros H.
  - remember (c :: p) as q eqn:Eq. destruct H as [s v H|s1 s2 v1 v2 H1 H2|b' s v Hb H].
    + subst. constructor. by apply (padded_blank c).
    + pose proof (padded_ne _ _ H1). destruct s1 as [|c' s1]; [done|]. simplify_list_eq.
      constructor; [by apply (padded_blank c)|done].
    + destruct Hb as [|c' b' Hc' Hb]; simplify_list_eq. by constructor.
  - destruct H as [s v H|s1 s2 v1 v2 H1 H2|b' s v Hb H].
    + constructor. by apply padded_blank.
    + apply (sub_range (c :: s1) s2); [by apply padded_blank|done].
    + apply (sub_upto (c :: b') s); [by constructor|done].
Qed.

Lemma sub_inv s rc psz a b :
  is_cstr s → num_sub_expression id s = (rc, psz, a, b) → RT_SUCCESS rc = true →
  ∃ p, s = p ++ psz ∧ sub_expr p a b.
Proof.
  intros Hs. unfold num_sub_expression. destruct (Z.eqb_spec (chr s) ch_minus) as [Hm|Hm].
  - destruct (usbfilterReadNumber (drop 1 s) 0) as [[rc' psz'] v] eqn:E.
    intros [= <- <- <- <-] Hrc. apply read_number_inv in E as (p&Hp&Hpad); [|auto..].
    exists (ch_minus :: p). destruct s as [|c s]; simplify_eq/=. split; [by rewrite <- Hp|].
    apply (sub_upto [] p); [constructor|done].
  - destruct (usbfilterReadNumber s 0) as [[rc1 psz1] v1] eqn:E1.
    destruct (RT_SUCCESS rc1) eqn:Hrc1; [|intros [= <- <- <- <-]; congruence].
    apply read_number_inv in E1 as (p1&Hp1&Hpad1); [|done..]. unfold id.
    destruct (Z.eqb_spec (chr psz1) ch_minus) as [Hm1|Hm1].
    + destruct (usbfilterReadNumber (drop 1 psz1) 0) as [[rc2 psz2] v2] eqn:E2.
      intros [= <- <- <- <-] Hrc. apply read_number_inv in E2 as (p2&Hp2&Hpad2); [| |done].
      * exists (p1 ++ ch_minus :: p2). destruct psz1 as [|c psz1]; simplify_eq/=. split.
        { rewrite <- (assoc_L (++)). simpl. by rewrite <- Hp2. }
        by constructor.
      * apply is_cstr_drop. rewrite Hp1 in Hs. by apply is_cstr_app in Hs as [_ ?].
    + intros [= <- <- <- <-] Hrc. exists p1. split; [done|by constructor].
Qed.

Lemma at_end_stop rest : is_cstr rest → at_end rest = true → num_stop rest.
Proof.
  unfold at_end. intros Hc [H%Z.eqb_eq|H%Z.eqb_eq]%orb_true_iff.
  - left. by apply chr_0.
  - by right; right.
Qed.

Lemma sub_complete p rest a b :
  is_cstr (p ++ rest) → sub_expr p a b → RTLocCIsBlank (chr (p ++ rest)) = false →
  at_end rest = true →
  ∃ rc, RT_SUCCESS rc = true ∧ num_sub_expression id (p ++ rest) = (rc, rest, a, b).
Proof.
  intros Hc Hsub Hnb Hend. pose proof (proj1 (is_cstr_app _ _) Hc) as [_ Hcr].
  pose proof (at_end_stop _ Hcr Hend) as Hstop. unfold num_sub_expression.
  assert (Hdig : ∀ q v r, padded q v → RTLocCIsBlank (chr (q ++ r)) = false →
                          (chr (q ++ r) =? ch_minus) = false).
  { intros q v r (b1&n&b2&->&Hb1&_&(d&ds&->&Hd)%numeral_head) Hq.
    destruct Hb1 as [|c b1 Hb Hb1]; simpl in *; char_classes. }
  destruct Hsub as [s v H|s1 s2 v1 v2 H1 H2|b' s v Hb H].
  - rewrite (Hdig _ _ _ H Hnb).
    destruct (read_number_complete s v rest 0 Hc H Hstop) as (rc&Hrc&->).
    rewrite Hrc. unfold id. replace (chr rest =? ch_minus) with false; [eauto|].
    unfold at_end in Hend. char_classes.
  - rewrite <- (assoc_L (++)) in *. simpl in *. rewrite (Hdig _ _ _ H1 Hnb).
    destruct (read_number_complete s1 v1 (ch_minus :: s2 ++ rest) 0 Hc H1) as (rc&Hrc&->).
    { by right; left. }
    rewrite Hrc. unfold id. simpl. rewrite drop_0.
    destruct (read_number_complete s2 v2 rest 0) as (rc'&Hrc'&->); [|done..|eauto].
    apply is_cstr_app in Hc as [_ Hc]. by inversion Hc.
  - destruct Hb as [|c b' Hb' Hb]; simpl in *; [|congruence]. rewrite drop_0.
    destruct (read_number_complete s v rest 0) as (rc'&Hrc'&->); [by inversion Hc|done..|eauto].
Qed.

(** Whatever happens, only characters other than separators have been passed. *)
Lemma read_number_passes s v0 rc psz v :
  is_cstr s → usbfilterReadNumber s v0 = (rc, psz, v) →
  (RT_SUCCESS rc = true ∨ rc = VERR_NO_DIGITS)
  ∧ ∃ x, s = x ++ psz ∧ Forall (λ ch, not_bar ch = true) x.
Proof.
  intros Hs E. destruct (RT_SUCCESS rc) eqn:Hrc.
  - apply read_number_inv in E as (p&->&Hp); [|done..]. split; [by left|].
    exists p. split; [done|]. by eapply padded_nobar.
  - revert E. unfold usbfilterReadNumber. intros E.
    assert (HD : ∀ t b, (∃ p, s = p ++ t) → ∀ rc psz v,
              usbfilterReadNumberDecimal t b = (rc, psz, v) → RT_SUCCESS rc = true).
    { intros t b _ rc' psz' v'. unfold usbfilterReadNumberDecimal.
      assert (Hl : ∀ l v rc, RT_SUCCESS rc = true →
                let '(_, _, rc') := read_digits dec_digit b l v rc in RT_SUCCESS rc' = true).
      { induction l as [|ch l IH]; intros v1 rc1 H1; simpl; [done|].
        destruct (_ <=? _); [done|]. apply IH. by destruct (_ <? _). }
      specialize (Hl t 0 VINF_SUCCESS eq_refl).
      destruct (read_digits dec_digit b t 0 VINF_SUCCESS) as [[? ?] ?]. intros [= <- _ _]. done. }
    repeat match type of E with
    | context [if ?b then _ else _] => destruct b
    end; try (injection E as <- <- <-; split; [by right|by exists []]).
    + unfold usbfilterReadNumberHex in E.
      destruct (read_digits _ _ _ _ _) as [[? ?] ?]. injection E as <- _ _. done.
    + apply HD in E; [congruence|]. destruct (skip_blanks_spec s) as (b&Hb&_).
      exists (b ++ take 1 (usbfilterSkipBlanks s)).
      by rewrite <- (assoc_L (++)), take_drop.
    + apply HD in E; [congruence|]. destruct (skip_blanks_spec s) as (b&Hb&_). by exists b.
    + apply HD in E; [congruence|]. destruct (skip_blanks_spec s) as (b&Hb&_). by exists b.
Qed.

Lemma sub_passes s rc psz a b :
  is_cstr s → num_sub_expression id s = (rc, psz, a, b) →
  (RT_SUCCESS rc = true ∨ rc = VERR_NO_DIGITS)
  ∧ ∃ x, s = x ++ psz ∧ Forall (λ ch, not_bar ch = true) x.
Proof.
  intros Hs. unfold num_sub_expression. destruct (Z.eqb_spec (chr s) ch_minus) as [Hm|Hm].
  - destruct (usbfilterReadNumber (drop 1 s) 0) as [[rc' psz'] v] eqn:E.
    intros [= <- <- <- <-]. apply read_number_passes in E as (?&x&Hx&Hb); [|auto].
    split; [done|]. exists (ch_minus :: x). destruct s as [|c s]; simplify_eq/=.
    split; [by rewrite <- Hx|by constructor].
  - destruct (usbfilterReadNumber s 0) as [[rc1 psz1] v1] eqn:E1.
    apply read_number_passes in E1 as (Hr1&x1&Hx1&Hb1); [|done].
    destruct (RT_SUCCESS rc1) eqn:Hrc1; [|intros [= <- <- <- <-]; split; [naive_solver|eauto]].
    unfold id. destruct (Z.eqb_spec (chr psz1) ch_minus) as [Hm1|Hm1].
    + destruct (usbfilterReadNumber (drop 1 psz1) 0) as [[rc2 psz2] v2] eqn:E2.
      intros [= <- <- <- <-]. apply read_number_passes in E2 as (?&x2&Hx2&Hb2).
      * split; [done|]. exists (x1 ++ ch_minus :: x2).
        destruct psz1 as [|c psz1]; simplify_eq/=. split.
        { rewrite <- (assoc_L (++)). simpl. by rewrite <- Hx2. }
        rewrite Forall_app, Forall_cons. auto.
      * apply is_cstr_drop. rewrite Hx1 in Hs. by apply is_cstr_app in Hs as [_ ?].
    + intros [= <- <- <- <-]. split; [by left|eauto].
Qed.

(** * Expressions *)

Section pieces.
Context (good : list Z → Prop).
Hypothesis good_nil : ¬ good [].
Hypothesis good_blank : ∀ c p, RTLocCIsBlank c = true → good (c :: p) ↔ good p.

Definition some_piece (s : list Z) : Prop := Exists good (split_bar s).

Lemma split_bar_ne s : split_bar s ≠ [].
Proof. induction s as [|ch s IH]; simpl; [done|]. destruct (_ =? _), (split_bar s); done. Qed.

Lemma split_bar_cons c p s :
  not_bar c = true → split_bar (c :: p ++ s) = match split_bar (p ++ s) with
                                                | q :: qs => (c :: q) :: qs
                                                | [] => [[c]] end.
Proof. intros H. simpl. unfold not_bar in H. by destruct (c =? ch_bar). Qed.

(** A piece without a separator, at the start. *)
Lemma split_bar_piece p s :
  Forall (λ ch, not_bar ch = true) p → (s = [] ∨ chr s = ch_bar) →
  split_bar (p ++ s) = p :: match s with [] => [] | _ :: s' => split_bar s' end.
Proof.
  intros Hp Hs. induction Hp as [|c p Hc Hp IH].
  - destruct Hs as [->|Hs]; [done|]. destruct s as [|c s]; [done|]. simpl in *. by subst.
  - cbn [app]. rewrite split_bar_cons by done. by rewrite IH.
Qed.

Lemma some_piece_app p s :
  Forall (λ ch, not_bar ch = true) p → (s = [] ∨ chr s = ch_bar) →
  some_piece (p ++ s) ↔ good p ∨ some_piece s.
Proof.
  intros Hp Hs. unfold some_piece. rewrite split_bar_piece by done.
  rewrite Exists_cons. destruct Hs as [->|Hs].
  - simpl. rewrite Exists_cons, !Exists_nil. tauto.
  - destruct s as [|c s]; [done|]. simpl in Hs. subst c. simpl. rewrite Exists_cons. tauto.
Qed.

Lemma some_piece_sep c s : is_separator c = true → some_piece (c :: s) ↔ some_piece s.
Proof.
  unfold is_separator, some_piece. intros H. simpl. destruct (c =? ch_bar); simpl in H.
  - rewrite Exists_cons. tauto.
  - pose proof (split_bar_ne s). destruct (split_bar s) as [|p ps]; [done|].
    by rewrite !Exists_cons, good_blank.
Qed.

Lemma some_piece_skip s : some_piece (skip_while is_separator s) ↔ some_piece s.
Proof.
  induction s as [|c s IH]; [done|]. cbn [skip_while]. destruct (is_separator c) eqn:E; [|done].
  by rewrite IH, some_piece_sep.
Qed.

Lemma some_piece_nil : ¬ some_piece [].
Proof. unfold some_piece. simpl. rewrite Exists_cons, Exists_nil. tauto. Qed.
End pieces.

Lemma skip_not_bar s : let r := skip_while not_bar s in r = [] ∨ chr r = ch_bar.
Proof.
  simpl. destruct (skip_while_split not_bar s) as (pre&_&_&[H|H]); [by left|].
  right. apply negb_false_iff in H. by apply Z.eqb_eq.
Qed.

Lemma at_end_spec s : is_cstr s → at_end s = true ↔ s = [] ∨ chr s = ch_bar.
Proof.
  intros H. unfold at_end. rewrite orb_true_iff, !Z.eqb_eq, chr_0 by done. done.
Qed.

(** A piece that starts where the matcher stands and is a sub-expression is what the matcher
    reads; if the matcher fails, it is none. *)
Lemma sub_of_piece s rc psz a b :
  is_cstr s → RTLocCIsBlank (chr s) = false → num_sub_expression id s = (rc, psz, a, b) →
  ∃ p, s = p ++ skip_while not_bar s ∧ Forall (λ ch, not_bar ch = true) p
       ∧ (∀ a' b', sub_expr p a' b' ↔
            RT_SUCCESS rc = true ∧ at_end psz = true ∧ a' = a ∧ b' = b)
       ∧ skip_while not_bar psz = skip_while not_bar s.
Proof.
  intros Hs Hnb E. destruct (skip_while_split not_bar s) as (p&Hp&Hpb&_). exists p.
  pose proof (skip_while_cstr not_bar s Hs) as Hrc.
  assert (Hend : at_end (skip_while not_bar s) = true)
    by (apply at_end_spec; [done|apply skip_not_bar]).
  destruct (sub_passes _ _ _ _ _ Hs E) as (_&x&Hx&Hxb).
  assert (Hsk : skip_while not_bar psz = skip_while not_bar s)
    by (rewrite Hx; by rewrite skip_while_app).
  split_and!; [done|done| |done]. intros a' b'. split.
  - intros Hsub. rewrite Hp in Hnb, Hs. pose proof (sub_complete _ _ _ _ Hs Hsub Hnb Hend) as (rc'&Hr&E').
    rewrite <- Hp in E'. rewrite E' in E. injection E as <- <- <- <-. split_and!; done.
  - intros (Hr&Ha&->&->). destruct (sub_inv _ _ _ _ _ Hs E Hr) as (q&Hq&Hsub).
    assert (Hpsz : is_cstr psz) by (rewrite Hq in Hs; by apply is_cstr_app in Hs as [_ ?]).
    apply at_end_spec in Ha; [|done].
    assert (E2 : skip_while not_bar s = psz).
    { rewrite <- Hsk. apply skip_while_id. destruct Ha as [?|Ha]; [by left|right].
      by rewrite Ha. }
    rewrite E2 in Hp. rewrite Hq in Hp. by apply app_inv_tail in Hp as <-.
Qed.

(** The next round is shorter. *)
Lemma sub_progress s rc psz a b :
  is_cstr s → num_sub_expression id s = (rc, psz, a, b) → s ≠ [] → chr s ≠ ch_bar →
  (length (skip_while not_bar s) < length s)%nat.
Proof.
  intros _ _ Hne Hb. destruct s as [|c s]; [done|]. simpl in *. unfold not_bar at 1.
  rewrite (proj2 (Z.eqb_neq _ _) Hb). simpl. pose proof (skip_while_length not_bar s). lia.
Qed.

Lemma skip_separators_spec s :
  let r := skip_while is_separator s in
  r = [] ∨ (RTLocCIsBlank (chr r) = false ∧ chr r ≠ ch_bar).
Proof.
  simpl. destruct (skip_while_split is_separator s) as (_&_&_&[H|H]); [by left|right].
  unfold is_separator in H. apply orb_false_iff in H as [H ?]. split; [done|].
  by apply Z.eqb_neq.
Qed.

Definition matches_at (v : Z) (p : list Z) : Prop := ∃ a b, sub_expr p a b ∧ in_range v a b.

Lemma matches_at_nil v : ¬ matches_at v [].
Proof. intros (a&b&H&_). by apply sub_expr_ne in H. Qed.

Lemma matches_at_blank v c p : RTLocCIsBlank c = true → matches_at v (c :: p) ↔ matches_at v p.
Proof. intros H. unfold matches_at. by setoid_rewrite (sub_expr_blank c p). Qed.

#[local] Hint Resolve matches_at_nil matches_at_blank : core.

(** The matcher swaps the ends of a range when they are in the wrong order. *)
Lemma in_range_swap v a b :
  (let '(a, b) := if b <? a then (b, a) else (a, b) in (a <=? v) && (v <=? b)) = true
  ↔ in_range v a b.
Proof.
  unfold in_range. destruct (Z.ltb_spec b a); rewrite andb_true_iff, !Z.leb_le; lia.
Qed.

Lemma match_num_loop_spec n s v :
  is_cstr s → (length s < n)%nat →
  ∃ b, match_num_loop n s v = Some b ∧ (b = true ↔ some_piece (matches_at v) s).
Proof.
  revert s. induction n as [|n IH]; intros s Hs Hn; [lia|]. cbn [match_num_loop].
  assert (Hnone : ∀ s', some_piece (matches_at v) s ↔ some_piece (matches_at v) s' →
            s' = [] → ∃ b, Some false = Some b ∧ (b = true ↔ some_piece (matches_at v) s)).
  { intros s' Hss ->. exists false. split; [done|]. rewrite Hss.
    pose proof (some_piece_nil (matches_at v) (matches_at_nil v)). naive_solver. }
  destruct (Z.eqb_spec (chr s) 0) as [H0|H0].
  { apply (Hnone s); [done|]. by apply chr_0. }
  pose proof (skip_while_length is_separator s) as Hl.
  pose proof (skip_separators_spec s) as Hsep. simpl in Hsep.
  assert (Hss : some_piece (matches_at v) s ↔ some_piece (matches_at v) (skip_while is_separator s))
    by (symmetry; apply some_piece_skip; auto).
  assert (Hs1 : is_cstr (skip_while is_separator s)) by auto.
  remember (skip_while is_separator s) as s1 eqn:Es1. clear Es1.
  destruct (Z.eqb_spec (chr s1) 0) as [H1|H1].
  { apply (Hnone s1); [done|]. by apply chr_0. }
  destruct Hsep as [->|[Hnb Hbar]]; [done|]. rewrite num_sub_skip.
  destruct (num_sub_expression id s1) as [[[rc psz] a] b] eqn:E.
  destruct (sub_of_piece _ _ _ _ _ Hs1 Hnb E) as (p&Hp&Hpb&Hsub&Hsk).
  assert (Hne : s1 ≠ []) by (by intros ->).
  pose proof (sub_progress _ _ _ _ _ Hs1 E Hne Hbar) as Hlt.
  assert (Hgood : some_piece (matches_at v) s ↔
            matches_at v p ∨ some_piece (matches_at v) (skip_while not_bar s1)).
  { rewrite Hss, Hp at 1. apply some_piece_app; [done|done|]. apply skip_not_bar. }
  destruct (IH (skip_while not_bar s1)) as (r&Hr&Hrt); [auto|lia|].
  destruct (RT_SUCCESS rc && negb (at_end psz)) eqn:Ebad.
  - replace (RT_SUCCESS VERR_INVALID_PARAMETER) with false by done. rewrite Hsk. exists r.
    split; [done|]. rewrite Hrt, Hgood. split; [auto|]. intros [(a'&b'&Hs'&_)|]; [|done].
    apply Hsub in Hs' as (_&Ha&_). rewrite Ha in Ebad. by rewrite andb_false_r in Ebad.
  - destruct (RT_SUCCESS rc) eqn:Erc.
    + simpl in Ebad. apply negb_false_iff in Ebad.
      assert (Hpsz : psz = skip_while not_bar s1).
      { rewrite <- Hsk. symmetry. apply skip_while_id.
        destruct (sub_passes _ _ _ _ _ Hs1 E) as (_&x&Hx&_).
        apply at_end_spec in Ebad as [?|Hb]; [by left|right; by rewrite Hb|].
        rewrite Hx in Hs1. by apply is_cstr_app in Hs1 as [_ ?]. }
      pose proof (in_range_swap v a b) as Hsw.
      destruct (if b <? a then (b, a) else (a, b)) as [a1 b1].
      destruct ((a1 <=? v) && (v <=? b1)) eqn:Ein.
      * exists true. split; [done|]. split; [|done]. intros _. apply Hgood. left.
        exists a, b. split; [by apply Hsub|by apply Hsw].
      * rewrite Hpsz. exists r. split; [done|]. rewrite Hrt, Hgood. split; [auto|].
        intros [(a'&b'&Hs'&Hin)|]; [|done]. apply Hsub in Hs' as (_&_&->&->).
        apply Hsw in Hin. congruence.
    + rewrite Hsk. exists r. split; [done|]. rewrite Hrt, Hgood. split; [auto|].
      intros [(a'&b'&Hs'&_)|]; [|done]. apply Hsub in Hs' as (?&_). congruence.
Qed.

(** A numeric expression, well formed or not, matches the numbers in the ranges of its
    well-formed sub-expressions. *)
Lemma match_num_expression_spec s v :
  is_cstr s →
  ∃ b, usbfilterMatchNumExpression s v = Some b
       ∧ (b = true ↔ Exists (matches_at v) (split_bar s)).
Proof. intros Hs. apply match_num_loop_spec; [done|lia]. Qed.

(** ** Validation *)

Definition sub_expr_ok (p : list Z) : Prop := ∃ a b, sub_expr p a b.
Definition bad_piece (p : list Z) : Prop := ¬ blanks p ∧ ¬ sub_expr_ok p.
Definition num_piece (p : list Z) : Prop := ¬ blanks p.

Lemma blanks_cons c p : RTLocCIsBlank c = true → blanks (c :: p) ↔ blanks p.
Proof. intros H. unfold blanks. rewrite Forall_cons. tauto. Qed.

Lemma bad_piece_nil : ¬ bad_piece [].
Proof. intros [H _]. apply H. constructor. Qed.

Lemma num_piece_nil : ¬ num_piece [].
Proof. intros H. apply H. constructor. Qed.

Lemma bad_piece_blank c p : RTLocCIsBlank c = true → bad_piece (c :: p) ↔ bad_piece p.
Proof.
  intros H. unfold bad_piece, sub_expr_ok. rewrite blanks_cons by done.
  by setoid_rewrite (sub_expr_blank c p).
Qed.

Lemma num_piece_blank c p : RTLocCIsBlank c = true → num_piece (c :: p) ↔ num_piece p.
Proof. intros H. unfold num_piece. by rewrite blanks_cons. Qed.

#[local] Hint Resolve bad_piece_nil bad_piece_blank num_piece_nil num_piece_blank : core.

(** An expression is valid if it has a sub-expression and all its non-empty parts are. *)
Definition num_expr_valid (s : list Z) : Prop :=
  ¬ Exists bad_piece (split_bar s) ∧ Exists num_piece (split_bar s).

Definition validate_status (rc : Z) : Prop :=
  rc = VINF_SUCCESS ∨ rc = VERR_INVALID_PARAMETER ∨ rc = VERR_NO_DIGITS.

Lemma validate_loop_spec n s c :
  is_cstr s → (length s < n)%nat → 0 ≤ c →
  ∃ rc, validate_loop n s c = Some rc ∧ validate_status rc ∧
        (rc = VINF_SUCCESS ↔ ¬ some_piece bad_piece s ∧ (c ≠ 0 ∨ some_piece num_piece s)).
Proof.
  unfold validate_status.
  revert s c. induction n as [|n IH]; intros s c Hs Hn Hc; [lia|]. cbn [validate_loop].
  set (dn := Some (if c =? 0 then VERR_INVALID_PARAMETER else VINF_SUCCESS)).
  assert (Hnone : ∀ s', (some_piece bad_piece s ↔ some_piece bad_piece s') →
            (some_piece num_piece s ↔ some_piece num_piece s') → s' = [] →
            ∃ rc, dn = Some rc ∧ validate_status rc ∧
              (rc = VINF_SUCCESS ↔ ¬ some_piece bad_piece s ∧ (c ≠ 0 ∨ some_piece num_piece s))).
  { intros s' Hb Hg ->. unfold dn, validate_status. eexists; split; [done|]. rewrite Hb, Hg.
    pose proof (some_piece_nil bad_piece bad_piece_nil).
    pose proof (some_piece_nil num_piece num_piece_nil).
    destruct (Z.eqb_spec c 0); split; try tauto; split; try tauto; done. }
  unfold validate_status in Hnone.
  destruct (Z.eqb_spec (chr s) 0) as [H0|H0].
  { apply (Hnone s); [done|done|]. by apply chr_0. }
  pose proof (skip_while_length is_separator s) as Hl.
  pose proof (skip_separators_spec s) as Hsep. simpl in Hsep.
  assert (Hss : some_piece bad_piece s ↔ some_piece bad_piece (skip_while is_separator s))
    by (symmetry; apply some_piece_skip; auto).
  assert (Hsg : some_piece num_piece s ↔ some_piece num_piece (skip_while is_separator s))
    by (symmetry; apply some_piece_skip; auto).
  assert (Hs1 : is_cstr (skip_while is_separator s)) by auto.
  remember (skip_while is_separator s) as s1 eqn:Es1. clear Es1.
  destruct (Z.eqb_spec (chr s1) 0) as [H1|H1].
  { apply (Hnone s1); [done|done|]. by apply chr_0. }
  destruct Hsep as [->|[Hnb Hbar]]; [done|].
  destruct (num_sub_expression id s1) as [[[rc psz] a] b] eqn:E.
  destruct (sub_of_piece _ _ _ _ _ Hs1 Hnb E) as (p&Hp&Hpb&Hsub&Hsk).
  assert (Hne : s1 ≠ []) by (by intros ->).
  pose proof (sub_progress _ _ _ _ _ Hs1 E Hne Hbar) as Hlt.
  assert (Hpn : num_piece p).
  { destruct p as [|c0 p]; [simpl in Hp; rewrite <- Hp in Hlt; lia|].
    intros Hbl. inversion Hbl; subst. rewrite Hp in Hnb. simpl in Hnb. congruence. }
  assert (Hbad : some_piece bad_piece s ↔
            bad_piece p ∨ some_piece bad_piece (skip_while not_bar s1)).
  { rewrite Hss, Hp at 1. apply some_piece_app; [done|done|]. apply skip_not_bar. }
  assert (Hnum : some_piece num_piece s).
  { rewrite Hsg, Hp at 1. apply some_piece_app; [done|done|apply skip_not_bar|by left]. }
  clear Hss Hsg.
  destruct (sub_passes _ _ _ _ _ Hs1 E) as (Hrcs&x&Hx&_).
  assert (Hfail : (∀ a' b', ¬ sub_expr p a' b') → some_piece bad_piece s).
  { intros Hno. apply Hbad. left. split; [done|]. intros (a'&b'&H). by apply (Hno a' b'). }
  destruct (RT_FAILURE rc) eqn:Erf.
  { destruct Hrcs as [Hrc| ->]; [unfold RT_FAILURE, RT_SUCCESS in *; lia|].
    eexists. split; [done|]. split; [tauto|]. split; [done|]. intros [Hg _]. destruct Hg.
    apply Hfail. intros a' b' Hs'. by apply Hsub in Hs' as (?&_). }
  assert (Erc : RT_SUCCESS rc = true) by (unfold RT_FAILURE, RT_SUCCESS in *; lia).
  destruct (at_end psz) eqn:Ea; simpl.
  - assert (Hpsz : psz = skip_while not_bar s1).
    { rewrite <- Hsk. symmetry. apply skip_while_id.
      apply at_end_spec in Ea as [?|Hb]; [by left|right; by rewrite Hb|].
      rewrite Hx in Hs1. by apply is_cstr_app in Hs1 as [_ ?]. }
    rewrite Hpsz. destruct (IH (skip_while not_bar s1) (c + 1)) as (r&Hr&Hst&Hrt); [auto|lia|lia|].
    exists r. split; [done|]. split; [done|]. rewrite Hrt, Hbad.
    assert (sub_expr_ok p) by (exists a, b; by apply Hsub).
    assert (¬ bad_piece p) by (intros [_ ?]; done).
    split; [tauto|]. intros [? _]. split; [tauto|left; lia].
  - eexists. split; [done|]. split; [tauto|]. split; [done|]. intros [Hg _]. destruct Hg.
    apply Hfail. intros a' b' Hs'. apply Hsub in Hs' as (_&?&_). congruence.
Qed.

Lemma validate_num_expression_spec s :
  is_cstr s →
  ∃ rc, usbfilterValidateNumExpression s = Some rc ∧ validate_status rc
        ∧ (rc = VINF_SUCCESS ↔ s = [] ∨ num_expr_valid s).
Proof.
  intros Hs. unfold usbfilterValidateNumExpression. rewrite chr_0_eqb by done.
  case_bool_decide as H0; [exists VINF_SUCCESS; split_and!; [done|by left|tauto]|].
  destruct (validate_loop_spec (S (length s)) s 0 Hs) as (rc&Hrc&Hst&Hv); [lia|lia|].
  exists rc. split_and!; [done|done|]. rewrite Hv. unfold num_expr_valid, some_piece. tauto.
Qed.

(** * Patterns *)

Definition no_wild (s : list Z) : Prop := Forall (λ ch, is_wild ch = false) s.

Lemma exact_len_spec p :
  no_wild (take (exact_len p) p)
  ∧ (drop (exact_len p) p = [] ∨ is_wild (chr (drop (exact_len p) p)) = true)
  ∧ (exact_len p ≤ length p)%nat.
Proof.
  unfold no_wild. induction p as [|c p (IH1&IH2&IH3)]; simpl; [by split_and!; [|left|]|].
  destruct (is_wild c) eqn:E; simpl; [by split_and!; [|right|lia]|].
  split_and!; [by constructor|done|lia].
Qed.

Lemma exact_len_pos p : p ≠ [] → is_wild (chr p) = false → (0 < exact_len p)%nat.
Proof. destruct p as [|c p]; [done|]. simpl. intros _ ->. lia. Qed.

(** What the search finds is an occurrence, and it finds one if there is one. *)
Lemma last_match_sound seq cch s m0 m :
  last_match seq cch s m0 = Some m →
  m0 = Some m ∨ ∃ x y, s = x ++ m ∧ m = seq ++ y.
Proof.
  revert cch m0. induction s as [|c s IH]; intros cch m0; simpl; [by left|].
  destruct (cch <? 0); [by left|]. intros [H|(x&y&->&->)]%IH.
  - destruct ((c =? chr seq) && _) eqn:E; [|by left].
    apply andb_true_iff in E as [_ E%bool_decide_eq_true]. injection H as <-. right.
    exists [], (drop (length seq) (c :: s)). split; [done|].
    by rewrite <- E at 1; rewrite take_drop.
  - right. by exists (c :: x), y.
Qed.

Lemma last_match_keeps seq cch s m : last_match seq cch s (Some m) ≠ None.
Proof.
  revert cch m. induction s as [|c s IH]; intros cch m; simpl; [done|].
  destruct (_ <? _); [done|]. by destruct (_ && _).
Qed.

Lemma last_match_complete seq x y cch m0 :
  seq ≠ [] → Z.of_nat (length x) ≤ cch → last_match seq cch (x ++ seq ++ y) m0 ≠ None.
Proof.
  intros Hne. revert cch m0. induction x as [|c x IH]; intros cch m0 Hl.
  - simpl in *. destruct seq as [|c seq]; [done|]. cbn [app last_match].
    rewrite (proj2 (Z.ltb_ge _ _)) by lia. cbn [chr hd]. rewrite Z.eqb_refl.
    rewrite bool_decide_true; [apply last_match_keeps|].
    apply (take_app_length (c :: seq) y).
  - cbn [app last_match]. simpl in Hl. rewrite (proj2 (Z.ltb_ge _ _)) by lia.
    apply IH. lia.
Qed.

Lemma glob_exact_app seq p s : no_wild seq → glob p s → glob (seq ++ p) (seq ++ s).
Proof. induction 1; simpl; [done|]. intros. apply glob_exact; auto. Qed.

(** What an exact sequence stands for. *)
Lemma glob_exact_inv seq p s :
  no_wild seq → glob (seq ++ p) s → ∃ s', s = seq ++ s' ∧ glob p s'.
Proof.
  intros Hs. revert s. induction Hs as [|c seq Hc Hs IH]; intros s H; simpl in *; [by exists s|].
  inversion H; subst; try (exfalso; clear IH; char_classes).
  destruct (IH _ H4) as (s'&->&?). by exists s'.
Qed.

Lemma glob_star_inv p s :
  glob (ch_star :: p) s → ∃ x s', s = x ++ s' ∧ glob (skip_while is_wild p) s'.
Proof.
  intros H. inversion H; subst; try (exfalso; char_classes). eauto.
Qed.

(** Patterns for which the maximal match of a star misses nothing: behind the first star there
    is an exact sequence at most, and then another star at most. *)
Fixpoint simple_pattern (p : list Z) : bool :=
  match p with
  | [] => true
  | ch :: p' =>
      if ch =? ch_star then
        let pat := skip_while is_wild p' in
        match drop (exact_len pat) pat with
        | [] => true
        | c :: r => (c =? ch_star) && bool_decide (skip_while is_wild r = [])
        end
      else simple_pattern p'
  end.

Lemma match_pattern_loop_spec n p s :
  is_cstr p → is_cstr s → (length p < n)%nat →
  ∃ b, match_pattern_loop n p s = Some b ∧ (b = true → glob p s)
       ∧ (simple_pattern p = true → glob p s → b = true).
Proof.
  revert p s. induction n as [|n IH]; intros p s Hp Hs Hn; [lia|]. cbn [match_pattern_loop].
  destruct p as [|ch p].
  { rewrite chr_0_eqb by done. eexists. split; [done|]. rewrite bool_decide_eq_true.
    split; [intros ->; constructor|]. intros _ H. by inversion H. }
  apply Forall_cons in Hp as [Hch Hp]. simpl in Hn. cbn [simple_pattern].
  destruct (Z.eqb_spec ch ch_any) as [->|Hany].
  { destruct (IH p (drop 1 s)) as (b&Hb&Hsnd&Hcmp); [done|auto|lia|]. exists b.
    split; [done|]. split.
    - intros ?. destruct s as [|c s]; [apply glob_any_end|apply glob_any]; by apply Hsnd.
    - intros H1 H2. apply Hcmp; [done|].
      inversion H2; subst; first [done|exfalso; char_classes]. }
  destruct (Z.eqb_spec ch ch_star) as [->|Hstar].
  2: { destruct s as [|c s]; cbn [chr hd drop].
    - rewrite (proj2 (Z.eqb_neq _ _)) by lia. exists false. split; [done|]. split; [done|].
      intros _ H. inversion H; subst; done.
    - destruct (Z.eqb_spec ch c) as [->|Hc]; simpl.
      + rewrite drop_0. apply Forall_cons in Hs as [_ Hs].
        destruct (IH p s) as (b&Hb&Hsnd&Hcmp); [done|done|lia|]. exists b. split; [done|]. split.
        * intros ?. apply glob_exact; [char_classes|auto].
        * intros H1 H2. apply Hcmp; [done|]. inversion H2; subst; done.
      + exists false. split; [done|]. split; [done|]. intros _ H. inversion H; subst; done. }
  pose proof (skip_while_split is_wild p) as (_&_&_&Hw).
  pose proof (skip_while_length is_wild p) as Hlp.
  assert (Hstar : ∀ x s', s = x ++ s' → glob (skip_while is_wild p) s' → glob (ch_star :: p) s)
    by (intros x s' ->; apply glob_star).
  assert (Hinv : glob (ch_star :: p) s → ∃ x s', s = x ++ s' ∧ glob (skip_while is_wild p) s')
    by apply glob_star_inv.
  assert (Hpat : is_cstr (skip_while is_wild p)) by auto.
  remember (skip_while is_wild p) as pat eqn:Epat. clear Epat.
  rewrite chr_0_eqb by done. case_bool_decide as Hpe.
  { subst pat. exists true. split; [done|]. split; [|done]. intros _.
    apply (Hstar s []); [by rewrite app_nil_r|constructor]. }
  destruct Hw as [?|Hw]; [done|].
  pose proof (exact_len_spec pat) as (Hex&Hend&Hlen). pose proof (exact_len_pos pat Hpe Hw) as Hpos.
  assert (Hsplit : take (exact_len pat) pat ++ drop (exact_len pat) pat = pat) by apply take_drop.
  assert (Hseq : length (take (exact_len pat) pat) = exact_len pat) by (rewrite length_take; lia).
  assert (Hrest : is_cstr (drop (exact_len pat) pat)) by auto.
  remember (exact_len pat) as k eqn:Ek. clear Ek.
  remember (take k pat) as seq eqn:Eseq. remember (drop k pat) as rest eqn:Erest.
  assert (Hfit : glob (ch_star :: p) s → ∃ x s', s = x ++ seq ++ s' ∧ glob rest s').
  { intros (x&s1&->&H)%Hinv. rewrite <- Hsplit in H.
    apply glob_exact_inv in H as (s'&->&?); [|done]. eauto. }
  destruct (Z.ltb_spec (Z.of_nat (length s) - Z.of_nat k) 0) as [Hlt|Hge].
  { exists false. split; [done|]. split; [done|]. intros _ (x&s'&->&_)%Hfit.
    rewrite !length_app in Hlt. lia. }
  rewrite chr_0_eqb by done. case_bool_decide as Hre.
  { rewrite Hre, app_nil_r in Hsplit. replace (Z.to_nat (Z.of_nat (length s) - Z.of_nat k)) with (length s - k)%nat by lia.
    eexists. split; [done|]. rewrite bool_decide_eq_true.
    assert (Htk : take k (drop (length s - k) s) = drop (length s - k) s)
      by (apply take_ge; rewrite length_drop; lia).
    rewrite Htk, Hsplit. split.
    - intros Hd. apply (Hstar (take (length s - k) s) pat); [by rewrite <- Hd, take_drop|].
      rewrite <- (app_nil_r pat). apply glob_exact_app; [by rewrite <- Hsplit|constructor].
    - intros _ (x&s'&->&Hg)%Hfit. rewrite Hre in Hg. inversion Hg; subst s'.
      rewrite app_nil_r, length_app. rewrite <- Hsplit, Hseq.
      replace (length x + k - k)%nat with (length x) by lia. by rewrite drop_app_length. }
  destruct (last_match seq _ s None) as [m|] eqn:Em.
  - apply last_match_sound in Em as [?|(x&y&Hx&Hy)]; [done|].
    assert (Hdm : drop k m = y) by (rewrite Hy, <- Hseq; apply drop_app_length).
    rewrite Hdm. destruct (IH rest y) as (b&Hb&Hsnd&Hcmp).
    + done.
    + rewrite Hx, Hy in Hs. apply is_cstr_app in Hs as [_ Hs]. by apply is_cstr_app in Hs as [_ ?].
    + assert (length rest < length pat)%nat; [|lia]. rewrite Erest, length_drop. lia.
    + exists b. split; [done|]. split.
      * intros ?. apply (Hstar x m); [done|]. rewrite <- Hsplit, Hy. apply glob_exact_app; auto.
      * intros Hsim _. destruct rest as [|c r]; [done|].
        apply andb_true_iff in Hsim as [->%Z.eqb_eq Hr%bool_decide_eq_true]. apply Hcmp.
        { simpl. by rewrite Hr. }
        rewrite <- (app_nil_r y). apply glob_star. rewrite Hr. constructor.
  - exists false. split; [done|]. split; [done|]. intros _ (x&s'&->&_)%Hfit.
    exfalso. revert Em. apply last_match_complete.
    + intros ->. simpl in Hseq. lia.
    + rewrite !length_app, Hseq. lia.
Qed.

Lemma match_pattern_spec p s :
  is_cstr p → is_cstr s →
  ∃ b, usbfilterMatchStringPattern p s = Some b ∧ (b = true → glob p s)
       ∧ (simple_pattern p = true → glob p s → b = true).
Proof. intros. apply match_pattern_loop_spec; [done|done|lia]. Qed.

(** * The theorems *)

(** A numeric expression is accepted exactly if it is empty, or has a sub-expression
    and nothing between its separators but sub-expressions and blanks; an expression,
    accepted or not, matches exactly the numbers in the ranges of its well-formed
    sub-expressions, whichever way around their ends are.  Numbers of any length are read, and those above 16 bits count as 65535. *)
Lemma num_expression_spec s v :
  is_cstr s →
  (∃ rc, usbfilterValidateNumExpression s = Some rc ∧ validate_status rc
         ∧ (rc = VINF_SUCCESS ↔ s = [] ∨ num_expr_valid s))
  ∧ (∃ b, usbfilterMatchNumExpression s v = Some b
          ∧ (b = true ↔ Exists (λ p, ∃ x y, sub_expr p x y ∧ in_range v x y) (split_bar s))).
Proof.
  intros Hs. split; [by apply validate_num_expression_spec|by apply match_num_expression_spec].
Qed.

(** Characters of a text. *)
Definition c_string (s : string) : list Z :=
  (λ a, Z.of_N (Ascii.N_of_ascii a)) <$> String.list_ascii_of_string s.

(** Ranges, a hexadecimal and an octal number, blanks, and ends in the wrong order. *)
Definition demo_expr : list Z := c_string "39-59 || 0x2000 - 0x1000 | 017|-3".

Lemma num_expression_spec_witness :
  is_cstr demo_expr
  ∧ usbfilterValidateNumExpression demo_expr = Some VINF_SUCCESS
  ∧ (usbfilterMatchNumExpression demo_expr <$> [15; 3; 0x1111; 60])
    = [Some true; Some true; Some true; Some false]
  ∧ Exists (λ p, ∃ x y, sub_expr p x y ∧ in_range 0x1111 x y) (split_bar demo_expr).
Proof.
  assert (H : is_cstr demo_expr) by (repeat constructor; vm_compute; congruence).
  split; [done|]. split; [by vm_compute|]. split; [by vm_compute|].
  destruct (num_expression_spec demo_expr 0x1111 H) as [_ (b&Hb&Hspec)].
  apply Hspec. apply (inj Some). rewrite <- Hb. by vm_compute.
Defined.

(** The six characters behind the nine are hexadecimal digits to the code. *)
Lemma hex_accepts_punctuation :
  usbfilterReadNumber (c_string "0x1:") 0 = (VINF_SUCCESS, [], 0x1a)
  ∧ usbfilterValidateNumExpression (c_string "0x1:") = Some VINF_SUCCESS
  ∧ usbfilterMatchNumExpression (c_string "0x1:") 0x1a = Some true.
Proof. by vm_compute. Qed.

(** The end of a range cannot be left out. *)
Lemma open_range_rejected :
  usbfilterValidateNumExpression (c_string "5-") = Some VERR_NO_DIGITS
  ∧ usbfilterValidateNumExpression (c_string "-5") = Some VINF_SUCCESS.
Proof. by vm_compute. Qed.

(** A number that is too big is a warning in decimal, and nothing in hexadecimal. *)
Lemma too_big_warning :
  usbfilterReadNumber (c_string "65536") 0 = (VWRN_NUMBER_TOO_BIG, [], UINT16_MAX)
  ∧ usbfilterReadNumber (c_string "0x10000") 0 = (VINF_SUCCESS, [], UINT16_MAX).
Proof. by vm_compute. Qed.

(** Pattern matching always ends; a string that matches is one the pattern stands for;
    and for patterns that, behind the first star, have an exact sequence at most and then
    at most another star, a string the pattern stands for matches. *)
Lemma string_pattern_spec p s :
  is_cstr p → is_cstr s →
  ∃ b, usbfilterMatchStringPattern p s = Some b ∧ (b = true → glob p s)
       ∧ (simple_pattern p = true → (b = true ↔ glob p s)).
Proof.
  intros Hp Hs. destruct (match_pattern_spec p s Hp Hs) as (b&Hb&Hsnd&Hcmp).
  exists b. split_and!; [done|done|]. intros Hsim. split; auto.
Qed.

Lemma string_pattern_spec_witness :
  simple_pattern (c_string "?r*d?") = false
  ∧ simple_pattern (c_string "?r*duc*") = true
  ∧ glob (c_string "?r*duc*") (c_string "product")
  ∧ ¬ glob (c_string "?r*dux*") (c_string "product").
Proof.
  assert (Hc : is_cstr (c_string "?r*duc*") ∧ is_cstr (c_string "product")
               ∧ is_cstr (c_string "?r*dux*"))
    by (split_and!; repeat constructor; vm_compute; congruence).
  destruct Hc as (H1&H2&H3). split; [by vm_compute|]. split; [by vm_compute|]. split.
  - destruct (string_pattern_spec _ _ H1 H2) as (b&Hb&Hs&_). apply Hs. apply (inj Some).
    rewrite <- Hb. by vm_compute.
  - destruct (string_pattern_spec _ _ H3 H2) as (b&Hb&_&Hs). rewrite <- Hs by by vm_compute.
    intros ->. by vm_compute in Hb.
Defined.

(** With two stars the maximal match of the first can miss a match. *)
Lemma pattern_incomplete :
  usbfilterMatchStringPattern (c_string "*a*a") (c_string "aa") = Some false
  ∧ glob (c_string "*a*a") (c_string "aa").
Proof.
  split; [by vm_compute|]. apply (glob_star _ []). apply glob_exact; [done|].
  apply (glob_star _ []). apply glob_exact; [done|constructor].
Qed.
