(* ===== verification/UsbFilter.v ===== *)
(** USB filters (HostDrivers/VBoxUSB/USBFilter.cpp, include/VBox/usbfilter.h): the structure,
    its life, and the functions that set and query its fields.

    A filter has a field for each property of a device.  A field has a matching method and a
    16-bit value, which for some methods is an offset into the string table of the filter.
    The table is an array of 256 characters, the empty string at offset 0, and the strings in
    use one behind the other; what is behind them is zero.

    An operation has no result ([None]) where the source would read or write outside of an
    array or through a null pointer.  The main theorem says that, in terms of what the fields
    mean ([criterion]), the setters do what [spec_op] says, on every filter that was made by
    them, and never fail in that way. *)

From S2P Require Import Prelude UsbExpr.
Local Open Scope Z_scope.

(** * Constants *)

Definition VERR_BUFFER_OVERFLOW : Z := -41.
Definition VWRN_INVALID_PARAMETER : Z := 2.
Definition USBFILTER_MAGIC : Z := 0x19670408.

(** USBFILTERMATCH *)
Definition USBFILTERMATCH_INVALID : Z := 0.
Definition USBFILTERMATCH_IGNORE : Z := 1.
Definition USBFILTERMATCH_PRESENT : Z := 2.
Definition USBFILTERMATCH_NUM_EXACT : Z := 3.
Definition USBFILTERMATCH_NUM_EXACT_NP : Z := 4.
Definition USBFILTERMATCH_NUM_EXPRESSION : Z := 5.
Definition USBFILTERMATCH_NUM_EXPRESSION_NP : Z := 6.
Definition USBFILTERMATCH_STR_EXACT : Z := 7.
Definition USBFILTERMATCH_STR_EXACT_NP : Z := 8.
Definition USBFILTERMATCH_STR_PATTERN : Z := 9.
Definition USBFILTERMATCH_STR_PATTERN_NP : Z := 10.
Definition USBFILTERMATCH_NUM_FIRST : Z := USBFILTERMATCH_NUM_EXACT.
Definition USBFILTERMATCH_NUM_LAST : Z := USBFILTERMATCH_NUM_EXPRESSION_NP.
Definition USBFILTERMATCH_STR_FIRST : Z := USBFILTERMATCH_STR_EXACT.
Definition USBFILTERMATCH_STR_LAST : Z := USBFILTERMATCH_STR_PATTERN_NP.

(** USBFILTERIDX *)
Definition USBFILTERIDX_VENDOR_ID : Z := 0.
Definition USBFILTERIDX_PRODUCT_ID : Z := 1.
Definition USBFILTERIDX_DEVICE : Z := 2.
Definition USBFILTERIDX_DEVICE_CLASS : Z := 3.
Definition USBFILTERIDX_DEVICE_SUB_CLASS : Z := 4.
Definition USBFILTERIDX_DEVICE_PROTOCOL : Z := 5.
Definition USBFILTERIDX_BUS : Z := 6.
Definition USBFILTERIDX_PORT : Z := 7.
Definition USBFILTERIDX_MANUFACTURER_STR : Z := 8.
Definition USBFILTERIDX_PRODUCT_STR : Z := 9.
Definition USBFILTERIDX_SERIAL_NUMBER_STR : Z := 10.
Definition USBFILTERIDX_END : Z := 11.

(** USBFILTERTYPE *)
Definition USBFILTERTYPE_INVALID : Z := 0.
Definition USBFILTERTYPE_FIRST : Z := 1.
Definition USBFILTERTYPE_ONESHOT_IGNORE : Z := 1.
Definition USBFILTERTYPE_ONESHOT_CAPTURE : Z := 2.
Definition USBFILTERTYPE_IGNORE : Z := 3.
Definition USBFILTERTYPE_CAPTURE : Z := 4.
Definition USBFILTERTYPE_END : Z := 5.

(** * Data *)

Record USBFILTERFIELD := mkField {
  fld_enmMatch : Z;
  fld_u16Value : Z
}.

Record USBFILTER := mkFilter {
  flt_u32Magic : Z;
  flt_enmType : Z;
  flt_aFields : list USBFILTERFIELD;
  flt_offCurEnd : Z;
  flt_achStrTab : list Z
}.

#[export] Instance USBFILTERFIELD_eq_dec : EqDecision USBFILTERFIELD.
Proof. solve_decision. Defined.
#[export] Instance USBFILTER_eq_dec : EqDecision USBFILTER.
Proof. solve_decision. Defined.

Definition with_fields (f : USBFILTER) (fs : list USBFILTERFIELD) : USBFILTER :=
  mkFilter (flt_u32Magic f) (flt_enmType f) fs (flt_offCurEnd f) (flt_achStrTab f).
Definition with_table (f : USBFILTER) (off : Z) (tab : list Z) : USBFILTER :=
  mkFilter (flt_u32Magic f) (flt_enmType f) (flt_aFields f) off tab.
Definition with_type (f : USBFILTER) (enmType : Z) : USBFILTER :=
  mkFilter (flt_u32Magic f) enmType (flt_aFields f) (flt_offCurEnd f) (flt_achStrTab f).

(** [sizeof(pFilter->achStrTab)] *)
Definition sizeof_achStrTab : nat := 256.

(** [pFilter->aFields[i]], which is nothing outside of the array. *)
Definition field (f : USBFILTER) (i : Z) : option USBFILTERFIELD :=
  if i <? 0 then None else flt_aFields f !! Z.to_nat i.

Definition set_field (f : USBFILTER) (i : Z) (fld : USBFILTERFIELD) : USBFILTER :=
  with_fields f (<[Z.to_nat i := fld]> (flt_aFields f)).

Definition set_value (f : USBFILTER) (i v : Z) : option USBFILTER :=
  fld ← field f i; Some (set_field f i (mkField (fld_enmMatch fld) v)).
Definition set_match (f : USBFILTER) (i m : Z) : option USBFILTER :=
  fld ← field f i; Some (set_field f i (mkField m (fld_u16Value fld))).

(** A C string in an array: it has to end in it. *)
Fixpoint c_str (l : list Z) : option (list Z) :=
  match l with
  | [] => None
  | c :: l' => if c =? 0 then Some [] else cons c <$> c_str l'
  end.

Definition tab_str (tab : list Z) (off : Z) : option (list Z) := c_str (drop (Z.to_nat off) tab).

(** [memcpy], [memmove] and [memset] on the table. *)
Definition mem_load (tab : list Z) (off cb : Z) : option (list Z) :=
  if (0 <=? off) && (off + cb <=? Z.of_nat (length tab))
  then Some (take (Z.to_nat cb) (drop (Z.to_nat off) tab)) else None.
Definition mem_store (tab : list Z) (off : Z) (bs : list Z) : option (list Z) :=
  if (0 <=? off) && (off + Z.of_nat (length bs) <=? Z.of_nat (length tab))
  then Some (take (Z.to_nat off) tab ++ bs ++ drop (Z.to_nat off + length bs) tab) else None.

(** * What the methods and the fields are *)

Definition USBFilterIsNumericField (enmFieldIdx : Z) : bool :=
  bool_decide (enmFieldIdx ∈ [USBFILTERIDX_VENDOR_ID; USBFILTERIDX_PRODUCT_ID;
    USBFILTERIDX_DEVICE; USBFILTERIDX_DEVICE_CLASS; USBFILTERIDX_DEVICE_SUB_CLASS;
    USBFILTERIDX_DEVICE_PROTOCOL; USBFILTERIDX_BUS; USBFILTERIDX_PORT]).

Definition USBFilterIsStringField (enmFieldIdx : Z) : bool :=
  bool_decide (enmFieldIdx ∈ [USBFILTERIDX_MANUFACTURER_STR; USBFILTERIDX_PRODUCT_STR;
    USBFILTERIDX_SERIAL_NUMBER_STR]).

Definition USBFilterIsMethodUsingNumericValue (enmMatchingMethod : Z) : bool :=
  bool_decide (enmMatchingMethod ∈ [USBFILTERMATCH_NUM_EXACT; USBFILTERMATCH_NUM_EXACT_NP]).

Definition USBFilterIsMethodUsingStringValue (enmMatchingMethod : Z) : bool :=
  bool_decide (enmMatchingMethod ∈ [USBFILTERMATCH_NUM_EXPRESSION;
    USBFILTERMATCH_NUM_EXPRESSION_NP; USBFILTERMATCH_STR_EXACT; USBFILTERMATCH_STR_EXACT_NP;
    USBFILTERMATCH_STR_PATTERN; USBFILTERMATCH_STR_PATTERN_NP]).

Definition USBFilterIsMethodNumeric (enmMatchingMethod : Z) : bool :=
  (USBFILTERMATCH_NUM_FIRST <=? enmMatchingMethod)
  && (enmMatchingMethod <=? USBFILTERMATCH_NUM_LAST).

Definition USBFilterIsMethodString (enmMatchingMethod : Z) : bool :=
  (USBFILTERMATCH_STR_FIRST <=? enmMatchingMethod)
  && (enmMatchingMethod <=? USBFILTERMATCH_STR_LAST).

(** [enmType > USBFILTERTYPE_INVALID && enmType < USBFILTERTYPE_END] *)
Definition type_ok (enmType : Z) : bool :=
  (USBFILTERTYPE_INVALID <? enmType) && (enmType <? USBFILTERTYPE_END).

(** [(unsigned)enmFieldIdx < (unsigned)USBFILTERIDX_END] *)
Definition idx_ok (enmFieldIdx : Z) : bool := u32 enmFieldIdx <? USBFILTERIDX_END.

(** * Life *)

Definition USBFilterInit (enmType : Z) : USBFILTER :=
  let zero := replicate sizeof_achStrTab 0 in
  if type_ok enmType then
    mkFilter USBFILTER_MAGIC enmType (replicate 11 (mkField USBFILTERMATCH_IGNORE 0)) 0 zero
  else mkFilter 0 0 (replicate 11 (mkField 0 0)) 0 zero.

Definition USBFilterClone (pToClone : USBFILTER) : USBFILTER := pToClone.

(** [~USBFILTER_MAGIC], of 32 bits *)
Definition USBFilterDelete (f : USBFILTER) : USBFILTER :=
  mkFilter (u32 (Z.lnot USBFILTER_MAGIC)) USBFILTERTYPE_INVALID (flt_aFields f) 0xfffff
    (flt_achStrTab f).

Definition USBFilterIsIdentical (f f2 : USBFILTER) : bool := bool_decide (f = f2).

(** * Values *)

(** The offset of the string of a field, or the null pointer. *)
Definition usbfilterGetString (f : USBFILTER) (enmFieldIdx : Z) : option Z :=
  if idx_ok enmFieldIdx then
    match field f enmFieldIdx with
    | Some fld =>
        if USBFilterIsMethodUsingStringValue (fld_enmMatch fld) then Some (fld_u16Value fld)
        else None
    | None => None
    end
  else None.

(** The string that is read through the pointer. *)
Definition get_str (f : USBFILTER) (i : Z) : option (list Z) :=
  off ← usbfilterGetString f i; tab_str (flt_achStrTab f) off.

Definition usbfilterGetNum (f : USBFILTER) (enmFieldIdx : Z) : Z :=
  if idx_ok enmFieldIdx then
    match field f enmFieldIdx with
    | Some fld =>
        if USBFilterIsMethodUsingNumericValue (fld_enmMatch fld) then fld_u16Value fld else -1
    | None => -1
    end
  else -1.

(** * Setting *)

Definition USBFilterSetFilterType (f : USBFILTER) (enmType : Z) : Z * USBFILTER :=
  if negb (flt_u32Magic f =? USBFILTER_MAGIC) then (VERR_INVALID_MAGIC, f)
  else if negb (type_ok enmType) then (VERR_INVALID_PARAMETER, f)
  else (VINF_SUCCESS, with_type f enmType).

(** The fields behind a removed string. *)
Definition shift_field (off cchShift : Z) (fld : USBFILTERFIELD) : USBFILTERFIELD :=
  if (off <=? fld_u16Value fld) && USBFilterIsMethodUsingStringValue (fld_enmMatch fld)
  then mkField (fld_enmMatch fld) (u16 (fld_u16Value fld - cchShift)) else fld.

(** The removal of the string a field has, in [usbfilterSetString]. *)
Definition remove_string (f : USBFILTER) (i off : Z) : option USBFILTER :=
  f ← set_value f i 0;
  cch ← tab_str (flt_achStrTab f) off;
  let cchShift := Z.of_nat (length cch) + 1 in
  let cchToMove := u32 (u32 (flt_offCurEnd f + 1) - u32 (off + cchShift)) in
  f ← (if 0 <? cchToMove then
         bs ← mem_load (flt_achStrTab f) (off + cchShift) cchToMove;
         tab ← mem_store (flt_achStrTab f) off bs;
         Some (with_fields (with_table f (flt_offCurEnd f) tab)
                 (shift_field off cchShift <$> flt_aFields f))
       else Some f);
  let offCurEnd := u32 (flt_offCurEnd f - cchShift) in
  tab ← mem_store (flt_achStrTab f) offCurEnd (replicate (Z.to_nat cchShift) 0);
  Some (with_table f offCurEnd tab).

(** A string argument is [None] for a pointer that is not valid. *)
Definition usbfilterSetString (f : USBFILTER) (enmFieldIdx : Z) (pszString : option (list Z)) :
    option (Z * USBFILTER) :=
  if negb (flt_u32Magic f =? USBFILTER_MAGIC) then Some (VERR_INVALID_MAGIC, f)
  else if negb (idx_ok enmFieldIdx) then Some (VERR_INVALID_PARAMETER, f)
  else match pszString with
  | None => Some (VERR_INVALID_POINTER, f)
  | Some psz =>
      fld ← field f enmFieldIdx;
      f ← (if USBFilterIsMethodUsingStringValue (fld_enmMatch fld)
              && negb (fld_u16Value fld =? 0)
           then remove_string f enmFieldIdx (fld_u16Value fld) else Some f);
      if chr psz =? 0 then
        f ← set_value f enmFieldIdx 0; Some (VINF_SUCCESS, f)
      else
        let cch := Z.of_nat (length psz) in
        if Z.of_nat sizeof_achStrTab <? flt_offCurEnd f + cch + 2
        then Some (VERR_BUFFER_OVERFLOW, f)
        else
          f ← set_value f enmFieldIdx (u16 (flt_offCurEnd f + 1));
          tab ← mem_store (flt_achStrTab f) (flt_offCurEnd f + 1) (psz ++ [0]);
          Some (VINF_SUCCESS, with_table f (u32 (flt_offCurEnd f + u32 cch + 1)) tab)
  end.

(** The field is looked at before its index is checked. *)
Definition usbfilterDeleteAnyStringValue (f : USBFILTER) (enmFieldIdx : Z) :
    option (Z * USBFILTER) :=
  fld ← field f enmFieldIdx;
  if USBFilterIsMethodUsingStringValue (fld_enmMatch fld) && negb (fld_u16Value fld =? 0)
  then usbfilterSetString f enmFieldIdx (Some [])
  else if negb (idx_ok enmFieldIdx) then Some (VERR_INVALID_PARAMETER, f)
  else Some (VINF_SUCCESS, f).

(** What the setters do when the string has been dealt with. *)
Definition then_set (r : option (Z * USBFILTER)) (g : USBFILTER → option USBFILTER) :
    option (Z * USBFILTER) :=
  '(rc, f) ← r;
  if RT_SUCCESS rc then f ← g f; Some (rc, f) else Some (rc, f).

Definition USBFilterSetIgnore (f : USBFILTER) (enmFieldIdx : Z) : option (Z * USBFILTER) :=
  then_set (usbfilterDeleteAnyStringValue f enmFieldIdx)
    (λ f, f ← set_match f enmFieldIdx USBFILTERMATCH_IGNORE; set_value f enmFieldIdx 0).

Definition USBFilterSetPresentOnly (f : USBFILTER) (enmFieldIdx : Z) : option (Z * USBFILTER) :=
  then_set (usbfilterDeleteAnyStringValue f enmFieldIdx)
    (λ f, f ← set_match f enmFieldIdx USBFILTERMATCH_PRESENT; set_value f enmFieldIdx 0).

Definition USBFilterSetNumExact (f : USBFILTER) (enmFieldIdx u16Value : Z)
    (fMustBePresent : bool) : option (Z * USBFILTER) :=
  if USBFilterIsNumericField enmFieldIdx then
    then_set (usbfilterDeleteAnyStringValue f enmFieldIdx)
      (λ f, f ← set_value f enmFieldIdx u16Value;
            set_match f enmFieldIdx
              (if fMustBePresent then USBFILTERMATCH_NUM_EXACT else USBFILTERMATCH_NUM_EXACT_NP))
  else Some (VERR_INVALID_PARAMETER, f).

Definition USBFilterSetNumExpression (f : USBFILTER) (enmFieldIdx : Z)
    (pszExpression : option (list Z)) (fMustBePresent : bool) : option (Z * USBFILTER) :=
  if USBFilterIsNumericField enmFieldIdx then
    psz ← pszExpression;
    let psz := skip_while is_separator psz in
    rc ← usbfilterValidateNumExpression psz;
    if RT_SUCCESS rc then
      '(rc, f) ← usbfilterSetString f enmFieldIdx (Some psz);
      if RT_SUCCESS rc then
        f ← set_match f enmFieldIdx
              (if fMustBePresent then USBFILTERMATCH_NUM_EXPRESSION
               else USBFILTERMATCH_NUM_EXPRESSION_NP);
        Some (rc, f)
      else if rc =? VERR_NO_DIGITS then Some (VERR_INVALID_PARAMETER, f)
      else Some (rc, f)
    else Some (rc, f)
  else Some (VERR_INVALID_PARAMETER, f).

Definition USBFilterSetStringExact (f : USBFILTER) (enmFieldIdx : Z)
    (pszValue : option (list Z)) (fMustBePresent : bool) : option (Z * USBFILTER) :=
  if USBFilterIsStringField enmFieldIdx then
    then_set (usbfilterSetString f enmFieldIdx pszValue)
      (λ f, set_match f enmFieldIdx
              (if fMustBePresent then USBFILTERMATCH_STR_EXACT else USBFILTERMATCH_STR_EXACT_NP))
  else Some (VERR_INVALID_PARAMETER, f).

Definition USBFilterSetStringPattern (f : USBFILTER) (enmFieldIdx : Z)
    (pszPattern : option (list Z)) (fMustBePresent : bool) : option (Z * USBFILTER) :=
  if USBFilterIsStringField enmFieldIdx then
    let rc := usbfilterValidateStringPattern (default [] pszPattern) in
    if RT_SUCCESS rc then
      then_set (usbfilterSetString f enmFieldIdx pszPattern)
        (λ f, set_match f enmFieldIdx
                (if fMustBePresent then USBFILTERMATCH_STR_PATTERN
                 else USBFILTERMATCH_STR_PATTERN_NP))
    else Some (rc, f)
  else Some (VERR_INVALID_PARAMETER, f).

(** The two switches of [USBFilterSetMustBePresent]: the new method, or a status. *)
Definition must_be_present (enmMatch : Z) (fMustBePresent : bool) : Z + Z :=
  if enmMatch =? USBFILTERMATCH_IGNORE then inr VWRN_INVALID_PARAMETER
  else if fMustBePresent then
    if bool_decide (enmMatch ∈ [USBFILTERMATCH_PRESENT; USBFILTERMATCH_NUM_EXACT;
         USBFILTERMATCH_NUM_EXPRESSION; USBFILTERMATCH_STR_EXACT; USBFILTERMATCH_STR_PATTERN])
    then inl enmMatch
    else if enmMatch =? USBFILTERMATCH_NUM_EXACT_NP then inl USBFILTERMATCH_NUM_EXACT
    else if enmMatch =? USBFILTERMATCH_NUM_EXPRESSION_NP then inl USBFILTERMATCH_NUM_EXPRESSION
    else if enmMatch =? USBFILTERMATCH_STR_EXACT_NP then inl USBFILTERMATCH_STR_EXACT
    else if enmMatch =? USBFILTERMATCH_STR_PATTERN_NP then inl USBFILTERMATCH_STR_PATTERN
    else inr VERR_INVALID_MAGIC
  else
    if bool_decide (enmMatch ∈ [USBFILTERMATCH_NUM_EXACT_NP; USBFILTERMATCH_STR_PATTERN_NP;
         USBFILTERMATCH_STR_EXACT_NP; USBFILTERMATCH_NUM_EXPRESSION_NP])
    then inl enmMatch
    else if enmMatch =? USBFILTERMATCH_PRESENT then inl USBFILTERMATCH_IGNORE
    else if enmMatch =? USBFILTERMATCH_NUM_EXACT then inl USBFILTERMATCH_NUM_EXACT_NP
    else if enmMatch =? USBFILTERMATCH_NUM_EXPRESSION then inl USBFILTERMATCH_NUM_EXPRESSION_NP
    else if enmMatch =? USBFILTERMATCH_STR_EXACT then inl USBFILTERMATCH_STR_EXACT_NP
    else if enmMatch =? USBFILTERMATCH_STR_PATTERN then inl USBFILTERMATCH_STR_PATTERN_NP
    else inr VERR_INVALID_MAGIC.

Definition USBFilterSetMustBePresent (f : USBFILTER) (enmFieldIdx : Z) (fMustBePresent : bool) :
    option (Z * USBFILTER) :=
  if negb (flt_u32Magic f =? USBFILTER_MAGIC) then Some (VERR_INVALID_MAGIC, f)
  else if negb (idx_ok enmFieldIdx) then Some (VERR_INVALID_PARAMETER, f)
  else
    fld ← field f enmFieldIdx;
    match must_be_present (fld_enmMatch fld) fMustBePresent with
    | inr rc => Some (rc, f)
    | inl enmMatch => f ← set_match f enmFieldIdx enmMatch; Some (VINF_SUCCESS, f)
    end.

(** * Queries *)

Definition USBFilterGetFilterType (f : USBFILTER) : Z :=
  if flt_u32Magic f =? USBFILTER_MAGIC then flt_enmType f else USBFILTERTYPE_INVALID.

Definition USBFilterGetMatchingMethod (f : USBFILTER) (enmFieldIdx : Z) : Z :=
  if (flt_u32Magic f =? USBFILTER_MAGIC) && idx_ok enmFieldIdx then
    match field f enmFieldIdx with
    | Some fld => fld_enmMatch fld
    | None => USBFILTERMATCH_INVALID
    end
  else USBFILTERMATCH_INVALID.

(** Status and what is stored through [pu16Value]. *)
Definition USBFilterQueryNum (f : USBFILTER) (enmFieldIdx : Z) : Z * option Z :=
  if negb (flt_u32Magic f =? USBFILTER_MAGIC) then (VERR_INVALID_MAGIC, None)
  else
    let iValue := usbfilterGetNum f enmFieldIdx in
    if iValue =? -1 then (VERR_INVALID_PARAMETER, None) else (VINF_SUCCESS, Some (u16 iValue)).

Definition USBFilterGetNum (f : USBFILTER) (enmFieldIdx : Z) : Z :=
  if flt_u32Magic f =? USBFILTER_MAGIC then usbfilterGetNum f enmFieldIdx else -1.

(** Status and what is stored in the buffer, the terminator included. *)
Definition USBFilterQueryString (f : USBFILTER) (enmFieldIdx cchBuf : Z) :
    option (Z * list Z) :=
  if negb (flt_u32Magic f =? USBFILTER_MAGIC) then Some (VERR_INVALID_MAGIC, [])
  else match usbfilterGetString f enmFieldIdx with
  | None => Some (VERR_INVALID_PARAMETER, [])
  | Some off =>
      psz ← tab_str (flt_achStrTab f) off;
      let cch := Z.of_nat (length psz) in
      if cch <? cchBuf then Some (VINF_SUCCESS, psz ++ [0])
      else if negb (cchBuf =? 0)
      then Some (VERR_BUFFER_OVERFLOW, take (Z.to_nat (cchBuf - 1)) psz ++ [0])
      else Some (VERR_BUFFER_OVERFLOW, [])
  end.

Definition USBFilterGetString (f : USBFILTER) (enmFieldIdx : Z) : option Z :=
  if flt_u32Magic f =? USBFILTER_MAGIC then usbfilterGetString f enmFieldIdx else None.

Definition USBFilterGetStringLen (f : USBFILTER) (enmFieldIdx : Z) : option Z :=
  if flt_u32Magic f =? USBFILTER_MAGIC then
    match usbfilterGetString f enmFieldIdx with
    | Some off => psz ← tab_str (flt_achStrTab f) off; Some (Z.of_nat (length psz))
    | None => Some (-1)
    end
  else Some (-1).

(** One field of [USBFilterHasAnySubstatialCriteria]. *)
Definition substantial (f : USBFILTER) (i : Z) (fld : USBFILTERFIELD) : option bool :=
  let m := fld_enmMatch fld in
  if bool_decide (m ∈ [USBFILTERMATCH_NUM_EXACT; USBFILTERMATCH_NUM_EXACT_NP;
       USBFILTERMATCH_STR_EXACT; USBFILTERMATCH_STR_EXACT_NP]) then Some true
  else if bool_decide (m ∈ [USBFILTERMATCH_NUM_EXPRESSION; USBFILTERMATCH_NUM_EXPRESSION_NP])
  then match usbfilterGetString f i with
       | Some off =>
           psz ← tab_str (flt_achStrTab f) off;
           Some (negb (chr (skip_while is_separator psz) =? 0))
       | None => Some false
       end
  else if bool_decide (m ∈ [USBFILTERMATCH_STR_PATTERN; USBFILTERMATCH_STR_PATTERN_NP])
  then match usbfilterGetString f i with
       | Some off =>
           psz ← tab_str (flt_achStrTab f) off;
           Some (negb (chr (skip_while is_wild psz) =? 0))
       | None => Some false
       end
  else Some false.

Fixpoint substantial_loop (f : USBFILTER) (i : Z) (flds : list USBFILTERFIELD) : option bool :=
  match flds with
  | [] => Some false
  | fld :: flds' =>
      b ← substantial f i fld;
      if b : bool then Some true else substantial_loop f (i + 1) flds'
  end.

Definition USBFilterHasAnySubstatialCriteria (f : USBFILTER) : option bool :=
  if flt_u32Magic f =? USBFILTER_MAGIC then substantial_loop f 0 (flt_aFields f)
  else Some false.

(** * What a filter means *)

(** What a field asks of a device. *)
Inductive criterion : Type :=
| CrIgnore
| CrPresent
| CrNum (n : Z) (fMustBePresent : bool)
| CrNumExpr (s : list Z) (fMustBePresent : bool)
| CrStr (s : list Z) (fMustBePresent : bool)
| CrPattern (s : list Z) (fMustBePresent : bool).

#[export] Instance criterion_eq_dec : EqDecision criterion.
Proof. solve_decision. Defined.

Definition crit_match (c : criterion) : Z :=
  match c with
  | CrIgnore => USBFILTERMATCH_IGNORE
  | CrPresent => USBFILTERMATCH_PRESENT
  | CrNum _ p => if p then USBFILTERMATCH_NUM_EXACT else USBFILTERMATCH_NUM_EXACT_NP
  | CrNumExpr _ p =>
      if p then USBFILTERMATCH_NUM_EXPRESSION else USBFILTERMATCH_NUM_EXPRESSION_NP
  | CrStr _ p => if p then USBFILTERMATCH_STR_EXACT else USBFILTERMATCH_STR_EXACT_NP
  | CrPattern _ p => if p then USBFILTERMATCH_STR_PATTERN else USBFILTERMATCH_STR_PATTERN_NP
  end.

Definition crit_str (c : criterion) : option (list Z) :=
  match c with
  | CrNumExpr s _ | CrStr s _ | CrPattern s _ => Some s
  | _ => None
  end.

(** The criterion with the empty string. *)
Definition clear_str (c : criterion) : criterion :=
  match c with
  | CrNumExpr _ p => CrNumExpr [] p
  | CrStr _ p => CrStr [] p
  | CrPattern _ p => CrPattern [] p
  | _ => c
  end.

(** What a field can be set to. *)
Definition crit_ok (i : nat) (c : criterion) : Prop :=
  match c with
  | CrIgnore | CrPresent => True
  | CrNum n _ => (i < 8)%nat ∧ 0 ≤ n ≤ UINT16_MAX
  | CrNumExpr s _ =>
      (i < 8)%nat ∧ is_cstr s ∧ usbfilterValidateNumExpression s = Some VINF_SUCCESS
  | CrStr s _ | CrPattern s _ => (8 ≤ i)%nat ∧ is_cstr s
  end.

(** The room a criterion takes in the string table. *)
Definition crit_space (c : criterion) : nat :=
  match crit_str c with
  | Some ((_ :: _) as s) => S (length s)
  | _ => 0
  end.

Definition space (cs : list criterion) : nat := sum_list (crit_space <$> cs).

(** ** The structure for given criteria

    A layout is the strings of the table in their order, each with its field. *)

Abbreviation layout := (list (nat * list Z)).

Definition flat (L : layout) : list Z := concat ((λ e, e.2 ++ [0]) <$> L).

(** The offset of the string of field [i] in a table part that starts at [k]; 0, the empty
    string, if it has none. *)
Fixpoint lay_off (k : Z) (L : layout) (i : nat) : Z :=
  match L with
  | [] => 0
  | (j, s) :: L' =>
      if bool_decide (i = j) then k else lay_off (k + Z.of_nat (length s) + 1) L' i
  end.

Definition field_of (L : layout) (i : nat) (c : criterion) : USBFILTERFIELD :=
  mkField (crit_match c)
    match c with
    | CrIgnore | CrPresent => 0
    | CrNum n _ => n
    | _ => lay_off 1 L i
    end.

Definition table_of (A : list Z) : list Z := 0 :: A ++ replicate (255 - length A) 0.

Definition build (ty : Z) (cs : list criterion) (L : layout) : USBFILTER :=
  mkFilter USBFILTER_MAGIC ty (imap (field_of L) cs) (Z.of_nat (length (flat L)))
    (table_of (flat L)).

(** The layout has the strings of the criteria, but for empty ones. *)
Definition coherent (L : layout) (cs : list criterion) : Prop :=
  NoDup L.*1
  ∧ ∀ i s, (i, s) ∈ L ↔ s ≠ [] ∧ ∃ c, cs !! i = Some c ∧ crit_str c = Some s.

(** [f] is a filter of type [ty] with the criteria [cs]. *)
Definition represents (f : USBFILTER) (ty : Z) (cs : list criterion) : Prop :=
  type_ok ty = true ∧ length cs = 11%nat ∧ (∀ i c, cs !! i = Some c → crit_ok i c)
  ∧ ∃ L, coherent L cs ∧ (length (flat L) ≤ 255)%nat ∧ f = build ty cs L.

(** ** What the setters are to do *)

Inductive flt_op : Type :=
| OpType (ty : Z)
| OpIgnore (i : Z)
| OpPresent (i : Z)
| OpNum (i n : Z) (fMustBePresent : bool)
| OpNumExpr (i : Z) (s : list Z) (fMustBePresent : bool)
| OpStr (i : Z) (s : list Z) (fMustBePresent : bool)
| OpPattern (i : Z) (s : list Z) (fMustBePresent : bool)
| OpMust (i : Z) (fMustBePresent : bool).

Definition flt_run_op (op : flt_op) (f : USBFILTER) : option (Z * USBFILTER) :=
  match op with
  | OpType ty => Some (USBFilterSetFilterType f ty)
  | OpIgnore i => USBFilterSetIgnore f i
  | OpPresent i => USBFilterSetPresentOnly f i
  | OpNum i n p => USBFilterSetNumExact f i n p
  | OpNumExpr i s p => USBFilterSetNumExpression f i (Some s) p
  | OpStr i s p => USBFilterSetStringExact f i (Some s) p
  | OpPattern i s p => USBFilterSetStringPattern f i (Some s) p
  | OpMust i p => USBFilterSetMustBePresent f i p
  end.

(** The arguments are of their types; an index is one of USBFILTERIDX where the source does not
    check it first. *)
Definition flt_op_ok (op : flt_op) : Prop :=
  match op with
  | OpType _ => True
  | OpIgnore i | OpPresent i => 0 ≤ i < USBFILTERIDX_END
  | OpNum i n _ => 0 ≤ n ≤ UINT16_MAX
  | OpNumExpr i s _ | OpStr i s _ | OpPattern i s _ => is_cstr s
  | OpMust i _ => 0 ≤ i < 2 ^ 32
  end.

(** A criterion with a string is stored if there is room for it, without the old string; else
    the old string is gone. *)
Definition spec_store (i : Z) (c : criterion) (cs : list criterion) : Z * list criterion :=
  let cs0 := alter clear_str (Z.to_nat i) cs in
  let s := default [] (crit_str c) in
  if bool_decide (s = []) || bool_decide (space cs0 + length s + 2 ≤ sizeof_achStrTab)%nat
  then (VINF_SUCCESS, <[Z.to_nat i := c]> cs)
  else (VERR_BUFFER_OVERFLOW, cs0).

Definition crit_must (c : criterion) (p : bool) : criterion :=
  match c with
  | CrIgnore => CrIgnore
  | CrPresent => if p then CrPresent else CrIgnore
  | CrNum n _ => CrNum n p
  | CrNumExpr s _ => CrNumExpr s p
  | CrStr s _ => CrStr s p
  | CrPattern s _ => CrPattern s p
  end.

(** Status, type and criteria afterwards. *)
Definition spec_op (op : flt_op) (ty : Z) (cs : list criterion) : Z * Z * list criterion :=
  match op with
  | OpType ty' =>
      if type_ok ty' then (VINF_SUCCESS, ty', cs) else (VERR_INVALID_PARAMETER, ty, cs)
  | OpIgnore i => (VINF_SUCCESS, ty, <[Z.to_nat i := CrIgnore]> cs)
  | OpPresent i => (VINF_SUCCESS, ty, <[Z.to_nat i := CrPresent]> cs)
  | OpNum i n p =>
      if USBFilterIsNumericField i then (VINF_SUCCESS, ty, <[Z.to_nat i := CrNum n p]> cs)
      else (VERR_INVALID_PARAMETER, ty, cs)
  | OpNumExpr i s p =>
      if USBFilterIsNumericField i then
        let s := skip_while is_separator s in
        let rc := default 0 (usbfilterValidateNumExpression s) in
        if RT_SUCCESS rc then
          let '(rc, cs) := spec_store i (CrNumExpr s p) cs in (rc, ty, cs)
        else (rc, ty, cs)
      else (VERR_INVALID_PARAMETER, ty, cs)
  | OpStr i s p =>
      if USBFilterIsStringField i then
        let '(rc, cs) := spec_store i (CrStr s p) cs in (rc, ty, cs)
      else (VERR_INVALID_PARAMETER, ty, cs)
  | OpPattern i s p =>
      if USBFilterIsStringField i then
        let '(rc, cs) := spec_store i (CrPattern s p) cs in (rc, ty, cs)
      else (VERR_INVALID_PARAMETER, ty, cs)
  | OpMust i p =>
      if i <? USBFILTERIDX_END then
        if bool_decide (cs !! Z.to_nat i = Some CrIgnore) then (VWRN_INVALID_PARAMETER, ty, cs)
        else (VINF_SUCCESS, ty, alter (λ c, crit_must c p) (Z.to_nat i) cs)
      else (VERR_INVALID_PARAMETER, ty, cs)
  end.

(** * Layouts *)

Lemma flat_app L1 L2 : flat (L1 ++ L2) = flat L1 ++ flat L2.
Proof. unfold flat. by rewrite fmap_app, concat_app. Qed.

Lemma flat_cons i s L : flat ((i, s) :: L) = s ++ 0 :: flat L.
Proof. unfold flat. simpl. by rewrite <- (assoc_L (++)). Qed.

Lemma flat_snoc L i s : flat (L ++ [(i, s)]) = flat L ++ s ++ [0].
Proof. by rewrite flat_app, flat_cons. Qed.

(** The strings of a table are empty, or end with a terminator. *)
Lemma flat_end L : flat L = [] ∨ ∃ A, flat L = A ++ [0].
Proof.
  destruct L as [|[i s] L _] using rev_ind; [by left|right]. rewrite flat_snoc.
  exists (flat L ++ s). by rewrite <- (assoc_L (++)).
Qed.

Lemma lay_off_notin k L i : i ∉ L.*1 → lay_off k L i = 0.
Proof.
  revert k. induction L as [|[j s] L IH]; intros k H; simpl; [done|].
  cbn in H. apply not_elem_of_cons in H as [? ?]. rewrite bool_decide_false by done. auto.
Qed.

Lemma lay_off_app k L1 L2 i :
  lay_off k (L1 ++ L2) i =
  if bool_decide (i ∈ L1.*1) then lay_off k L1 i
  else lay_off (k + Z.of_nat (length (flat L1))) L2 i.
Proof.
  revert k. induction L1 as [|[j s] L1 IH]; intros k; cbn [app lay_off fmap list_fmap].
  - cbn. f_equal. lia.
  - rewrite IH. rewrite flat_cons, length_app. cbn [length fst].
    destruct (decide (i = j)) as [->|Hij].
    + rewrite !bool_decide_true; [done|by apply elem_of_cons; left|done].
    + rewrite (bool_decide_false (i = j)) by done.
      destruct (decide (i ∈ L1.*1)) as [Hi|Hi].
      * rewrite !bool_decide_true; [done|by apply elem_of_cons; right|done].
      * rewrite !bool_decide_false; [f_equal; lia| |done].
        intros [?|?]%elem_of_cons; done.
Qed.

Lemma lay_off_bounds k L i :
  0 ≤ k → i ∈ L.*1 → k ≤ lay_off k L i < k + Z.of_nat (length (flat L)).
Proof.
  revert k. induction L as [|[j s] L IH]; intros k Hk H; cbn in H.
  - by apply not_elem_of_nil in H.
  - rewrite flat_cons, length_app. cbn [lay_off length].
    destruct (decide (i = j)) as [->|Hij]; [rewrite bool_decide_true by done; lia|].
    rewrite bool_decide_false by done. apply elem_of_cons in H as [?|H]; [done|].
    specialize (IH (k + Z.of_nat (length s) + 1) ltac:(lia) H). lia.
Qed.

Lemma lay_off_shift k d L i : i ∈ L.*1 → lay_off (k + d) L i = lay_off k L i + d.
Proof.
  revert k. induction L as [|[j s] L IH]; intros k H; cbn in H.
  - by apply not_elem_of_nil in H.
  - cbn [lay_off]. destruct (decide (i = j)) as [->|Hij]; [by rewrite !bool_decide_true|].
    rewrite !bool_decide_false by done. apply elem_of_cons in H as [?|H]; [done|].
    rewrite <- IH by done. f_equal. lia.
Qed.

(** Offsets when the string of field [i] leaves the table. *)
Lemma lay_off_remove L1 i s L2 j :
  i ∉ L1.*1 → i ∉ L2.*1 → NoDup (L1 ++ (i, s) :: L2).*1 → j ≠ i →
  let off := lay_off 1 (L1 ++ (i, s) :: L2) j in
  let offi := 1 + Z.of_nat (length (flat L1)) in
  lay_off 1 (L1 ++ L2) j = if offi <=? off then off - (Z.of_nat (length s) + 1) else off.
Proof.
  intros Hi1 Hi2 Hnd Hj. cbv zeta. rewrite !lay_off_app. cbn [lay_off].
  rewrite (bool_decide_false (j = i)) by done.
  destruct (decide (j ∈ L1.*1)) as [Hj1|Hj1].
  - rewrite !bool_decide_true by done. pose proof (lay_off_bounds 1 L1 j ltac:(lia) Hj1).
    rewrite (proj2 (Z.leb_gt _ _)) by lia. done.
  - rewrite !bool_decide_false by done. destruct (decide (j ∈ L2.*1)) as [Hj2|Hj2].
    + rewrite <- (Z.add_assoc _ (Z.of_nat (length s)) 1), (lay_off_shift _ (Z.of_nat (length s) + 1)) by done.
      pose proof (lay_off_bounds (1 + Z.of_nat (length (flat L1))) L2 j ltac:(lia) Hj2).
      rewrite (proj2 (Z.leb_le _ _)) by lia. lia.
    + rewrite !lay_off_notin by done. by rewrite (proj2 (Z.leb_gt _ _)) by lia.
Qed.

Lemma lay_off_snoc L i s j :
  i ∉ L.*1 → lay_off 1 (L ++ [(i, s)]) j =
  if bool_decide (j = i) then 1 + Z.of_nat (length (flat L)) else lay_off 1 L j.
Proof.
  intros Hi. rewrite lay_off_app. cbn [lay_off]. destruct (decide (j ∈ L.*1)) as [Hj|Hj].
  - rewrite (bool_decide_true (j ∈ _)) by done. by rewrite bool_decide_false by (by intros ->).
  - rewrite (bool_decide_false (j ∈ _)) by done. case_bool_decide; [done|].
    by rewrite lay_off_notin.
Qed.

(** * The table *)

Lemma c_str_app s l : is_cstr s → c_str (s ++ 0 :: l) = Some s.
Proof.
  induction 1 as [|c s Hc Hs IH]; [done|]. cbn [app c_str].
  rewrite (proj2 (Z.eqb_neq _ _)) by lia. by rewrite IH.
Qed.

Lemma length_table_of A : (length A ≤ 255)%nat → length (table_of A) = 256%nat.
Proof. intros H. unfold table_of. simpl. rewrite length_app, length_replicate. lia. Qed.

(** What is not used of a table is zero, from the last terminator on. *)
Lemma table_drop A :
  A = [] ∨ (∃ A', A = A' ++ [0]) → (length A ≤ 255)%nat →
  drop (length A) (table_of A) = replicate (256 - length A) 0.
Proof.
  intros HA Hl. unfold table_of. destruct HA as [->|[A' ->]]; [done|].
  rewrite length_app in *. cbn [length] in *. rewrite Nat.add_1_r. cbn [drop].
  rewrite <- (assoc_L (++)), drop_app_length.
  replace (256 - S (length A'))%nat with (S (255 - S (length A')))%nat by lia.
  done.
Qed.

Lemma table_take A B :
  A = [] ∨ (∃ A', A = A' ++ [0]) → take (length A) (0 :: A ++ B) ++ [0] = 0 :: A.
Proof.
  intros [->|[A' ->]]; [done|]. rewrite length_app. cbn [length]. rewrite Nat.add_1_r.
  cbn [take]. rewrite <- (assoc_L (++)), take_app_length. done.
Qed.

(** The string of a field. *)
Lemma str_at_layout L1 i s L2 tl :
  is_cstr s →
  tab_str (0 :: (flat (L1 ++ (i, s) :: L2)) ++ tl) (1 + Z.of_nat (length (flat L1))) = Some s.
Proof.
  intros Hs. unfold tab_str. replace (Z.to_nat _) with (S (length (flat L1))) by lia.
  cbn [drop]. rewrite flat_app, <- (assoc_L (++)), drop_app_length, flat_cons, <- (assoc_L (++)).
  by apply c_str_app.
Qed.

Lemma lay_off_split L i s :
  (i, s) ∈ L → NoDup L.*1 →
  ∃ L1 L2, L = L1 ++ (i, s) :: L2 ∧ i ∉ L1.*1 ∧ i ∉ L2.*1
           ∧ lay_off 1 L i = 1 + Z.of_nat (length (flat L1)).
Proof.
  intros (L1&L2&->)%list_elem_of_split Hnd. exists L1, L2.
  rewrite fmap_app in Hnd. cbn in Hnd. apply list.NoDup_app in Hnd as (Hnd1&Hd&Hnd2).
  apply list.NoDup_cons in Hnd2 as [Hi Hnd2].
  assert (i ∉ L1.*1) by (intros H; apply (Hd i H), elem_of_cons; by left).
  split_and!; [done|done|done|]. rewrite lay_off_app, bool_decide_false by done. cbn [lay_off].
  by rewrite bool_decide_true.
Qed.

Lemma mem_load_ok tab (off cb : nat) :
  (off + cb ≤ length tab)%nat →
  mem_load tab (Z.of_nat off) (Z.of_nat cb) = Some (take cb (drop off tab)).
Proof.
  intros H. unfold mem_load. rewrite (proj2 (Z.leb_le 0 _)), (proj2 (Z.leb_le _ _)) by lia.
  by rewrite !Nat2Z.id.
Qed.

Lemma mem_store_ok tab (off : nat) bs :
  (off + length bs ≤ length tab)%nat →
  mem_store tab (Z.of_nat off) bs
  = Some (take off tab ++ bs ++ drop (off + length bs) tab).
Proof.
  intros H. unfold mem_store. rewrite (proj2 (Z.leb_le 0 _)), (proj2 (Z.leb_le _ _)) by lia.
  by rewrite !Nat2Z.id.
Qed.

(** The two moves of the removal, on the table. *)
Lemma table_remove A1 s A2 :
  A1 = [] ∨ (∃ A', A1 = A' ++ [0]) → A2 = [] ∨ (∃ A', A2 = A' ++ [0]) →
  let A := A1 ++ (s ++ [0]) ++ A2 in
  (length A ≤ 255)%nat →
  ∃ tab,
    mem_load (table_of A) (1 + Z.of_nat (length A1) + Z.of_nat (length (s ++ [0])))
      (Z.of_nat (length A2)) = Some A2
    ∧ mem_store (table_of A) (1 + Z.of_nat (length A1)) A2 = Some tab
    ∧ mem_store tab (Z.of_nat (length (A1 ++ A2))) (replicate (length (s ++ [0])) 0)
      = Some (table_of (A1 ++ A2)).
Proof.
  intros H1 H2 A Hl. pose proof (length_table_of A Hl) as Hlt.
  assert (HA : length A = (length A1 + length (s ++ [0%Z]) + length A2)%nat)
    by (subst A; rewrite !length_app; lia).
  assert (Hs : (1 ≤ length (s ++ [0%Z]))%nat) by (rewrite length_app; simpl; lia).
  assert (HAe : A = [] ∨ ∃ A', A = A' ++ [0]).
  { right. subst A. destruct H2 as [->|[A' ->]].
    - exists (A1 ++ s). by rewrite app_nil_r, (assoc_L (++)).
    - exists (A1 ++ (s ++ [0]) ++ A'). by rewrite <- !(assoc_L (++)). }
  remember (s ++ [0]) as t eqn:Et. clear Et.
  set (R := drop (1 + length A1 + length A2) (table_of A)).
  exists (0 :: A1 ++ A2 ++ R). split_and!.
  - replace (1 + Z.of_nat (length A1) + Z.of_nat (length t))
      with (Z.of_nat (S (length A1 + length t))) by lia.
    rewrite mem_load_ok by lia. f_equal. unfold table_of. cbn [drop]. subst A.
    rewrite <- !(assoc_L (++)), (assoc_L (++) A1 t), <- length_app, drop_app_length.
    apply take_app_length.
  - replace (1 + Z.of_nat (length A1)) with (Z.of_nat (S (length A1))) by lia.
    rewrite mem_store_ok by lia. f_equal.
    unfold table_of at 1. cbn [take]. subst A. by rewrite <- (assoc_L (++) A1), take_app_length.
  - assert (HR : length R = (255 - length A1 - length A2)%nat)
      by (unfold R; rewrite length_drop, Hlt; lia).
    rewrite mem_store_ok
      by (rewrite length_replicate; cbn [length]; rewrite !length_app, HR; lia).
    rewrite length_replicate. f_equal. rewrite (assoc_L (++) A1 A2 R).
    assert (HA12 : A1 ++ A2 = [] ∨ ∃ A', A1 ++ A2 = A' ++ [0]).
    { destruct H2 as [->|[A' ->]]; [by rewrite app_nil_r|]. right. exists (A1 ++ A').
      by rewrite <- (assoc_L (++)). }
    replace (length t) with (S (length t - 1)) at 1 by lia. cbn [replicate app].
    rewrite cons_middle, (assoc_L (++) _ [0]), table_take by done.
    unfold table_of. cbn [app]. do 2 f_equal.
    assert (Hd : drop (length (A1 ++ A2) + length t) (0 :: (A1 ++ A2) ++ R)
                 = drop (length A) (table_of A)).
    { assert (E1 : 0 :: (A1 ++ A2) ++ R = take (1 + length A1 + length A2) (0 :: A1 ++ A2) ++ R)
        by (rewrite take_ge; [done|simpl; rewrite length_app; lia]).
      rewrite E1, drop_app_ge by (rewrite length_take; simpl; rewrite length_app; lia).
      unfold R. rewrite drop_drop. f_equal. rewrite length_take. simpl. rewrite !length_app.
      lia. }
    rewrite Hd, table_drop by done. rewrite <- replicate_add. f_equal. rewrite length_app. lia.
Qed.

(** * The room strings take *)

(** The layout in the order of the fields, from field [k]. *)
Fixpoint fields_layout (k : nat) (cs : list criterion) : layout :=
  match cs with
  | [] => []
  | c :: cs' =>
      match crit_str c with
      | Some ((_ :: _) as s) => (k, s) :: fields_layout (S k) cs'
      | _ => fields_layout (S k) cs'
      end
  end.

Lemma elem_of_fields_layout k cs i s :
  (i, s) ∈ fields_layout k cs ↔
  (k ≤ i)%nat ∧ s ≠ [] ∧ ∃ c, cs !! (i - k)%nat = Some c ∧ crit_str c = Some s.
Proof.
  revert k. induction cs as [|c cs IH]; intros k; cbn [fields_layout].
  { split; [by intros ?%not_elem_of_nil|]. intros (_&_&c&H&_). by rewrite lookup_nil in H. }
  assert (Hcs : (i, s) ∈ fields_layout (S k) cs ↔
            (k < i)%nat ∧ s ≠ [] ∧ ∃ c', (c :: cs) !! (i - k)%nat = Some c' ∧ crit_str c' = Some s).
  { rewrite IH. split; intros (Hk&Hs&c'&Hc'&Hs'); (split; [lia|]); split; [done| |done|];
      exists c'; (split; [|done]).
    - replace (i - k)%nat with (S (i - S k)) by lia. done.
    - by replace (i - k)%nat with (S (i - S k)) in Hc' by lia. }
  assert (Hk : s ≠ [] ∧ crit_str c = Some s ↔
            (i = k → s ≠ [] ∧ ∃ c', (c :: cs) !! (i - k)%nat = Some c' ∧ crit_str c' = Some s)
            ∧ s ≠ [] ∧ crit_str c = Some s).
  { split; [|tauto]. intros [Hs Hc]. split; [|done]. intros ->. rewrite Nat.sub_diag.
    split; [done|]. by exists c. }
  assert (H0 : (k ≤ i)%nat ∧ s ≠ [] ∧ (∃ c', (c :: cs) !! (i - k)%nat = Some c' ∧ crit_str c' = Some s)
            ↔ (i = k ∧ s ≠ [] ∧ crit_str c = Some s) ∨ (i, s) ∈ fields_layout (S k) cs).
  { rewrite Hcs. split.
    - intros (Hle&Hs&c'&Hc'&Hs'). destruct (decide (i = k)) as [->|]; [left|right].
      + rewrite Nat.sub_diag in Hc'. by injection Hc' as ->.
      + split; [lia|eauto].
    - intros [(->&Hs&Hc)|(Hlt&Hs&Hc)]; (split; [lia|]); (split; [done|]); [|done].
      exists c. by rewrite Nat.sub_diag. }
  clear Hk. rewrite H0. clear H0 Hcs. destruct (crit_str c) as [[|x s']|] eqn:E.
  - split; [by right|]. intros [(_&Hs&[= <-])|?]; [by destruct Hs|done].
  - rewrite elem_of_cons. split.
    + intros [[= -> ->]|?]; [left; split_and!; done|by right].
    + intros [(->&_&[= <-])|?]; [by left|by right].
  - split; [by right|]. intros [(_&_&?)|?]; [congruence|done].
Qed.

Lemma NoDup_fields_layout k cs : NoDup (fields_layout k cs).*1.
Proof.
  revert k. induction cs as [|c cs IH]; intros k; cbn [fields_layout]; [constructor|].
  destruct (crit_str c) as [[|x s]|]; [done| |done]. cbn. constructor; [|done].
  intros ([i s']&Hi&Hin)%list_elem_of_fmap. simpl in Hi. subst.
  apply elem_of_fields_layout in Hin as [? _]. lia.
Qed.

Lemma length_flat_perm L1 L2 : L1 ≡ₚ L2 → length (flat L1) = length (flat L2).
Proof.
  induction 1 as [|[i s] L1 L2 _ IH|[i s] [j t] L|L1 L2 L3 _ IH1 _ IH2]; [done| | |congruence].
  - rewrite !flat_cons, !length_app. simpl. by rewrite IH.
  - rewrite !flat_cons, !length_app. simpl. rewrite !length_app. simpl. lia.
Qed.

Lemma length_fields_layout k cs : length (flat (fields_layout k cs)) = space cs.
Proof.
  revert k. induction cs as [|c cs IH]; intros k; cbn [fields_layout]; [done|].
  unfold space. cbn [fmap list_fmap sum_list sum_list_with foldr]. unfold crit_space at 1.
  destruct (crit_str c) as [[|x s]|]; [apply (IH (S k))| |apply (IH (S k))].
  rewrite flat_cons, length_app. simpl. rewrite IH. unfold space. simpl. lia.
Qed.

Lemma coherent_space L cs : coherent L cs → length (flat L) = space cs.
Proof.
  intros [Hnd Hin]. rewrite <- (length_fields_layout 0). apply length_flat_perm.
  apply list.NoDup_Permutation.
  - by eapply NoDup_fmap_1.
  - eapply NoDup_fmap_1, NoDup_fields_layout.
  - intros [i s]. rewrite Hin, elem_of_fields_layout, Nat.sub_0_r. split; [|tauto].
    intros ?. split; [lia|done].
Qed.

(** * Fields of a filter that was built *)

Lemma field_build ty cs L i :
  field (build ty cs L) (Z.of_nat i) = field_of L i <$> cs !! i.
Proof.
  unfold field, build. cbn. rewrite (proj2 (Z.ltb_ge _ _)) by lia.
  by rewrite Nat2Z.id, list_lookup_imap.
Qed.

Lemma using_string_crit c :
  USBFilterIsMethodUsingStringValue (crit_match c) = bool_decide (is_Some (crit_str c)).
Proof. by destruct c as [| |? []|? []|? []|? []]. Qed.

Lemma crit_match_clear c : crit_match (clear_str c) = crit_match c.
Proof. by destruct c. Qed.

Lemma crit_str_clear c : crit_str (clear_str c) = const [] <$> crit_str c.
Proof. by destruct c. Qed.

Lemma clear_str_id c : crit_str c = None ∨ crit_str c = Some [] → clear_str c = c.
Proof. by destruct c; intros [?|?]; simplify_eq/=. Qed.

Lemma crit_ok_str i c s : crit_ok i c → crit_str c = Some s → is_cstr s.
Proof. destruct c; simpl; intros ? [= <-]; tauto. Qed.

Lemma crit_ok_clear i c : crit_ok i c → crit_ok i (clear_str c).
Proof. destruct c; simpl; intros; try done; split_and!; try tauto; constructor. Qed.

Lemma field_of_str L i c s :
  crit_str c = Some s → field_of L i c = mkField (crit_match c) (lay_off 1 L i).
Proof. by destruct c. Qed.

Lemma field_of_nostr L1 L2 i c : crit_str c = None → field_of L1 i c = field_of L2 i c.
Proof. by destruct c. Qed.

(** A field is the same in two layouts with the same offset for it. *)
Lemma field_of_ext L1 L2 i c : lay_off 1 L1 i = lay_off 1 L2 i → field_of L1 i c = field_of L2 i c.
Proof. intros H. destruct c; unfold field_of; by rewrite ?H. Qed.

Lemma coherent_notin L cs i c :
  coherent L cs → cs !! i = Some c → crit_str c = None ∨ crit_str c = Some [] → i ∉ L.*1.
Proof.
  intros [_ H] Hc Hs ([j s]&Hj&Hin)%list_elem_of_fmap. simpl in Hj. subst j.
  apply H in Hin as (Hne&c'&Hc'&Hs'). simplify_eq. destruct Hs; simplify_eq.
Qed.

Lemma coherent_remove L1 i s L2 cs c :
  coherent (L1 ++ (i, s) :: L2) cs → cs !! i = Some c →
  coherent (L1 ++ L2) (<[i := clear_str c]> cs).
Proof.
  intros [Hnd Hin] Hc. assert (Hi : i ∉ (L1 ++ L2).*1 ∧ NoDup (L1 ++ L2).*1).
  { rewrite fmap_app in Hnd. cbn in Hnd. rewrite <- Permutation_middle in Hnd.
    apply list.NoDup_cons in Hnd. by rewrite fmap_app. }
  destruct Hi as [Hi Hnd']. split; [done|]. intros j t.
  assert (Hlt : (i < length cs)%nat) by (by eapply lookup_lt_Some).
  destruct (decide (j = i)) as [->|Hj].
  - rewrite list_lookup_insert_eq by done. split.
    + intros H. destruct Hi. apply list_elem_of_fmap. by exists (i, t).
    + intros (Ht&c'&[= <-]&Hs). rewrite crit_str_clear in Hs.
      destruct (crit_str c); simplify_eq/=.
  - rewrite list_lookup_insert_ne by done. rewrite <- Hin.
    rewrite !elem_of_app, elem_of_cons. split; [tauto|]. intros [?|[[= ? ?]|?]]; tauto.
Qed.

Lemma coherent_add L i s cs c :
  coherent L cs → i ∉ L.*1 → (i < length cs)%nat → s ≠ [] → crit_str c = Some s →
  coherent (L ++ [(i, s)]) (<[i := c]> cs).
Proof.
  intros [Hnd Hin] Hi Hlt Hs Hc. split.
  - rewrite fmap_app. cbn. rewrite <- Permutation_cons_append. by constructor.
  - intros j t. rewrite elem_of_app, list_elem_of_singleton.
    destruct (decide (j = i)) as [->|Hj].
    + rewrite list_lookup_insert_eq by done. split.
      * intros [H|[= ->]]; [|eauto]. destruct Hi. apply list_elem_of_fmap. by exists (i, t).
      * intros (_&c'&[= <-]&Hs'). right. congruence.
    + rewrite list_lookup_insert_ne by done. rewrite <- Hin. split; [|tauto].
      intros [?|[= ? ?]]; done.
Qed.

Lemma coherent_same L i cs c :
  coherent L cs → i ∉ L.*1 → (i < length cs)%nat → crit_str c = None ∨ crit_str c = Some [] →
  coherent L (<[i := c]> cs).
Proof.
  intros [Hnd Hin] Hi Hlt Hc. split; [done|]. intros j t. destruct (decide (j = i)) as [->|Hj].
  - rewrite list_lookup_insert_eq by done. split.
    + intros H. destruct Hi. apply list_elem_of_fmap. by exists (i, t).
    + intros (Ht&c'&[= <-]&Hs). destruct Hc; simplify_eq.
  - by rewrite list_lookup_insert_ne.
Qed.

(** Changing one field of what was built, and where the strings are. *)
Lemma build_fields L L' cs cs' i c m v :
  (i < length cs)%nat → length cs = length cs' →
  (∀ j, j ≠ i → cs !! j = cs' !! j) → (∀ j, j ≠ i → lay_off 1 L j = lay_off 1 L' j) →
  field_of L' i c = mkField m v →
  <[i := mkField m v]> (imap (field_of L) cs) = imap (field_of L') (<[i := c]> cs').
Proof.
  intros Hi Hl Hcs HL Hf. apply list_eq. intros j. destruct (decide (j = i)) as [->|Hj].
  - rewrite list_lookup_insert_eq by (by rewrite length_imap).
    rewrite list_lookup_imap, list_lookup_insert_eq by lia. simpl. by rewrite Hf.
  - rewrite list_lookup_insert_ne by done. rewrite !list_lookup_imap.
    rewrite list_lookup_insert_ne, Hcs by done. destruct (cs' !! j); [|done].
    simpl. f_equal. by apply field_of_ext, HL.
Qed.

(** * Removing a string *)

(** The fields, after all that are behind have been shifted. *)
Lemma shift_fields L1 i s L2 cs c :
  coherent (L1 ++ (i, s) :: L2) cs → cs !! i = Some c → crit_str c = Some s →
  (length (flat (L1 ++ (i, s) :: L2)) ≤ 255)%nat → i ∉ L1.*1 → i ∉ L2.*1 →
  shift_field (1 + Z.of_nat (length (flat L1))) (Z.of_nat (length s) + 1) <$>
    <[i := mkField (crit_match c) 0]> (imap (field_of (L1 ++ (i, s) :: L2)) cs)
  = imap (field_of (L1 ++ L2)) (<[i := clear_str c]> cs).
Proof.
  intros Hcoh Hc Hs Hlen Hi1 Hi2. assert (Hlt : (i < length cs)%nat) by (by eapply lookup_lt_Some).
  apply list_eq. intros j. rewrite list_lookup_fmap, list_lookup_imap.
  destruct (decide (j = i)) as [->|Hj].
  - rewrite !list_lookup_insert_eq by (by rewrite ?length_imap). simpl. f_equal.
    rewrite (field_of_str _ _ _ []) by (by rewrite crit_str_clear, Hs).
    rewrite crit_match_clear, lay_off_notin by (rewrite fmap_app, elem_of_app; tauto).
    unfold shift_field. simpl. by rewrite (proj2 (Z.leb_gt _ _)) by lia.
  - rewrite !list_lookup_insert_ne, list_lookup_imap by done.
    destruct (cs !! j) as [c'|] eqn:Hc'; [|done]. simpl. f_equal.
    destruct (crit_str c') as [t|] eqn:Ht.
    + rewrite !(field_of_str _ _ _ _ Ht). unfold shift_field. simpl.
      rewrite using_string_crit, bool_decide_true, andb_true_r by (by rewrite Ht).
      rewrite (lay_off_remove L1 i s L2 j) by (try done; apply Hcoh).
      destruct (Z.leb_spec (1 + Z.of_nat (length (flat L1))) (lay_off 1 (L1 ++ (i, s) :: L2) j)) as [Hle|]; [|done].
      f_equal. apply u16_small.
      destruct (decide (j ∈ (L1 ++ (i, s) :: L2).*1)) as [Hin|Hin].
      * pose proof (lay_off_bounds 1 _ j ltac:(lia) Hin).
        assert (Hin' : j ∈ (L1 ++ L2).*1).
        { rewrite fmap_app, elem_of_app in *. cbn in Hin. rewrite elem_of_cons in Hin. tauto. }
        pose proof (lay_off_bounds 1 _ j ltac:(lia) Hin') as Hb.
        rewrite (lay_off_remove L1 i s L2 j) in Hb by (try done; apply Hcoh).
        rewrite (proj2 (Z.leb_le _ _)) in Hb by done. lia.
      * rewrite lay_off_notin in Hle by done. lia.
    + rewrite (field_of_nostr _ (L1 ++ L2) j c') by done. unfold shift_field.
      rewrite andb_comm. by destruct c' as [| |n []|? ?|? ?|? ?]; simplify_eq/=.
Qed.

Lemma remove_string_build ty cs L1 i s L2 c :
  let L := L1 ++ (i, s) :: L2 in
  coherent L cs → cs !! i = Some c → crit_str c = Some s → is_cstr s →
  (length (flat L) ≤ 255)%nat → i ∉ L1.*1 → i ∉ L2.*1 →
  remove_string (build ty cs L) (Z.of_nat i) (1 + Z.of_nat (length (flat L1)))
  = Some (build ty (<[i := clear_str c]> cs) (L1 ++ L2)).
Proof.
  intros L Hcoh Hc Hs Hcs Hlen Hi1 Hi2.
  assert (HL : flat L = flat L1 ++ (s ++ [0]) ++ flat L2)
    by (unfold L; by rewrite flat_app, flat_cons, <- (assoc_L (++))).
  assert (Hlens : Z.of_nat (length s) + 1 = Z.of_nat (length (s ++ [0])))
    by (rewrite length_app; simpl; lia).
  destruct (table_remove (flat L1) s (flat L2) (flat_end L1) (flat_end L2)) as (tab&Hld&Hst&Hms).
  { by rewrite <- HL. }
  rewrite <- HL in Hld, Hst. unfold remove_string, set_value. rewrite field_build, Hc.
  cbn [fmap option_fmap option_map mbind option_bind].
  replace (flt_achStrTab (set_field _ _ _)) with (table_of (flat L)) by done.
  assert (Hstr : tab_str (table_of (flat L)) (1 + Z.of_nat (length (flat L1))) = Some s)
    by (by apply str_at_layout).
  rewrite Hstr.
  cbn [mbind option_bind]. set (fs := <[i := mkField (crit_match c) 0]> (imap (field_of L) cs)).
  replace (set_field (build ty cs L) (Z.of_nat i) _)
    with (mkFilter USBFILTER_MAGIC ty fs (Z.of_nat (length (flat L))) (table_of (flat L)))
    by (unfold set_field, with_fields, build, fs; cbn; by rewrite Nat2Z.id).
  assert (Hll : length (flat L) = (length (flat L1) + length (s ++ [0%Z]) + length (flat L2))%nat)
    by (rewrite HL, !length_app; lia).
  cbn [flt_offCurEnd flt_achStrTab]. rewrite Hlens.
  rewrite (u32_small (Z.of_nat (length (flat L)) + 1)), (u32_small (_ + _ + _)) by lia.
  rewrite u32_small by lia.
  replace (Z.of_nat (length (flat L)) + 1 - (1 + Z.of_nat (length (flat L1)) + Z.of_nat (length (s ++ [0]))))
    with (Z.of_nat (length (flat L2))) by lia.
  assert (Hend : ∀ f, flt_u32Magic f = USBFILTER_MAGIC → flt_enmType f = ty →
            flt_achStrTab f = tab → flt_offCurEnd f = Z.of_nat (length (flat L)) →
            flt_aFields f = imap (field_of (L1 ++ L2)) (<[i := clear_str c]> cs) →
    (tab' ← mem_store (flt_achStrTab f) (u32 (flt_offCurEnd f - Z.of_nat (length (s ++ [0]))))
              (replicate (Z.to_nat (Z.of_nat (length (s ++ [0])))) 0);
     Some (with_table f (u32 (flt_offCurEnd f - Z.of_nat (length (s ++ [0])))) tab'))
    = Some (build ty (<[i := clear_str c]> cs) (L1 ++ L2))).
  { intros f H1 H2 H3 H4 H5. rewrite H3, H4, Nat2Z.id, u32_small by lia.
    replace (Z.of_nat (length (flat L)) - Z.of_nat (length (s ++ [0])))
      with (Z.of_nat (length (flat L1 ++ flat L2))) by (rewrite length_app; lia).
    rewrite Hms. cbn [mbind option_bind]. unfold with_table, build. rewrite H1, H2, H5, flat_app.
    done. }
  destruct (Z.ltb_spec 0 (Z.of_nat (length (flat L2)))) as [Hmv|Hmv].
  - rewrite Hld. cbn [mbind option_bind]. rewrite Hst. cbn [mbind option_bind].
    apply Hend; [done..|]. cbn. rewrite <- Hlens. by apply shift_fields.
  - assert (HL2 : flat L2 = []) by (apply length_zero_iff_nil; lia).
    assert (L2 = []) as ->.
    { destruct L2 as [|[j t] L2]; [done|]. rewrite flat_cons in HL2. by destruct t. }
    cbn [mbind option_bind]. apply Hend; [done|done| |done|].
    + simpl in Hst. unfold mem_store in Hst. destruct (_ && _); [|done]. injection Hst as <-.
      simpl. by rewrite Nat.add_0_r, take_drop.
    + cbn. unfold fs. rewrite app_nil_r. apply build_fields; [by eapply lookup_lt_Some|done|done| |].
      * intros j Hj. unfold L. rewrite lay_off_snoc by done. by rewrite bool_decide_false.
      * rewrite (field_of_str _ _ _ []) by (by rewrite crit_str_clear, Hs).
        by rewrite crit_match_clear, lay_off_notin.
Qed.

(** * Setting a field

    While a setter is at work, field [i] has a method and a value that do not belong together
    yet. *)

Definition half (ty : Z) (cs : list criterion) (L : layout) (i : nat) (m v : Z) : USBFILTER :=
  with_fields (build ty cs L) (<[i := mkField m v]> (imap (field_of L) cs)).

Section half.
Context (ty : Z) (cs : list criterion) (L : layout) (i : nat).
Hypothesis Hi : (i < length cs)%nat.

Lemma half_field m v : field (half ty cs L i m v) (Z.of_nat i) = Some (mkField m v).
Proof.
  unfold field, half. cbn. rewrite (proj2 (Z.ltb_ge _ _)) by lia.
  by rewrite Nat2Z.id, list_lookup_insert_eq by (by rewrite length_imap).
Qed.

Lemma half_set m v m' v' :
  set_field (half ty cs L i m v) (Z.of_nat i) (mkField m' v') = half ty cs L i m' v'.
Proof.
  unfold set_field, half, with_fields. cbn. by rewrite Nat2Z.id, list_insert_insert_eq.
Qed.

Lemma half_set_match m v m' :
  set_match (half ty cs L i m v) (Z.of_nat i) m' = Some (half ty cs L i m' v).
Proof. unfold set_match. rewrite half_field. cbn. by rewrite half_set. Qed.

Lemma half_set_value m v v' :
  set_value (half ty cs L i m v) (Z.of_nat i) v' = Some (half ty cs L i m v').
Proof. unfold set_value. rewrite half_field. cbn. by rewrite half_set. Qed.

Lemma half_done c m v :
  field_of L i c = mkField m v → half ty cs L i m v = build ty (<[i := c]> cs) L.
Proof.
  intros H. unfold half, with_fields, build. cbn. f_equal.
  by apply build_fields.
Qed.

Lemma half_fields L' fld :
  (∀ j, j ≠ i → lay_off 1 L j = lay_off 1 L' j) →
  <[i := fld]> (imap (field_of L) cs) = <[i := fld]> (imap (field_of L') cs).
Proof.
  intros HL. apply list_eq. intros j. destruct (decide (j = i)) as [->|Hj].
  - by rewrite !list_lookup_insert_eq by (by rewrite length_imap).
  - rewrite !list_lookup_insert_ne, !list_lookup_imap by done. destruct (cs !! j); [|done].
    simpl. f_equal. by apply field_of_ext, HL.
Qed.

Lemma half_start c :
  cs !! i = Some c → build ty cs L = half ty cs L i (crit_match c) (fld_u16Value (field_of L i c)).
Proof.
  intros Hc. symmetry. rewrite (half_done c) by done. by rewrite list_insert_id.
Qed.
End half.

#[local] Hint Rewrite half_field half_set_match half_set_value using done : half.

(** The field of a filter that was built. *)
Section set.
Context (ty : Z) (cs : list criterion) (L : layout) (i : nat) (c : criterion).
Hypothesis Hcoh : coherent L cs.
Hypothesis Hlen : (length (flat L) ≤ 255)%nat.
Hypothesis Hcs : length cs = 11%nat.
Hypothesis Hc : cs !! i = Some c.
Hypothesis Hstr : ∀ t, crit_str c = Some t → is_cstr t.

Let cs0 := <[i := clear_str c]> cs.

#[local] Lemma set_lt : (i < length cs)%nat.
Proof. by eapply lookup_lt_Some. Qed.

#[local] Lemma set_lt0 : (i < length cs0)%nat.
Proof. unfold cs0. rewrite length_insert. apply set_lt. Qed.

#[local] Lemma set_idx_ok : idx_ok (Z.of_nat i) = true.
Proof.
  pose proof set_lt. unfold idx_ok, USBFILTERIDX_END. rewrite u32_small by lia.
  apply Z.ltb_lt. lia.
Qed.

(** Whether there is a string to remove, and what is left. *)
Lemma removal :
  (∃ L0, coherent L0 cs0 ∧ i ∉ L0.*1 ∧ (length (flat L0) ≤ 255)%nat
         ∧ USBFilterIsMethodUsingStringValue (crit_match c) = true
         ∧ fld_u16Value (field_of L i c) ≠ 0
         ∧ remove_string (build ty cs L) (Z.of_nat i) (fld_u16Value (field_of L i c))
           = Some (build ty cs0 L0))
  ∨ (i ∉ L.*1 ∧ cs0 = cs
     ∧ USBFilterIsMethodUsingStringValue (crit_match c)
       && negb (fld_u16Value (field_of L i c) =? 0) = false).
Proof.
  destruct (crit_str c) as [[|x s]|] eqn:E.
  - right. assert (Hi : i ∉ L.*1) by (eapply coherent_notin; eauto).
    split; [done|]. split.
    + unfold cs0. rewrite clear_str_id by (by right). by rewrite list_insert_id.
    + rewrite (field_of_str _ _ _ _ E). simpl. rewrite lay_off_notin by done.
      by rewrite andb_comm.
  - left. assert (Hin : (i, x :: s) ∈ L) by (apply Hcoh; eauto).
    apply lay_off_split in Hin as (L1&L2&HL&Hi1&Hi2&Hoff); [|apply Hcoh].
    exists (L1 ++ L2). rewrite (field_of_str _ _ _ _ E). cbn [fld_u16Value]. rewrite Hoff.
    rewrite HL in Hcoh, Hlen |- *. split_and!.
    + eapply coherent_remove; [done|]. done.
    + rewrite fmap_app, elem_of_app. tauto.
    + rewrite flat_app, flat_cons, !length_app in Hlen. simpl in Hlen.
      rewrite flat_app, length_app. lia.
    + rewrite using_string_crit, E. by apply bool_decide_true.
    + lia.
    + apply (remove_string_build ty cs L1 i (x :: s) L2 c); auto.
  - right. assert (Hi : i ∉ L.*1) by (eapply coherent_notin; eauto).
    split; [done|]. split.
    + unfold cs0. rewrite clear_str_id by (by left). by rewrite list_insert_id.
    + by rewrite using_string_crit, E.
Qed.

Lemma delete_build :
  ∃ L0 v, coherent L0 cs0 ∧ i ∉ L0.*1 ∧ (length (flat L0) ≤ 255)%nat
    ∧ usbfilterDeleteAnyStringValue (build ty cs L) (Z.of_nat i)
      = Some (VINF_SUCCESS, half ty cs0 L0 i (crit_match c) v).
Proof.
  unfold usbfilterDeleteAnyStringValue. rewrite field_build, Hc. cbn [fmap option_fmap option_map mbind option_bind].
  replace (fld_enmMatch (field_of L i c)) with (crit_match c) by done.
  destruct removal as [(L0&Hco&Hi&Hl&Hu&Hv&Hr)|(Hi&Heq&Hno)].
  - exists L0, 0. split_and!; [done..|]. rewrite Hu. rewrite (proj2 (Z.eqb_neq _ _) Hv). simpl.
    unfold usbfilterSetString. cbn [flt_u32Magic build]. rewrite set_idx_ok.
    change (negb (USBFILTER_MAGIC =? USBFILTER_MAGIC)) with false. cbn [negb].
    rewrite field_build, Hc. cbn [fmap option_fmap option_map mbind option_bind].
    replace (fld_enmMatch (field_of L i c)) with (crit_match c) by done.
    rewrite Hu, (proj2 (Z.eqb_neq _ _) Hv). cbn [negb andb]. rewrite Hr.
    cbn [mbind option_bind chr hd]. change (0 =? 0) with true. cbn iota.
    rewrite (half_start ty cs0 L0 i (set_lt0) (clear_str c))
      by (unfold cs0; rewrite list_lookup_insert_eq by apply set_lt; done).
    rewrite half_set_value by apply set_lt0. cbn. by rewrite crit_match_clear.
  - exists L, (fld_u16Value (field_of L i c)). rewrite Heq. split_and!; [done..|].
    rewrite Hno, set_idx_ok. cbn [negb]. by rewrite <- half_start by (done || apply set_lt).
Qed.

Lemma set_string_build s' :
  is_cstr s' →
  ∃ L0, coherent L0 cs0 ∧ i ∉ L0.*1 ∧ (length (flat L0) ≤ 255)%nat
    ∧ usbfilterSetString (build ty cs L) (Z.of_nat i) (Some s') =
      if bool_decide (s' = []) then Some (VINF_SUCCESS, half ty cs0 L0 i (crit_match c) 0)
      else if bool_decide (space cs0 + length s' + 2 ≤ sizeof_achStrTab)%nat then
        Some (VINF_SUCCESS, half ty cs0 (L0 ++ [(i, s')]) i (crit_match c)
                              (1 + Z.of_nat (length (flat L0))))
      else Some (VERR_BUFFER_OVERFLOW, build ty cs0 L0).
Proof.
  intros Hs'.
  assert (Hadd : ∀ L0, coherent L0 cs0 → i ∉ L0.*1 → (length (flat L0) ≤ 255)%nat →
    (if chr s' =? 0 then
        f ← set_value (build ty cs0 L0) (Z.of_nat i) 0; Some (VINF_SUCCESS, f)
      else
        let cch := Z.of_nat (length s') in
        if Z.of_nat sizeof_achStrTab <? flt_offCurEnd (build ty cs0 L0) + cch + 2
        then Some (VERR_BUFFER_OVERFLOW, build ty cs0 L0)
        else
          f' ← set_value (build ty cs0 L0) (Z.of_nat i) (u16 (flt_offCurEnd (build ty cs0 L0) + 1));
          tab ← mem_store (flt_achStrTab f') (flt_offCurEnd f' + 1) (s' ++ [0]);
          Some (VINF_SUCCESS, with_table f' (u32 (flt_offCurEnd f' + u32 cch + 1)) tab)) =
    if bool_decide (s' = []) then Some (VINF_SUCCESS, half ty cs0 L0 i (crit_match c) 0)
    else if bool_decide (space cs0 + length s' + 2 ≤ sizeof_achStrTab)%nat then
        Some (VINF_SUCCESS, half ty cs0 (L0 ++ [(i, s')]) i (crit_match c)
                              (1 + Z.of_nat (length (flat L0))))
    else Some (VERR_BUFFER_OVERFLOW, build ty cs0 L0)).
  { intros L0 Hco Hi Hl0.
    assert (Hst : build ty cs0 L0 = half ty cs0 L0 i (crit_match c) (fld_u16Value (field_of L0 i (clear_str c)))).
    { rewrite <- crit_match_clear. apply half_start; [apply set_lt0|].
      unfold cs0. by rewrite list_lookup_insert_eq by apply set_lt. }
    rewrite chr_0_eqb by done. case_bool_decide as Hne.
    { rewrite Hst, half_set_value by apply set_lt0. done. }
    rewrite <- (coherent_space L0 cs0) by done. cbn zeta.
    change (flt_offCurEnd (build ty cs0 L0)) with (Z.of_nat (length (flat L0))).
    unfold sizeof_achStrTab. case_bool_decide as Hfit.
    2: { by rewrite (proj2 (Z.ltb_lt _ _)) by lia. }
    rewrite (proj2 (Z.ltb_ge _ _)) by lia. rewrite u16_small by lia.
    rewrite Hst, half_set_value by apply set_lt0. cbn [mbind option_bind].
    change (flt_achStrTab (half ty cs0 L0 i (crit_match c) _)) with (table_of (flat L0)).
    change (flt_offCurEnd (half ty cs0 L0 i (crit_match c) _)) with (Z.of_nat (length (flat L0))).
    rewrite (u32_small (Z.of_nat (length s'))), u32_small by lia.
    replace (Z.of_nat (length (flat L0)) + 1) with (Z.of_nat (S (length (flat L0)))) by lia.
    rewrite mem_store_ok by (rewrite length_table_of, length_app by done; simpl; lia).
    cbn [mbind option_bind]. do 2 f_equal. unfold half, with_table, with_fields, build.
    cbn [flt_u32Magic flt_enmType flt_aFields]. f_equal.
    - replace (Z.of_nat (S (length (flat L0)))) with (1 + Z.of_nat (length (flat L0))) by lia.
      apply half_fields; [apply set_lt0|].
      intros j Hj. rewrite lay_off_snoc by done. by rewrite bool_decide_false.
    - rewrite flat_snoc, !length_app. simpl. lia.
    - unfold table_of. cbn [take drop Nat.add app]. rewrite take_app_length, flat_snoc.
      cbn [flt_achStrTab]. rewrite <- (assoc_L (++) (flat L0)), drop_app_add, drop_replicate.
      do 4 f_equal. rewrite !length_app. simpl. lia. }
  unfold usbfilterSetString. cbn [flt_u32Magic build]. rewrite set_idx_ok.
  change (negb (USBFILTER_MAGIC =? USBFILTER_MAGIC)) with false. cbn [negb].
  rewrite field_build, Hc. cbn [fmap option_fmap option_map mbind option_bind].
  replace (fld_enmMatch (field_of L i c)) with (crit_match c) by done.
  destruct removal as [(L0&Hco&Hi&Hl&Hu&Hv&Hr)|(Hi&Heq&Hno)].
  - exists L0. split_and!; [done..|]. rewrite Hu, (proj2 (Z.eqb_neq _ _) Hv). cbn [negb andb].
    rewrite Hr. cbn [mbind option_bind]. by apply Hadd.
  - exists L. rewrite Hno. cbn [mbind option_bind]. rewrite Heq in *. split_and!; [done..|].
    by apply Hadd.
Qed.
End set.

(** * The setters *)

Lemma alter_as_insert (g : criterion → criterion) (i : nat) (cs : list criterion) c :
  cs !! i = Some c → alter g i cs = <[i := g c]> cs.
Proof.
  intros Hc. apply list_eq. intros j. destruct (decide (j = i)) as [->|Hj].
  - rewrite list_lookup_alter_eq, list_lookup_insert_eq, Hc by (by eapply lookup_lt_Some). done.
  - by rewrite list_lookup_alter_ne, list_lookup_insert_ne.
Qed.

Lemma crit_ok_insert i c (cs : list criterion) :
  (∀ j c', cs !! j = Some c' → crit_ok j c') → crit_ok i c →
  ∀ j c', <[i := c]> cs !! j = Some c' → crit_ok j c'.
Proof.
  intros H Hc j c' Hj. apply list_lookup_insert_Some in Hj as [(->&->&_)|[_ Hj]]; auto.
Qed.

Lemma represents_lookup f ty cs i :
  represents f ty cs → (i < 11)%nat → ∃ c, cs !! i = Some c ∧ crit_ok i c.
Proof.
  intros (_&Hl&Hok&_) Hi. destruct (lookup_lt_is_Some_2 cs i) as [c Hc]; [lia|]. eauto.
Qed.

(** A field is given criterion [c']: what the setters do after the old string is gone. *)
Lemma finish_plain ty cs L i c c' m v :
  type_ok ty = true → length cs = 11%nat → (∀ j d, cs !! j = Some d → crit_ok j d) →
  (i < 11)%nat → crit_ok i c' → coherent L (<[i := c]> cs) → i ∉ L.*1 →
  (length (flat L) ≤ 255)%nat → crit_str c' = None ∨ crit_str c' = Some [] →
  field_of L i c' = mkField m v →
  represents (half ty (<[i := c]> cs) L i m v) ty (<[i := c']> cs).
Proof.
  intros Hty Hl Hok Hi Hc' Hco Hni Hfl Hs Hf. split; [done|].
  split; [by rewrite length_insert|]. split; [by apply crit_ok_insert|]. exists L.
  split; [|split; [done|]].
  - rewrite <- (list_insert_insert_eq cs i c' c). apply coherent_same; [done|done| |done].
    rewrite length_insert. lia.
  - rewrite (half_done ty (<[i := c]> cs) L i ltac:(rewrite length_insert; lia) c') by done.
    by rewrite list_insert_insert_eq.
Qed.

Lemma finish_string ty cs L i c c' s' :
  type_ok ty = true → length cs = 11%nat → (∀ j d, cs !! j = Some d → crit_ok j d) →
  (i < 11)%nat → crit_ok i c' → coherent L (<[i := c]> cs) → i ∉ L.*1 →
  crit_str c' = Some s' → s' ≠ [] → (space (<[i := c]> cs) + length s' + 2 ≤ 256)%nat →
  represents (half ty (<[i := c]> cs) (L ++ [(i, s')]) i (crit_match c')
                (1 + Z.of_nat (length (flat L)))) ty (<[i := c']> cs).
Proof.
  intros Hty Hl Hok Hi Hc' Hco Hni Hs Hne Hsp. split; [done|].
  split; [by rewrite length_insert|]. split; [by apply crit_ok_insert|].
  exists (L ++ [(i, s')]). rewrite <- (coherent_space _ _ Hco) in Hsp.
  split; [|split].
  - rewrite <- (list_insert_insert_eq cs i c' c). apply coherent_add; [done|done| |done|done].
    rewrite length_insert. lia.
  - rewrite flat_snoc, !length_app. simpl. lia.
  - rewrite (half_done ty (<[i := c]> cs) (L ++ [(i, s')]) i ltac:(rewrite length_insert; lia) c').
    + by rewrite list_insert_insert_eq.
    + rewrite (field_of_str _ _ _ _ Hs), lay_off_snoc by done. by rewrite bool_decide_true.
Qed.

(** [usbfilterSetString], followed by the method. *)
Lemma set_string_spec f ty cs i c' s' :
  represents f ty cs → (i < 11)%nat → crit_ok i c' → crit_str c' = Some s' →
  ∃ rc f', usbfilterSetString f (Z.of_nat i) (Some s') = Some (rc, f')
    ∧ rc = (spec_store (Z.of_nat i) c' cs).1
    ∧ if RT_SUCCESS rc
      then ∃ f'', set_match f' (Z.of_nat i) (crit_match c') = Some f''
                  ∧ represents f'' ty (spec_store (Z.of_nat i) c' cs).2
      else represents f' ty (spec_store (Z.of_nat i) c' cs).2.
Proof.
  intros Hrep Hi Hok' Hs'. destruct (represents_lookup _ _ _ _ Hrep Hi) as (c&Hc&Hokc).
  destruct Hrep as (Hty&Hl&Hok&L&Hco&Hfl&->).
  pose proof (crit_ok_str _ _ _ Hok' Hs') as Hcs'.
  destruct (set_string_build ty cs L i c Hco Hfl Hl Hc (λ t, crit_ok_str _ _ _ Hokc) s' Hcs')
    as (L0&Hco0&Hni&Hfl0&Heq).
  unfold spec_store. rewrite Nat2Z.id, (alter_as_insert _ _ _ _ Hc), Hs'. cbn [default from_option].
  rewrite Heq. destruct (decide (s' = [])) as [->|Hne].
  - rewrite !bool_decide_true by done. cbn [orb]. eexists _, _. split; [done|]. split; [done|].
    simpl. eexists. split; [apply half_set_match; rewrite length_insert; lia|].
    apply finish_plain; auto. rewrite (field_of_str _ _ _ _ Hs'). by rewrite lay_off_notin.
  - rewrite !(bool_decide_false (s' = [])) by done. cbn [orb].
    destruct (decide (space (<[i:=clear_str c]> cs) + length s' + 2 ≤ sizeof_achStrTab)%nat) as [Hf|Hf].
    + rewrite !bool_decide_true by done. eexists _, _. split; [done|]. split; [done|]. simpl.
      eexists. split; [apply half_set_match; rewrite length_insert; lia|].
      by apply finish_string.
    + rewrite !bool_decide_false by done. eexists _, _. split; [done|]. split; [done|]. simpl.
      split; [done|]. split; [by rewrite length_insert|].
      split; [apply crit_ok_insert; [done|by apply crit_ok_clear]|]. eauto.
Qed.

Lemma store_spec f ty cs i c' s' :
  represents f ty cs → (i < 11)%nat → crit_ok i c' → crit_str c' = Some s' →
  ∃ f', then_set (usbfilterSetString f (Z.of_nat i) (Some s'))
          (λ f, set_match f (Z.of_nat i) (crit_match c'))
        = Some ((spec_store (Z.of_nat i) c' cs).1, f')
        ∧ represents f' ty (spec_store (Z.of_nat i) c' cs).2.
Proof.
  intros Hrep Hi Hok Hs. destruct (set_string_spec f ty cs i c' s') as (rc&f'&E&Hrc&H); [done..|].
  unfold then_set. rewrite E, <- Hrc. cbn [mbind option_bind]. destruct (RT_SUCCESS rc).
  - destruct H as (f''&->&?). eexists. done.
  - eexists. done.
Qed.

(** The setters that store no string. *)
Lemma plain_spec f ty cs i c' g :
  represents f ty cs → (i < 11)%nat → crit_ok i c' → crit_str c' = None →
  (∀ cs0 L0 m v, length cs0 = 11%nat →
     g (half ty cs0 L0 i m v) = Some (half ty cs0 L0 i (crit_match c') (fld_u16Value (field_of [] i c')))) →
  ∃ f', then_set (usbfilterDeleteAnyStringValue f (Z.of_nat i)) g = Some (VINF_SUCCESS, f')
        ∧ represents f' ty (<[i := c']> cs).
Proof.
  intros Hrep Hi Hok' Hs' Hg. destruct (represents_lookup _ _ _ _ Hrep Hi) as (c&Hc&Hokc).
  destruct Hrep as (Hty&Hl&Hok&L&Hco&Hfl&->).
  destruct (delete_build ty cs L i c Hco Hfl Hl Hc (λ t, crit_ok_str _ _ _ Hokc))
    as (L0&v&Hco0&Hni&Hfl0&Heq).
  unfold then_set. rewrite Heq. cbn [mbind option_bind].
  change (RT_SUCCESS VINF_SUCCESS) with true. cbn iota.
  rewrite Hg by (by rewrite length_insert). cbn [mbind option_bind]. eexists. split; [done|].
  apply finish_plain; auto. by destruct c'.
Qed.

Lemma numeric_field i : USBFilterIsNumericField i = true → 0 ≤ i < 8.
Proof.
  unfold USBFilterIsNumericField. intros H%bool_decide_eq_true.
  rewrite !elem_of_cons, elem_of_nil in H.
  unfold USBFILTERIDX_VENDOR_ID, USBFILTERIDX_PRODUCT_ID, USBFILTERIDX_DEVICE,
    USBFILTERIDX_DEVICE_CLASS, USBFILTERIDX_DEVICE_SUB_CLASS, USBFILTERIDX_DEVICE_PROTOCOL,
    USBFILTERIDX_BUS, USBFILTERIDX_PORT in H. lia.
Qed.

Lemma string_field i : USBFilterIsStringField i = true → 8 ≤ i < 11.
Proof.
  unfold USBFilterIsStringField. intros H%bool_decide_eq_true.
  rewrite !elem_of_cons, elem_of_nil in H.
  unfold USBFILTERIDX_MANUFACTURER_STR, USBFILTERIDX_PRODUCT_STR,
    USBFILTERIDX_SERIAL_NUMBER_STR in H. lia.
Qed.

(** The method for a given presence, in the words of the source. *)
Lemma crit_must_match c p :
  c ≠ CrIgnore → must_be_present (crit_match c) p = inl (crit_match (crit_must c p)).
Proof. intros H. by destruct c as [| |? []|? []|? []|? []], p. Qed.

Lemma must_spec f ty cs i p :
  represents f ty cs → 0 ≤ i < 2 ^ 32 →
  ∃ f', USBFilterSetMustBePresent f i p = Some ((spec_op (OpMust i p) ty cs).1.1, f')
        ∧ represents f' (spec_op (OpMust i p) ty cs).1.2 (spec_op (OpMust i p) ty cs).2.
Proof.
  intros Hrep Hi. unfold USBFilterSetMustBePresent. cbn [spec_op].
  pose proof Hrep as (Hty&Hl&Hok&L&Hco&Hfl&Hf).
  assert (Hm : flt_u32Magic f = USBFILTER_MAGIC) by (by rewrite Hf). rewrite Hm.
  change (negb (USBFILTER_MAGIC =? USBFILTER_MAGIC)) with false. cbn iota.
  unfold idx_ok. rewrite u32_small by done. destruct (Z.ltb_spec i USBFILTERIDX_END) as [Hlt|Hge].
  2: { eexists. split; [done|]. done. }
  cbn [negb]. unfold USBFILTERIDX_END in Hlt.
  rewrite <- (Z2Nat.id i) by lia. set (k := Z.to_nat i). rewrite Nat2Z.id.
  destruct (represents_lookup _ _ _ k Hrep) as (c&Hc&Hokc); [unfold k; lia|].
  assert (Hfld : field f (Z.of_nat k) = Some (field_of L k c)) by (by rewrite Hf, field_build, Hc).
  rewrite Hfld. cbn [mbind option_bind]. rewrite Hc.
  change (fld_enmMatch (field_of L k c)) with (crit_match c).
  destruct (decide (c = CrIgnore)) as [->|Hne].
  - rewrite bool_decide_true by done. eexists. split; [done|]. done.
  - rewrite bool_decide_false by (by intros [= ->]). rewrite (crit_must_match c p Hne).
    assert (Hk : (k < length cs)%nat) by (by eapply lookup_lt_Some).
    rewrite Hf, (half_start ty cs L k Hk c Hc), half_set_match by done. cbn [mbind option_bind].
    eexists. split; [done|]. cbn [fst snd]. rewrite (alter_as_insert _ _ _ _ Hc).
    split; [done|]. split; [by rewrite length_insert|]. split.
    { apply crit_ok_insert; [done|]. clear -Hokc. destruct c as [| |? []|? []|? []|? []], p; done. }
    exists L. split.
    + destruct (crit_str c) as [[|x s]|] eqn:E.
      * apply coherent_same; [done|eapply coherent_notin; eauto|done|].
        right. by destruct c as [| |? []|? []|? []|? []], p.
      * destruct Hco as [Hnd Hin]. split; [done|]. intros j t. rewrite Hin.
        destruct (decide (j = k)) as [->|Hj]; [|by rewrite list_lookup_insert_ne].
        rewrite list_lookup_insert_eq, Hc by done.
        assert (crit_str (crit_must c p) = crit_str c) as Heq
          by (by destruct c as [| |? []|? []|? []|? []], p).
        split; intros (?&c'&[= <-]&?); (split; [done|]); eexists; (split; [done|]); congruence.
      * apply coherent_same; [done|eapply coherent_notin; eauto|done|].
        left. by destruct c as [| |? []|? []|? []|? []], p.
    + split; [done|]. rewrite (half_done ty cs L k Hk (crit_must c p)); [done|].
      by destruct c as [| |? []|? []|? []|? []], p.
Qed.

Lemma set_op_refines f ty cs op :
  represents f ty cs → flt_op_ok op →
  ∃ f', flt_run_op op f = Some ((spec_op op ty cs).1.1, f')
        ∧ represents f' (spec_op op ty cs).1.2 (spec_op op ty cs).2.
Proof.
  intros Hrep Hop.
  assert (Hm : flt_u32Magic f = USBFILTER_MAGIC) by (by destruct Hrep as (_&_&_&L&_&_&->)).
  destruct op as [ty'|i|i|i n p|i s p|i s p|i s p|i p]; cbn [flt_run_op].
  - unfold USBFilterSetFilterType. rewrite Hm. cbn [spec_op].
    change (negb (USBFILTER_MAGIC =? USBFILTER_MAGIC)) with false. cbn iota.
    destruct (type_ok ty') eqn:E; cbn [negb]; eexists; (split; [done|]); [|done].
    destruct Hrep as (_&?&?&L&?&?&->). split_and!; [done..|]. by exists L.
  - simpl in Hop. unfold USBFILTERIDX_END in Hop. cbn [spec_op].
    rewrite <- (Z2Nat.id i) by lia. rewrite Nat2Z.id.
    apply (plain_spec f ty cs _ CrIgnore); [done|lia|done|done|].
    intros cs0 L0 m v Hl. rewrite half_set_match by lia. cbn [mbind option_bind].
    by rewrite half_set_value by lia.
  - simpl in Hop. unfold USBFILTERIDX_END in Hop. cbn [spec_op].
    rewrite <- (Z2Nat.id i) by lia. rewrite Nat2Z.id.
    apply (plain_spec f ty cs _ CrPresent); [done|lia|done|done|].
    intros cs0 L0 m v Hl. rewrite half_set_match by lia. cbn [mbind option_bind].
    by rewrite half_set_value by lia.
  - simpl in Hop. cbn [spec_op]. unfold USBFilterSetNumExact.
    destruct (USBFilterIsNumericField i) eqn:E; [|by eexists].
    apply numeric_field in E. rewrite <- (Z2Nat.id i) by lia. rewrite Nat2Z.id.
    apply (plain_spec f ty cs _ (CrNum n p)); [done|lia|simpl; lia|done|].
    intros cs0 L0 m v Hl. rewrite half_set_value by lia. cbn [mbind option_bind].
    by rewrite half_set_match by lia.
  - simpl in Hop. cbn [spec_op]. unfold USBFilterSetNumExpression.
    destruct (USBFilterIsNumericField i) eqn:E; [|by eexists].
    apply numeric_field in E. cbn [mbind option_bind].
    assert (Hs : is_cstr (skip_while is_separator s)) by auto.
    destruct (validate_num_expression_spec _ Hs) as (rc&Hrc&Hst&_).
    rewrite Hrc. cbn [mbind option_bind from_option id].
    destruct (RT_SUCCESS rc) eqn:Hok; [|by eexists].
    assert (rc = VINF_SUCCESS) as -> by (by destruct Hst as [?|[->| ->]]).
    rewrite <- (Z2Nat.id i) by lia.
    destruct (set_string_spec f ty cs (Z.to_nat i) (CrNumExpr (skip_while is_separator s) p)
                (skip_while is_separator s)) as (rc&f'&Heq&Hrc'&H);
      [done|lia|split_and!; [lia|done|done]|done|].
    rewrite Heq. cbn [mbind option_bind].
    destruct (spec_store _ _ _) as [rc0 cs'] eqn:Esp. cbn [fst snd] in *. subst rc0.
    destruct (RT_SUCCESS rc) eqn:Hok'.
    + destruct H as (f''&Hset&H). simpl in Hset. rewrite Hset. cbn [mbind option_bind]. eauto.
    + destruct (Z.eqb_spec rc VERR_NO_DIGITS) as [->|]; [|eauto].
      unfold spec_store in Esp. destruct (_ || _); done.
  - simpl in Hop. cbn [spec_op]. unfold USBFilterSetStringExact.
    destruct (USBFilterIsStringField i) eqn:E; [|by eexists].
    apply string_field in E. rewrite <- (Z2Nat.id i) by lia.
    destruct (store_spec f ty cs (Z.to_nat i) (CrStr s p) s) as (f'&Heq&H);
      [done|lia|simpl; split; [lia|done]|done|].
    simpl in Heq. rewrite Heq. destruct (spec_store _ _ _) as [rc0 cs'] eqn:Esp. eauto.
  - simpl in Hop. cbn [spec_op]. unfold USBFilterSetStringPattern.
    destruct (USBFilterIsStringField i) eqn:E; [|by eexists].
    apply string_field in E. rewrite <- (Z2Nat.id i) by lia.
    change (RT_SUCCESS (usbfilterValidateStringPattern _)) with true. cbn iota.
    destruct (store_spec f ty cs (Z.to_nat i) (CrPattern s p) s) as (f'&Heq&H);
      [done|lia|simpl; split; [lia|done]|done|].
    simpl in Heq. rewrite Heq. destruct (spec_store _ _ _) as [rc0 cs'] eqn:Esp. eauto.
  - by apply must_spec.
Qed.

(** * Queries *)

Lemma init_represents ty : type_ok ty = true → represents (USBFilterInit ty) ty (replicate 11 CrIgnore).
Proof.
  intros H. unfold USBFilterInit. rewrite H. split; [done|]. split; [done|]. split.
  - intros i c Hc. apply lookup_replicate in Hc as [-> _]. done.
  - exists []. split; [|split; [simpl; lia|done]]. split; [constructor|].
    intros i s. split; [by intros ?%not_elem_of_nil|]. intros (_&c&Hc&Hs).
    by apply lookup_replicate in Hc as [-> _].
Qed.

Lemma idx_ok_nat i : (i < 11)%nat → idx_ok (Z.of_nat i) = true.
Proof.
  intros H. unfold idx_ok, USBFILTERIDX_END. rewrite u32_small by lia. apply Z.ltb_lt. lia.
Qed.

Section queries.
Context (f : USBFILTER) (ty : Z) (cs : list criterion).
Hypothesis Hrep : represents f ty cs.

Lemma rep_magic : flt_u32Magic f = USBFILTER_MAGIC.
Proof. by destruct Hrep as (_&_&_&L&_&_&->). Qed.

Lemma rep_type : flt_enmType f = ty.
Proof. by destruct Hrep as (_&_&_&L&_&_&->). Qed.

Lemma rep_lt i c : cs !! i = Some c → (i < 11)%nat.
Proof. intros H. destruct Hrep as (_&Hl&_). rewrite <- Hl. by eapply lookup_lt_Some. Qed.

Lemma rep_field i c :
  cs !! i = Some c →
  ∃ fld, field f (Z.of_nat i) = Some fld ∧ fld_enmMatch fld = crit_match c
         ∧ (∀ n p, c = CrNum n p → fld_u16Value fld = n)
         ∧ (∀ s, crit_str c = Some s → 0 ≤ fld_u16Value fld ≤ 255
                 ∧ tab_str (flt_achStrTab f) (fld_u16Value fld) = Some s).
Proof.
  intros Hc. destruct Hrep as (_&_&Hok&L&Hco&Hfl&->). rewrite field_build, Hc.
  eexists. split; [done|]. split; [done|]. split; [by intros n p ->|]. intros s Hs.
  pose proof (crit_ok_str _ _ _ (Hok i c Hc) Hs) as Hcs.
  rewrite (field_of_str _ _ _ _ Hs). cbn [fld_u16Value flt_achStrTab build].
  destruct s as [|x s].
  - assert (Hi : i ∉ L.*1) by (eapply coherent_notin; eauto).
    rewrite lay_off_notin by done. split; [lia|done].
  - assert (Hin : (i, x :: s) ∈ L) by (apply Hco; eauto).
    assert (Hi : i ∈ L.*1) by (apply list_elem_of_fmap; by exists (i, x :: s)).
    pose proof (lay_off_bounds 1 L i ltac:(lia) Hi). split; [lia|].
    apply lay_off_split in Hin as (L1&L2&->&_&_&->); [|apply Hco]. by apply str_at_layout.
Qed.

Lemma rep_method i c : cs !! i = Some c → USBFilterGetMatchingMethod f (Z.of_nat i) = crit_match c.
Proof.
  intros Hc. unfold USBFilterGetMatchingMethod. rewrite rep_magic, Z.eqb_refl.
  rewrite idx_ok_nat by (by eapply rep_lt). destruct (rep_field i c Hc) as (fld&->&->&_). done.
Qed.

Lemma rep_get_string i c :
  cs !! i = Some c →
  match crit_str c with
  | Some s => ∃ off, usbfilterGetString f (Z.of_nat i) = Some off ∧ 0 ≤ off ≤ 255
                     ∧ tab_str (flt_achStrTab f) off = Some s
  | None => usbfilterGetString f (Z.of_nat i) = None
  end.
Proof.
  intros Hc. unfold usbfilterGetString. rewrite idx_ok_nat by (by eapply rep_lt).
  destruct (rep_field i c Hc) as (fld&->&->&_&Hs). rewrite using_string_crit.
  destruct (crit_str c) as [s|].
  - rewrite bool_decide_true by done. destruct (Hs s eq_refl). eauto.
  - by rewrite bool_decide_false by (by intros []).
Qed.

Lemma rep_get_str i c : cs !! i = Some c → get_str f (Z.of_nat i) = crit_str c.
Proof.
  intros Hc. unfold get_str. pose proof (rep_get_string i c Hc) as H.
  destruct (crit_str c) as [s|].
  - destruct H as (off&->&_&H). done.
  - by rewrite H.
Qed.

Lemma rep_get_num i c :
  cs !! i = Some c →
  USBFilterGetNum f (Z.of_nat i) = match c with CrNum n _ => n | _ => -1 end.
Proof.
  intros Hc. unfold USBFilterGetNum, usbfilterGetNum.
  rewrite rep_magic, Z.eqb_refl, idx_ok_nat by (by eapply rep_lt).
  destruct (rep_field i c Hc) as (fld&->&->&Hn&_).
  destruct c as [| |n []|? []|? []|? []]; try done; simpl; by eapply Hn.
Qed.

Lemma rep_query_string i c n :
  cs !! i = Some c → 0 ≤ n →
  USBFilterQueryString f (Z.of_nat i) n = Some
    match crit_str c with
    | None => (VERR_INVALID_PARAMETER, [])
    | Some s =>
        if Z.of_nat (length s) <? n then (VINF_SUCCESS, s ++ [0])
        else (VERR_BUFFER_OVERFLOW, if n =? 0 then [] else take (Z.to_nat (n - 1)) s ++ [0])
    end.
Proof.
  intros Hc Hn. unfold USBFilterQueryString. rewrite rep_magic.
  change (negb (USBFILTER_MAGIC =? USBFILTER_MAGIC)) with false. cbn iota.
  pose proof (rep_get_string i c Hc) as H. destruct (crit_str c) as [s|].
  - destruct H as (off&->&_&->). cbn [mbind option_bind]. destruct (_ <? _); [done|].
    by destruct (n =? 0).
  - by rewrite H.
Qed.

Lemma rep_string_len i c :
  cs !! i = Some c →
  USBFilterGetStringLen f (Z.of_nat i)
  = Some (from_option (λ s, Z.of_nat (length s)) (-1) (crit_str c)).
Proof.
  intros Hc. unfold USBFilterGetStringLen. rewrite rep_magic, Z.eqb_refl.
  pose proof (rep_get_string i c Hc) as H. destruct (crit_str c) as [s|].
  - by destruct H as (off&->&_&->).
  - by rewrite H.
Qed.

Lemma rep_query_num i c :
  cs !! i = Some c →
  USBFilterQueryNum f (Z.of_nat i) =
  match c with CrNum n _ => (VINF_SUCCESS, Some n) | _ => (VERR_INVALID_PARAMETER, None) end.
Proof.
  intros Hc. pose proof (rep_get_num i c Hc) as H. unfold USBFilterGetNum in H.
  unfold USBFilterQueryNum. rewrite rep_magic in *. rewrite Z.eqb_refl in *. cbn [negb].
  rewrite H. destruct Hrep as (_&_&Hok&_). specialize (Hok i c Hc).
  destruct c; try done. simpl in Hok. unfold UINT16_MAX in Hok.
  rewrite (proj2 (Z.eqb_neq _ _)) by lia. rewrite u16_small by lia. done.
Qed.

(** Whether a criterion asks for anything particular. *)
Definition crit_substantial (c : criterion) : bool :=
  match c with
  | CrIgnore | CrPresent => false
  | CrNum _ _ | CrStr _ _ => true
  | CrNumExpr s _ => negb (bool_decide (skip_while is_separator s = []))
  | CrPattern s _ => negb (bool_decide (skip_while is_wild s = []))
  end.

Lemma rep_substantial : USBFilterHasAnySubstatialCriteria f = Some (existsb crit_substantial cs).
Proof.
  unfold USBFilterHasAnySubstatialCriteria. rewrite rep_magic, Z.eqb_refl.
  assert (Hgen : ∀ n flds ds, flds = drop n (flt_aFields f) → ds = drop n cs →
            substantial_loop f (Z.of_nat n) flds = Some (existsb crit_substantial ds)).
  { intros n flds ds. revert n flds. induction ds as [|c ds IH]; intros n flds Hfl Hds.
    - assert (flds = []) as ->; [|done]. destruct Hrep as (_&Hl&_&L&_&_&Hf).
      subst flds. apply drop_ge. rewrite Hf. cbn. rewrite length_imap.
      assert (length (drop n cs) = 0%nat) by (by rewrite <- Hds). rewrite length_drop in *. lia.
    - assert (Hc : cs !! n = Some c).
      { rewrite <- (Nat.add_0_r n), <- lookup_drop, <- Hds. done. }
      destruct (rep_field n c Hc) as (fld&Hfld&Hm&_&_).
      assert (Hat : flt_aFields f !! n = Some fld).
      { unfold field in Hfld. rewrite (proj2 (Z.ltb_ge _ _)) in Hfld by lia.
        by rewrite Nat2Z.id in Hfld. }
      rewrite (drop_S _ fld n Hat) in Hfl. rewrite (drop_S _ c n Hc) in Hds.
      injection Hds as Hds. subst flds. cbn [substantial_loop existsb].
      replace (Z.of_nat n + 1) with (Z.of_nat (S n)) by lia.
      rewrite (IH (S n) _ eq_refl Hds).
      assert (Hs : substantial f (Z.of_nat n) fld = Some (crit_substantial c)).
      { unfold substantial. rewrite Hm. pose proof (rep_get_string n c Hc) as Hg.
        destruct Hrep as (_&_&Hok&_). specialize (Hok n c Hc).
        destruct c as [| |? []|s []|? []|s []]; try done; simpl in Hg, Hok;
          destruct Hg as (off&Hg&_&Hat'); simpl; rewrite Hg, Hat'; cbn [mbind option_bind];
          simpl; rewrite chr_0_eqb by (apply skip_while_cstr; tauto); done. }
      rewrite Hs. cbn [mbind option_bind]. by destruct (crit_substantial c). }
  by apply (Hgen 0%nat).
Qed.
End queries.

(** * The theorems *)

(** Any number of operations; the statuses they return. *)
Fixpoint run_ops (ops : list flt_op) (f : USBFILTER) : option (list Z * USBFILTER) :=
  match ops with
  | [] => Some ([], f)
  | op :: ops' =>
      '(rc, f) ← flt_run_op op f;
      '(rcs, f) ← run_ops ops' f;
      Some (rc :: rcs, f)
  end.

Fixpoint spec_ops (ops : list flt_op) (ty : Z) (cs : list criterion) :
    list Z * Z * list criterion :=
  match ops with
  | [] => ([], ty, cs)
  | op :: ops' =>
      let '(rc, ty, cs) := spec_op op ty cs in
      let '(rcs, ty, cs) := spec_ops ops' ty cs in
      (rc :: rcs, ty, cs)
  end.

(** C21. On a filter that has been initialised, any sequence of setters does, and returns,
    what the specification in terms of criteria says: each field keeps what it was last set
    to, strings move in the table without changing, and a string there is no room for is
    refused.  No access leaves the table or the fields. *)
Theorem filter_setters_refine ty ops :
  type_ok ty = true → Forall flt_op_ok ops →
  let '(rcs, ty', cs') := spec_ops ops ty (replicate 11 CrIgnore) in
  ∃ f, run_ops ops (USBFilterInit ty) = Some (rcs, f) ∧ represents f ty' cs'.
Proof.
  intros Hty Hops. pose proof (init_represents ty Hty) as Hrep. revert Hrep.
  generalize (USBFilterInit ty) as f. generalize (replicate 11 CrIgnore) as cs. clear Hty.
  revert ty. induction Hops as [|op ops Hop Hops IH]; intros ty cs f Hrep; [by exists f|].
  cbn [spec_ops run_ops].
  destruct (set_op_refines f ty cs op Hrep Hop) as (f1&E&Hrep1).
  destruct (spec_op op ty cs) as [[rc ty1] cs1]. cbn [fst snd] in *. rewrite E.
  cbn [mbind option_bind]. specialize (IH ty1 cs1 f1 Hrep1).
  destruct (spec_ops ops ty1 cs1) as [[rcs ty2] cs2]. destruct IH as (f2&->&?). by exists f2.
Qed.

(** Two strings, the first replaced by a longer one, a numeric expression, and a string that does
    not fit. *)
Definition demo_ops : list flt_op :=
  [OpStr 8 (c_string "acme") true; OpPattern 9 (c_string "wid*") false;
   OpNumExpr 0 (c_string " |0x10-0x20|7") true; OpStr 8 (c_string "acme corp") true;
   OpNum 3 9 false; OpMust 9 true; OpStr 10 (replicate 240 97) true; OpIgnore 0;
   OpStr 10 (c_string "00-1") false; OpNum 9 1 true; OpNumExpr 1 (c_string "x") true].

Lemma filter_setters_refine_witness :
  Forall flt_op_ok demo_ops
  ∧ ∃ f, run_ops demo_ops (USBFilterInit USBFILTERTYPE_CAPTURE)
         = Some ([0; 0; 0; 0; 0; 0; -41; 0; 0; -2; -56], f)
         ∧ represents f USBFILTERTYPE_CAPTURE
             [CrIgnore; CrIgnore; CrIgnore; CrNum 9 false; CrIgnore; CrIgnore; CrIgnore; CrIgnore;
              CrStr (c_string "acme corp") true; CrPattern (c_string "wid*") true;
              CrStr (c_string "00-1") false].
Proof.
  assert (H : Forall flt_op_ok demo_ops).
  { repeat constructor; vm_compute; congruence. }
  split; [done|].
  pose proof (filter_setters_refine USBFILTERTYPE_CAPTURE demo_ops eq_refl H) as Hr.
  assert (E : spec_ops demo_ops USBFILTERTYPE_CAPTURE (replicate 11 CrIgnore)
          = ([0; 0; 0; 0; 0; 0; -41; 0; 0; -2; -56], USBFILTERTYPE_CAPTURE,
             [CrIgnore; CrIgnore; CrIgnore; CrNum 9 false; CrIgnore; CrIgnore; CrIgnore; CrIgnore;
              CrStr (c_string "acme corp") true; CrPattern (c_string "wid*") true;
              CrStr (c_string "00-1") false])) by (by vm_compute).
  rewrite E in Hr. exact Hr.
Defined.

(** A string that was set, exactly or as a pattern, is what the queries return, whole or
    cut to the size of the buffer, with its method; and every other field has the method,
    the number and the string it had, wherever in the table that is now.  If there is no room
    for the string, the field has its old method with the empty string, or what it had if that
    was no string; all other fields are as they were. *)
Lemma filter_string_roundtrip f ty cs i s p pat f' rc :
  represents f ty cs → (8 ≤ i < 11)%nat → is_cstr s →
  (if pat : bool then USBFilterSetStringPattern f (Z.of_nat i) (Some s) p
   else USBFilterSetStringExact f (Z.of_nat i) (Some s) p) = Some (rc, f') →
  (rc = VINF_SUCCESS →
     USBFilterGetMatchingMethod f' (Z.of_nat i)
     = (if pat then if p then USBFILTERMATCH_STR_PATTERN else USBFILTERMATCH_STR_PATTERN_NP
        else if p then USBFILTERMATCH_STR_EXACT else USBFILTERMATCH_STR_EXACT_NP)
     ∧ USBFilterGetStringLen f' (Z.of_nat i) = Some (Z.of_nat (length s))
     ∧ ∀ n, 0 ≤ n → USBFilterQueryString f' (Z.of_nat i) n =
         Some (if Z.of_nat (length s) <? n then (VINF_SUCCESS, s ++ [0])
               else (VERR_BUFFER_OVERFLOW, if n =? 0 then [] else take (Z.to_nat (n - 1)) s ++ [0])))
  ∧ (rc ≠ VINF_SUCCESS →
       rc = VERR_BUFFER_OVERFLOW
       ∧ USBFilterGetMatchingMethod f' (Z.of_nat i) = USBFilterGetMatchingMethod f (Z.of_nat i)
       ∧ get_str f' (Z.of_nat i) = const [] <$> get_str f (Z.of_nat i))
  ∧ (∀ j : nat, (j < 11)%nat → j ≠ i →
       USBFilterGetMatchingMethod f' (Z.of_nat j) = USBFilterGetMatchingMethod f (Z.of_nat j)
       ∧ USBFilterGetNum f' (Z.of_nat j) = USBFilterGetNum f (Z.of_nat j)
       ∧ get_str f' (Z.of_nat j) = get_str f (Z.of_nat j)).
Proof.
  intros Hrep Hi Hs Hset. set (c' := if pat then CrPattern s p else CrStr s p).
  assert (Hsp : ∃ f1, (if pat then USBFilterSetStringPattern f (Z.of_nat i) (Some s) p
                       else USBFilterSetStringExact f (Z.of_nat i) (Some s) p)
                      = Some ((spec_store (Z.of_nat i) c' cs).1, f1)
                      ∧ represents f1 ty (spec_store (Z.of_nat i) c' cs).2).
  { assert (Hsf : USBFilterIsStringField (Z.of_nat i) = true).
    { assert (i = 8 ∨ i = 9 ∨ i = 10)%nat as [->|[->| ->]] by lia; by vm_compute. }
    subst c'. destruct pat.
    - unfold USBFilterSetStringPattern. rewrite Hsf.
      change (RT_SUCCESS (usbfilterValidateStringPattern _)) with true. cbn iota.
      apply (store_spec f ty cs i (CrPattern s p) s Hrep); [lia|simpl; split; [lia|done]|done].
    - unfold USBFilterSetStringExact. rewrite Hsf.
      apply (store_spec f ty cs i (CrStr s p) s Hrep); [lia|simpl; split; [lia|done]|done]. }
  destruct Hsp as (f1&E&Hrep'). rewrite E in Hset. injection Hset as <- <-.
  destruct (represents_lookup _ _ _ i Hrep) as (c&Hc&_); [lia|].
  assert (Hlt : (i < length cs)%nat) by (by eapply lookup_lt_Some).
  assert (Hstr : crit_str c' = Some s) by (by destruct pat).
  unfold spec_store in *. rewrite Nat2Z.id in *. rewrite (alter_as_insert _ _ _ _ Hc) in *.
  assert (Hother : ∀ d j, (j < 11)%nat → j ≠ i → represents f1 ty (<[i := d]> cs) →
       USBFilterGetMatchingMethod f1 (Z.of_nat j) = USBFilterGetMatchingMethod f (Z.of_nat j)
       ∧ USBFilterGetNum f1 (Z.of_nat j) = USBFilterGetNum f (Z.of_nat j)
       ∧ get_str f1 (Z.of_nat j) = get_str f (Z.of_nat j)).
  { intros d j Hj Hne Hr. destruct (represents_lookup _ _ _ j Hrep Hj) as (e&He&_).
    assert (He' : <[i := d]> cs !! j = Some e) by (by rewrite list_lookup_insert_ne).
    rewrite (rep_method _ _ _ Hrep _ _ He), (rep_method _ _ _ Hr _ _ He').
    rewrite (rep_get_num _ _ _ Hrep _ _ He), (rep_get_num _ _ _ Hr _ _ He').
    by rewrite (rep_get_str _ _ _ Hrep _ _ He), (rep_get_str _ _ _ Hr _ _ He'). }
  destruct (_ || _); cbn [fst snd] in *.
  - assert (Hc' : <[i := c']> cs !! i = Some c') by (by apply list_lookup_insert_eq).
    split; [intros _|split; [done|eauto]].
    rewrite (rep_method _ _ _ Hrep' _ _ Hc'), (rep_string_len _ _ _ Hrep' _ _ Hc'), Hstr.
    split; [by destruct pat|]. split; [done|]. intros n Hn.
    by rewrite (rep_query_string _ _ _ Hrep' _ _ _ Hc' Hn), Hstr.
  - assert (Hc' : <[i := clear_str c]> cs !! i = Some (clear_str c)) by (by apply list_lookup_insert_eq).
    split; [done|]. split; [intros _|eauto]. split; [done|].
    rewrite (rep_method _ _ _ Hrep' _ _ Hc'), (rep_method _ _ _ Hrep _ _ Hc).
    rewrite (rep_get_str _ _ _ Hrep' _ _ Hc'), (rep_get_str _ _ _ Hrep _ _ Hc).
    split; [apply crit_match_clear|apply crit_str_clear].
Qed.

(** The empty filter, after some operations: a string is replaced, and one is too long. *)
Definition demo_filter : USBFILTER :=
  from_option snd (USBFilterInit USBFILTERTYPE_CAPTURE)
    (run_ops demo_ops (USBFilterInit USBFILTERTYPE_CAPTURE)).

Lemma demo_filter_represents :
  represents demo_filter USBFILTERTYPE_CAPTURE
    [CrIgnore; CrIgnore; CrIgnore; CrNum 9 false; CrIgnore; CrIgnore; CrIgnore; CrIgnore;
     CrStr (c_string "acme corp") true; CrPattern (c_string "wid*") true;
     CrStr (c_string "00-1") false].
Proof.
  split; [done|]. split; [done|]. split.
  - intros i c Hc.
    do 11 (destruct i as [|i];
      [injection Hc as <-; simpl;
       first [done | split; [lia|first [by repeat constructor; vm_compute; congruence | done]]]|]).
    done.
  - exists [(9%nat, c_string "wid*"); (8%nat, c_string "acme corp"); (10%nat, c_string "00-1")].
    split; [|split; [vm_compute; lia|by vm_compute]]. split.
    + apply (bool_decide_unpack (NoDup [9; 8; 10]%nat)). by vm_compute.
    + intros i s. rewrite !elem_of_cons, elem_of_nil. split.
      * intros [[= -> ->]|[[= -> ->]|[[= -> ->]|[]]]]; (split; [done|]); eexists; by split.
      * intros (Hne&c&Hc&Hs). do 11 (destruct i as [|i]; [injection Hc as <-; simplify_eq/=; tauto|]).
        done.
Qed.

Lemma filter_string_roundtrip_witness :
  ∃ f', USBFilterSetStringExact demo_filter 9 (Some (c_string "gadget")) false
        = Some (VINF_SUCCESS, f')
  ∧ USBFilterQueryString f' 9 4 = Some (VERR_BUFFER_OVERFLOW, c_string "gad" ++ [0])
  ∧ get_str f' 8 = get_str demo_filter 8
  ∧ get_str demo_filter 8 = Some (c_string "acme corp").
Proof.
  destruct (USBFilterSetStringExact demo_filter 9 (Some (c_string "gadget")) false)
    as [[rc f']|] eqn:E; [|by vm_compute in E].
  assert (Hrc : rc = VINF_SUCCESS).
  { assert (H : fst <$> USBFilterSetStringExact demo_filter 9 (Some (c_string "gadget")) false
                = Some VINF_SUCCESS) by (by vm_compute). rewrite E in H. by injection H. }
  assert (Hs : is_cstr (c_string "gadget")) by (repeat constructor; vm_compute; congruence).
  destruct (filter_string_roundtrip demo_filter _ _ 9 (c_string "gadget") false false f' rc
              demo_filter_represents ltac:(lia) Hs E) as (Hok&_&Ho).
  exists f'. split; [by rewrite Hrc|]. destruct (Hok Hrc) as (_&_&Hq). split.
  - etransitivity; [apply (Hq 4); lia|by vm_compute].
  - destruct (Ho 8%nat ltac:(lia) ltac:(lia)) as (_&_&Hg). split; [exact Hg|by vm_compute].
Defined.

(** Filters with the same criteria are not always identical: the order in which their strings
    were set shows in the table. *)
Lemma identical_order_dependent :
  let f1 := snd <$> run_ops [OpStr 8 [97] true; OpStr 9 [98] true] (USBFilterInit 4) in
  let f2 := snd <$> run_ops [OpStr 9 [98] true; OpStr 8 [97] true] (USBFilterInit 4) in
  (f1 ≫= λ a, USBFilterIsIdentical a <$> f2) = Some false
  ∧ (spec_ops [OpStr 8 [97] true; OpStr 9 [98] true] 4 (replicate 11 CrIgnore)).2
    = (spec_ops [OpStr 9 [98] true; OpStr 8 [97] true] 4 (replicate 11 CrIgnore)).2.
Proof. by vm_compute. Qed.

(** An expression without digits is refused with a status its documentation does not have. *)
Lemma bad_expression_status :
  fst <$> USBFilterSetNumExpression (USBFilterInit 4) 0 (Some (c_string "x")) true
  = Some VERR_NO_DIGITS.
Proof. by vm_compute. Qed.

(** A field index that is out of range is used before it is checked. *)
Lemma ignore_bad_index f :
  length (flt_aFields f) = 11%nat → USBFilterSetIgnore f USBFILTERIDX_END = None.
Proof.
  intros H. unfold USBFilterSetIgnore, usbfilterDeleteAnyStringValue, field, USBFILTERIDX_END.
  simpl. rewrite lookup_ge_None_2; [done|]. rewrite H. lia.
Qed.
