(* ===== verification/UsbMatch.v ===== *)
(** Validation of USB filters, and what they match (HostDrivers/VBoxUSB/USBFilter.cpp,
    [USBFilterValidate] and [USBFilterMatch] to [USBFilterMatchDevice]), with the filter that is
    made of a device (Main, [initFilterFromDevice]).

    A filter is matched with a device in two forms: the device as a filter, in the drivers, and
    as the structure of the host, in Main.  Both are compared with [accepts], which says of one
    field whether what it asks for is what the device has. *)

From S2P Require Import Prelude UsbExpr UsbFilter.
Local Open Scope Z_scope.

(** * Validation *)

(** Whether a field refers to the string at [off]. *)
Definition string_used (f : USBFILTER) (off : Z) : bool :=
  existsb (λ fld, USBFilterIsMethodString (fld_enmMatch fld) && (fld_u16Value fld =? off))
    (flt_aFields f).

(** The walk over the string table, from the offset [psz]: status and where it ends. *)
Fixpoint validate_strings (n : nat) (f : USBFILTER) (psz : Z) : option (Z * Z) :=
  match n with
  | O => None
  | S n =>
      if psz <? flt_offCurEnd f then
        match tab_str (flt_achStrTab f) psz with
        | None => Some (VERR_INVALID_PARAMETER, psz)
        | Some s =>
            if negb (string_used f (u16 psz)) then Some (VERR_INVALID_PARAMETER, psz)
            else validate_strings n f (psz + Z.of_nat (length s) + 1)
        end
      else Some (VINF_SUCCESS, psz)
  end.

(** [u16Value >= offCurEnd && offCurEnd] *)
Definition offset_bad (f : USBFILTER) (fld : USBFILTERFIELD) : bool :=
  (flt_offCurEnd f <=? fld_u16Value fld) && negb (flt_offCurEnd f =? 0).

Definition validate_field (f : USBFILTER) (i : Z) (fld : USBFILTERFIELD) : option Z :=
  let m := fld_enmMatch fld in
  if bool_decide (m ∈ [USBFILTERMATCH_IGNORE; USBFILTERMATCH_PRESENT]) then
    Some (if fld_u16Value fld =? 0 then VINF_SUCCESS else VERR_INVALID_PARAMETER)
  else if bool_decide (m ∈ [USBFILTERMATCH_NUM_EXACT; USBFILTERMATCH_NUM_EXACT_NP]) then
    Some (if USBFilterIsNumericField i then VINF_SUCCESS else VERR_INVALID_PARAMETER)
  else if bool_decide (m ∈ [USBFILTERMATCH_NUM_EXPRESSION; USBFILTERMATCH_NUM_EXPRESSION_NP])
  then
    if negb (USBFilterIsNumericField i) then Some VERR_INVALID_PARAMETER
    else if offset_bad f fld then Some VERR_INVALID_PARAMETER
    else
      psz ← tab_str (flt_achStrTab f) (fld_u16Value fld);
      usbfilterValidateNumExpression psz
  else if bool_decide (m ∈ [USBFILTERMATCH_STR_EXACT; USBFILTERMATCH_STR_EXACT_NP]) then
    if negb (USBFilterIsStringField i) then Some VERR_INVALID_PARAMETER
    else if offset_bad f fld then Some VERR_INVALID_PARAMETER
    else Some VINF_SUCCESS
  else if bool_decide (m ∈ [USBFILTERMATCH_STR_PATTERN; USBFILTERMATCH_STR_PATTERN_NP]) then
    if negb (USBFilterIsStringField i) then Some VERR_INVALID_PARAMETER
    else if offset_bad f fld then Some VERR_INVALID_PARAMETER
    else Some (usbfilterValidateStringPattern [])
  else Some VERR_INVALID_PARAMETER.

Fixpoint validate_fields (f : USBFILTER) (i : Z) (flds : list USBFILTERFIELD) : option Z :=
  match flds with
  | [] => Some VINF_SUCCESS
  | fld :: flds' =>
      rc ← validate_field f i fld;
      if RT_FAILURE rc then Some rc else validate_fields f (i + 1) flds'
  end.

(** A filter argument is [None] for a pointer that is not valid. *)
Definition USBFilterValidate (pFilter : option USBFILTER) : option Z :=
  match pFilter with
  | None => Some VERR_INVALID_POINTER
  | Some f =>
      if negb (flt_u32Magic f =? USBFILTER_MAGIC) then Some VERR_INVALID_MAGIC
      else if negb (type_ok (flt_enmType f)) then Some VERR_INVALID_PARAMETER
      else if Z.of_nat sizeof_achStrTab <=? flt_offCurEnd f then Some VERR_INVALID_PARAMETER
      else if negb (chr (flt_achStrTab f) =? 0) then Some VERR_INVALID_PARAMETER
      else
        '(rc, psz) ← validate_strings (S sizeof_achStrTab) f 1;
        if RT_FAILURE rc then Some rc
        else if negb (psz - 1 =? flt_offCurEnd f) then Some VERR_INVALID_PARAMETER
        else if negb (forallb (λ ch, ch =? 0) (drop (Z.to_nat psz) (flt_achStrTab f)))
        then Some VERR_INVALID_PARAMETER
        else validate_fields f 0 (flt_aFields f)
  end.

(** * Matching a device given as a filter *)

(** One field: what it adds to the rate, [None] for a mismatch; no result for a null pointer or a
    string outside of the table. *)
Definition match_field (f d : USBFILTER) (i : nat) : option (option Z) :=
  ff ← flt_aFields f !! i;
  df ← flt_aFields d !! i;
  let m := fld_enmMatch ff in
  let ignored := fld_enmMatch df =? USBFILTERMATCH_IGNORE in
  let num_eq := fld_u16Value ff =? fld_u16Value df in
  let expr_match := psz ← get_str f (Z.of_nat i);
                    usbfilterMatchNumExpression psz (fld_u16Value df) in
  let str_eq := a ← get_str f (Z.of_nat i); b ← get_str d (Z.of_nat i);
                Some (bool_decide (a = b)) in
  let pat_match := a ← get_str f (Z.of_nat i); b ← get_str d (Z.of_nat i);
                   usbfilterMatchStringPattern a b in
  if m =? USBFILTERMATCH_IGNORE then Some (Some 2)
  else if m =? USBFILTERMATCH_PRESENT then Some (if ignored then None else Some 2)
  else if m =? USBFILTERMATCH_NUM_EXACT then
    Some (if ignored || negb num_eq then None else Some 2)
  else if m =? USBFILTERMATCH_NUM_EXACT_NP then
    Some (if negb ignored && negb num_eq then None else Some 2)
  else if m =? USBFILTERMATCH_NUM_EXPRESSION then
    if ignored then Some None
    else b ← expr_match; Some (if negb b then None else Some 1)
  else if m =? USBFILTERMATCH_NUM_EXPRESSION_NP then
    if ignored then Some (Some 1)
    else b ← expr_match; Some (if negb b then None else Some 1)
  else if m =? USBFILTERMATCH_STR_EXACT then
    if ignored then Some None
    else b ← str_eq; Some (if negb b then None else Some 2)
  else if m =? USBFILTERMATCH_STR_EXACT_NP then
    if ignored then Some (Some 2)
    else b ← str_eq; Some (if negb b then None else Some 2)
  else if m =? USBFILTERMATCH_STR_PATTERN then
    if ignored then Some None
    else b ← pat_match; Some (if negb b then None else Some 1)
  else if m =? USBFILTERMATCH_STR_PATTERN_NP then
    if ignored then Some (Some 1)
    else b ← pat_match; Some (if negb b then None else Some 1)
  else Some None.

Fixpoint rate_loop (f d : USBFILTER) (idxs : list nat) (iRate : Z) : option Z :=
  match idxs with
  | [] => Some (if iRate =? 2 * 11 then 100 else iRate * 100 / (2 * 11))
  | i :: idxs' =>
      r ← match_field f d i;
      match r with
      | None => Some (-1)
      | Some k => rate_loop f d idxs' (iRate + k)
      end
  end.

Definition USBFilterMatchRated (f d : USBFILTER) : option Z := rate_loop f d (seq 0 11) 0.

Definition USBFilterMatch (f d : USBFILTER) : option bool :=
  r ← USBFilterMatchRated f d; Some (0 <? r).

(** * Matching a device of the host *)

(** The members of [USBDEVICE] that filters look at. *)
Record USBDEVICE := mkUsbDevice {
  dev_pszManufacturer : option (list Z);
  dev_pszProduct : option (list Z);
  dev_pszSerialNumber : option (list Z);
  dev_idVendor : Z;
  dev_idProduct : Z;
  dev_bcdDevice : Z;
  dev_bDeviceClass : Z;
  dev_bDeviceSubClass : Z;
  dev_bDeviceProtocol : Z;
  dev_bBus : Z;
  dev_bPort : Z
}.

Definition dev_num (pDevice : USBDEVICE) (i : nat) : Z :=
  match i with
  | 0 => dev_idVendor pDevice
  | 1 => dev_idProduct pDevice
  | 2 => dev_bcdDevice pDevice
  | 3 => dev_bDeviceClass pDevice
  | 4 => dev_bDeviceSubClass pDevice
  | 5 => dev_bDeviceProtocol pDevice
  | 6 => dev_bBus pDevice
  | 7 => dev_bPort pDevice
  | _ => UINT16_MAX
  end%nat.

Definition dev_str (pDevice : USBDEVICE) (i : nat) (dflt : option (list Z)) : option (list Z) :=
  match i with
  | 8 => dev_pszManufacturer pDevice
  | 9 => dev_pszProduct pDevice
  | 10 => dev_pszSerialNumber pDevice
  | _ => dflt
  end%nat.

(** One field; the result is whether the loop goes on. *)
Definition match_device_field (f : USBFILTER) (pDevice : USBDEVICE) (i : nat) : option bool :=
  fld ← flt_aFields f !! i;
  let m := fld_enmMatch fld in
  if m =? USBFILTERMATCH_IGNORE then Some true
  else if m =? USBFILTERMATCH_PRESENT then
    Some (bool_decide (is_Some (dev_str pDevice i (Some []))))
  else if bool_decide (m ∈ [USBFILTERMATCH_NUM_EXACT; USBFILTERMATCH_NUM_EXACT_NP]) then
    Some (fld_u16Value fld =? dev_num pDevice i)
  else if bool_decide (m ∈ [USBFILTERMATCH_NUM_EXPRESSION; USBFILTERMATCH_NUM_EXPRESSION_NP])
  then psz ← get_str f (Z.of_nat i); usbfilterMatchNumExpression psz (dev_num pDevice i)
  else
    let psz := dev_str pDevice i None in
    let str_eq b := a ← get_str f (Z.of_nat i); Some (bool_decide (a = b)) in
    let pat_match b := a ← get_str f (Z.of_nat i); usbfilterMatchStringPattern a b in
    if m =? USBFILTERMATCH_STR_EXACT then
      match psz with None => Some false | Some b => str_eq b end
    else if m =? USBFILTERMATCH_STR_EXACT_NP then
      match psz with None => Some true | Some b => str_eq b end
    else if m =? USBFILTERMATCH_STR_PATTERN then
      match psz with None => Some false | Some b => pat_match b end
    else if m =? USBFILTERMATCH_STR_PATTERN_NP then
      match psz with None => Some true | Some b => pat_match b end
    else Some false.

Fixpoint device_loop (f : USBFILTER) (pDevice : USBDEVICE) (idxs : list nat) : option bool :=
  match idxs with
  | [] => Some true
  | i :: idxs' =>
      b ← match_device_field f pDevice i;
      if b : bool then device_loop f pDevice idxs' else Some false
  end.

Definition USBFilterMatchDevice (f : USBFILTER) (pDevice : USBDEVICE) : option bool :=
  device_loop f pDevice (seq 0 11).

(** ** The filter of a device *)

(** The statuses are only asserted. *)
Definition set_num (i n : Z) (f : USBFILTER) : option USBFILTER :=
  snd <$> USBFilterSetNumExact f i n true.
Definition set_str (i : Z) (s : option (list Z)) (f : USBFILTER) : option USBFILTER :=
  match s with
  | Some psz => snd <$> USBFilterSetStringExact f i (Some psz) true
  | None => Some f
  end.

Definition initFilterFromDevice (f : USBFILTER) (pDev : USBDEVICE) : option USBFILTER :=
  f ← set_num USBFILTERIDX_VENDOR_ID (dev_idVendor pDev) f;
  f ← set_num USBFILTERIDX_PRODUCT_ID (dev_idProduct pDev) f;
  f ← set_num USBFILTERIDX_DEVICE (dev_bcdDevice pDev) f;
  f ← set_num USBFILTERIDX_DEVICE_CLASS (dev_bDeviceClass pDev) f;
  f ← set_num USBFILTERIDX_DEVICE_SUB_CLASS (dev_bDeviceSubClass pDev) f;
  f ← set_num USBFILTERIDX_DEVICE_PROTOCOL (dev_bDeviceProtocol pDev) f;
  f ← set_num USBFILTERIDX_PORT (dev_bPort pDev) f;
  f ← set_num USBFILTERIDX_BUS (dev_bBus pDev) f;
  f ← set_str USBFILTERIDX_SERIAL_NUMBER_STR (dev_pszSerialNumber pDev) f;
  f ← set_str USBFILTERIDX_PRODUCT_STR (dev_pszProduct pDev) f;
  set_str USBFILTERIDX_MANUFACTURER_STR (dev_pszManufacturer pDev) f.

(** * The reference *)

(** What a device has for a field. *)
Inductive devval : Type :=
| DvNone
| DvNum (n : Z)
| DvStr (s : list Z).

Definition present (v : devval) : bool := match v with DvNone => false | _ => true end.

(** Whether a criterion accepts what the device has; the criteria for numbers are only those of
    numeric fields, and so on. *)
Definition accepts (c : criterion) (v : devval) : bool :=
  match c with
  | CrIgnore => true
  | CrPresent => present v
  | CrNum n p => match v with DvNum m => n =? m | _ => negb p end
  | CrNumExpr s p =>
      match v with DvNum m => default false (usbfilterMatchNumExpression s m) | _ => negb p end
  | CrStr s p => match v with DvStr t => bool_decide (s = t) | _ => negb p end
  | CrPattern s p =>
      match v with DvStr t => default false (usbfilterMatchStringPattern s t) | _ => negb p end
  end.

Definition crit_rate (c : criterion) : Z :=
  match c with CrNumExpr _ _ | CrPattern _ _ => 1 | _ => 2 end.

Definition all_accept (cs : list criterion) (vs : list devval) : bool :=
  forallb (λ cv, accepts cv.1 cv.2) (zip cs vs).

Definition total_rate (cs : list criterion) : Z := lsum crit_rate cs.

(** The device in a filter, and the device of the host. *)
Definition crit_val (c : criterion) : devval :=
  match c with
  | CrNum n _ => DvNum n
  | CrStr s _ => DvStr s
  | _ => DvNone
  end.

(** [ds] are criteria as a device has them: exact values, or nothing. *)
Definition device_crit (c : criterion) : Prop :=
  match c with CrIgnore | CrNum _ _ | CrStr _ _ => True | _ => False end.

Definition dev_val (pDev : USBDEVICE) (i : nat) : devval :=
  if (i <? 8)%nat then DvNum (dev_num pDev i)
  else match dev_str pDev i None with Some s => DvStr s | None => DvNone end.

Definition dev_vals (pDev : USBDEVICE) : list devval := dev_val pDev <$> seq 0 11.

(** * Matching is what [accepts] says *)

Lemma rep_at f ty cs i c :
  represents f ty cs → cs !! i = Some c →
  ∃ fld, flt_aFields f !! i = Some fld ∧ fld_enmMatch fld = crit_match c
         ∧ (∀ n p, c = CrNum n p → fld_u16Value fld = n).
Proof.
  intros Hrep Hc. destruct (rep_field f ty cs Hrep i c Hc) as (fld&Hfld&Hm&Hn&_).
  exists fld. split; [|done]. unfold field in Hfld.
  rewrite (proj2 (Z.ltb_ge _ _)) in Hfld by lia. by rewrite Nat2Z.id in Hfld.
Qed.

Lemma ignored_crit e : (crit_match e =? USBFILTERMATCH_IGNORE) = bool_decide (e = CrIgnore).
Proof. by destruct e as [| |? []|? []|? []|? []]. Qed.

Lemma crit_ok_cstr i c s : crit_ok i c → crit_str c = Some s → is_cstr s.
Proof. apply crit_ok_str. Qed.

Lemma match_num_total s m :
  is_cstr s → usbfilterMatchNumExpression s m = Some (default false (usbfilterMatchNumExpression s m)).
Proof. intros H. by destruct (match_num_expression_spec s m H) as (b&->&_). Qed.

Lemma match_pattern_total p s :
  is_cstr p → is_cstr s →
  usbfilterMatchStringPattern p s = Some (default false (usbfilterMatchStringPattern p s)).
Proof. intros H1 H2. by destruct (match_pattern_spec p s H1 H2) as (b&->&_). Qed.

Section rated.
Context (f d : USBFILTER) (tf td : Z) (cs ds : list criterion).
Hypothesis Hf : represents f tf cs.
Hypothesis Hd : represents d td ds.
Hypothesis Hdev : Forall device_crit ds.

Lemma match_field_spec i c e :
  cs !! i = Some c → ds !! i = Some e →
  match_field f d i
  = Some (if accepts c (crit_val e) then Some (crit_rate c) else None).
Proof.
  intros Hc He. destruct (rep_at _ _ _ _ _ Hf Hc) as (ff&Hff&Hfm&Hfn).
  destruct (rep_at _ _ _ _ _ Hd He) as (df&Hdf&Hdm&Hdn).
  pose proof (rep_get_str _ _ _ Hf i c Hc) as Hfs. pose proof (rep_get_str _ _ _ Hd i e He) as Hds.
  destruct Hf as (_&_&Hokf&_). destruct Hd as (_&_&Hokd&_).
  specialize (Hokf i c Hc). specialize (Hokd i e He).
  pose proof (proj1 (Forall_lookup _ _) Hdev i e He) as Hde.
  unfold match_field. rewrite Hff, Hdf. cbn [mbind option_bind].
  rewrite Hfm, Hdm, (ignored_crit e), Hfs, Hds.
  destruct c as [| |n p|s p|s p|s p]; [done| |..]; simpl in Hokf.
  - by destruct e; simpl in Hde.
  - rewrite (Hfn n p eq_refl). destruct e as [| |m q| |t q|]; simpl in Hokd; try done; try lia.
    + by destruct p.
    + rewrite (Hdn m q eq_refl). rewrite bool_decide_false by done. simpl.
      destruct p; simpl; by destruct (n =? m).
  - destruct e as [| |m q| |t q|]; simpl in Hokd; try done; try lia.
    + by destruct p.
    + rewrite (Hdn m q eq_refl), bool_decide_false by done. simpl.
      rewrite (match_num_total s m) by tauto. simpl.
      destruct p; simpl; by destruct (default false _).
  - destruct e as [| |m q| |t q|]; simpl in Hokd; try done; try lia.
    + by destruct p.
    + rewrite (bool_decide_false (_ = CrIgnore)) by done. simpl.
      destruct p; simpl; by case_bool_decide.
  - destruct e as [| |m q| |t q|]; simpl in Hokd; try done; try lia.
    + by destruct p.
    + rewrite (bool_decide_false (_ = CrIgnore)) by done. simpl.
      rewrite (match_pattern_total s t) by tauto. simpl.
      destruct p; simpl; by destruct (default false _).
Qed.

(** From percent to percent. *)
Definition percent (iRate : Z) : Z := if iRate =? 22 then 100 else iRate * 100 / 22.

Lemma rate_loop_spec n acc :
  (n ≤ 11)%nat →
  rate_loop f d (seq n (11 - n)) acc
  = Some (if all_accept (drop n cs) (drop n (crit_val <$> ds))
          then percent (acc + total_rate (drop n cs)) else -1).
Proof.
  assert (Hlc : length cs = 11%nat) by apply Hf. assert (Hld : length ds = 11%nat) by apply Hd.
  remember (11 - n)%nat as k eqn:Ek. revert n acc Ek. induction k as [|k IH]; intros n acc Ek Hn.
  - rewrite !drop_ge by (rewrite ?length_fmap; lia). simpl. rewrite Z.add_0_r. done.
  - destruct (lookup_lt_is_Some_2 cs n) as [c Hc]; [lia|].
    destruct (lookup_lt_is_Some_2 ds n) as [e He]; [lia|].
    rewrite (drop_S cs c n Hc), (drop_S (crit_val <$> ds) (crit_val e) n)
      by (by rewrite list_lookup_fmap, He).
    cbn [seq rate_loop]. rewrite (match_field_spec n c e Hc He). cbn [mbind option_bind].
    unfold all_accept. cbn [zip zip_with forallb fst snd].
    destruct (accepts c (crit_val e)); [|done]. rewrite IH by lia. unfold all_accept.
    cbn [andb]. unfold total_rate. cbn [lsum foldr]. unfold lsum.
    by rewrite <- Z.add_assoc.
Qed.

Lemma match_rated_eq :
  USBFilterMatchRated f d
  = Some (if all_accept cs (crit_val <$> ds) then percent (total_rate cs) else -1).
Proof. apply (rate_loop_spec 0 0). lia. Qed.
End rated.

Lemma total_rate_bounds cs : length cs = 11%nat → 11 ≤ total_rate cs ≤ 22.
Proof.
  intros Hl. assert (H : Z.of_nat (length cs) ≤ total_rate cs ≤ 2 * Z.of_nat (length cs)).
  { clear Hl. induction cs as [|c cs IH]; [done|]. unfold total_rate in *. simpl.
    destruct c; simpl; lia. }
  rewrite Hl in H. lia.
Qed.

Lemma percent_bounds r : 11 ≤ r ≤ 22 → 50 ≤ percent r ≤ 100.
Proof.
  intros H. unfold percent. destruct (Z.eqb_spec r 22); [lia|]. split.
  - apply Z.div_le_lower_bound; lia.
  - apply Z.div_le_upper_bound; lia.
Qed.

Lemma match_eq f d tf td cs ds :
  represents f tf cs → represents d td ds → Forall device_crit ds →
  USBFilterMatch f d = Some (all_accept cs (crit_val <$> ds)).
Proof.
  intros Hf Hd Hdev. unfold USBFilterMatch. rewrite (match_rated_eq f d tf td cs ds) by done.
  cbn [mbind option_bind]. destruct Hf as (_&Hl&_).
  pose proof (percent_bounds _ (total_rate_bounds cs Hl)).
  destruct (all_accept _ _); [|done]. by rewrite (proj2 (Z.ltb_lt _ _)) by lia.
Qed.

(** * Matching the device of the host *)

Section device.
Context (f : USBFILTER) (tf : Z) (cs : list criterion) (pDev : USBDEVICE).
Hypothesis Hf : represents f tf cs.
Hypothesis Hstr : ∀ i s, dev_str pDev i None = Some s → is_cstr s.

Lemma dev_str_default i :
  (8 ≤ i < 11)%nat → dev_str pDev i (Some []) = dev_str pDev i None.
Proof. intros H. by assert (i = 8 ∨ i = 9 ∨ i = 10)%nat as [->|[->| ->]] by lia. Qed.

Lemma dev_str_numeric i : (i < 8)%nat → dev_str pDev i (Some []) = Some [].
Proof. intros H. by do 8 (destruct i as [|i]; [done|]); lia. Qed.

Lemma match_device_field_spec i c :
  cs !! i = Some c → match_device_field f pDev i = Some (accepts c (dev_val pDev i)).
Proof.
  intros Hc. pose proof (rep_lt _ _ _ Hf i c Hc) as Hi.
  destruct (rep_at _ _ _ _ _ Hf Hc) as (ff&Hff&Hfm&Hfn).
  pose proof (rep_get_str _ _ _ Hf i c Hc) as Hfs.
  destruct Hf as (_&_&Hok&_). specialize (Hok i c Hc).
  unfold match_device_field. rewrite Hff. cbn [mbind option_bind]. rewrite Hfm, Hfs.
  specialize (Hstr i).
  assert (Hnum : (i < 8)%nat → dev_val pDev i = DvNum (dev_num pDev i))
    by (intros; unfold dev_val; by rewrite (proj2 (Nat.ltb_lt _ _))).
  assert (Hstv : (8 ≤ i)%nat → dev_val pDev i = match dev_str pDev i None with Some s => DvStr s | None => DvNone end)
    by (intros; unfold dev_val; by rewrite (proj2 (Nat.ltb_ge _ _))).
  destruct c as [| |n p|s p|s p|s p]; [done| |..]; simpl in Hok.
  - simpl. destruct (decide (i < 8)%nat) as [H8|H8].
    + by rewrite dev_str_numeric, Hnum.
    + rewrite dev_str_default, Hstv by lia. by destruct (dev_str pDev i None).
  - rewrite Hnum by tauto. rewrite (Hfn n p eq_refl). by destruct p.
  - rewrite Hnum by tauto. simpl. rewrite (match_num_total s) by tauto. by destruct p.
  - rewrite Hstv by lia. destruct (dev_str pDev i None) as [t|]; by destruct p.
  - rewrite Hstv by lia. destruct (dev_str pDev i None) as [t|]; [|by destruct p].
    destruct p; simpl; rewrite (match_pattern_total s t); simpl; auto; tauto.
Qed.

Lemma match_device_eq : USBFilterMatchDevice f pDev = Some (all_accept cs (dev_vals pDev)).
Proof.
  assert (Hl : length cs = 11%nat) by apply Hf.
  assert (Hgen : ∀ k n, (n + k = 11)%nat →
            device_loop f pDev (seq n k) = Some (all_accept (drop n cs) (dev_val pDev <$> seq n k))).
  { induction k as [|k IH]; intros n Hn.
    - by rewrite drop_ge by lia.
    - destruct (lookup_lt_is_Some_2 cs n) as [c Hc]; [lia|].
      rewrite (drop_S cs c n Hc). cbn [seq device_loop fmap list_fmap].
      rewrite (match_device_field_spec n c Hc). cbn [mbind option_bind].
      unfold all_accept. cbn [zip zip_with forallb fst snd].
      destruct (accepts c (dev_val pDev n)); [|done]. apply (IH (S n)). lia. }
  apply (Hgen 11%nat 0%nat). done.
Qed.
End device.

(** ** The filter made of a device *)

(** The members have their widths, and strings are strings. *)
Definition device_typed (pDev : USBDEVICE) : Prop :=
  (∀ i, 0 ≤ dev_num pDev i ≤ UINT16_MAX) ∧ (∀ i s, dev_str pDev i None = Some s → is_cstr s).

(** The strings fit into the table of a filter. *)
Definition str_space (s : option (list Z)) : nat :=
  match s with Some ((_ :: _) as s) => S (length s) | _ => 0 end.
Definition device_fits (pDev : USBDEVICE) : Prop :=
  (str_space (dev_pszSerialNumber pDev) + str_space (dev_pszProduct pDev)
   + str_space (dev_pszManufacturer pDev) ≤ 255)%nat.

Definition str_crit (s : option (list Z)) : criterion :=
  match s with Some s => CrStr s true | None => CrIgnore end.

Definition device_criteria (pDev : USBDEVICE) : list criterion :=
  ((λ i, CrNum (dev_num pDev i) true) <$> seq 0 8)
  ++ [str_crit (dev_pszManufacturer pDev); str_crit (dev_pszProduct pDev);
      str_crit (dev_pszSerialNumber pDev)].

Lemma set_num_spec f ty cs i n :
  represents f ty cs → (i < 8)%nat → 0 ≤ n ≤ UINT16_MAX →
  ∃ f', set_num (Z.of_nat i) n f = Some f' ∧ represents f' ty (<[i := CrNum n true]> cs).
Proof.
  intros Hrep Hi Hn.
  destruct (set_op_refines f ty cs (OpNum (Z.of_nat i) n true) Hrep Hn) as (f'&E&Hr).
  unfold set_num. cbn [flt_run_op] in E. rewrite E. exists f'. split; [done|].
  cbn [spec_op] in Hr. assert (USBFilterIsNumericField (Z.of_nat i) = true) as Hni
    by (by do 8 (destruct i as [|i]; [done|]); lia).
  rewrite Hni in Hr. cbn [fst snd] in Hr. by rewrite Nat2Z.id in Hr.
Qed.

Lemma set_str_spec f ty cs i s :
  represents f ty cs → (8 ≤ i < 11)%nat → (∀ t, s = Some t → is_cstr t) →
  cs !! i = Some CrIgnore → (space cs + str_space s ≤ 255)%nat →
  ∃ f', set_str (Z.of_nat i) s f = Some f' ∧ represents f' ty (<[i := str_crit s]> cs).
Proof.
  intros Hrep Hi Hs Hc Hfit. destruct s as [s|]; cbn [set_str str_crit].
  2: { exists f. split; [done|]. by rewrite list_insert_id. }
  destruct (set_op_refines f ty cs (OpStr (Z.of_nat i) s true) Hrep (Hs s eq_refl)) as (f'&E&Hr).
  cbn [flt_run_op] in E. rewrite E. exists f'. split; [done|]. cbn [spec_op] in Hr.
  assert (USBFilterIsStringField (Z.of_nat i) = true) as Hsf
    by (by assert (i = 8 ∨ i = 9 ∨ i = 10)%nat as [->|[->| ->]] by lia).
  rewrite Hsf in Hr. unfold spec_store in Hr. rewrite Nat2Z.id in Hr.
  rewrite (alter_as_insert _ _ _ _ Hc) in Hr. cbn [clear_str crit_str from_option id] in Hr.
  rewrite list_insert_id in Hr by done.
  replace (bool_decide (s = []) || bool_decide (space cs + length s + 2 ≤ sizeof_achStrTab)%nat)
    with true in Hr; [done|]. symmetry. destruct s as [|x s]; [done|].
  simpl in Hfit. apply orb_true_iff. right. apply bool_decide_true. unfold sizeof_achStrTab.
  simpl. lia.
Qed.

Lemma str_crit_space s : crit_space (str_crit s) = str_space s.
Proof. by destruct s as [[|x s]|]. Qed.

Lemma init_filter_from_device ty pDev :
  type_ok ty = true → device_typed pDev → device_fits pDev →
  ∃ f, initFilterFromDevice (USBFilterInit ty) pDev = Some f
       ∧ represents f ty (device_criteria pDev).
Proof.
  intros Hty [Hn Hs] Hfit. pose proof (init_represents ty Hty) as Hrep.
  unfold initFilterFromDevice, device_fits in *.
  assert (Hnum : ∀ f cs i, represents f ty cs → (i < 8)%nat →
            ∃ f', set_num (Z.of_nat i) (dev_num pDev i) f = Some f'
                  ∧ represents f' ty (<[i := CrNum (dev_num pDev i) true]> cs))
    by (intros; by apply set_num_spec).
  destruct (Hnum _ _ 0%nat Hrep ltac:(lia)) as (f0&E0&H0).
  destruct (Hnum _ _ 1%nat H0 ltac:(lia)) as (f1&E1&H1).
  destruct (Hnum _ _ 2%nat H1 ltac:(lia)) as (f2&E2&H2).
  destruct (Hnum _ _ 3%nat H2 ltac:(lia)) as (f3&E3&H3).
  destruct (Hnum _ _ 4%nat H3 ltac:(lia)) as (f4&E4&H4).
  destruct (Hnum _ _ 5%nat H4 ltac:(lia)) as (f5&E5&H5).
  destruct (Hnum _ _ 7%nat H5 ltac:(lia)) as (f6&E6&H6).
  destruct (Hnum _ _ 6%nat H6 ltac:(lia)) as (f7&E7&H7).
  cbn in H7. cbn [dev_num] in *.
  assert (Hsp : ∀ a b c, space ([CrNum (dev_idVendor pDev) true; CrNum (dev_idProduct pDev) true;
             CrNum (dev_bcdDevice pDev) true; CrNum (dev_bDeviceClass pDev) true;
             CrNum (dev_bDeviceSubClass pDev) true; CrNum (dev_bDeviceProtocol pDev) true;
             CrNum (dev_bBus pDev) true; CrNum (dev_bPort pDev) true] ++ [a; b; c])
             = (crit_space a + crit_space b + crit_space c)%nat)
    by (intros; unfold space; simpl; lia).
  simpl in Hsp.
  destruct (set_str_spec _ _ _ 10%nat (dev_pszSerialNumber pDev) H7) as (f8&E8&H8);
    [lia|intros t Ht; by apply (Hs 10%nat)|done|rewrite Hsp; simpl; lia|].
  cbn in H8.
  destruct (set_str_spec _ _ _ 9%nat (dev_pszProduct pDev) H8) as (f9&E9&H9);
    [lia|intros t Ht; by apply (Hs 9%nat)|done|rewrite Hsp, str_crit_space; simpl; lia|].
  cbn in H9.
  destruct (set_str_spec _ _ _ 8%nat (dev_pszManufacturer pDev) H9) as (f10&E10&H10);
    [lia|intros t Ht; by apply (Hs 8%nat)|done|rewrite Hsp, !str_crit_space; simpl; lia|].
  exists f10. split; [|exact H10].
  change (Z.of_nat 0) with USBFILTERIDX_VENDOR_ID in E0. rewrite E0. cbn [mbind option_bind].
  change (Z.of_nat 1) with USBFILTERIDX_PRODUCT_ID in E1. rewrite E1. cbn [mbind option_bind].
  change (Z.of_nat 2) with USBFILTERIDX_DEVICE in E2. rewrite E2. cbn [mbind option_bind].
  change (Z.of_nat 3) with USBFILTERIDX_DEVICE_CLASS in E3. rewrite E3. cbn [mbind option_bind].
  change (Z.of_nat 4) with USBFILTERIDX_DEVICE_SUB_CLASS in E4. rewrite E4. cbn [mbind option_bind].
  change (Z.of_nat 5) with USBFILTERIDX_DEVICE_PROTOCOL in E5. rewrite E5. cbn [mbind option_bind].
  change (Z.of_nat 7) with USBFILTERIDX_PORT in E6. rewrite E6. cbn [mbind option_bind].
  change (Z.of_nat 6) with USBFILTERIDX_BUS in E7. rewrite E7. cbn [mbind option_bind].
  change (Z.of_nat 10) with USBFILTERIDX_SERIAL_NUMBER_STR in E8. rewrite E8.
  change (Z.of_nat 9) with USBFILTERIDX_PRODUCT_STR in E9. cbn [mbind option_bind]. rewrite E9.
  change (Z.of_nat 8) with USBFILTERIDX_MANUFACTURER_STR in E10. cbn [mbind option_bind]. exact E10.
Qed.

Lemma device_criteria_dev pDev : Forall device_crit (device_criteria pDev).
Proof.
  unfold device_criteria. apply Forall_app. split; [|].
  - apply Forall_fmap. by apply Forall_true.
  - repeat constructor; unfold str_crit; by destruct (_ : option (list Z)).
Qed.

Lemma device_criteria_vals pDev : crit_val <$> device_criteria pDev = dev_vals pDev.
Proof.
  unfold dev_vals, dev_val, device_criteria. simpl.
  repeat f_equal; unfold str_crit; by destruct (_ : option (list Z)).
Qed.

(** * Validation of filters the setters made *)

(** A numeric expression that is in the string table. *)
Definition expr_string (c : criterion) : bool :=
  match c with CrNumExpr (_ :: _) _ => true | _ => false end.

Lemma lay_off_inj L i j :
  NoDup L.*1 → i ∈ L.*1 → j ∈ L.*1 → lay_off 1 L i = lay_off 1 L j → i = j.
Proof.
  intros Hnd ([i' s]&Hi'&Hi)%list_elem_of_fmap Hj Heq. simpl in Hi'. subst i'.
  apply lay_off_split in Hi as (L1&L2&->&Hi1&Hi2&Hoff); [|done]. rewrite Hoff in Heq.
  destruct (decide (i = j)) as [|Hne]; [done|]. exfalso.
  rewrite lay_off_app in Heq. cbn [lay_off] in Heq. rewrite (bool_decide_false (j = i)) in Heq by done.
  destruct (decide (j ∈ L1.*1)) as [Hj1|Hj1].
  - rewrite bool_decide_true in Heq by done. pose proof (lay_off_bounds 1 L1 j ltac:(lia) Hj1). lia.
  - rewrite bool_decide_false in Heq by done.
    rewrite fmap_app, elem_of_app in Hj. cbn in Hj. rewrite elem_of_cons in Hj.
    destruct Hj as [?|[?|Hj2]]; [done|done|].
    pose proof (lay_off_bounds (1 + Z.of_nat (length (flat L1)) + Z.of_nat (length s) + 1) L2 j
                  ltac:(lia) Hj2). lia.
Qed.

Lemma crit_method_string c :
  USBFilterIsMethodString (crit_match c) = match c with CrStr _ _ | CrPattern _ _ => true | _ => false end.
Proof. by destruct c as [| |? []|? []|? []|? []]. Qed.

Section build.
Context (ty : Z) (cs : list criterion) (L : layout).
Hypothesis Hty : type_ok ty = true.
Hypothesis Hcoh : coherent L cs.
Hypothesis Hlen : (length (flat L) ≤ 255)%nat.
Hypothesis Hcs : length cs = 11%nat.
Hypothesis Hok : ∀ i c, cs !! i = Some c → crit_ok i c.

Let f := build ty cs L.

Lemma used_build i s c :
  (i, s) ∈ L → cs !! i = Some c →
  string_used f (lay_off 1 L i) = USBFilterIsMethodString (crit_match c).
Proof.
  intros Hin Hc. assert (Hk : i ∈ L.*1) by (apply list_elem_of_fmap; by exists (i, s)).
  pose proof (lay_off_bounds 1 L i ltac:(lia) Hk) as Hb.
  apply Hcoh in Hin as Hin'. destruct Hin' as (Hne&c'&Hc'&Hs). rewrite Hc in Hc'.
  injection Hc' as <-. unfold string_used, f. cbn [flt_aFields build].
  destruct (USBFilterIsMethodString (crit_match c)) eqn:E.
  - apply existsb_exists. exists (field_of L i c). split.
    + apply list_elem_of_In, list_elem_of_lookup. exists i. by rewrite list_lookup_imap, Hc.
    + rewrite (field_of_str _ _ _ _ Hs). simpl. by rewrite E, Z.eqb_refl.
  - apply not_true_iff_false. intros (fld&Hfld&Hu)%existsb_exists.
    apply list_elem_of_In, list_elem_of_lookup in Hfld as [j Hj].
    rewrite list_lookup_imap in Hj. destruct (cs !! j) as [e|] eqn:He; [|done].
    injection Hj as <-. apply andb_true_iff in Hu as [Hm Hv%Z.eqb_eq].
    change (fld_enmMatch (field_of L j e)) with (crit_match e) in Hm.
    assert (Hvo : fld_u16Value (field_of L j e) = lay_off 1 L j)
      by (rewrite crit_method_string in Hm; by destruct e).
    rewrite Hvo in Hv. destruct (decide (j ∈ L.*1)) as [Hjk|Hjk].
    + apply lay_off_inj in Hv as ->; [|apply Hcoh|done|done]. congruence.
    + rewrite lay_off_notin in Hv by done. lia.
Qed.

Lemma validate_strings_build n L1 L2 :
  L = L1 ++ L2 → (length L2 < n)%nat →
  ∃ psz, validate_strings n f (1 + Z.of_nat (length (flat L1)))
    = Some (if existsb (λ e, from_option expr_string false (cs !! e.1)) L2
            then VERR_INVALID_PARAMETER else VINF_SUCCESS, psz)
    ∧ (existsb (λ e, from_option expr_string false (cs !! e.1)) L2 = false →
       psz = 1 + Z.of_nat (length (flat L))).
Proof.
  revert n L1. induction L2 as [|[i s] L2 IH]; intros n L1 HL Hn.
  - destruct n as [|n]; [simpl in Hn; lia|]. cbn [validate_strings existsb].
    rewrite app_nil_r in HL. subst L1. unfold f at 1. cbn [flt_offCurEnd build].
    rewrite (proj2 (Z.ltb_ge _ _)) by lia. by eexists.
  - destruct n as [|n]; [simpl in Hn; lia|]. cbn [validate_strings existsb fst].
    assert (Hin : (i, s) ∈ L) by (rewrite HL, elem_of_app, elem_of_cons; auto).
    pose proof Hin as (Hne&c&Hc&Hs)%Hcoh.
    pose proof (crit_ok_str _ _ _ (Hok i c Hc) Hs) as Hcstr.
    assert (Hoff : lay_off 1 L i = 1 + Z.of_nat (length (flat L1))).
    { assert (Hni : i ∉ L1.*1).
      { pose proof (proj1 Hcoh) as Hnd. rewrite HL, fmap_app in Hnd. cbn in Hnd.
        apply list.NoDup_app in Hnd as (_&Hd&_). intros H. apply (Hd i H), elem_of_cons. by left. }
      rewrite HL, lay_off_app, bool_decide_false by done. cbn [lay_off]. by rewrite bool_decide_true. }
    assert (Hll : (length (flat L) = length (flat L1) + length s + 1 + length (flat L2))%nat).
    { rewrite HL, flat_app, flat_cons, !length_app. simpl. lia. }
    unfold f at 1. cbn [flt_offCurEnd build].
    assert (0 < length s)%nat by (by destruct s; simpl; [|lia]).
    rewrite (proj2 (Z.ltb_lt _ _)) by lia.
    assert (Hat : tab_str (flt_achStrTab f) (1 + Z.of_nat (length (flat L1))) = Some s)
      by (unfold f; cbn [flt_achStrTab build]; rewrite HL; by apply str_at_layout).
    rewrite Hat, u16_small by lia. rewrite <- Hoff, (used_build i s c Hin Hc), Hc.
    cbn [from_option].
    assert (Hex : expr_string c = negb (USBFilterIsMethodString (crit_match c))).
    { rewrite crit_method_string. destruct c; simplify_eq/=; try done. by destruct s. }
    rewrite Hex. destruct (USBFilterIsMethodString (crit_match c)); cbn [negb orb]; [|by eexists].
    destruct (IH n (L1 ++ [(i, s)])) as (psz&E&Hp); [by rewrite HL, <- (assoc_L (++))|simpl in Hn; lia|].
    exists psz. rewrite <- E. split; [|done]. f_equal. rewrite Hoff, flat_snoc, !length_app. simpl. lia.
Qed.

Lemma offset_good i c s : cs !! i = Some c → crit_str c = Some s → offset_bad f (field_of L i c) = false.
Proof.
  intros Hc Hs. unfold offset_bad, f. rewrite (field_of_str _ _ _ _ Hs). cbn [fld_u16Value flt_offCurEnd build].
  destruct s as [|x s].
  - rewrite lay_off_notin by (eapply coherent_notin; eauto).
    destruct (length (flat L)) as [|n]; [done|]. by rewrite (proj2 (Z.leb_gt _ _)) by lia.
  - assert (Hin : (i, x :: s) ∈ L) by (apply Hcoh; eauto).
    apply lay_off_split in Hin as (L1&L2&HL&_&_&->); [|apply Hcoh].
    rewrite (proj2 (Z.leb_gt _ _)); [done|].
    rewrite HL, flat_app, flat_cons, !length_app. simpl. lia.
Qed.

Lemma validate_field_build i c :
  cs !! i = Some c → validate_field f (Z.of_nat i) (field_of L i c) = Some VINF_SUCCESS.
Proof.
  intros Hc. pose proof (Hok i c Hc) as Ho. unfold validate_field.
  change (fld_enmMatch (field_of L i c)) with (crit_match c).
  assert (Hnf : (i < 8)%nat → USBFilterIsNumericField (Z.of_nat i) = true)
    by (intros; do 8 (destruct i as [|i]; [done|]); lia).
  assert (Hsf : (8 ≤ i)%nat → USBFilterIsStringField (Z.of_nat i) = true).
  { intros. assert (i < 11)%nat by (rewrite <- Hcs; by eapply lookup_lt_Some).
    by assert (i = 8 ∨ i = 9 ∨ i = 10)%nat as [->|[->| ->]] by lia. }
  destruct c as [| |n p|s p|s p|s p]; simpl in Ho; [done|done|..].
  - rewrite Hnf by tauto. by destruct p.
  - rewrite Hnf by tauto. rewrite (offset_good i _ s Hc eq_refl).
    assert (Hat : tab_str (flt_achStrTab f) (fld_u16Value (field_of L i (CrNumExpr s p))) = Some s).
    { destruct (rep_field f ty cs) with (i := i) (c := CrNumExpr s p) as (fld&Hfld&_&_&H).
      - split; [done|]. split; [done|]. split; [done|]. by exists L.
      - done.
      - unfold f in Hfld. rewrite field_build, Hc in Hfld. injection Hfld as <-.
        by apply (H s). }
    rewrite Hat. cbn [mbind option_bind negb]. destruct Ho as (_&_&Hv). rewrite Hv. by destruct p.
  - rewrite Hsf by tauto. rewrite (offset_good i _ s Hc eq_refl). by destruct p.
  - rewrite Hsf by tauto. rewrite (offset_good i _ s Hc eq_refl). by destruct p.
Qed.

Lemma validate_fields_build n :
  (n ≤ 11)%nat → validate_fields f (Z.of_nat n) (drop n (flt_aFields f)) = Some VINF_SUCCESS.
Proof.
  remember (11 - n)%nat as k eqn:Ek. revert n Ek. induction k as [|k IH]; intros n Ek Hn.
  - rewrite drop_ge; [done|]. unfold f. cbn. rewrite length_imap. lia.
  - destruct (lookup_lt_is_Some_2 cs n) as [c Hc]; [lia|].
    rewrite (drop_S _ (field_of L n c)) by (unfold f; cbn; by rewrite list_lookup_imap, Hc).
    cbn [validate_fields]. rewrite (validate_field_build n c Hc). cbn [mbind option_bind].
    change (RT_FAILURE VINF_SUCCESS) with false. cbn iota.
    replace (Z.of_nat n + 1) with (Z.of_nat (S n)) by lia. apply IH; lia.
Qed.

Lemma length_layout : (length L ≤ length (flat L))%nat.
Proof.
  clear. induction L as [|[i s] L' IH]; [done|]. rewrite flat_cons, length_app. simpl. lia.
Qed.

Lemma validate_build :
  USBFilterValidate (Some f)
  = Some (if existsb (λ e, from_option expr_string false (cs !! e.1)) L
          then VERR_INVALID_PARAMETER else VINF_SUCCESS).
Proof.
  unfold USBFilterValidate. unfold f at 1. cbn [flt_u32Magic build].
  change (negb (USBFILTER_MAGIC =? USBFILTER_MAGIC)) with false. cbn iota.
  unfold f at 1. cbn [flt_enmType build]. rewrite Hty. cbn [negb].
  unfold f at 1. cbn [flt_offCurEnd build]. unfold sizeof_achStrTab.
  rewrite (proj2 (Z.leb_gt _ _)) by lia. change (chr (flt_achStrTab f)) with 0. cbn [Z.eqb negb].
  destruct (validate_strings_build 257 [] L) as (psz&E&Hp).
  { done. }
  { pose proof length_layout. lia. }
  change (1 + Z.of_nat (length (flat []))) with 1 in E. rewrite E. cbn [mbind option_bind].
  destruct (existsb _ L); [done|]. change (RT_FAILURE VINF_SUCCESS) with false. cbn iota.
  rewrite (Hp eq_refl). unfold f at 1. cbn [flt_offCurEnd build].
  replace (1 + Z.of_nat (length (flat L)) - 1) with (Z.of_nat (length (flat L))) by lia.
  rewrite Z.eqb_refl. cbn [negb].
  replace (forallb _ _) with true; [|symmetry].
  - cbn [negb]. apply (validate_fields_build 0). lia.
  - unfold f. cbn [flt_achStrTab build]. unfold table_of.
    replace (Z.to_nat (1 + Z.of_nat (length (flat L)))) with (S (length (flat L))) by lia.
    cbn [drop]. rewrite drop_app_length. apply forallb_forall. intros ch Hch.
    apply list_elem_of_In, elem_of_replicate in Hch as [-> _]. done.
Qed.
End build.

Lemma validate_rep f ty cs :
  represents f ty cs →
  USBFilterValidate (Some f)
  = Some (if existsb expr_string cs then VERR_INVALID_PARAMETER else VINF_SUCCESS).
Proof.
  intros (Hty&Hl&Hok&L&Hco&Hfl&->). rewrite validate_build by done. f_equal.
  set (b1 := existsb _ L). set (b2 := existsb _ cs). enough (b1 = b2) as -> by done.
  subst b1 b2. apply eq_bool_prop_intro. rewrite !Is_true_true, !existsb_exists. split.
  - intros ([i s]&Hin&Hx). simpl in Hx. destruct (cs !! i) as [c|] eqn:Hc; [|done].
    exists c. split; [|done]. apply list_elem_of_In. by eapply list_elem_of_lookup_2.
  - intros (c&Hin&Hx). apply list_elem_of_In, list_elem_of_lookup in Hin as [i Hc].
    destruct c as [| | |[|x s] p| |]; try done. exists (i, x :: s). split.
    + apply list_elem_of_In, Hco. split; [done|]. by eexists.
    + simpl. by rewrite Hc.
Qed.

(** * Validation of any filter *)

(** The members are of their types. *)
Definition filter_typed (f : USBFILTER) : Prop :=
  length (flt_aFields f) = 11%nat ∧ length (flt_achStrTab f) = 256%nat
  ∧ Forall (λ ch, 0 ≤ ch ≤ 255) (flt_achStrTab f) ∧ 0 ≤ flt_offCurEnd f
  ∧ Forall (λ fld, 0 ≤ fld_u16Value fld ≤ UINT16_MAX) (flt_aFields f).

(** There is a string in the table, or every offset is in it. *)
Definition offsets_checked (f : USBFILTER) : Prop :=
  flt_offCurEnd f ≠ 0
  ∨ Forall (λ fld, USBFilterIsMethodUsingStringValue (fld_enmMatch fld) = true →
                   fld_u16Value fld ≤ 255) (flt_aFields f).

Lemma c_str_some l : 0 ∈ l → is_Some (c_str l).
Proof.
  induction l as [|c l IH]; intros H; [by apply not_elem_of_nil in H|]. simpl.
  destruct (Z.eqb_spec c 0); [by eexists|]. apply elem_of_cons in H as [?|H]; [done|].
  destruct (IH H) as [s ->]. by eexists.
Qed.

Lemma c_str_spec l s : c_str l = Some s → ∃ tl, l = s ++ 0 :: tl.
Proof.
  revert s. induction l as [|c l IH]; intros s; simpl; [done|].
  destruct (Z.eqb_spec c 0) as [->|].
  - intros [= <-]. by exists l.
  - destruct (c_str l) as [s'|] eqn:E; [|done]. intros [= <-].
    destruct (IH s' eq_refl) as [tl ->]. by exists tl.
Qed.

Lemma c_str_cstr l s : Forall (λ ch, 0 ≤ ch ≤ 255) l → c_str l = Some s → is_cstr s.
Proof.
  intros Hl. revert s. induction Hl as [|c l Hc Hl IH]; intros s; simpl; [done|].
  destruct (Z.eqb_spec c 0); [intros [= <-]; constructor|].
  destruct (c_str l) as [s'|]; [|done]. intros [= <-]. constructor; [lia|by apply IH].
Qed.

Lemma str_at_some tab (off k : nat) :
  (off ≤ k)%nat → tab !! k = Some 0 → is_Some (tab_str tab (Z.of_nat off)).
Proof.
  intros Hk H. apply c_str_some, list_elem_of_lookup. exists (k - off)%nat.
  rewrite lookup_drop, Nat2Z.id. by replace (off + (k - off))%nat with k by lia.
Qed.

Lemma validate_strings_sound n f psz :
  filter_typed f → 1 ≤ psz → (0 < n)%nat → flt_offCurEnd f - psz < Z.of_nat n → flt_offCurEnd f < 256 →
  flt_achStrTab f !! Z.to_nat (psz - 1) = Some 0 →
  ∃ rc psz', validate_strings n f psz = Some (rc, psz') ∧ 1 ≤ psz'
    ∧ flt_achStrTab f !! Z.to_nat (psz' - 1) = Some 0.
Proof.
  intros Ht. revert psz. induction n as [|n IH]; intros psz Hp Hn0 Hn Ho Hz; cbn [validate_strings].
  - lia.
  - destruct (Z.ltb_spec psz (flt_offCurEnd f)); [|by eexists _, _].
    destruct (tab_str (flt_achStrTab f) psz) as [s|] eqn:E; [|by eexists _, _].
    destruct (negb _); [by eexists _, _|]. apply IH; [lia|lia|lia|done|].
    apply c_str_spec in E as [tl Htl].
    replace (Z.to_nat (psz + Z.of_nat (length s) + 1 - 1)) with (Z.to_nat psz + length s)%nat by lia.
    rewrite <- lookup_drop, Htl. by rewrite lookup_app_r, Nat.sub_diag.
Qed.

(** What is known of the fields of a filter that was accepted. *)
Definition field_checked (f : USBFILTER) (i : Z) (fld : USBFILTERFIELD) : Prop :=
  let m := fld_enmMatch fld in
  (USBFilterIsMethodUsingNumericValue m = true ∨ m = USBFILTERMATCH_NUM_EXPRESSION
   ∨ m = USBFILTERMATCH_NUM_EXPRESSION_NP → USBFilterIsNumericField i = true)
  ∧ (USBFilterIsMethodString m = true → USBFilterIsStringField i = true)
  ∧ (USBFilterIsMethodUsingStringValue m = true →
     is_Some (tab_str (flt_achStrTab f) (fld_u16Value fld))).

Ltac known_method :=
  repeat match goal with
  | H : _ ∈ _ :: _ |- _ => apply elem_of_cons in H as [->|H]
  | H : _ ∈ [] |- _ => by apply not_elem_of_nil in H
  end.

Lemma validate_field_ok f i fld :
  filter_typed f → fld ∈ flt_aFields f →
  (offset_bad f fld = false → USBFilterIsMethodUsingStringValue (fld_enmMatch fld) = true →
   is_Some (tab_str (flt_achStrTab f) (fld_u16Value fld))) →
  ∃ rc, validate_field f i fld = Some rc ∧ (RT_FAILURE rc = false → field_checked f i fld).
Proof.
  intros (_&_&Hch&_) Hfld Hat. unfold validate_field, field_checked.
  destruct fld as [m v]. cbn [fld_enmMatch fld_u16Value] in *.
  assert (Hfail : ∀ P, RT_FAILURE VERR_INVALID_PARAMETER = false → P) by done.
  case_bool_decide as H1.
  { eexists. split; [done|]. intros _. known_method; vm_compute; naive_solver. }
  case_bool_decide as H2.
  { eexists. split; [done|]. destruct (USBFilterIsNumericField i); [|by intros].
    intros _. split; [done|]. known_method; by vm_compute. }
  case_bool_decide as H3.
  { destruct (USBFilterIsNumericField i); cbn [negb]; [|eexists; split; [done|apply Hfail]].
    destruct (offset_bad _ _) eqn:E; [eexists; split; [done|apply Hfail]|].
    destruct Hat as [s Hs]; [done|by known_method|]. rewrite Hs. cbn [mbind option_bind].
    assert (Hc : is_cstr s) by (unfold tab_str in Hs; eapply c_str_cstr; [by apply Forall_drop|done]).
    destruct (validate_num_expression_spec s Hc) as (rc&->&_). eexists. split; [done|].
    intros _. split; [done|]. split; [|by eexists]. known_method; by vm_compute. }
  case_bool_decide as H4.
  { destruct (USBFilterIsStringField i); cbn [negb]; [|eexists; split; [done|apply Hfail]].
    destruct (offset_bad _ _) eqn:E; [eexists; split; [done|apply Hfail]|].
    eexists; split; [done|]. intros _. split; [|split; [done|by apply Hat]].
    known_method; vm_compute; naive_solver. }
  case_bool_decide as H5.
  { destruct (USBFilterIsStringField i); cbn [negb]; [|eexists; split; [done|apply Hfail]].
    destruct (offset_bad _ _) eqn:E; [eexists; split; [done|apply Hfail]|].
    eexists; split; [done|]. intros _. split; [|split; [done|by apply Hat]].
    known_method; vm_compute; naive_solver. }
  eexists. split; [done|]. apply Hfail.
Qed.

Lemma validate_fields_ok f n flds :
  filter_typed f → flds = drop n (flt_aFields f) →
  (∀ fld, fld ∈ flt_aFields f → offset_bad f fld = false →
     USBFilterIsMethodUsingStringValue (fld_enmMatch fld) = true →
     is_Some (tab_str (flt_achStrTab f) (fld_u16Value fld))) →
  ∃ rc, validate_fields f (Z.of_nat n) flds = Some rc
    ∧ (rc = VINF_SUCCESS → ∀ j fld, (n ≤ j)%nat → flt_aFields f !! j = Some fld →
                             field_checked f (Z.of_nat j) fld).
Proof.
  intros Ht Hfl Hat. revert n Hfl. induction flds as [|fld flds IH]; intros n Hfl.
  - eexists. split; [done|]. intros _ j fld Hj Hlk.
    assert (Hlt : (j < length (flt_aFields f))%nat) by (by eapply lookup_lt_Some).
    assert (length (drop n (flt_aFields f)) = 0%nat) by (by rewrite <- Hfl).
    rewrite length_drop in *. lia.
  - assert (Hlk : flt_aFields f !! n = Some fld)
      by (rewrite <- (Nat.add_0_r n), <- lookup_drop, <- Hfl; done).
    cbn [validate_fields].
    destruct (validate_field_ok f (Z.of_nat n) fld Ht) as (rc&->&Hrc).
    { by eapply list_elem_of_lookup_2. }
    { intros. apply Hat; [by eapply list_elem_of_lookup_2|done|done]. }
    cbn [mbind option_bind]. destruct (RT_FAILURE rc) eqn:Erc.
    { exists rc. split; [done|]. intros ->. done. }
    rewrite (drop_S _ _ _ Hlk) in Hfl. injection Hfl as Hfl.
    replace (Z.of_nat n + 1) with (Z.of_nat (S n)) by lia.
    destruct (IH (S n) Hfl) as (rc'&->&Hrc'). exists rc'. split; [done|].
    intros Hok j fld' Hj Hlk'. destruct (decide (j = n)) as [->|].
    + rewrite Hlk in Hlk'. injection Hlk' as <-. by apply Hrc.
    + apply (Hrc' Hok); [lia|done].
Qed.

Lemma validate_ok f :
  filter_typed f → offsets_checked f →
  ∃ rc, USBFilterValidate (Some f) = Some rc
    ∧ (rc = VINF_SUCCESS → ∀ j fld, flt_aFields f !! j = Some fld →
                             field_checked f (Z.of_nat j) fld).
Proof.
  intros Ht Hoff. pose proof Ht as (Hl&Hlt&Hch&Ho&Hv). unfold USBFilterValidate.
  assert (Hfail : ∀ e, e ≠ VINF_SUCCESS →
            ∃ rc, Some e = Some rc ∧ (rc = VINF_SUCCESS → ∀ j fld, flt_aFields f !! j = Some fld →
                             field_checked f (Z.of_nat j) fld))
    by (intros e He; exists e; split; [done|by intros]).
  destruct (negb _); [by apply Hfail|]. destruct (negb _); [by apply Hfail|].
  destruct (Z.leb_spec (Z.of_nat sizeof_achStrTab) (flt_offCurEnd f)) as [|Hend]; [by apply Hfail|].
  destruct (Z.eqb_spec (chr (flt_achStrTab f)) 0) as [H0|H0]; cbn [negb]; [|by apply Hfail].
  unfold sizeof_achStrTab in Hend.
  assert (Hz : flt_achStrTab f !! Z.to_nat (1 - 1) = Some 0).
  { destruct (flt_achStrTab f) as [|c t]; [done|]. simpl in *. by rewrite H0. }
  destruct (validate_strings_sound 257 f 1 Ht) as (rc&psz&E&Hp&Hpz); [lia|lia|lia|lia|done|].
  unfold sizeof_achStrTab. rewrite E. cbn [mbind option_bind].
  destruct (RT_FAILURE rc) eqn:Erc; [apply Hfail; by intros ->|].
  destruct (Z.eqb_spec (psz - 1) (flt_offCurEnd f)) as [He|He]; cbn [negb]; [|by apply Hfail].
  destruct (forallb _ _) eqn:Hfa; cbn [negb]; [|by apply Hfail].
  destruct (validate_fields_ok f 0 (flt_aFields f) Ht) as (rc'&E'&Hrc'); [done| |].
  - intros fld Hfld Hbad Hu. pose proof (proj1 (Forall_forall _ _) Hv fld Hfld) as Hr. simpl in Hr.
    rewrite <- (Z2Nat.id (fld_u16Value fld)) by lia. unfold offset_bad in Hbad.
    destruct (Z.eqb_spec (flt_offCurEnd f) 0) as [Hz0|Hnz].
    + destruct Hoff as [?|Hoff]; [done|].
      pose proof (proj1 (Forall_forall _ _) Hoff fld Hfld Hu) as Hle.
      apply (str_at_some _ _ (Z.to_nat (fld_u16Value fld))); [done|].
      destruct (decide (fld_u16Value fld = 0)) as [->|]; [done|].
      rewrite forallb_forall in Hfa. assert (psz = 1) as -> by lia.
      destruct (lookup_lt_is_Some_2 (flt_achStrTab f) (Z.to_nat (fld_u16Value fld))) as [ch Hc]; [lia|].
      rewrite Hc. f_equal. apply Z.eqb_eq, Hfa, list_elem_of_In, list_elem_of_lookup.
      exists (Z.to_nat (fld_u16Value fld) - 1)%nat. rewrite lookup_drop. rewrite <- Hc.
      f_equal. lia.
    + rewrite andb_true_r in Hbad. apply Z.leb_gt in Hbad.
      apply (str_at_some _ _ (Z.to_nat (psz - 1))); [lia|done].
  - exists rc'. split; [done|]. intros Hok j fld Hlk. apply (Hrc' Hok); [lia|done].
Qed.

(** A device as a filter has exact values or nothing. *)
Definition device_like (d : USBFILTER) : Prop :=
  Forall (λ fld, fld_enmMatch fld ∈ [USBFILTERMATCH_IGNORE; USBFILTERMATCH_NUM_EXACT;
    USBFILTERMATCH_NUM_EXACT_NP; USBFILTERMATCH_STR_EXACT; USBFILTERMATCH_STR_EXACT_NP])
    (flt_aFields d).

Definition all_checked (f : USBFILTER) : Prop :=
  filter_typed f ∧ ∀ j fld, flt_aFields f !! j = Some fld → field_checked f (Z.of_nat j) fld.

Lemma checked_get_str f j fld :
  all_checked f → flt_aFields f !! j = Some fld →
  USBFilterIsMethodUsingStringValue (fld_enmMatch fld) = true →
  ∃ s, get_str f (Z.of_nat j) = Some s ∧ is_cstr s.
Proof.
  intros [(Hl&_&Hch&_) Hc] Hlk Hu. destruct (Hc j fld Hlk) as (_&_&Hs).
  destruct (Hs Hu) as [s Hat]. exists s. split.
  - unfold get_str, usbfilterGetString.
    rewrite idx_ok_nat by (rewrite <- Hl; by eapply lookup_lt_Some).
    unfold field. rewrite (proj2 (Z.ltb_ge _ _)) by lia. rewrite Nat2Z.id, Hlk, Hu. done.
  - unfold tab_str in Hat. eapply c_str_cstr; [by apply Forall_drop|done].
Qed.

Lemma numeric_not_string i : USBFilterIsNumericField i = true → USBFilterIsStringField i = true → False.
Proof. intros H1%numeric_field H2%string_field. lia. Qed.

(** The string of a device field that is there, for a filter field that wants one. *)
Lemma device_get_str d j df :
  all_checked d → device_like d → flt_aFields d !! j = Some df →
  USBFilterIsStringField (Z.of_nat j) = true → fld_enmMatch df ≠ USBFILTERMATCH_IGNORE →
  ∃ s, get_str d (Z.of_nat j) = Some s ∧ is_cstr s.
Proof.
  intros Hd Hdev Hlk Hsf Hni. apply (checked_get_str d j df Hd Hlk).
  pose proof (proj1 (Forall_lookup _ _) Hdev j df Hlk) as Hm. simpl in Hm.
  destruct Hd as [_ Hc]. destruct (Hc j df Hlk) as (Hn&_&_). clear Hc.
  destruct df as [m v]. cbn [fld_enmMatch] in *. known_method; try done.
  - exfalso. eapply numeric_not_string; [apply Hn; by left|done].
  - exfalso. eapply numeric_not_string; [apply Hn; by left|done].
Qed.

Lemma match_field_total f d i :
  all_checked f → all_checked d → device_like d → (i < 11)%nat →
  ∃ r, match_field f d i = Some r ∧ (r = None ∨ r = Some 1 ∨ r = Some 2).
Proof.
  intros Hf Hd Hdev Hi.
  destruct (lookup_lt_is_Some_2 (flt_aFields f) i) as [ff Hff]; [by rewrite (proj1 (proj1 Hf))|].
  destruct (lookup_lt_is_Some_2 (flt_aFields d) i) as [df Hdf]; [by rewrite (proj1 (proj1 Hd))|].
  pose proof (proj2 Hf i ff Hff) as (Hfn&Hfs&_).
  pose proof (checked_get_str f i ff Hf Hff) as Hfstr.
  assert (Hdstr : USBFilterIsMethodString (fld_enmMatch ff) = true → fld_enmMatch df ≠ USBFILTERMATCH_IGNORE →
            ∃ s, get_str d (Z.of_nat i) = Some s ∧ is_cstr s).
  { intros Hm Hni. apply (device_get_str d i df); auto. }
  unfold match_field. rewrite Hff, Hdf. cbn [mbind option_bind].
  destruct (Z.eqb_spec (fld_enmMatch df) USBFILTERMATCH_IGNORE) as [Hig|Hig]; cbn [orb negb andb];
  repeat match goal with
  | |- context [fld_enmMatch ff =? ?m] =>
      destruct (Z.eqb_spec (fld_enmMatch ff) m) as [Em|_];
      [rewrite ?Em in *; try (destruct (_ =? _); eexists; (split; [done|]); tauto);
       try (eexists; split; [done|]; tauto)|]
  end; try (eexists; split; [done|]; tauto);
  try (destruct Hfstr as (s&->&Hs); [done|]);
  try (destruct Hdstr as (t&->&Hst); [done|done|]); cbn [mbind option_bind].
  all: try (destruct (match_num_expression_spec s (fld_u16Value df) Hs) as (b&->&_)).
  all: try (destruct (match_pattern_spec s t Hs Hst) as (b&->&_)).
  all: cbn [mbind option_bind]; try destruct b; try case_bool_decide; cbn [negb];
    eexists; (split; [done|]); tauto.
Qed.

Lemma rate_loop_total f d n acc k :
  all_checked f → all_checked d → device_like d → (n + k = 11)%nat →
  Z.of_nat n ≤ acc ≤ 2 * Z.of_nat n →
  ∃ r, rate_loop f d (seq n k) acc = Some r ∧ (r = -1 ∨ 50 ≤ r ≤ 100).
Proof.
  intros Hf Hd Hdev. revert n acc. induction k as [|k IH]; intros n acc Hn Hacc.
  - eexists. split; [done|]. right. apply (percent_bounds acc). lia.
  - cbn [seq rate_loop].
    destruct (match_field_total f d n Hf Hd Hdev) as (r&->&Hr); [lia|]. cbn [mbind option_bind].
    destruct Hr as [->|[->| ->]]; [eexists; split; [done|by left]| |];
      apply IH; lia.
Qed.

(** * The theorems *)

(** Validation of a filter the setters made ends, and accepts it exactly if it has no
    numeric expression but empty ones. *)
Lemma filter_validate_spec f ty cs :
  represents f ty cs →
  USBFilterValidate (Some f)
  = Some (if existsb expr_string cs then VERR_INVALID_PARAMETER else VINF_SUCCESS).
Proof. apply validate_rep. Qed.

Lemma filter_validate_spec_witness :
  USBFilterValidate (Some demo_filter) = Some VINF_SUCCESS.
Proof. exact (filter_validate_spec demo_filter _ _ demo_filter_represents). Defined.

(** The setter for numeric expressions makes filters that the drivers refuse. *)
Lemma num_expression_refused :
  (r ← USBFilterSetNumExpression (USBFilterInit USBFILTERTYPE_CAPTURE) USBFILTERIDX_VENDOR_ID
         (Some (c_string "0x10-0x20")) true;
   rc ← USBFilterValidate (Some r.2); Some (r.1, rc))
  = Some (VINF_SUCCESS, VERR_INVALID_PARAMETER).
Proof. by vm_compute. Qed.

(** C26. Validation and matching stay inside the structures they are given, for structures of
    their types that have a string in their table, or else every string offset in the table
    ([offsets_checked]): validation of such a structure reads nothing outside of it and comes
    to an end; and matching two of them that pass validation, the second with exact values only,
    reads neither outside of the tables nor through a null pointer, and rates -1 or from 50
    to 100.  For a structure with an empty table and an offset behind it both are false of the
    code: validation does not check the offsets then, and it and matching read outside
    ([validation_hole]). *)
Theorem validated_match_safe f d :
  filter_typed f → offsets_checked f → filter_typed d → offsets_checked d →
  ∃ rcf rcd, USBFilterValidate (Some f) = Some rcf ∧ USBFilterValidate (Some d) = Some rcd
    ∧ (rcf = VINF_SUCCESS → rcd = VINF_SUCCESS → device_like d →
       ∃ r, USBFilterMatchRated f d = Some r ∧ (r = -1 ∨ 50 ≤ r ≤ 100)
            ∧ USBFilterMatch f d = Some (0 <? r)).
Proof.
  intros Hf Hfo Hd Hdo. destruct (validate_ok f Hf Hfo) as (rcf&Ef&Hcf).
  destruct (validate_ok d Hd Hdo) as (rcd&Ed&Hcd). exists rcf, rcd. split_and!; [done|done|].
  intros Hrf Hrd Hdev. unfold USBFilterMatch, USBFilterMatchRated.
  destruct (rate_loop_total f d 0 0 11) as (r&E&Hr).
  - split; [done|by apply Hcf].
  - split; [done|by apply Hcd].
  - done.
  - done.
  - lia.
  - exists r. rewrite E. done.
Qed.

(** A filter as it could come from ring 3: three fields, two of them in the same string. *)
Definition demo_ring3 : USBFILTER :=
  mkFilter USBFILTER_MAGIC USBFILTERTYPE_IGNORE
    (replicate 8 (mkField USBFILTERMATCH_IGNORE 0)
     ++ [mkField USBFILTERMATCH_STR_EXACT 1; mkField USBFILTERMATCH_STR_PATTERN 2;
         mkField USBFILTERMATCH_PRESENT 0])
    5 (table_of (c_string "acme" ++ [0])).

Definition demo_usb_device : USBDEVICE :=
  mkUsbDevice (Some (c_string "acme")) (Some (c_string "cme")) (Some (c_string "1")) 0x1234 7 0x100
    9 0 0 1 2.

Definition demo_device_filter : USBFILTER :=
  default (USBFilterInit 0)
    (initFilterFromDevice (USBFilterInit USBFILTERTYPE_CAPTURE) demo_usb_device).

Lemma validated_match_safe_witness :
  USBFilterValidate (Some demo_ring3) = Some VINF_SUCCESS
  ∧ ∃ r, USBFilterMatchRated demo_ring3 demo_device_filter = Some r ∧ (r = -1 ∨ 50 ≤ r ≤ 100).
Proof.
  assert (Ht : ∀ g, bool_decide (length (flt_aFields g) = 11%nat ∧ length (flt_achStrTab g) = 256%nat
            ∧ Forall (λ ch, 0 ≤ ch ≤ 255) (flt_achStrTab g) ∧ 0 ≤ flt_offCurEnd g
            ∧ Forall (λ fld, 0 ≤ fld_u16Value fld ≤ UINT16_MAX) (flt_aFields g)) = true → filter_typed g)
    by (intros g Hg; exact (proj1 (bool_decide_eq_true _) Hg)).
  assert (Hf : filter_typed demo_ring3) by (apply Ht; by vm_compute).
  assert (Hd : filter_typed demo_device_filter) by (apply Ht; by vm_compute).
  assert (Hof : offsets_checked demo_ring3) by (left; by vm_compute).
  assert (Hod : offsets_checked demo_device_filter) by (left; by vm_compute).
  destruct (validated_match_safe _ _ Hf Hof Hd Hod) as (rcf&rcd&Ef&Ed&H).
  assert (Hrf : USBFilterValidate (Some demo_ring3) = Some VINF_SUCCESS) by (by vm_compute).
  assert (Hrd : USBFilterValidate (Some demo_device_filter) = Some VINF_SUCCESS) by (by vm_compute).
  split; [done|]. destruct H as (r&Hr&Hb&_).
  - congruence.
  - congruence.
  - apply (bool_decide_unpack (Forall _ _)). by vm_compute.
  - by exists r.
Defined.

(** Without a string in the table the offsets are not checked: the validation accepts a field
    that refers to what is 65279 characters behind the end, where matching then reads; with
    an expression validation itself does. *)
Lemma validation_hole :
  let fld m := [mkField USBFILTERMATCH_IGNORE 0; mkField m 0xffff] in
  let g fs := mkFilter USBFILTER_MAGIC USBFILTERTYPE_CAPTURE fs 0 (replicate 256 0) in
  let f1 := g (replicate 7 (mkField USBFILTERMATCH_IGNORE 0) ++ fld USBFILTERMATCH_STR_EXACT
               ++ replicate 2 (mkField USBFILTERMATCH_IGNORE 0)) in
  let f2 := g (fld USBFILTERMATCH_NUM_EXPRESSION ++ replicate 9 (mkField USBFILTERMATCH_IGNORE 0)) in
  USBFilterValidate (Some f1) = Some VINF_SUCCESS ∧ get_str f1 8 = None
  ∧ USBFilterMatch f1 demo_device_filter = None ∧ USBFilterValidate (Some f2) = None.
Proof. by vm_compute. Qed.

(** The rate of a filter the setters made, for a device as a filter they made: no match
    (-1) unless every field accepts what the device has, and then the percentage of the
    rates of the criteria, between 50 and 100; so a filter matches exactly if every
    field accepts. *)
Lemma match_rated_spec f d tf td cs ds :
  represents f tf cs → represents d td ds → Forall device_crit ds →
  USBFilterMatchRated f d
  = Some (if all_accept cs (crit_val <$> ds)
          then if total_rate cs =? 22 then 100 else total_rate cs * 100 / 22 else -1)
  ∧ 50 ≤ (if total_rate cs =? 22 then 100 else total_rate cs * 100 / 22) ≤ 100
  ∧ USBFilterMatch f d = Some (all_accept cs (crit_val <$> ds)).
Proof.
  intros Hf Hd Hdev. split; [by apply (match_rated_eq f d tf td)|].
  split; [apply percent_bounds, total_rate_bounds, Hf|by apply (match_eq f d tf td)].
Qed.

Lemma demo_device_ok :
  device_typed demo_usb_device ∧ device_fits demo_usb_device.
Proof.
  split; [split|vm_compute; lia].
  - intros i. do 8 (destruct i as [|i]; [vm_compute; split; congruence|]). vm_compute; split; congruence.
  - intros i s. do 8 (destruct i as [|i]; [done|]).
    do 3 (destruct i as [|i]; [intros [= <-]; repeat constructor; vm_compute; congruence|]). done.
Qed.

Lemma demo_device_filter_represents :
  represents demo_device_filter USBFILTERTYPE_CAPTURE (device_criteria demo_usb_device).
Proof.
  destruct demo_device_ok as [H1 H2].
  destruct (init_filter_from_device USBFILTERTYPE_CAPTURE demo_usb_device eq_refl H1 H2) as (f&E&H).
  unfold demo_device_filter. by rewrite E.
Qed.

Lemma match_rated_spec_witness :
  USBFilterMatchRated demo_filter demo_device_filter = Some (-1)
  ∧ USBFilterMatch demo_device_filter demo_device_filter = Some true.
Proof.
  split.
  - destruct (match_rated_spec _ _ _ _ _ _ demo_filter_represents demo_device_filter_represents
                (device_criteria_dev _)) as [-> _]. by vm_compute.
  - destruct (match_rated_spec _ _ _ _ _ _ demo_device_filter_represents
                demo_device_filter_represents (device_criteria_dev _)) as (_&_&->). by vm_compute.
Defined.

(** C33. Matching a device of the host directly, and matching the filter that is made of it,
    give the same for every filter made by the setters, if the strings of the device fit into
    the table of a filter, 255 bytes with a terminator for each ([device_fits]): a match
    exactly if every field accepts.  With longer strings the two can differ, as the filter is
    then made without them ([long_strings_differ]). *)
Theorem match_device_equiv f tf cs ty pDev :
  represents f tf cs → type_ok ty = true → device_typed pDev → device_fits pDev →
  ∃ d, initFilterFromDevice (USBFilterInit ty) pDev = Some d
    ∧ USBFilterMatch f d = Some (all_accept cs (dev_vals pDev))
    ∧ USBFilterMatchDevice f pDev = Some (all_accept cs (dev_vals pDev)).
Proof.
  intros Hf Hty Hp Hfit. destruct (init_filter_from_device ty pDev Hty Hp Hfit) as (d&E&Hd).
  exists d. split; [done|]. split.
  - rewrite (match_eq f d tf ty cs _ Hf Hd) by apply device_criteria_dev.
    by rewrite device_criteria_vals.
  - apply (match_device_eq f tf cs pDev Hf). apply Hp.
Qed.

Lemma match_device_equiv_witness :
  ∃ d, initFilterFromDevice (USBFilterInit USBFILTERTYPE_CAPTURE) demo_usb_device = Some d
    ∧ USBFilterMatch demo_device_filter d = Some true
    ∧ USBFilterMatchDevice demo_device_filter demo_usb_device = Some true.
Proof.
  destruct demo_device_ok as [H1 H2].
  destruct (match_device_equiv _ _ _ USBFILTERTYPE_CAPTURE demo_usb_device
              demo_device_filter_represents eq_refl H1 H2) as (d&E&E1&E2).
  exists d. split; [done|]. assert (Ht : all_accept (device_criteria demo_usb_device)
    (dev_vals demo_usb_device) = true) by (by vm_compute). by rewrite E1, E2, Ht.
Defined.

(** A device with long strings is another one as a filter: the strings that did not fit are
    missing, and the errors only asserted. *)
Lemma long_strings_differ :
  let dev := mkUsbDevice (Some (replicate 200 97)) (Some [98]) (Some (replicate 100 99))
               1 2 3 4 5 6 7 8 in
  let f := from_option snd (USBFilterInit 4) (USBFilterSetPresentOnly (USBFilterInit 4) 8) in
  (d ← initFilterFromDevice (USBFilterInit 4) dev; USBFilterMatch f d) = Some false
  ∧ USBFilterMatchDevice f dev = Some true.
Proof. by vm_compute. Qed.

(** A field that a device only optionally has still counts as present: the method of the
    device field is only compared with [USBFILTERMATCH_IGNORE]. *)
Lemma optional_device_field_compared :
  (r ← USBFilterSetNumExact (USBFilterInit 4) USBFILTERIDX_BUS 0 true;
   r ← USBFilterSetMustBePresent r.2 USBFILTERIDX_BUS false;
   q ← USBFilterSetNumExact (USBFilterInit 4) USBFILTERIDX_BUS 3 true;
   q ← USBFilterSetMustBePresent q.2 USBFILTERIDX_BUS false;
   USBFilterMatch q.2 r.2) = Some false.
Proof. by vm_compute. Qed.
