(* ===== verification/UsbFilterMgr.v ===== *)
(** The manager of USB filters (HostDrivers/VBoxUSB/VBoxUSBFilterMgr.cpp): for each type of
    filters a singly linked list, with a pointer to its last node; nodes are allocated from the
    heap, and named by their addresses.

    A node is in the map [mgr_mem] from when it is allocated until it is freed.  An operation has no
    result ([None]) where the source would use memory that is not allocated, or the lock when
    it does not exist.  All lists are changed under the lock, and what is done outside of it
    is done to nodes that are not in a list, so an operation is one step.  The walks over a
    list have as much fuel as there are nodes.

    The lists are compared with sequences of entries, one for each type. *)

From S2P Require Import Prelude UsbExpr UsbFilter UsbMatch.
Local Open Scope Z_scope.

Definition VERR_FILE_NOT_FOUND : Z := -102.
(** [NIL_RTPROCESS] *)
Definition VBOXUSBFILTER_CONTEXT_NIL : Z := 0xffffffff.

(** * Data *)

Record VBOXUSBFILTER := mkUsbNode {
  und_Core : USBFILTER;
  und_Owner : Z;
  und_uId : Z;
  und_pNext : ptr
}.

Record VBOXUSBFILTERLIST := mkUsbList {
  ul_pHead : ptr;
  ul_pTail : ptr
}.

(** [mgr_lock]: the spinlock or mutex exists.  [mgr_aLists] is indexed by the type; its first entry
    is not used. *)
Record usbmgr := mkUsbMgr {
  mgr_lock : bool;
  mgr_mem : gmap Z VBOXUSBFILTER;
  mgr_aLists : list VBOXUSBFILTERLIST
}.

Definition with_mem (m : usbmgr) (mem : gmap Z VBOXUSBFILTER) : usbmgr :=
  mkUsbMgr (mgr_lock m) mem (mgr_aLists m).
Definition with_lists (m : usbmgr) (ls : list VBOXUSBFILTERLIST) : usbmgr :=
  mkUsbMgr (mgr_lock m) (mgr_mem m) ls.
Definition set_list (m : usbmgr) (i : nat) (l : VBOXUSBFILTERLIST) : usbmgr :=
  with_lists m (<[i := l]> (mgr_aLists m)).

(** [pNode->pNext = pNext] *)
Definition set_next (m : usbmgr) (p pNext : ptr) : option usbmgr :=
  nd ← mgr_mem m !! p;
  Some (with_mem m (<[p := mkUsbNode (und_Core nd) (und_Owner nd) (und_uId nd) pNext]> (mgr_mem m))).

(** [USBFILTERTYPE_FIRST] to the end of the array *)
Definition list_indices : list nat := [1; 2; 3; 4]%nat.

Definition fuel (m : usbmgr) : nat := S (size (mgr_mem m)).

(** * Operations *)

(** [rc]: what the creation of the lock returns. *)
Definition VBoxUSBFilterInit (rc : Z) (m : usbmgr) : Z * usbmgr :=
  if RT_SUCCESS rc then
    (rc, mkUsbMgr true (mgr_mem m)
           (take 1 (mgr_aLists m) ++ replicate 4 (mkUsbList NULL NULL)))
  else (rc, m).

(** What is stored in the node before it is freed cannot be seen. *)
Definition vboxUSBFilterFree (m : usbmgr) (p : ptr) : option usbmgr :=
  _ ← mgr_mem m !! p; Some (with_mem m (delete p (mgr_mem m))).

Fixpoint free_chain (n : nat) (m : usbmgr) (pCur : ptr) : option usbmgr :=
  match n with
  | O => None
  | S n =>
      if pCur =? NULL then Some m
      else
        nd ← mgr_mem m !! pCur;
        m ← vboxUSBFilterFree m pCur;
        free_chain n m (und_pNext nd)
  end.

Fixpoint term_lists (idxs : list nat) (m : usbmgr) : option usbmgr :=
  match idxs with
  | [] => Some m
  | i :: idxs' =>
      l ← mgr_aLists m !! i;
      m ← free_chain (fuel m) (set_list m i (mkUsbList NULL NULL)) (ul_pHead l);
      term_lists idxs' m
  end.

Definition VBoxUSBFilterTerm (m : usbmgr) : option usbmgr :=
  if mgr_lock m then term_lists list_indices (mkUsbMgr false (mgr_mem m) (mgr_aLists m)) else None.

(** [pNew]: what [RTMemAlloc] returns.  Status, what is stored through [puId], the state. *)
Definition VBoxUSBFilterAdd (m : usbmgr) (pFilter : option USBFILTER) (Owner : Z) (puId : ptr)
    (pNew : ptr) : option (Z * option Z * usbmgr) :=
  rc ← USBFilterValidate pFilter;
  if RT_FAILURE rc then Some (rc, None, m)
  else if (Owner =? 0) || (Owner =? VBOXUSBFILTER_CONTEXT_NIL)
  then Some (VERR_INVALID_PARAMETER, None, m)
  else if negb (VALID_PTR puId) then Some (VERR_INVALID_POINTER, None, m)
  else if pNew =? NULL then Some (VERR_NO_MEMORY, None, m)
  else
    f ← pFilter;
    let m := with_mem m (<[pNew := mkUsbNode f Owner pNew NULL]> (mgr_mem m)) in
    let i := Z.to_nat (flt_enmType f) in
    l ← mgr_aLists m !! i;
    if mgr_lock m then
      m ← (if negb (ul_pTail l =? NULL) then
             m ← set_next m (ul_pTail l) pNew;
             Some (set_list m i (mkUsbList (ul_pHead l) pNew))
           else Some (set_list m i (mkUsbList pNew pNew)));
      Some (VINF_SUCCESS, Some pNew, m)
    else None.

(** The walk of the searches: previous and found node. *)
Fixpoint find_walk (n : nat) (mem : gmap Z VBOXUSBFILTER)
    (pred : VBOXUSBFILTER → option bool) (pPrev pCur : ptr) : option (option (ptr * ptr)) :=
  match n with
  | O => None
  | S n =>
      if pCur =? NULL then Some None
      else
        nd ← mem !! pCur;
        b ← pred nd;
        if b : bool then Some (Some (pPrev, pCur))
        else find_walk n mem pred pCur (und_pNext nd)
  end.

(** Unlinking of [pCur] behind [pPrev], in list [i]. *)
Definition unlink (m : usbmgr) (i : nat) (pPrev pCur : ptr) : option usbmgr :=
  nd ← mgr_mem m !! pCur;
  let pNext := und_pNext nd in
  m ← (if negb (pPrev =? NULL) then set_next m pPrev pNext
       else l ← mgr_aLists m !! i; Some (set_list m i (mkUsbList pNext (ul_pTail l))));
  if pNext =? NULL then
    l ← mgr_aLists m !! i; Some (set_list m i (mkUsbList (ul_pHead l) pPrev))
  else Some m.

(** The search over the lists: where it was found. *)
Fixpoint find_lists (idxs : list nat) (m : usbmgr) (pred : VBOXUSBFILTER → option bool) :
    option (option (nat * ptr * ptr)) :=
  match idxs with
  | [] => Some None
  | i :: idxs' =>
      l ← mgr_aLists m !! i;
      r ← find_walk (fuel m) (mgr_mem m) pred NULL (ul_pHead l);
      match r with
      | Some (pPrev, pCur) => Some (Some (i, pPrev, pCur))
      | None => find_lists idxs' m pred
      end
  end.

Definition VBoxUSBFilterRemove (m : usbmgr) (Owner uId : Z) : option (Z * usbmgr) :=
  if uId =? 0 then Some (VERR_INVALID_PARAMETER, m)
  else if (Owner =? 0) || (Owner =? VBOXUSBFILTER_CONTEXT_NIL)
  then Some (VERR_INVALID_PARAMETER, m)
  else if mgr_lock m then
    r ← find_lists list_indices m (λ nd, Some ((und_uId nd =? uId) && (und_Owner nd =? Owner)));
    match r with
    | Some (i, pPrev, pCur) =>
        m ← unlink m i pPrev pCur;
        m ← vboxUSBFilterFree m pCur;
        Some (VINF_SUCCESS, m)
    | None => Some (VERR_FILE_NOT_FOUND, m)
    end
  else None.

(** The search goes on with the next list when it has found the filter. *)
Fixpoint owner_lists (idxs : list nat) (m : usbmgr) (uId Owner : Z) : option Z :=
  match idxs with
  | [] => Some Owner
  | i :: idxs' =>
      l ← mgr_aLists m !! i;
      r ← find_walk (fuel m) (mgr_mem m) (λ nd, Some (und_uId nd =? uId)) NULL (ul_pHead l);
      match r with
      | Some (_, pCur) => nd ← mgr_mem m !! pCur; owner_lists idxs' m uId (und_Owner nd)
      | None => owner_lists idxs' m uId Owner
      end
  end.

Definition VBoxUSBFilterGetOwner (m : usbmgr) (uId : Z) : option Z :=
  if uId =? 0 then Some VBOXUSBFILTER_CONTEXT_NIL
  else if mgr_lock m then owner_lists list_indices m uId VBOXUSBFILTER_CONTEXT_NIL
  else None.

(** One list: the nodes of the owner go to the chain [pToFree]. *)
Fixpoint purge_walk (n : nat) (m : usbmgr) (i : nat) (Owner : Z) (pPrev pCur pToFree : ptr) :
    option (usbmgr * ptr) :=
  match n with
  | O => None
  | S n =>
      if pCur =? NULL then Some (m, pToFree)
      else
        nd ← mgr_mem m !! pCur;
        if und_Owner nd =? Owner then
          m ← unlink m i pPrev pCur;
          m ← set_next m pCur pToFree;
          purge_walk n m i Owner pPrev (und_pNext nd) pCur
        else purge_walk n m i Owner pCur (und_pNext nd) pToFree
  end.

Fixpoint purge_lists (idxs : list nat) (m : usbmgr) (Owner : Z) (pToFree : ptr) :
    option (usbmgr * ptr) :=
  match idxs with
  | [] => Some (m, pToFree)
  | i :: idxs' =>
      l ← mgr_aLists m !! i;
      '(m, pToFree) ← purge_walk (fuel m) m i Owner NULL (ul_pHead l) pToFree;
      purge_lists idxs' m Owner pToFree
  end.

Definition VBoxUSBFilterRemoveOwner (m : usbmgr) (Owner : Z) : option usbmgr :=
  if mgr_lock m then
    '(m, pToFree) ← purge_lists list_indices m Owner NULL;
    free_chain (fuel m) m pToFree
  else None.

(** What [VBoxUSBFilterMatchEx] returns, and what it stores through its pointers. *)
Record match_result := mkMatchResult {
  mr_Owner : Z;
  mr_uId : option Z;
  mr_fFilter : option bool;
  mr_fIsOneShot : option bool
}.

Definition one_shot (i : nat) : bool :=
  (Z.of_nat i =? USBFILTERTYPE_ONESHOT_IGNORE) || (Z.of_nat i =? USBFILTERTYPE_ONESHOT_CAPTURE).
Definition captures (i : nat) : bool :=
  negb (Z.of_nat i =? USBFILTERTYPE_IGNORE) && negb (Z.of_nat i =? USBFILTERTYPE_ONESHOT_IGNORE).

Definition VBoxUSBFilterMatchEx (m : usbmgr) (pDevice : option USBFILTER)
    (fRemoveFltIfOneShot : bool) : option (match_result * usbmgr) :=
  rc ← USBFilterValidate pDevice;
  if RT_FAILURE rc then Some (mkMatchResult VBOXUSBFILTER_CONTEXT_NIL None None None, m)
  else if mgr_lock m then
    d ← pDevice;
    r ← find_lists list_indices m (λ nd, USBFilterMatch (und_Core nd) d);
    match r with
    | Some (i, pPrev, pCur) =>
        nd ← mgr_mem m !! pCur;
        m ← (if one_shot i && fRemoveFltIfOneShot then
               m ← unlink m i pPrev pCur; vboxUSBFilterFree m pCur
             else Some m);
        Some (mkMatchResult (und_Owner nd) (Some (und_uId nd)) (Some (captures i))
                (Some (one_shot i)), m)
    | None => Some (mkMatchResult VBOXUSBFILTER_CONTEXT_NIL (Some 0) (Some false) None, m)
    end
  else None.

(** Owner, what is stored through [puId], the state. *)
Definition VBoxUSBFilterMatch (m : usbmgr) (pDevice : option USBFILTER) :
    option (Z * option Z * usbmgr) :=
  '(r, m) ← VBoxUSBFilterMatchEx m pDevice true;
  Some (if default false (mr_fFilter r) then mr_Owner r else VBOXUSBFILTER_CONTEXT_NIL, mr_uId r, m).

(** * The specification: sequences of entries *)

(** A filter that was added: its id, the filter, its owner. *)
Record entry := mkUsbEntry { e_id : Z; e_flt : USBFILTER; e_owner : Z }.

Abbreviation ids := (fmap (M:=list) e_id).

Definition spec_remove (uId Owner : Z) (Ls : list (list entry)) : list (list entry) :=
  filter (λ e, ¬ (e_id e = uId ∧ e_owner e = Owner)) <$> Ls.

Definition spec_remove_owner (Owner : Z) (Ls : list (list entry)) : list (list entry) :=
  filter (λ e, e_owner e ≠ Owner) <$> Ls.

Definition spec_add (i : nat) (e : entry) (Ls : list (list entry)) : list (list entry) :=
  alter (λ es, es ++ [e]) i Ls.

(** The first entry that satisfies [p], in the order of the lists: the list, the entries
    before it, it, and those behind. *)
Fixpoint spec_find (p : entry → bool) (idxs : list nat) (Ls : list (list entry)) :
    option (nat * list entry * entry * list entry) :=
  match idxs with
  | [] => None
  | i :: idxs' =>
      match find_split p (default [] (Ls !! i)) with
      | Some (pre, e, post) => Some (i, pre, e, post)
      | None => spec_find p idxs' Ls
      end
  end.

Definition spec_match (d : USBFILTER) (Ls : list (list entry)) :=
  spec_find (λ e, default false (USBFilterMatch (e_flt e) d)) list_indices Ls.

Definition spec_owner (uId : Z) (Ls : list (list entry)) : Z :=
  match spec_find (λ e, e_id e =? uId) list_indices Ls with
  | Some (_, _, e, _) => e_owner e
  | None => VBOXUSBFILTER_CONTEXT_NIL
  end.

(** * Segments of a list *)

(** The nodes from [p] up to [q] are those of [es]. *)
Fixpoint lseg (mem : gmap Z VBOXUSBFILTER) (p : ptr) (es : list entry) (q : ptr) : Prop :=
  match es with
  | [] => p = q
  | e :: es' =>
      p = e_id e ∧ e_id e ≠ NULL
      ∧ ∃ nxt, mem !! p = Some (mkUsbNode (e_flt e) (e_owner e) (e_id e) nxt) ∧ lseg mem nxt es' q
  end.

(** The last node, or [dflt]. *)
Definition last_ptr (dflt : ptr) (es : list entry) : ptr :=
  match last es with Some e => e_id e | None => dflt end.

Lemma last_ptr_snoc dflt es e : last_ptr dflt (es ++ [e]) = e_id e.
Proof. unfold last_ptr. by rewrite last_snoc. Qed.

Lemma last_ptr_cons dflt e es : last_ptr dflt (e :: es) = last_ptr (e_id e) es.
Proof. unfold last_ptr. rewrite last_cons. by destruct (last es). Qed.

Lemma last_ptr_app dflt es1 es2 : last_ptr dflt (es1 ++ es2) = last_ptr (last_ptr dflt es1) es2.
Proof. unfold last_ptr. rewrite last_app. by destruct (last es2), (last es1). Qed.

Section lseg.
Implicit Types mem : gmap Z VBOXUSBFILTER.

Lemma lseg_app mem p es1 es2 q :
  lseg mem p (es1 ++ es2) q ↔ ∃ r, lseg mem p es1 r ∧ lseg mem r es2 q.
Proof.
  revert p. induction es1 as [|e es1 IH]; intros p; simpl.
  - split; [eauto|]. by intros (r&->&?).
  - split.
    + intros (->&?&nxt&Hm&H). apply IH in H as (r&?&?). eauto 10.
    + intros (r&(->&?&nxt&Hm&H)&?). split_and!; [done|done|]. exists nxt. split; [done|].
      apply IH. eauto.
Qed.

Lemma lseg_frame mem mem' p es q :
  (∀ a, a ∈ ids es → mem' !! a = mem !! a) → lseg mem p es q → lseg mem' p es q.
Proof.
  revert p. induction es as [|e es IH]; intros p Hf; simpl; [done|].
  intros (->&?&nxt&Hm&H). split_and!; [done|done|]. exists nxt. split.
  - rewrite Hf; [done|]. by apply elem_of_cons; left.
  - apply IH; [|done]. intros a Ha. apply Hf. by apply elem_of_cons; right.
Qed.

Lemma lseg_in mem p es q a : lseg mem p es q → a ∈ ids es → a ≠ NULL ∧ is_Some (mem !! a).
Proof.
  revert p. induction es as [|e es IH]; intros p; simpl; [by intros _ ?%not_elem_of_nil|].
  intros (->&?&nxt&Hm&H) [->|Ha]%elem_of_cons; [eauto|by eapply IH].
Qed.

(** A list ends where its pointer is null. *)
Lemma lseg_null mem es : lseg mem NULL es NULL → es = [].
Proof. destruct es as [|e es]; [done|]. simpl. intros (?&?&_). congruence. Qed.

Lemma lseg_nonnull mem p es : lseg mem p es NULL → p ≠ NULL → ∃ e es', es = e :: es' ∧ p = e_id e.
Proof. destruct es as [|e es]; simpl; [done|]. intros (->&_) _. eauto. Qed.

(** The end of a segment is redirected. *)
Lemma lseg_redirect mem p es e q q' nd :
  NoDup (ids (es ++ [e])) → lseg mem p (es ++ [e]) q → mem !! e_id e = Some nd →
  lseg (<[e_id e := mkUsbNode (und_Core nd) (und_Owner nd) (und_uId nd) q']> mem) p (es ++ [e]) q'.
Proof.
  intros Hnd (r&H1&H2)%lseg_app Hm. apply lseg_app. exists r. split.
  - eapply lseg_frame; [|done]. intros a Ha. apply lookup_insert_ne. intros <-.
    rewrite fmap_app in Hnd. apply list.NoDup_app in Hnd as (_&Hd&_). apply (Hd _ Ha).
    by apply list_elem_of_singleton.
  - simpl in *. destruct H2 as (->&?&nxt&Hn&->). rewrite Hm in Hn. injection Hn as ->.
    split_and!; [done|done|]. exists q'. by rewrite lookup_insert_eq.
Qed.
End lseg.

(** What a list is: a null-terminated segment, and its last node. *)
Definition list_ok (mem : gmap Z VBOXUSBFILTER) (l : VBOXUSBFILTERLIST) (es : list entry) : Prop :=
  lseg mem (ul_pHead l) es NULL ∧ ul_pTail l = last_ptr NULL es.

(** Searching in a segment. *)
Lemma find_walk_spec n mem pred p prev es (f : entry → bool) :
  lseg mem p es NULL → (length es < n)%nat →
  (∀ e nxt, e ∈ es → pred (mkUsbNode (e_flt e) (e_owner e) (e_id e) nxt) = Some (f e)) →
  find_walk n mem pred prev p
  = Some (match find_split f es with
          | Some (pre, e, _) => Some (last_ptr prev pre, e_id e)
          | None => None
          end).
Proof.
  intros Hl Hn Hp. revert n p prev Hl Hn. induction es as [|e es IH]; intros n p prev Hl Hn;
    (destruct n as [|n]; [simpl in Hn; lia|]); cbn [find_walk find_split].
  - simpl in Hl. subst p. done.
  - destruct Hl as (->&Hne&nxt&Hm&Hl). rewrite (proj2 (Z.eqb_neq _ _) Hne), Hm.
    cbn [mbind option_bind]. rewrite Hp by (by apply elem_of_cons; left). cbn [mbind option_bind].
    destruct (f e); [done|]. cbn [und_pNext].
    rewrite IH; [| |done|simpl in Hn; lia].
    + destruct (find_split f es) as [[[pre e'] post]|]; [|done]. by rewrite last_ptr_cons.
    + intros e' nxt' He'. apply Hp. by apply elem_of_cons; right.
Qed.

(** * The state and the sequences *)

Definition entry_ok (i : nat) (e : entry) : Prop :=
  flt_enmType (e_flt e) = Z.of_nat i ∧ USBFilterValidate (Some (e_flt e)) = Some VINF_SUCCESS
  ∧ all_checked (e_flt e) ∧ e_owner e ≠ 0 ∧ e_owner e ≠ VBOXUSBFILTER_CONTEXT_NIL.

(** Every node is in at most one place. *)
Definition distinct (Ls : list (list entry)) : Prop :=
  (∀ i es, Ls !! i = Some es → NoDup (ids es))
  ∧ (∀ i j es es' a, Ls !! i = Some es → Ls !! j = Some es' → a ∈ ids es → a ∈ ids es' → i = j).

Definition listed (Ls : list (list entry)) (a : Z) : Prop :=
  ∃ i es, Ls !! i = Some es ∧ a ∈ ids es.

Definition lists_ok (m : usbmgr) (Ls : list (list entry)) : Prop :=
  length (mgr_aLists m) = 5%nat ∧ length Ls = 5%nat ∧ Ls !! 0%nat = Some []
  ∧ (∀ i es, Ls !! i = Some es → ∃ l, mgr_aLists m !! i = Some l ∧ list_ok (mgr_mem m) l es)
  ∧ distinct Ls
  ∧ (∀ i es e, Ls !! i = Some es → e ∈ es → entry_ok i e).

(** The manager has the filters [Ls], and nothing else is allocated. *)
Definition mgr_rep (m : usbmgr) (Ls : list (list entry)) : Prop :=
  lists_ok m Ls ∧ (∀ a, is_Some (mgr_mem m !! a) ↔ listed Ls a).

(** The sequence of a list is as long as there are nodes. *)
Lemma list_short m Ls i es :
  lists_ok m Ls → Ls !! i = Some es → (length es < fuel m)%nat.
Proof.
  intros (_&_&_&Hl&[Hnd _]&_) Hi. destruct (Hl i es Hi) as (l&_&Hseg&_). unfold fuel.
  assert (list_to_set (C:=gset Z) (ids es) ⊆ dom (mgr_mem m)).
  { intros a Ha. apply elem_of_list_to_set in Ha. apply elem_of_dom. by eapply lseg_in. }
  apply subseteq_size in H. rewrite size_list_to_set in H by (by eapply Hnd).
  rewrite length_fmap, size_dom in H. lia.
Qed.

Lemma lists_lookup m Ls i :
  lists_ok m Ls → (i < 5)%nat →
  ∃ l es, mgr_aLists m !! i = Some l ∧ Ls !! i = Some es ∧ list_ok (mgr_mem m) l es.
Proof.
  intros (Hlm&HlL&_&Hl&_) Hi. destruct (lookup_lt_is_Some_2 Ls i) as [es Hes]; [lia|].
  destruct (Hl i es Hes) as (l&?&?). eauto.
Qed.

(** Searching all lists. *)
Lemma find_lists_spec idxs m Ls pred (f : entry → bool) :
  lists_ok m Ls → Forall (λ i, i < 5)%nat idxs →
  (∀ i es e nxt, Ls !! i = Some es → e ∈ es →
     pred (mkUsbNode (e_flt e) (e_owner e) (e_id e) nxt) = Some (f e)) →
  find_lists idxs m pred
  = Some (match spec_find f idxs Ls with
          | Some (i, pre, e, _) => Some (i, last_ptr NULL pre, e_id e)
          | None => None
          end).
Proof.
  intros Hok Hidx Hp. induction Hidx as [|i idxs Hi Hidx IH]; cbn [find_lists spec_find]; [done|].
  destruct (lists_lookup m Ls i Hok Hi) as (l&es&Hl&Hes&Hseg&_). rewrite Hl, Hes.
  cbn [mbind option_bind from_option id].
  rewrite (find_walk_spec _ _ _ _ _ es f) by (first [done|by eapply list_short|intros; by eapply Hp]).
  cbn [mbind option_bind]. destruct (find_split f es) as [[[pre e] post]|]; done.
Qed.

Lemma list_indices_lt : Forall (λ i, i < 5)%nat list_indices.
Proof. repeat constructor. Qed.

Lemma spec_find_Some f idxs Ls i pre e post :
  spec_find f idxs Ls = Some (i, pre, e, post) → Forall (λ i, i < length Ls)%nat idxs →
  Ls !! i = Some (pre ++ e :: post) ∧ f e = true ∧ i ∈ idxs ∧ Forall (λ e', f e' = false) pre
  ∧ ∃ before after, idxs = before ++ i :: after
      ∧ ∀ j es, j ∈ before → Ls !! j = Some es → Forall (λ e', f e' = false) es.
Proof.
  intros H Hlt. induction Hlt as [|k idxs Hk Hlt IH]; cbn [spec_find] in H; [done|].
  destruct (lookup_lt_is_Some_2 Ls k Hk) as [es Hes]. rewrite Hes in H. cbn [from_option id] in H.
  destruct (find_split f es) as [[[pre' e'] post']|] eqn:E.
  - injection H as <- <- <- <-. apply find_split_Some in E as (->&?&?).
    split_and!; [done|done|by apply elem_of_cons; left|done|]. exists [], idxs. split; [done|].
    by intros j es' ?%not_elem_of_nil.
  - destruct (IH H) as (?&?&?&?&before&after&->&Hb). split_and!; [done|done| |done|].
    + apply elem_of_cons. by right.
    + exists (k :: before), after. split; [done|]. intros j es' [->|Hj]%elem_of_cons Hes'; [|eauto].
      rewrite Hes in Hes'. injection Hes' as <-. by apply find_split_None.
Qed.

Lemma spec_find_None f idxs Ls :
  spec_find f idxs Ls = None → ∀ i es, i ∈ idxs → Ls !! i = Some es → Forall (λ e, f e = false) es.
Proof.
  induction idxs as [|k idxs IH]; cbn [spec_find]; [by intros _ i es ?%not_elem_of_nil|].
  destruct (find_split f _) as [[[? ?] ?]|] eqn:E; [done|]. intros H i es [->|Hi]%elem_of_cons Hes.
  - rewrite Hes in E. by apply find_split_None.
  - eauto.
Qed.

(** ** Unlinking *)

(** What of the heap a change of list [i] leaves alone. *)
Lemma usb_unlink_spec m i es1 e es2 l :
  mgr_aLists m !! i = Some l → list_ok (mgr_mem m) l (es1 ++ e :: es2) →
  NoDup (ids (es1 ++ e :: es2)) →
  ∃ mem' l', unlink m i (last_ptr NULL es1) (e_id e)
    = Some (mkUsbMgr (mgr_lock m) mem' (<[i := l']> (mgr_aLists m)))
    ∧ list_ok mem' l' (es1 ++ es2)
    ∧ (∀ a, a ∉ ids es1 → mem' !! a = mgr_mem m !! a)
    ∧ (∀ a, is_Some (mem' !! a) ↔ is_Some (mgr_mem m !! a)).
Proof.
  intros Hl [Hseg Htail] Hnd. apply lseg_app in Hseg as (r&H1&H2).
  simpl in H2. destruct H2 as (->&Hne&nxt&Hm&H2).
  assert (Hnd1 : e_id e ∉ ids es1 ∧ NoDup (ids es1) ∧ (∀ a, a ∈ ids es2 → a ∉ ids es1)).
  { rewrite fmap_app in Hnd. cbn in Hnd. apply list.NoDup_app in Hnd as (Hnda&Hd&Hndb). split_and!; [|done|].
    - intros H. apply (Hd _ H), elem_of_cons. by left.
    - intros a Ha Ha1. apply (Hd _ Ha1), elem_of_cons. by right. }
  destruct Hnd1 as (Hni&Hnd1&Hd). unfold unlink. rewrite Hm. cbn [mbind option_bind und_pNext].
  assert (Hilt : (i < length (mgr_aLists m))%nat) by (by eapply lookup_lt_Some).
  (* the new link *)
  assert (Hlink : ∃ mem' hd, (if negb (last_ptr NULL es1 =? NULL) then set_next m (last_ptr NULL es1) nxt
       else l ← mgr_aLists m !! i; Some (set_list m i (mkUsbList nxt (ul_pTail l))))
       = Some (mkUsbMgr (mgr_lock m) mem' (<[i := mkUsbList hd (ul_pTail l)]> (mgr_aLists m)))
       ∧ lseg mem' hd (es1 ++ es2) NULL
       ∧ (∀ a, a ∉ ids es1 → mem' !! a = mgr_mem m !! a)
       ∧ (∀ a, is_Some (mem' !! a) ↔ is_Some (mgr_mem m !! a))).
  { destruct es1 as [|e1 es1 _] using rev_ind.
    - cbn. rewrite Hl. cbn. exists (mgr_mem m), nxt. split_and!; done.
    - rewrite last_ptr_snoc.
      assert (Hin : e_id e1 ∈ ids (es1 ++ [e1])) by (rewrite fmap_app; set_solver).
      destruct (lseg_in _ _ _ _ _ H1 Hin) as [Hn1 [nd Hnd1']].
      rewrite (proj2 (Z.eqb_neq _ _) Hn1). cbn [negb]. unfold set_next. rewrite Hnd1'.
      cbn [mbind option_bind]. eexists _, (ul_pHead l). split.
      { unfold with_mem. rewrite list_insert_id; [done|]. rewrite Hl. by destruct l. }
      split_and!.
      + apply lseg_app. exists nxt. split; [by eapply lseg_redirect|].
        eapply lseg_frame; [|done]. intros a Ha. apply lookup_insert_ne. intros <-. by apply (Hd _ Ha).
      + intros a Ha. apply lookup_insert_ne. by intros <-.
      + intros a. destruct (decide (a = e_id e1)) as [->|].
        * rewrite lookup_insert_eq, Hnd1'. split; by eexists.
        * by rewrite lookup_insert_ne. }
  destruct Hlink as (mem'&hd&->&Hs&Hfr&Hdom). cbn [mbind option_bind].
  assert (Ht : last_ptr NULL (es1 ++ e :: es2) = last_ptr (e_id e) es2)
    by (by rewrite last_ptr_app, last_ptr_cons).
  destruct (Z.eqb_spec nxt NULL) as [->|Hnn].
  - apply lseg_null in H2 as ->. cbn [mgr_aLists]. rewrite list_lookup_insert_eq by done.
    cbn [mbind option_bind]. exists mem', (mkUsbList hd (last_ptr NULL es1)).
    split_and!; [|split; [done|]|done|done].
    + unfold set_list, with_lists. cbn. by rewrite list_insert_insert_eq.
    + cbn. by rewrite app_nil_r.
  - exists mem', (mkUsbList hd (ul_pTail l)). split_and!; [done|split; [done|]|done|done].
    cbn. rewrite Htail, Ht, last_ptr_app.
    destruct (lseg_nonnull _ _ _ H2 Hnn) as (e2&es2'&->&_). by rewrite !last_ptr_cons.
Qed.

(** * Changing a list *)

(** The sequence of list [i] is replaced: its entries stay, or are new. *)
Lemma lists_ok_update m Ls i es es' mem' l' lk :
  lists_ok m Ls → Ls !! i = Some es → i ≠ 0%nat → list_ok mem' l' es' → NoDup (ids es') →
  (∀ e, e ∈ es' → e ∈ es ∨ ¬ listed Ls (e_id e) ∧ entry_ok i e) →
  (∀ a, a ∉ ids es → listed Ls a → mem' !! a = mgr_mem m !! a) →
  lists_ok (mkUsbMgr lk mem' (<[i := l']> (mgr_aLists m))) (<[i := es']> Ls).
Proof.
  intros (Hlm&HlL&H0&Hls&[Hnd Hdis]&Hent) Hes Hi Hok Hnd' Hsub Hfr.
  assert (Hilt : (i < length Ls)%nat) by (by eapply lookup_lt_Some).
  split_and!; cbn [mgr_aLists mgr_mem].
  - by rewrite length_insert.
  - by rewrite length_insert.
  - by rewrite list_lookup_insert_ne.
  - intros j es0 Hj. destruct (decide (j = i)) as [->|Hji].
    + rewrite list_lookup_insert_eq in Hj by done. injection Hj as <-.
      exists l'. rewrite list_lookup_insert_eq by lia. done.
    + rewrite list_lookup_insert_ne in Hj by done. rewrite list_lookup_insert_ne by done.
      destruct (Hls j es0 Hj) as (l&Hl&Hseg&Ht). exists l. split; [done|]. split; [|done].
      eapply lseg_frame; [|done]. intros a Ha. apply Hfr; [|by exists j, es0].
      intros Ha'. apply Hji. by eapply Hdis.
  - assert (Hnew : ∀ j es0 a, j ≠ i → Ls !! j = Some es0 → a ∈ ids es0 → a ∈ ids es' → False).
    { intros j es0 a Hji Hj Ha (e&->&He)%list_elem_of_fmap.
      destruct (Hsub e He) as [He'|[Hn _]].
      - apply Hji. eapply Hdis; [done|done|done|]. by apply list_elem_of_fmap_2.
      - apply Hn. by exists j, es0. }
    split.
    + intros j es0 Hj. destruct (decide (j = i)) as [->|Hji].
      * rewrite list_lookup_insert_eq in Hj by done. by injection Hj as <-.
      * rewrite list_lookup_insert_ne in Hj by done. by eapply Hnd.
    + intros j k es1 es2 a Hj Hk Ha1 Ha2.
      destruct (decide (j = i)) as [->|Hji], (decide (k = i)) as [->|Hki]; [done| | |].
      * rewrite list_lookup_insert_eq in Hj by done. rewrite list_lookup_insert_ne in Hk by done.
        injection Hj as <-. exfalso. by eapply (Hnew k).
      * rewrite list_lookup_insert_eq in Hk by done. rewrite list_lookup_insert_ne in Hj by done.
        injection Hk as <-. exfalso. by eapply (Hnew j).
      * rewrite list_lookup_insert_ne in Hj, Hk by done. by eapply Hdis.
  - intros j es0 e Hj He. destruct (decide (j = i)) as [->|Hji].
    + rewrite list_lookup_insert_eq in Hj by done. injection Hj as <-.
      destruct (Hsub e He) as [?|[_ ?]]; [by eapply Hent|done].
    + rewrite list_lookup_insert_ne in Hj by done. by eapply Hent.
Qed.

Lemma listed_insert Ls i es es' a :
  distinct Ls → Ls !! i = Some es →
  listed (<[i := es']> Ls) a ↔ (listed Ls a ∧ a ∉ ids es) ∨ a ∈ ids es'.
Proof.
  intros [_ Hdis] Hes. assert (Hilt : (i < length Ls)%nat) by (by eapply lookup_lt_Some). split.
  - intros (j&es0&Hj&Ha). destruct (decide (j = i)) as [->|Hji].
    + rewrite list_lookup_insert_eq in Hj by done. injection Hj as <-. by right.
    + rewrite list_lookup_insert_ne in Hj by done. left. split; [by exists j, es0|].
      intros Ha'. apply Hji. by eapply Hdis.
  - intros [[(j&es0&Hj&Ha) Hn]|Ha].
    + exists j, es0. split; [|done]. rewrite list_lookup_insert_ne; [done|].
      intros <-. rewrite Hes in Hj. by injection Hj as ->.
    + exists i, es'. by rewrite list_lookup_insert_eq.
Qed.

Lemma ids_app (l1 l2 : list entry) : ids (l1 ++ l2) = ids l1 ++ ids l2.
Proof. apply fmap_app. Qed.

(** A node is unlinked and freed. *)
Lemma unlink_free_spec m Ls i pre e post :
  mgr_rep m Ls → Ls !! i = Some (pre ++ e :: post) → i ≠ 0%nat →
  ∃ m', (m1 ← unlink m i (last_ptr NULL pre) (e_id e); vboxUSBFilterFree m1 (e_id e)) = Some m'
        ∧ mgr_rep m' (<[i := pre ++ post]> Ls) ∧ mgr_lock m' = mgr_lock m.
Proof.
  intros [Hok Hdom] Hes Hi. pose proof Hok as (_&_&_&Hls&[Hnd Hdis]&_).
  destruct (Hls i _ Hes) as (l&Hl&Hlok). pose proof (Hnd i _ Hes) as Hndi.
  destruct (usb_unlink_spec m i pre e post l Hl Hlok Hndi) as (mem'&l'&->&Hlok'&Hfr&Hdom').
  assert (Hin : listed Ls (e_id e)).
  { exists i, (pre ++ e :: post). split; [done|]. rewrite ids_app. cbn. set_solver. }
  assert (He : is_Some (mem' !! e_id e)) by (by apply Hdom', Hdom).
  assert (Hn : NoDup (ids (pre ++ post)) ∧ e_id e ∉ ids (pre ++ post)).
  { rewrite ids_app in Hndi |- *. cbn in Hndi. rewrite <- Permutation_middle in Hndi.
    by apply list.NoDup_cons in Hndi as [??]. }
  destruct Hn as [Hnd' Hne]. cbn [mbind option_bind]. unfold vboxUSBFilterFree.
  cbn [mgr_mem]. destruct He as [nd Hnd0]. rewrite Hnd0. cbn [mbind option_bind].
  eexists. split; [done|]. split; [|done]. unfold with_mem. cbn [mgr_lock mgr_mem mgr_aLists].
  split.
  - eapply lists_ok_update; [done|done|done| |done| |].
    + destruct Hlok' as [Hs Ht]. split; [|done]. eapply lseg_frame; [|done].
      intros a Ha. apply lookup_delete_ne. by intros <-.
    + intros e' He'. left. set_solver.
    + intros a Ha _. rewrite ids_app in Ha. cbn in Ha. rewrite lookup_delete_ne by set_solver.
      apply Hfr. set_solver.
  - intros a. cbn [mgr_mem]. rewrite (listed_insert Ls i _ _ a ltac:(done) Hes).
    destruct (decide (a = e_id e)) as [->|Hae].
    + rewrite lookup_delete_eq. split; [by intros []|]. intros [[_ H]|H]; [|done].
      destruct H. rewrite ids_app. cbn. set_solver.
    + rewrite lookup_delete_ne by done. rewrite Hdom', Hdom. rewrite !ids_app. cbn. split.
      * intros H. destruct (decide (a ∈ ids pre ++ ids post)); [by right|left].
        split; [done|]. set_solver.
      * intros [[H _]|H]; [done|]. exists i, (pre ++ e :: post). split; [done|].
        rewrite ids_app. cbn. set_solver.
Qed.

Lemma find_lists_rep m Ls pred (f : entry → bool) :
  mgr_rep m Ls →
  (∀ i es e nxt, Ls !! i = Some es → e ∈ es →
     pred (mkUsbNode (e_flt e) (e_owner e) (e_id e) nxt) = Some (f e)) →
  find_lists list_indices m pred
  = Some (match spec_find f list_indices Ls with
          | Some (i, pre, e, _) => Some (i, last_ptr NULL pre, e_id e)
          | None => None
          end).
Proof. intros [Hok _] Hp. by apply find_lists_spec; [|apply list_indices_lt|]. Qed.

Lemma spec_find_rep m Ls f i pre e post :
  mgr_rep m Ls → spec_find f list_indices Ls = Some (i, pre, e, post) →
  Ls !! i = Some (pre ++ e :: post) ∧ f e = true ∧ (1 ≤ i ≤ 4)%nat
  ∧ ∃ nxt, mgr_mem m !! e_id e = Some (mkUsbNode (e_flt e) (e_owner e) (e_id e) nxt).
Proof.
  intros [Hok _] H. pose proof Hok as (_&HlL&_&Hls&_).
  apply spec_find_Some in H as (Hes&Hf&Hi&_).
  2: { rewrite HlL. apply list_indices_lt. }
  assert (1 ≤ i ≤ 4)%nat by (unfold list_indices in Hi; rewrite !elem_of_cons, elem_of_nil in Hi; lia).
  split_and!; [done|done|lia|lia|]. destruct (Hls i _ Hes) as (l&_&Hseg&_).
  apply lseg_app in Hseg as (r&_&Hr). simpl in Hr. destruct Hr as (->&_&nxt&Hm&_). by exists nxt.
Qed.

(** * Removing *)

Lemma spec_remove_at Ls i pre e post :
  distinct Ls → Ls !! i = Some (pre ++ e :: post) →
  spec_remove (e_id e) (e_owner e) Ls = <[i := pre ++ post]> Ls.
Proof.
  intros [Hnd Hdis] Hes. apply list_eq. intros j. unfold spec_remove. rewrite list_lookup_fmap.
  assert (Hne : ∀ e', e' ∈ pre ++ post → e_id e' ≠ e_id e).
  { pose proof (Hnd i _ Hes) as H. rewrite ids_app in H. cbn in H.
    rewrite <- Permutation_middle in H. apply list.NoDup_cons in H as [H _].
    intros e' He' Heq. apply H. rewrite <- Heq, <- ids_app. by apply list_elem_of_fmap_2. }
  destruct (decide (j = i)) as [->|Hji].
  - rewrite list_lookup_insert_eq, Hes by (by eapply lookup_lt_Some). simpl. f_equal.
    rewrite filter_app, filter_cons_False by tauto. rewrite <- filter_app. apply filter_all.
    apply Forall_forall. intros e' He' [? _]. by apply (Hne e').
  - rewrite list_lookup_insert_ne by done. destruct (Ls !! j) as [es|] eqn:Hj; [|done].
    simpl. f_equal. apply filter_all. apply Forall_forall. intros e' He' [Heq _].
    apply Hji. eapply (Hdis j i es _ (e_id e)); [done|done| |].
    + rewrite <- Heq. by apply list_elem_of_fmap_2.
    + rewrite ids_app. cbn. set_solver.
Qed.

Lemma spec_remove_none Ls uId Owner :
  (∀ i es, Ls !! i = Some es → Forall (λ e, (e_id e =? uId) && (e_owner e =? Owner) = false) es) →
  spec_remove uId Owner Ls = Ls.
Proof.
  intros H. apply list_eq. intros j. unfold spec_remove. rewrite list_lookup_fmap.
  destruct (Ls !! j) as [es|] eqn:Hj; [|done]. simpl. f_equal. apply filter_all.
  eapply Forall_impl; [by eapply H|]. simpl. intros e He [H1 H2]. by rewrite H1, H2, !Z.eqb_refl in He.
Qed.

(** What a search that failed says of all lists. *)
Lemma spec_find_all m Ls f :
  mgr_rep m Ls → spec_find f list_indices Ls = None →
  ∀ i es, Ls !! i = Some es → Forall (λ e, f e = false) es.
Proof.
  intros [(_&HlL&H0&_) _] Hn i es Hes. destruct (decide (i = 0)%nat) as [->|].
  - rewrite H0 in Hes. injection Hes as <-. constructor.
  - apply (spec_find_None _ _ _ Hn i es); [|done].
    assert (i < 5)%nat by (rewrite <- HlL; by eapply lookup_lt_Some). unfold list_indices.
    rewrite !elem_of_cons, elem_of_nil. lia.
Qed.

Definition has_entry (uId Owner : Z) (Ls : list (list entry)) : bool :=
  existsb (existsb (λ e, (e_id e =? uId) && (e_owner e =? Owner))) Ls.

Lemma has_entry_spec m Ls uId Owner :
  mgr_rep m Ls →
  has_entry uId Owner Ls
  = bool_decide (is_Some (spec_find (λ e, (e_id e =? uId) && (e_owner e =? Owner)) list_indices Ls)).
Proof.
  intros Hrep. unfold has_entry.
  destruct (spec_find _ _ _) as [[[[i pre] e] post]|] eqn:E.
  - rewrite bool_decide_true by done. destruct (spec_find_rep _ _ _ _ _ _ _ Hrep E) as (Hes&Hf&_).
    apply existsb_exists. exists (pre ++ e :: post). split; [by eapply list_elem_of_In, list_elem_of_lookup_2|].
    apply existsb_exists. exists e. split; [|done]. apply list_elem_of_In. set_solver.
  - rewrite bool_decide_false by (by intros []). apply not_true_iff_false.
    intros (es&Hin&(e&He&Hf)%existsb_exists)%existsb_exists.
    apply list_elem_of_In, list_elem_of_lookup in Hin as [i Hi].
    pose proof (spec_find_all _ _ _ Hrep E i es Hi) as H. rewrite Forall_forall in H.
    rewrite (H e) in Hf by (by apply list_elem_of_In). done.
Qed.

Lemma remove_spec m Ls Owner uId :
  mgr_rep m Ls → mgr_lock m = true →
  ∃ m', VBoxUSBFilterRemove m Owner uId
    = Some (if (uId =? 0) || ((Owner =? 0) || (Owner =? VBOXUSBFILTER_CONTEXT_NIL))
            then VERR_INVALID_PARAMETER
            else if has_entry uId Owner Ls then VINF_SUCCESS else VERR_FILE_NOT_FOUND, m')
    ∧ mgr_rep m' (if (uId =? 0) || ((Owner =? 0) || (Owner =? VBOXUSBFILTER_CONTEXT_NIL))
                  then Ls else spec_remove uId Owner Ls)
    ∧ mgr_lock m' = true.
Proof.
  intros Hrep Hlk. unfold VBoxUSBFilterRemove. destruct (uId =? 0); cbn [orb]; [by exists m|].
  destruct (_ || _); [by exists m|]. rewrite Hlk, (has_entry_spec m) by done.
  rewrite (find_lists_rep m Ls _ (λ e, (e_id e =? uId) && (e_owner e =? Owner))) by done.
  cbn [mbind option_bind]. destruct (spec_find _ _ _) as [[[[i pre] e] post]|] eqn:E.
  - rewrite bool_decide_true by done.
    destruct (spec_find_rep _ _ _ _ _ _ _ Hrep E) as (Hes&[He1%Z.eqb_eq He2%Z.eqb_eq]%andb_true_iff&Hi&_).
    destruct (unlink_free_spec m Ls i pre e post Hrep Hes ltac:(lia)) as (m'&Hm&Hrep'&Hlk').
    destruct (unlink m i (last_ptr NULL pre) (e_id e)) as [m1|]; [|done].
    cbn [mbind option_bind] in *. rewrite Hm. cbn [mbind option_bind]. exists m'.
    split; [done|]. rewrite <- He1, <- He2, (spec_remove_at Ls i pre e post) by (try done; apply Hrep).
    split; [done|congruence].
  - rewrite bool_decide_false by (by intros []). exists m. split; [done|].
    rewrite spec_remove_none; [done|]. by apply (spec_find_all m).
Qed.

(** * Freeing chains *)

Lemma free_chain_spec n m p es :
  lseg (mgr_mem m) p es NULL → NoDup (ids es) → (length es < n)%nat →
  ∃ mem', free_chain n m p = Some (mkUsbMgr (mgr_lock m) mem' (mgr_aLists m))
    ∧ (∀ a, a ∈ ids es → mem' !! a = None) ∧ (∀ a, a ∉ ids es → mem' !! a = mgr_mem m !! a).
Proof.
  revert n m p. induction es as [|e es IH]; intros n m p Hseg Hnd Hn;
    (destruct n as [|n]; [simpl in Hn; lia|]); cbn [free_chain].
  - simpl in Hseg. subst p. exists (mgr_mem m). split; [by destruct m|].
    split; [by intros a ?%not_elem_of_nil|done].
  - destruct Hseg as (->&Hne&nxt&Hm&Hseg). cbn in Hnd. apply list.NoDup_cons in Hnd as [Hni Hnd].
    rewrite (proj2 (Z.eqb_neq _ _) Hne), Hm. cbn [mbind option_bind]. unfold vboxUSBFilterFree.
    rewrite Hm. cbn [mbind option_bind und_pNext].
    destruct (IH n (with_mem m (delete (e_id e) (mgr_mem m))) nxt) as (mem'&->&H1&H2).
    + eapply lseg_frame; [|done]. intros a Ha. apply lookup_delete_ne. by intros <-.
    + done.
    + simpl in Hn. lia.
    + exists mem'. split; [done|]. cbn [mgr_mem with_mem] in H2. split.
      * intros a [->|Ha]%elem_of_cons; [|by apply H1]. rewrite H2 by done. apply lookup_delete_eq.
      * intros a Ha. cbn in Ha. apply not_elem_of_cons in Ha as [? ?]. rewrite H2 by done.
        by apply lookup_delete_ne.
Qed.

(** * The filters of an owner *)

Lemma lseg_start mem mem' p p' es : lseg mem p es NULL → lseg mem' p' es NULL → p = p'.
Proof. destruct es as [|e es]; simpl; [congruence|]. intros (->&_) (->&_). done. Qed.

Abbreviation of_owner Owner := (filter (λ e, e_owner e = Owner)).
Abbreviation not_of_owner Owner := (filter (λ e, e_owner e ≠ Owner)).

Lemma purge_walk_spec n m i Owner l kept rest freed pCur pTF :
  mgr_aLists m !! i = Some l → lseg (mgr_mem m) (ul_pHead l) kept pCur →
  lseg (mgr_mem m) pCur rest NULL → ul_pTail l = last_ptr NULL (kept ++ rest) →
  NoDup (ids (kept ++ rest)) → lseg (mgr_mem m) pTF freed NULL →
  (∀ a, a ∈ ids freed → a ∉ ids (kept ++ rest)) → (length rest < n)%nat →
  ∃ mem' l' p', purge_walk n m i Owner (last_ptr NULL kept) pCur pTF
    = Some (mkUsbMgr (mgr_lock m) mem' (<[i := l']> (mgr_aLists m)), p')
    ∧ list_ok mem' l' (kept ++ not_of_owner Owner rest)
    ∧ lseg mem' p' (reverse (of_owner Owner rest) ++ freed) NULL
    ∧ (∀ a, a ∉ ids (kept ++ rest) → mem' !! a = mgr_mem m !! a)
    ∧ (∀ a, is_Some (mem' !! a) ↔ is_Some (mgr_mem m !! a)).
Proof.
  revert n m l kept freed pCur pTF. induction rest as [|e rest IH];
    intros n m l kept freed pCur pTF Hl Hk Hr Ht Hnd Hf Hdis Hn;
    (destruct n as [|n]; [simpl in Hn; lia|]); cbn [purge_walk].
  - simpl in Hr. subst pCur. rewrite Z.eqb_refl. exists (mgr_mem m), l, pTF.
    rewrite list_insert_id by done. split; [by destruct m|]. split_and!; [|done|done|done].
    split; [|done]. apply lseg_app. exists NULL. done.
  - destruct Hr as (->&Hne&nxt&Hm&Hr). rewrite (proj2 (Z.eqb_neq _ _) Hne), Hm.
    cbn [mbind option_bind und_Owner und_pNext]. destruct (Z.eqb_spec (e_owner e) Owner) as [Ho|Ho].
    + rewrite (filter_cons_True (λ e, e_owner e = Owner) e rest) by done.
      rewrite (filter_cons_False (λ e, e_owner e ≠ Owner) e rest) by tauto.
      assert (Hlok : list_ok (mgr_mem m) l (kept ++ e :: rest)).
      { split; [|done]. apply lseg_app. exists (e_id e). split; [done|].
        simpl. split_and!; [done|done|]. by exists nxt. }
      destruct (usb_unlink_spec m i kept e rest l Hl Hlok Hnd) as (mem1&l1&->&[Hs1 Ht1]&Hfr1&Hdom1).
      cbn [mbind option_bind]. unfold set_next. cbn [mgr_mem].
      assert (Hek : e_id e ∉ ids kept ∧ e_id e ∉ ids rest ∧ NoDup (ids (kept ++ rest))).
      { rewrite ids_app in Hnd |- *. cbn in Hnd. rewrite <- Permutation_middle in Hnd.
        apply list.NoDup_cons in Hnd as [H ?]. rewrite elem_of_app in H. tauto. }
      destruct Hek as (Hek&Her&Hnd').
      rewrite (Hfr1 _ Hek), Hm. cbn [mbind option_bind und_Core und_Owner und_uId].
      set (mem2 := <[e_id e := mkUsbNode (e_flt e) (e_owner e) (e_id e) pTF]> mem1).
      assert (Hs2 : lseg mem2 (ul_pHead l1) (kept ++ rest) NULL).
      { eapply lseg_frame; [|done]. intros a Ha. apply lookup_insert_ne. intros <-.
        rewrite ids_app, elem_of_app in Ha. tauto. }
      pose proof Hs2 as (r&Hk2&Hr2)%lseg_app.
      assert (r = nxt) as -> by (by eapply lseg_start).
      assert (Hil : (i < length (mgr_aLists m))%nat) by (by eapply lookup_lt_Some).
      destruct (IH n (mkUsbMgr (mgr_lock m) mem2 (<[i := l1]> (mgr_aLists m))) l1 kept (e :: freed)
                  nxt (e_id e)) as (mem'&l'&p'&E&Hlok'&Hf'&Hfr'&Hdom').
      * cbn. by rewrite list_lookup_insert_eq.
      * done.
      * done.
      * done.
      * done.
      * simpl. split_and!; [done|done|]. exists pTF. split; [apply lookup_insert_eq|].
        eapply lseg_frame; [|done]. intros a Ha. unfold mem2.
        assert (Hak : a ∉ ids kept ∧ a ≠ e_id e).
        { pose proof (Hdis a Ha) as H. rewrite ids_app in H. cbn in H. set_solver. }
        destruct Hak as [Hak1 Hak2]. rewrite lookup_insert_ne by done. by apply Hfr1.
      * intros a [->|Ha]%elem_of_cons; [rewrite ids_app, elem_of_app; tauto|].
        intros H. apply (Hdis a Ha). rewrite ids_app in H |- *. cbn. set_solver.
      * simpl in Hn. lia.
      * exists mem', l', p'. cbn [mgr_lock mgr_aLists] in E. rewrite list_insert_insert_eq in E.
        split; [exact E|]. split; [done|]. split.
        { rewrite reverse_cons. by rewrite <- (assoc_L (++)). }
        cbn [mgr_mem] in Hfr', Hdom'. split.
        -- intros a Ha. rewrite ids_app in Ha. cbn in Ha.
           rewrite Hfr' by (rewrite ids_app; set_solver). unfold mem2.
           rewrite lookup_insert_ne by set_solver. apply Hfr1. set_solver.
        -- intros a. rewrite Hdom'. unfold mem2. destruct (decide (a = e_id e)) as [->|].
           ++ rewrite lookup_insert_eq, Hm. split; by eexists.
           ++ rewrite lookup_insert_ne by done. apply Hdom1.
    + rewrite (filter_cons_True (λ e, e_owner e ≠ Owner) e rest) by done.
      rewrite (filter_cons_False (λ e, e_owner e = Owner) e rest) by done.
      destruct (IH n m l (kept ++ [e]) freed nxt pTF) as (mem'&l'&p'&E&Hlok'&Hf'&Hfr'&Hdom').
      * done.
      * apply lseg_app. exists (e_id e). split; [done|]. simpl. split_and!; [done|done|]. by exists nxt.
      * done.
      * by rewrite <- (assoc_L (++)).
      * by rewrite <- (assoc_L (++)).
      * done.
      * by rewrite <- (assoc_L (++)).
      * simpl in Hn. lia.
      * rewrite last_ptr_snoc in E. exists mem', l', p'. rewrite <- (assoc_L (++)) in Hlok', Hfr'.
        by split_and!.
Qed.

(** The lists, and a chain of nodes that are in none. *)
Definition purging (m : usbmgr) (Ls : list (list entry)) (p : ptr) (freed : list entry) : Prop :=
  lists_ok m Ls ∧ lseg (mgr_mem m) p freed NULL ∧ NoDup (ids freed)
  ∧ (∀ a, a ∈ ids freed → ¬ listed Ls a)
  ∧ (∀ a, is_Some (mgr_mem m !! a) ↔ listed Ls a ∨ a ∈ ids freed).

Lemma ids_filter_in P `{∀ x : entry, Decision (P x)} l a : a ∈ ids (filter P l) → a ∈ ids l.
Proof. intros (e&->&He)%list_elem_of_fmap. apply list_elem_of_filter in He as [_ ?]. by apply list_elem_of_fmap_2. Qed.

Lemma ids_filter_split Owner es a :
  a ∈ ids es ↔ a ∈ ids (not_of_owner Owner es) ∨ a ∈ ids (of_owner Owner es).
Proof.
  split.
  - intros (e&->&He)%list_elem_of_fmap. destruct (decide (e_owner e = Owner)); [right|left];
      apply list_elem_of_fmap_2, list_elem_of_filter; done.
  - intros [?|?]; by eapply ids_filter_in.
Qed.

Lemma ids_filter_disjoint Owner es a :
  NoDup (ids es) → a ∈ ids (not_of_owner Owner es) → a ∈ ids (of_owner Owner es) → False.
Proof.
  intros Hnd (e&->&He)%list_elem_of_fmap (e'&Heq&He')%list_elem_of_fmap.
  apply list_elem_of_filter in He as [Ho He], He' as [Ho' He'].
  assert (e = e') as ->; [|done].
  apply list_elem_of_lookup in He as [k Hk], He' as [k' Hk'].
  assert (k = k') as ->; [|congruence].
  eapply NoDup_lookup; [done| |]; rewrite list_lookup_fmap; [by rewrite Hk|by rewrite Hk', Heq].
Qed.

Lemma NoDup_ids_filter P `{∀ x : entry, Decision (P x)} es : NoDup (ids es) → NoDup (ids (filter P es)).
Proof.
  intros Hnd. induction es as [|e es IH]; [done|]. cbn in Hnd. apply list.NoDup_cons in Hnd as [Hn Hnd].
  rewrite filter_cons. destruct (decide (P e)); [|by apply IH]. cbn. constructor; [|by apply IH].
  intros H'. apply Hn. by eapply ids_filter_in.
Qed.

Lemma purge_lists_spec idxs m Ls Owner p freed :
  purging m Ls p freed → Forall (λ i, 1 ≤ i < 5)%nat idxs →
  ∃ m' p' freed' Ls', purge_lists idxs m Owner p = Some (m', p')
    ∧ purging m' Ls' p' freed' ∧ mgr_lock m' = mgr_lock m
    ∧ (∀ i, Ls' !! i = if bool_decide (i ∈ idxs) then not_of_owner Owner <$> Ls !! i else Ls !! i).
Proof.
  intros Hp Hidx. revert m Ls p freed Hp. induction Hidx as [|i idxs Hi Hidx IH]; intros m Ls p freed Hp.
  { exists m, p, freed, Ls. split_and!; done. }
  cbn [purge_lists]. destruct Hp as (Hok&Hseg&Hnd&Hdis&Hdom).
  destruct (lists_lookup m Ls i Hok ltac:(lia)) as (l&es&Hl&Hes&Hs&Ht). rewrite Hl.
  cbn [mbind option_bind]. pose proof Hok as (_&HlL&_&_&[HndL HdisL]&_).
  destruct (purge_walk_spec (fuel m) m i Owner l [] es freed (ul_pHead l) p)
    as (mem'&l'&p'&E&Hlok'&Hf'&Hfr'&Hdom'); [done|done|done|done|by eapply HndL|done| | |].
  { intros a Ha Ha'. apply (Hdis a Ha). by exists i, es. }
  { by eapply list_short. }
  rewrite app_nil_l in *. change (last_ptr NULL []) with NULL in E. rewrite E.
  cbn [mbind option_bind].
  assert (Hnde : NoDup (ids es)) by (by eapply HndL).
  destruct (IH (mkUsbMgr (mgr_lock m) mem' (<[i:=l']> (mgr_aLists m))) (<[i := not_of_owner Owner es]> Ls)
              p' (reverse (of_owner Owner es) ++ freed)) as (m'&p2&freed'&Ls'&E'&Hp'&Hlk'&HL').
  - split; [|split; [done|split; [|split]]].
    + eapply lists_ok_update; [done|done|lia|done|by apply NoDup_ids_filter| |].
      * intros e He. left. by apply list_elem_of_filter in He as [_ ?].
      * intros a Ha _. by apply Hfr'.
    + rewrite ids_app. apply list.NoDup_app. split_and!; [| |done].
      * rewrite fmap_reverse, reverse_Permutation. by apply NoDup_ids_filter.
      * intros a Ha Ha'. apply (Hdis a Ha'). exists i, es. split; [done|].
        rewrite fmap_reverse, elem_of_reverse in Ha. by eapply ids_filter_in.
    + intros a Ha Hli. apply (listed_insert Ls i es) in Hli; [|done|done].
      rewrite ids_app, elem_of_app, fmap_reverse, elem_of_reverse in Ha.
      destruct Ha as [Ha|Ha].
      * destruct Hli as [[_ H]|H]; [apply H; by eapply ids_filter_in|by eapply ids_filter_disjoint].
      * apply (Hdis a Ha). destruct Hli as [[H _]|H]; [done|]. exists i, es. split; [done|].
        by eapply ids_filter_in.
    + intros a. cbn [mgr_mem]. rewrite Hdom', Hdom, (listed_insert Ls i es _ a) by done.
      rewrite ids_app, elem_of_app, fmap_reverse, elem_of_reverse.
      pose proof (ids_filter_split Owner es a) as Hsp.
      assert (a ∈ ids es → listed Ls a) by (intros; by exists i, es).
      destruct (decide (a ∈ ids es)); tauto.
  - exists m', p2, freed', Ls'. split_and!; [done|done|done|]. intros j. rewrite HL'.
    destruct (decide (j = i)) as [->|Hji].
    + rewrite list_lookup_insert_eq by lia. rewrite (bool_decide_true (i ∈ i :: idxs)) by set_solver.
      rewrite Hes. simpl. case_bool_decide; [|done]. simpl. f_equal. apply filter_all.
      apply Forall_forall. intros e He. by apply list_elem_of_filter in He as [? _].
    + rewrite list_lookup_insert_ne by done.
      destruct (decide (j ∈ idxs)); [rewrite !bool_decide_true by set_solver|rewrite !bool_decide_false by set_solver]; done.
Qed.

Lemma remove_owner_spec m Ls Owner :
  mgr_rep m Ls → mgr_lock m = true →
  ∃ m', VBoxUSBFilterRemoveOwner m Owner = Some m' ∧ mgr_rep m' (spec_remove_owner Owner Ls)
        ∧ mgr_lock m' = true.
Proof.
  intros [Hok Hdom] Hlk. unfold VBoxUSBFilterRemoveOwner. rewrite Hlk.
  destruct (purge_lists_spec list_indices m Ls Owner NULL []) as (m1&p1&freed&Ls'&->&Hp&Hlk1&HL').
  { split; [done|]. split; [done|]. split; [constructor|]. split; [by intros a ?%not_elem_of_nil|].
    intros a. rewrite Hdom. rewrite elem_of_nil. tauto. }
  { repeat constructor; lia. }
  cbn [mbind option_bind]. destruct Hp as (Hok1&Hseg&Hnd&Hdis&Hdom1).
  assert (HLs : Ls' = spec_remove_owner Owner Ls).
  { apply list_eq. intros j. rewrite HL'. unfold spec_remove_owner. rewrite list_lookup_fmap.
    case_bool_decide as Hj; [done|]. destruct (Ls !! j) as [es|] eqn:Hes; [|done].
    destruct Hok as (_&HlL&H0&_). assert (j < 5)%nat by (rewrite <- HlL; by eapply lookup_lt_Some).
    assert (j = 0)%nat as ->.
    { unfold list_indices in Hj. rewrite !elem_of_cons, elem_of_nil in Hj. lia. }
    rewrite H0 in Hes. by injection Hes as <-. }
  rewrite HLs in *. clear HL' HLs.
  destruct (free_chain_spec (fuel m1) m1 p1 freed Hseg Hnd) as (mem'&->&Hin&Hout).
  { unfold fuel. assert (list_to_set (C:=gset Z) (ids freed) ⊆ dom (mgr_mem m1)).
    { intros a Ha. apply elem_of_list_to_set in Ha. apply elem_of_dom, Hdom1. by right. }
    apply subseteq_size in H. rewrite size_list_to_set in H by done.
    rewrite length_fmap, size_dom in H. lia. }
  eexists. split; [done|]. split; [|cbn; congruence].
  assert (Hfr : ∀ a, listed (spec_remove_owner Owner Ls) a → mem' !! a = mgr_mem m1 !! a).
  { intros a Ha. apply Hout. intros Ha'. by apply (Hdis a Ha'). }
  split.
  - destruct Hok1 as (H1&H2&H3&H4&H5&H6). split_and!; [done|done|done| |done|done].
    intros i es Hi. destruct (H4 i es Hi) as (l&Hl&Hs&Ht). exists l. split; [done|]. split; [|done].
    eapply lseg_frame; [|done]. intros a Ha. apply Hfr. by exists i, es.
  - intros a. cbn [mgr_mem]. destruct (decide (a ∈ ids freed)) as [Ha|Ha].
    + rewrite (Hin a Ha). split; [by intros []|]. intros H. by destruct (Hdis a Ha).
    + rewrite (Hout a Ha), Hdom1. tauto.
Qed.

(** * Adding *)

Lemma validate_fields_status f i flds rc :
  validate_fields f i flds = Some rc → rc = VINF_SUCCESS ∨ RT_FAILURE rc = true.
Proof.
  revert i. induction flds as [|fld flds IH]; intros i; cbn [validate_fields].
  - intros [= <-]. by left.
  - destruct (validate_field f i fld) as [rc'|]; [|done]. cbn [mbind option_bind].
    destruct (RT_FAILURE rc') eqn:E; [intros [= <-]; by right|apply IH].
Qed.

Lemma validate_success f rc :
  USBFilterValidate (Some f) = Some rc →
  RT_FAILURE rc = true ∨ rc = VINF_SUCCESS ∧ type_ok (flt_enmType f) = true.
Proof.
  unfold USBFilterValidate. intros H.
  destruct (negb _); [injection H as <-; by left|].
  destruct (type_ok (flt_enmType f)); [|injection H as <-; by left]. cbn [negb] in H.
  destruct (_ <=? _); [injection H as <-; by left|].
  destruct (negb _); [injection H as <-; by left|].
  destruct (validate_strings _ _ _) as [[rc' psz]|]; [|done]. cbn [mbind option_bind] in H.
  destruct (RT_FAILURE rc') eqn:E; [injection H as <-; by left|].
  destruct (negb _); [injection H as <-; by left|].
  destruct (negb _); [injection H as <-; by left|].
  apply validate_fields_status in H as [->|?]; [by right|by left].
Qed.

Lemma type_ok_range ty : type_ok ty = true → 1 ≤ ty ≤ 4.
Proof. unfold type_ok, USBFILTERTYPE_INVALID, USBFILTERTYPE_END. lia. Qed.

(** What [VBoxUSBFilterAdd] returns, when validation gives [rc]. *)
Definition add_status (rc Owner : Z) (puId pNew : ptr) : Z :=
  if RT_FAILURE rc then rc
  else if (Owner =? 0) || (Owner =? VBOXUSBFILTER_CONTEXT_NIL) then VERR_INVALID_PARAMETER
  else if negb (VALID_PTR puId) then VERR_INVALID_POINTER
  else if pNew =? NULL then VERR_NO_MEMORY else VINF_SUCCESS.

Lemma in_ids_snoc es e : e_id e ∈ ids (es ++ [e]).
Proof. rewrite ids_app. apply elem_of_app. right. by apply list_elem_of_singleton. Qed.

(** A new node is linked behind the last one. *)
Lemma link_spec m i l es e :
  list_ok (mgr_mem m) l es → mgr_lock m = true → e_id e ≠ NULL →
  NoDup (ids (es ++ [e])) → mgr_mem m !! e_id e = None →
  let mem1 := <[e_id e := mkUsbNode (e_flt e) (e_owner e) (e_id e) NULL]> (mgr_mem m) in
  ∃ mem' l',
    (if negb (ul_pTail l =? NULL) then
       m0 ← set_next (with_mem m mem1) (ul_pTail l) (e_id e);
       Some (set_list m0 i (mkUsbList (ul_pHead l) (e_id e)))
     else Some (set_list (with_mem m mem1) i (mkUsbList (e_id e) (e_id e))))
    = Some (mkUsbMgr true mem' (<[i := l']> (mgr_aLists m)))
    ∧ list_ok mem' l' (es ++ [e])
    ∧ (∀ a, a ∉ ids es → a ≠ e_id e → mem' !! a = mgr_mem m !! a)
    ∧ (∀ a, is_Some (mem' !! a) ↔ is_Some (mgr_mem m !! a) ∨ a = e_id e).
Proof.
  intros [Hs Ht] Hlk Hn0 Hnd Hnew mem1.
  assert (Hne : e_id e ∉ ids es).
  { intros Ha. destruct (lseg_in _ _ _ _ _ Hs Ha) as [_ [? Hx]]. by rewrite Hnew in Hx. }
  assert (Hs1 : lseg mem1 (ul_pHead l) es NULL).
  { eapply lseg_frame; [|done]. intros a Ha. apply lookup_insert_ne. by intros <-. }
  assert (Hself : mem1 !! e_id e = Some (mkUsbNode (e_flt e) (e_owner e) (e_id e) NULL))
    by apply lookup_insert_eq.
  assert (Hother : ∀ a, a ≠ e_id e → mem1 !! a = mgr_mem m !! a).
  { intros a Ha. apply lookup_insert_ne. congruence. }
  assert (Hd1 : ∀ a, is_Some (mem1 !! a) ↔ is_Some (mgr_mem m !! a) ∨ a = e_id e).
  { intros a. destruct (decide (a = e_id e)) as [->|].
    - rewrite Hself. split; [by right|by eexists].
    - rewrite Hother by done. tauto. }
  clearbody mem1. destruct es as [|e1 es _] using rev_ind.
  - change (last_ptr NULL []) with NULL in Ht. rewrite Ht. cbn [Z.eqb NULL negb].
    exists mem1, (mkUsbList (e_id e) (e_id e)). split_and!.
    + unfold set_list, with_lists, with_mem. cbn. by rewrite Hlk.
    + split; [|done]. simpl. eauto.
    + intros a _ Ha. by apply Hother.
    + done.
  - rewrite last_ptr_snoc in Ht. rewrite Ht.
    destruct (lseg_in _ _ _ _ _ Hs1 (in_ids_snoc es e1)) as [Hn1 [nd Hnd1]].
    rewrite (proj2 (Z.eqb_neq _ _) Hn1). cbn [negb]. unfold set_next. cbn [mgr_mem with_mem].
    rewrite Hnd1. cbn [mbind option_bind]. pose proof (in_ids_snoc es e1) as Hin.
    assert (e_id e1 ≠ e_id e) by congruence. eexists _, _. split; [|split_and!].
    + unfold set_list, with_lists, with_mem. cbn. by rewrite Hlk.
    + split; [|by rewrite last_ptr_snoc]. cbn [ul_pHead]. apply lseg_app. exists (e_id e). split.
      * eapply lseg_redirect; [|done|done]. rewrite ids_app in Hnd.
        by apply list.NoDup_app in Hnd as (?&_).
      * simpl. split_and!; [done|done|]. exists NULL. split; [|done]. by rewrite lookup_insert_ne.
    + intros a Ha Han. rewrite lookup_insert_ne by (intros <-; done). by apply Hother.
    + intros a. rewrite <- Hd1. destruct (decide (a = e_id e1)) as [->|].
      * rewrite lookup_insert_eq, Hnd1. split; by eexists.
      * by rewrite lookup_insert_ne.
Qed.

Lemma add_spec m Ls f Owner puId pNew :
  mgr_rep m Ls → mgr_lock m = true → filter_typed f → offsets_checked f →
  mgr_mem m !! pNew = None →
  ∃ rc m', USBFilterValidate (Some f) = Some rc
    ∧ let st := add_status rc Owner puId pNew in
      VBoxUSBFilterAdd m (Some f) Owner puId pNew
      = Some (st, if st =? VINF_SUCCESS then Some pNew else None, m')
    ∧ mgr_rep m' (if st =? VINF_SUCCESS
                  then spec_add (Z.to_nat (flt_enmType f)) (mkUsbEntry pNew f Owner) Ls else Ls)
    ∧ mgr_lock m' = true.
Proof.
  intros Hrep Hlk Hty Hof Hnew. destruct (validate_ok f Hty Hof) as (rc&Hv&Hck).
  exists rc. unfold VBoxUSBFilterAdd, add_status. rewrite Hv. cbn [mbind option_bind].
  destruct (validate_success f rc Hv) as [Hrc|[-> Htok]].
  { rewrite Hrc. exists m. split; [done|]. cbv zeta.
    destruct (Z.eqb_spec rc VINF_SUCCESS) as [->|]; [done|]. done. }
  change (RT_FAILURE VINF_SUCCESS) with false. cbv zeta. cbn iota.
  destruct (_ || _) eqn:Ho; [by exists m|].
  destruct (negb _); [by exists m|]. destruct (Z.eqb_spec pNew NULL) as [|Hn0]; [by exists m|].
  change (VINF_SUCCESS =? VINF_SUCCESS) with true. cbn iota.
  apply type_ok_range in Htok. set (i := Z.to_nat (flt_enmType f)).
  assert (Hi : (1 ≤ i ≤ 4)%nat) by (unfold i; lia).
  destruct Hrep as [Hok Hdom].
  destruct (lists_lookup m Ls i Hok ltac:(lia)) as (l&es&Hl&Hes&Hs&Ht). cbn [mgr_aLists with_mem].
  rewrite Hl. cbn [mbind option_bind mgr_lock with_mem]. rewrite Hlk.
  set (e := mkUsbEntry pNew f Owner).
  assert (Hnl : ¬ listed Ls pNew) by (rewrite <- Hdom, Hnew; by intros []).
  assert (Hne : pNew ∉ ids es) by (intros H; apply Hnl; by exists i, es).
  pose proof Hok as (_&HlL&_&_&[Hnd _]&_).
  assert (Hnd' : NoDup (ids (es ++ [e]))).
  { rewrite ids_app. cbn. rewrite <- Permutation_cons_append. constructor; [done|by eapply Hnd]. }
  assert (Hent : entry_ok i e).
  { split_and!; [cbn; unfold i; lia|done|split; [done|by apply Hck]|..]; cbn; lia. }
  destruct (link_spec m i l es e (conj Hs Ht) Hlk Hn0 Hnd' Hnew)
    as (mem'&l'&Heq&Hlok'&Hfr&Hd').
  cbn [e_flt e_owner e_id e] in Heq. rewrite Heq. cbn [mbind option_bind]. eexists. split; [done|]. split; [done|].
  split; [|done].
  assert (HA : spec_add i e Ls = <[i := es ++ [e]]> Ls).
  { unfold spec_add. apply list_eq. intros j. destruct (decide (j = i)) as [->|].
    - rewrite list_lookup_alter_eq, list_lookup_insert_eq, Hes by lia. done.
    - by rewrite list_lookup_alter_ne, list_lookup_insert_ne. }
  rewrite HA. split.
  - eapply lists_ok_update; [done|done|lia|done|done| |].
    + intros e' [?| ->%list_elem_of_singleton]%elem_of_app; [by left|by right].
    + intros a Ha Hla. apply Hfr; [done|]. by intros ->.
  - intros a. cbn [mgr_mem]. rewrite Hd', Hdom, (listed_insert Ls i es) by (try done; apply Hok).
    rewrite ids_app, elem_of_app. cbn. rewrite list_elem_of_singleton.
    assert (a ∈ ids es → listed Ls a) by (intros; by exists i, es).
    destruct (decide (a ∈ ids es)); tauto.
Qed.

(** * Matching *)

Lemma match_checked f d :
  all_checked f → all_checked d → device_like d →
  USBFilterMatch f d = Some (default false (USBFilterMatch f d)).
Proof.
  intros Hf Hd Hdev. unfold USBFilterMatch, USBFilterMatchRated.
  destruct (rate_loop_total f d 0 0 11 Hf Hd Hdev) as (r&->&_); [done|lia|]. done.
Qed.

(** What the manager says of a device. *)
Definition spec_match_result (d : USBFILTER) (Ls : list (list entry)) : match_result :=
  match spec_match d Ls with
  | Some (i, _, e, _) =>
      mkMatchResult (e_owner e) (Some (e_id e)) (Some (captures i)) (Some (one_shot i))
  | None => mkMatchResult VBOXUSBFILTER_CONTEXT_NIL (Some 0) (Some false) None
  end.

Definition spec_match_lists (d : USBFILTER) (fRemove : bool) (Ls : list (list entry)) :=
  match spec_match d Ls with
  | Some (i, pre, _, post) => if one_shot i && fRemove then <[i := pre ++ post]> Ls else Ls
  | None => Ls
  end.

Lemma match_ex_spec m Ls d fRemove :
  mgr_rep m Ls → mgr_lock m = true → filter_typed d → offsets_checked d → device_like d →
  ∃ rc m', USBFilterValidate (Some d) = Some rc
    ∧ VBoxUSBFilterMatchEx m (Some d) fRemove
      = Some (if RT_FAILURE rc then mkMatchResult VBOXUSBFILTER_CONTEXT_NIL None None None
              else spec_match_result d Ls, m')
    ∧ mgr_rep m' (if RT_FAILURE rc then Ls else spec_match_lists d fRemove Ls)
    ∧ mgr_lock m' = true.
Proof.
  intros Hrep Hlk Hty Hof Hdev. destruct (validate_ok d Hty Hof) as (rc&Hv&Hck).
  exists rc. unfold VBoxUSBFilterMatchEx. rewrite Hv. cbn [mbind option_bind].
  destruct (validate_success d rc Hv) as [Hrc|[-> _]]; [rewrite Hrc; by exists m|].
  change (RT_FAILURE VINF_SUCCESS) with false. cbn iota. rewrite Hlk.
  rewrite (find_lists_rep m Ls _ (λ e, default false (USBFilterMatch (e_flt e) d))); [|done|].
  2: { intros i es e nxt Hi He. cbn [und_Core]. apply match_checked; [|split; [done|by apply Hck]|done].
       destruct Hrep as [(_&_&_&_&_&Hent) _]. apply (Hent i es e Hi He). }
  cbn [mbind option_bind]. unfold spec_match_result, spec_match_lists, spec_match.
  destruct (spec_find _ _ _) as [[[[i pre] e] post]|] eqn:E; [|by exists m].
  destruct (spec_find_rep _ _ _ _ _ _ _ Hrep E) as (Hes&_&Hi&nxt&Hm). rewrite Hm.
  cbn [mbind option_bind und_Owner und_uId].
  destruct (one_shot i && fRemove); [|by exists m].
  destruct (unlink_free_spec m Ls i pre e post Hrep Hes ltac:(lia)) as (m'&Hm'&Hrep'&Hlk').
  rewrite Hm'. cbn [mbind option_bind]. exists m'. split; [done|]. split; [done|].
  split; [done|congruence].
Qed.

(** * The owner of a filter *)

Lemma owner_lists_spec m Ls idxs uId Own :
  lists_ok m Ls → Forall (λ i, i < 5)%nat idxs → NoDup idxs →
  owner_lists idxs m uId Own
  = Some (match spec_find (λ e, e_id e =? uId) idxs Ls with
          | Some (_, _, e, _) => e_owner e
          | None => Own
          end).
Proof.
  intros Hok Hidx. revert Own. induction Hidx as [|i idxs Hi Hidx IH]; intros Own Hnd;
    cbn [owner_lists spec_find]; [done|]. apply list.NoDup_cons in Hnd as [Hni Hnd].
  destruct (lists_lookup m Ls i Hok Hi) as (l&es&Hl&Hes&Hseg&_). rewrite Hl, Hes.
  cbn [mbind option_bind from_option id].
  rewrite (find_walk_spec _ _ _ _ _ es (λ e, e_id e =? uId)) by (first [done|by eapply list_short]).
  cbn [mbind option_bind]. destruct (find_split _ es) as [[[pre e] post]|] eqn:E; [|by apply IH].
  apply find_split_Some in E as (->&He%Z.eqb_eq&_).
  apply lseg_app in Hseg as (r&_&Hr). destruct Hr as (->&_&nxt&Hm&_). rewrite Hm.
  cbn [mbind option_bind und_Owner]. rewrite IH by done.
  destruct (spec_find _ idxs Ls) as [[[[j pre'] e'] post']|] eqn:E'; [|done].
  destruct Hok as (_&HlL&_&_&[_ Hdis]&_).
  apply spec_find_Some in E' as (Hj&He'%Z.eqb_eq&Hji&_); [|by rewrite HlL].
  destruct Hni. assert (i = j) as ->; [|done]. eapply (Hdis _ _ _ _ uId Hes Hj).
  - rewrite <- He, ids_app. cbn. set_solver.
  - rewrite <- He', ids_app. cbn. set_solver.
Qed.

Lemma get_owner_spec m Ls uId :
  mgr_rep m Ls → mgr_lock m = true →
  VBoxUSBFilterGetOwner m uId
  = Some (if uId =? 0 then VBOXUSBFILTER_CONTEXT_NIL else spec_owner uId Ls).
Proof.
  intros [Hok _] Hlk. unfold VBoxUSBFilterGetOwner. destruct (uId =? 0); [done|]. rewrite Hlk.
  rewrite (owner_lists_spec m Ls); [done|done|apply list_indices_lt|].
  apply (bool_decide_unpack (NoDup _)). by vm_compute.
Qed.

(** * Termination *)

Lemma term_lists_spec idxs m Ls :
  mgr_rep m Ls → Forall (λ i, 1 ≤ i < 5)%nat idxs →
  ∃ m' Ls', term_lists idxs m = Some m' ∧ mgr_rep m' Ls' ∧ mgr_lock m' = mgr_lock m
    ∧ ∀ i, Ls' !! i = if bool_decide (i ∈ idxs) then const [] <$> Ls !! i else Ls !! i.
Proof.
  intros Hrep Hidx. revert m Ls Hrep. induction Hidx as [|i idxs Hi Hidx IH]; intros m Ls Hrep.
  { by exists m, Ls. }
  cbn [term_lists]. destruct Hrep as [Hok Hdom].
  destruct (lists_lookup m Ls i Hok ltac:(lia)) as (l&es&Hl&Hes&Hs&Ht). rewrite Hl.
  cbn [mbind option_bind]. pose proof Hok as (_&HlL&_&_&[Hnd Hdis]&_).
  destruct (free_chain_spec (fuel m) (set_list m i (mkUsbList NULL NULL)) (ul_pHead l) es)
    as (mem'&->&Hin&Hout); [done|by eapply Hnd|by eapply list_short|].
  cbn [mbind option_bind mgr_lock mgr_mem mgr_aLists set_list with_lists] in *.
  destruct (IH (mkUsbMgr (mgr_lock m) mem' (<[i:=mkUsbList NULL NULL]> (mgr_aLists m))) (<[i := []]> Ls))
    as (m'&Ls'&E&Hrep'&Hlk'&HL').
  - split.
    + eapply lists_ok_update; [done|done|lia|done|constructor| |].
      * by intros e ?%not_elem_of_nil.
      * intros a Ha _. by apply Hout.
    + intros a. cbn [mgr_mem]. rewrite (listed_insert Ls i es) by done. cbn. rewrite elem_of_nil.
      destruct (decide (a ∈ ids es)) as [Ha|Ha].
      * rewrite Hin by done. split; [by intros []|tauto].
      * rewrite Hout, Hdom by done. tauto.
  - exists m', Ls'. split_and!; [done|done|done|]. intros j. rewrite HL'.
    destruct (decide (j = i)) as [->|Hji].
    + rewrite list_lookup_insert_eq by lia. rewrite (bool_decide_true (i ∈ i :: idxs)) by set_solver.
      rewrite Hes. by case_bool_decide.
    + rewrite list_lookup_insert_ne by done.
      destruct (decide (j ∈ idxs)); [rewrite !bool_decide_true by set_solver|rewrite !bool_decide_false by set_solver]; done.
Qed.

Lemma term_spec m Ls :
  mgr_rep m Ls → mgr_lock m = true →
  ∃ m', VBoxUSBFilterTerm m = Some m' ∧ mgr_mem m' = ∅ ∧ mgr_lock m' = false.
Proof.
  intros Hrep Hlk. unfold VBoxUSBFilterTerm. rewrite Hlk.
  destruct (term_lists_spec list_indices (mkUsbMgr false (mgr_mem m) (mgr_aLists m)) Ls) as (m'&Ls'&->&Hrep'&Hlk'&HL').
  { exact Hrep. }
  { repeat constructor; lia. }
  exists m'. split; [done|]. split; [|done]. apply map_eq. intros a. rewrite lookup_empty.
  apply eq_None_not_Some. intros Ha. destruct Hrep' as [Hok Hdom].
  apply Hdom in Ha as (i&es&Hi&Hae). rewrite HL' in Hi. case_bool_decide as Hidx.
  - destruct (Ls !! i); [|done]. injection Hi as <-. by apply not_elem_of_nil in Hae.
  - destruct Hrep as [(_&HlL&H0&_) _].
    assert (i < 5)%nat by (rewrite <- HlL; by eapply lookup_lt_Some).
    assert (i = 0)%nat as ->.
    { unfold list_indices in Hidx. rewrite !elem_of_cons, elem_of_nil in Hidx. lia. }
    rewrite H0 in Hi. injection Hi as <-. by apply not_elem_of_nil in Hae.
Qed.

(** * The manager as a transition system *)

Inductive mgr_op : Type :=
| MAdd (f : USBFILTER) (Owner : Z) (puId pNew : ptr)
| MRemove (Owner uId : Z)
| MRemoveOwner (Owner : Z)
| MMatchEx (d : USBFILTER) (fRemoveFltIfOneShot : bool)
| MGetOwner (uId : Z).

Inductive mgr_answer : Type :=
| AAdd (rc : Z) (uId : option Z)
| AStatus (rc : Z)
| ADone
| AMatch (r : match_result)
| AOwner (Owner : Z).

Definition run_mgr (op : mgr_op) (m : usbmgr) : option (mgr_answer * usbmgr) :=
  match op with
  | MAdd f Owner puId pNew =>
      '(rc, uId, m) ← VBoxUSBFilterAdd m (Some f) Owner puId pNew; Some (AAdd rc uId, m)
  | MRemove Owner uId => '(rc, m) ← VBoxUSBFilterRemove m Owner uId; Some (AStatus rc, m)
  | MRemoveOwner Owner => m ← VBoxUSBFilterRemoveOwner m Owner; Some (ADone, m)
  | MMatchEx d fRemove => '(r, m) ← VBoxUSBFilterMatchEx m (Some d) fRemove; Some (AMatch r, m)
  | MGetOwner uId => ow ← VBoxUSBFilterGetOwner m uId; Some (AOwner ow, m)
  end.

(** Structures are of their types, with offsets that validation covers; a device has exact values;
    the allocator returns nothing, or memory that is not in use. *)
Definition mgr_op_ok (op : mgr_op) (m : usbmgr) : Prop :=
  match op with
  | MAdd f _ _ pNew => filter_typed f ∧ offsets_checked f ∧ mgr_mem m !! pNew = None
  | MMatchEx d _ => filter_typed d ∧ offsets_checked d ∧ device_like d
  | _ => True
  end.

Definition spec_mgr (op : mgr_op) (Ls : list (list entry)) : mgr_answer * list (list entry) :=
  match op with
  | MAdd f Owner puId pNew =>
      let st := add_status (default 0 (USBFilterValidate (Some f))) Owner puId pNew in
      if st =? VINF_SUCCESS
      then (AAdd st (Some pNew), spec_add (Z.to_nat (flt_enmType f)) (mkUsbEntry pNew f Owner) Ls)
      else (AAdd st None, Ls)
  | MRemove Owner uId =>
      if (uId =? 0) || ((Owner =? 0) || (Owner =? VBOXUSBFILTER_CONTEXT_NIL))
      then (AStatus VERR_INVALID_PARAMETER, Ls)
      else (AStatus (if has_entry uId Owner Ls then VINF_SUCCESS else VERR_FILE_NOT_FOUND),
            spec_remove uId Owner Ls)
  | MRemoveOwner Owner => (ADone, spec_remove_owner Owner Ls)
  | MMatchEx d fRemove =>
      if RT_FAILURE (default 0 (USBFilterValidate (Some d)))
      then (AMatch (mkMatchResult VBOXUSBFILTER_CONTEXT_NIL None None None), Ls)
      else (AMatch (spec_match_result d Ls), spec_match_lists d fRemove Ls)
  | MGetOwner uId =>
      (AOwner (if uId =? 0 then VBOXUSBFILTER_CONTEXT_NIL else spec_owner uId Ls), Ls)
  end.

Lemma run_mgr_spec m Ls op :
  mgr_rep m Ls → mgr_lock m = true → mgr_op_ok op m →
  ∃ m', run_mgr op m = Some ((spec_mgr op Ls).1, m') ∧ mgr_rep m' (spec_mgr op Ls).2
        ∧ mgr_lock m' = true.
Proof.
  intros Hrep Hlk Hop. destruct op as [f Owner puId pNew|Owner uId|Owner|d fRemove|uId];
    cbn [run_mgr spec_mgr].
  - destruct Hop as (H1&H2&H3).
    destruct (add_spec m Ls f Owner puId pNew Hrep Hlk H1 H2 H3) as (rc&m'&Hv&E&Hrep'&Hlk').
    rewrite Hv. cbn [from_option id]. rewrite E. cbn [mbind option_bind]. exists m'.
    destruct (_ =? VINF_SUCCESS); done.
  - destruct (remove_spec m Ls Owner uId Hrep Hlk) as (m'&E&Hrep'&Hlk'). rewrite E.
    cbn [mbind option_bind]. exists m'. destruct (_ || _); done.
  - destruct (remove_owner_spec m Ls Owner Hrep Hlk) as (m'&E&Hrep'&Hlk'). rewrite E. by exists m'.
  - destruct Hop as (H1&H2&H3).
    destruct (match_ex_spec m Ls d fRemove Hrep Hlk H1 H2 H3) as (rc&m'&Hv&E&Hrep'&Hlk').
    rewrite Hv. cbn [from_option id]. rewrite E. cbn [mbind option_bind]. exists m'.
    destruct (RT_FAILURE rc); done.
  - rewrite (get_owner_spec m Ls) by done. by exists m.
Qed.

(** The state of the module when it is loaded. *)
Definition mgr_start : usbmgr := mkUsbMgr false ∅ (replicate 5 (mkUsbList NULL NULL)).

Definition no_filters : list (list entry) := replicate 5 [].

(** The states between initialisation and termination. *)
Inductive mgr_reach : usbmgr → Prop :=
| mgr_reach_init rc m : VBoxUSBFilterInit rc mgr_start = (rc, m) → RT_SUCCESS rc = true → mgr_reach m
| mgr_reach_op m op a m' :
    mgr_reach m → mgr_op_ok op m → run_mgr op m = Some (a, m') → mgr_reach m'.

Lemma init_rep rc :
  RT_SUCCESS rc = true →
  ∃ m, VBoxUSBFilterInit rc mgr_start = (rc, m) ∧ mgr_rep m no_filters ∧ mgr_lock m = true.
Proof.
  intros Hrc. unfold VBoxUSBFilterInit. rewrite Hrc. eexists. split; [done|]. split; [|done].
  assert (Hnil : ∀ i es, no_filters !! i = Some es → es = []).
  { intros i es H. by apply lookup_replicate in H as [-> _]. }
  split.
  - split_and!; [done|done|done| | |].
    + intros i es Hi. pose proof Hi as [-> ?]%lookup_replicate. exists (mkUsbList NULL NULL).
      split; [|done]. by apply (lookup_replicate_2 5).
    + split; [intros i es ->%Hnil; constructor|].
      intros i j es es' a ->%Hnil _ ?%not_elem_of_nil. done.
    + intros i es e ->%Hnil ?%not_elem_of_nil. done.
  - intros a. cbn [mgr_mem mgr_start]. rewrite lookup_empty. split; [by intros []|].
    intros (i&es&->%Hnil&?%not_elem_of_nil). done.
Qed.

Lemma reach_rep m : mgr_reach m → mgr_lock m = true ∧ ∃ Ls, mgr_rep m Ls.
Proof.
  induction 1 as [rc m Hi Hrc|m op a m' _ [Hlk [Ls Hrep]] Hop Hrun].
  - destruct (init_rep rc Hrc) as (m1&E&Hrep&Hlk). rewrite E in Hi. injection Hi as <-. eauto.
  - destruct (run_mgr_spec m Ls op Hrep Hlk Hop) as (m1&E&Hrep'&Hlk'). rewrite Hrun in E.
    injection E as _ <-. eauto.
Qed.

(** * The claims *)

(** C28. Between initialisation and termination, through any operations of [mgr_op_ok], the
    manager is in order: the lock exists; every list is a chain without cycles from its head
    to null, its tail pointer is its last node; no node is in two places, every allocated
    node is in a list; every filter is valid with its strings in its table, has the type of
    its list and a real owner.  So termination is always possible: it frees every node once,
    and nothing stays allocated.  The filters added have a string in their table or else every
    string offset in it ([offsets_checked]): [VBoxUSBFilterAdd] does not check that, and a
    filter without it would be in a list with strings that are not in its table
    ([validation_hole]). *)
Theorem usb_manager_invariant m :
  mgr_reach m →
  mgr_lock m = true ∧ (∃ Ls, mgr_rep m Ls)
  ∧ ∃ m', VBoxUSBFilterTerm m = Some m' ∧ mgr_mem m' = ∅ ∧ mgr_lock m' = false.
Proof.
  intros [Hlk [Ls Hrep]]%reach_rep. split; [done|]. split; [by exists Ls|].
  by apply (term_spec m Ls).
Qed.

Fixpoint run_mgrs (ops : list mgr_op) (m : usbmgr) : option (list mgr_answer * usbmgr) :=
  match ops with
  | [] => Some ([], m)
  | op :: ops' =>
      '(a, m) ← run_mgr op m;
      '(as', m) ← run_mgrs ops' m;
      Some (a :: as', m)
  end.

Fixpoint spec_mgrs (ops : list mgr_op) (Ls : list (list entry)) :
    list mgr_answer * list (list entry) :=
  match ops with
  | [] => ([], Ls)
  | op :: ops' =>
      let r := spec_mgr op Ls in
      let r' := spec_mgrs ops' r.2 in (r.1 :: r'.1, r'.2)
  end.

(** Every operation may be done in the state the ones before it lead to. *)
Fixpoint mgr_ops_ok (ops : list mgr_op) (m : usbmgr) : Prop :=
  match ops with
  | [] => True
  | op :: ops' => mgr_op_ok op m ∧ ∀ a m', run_mgr op m = Some (a, m') → mgr_ops_ok ops' m'
  end.

(** C22. The manager implements its specification, in which the filters are sequences: from
    initialisation on, for every sequence of operations that may be done ([mgr_ops_ok]), every
    operation ends, uses no memory that is not allocated, answers what the specification
    answers, and the lists are what the specification says they are.  What [mgr_op_ok] asks
    for: the filters added and the devices matched are structures of their types, with a
    string in their table or else every string offset in the table ([offsets_checked]), a
    device has exact values only, and the allocator returns nothing or memory not in use.
    Without the condition on the offsets it is false of the code: validation does not look
    at them when the table is empty, [VBoxUSBFilterAdd] takes such a filter, and matching then
    reads outside of its node ([validation_hole]). *)
Theorem usb_manager_refines rc ops m :
  VBoxUSBFilterInit rc mgr_start = (rc, m) → RT_SUCCESS rc = true → mgr_ops_ok ops m →
  ∃ m', run_mgrs ops m = Some ((spec_mgrs ops no_filters).1, m')
        ∧ mgr_rep m' (spec_mgrs ops no_filters).2.
Proof.
  intros Hi Hrc. destruct (init_rep rc Hrc) as (m1&E&Hrep&Hlk).
  assert (m1 = m) as -> by congruence. clear Hi E. revert m Hrep Hlk. generalize no_filters.
  induction ops as [|op ops IH]; intros Ls m Hrep Hlk Hok; cbn [run_mgrs spec_mgrs].
  { by exists m. }
  destruct Hok as [Hop Hok].
  destruct (run_mgr_spec m Ls op Hrep Hlk Hop) as (m1&E&Hrep1&Hlk1).
  rewrite E. cbn [mbind option_bind].
  destruct (IH _ m1 Hrep1 Hlk1 (Hok _ _ E)) as (m2&->&Hrep2). by exists m2.
Qed.

(** What comes before a list in the order of the searches. *)
Lemma indices_before i before after j :
  list_indices = before ++ i :: after → (j < i)%nat → j ≠ 0%nat → j ∈ before.
Proof.
  intros H Hj Hj0. unfold list_indices in H.
  do 4 (destruct before as [|? before];
        [injection H; intros; subst; rewrite ?elem_of_cons, ?elem_of_nil; lia|];
        injection H as <- H).
  by destruct before.
Qed.

(** C24. Which filter a device gets: the first that matches, of the one-shot ignoring filters, then of
    the one-shot capturing, the ignoring and the capturing ones, in each list in the order in
    which they were added.  It is removed exactly if it is a one-shot filter and that was
    asked for; the answer is about it, and nothing else changes.  Without a match nothing changes and
    the answer is that there is none.  The state is reached by operations of [mgr_op_ok]; the device and the filters are valid, with string
    offsets in their tables ([offsets_checked]), and the device has exact values. *)
Theorem usb_match_priority m d fRemove :
  mgr_reach m → filter_typed d → offsets_checked d → device_like d →
  USBFilterValidate (Some d) = Some VINF_SUCCESS →
  let hit e := default false (USBFilterMatch (e_flt e) d) in
  ∃ r m' Ls, VBoxUSBFilterMatchEx m (Some d) fRemove = Some (r, m') ∧ mgr_rep m Ls
    ∧ ((∃ i pre e post, Ls !! i = Some (pre ++ e :: post) ∧ hit e = true
         ∧ Forall (λ e', hit e' = false) pre
         ∧ (∀ j es, (j < i)%nat → Ls !! j = Some es → Forall (λ e', hit e' = false) es)
         ∧ r = mkMatchResult (e_owner e) (Some (e_id e)) (Some (captures i)) (Some (one_shot i))
         ∧ mgr_rep m' (if one_shot i && fRemove then <[i := pre ++ post]> Ls else Ls))
       ∨ (∀ i es, Ls !! i = Some es → Forall (λ e', hit e' = false) es)
         ∧ r = mkMatchResult VBOXUSBFILTER_CONTEXT_NIL (Some 0) (Some false) None
         ∧ mgr_rep m' Ls).
Proof.
  intros [Hlk [Ls Hrep]]%reach_rep Hty Hof Hdev Hval hit.
  destruct (match_ex_spec m Ls d fRemove Hrep Hlk Hty Hof Hdev) as (rc&m'&Hv&E&Hrep'&_).
  assert (rc = VINF_SUCCESS) as -> by congruence.
  change (RT_FAILURE VINF_SUCCESS) with false in *. cbn iota in *.
  eexists _, m', Ls. split; [exact E|]. split; [done|].
  unfold spec_match_result, spec_match_lists, spec_match in *. fold hit in Hrep' |- *.
  destruct (spec_find hit list_indices Ls) as [[[[i pre] e] post]|] eqn:Ef.
  - left. destruct Hrep as [(_&HlL&H0&_) _].
    apply spec_find_Some in Ef as (Hes&Hhit&Hi&Hpre&before&after&Hsplit&Hbef);
      [|rewrite HlL; apply list_indices_lt].
    exists i, pre, e, post. split_and!; [done|done|done| |done|done]. intros j es Hj Hjs.
    destruct (decide (j = 0)%nat) as [->|]; [rewrite H0 in Hjs; by injection Hjs as <-|].
    apply (Hbef j es); [|done]. by apply (indices_before i before after).
  - right. split; [|done]. by apply (spec_find_all m).
Qed.

(** A filter of [B] with the id [uId]. *)
Definition has_filter (Ls : list (list entry)) (uId B : Z) : Prop :=
  ∃ i es e, Ls !! i = Some es ∧ e ∈ es ∧ e_id e = uId ∧ e_owner e = B.

Lemma entry_unique Ls i j es es' e e' :
  distinct Ls → Ls !! i = Some es → Ls !! j = Some es' → e ∈ es → e' ∈ es' → e_id e = e_id e' → e = e'.
Proof.
  intros [Hnd Hdis] Hi Hj He He' Heq.
  assert (i = j) as <-.
  { eapply (Hdis _ _ _ _ (e_id e) Hi Hj); [by apply list_elem_of_fmap_2|].
    rewrite Heq. by apply list_elem_of_fmap_2. }
  rewrite Hi in Hj. injection Hj as <-. specialize (Hnd i es Hi).
  apply list_elem_of_lookup in He as [x Hx], He' as [y Hy].
  assert (x = y) as ->; [|congruence].
  eapply (NoDup_lookup (ids es)); [done|rewrite list_lookup_fmap, Hx; done|].
  by rewrite list_lookup_fmap, Hy, Heq.
Qed.

Lemma spec_owner_has_filter m Ls uId B :
  mgr_rep m Ls → B ≠ VBOXUSBFILTER_CONTEXT_NIL → spec_owner uId Ls = B ↔ has_filter Ls uId B.
Proof.
  intros Hrep HB. unfold spec_owner.
  destruct (spec_find _ _ _) as [[[[i pre] e] post]|] eqn:E.
  - destruct (spec_find_rep _ _ _ _ _ _ _ Hrep E) as (Hes&He%Z.eqb_eq&_).
    assert (Hin : e ∈ pre ++ e :: post) by (rewrite elem_of_app, elem_of_cons; tauto).
    split; [intros <-; by exists i, (pre ++ e :: post), e|].
    intros (j&es&e'&Hj&He'&Hid&Ho). destruct Hrep as [(_&_&_&_&Hdis&_) _].
    assert (e = e') as ->; [|done]. eapply (entry_unique Ls i j); [done..|congruence].
  - split; [intros <-; done|]. intros (i&es&e&Hi&He&Hid&_).
    pose proof (spec_find_all m Ls _ Hrep E i es Hi) as Hall.
    rewrite Forall_forall in Hall. specialize (Hall e He). simpl in Hall.
    by rewrite Hid, Z.eqb_refl in Hall.
Qed.

Lemma has_filter_add i e Ls uId B :
  e_owner e ≠ B → has_filter (spec_add i e Ls) uId B ↔ has_filter Ls uId B.
Proof.
  intros He. unfold has_filter, spec_add. split; intros (j&es&e'&Hj&He'&Hid&Ho).
  - rewrite list_lookup_alter in Hj. case_decide; [subst j|by exists j, es, e'].
    destruct (Ls !! i) as [es0|] eqn:E; [|done]. injection Hj as <-.
    apply elem_of_app in He' as [He'| ->%list_elem_of_singleton]; [by exists i, es0, e'|done].
  - destruct (decide (i = j)) as [->|].
    + exists j, (es ++ [e]), e'. rewrite list_lookup_alter_eq, Hj, elem_of_app. auto.
    + exists j, es, e'. rewrite list_lookup_alter_ne by done. done.
Qed.

Lemma has_filter_kept (P : entry → Prop) `{∀ e, Decision (P e)} Ls uId B :
  (∀ e, e_owner e = B → P e) → has_filter (filter P <$> Ls) uId B ↔ has_filter Ls uId B.
Proof.
  intros HP. unfold has_filter. split; intros (j&es&e&Hj&He&Hid&Ho).
  - rewrite list_lookup_fmap in Hj. destruct (Ls !! j) as [es0|] eqn:E; [|done].
    injection Hj as <-. apply list_elem_of_filter in He as [_ He]. by exists j, es0, e.
  - exists j, (filter P es), e. rewrite list_lookup_fmap, Hj, list_elem_of_filter. auto.
Qed.

Lemma has_filter_remove_owner Owner Ls uId : ¬ has_filter (spec_remove_owner Owner Ls) uId Owner.
Proof.
  intros (j&es&e&Hj&He&Hid&Ho). unfold spec_remove_owner in Hj.
  rewrite list_lookup_fmap in Hj. destruct (Ls !! j) as [es0|]; [|done]. injection Hj as <-.
  by apply list_elem_of_filter in He as [? _].
Qed.

(** The operations that are done for an owner. *)
Definition op_owner (op : mgr_op) : option Z :=
  match op with
  | MAdd _ Owner _ _ | MRemove Owner _ | MRemoveOwner Owner => Some Owner
  | _ => None
  end.

Lemma op_owner_has_filter op Ls Owner uId B :
  op_owner op = Some Owner → Owner ≠ B → has_filter (spec_mgr op Ls).2 uId B ↔ has_filter Ls uId B.
Proof.
  destruct op as [f Ow puId pNew|Ow id|Ow| |]; [..|done|done]; intros [= ->] Hne; cbn [spec_mgr].
  - destruct (_ =? VINF_SUCCESS); [|done]. by apply has_filter_add.
  - destruct (_ || _); [done|]. apply has_filter_kept. intros e He [_ Ho]. congruence.
  - apply has_filter_kept. intros e He. congruence.
Qed.

(** C30. Owners do not disturb each other: what is done for an owner (adding a filter, removing one by
    its id, removing all) leaves every id that belongs to someone else with its owner, and
    gives nothing to anybody else; afterwards no id belongs to an owner whose filters were removed.
    The operations are those of [mgr_op_ok]. *)
Theorem usb_owner_isolation m op Owner B :
  mgr_reach m → mgr_op_ok op m → op_owner op = Some Owner → Owner ≠ B →
  B ≠ VBOXUSBFILTER_CONTEXT_NIL →
  ∃ a m', run_mgr op m = Some (a, m')
    ∧ (∀ uId, VBoxUSBFilterGetOwner m' uId = Some B ↔ VBoxUSBFilterGetOwner m uId = Some B)
    ∧ (op = MRemoveOwner Owner → Owner ≠ VBOXUSBFILTER_CONTEXT_NIL →
       ∀ uId, VBoxUSBFilterGetOwner m' uId ≠ Some Owner).
Proof.
  intros [Hlk [Ls Hrep]]%reach_rep Hok Hop Hne HB.
  destruct (run_mgr_spec m Ls op Hrep Hlk Hok) as (m'&E&Hrep'&Hlk').
  eexists _, m'. split; [exact E|].
  assert (Hget : ∀ m0 Ls0 uId A, mgr_rep m0 Ls0 → mgr_lock m0 = true → A ≠ VBOXUSBFILTER_CONTEXT_NIL →
            VBoxUSBFilterGetOwner m0 uId = Some A ↔ uId ≠ 0 ∧ has_filter Ls0 uId A).
  { intros m0 Ls0 uId A Hr Hl HA. rewrite (get_owner_spec m0 Ls0) by done.
    rewrite <- (spec_owner_has_filter m0 Ls0) by done. destruct (Z.eqb_spec uId 0) as [->|Hu].
    - split; [intros [= <-]; done|tauto].
    - split; [intros [= <-]; done|by intros [_ ->]]. }
  split.
  - intros uId. rewrite (Hget m' _ uId B Hrep') by done. rewrite (Hget m Ls uId B Hrep) by done.
    by rewrite (op_owner_has_filter op Ls Owner uId B).
  - intros -> HO uId. rewrite (Hget m' _ uId Owner Hrep') by done. intros [_ H].
    by apply has_filter_remove_owner in H.
Qed.

(** * Witnesses *)

(** Two clients: a one-shot filter of the owner 100, and a permanent one of the owner 200, for the
    same device. *)
Definition demo_typed (ty : Z) : USBFILTER :=
  mkFilter USBFILTER_MAGIC ty (flt_aFields demo_ring3) (flt_offCurEnd demo_ring3)
    (flt_achStrTab demo_ring3).

Definition demo_puId : ptr := 0xffff880000001000.

Definition demo_add_ops : list mgr_op :=
  [MAdd (demo_typed USBFILTERTYPE_CAPTURE) 200 demo_puId 8192;
   MAdd (demo_typed USBFILTERTYPE_ONESHOT_CAPTURE) 100 demo_puId 4096].

Definition demo_mgr_ops : list mgr_op :=
  demo_add_ops
  ++ [MMatchEx demo_device_filter true; MMatchEx demo_device_filter true; MGetOwner 8192;
      MRemove 100 8192; MRemoveOwner 200; MMatchEx demo_device_filter true].

(** What can be decided of [mgr_op_ok]. *)
Definition typed_check (g : USBFILTER) : bool :=
  bool_decide (length (flt_aFields g) = 11%nat ∧ length (flt_achStrTab g) = 256%nat
    ∧ Forall (λ ch, 0 ≤ ch ≤ 255) (flt_achStrTab g) ∧ 0 ≤ flt_offCurEnd g
    ∧ Forall (λ fld, 0 ≤ fld_u16Value fld ≤ UINT16_MAX) (flt_aFields g))
  && bool_decide (flt_offCurEnd g ≠ 0).

Lemma typed_checked g : typed_check g = true → filter_typed g ∧ offsets_checked g.
Proof.
  intros [H1%bool_decide_eq_true H2%bool_decide_eq_true]%andb_prop.
  split; [exact H1|by left].
Qed.

Lemma demo_typed_ok ty : filter_typed (demo_typed ty) ∧ offsets_checked (demo_typed ty).
Proof. apply typed_checked. by vm_compute. Qed.

Lemma demo_device_checked :
  filter_typed demo_device_filter ∧ offsets_checked demo_device_filter
  ∧ device_like demo_device_filter.
Proof.
  split; [apply typed_checked; by vm_compute|]. split; [apply typed_checked; by vm_compute|].
  apply (bool_decide_unpack (Forall _ _)). by vm_compute.
Qed.

Definition demo_mgr0 : usbmgr := (VBoxUSBFilterInit VINF_SUCCESS mgr_start).2.

Definition demo_run (ops : list mgr_op) : usbmgr :=
  match run_mgrs ops demo_mgr0 with Some (_, m) => m | None => mgr_start end.

Lemma ops_ok_step op ops m :
  mgr_op_ok op m →
  match run_mgr op m with Some (_, m') => mgr_ops_ok ops m' | None => True end →
  mgr_ops_ok (op :: ops) m.
Proof.
  intros Hop H. split; [done|]. intros a m' E. by rewrite E in H.
Qed.

Lemma demo_ops_ok : mgr_ops_ok demo_mgr_ops demo_mgr0.
Proof.
  pose proof demo_typed_ok as Ht. pose proof demo_device_checked as Hd.
  unfold demo_mgr_ops, demo_add_ops. cbn [app].
  do 2 (apply ops_ok_step; [split; [apply Ht|split; [apply Ht|by vm_compute]]|];
        match goal with |- match ?x with _ => _ end => let v := eval vm_compute in x in change x with v end;
        cbn iota).
  do 6 (apply ops_ok_step; [exact Hd || exact I|];
        match goal with |- match ?x with _ => _ end => let v := eval vm_compute in x in change x with v end;
        cbn iota).
  exact I.
Qed.

Lemma reach_run ops m answers m' :
  mgr_reach m → mgr_ops_ok ops m → run_mgrs ops m = Some (answers, m') → mgr_reach m'.
Proof.
  revert m answers. induction ops as [|op ops IH]; intros m answers Hm Hok; cbn [run_mgrs].
  { by intros [= _ <-]. }
  destruct Hok as [Hop Hok]. destruct (run_mgr op m) as [[a m1]|] eqn:E; [|done].
  cbn [mbind option_bind]. destruct (run_mgrs ops m1) as [[as2 m2]|] eqn:E2; [|done].
  intros [= _ <-]. eapply (IH m1); [by eapply mgr_reach_op|by eapply Hok|done].
Qed.

Lemma ops_ok_app ops ops' m : mgr_ops_ok (ops ++ ops') m → mgr_ops_ok ops m.
Proof.
  revert m. induction ops as [|op ops IH]; intros m; cbn; [done|].
  intros [? H]. split; [done|]. intros a m' E. by eapply IH, H.
Qed.

Lemma demo_mgr_reach : mgr_reach (demo_run demo_add_ops).
Proof.
  assert (H0 : mgr_reach demo_mgr0) by (apply (mgr_reach_init VINF_SUCCESS); done).
  destruct (run_mgrs demo_add_ops demo_mgr0) as [[as' m]|] eqn:E; [|by vm_compute in E].
  unfold demo_run. rewrite E. eapply (reach_run demo_add_ops); [done| |done].
  eapply ops_ok_app. apply demo_ops_ok.
Qed.

Lemma usb_manager_invariant_witness :
  size (mgr_mem (demo_run demo_add_ops)) = 2%nat
  ∧ ∃ m', VBoxUSBFilterTerm (demo_run demo_add_ops) = Some m' ∧ mgr_mem m' = ∅.
Proof.
  split; [by vm_compute|].
  destruct (usb_manager_invariant _ demo_mgr_reach) as (_&_&m'&?&?&_). by exists m'.
Defined.

(** The one-shot filter is first although it was added later, and it matches once. *)
Lemma usb_manager_refines_witness :
  fst <$> run_mgrs demo_mgr_ops demo_mgr0
  = Some [AAdd VINF_SUCCESS (Some 8192); AAdd VINF_SUCCESS (Some 4096);
          AMatch (mkMatchResult 100 (Some 4096) (Some true) (Some true));
          AMatch (mkMatchResult 200 (Some 8192) (Some true) (Some false));
          AOwner 200; AStatus VERR_FILE_NOT_FOUND; ADone;
          AMatch (mkMatchResult VBOXUSBFILTER_CONTEXT_NIL (Some 0) (Some false) None)].
Proof.
  destruct (usb_manager_refines VINF_SUCCESS demo_mgr_ops demo_mgr0) as (m'&->&_);
    [done|done|apply demo_ops_ok|]. by vm_compute.
Defined.

Lemma usb_match_priority_witness :
  ∃ r m', VBoxUSBFilterMatchEx (demo_run demo_add_ops) (Some demo_device_filter) true = Some (r, m')
    ∧ mr_Owner r = 100 ∧ ∃ Ls, mgr_rep m' Ls.
Proof.
  destruct demo_device_checked as (H1&H2&H3).
  destruct (usb_match_priority (demo_run demo_add_ops) demo_device_filter true demo_mgr_reach H1 H2 H3)
    as (r&m'&Ls&E&_&H); [by vm_compute|].
  assert (Ho : mr_Owner <$> (fst <$> VBoxUSBFilterMatchEx (demo_run demo_add_ops)
                 (Some demo_device_filter) true) = Some 100) by (by vm_compute).
  exists r, m'. split; [done|]. split; [by rewrite E in Ho; injection Ho|].
  destruct H as [(i&pre&e&post&_&_&_&_&_&H)|(_&_&H)]; by eexists.
Defined.

Lemma usb_owner_isolation_witness :
  ∃ a m', run_mgr (MRemoveOwner 100) (demo_run demo_add_ops) = Some (a, m')
    ∧ VBoxUSBFilterGetOwner m' 8192 = Some 200 ∧ VBoxUSBFilterGetOwner m' 4096 ≠ Some 100.
Proof.
  destruct (usb_owner_isolation (demo_run demo_add_ops) (MRemoveOwner 100) 100 200 demo_mgr_reach I eq_refl)
    as (a&m'&E&H1&H2); [lia|by vm_compute|].
  exists a, m'. split; [done|]. split.
  - apply H1. by vm_compute.
  - by apply H2.
Defined.
