(* ===== verification/HeapSimple.v ===== *)
(** The simple heap of the runtime (Runtime/common/alloc/heapsimple.cpp), on which the ring-0
    allocator of Linux keeps executable memory.

    The memory is a map from the addresses of its 8-byte words to what is in them; all
    structures of the heap lie at multiples of 32.  An operation has no result ([None]) where
    the source would read or write a word that is not mapped.  Loops have as much fuel as there
    are words.  What the allocations contain is in the same memory, and the operations leave it
    alone: that is part of what is proved.

    The free blocks are in a list of their own; both lists are doubly linked, and sorted by
    address.  A block has no size: it ends where the next one starts. *)

From S2P Require Import Prelude.
Local Open Scope Z_scope.

Abbreviation memory := (gmap Z Z).

Definition rdw (m : memory) (p : ptr) : option Z := m !! p.

Definition wrw (m : memory) (p : ptr) (v : Z) : option memory :=
  _ ← m !! p; Some (<[p := v]> m).

(** * Layout *)

Definition RTHEAPSIMPLE_MAGIC : Z := 0x19590105.

(** The members of RTHEAPSIMPLEBLOCK, by the address of the structure. *)
Definition Core_pNext (p : ptr) : ptr := p.
Definition Core_pPrev (p : ptr) : ptr := p + 8.
Definition Core_pHeap (p : ptr) : ptr := p + 16.
Definition Core_fFlags (p : ptr) : ptr := p + 24.
Definition sizeof_BLOCK : Z := 32.

(** RTHEAPSIMPLEFREE, behind its [Core] *)
Definition Free_pNext (p : ptr) : ptr := p + 32.
Definition Free_pPrev (p : ptr) : ptr := p + 40.
Definition Free_cb (p : ptr) : ptr := p + 48.
Definition Free_Alignment (p : ptr) : ptr := p + 56.
Definition sizeof_FREE : Z := 64.

(** RTHEAPSIMPLEINTERNAL *)
Definition Heap_uMagic (h : ptr) : ptr := h.
Definition Heap_cbHeap (h : ptr) : ptr := h + 8.
Definition Heap_pvEnd (h : ptr) : ptr := h + 16.
Definition Heap_cbFree (h : ptr) : ptr := h + 24.
Definition Heap_pFreeHead (h : ptr) : ptr := h + 32.
Definition Heap_pFreeTail (h : ptr) : ptr := h + 40.
Definition Heap_auAlignment (h i : ptr) : ptr := h + 48 + 8 * i.
Definition sizeof_INTERNAL : Z := 64.

Definition RTHEAPSIMPLEBLOCK_FLAGS_FREE : Z := 1.
Definition RTHEAPSIMPLEBLOCK_FLAGS_MAGIC : Z := 0xabcdef00.
Definition RTHEAPSIMPLEBLOCK_FLAGS_MAGIC_MASK : Z := 0xfffffffffffffffe.
Definition RTHEAPSIMPLE_MIN_BLOCK : Z := sizeof_BLOCK.
Definition RTHEAPSIMPLE_ALIGNMENT : Z := sizeof_BLOCK.

Definition RTHEAPSIMPLEBLOCK_IS_FREE (fFlags : Z) : bool := tst fFlags RTHEAPSIMPLEBLOCK_FLAGS_FREE.
Definition RTHEAPSIMPLEBLOCK_IS_VALID (fFlags : Z) : bool :=
  Z.land fFlags RTHEAPSIMPLEBLOCK_FLAGS_MAGIC_MASK =? RTHEAPSIMPLEBLOCK_FLAGS_MAGIC.
Definition RTHEAPSIMPLEBLOCK_IS_VALID_USED (fFlags : Z) : bool :=
  Z.land fFlags (Z.lor RTHEAPSIMPLEBLOCK_FLAGS_MAGIC_MASK RTHEAPSIMPLEBLOCK_FLAGS_FREE)
  =? RTHEAPSIMPLEBLOCK_FLAGS_MAGIC.
Definition RTHEAPSIMPLEBLOCK_IS_VALID_FREE (fFlags : Z) : bool :=
  Z.land fFlags (Z.lor RTHEAPSIMPLEBLOCK_FLAGS_MAGIC_MASK RTHEAPSIMPLEBLOCK_FLAGS_FREE)
  =? Z.lor RTHEAPSIMPLEBLOCK_FLAGS_MAGIC RTHEAPSIMPLEBLOCK_FLAGS_FREE.

Definition RT_ALIGN_Z (cb uAlignment : Z) : Z :=
  Z.land (u64 (cb + (uAlignment - 1))) (Z.lxor (uAlignment - 1) 0xffffffffffffffff).

(** * Initialisation *)

(** Status, what is stored in [*phHeap], the memory. *)
Definition RTHeapSimpleInit (m : memory) (pvMemory : ptr) (cbMemory : Z) :
    option (Z * option ptr * memory) :=
  if negb (PAGE_SIZE <=? cbMemory) then Some (VERR_INVALID_PARAMETER, None, m)
  else if negb (VALID_PTR pvMemory) then Some (VERR_INVALID_POINTER, None, m)
  else if negb (cbMemory <? u64 (pvMemory + (cbMemory - 1)))
  then Some (VERR_INVALID_PARAMETER, None, m)
  else
    let '(pHeapInt, cbMemory) :=
      if negb (Z.land pvMemory 31 =? 0) then
        let off := 32 - Z.land pvMemory 31 in (u64 (pvMemory + off), u64 (cbMemory - off))
      else (pvMemory, cbMemory) in
    let cbMemory := Z.land cbMemory (Z.lxor (RTHEAPSIMPLE_ALIGNMENT - 1) 0xffffffffffffffff) in
    m ← wrw m (Heap_uMagic pHeapInt) RTHEAPSIMPLE_MAGIC;
    m ← wrw m (Heap_pvEnd pHeapInt) (u64 (pHeapInt + cbMemory));
    m ← wrw m (Heap_cbHeap pHeapInt) cbMemory;
    m ← wrw m (Heap_cbFree pHeapInt) (u64 (cbMemory - sizeof_BLOCK - sizeof_INTERNAL));
    let pFree := u64 (pHeapInt + sizeof_INTERNAL) in
    m ← wrw m (Heap_pFreeHead pHeapInt) pFree;
    m ← wrw m (Heap_pFreeTail pHeapInt) pFree;
    m ← wrw m (Heap_auAlignment pHeapInt 0) 0xffffffffffffffff;
    m ← wrw m (Heap_auAlignment pHeapInt 1) 0xffffffffffffffff;
    m ← wrw m (Core_pNext pFree) NULL;
    m ← wrw m (Core_pPrev pFree) NULL;
    m ← wrw m (Core_pHeap pFree) pHeapInt;
    m ← wrw m (Core_fFlags pFree) (Z.lor RTHEAPSIMPLEBLOCK_FLAGS_MAGIC RTHEAPSIMPLEBLOCK_FLAGS_FREE);
    m ← wrw m (Free_pNext pFree) NULL;
    m ← wrw m (Free_pPrev pFree) NULL;
    cbFree ← rdw m (Heap_cbFree pHeapInt);
    m ← wrw m (Free_cb pFree) cbFree;
    Some (VINF_SUCCESS, Some pHeapInt, m).

(** * Relocation *)

(** [RELOCATE_IT] *)
Definition relocate_it (m : memory) (p : ptr) (offDelta : Z) : option memory :=
  v ← rdw m p;
  if negb (v =? NULL) then wrw m p (u64 (v + offDelta)) else Some m.

Fixpoint relocate_loop (n : nat) (m : memory) (pHeapInt pCur : ptr) (offDelta : Z) : option memory :=
  match n with
  | O => None
  | S n =>
      pvEnd ← rdw m (Heap_pvEnd pHeapInt);
      if negb (pCur =? NULL) && (pCur <? pvEnd) then
        m ← relocate_it m (Core_pNext pCur) offDelta;
        m ← relocate_it m (Core_pPrev pCur) offDelta;
        m ← relocate_it m (Core_pHeap pCur) offDelta;
        fFlags ← rdw m (Core_fFlags pCur);
        m ← (if RTHEAPSIMPLEBLOCK_IS_FREE fFlags then
               m ← relocate_it m (Free_pNext pCur) offDelta;
               relocate_it m (Free_pPrev pCur) offDelta
             else Some m);
        pNext ← rdw m (Core_pNext pCur);
        relocate_loop n m pHeapInt pNext offDelta
      else Some m
  end.

Definition RTHeapSimpleRelocate (m : memory) (hHeap : ptr) (offDelta : Z) : option (Z * memory) :=
  let pHeapInt := hHeap in
  if negb (VALID_PTR pHeapInt) then Some (VERR_INVALID_HANDLE, m)
  else
    uMagic ← rdw m (Heap_uMagic pHeapInt);
    if negb (uMagic =? RTHEAPSIMPLE_MAGIC) then Some (VERR_INVALID_HANDLE, m)
    else
      pvEnd ← rdw m (Heap_pvEnd pHeapInt);
      cbHeap ← rdw m (Heap_cbHeap pHeapInt);
      if negb (u64 (pHeapInt - pvEnd + cbHeap) =? offDelta) then Some (VERR_INVALID_PARAMETER, m)
      else
        m ← relocate_it m (Heap_pvEnd pHeapInt) offDelta;
        m ← relocate_it m (Heap_pFreeHead pHeapInt) offDelta;
        m ← relocate_it m (Heap_pFreeTail pHeapInt) offDelta;
        m ← relocate_loop (S (size m)) m pHeapInt (u64 (pHeapInt + sizeof_INTERNAL)) offDelta;
        Some (VINF_SUCCESS, m).

(** * The links *)

(** [if (pBlock) pBlock->pPrev = X], for a block and its predecessor in the list of all blocks. *)
Definition set_block_prev (m : memory) (pBlock X : ptr) : option memory :=
  if negb (pBlock =? NULL) then wrw m (Core_pPrev pBlock) X else Some m.

(** [if (pFree) pFree->pPrev = X; else pHeapInt->pFreeTail = X] *)
Definition set_free_prev (m : memory) (pHeapInt pFree X : ptr) : option memory :=
  if negb (pFree =? NULL) then wrw m (Free_pPrev pFree) X else wrw m (Heap_pFreeTail pHeapInt) X.

(** [if (pFree) pFree->pNext = X; else pHeapInt->pFreeHead = X] *)
Definition set_free_next (m : memory) (pHeapInt pFree X : ptr) : option memory :=
  if negb (pFree =? NULL) then wrw m (Free_pNext pFree) X else wrw m (Heap_pFreeHead pHeapInt) X.

Definition add_cbFree (m : memory) (pHeapInt : ptr) (d : Z) : option memory :=
  cbFree ← rdw m (Heap_cbFree pHeapInt); wrw m (Heap_cbFree pHeapInt) (u64 (cbFree + d)).

(** [(pBlock->pNext ? pBlock->pNext : pHeapInt->pvEnd) - pBlock - sizeof(RTHEAPSIMPLEBLOCK)] *)
Definition block_cb (m : memory) (pHeapInt pBlock : ptr) : option Z :=
  pNext ← rdw m (Core_pNext pBlock);
  pEnd ← (if negb (pNext =? NULL) then Some pNext else rdw m (Heap_pvEnd pHeapInt));
  Some (u64 (pEnd - pBlock - sizeof_BLOCK)).

(** * Allocation *)

(** The alignment of [pFree]: it moves up by [offAlign], which goes to the block in front of it.
    Where it is, and the memory. *)
Definition alloc_align (m : memory) (pHeapInt pFree : ptr) (offAlign : Z) :
    option (ptr * memory) :=
  core_pNext ← rdw m (Core_pNext pFree);
  core_pPrev ← rdw m (Core_pPrev pFree);
  core_pHeap ← rdw m (Core_pHeap pFree);
  core_fFlags ← rdw m (Core_fFlags pFree);
  free_pNext ← rdw m (Free_pNext pFree);
  free_pPrev ← rdw m (Free_pPrev pFree);
  free_cb ← rdw m (Free_cb pFree);
  free_Alignment ← rdw m (Free_Alignment pFree);
  let pFree := u64 (pFree + offAlign) in
  '(pPrev, m) ←
    (if negb (core_pPrev =? NULL) then
       m ← wrw m (Core_pNext core_pPrev) pFree; Some (core_pPrev, m)
     else
       let pPrev := u64 (pHeapInt + sizeof_INTERNAL) in
       m ← wrw m (Core_pPrev pPrev) NULL;
       m ← wrw m (Core_pNext pPrev) pFree;
       m ← wrw m (Core_pHeap pPrev) pHeapInt;
       m ← wrw m (Core_fFlags pPrev) RTHEAPSIMPLEBLOCK_FLAGS_MAGIC;
       Some (pPrev, m));
  m ← add_cbFree m pHeapInt (- offAlign);
  m ← wrw m (Core_pNext pFree) core_pNext;
  m ← wrw m (Core_pPrev pFree) core_pPrev;
  m ← wrw m (Core_pHeap pFree) core_pHeap;
  m ← wrw m (Core_fFlags pFree) core_fFlags;
  m ← wrw m (Free_pNext pFree) free_pNext;
  m ← wrw m (Free_pPrev pFree) free_pPrev;
  m ← wrw m (Free_cb pFree) free_cb;
  m ← wrw m (Free_Alignment pFree) free_Alignment;
  pNext ← rdw m (Core_pNext pFree);
  m ← set_block_prev m pNext pFree;
  m ← wrw m (Core_pPrev pFree) pPrev;
  cb ← rdw m (Free_cb pFree);
  m ← wrw m (Free_cb pFree) (u64 (cb - offAlign));
  pNext ← rdw m (Free_pNext pFree);
  m ← set_free_prev m pHeapInt pNext pFree;
  pPrev ← rdw m (Free_pPrev pFree);
  m ← set_free_next m pHeapInt pPrev pFree;
  Some (pFree, m).

(** [pFree] is used from its beginning; the rest of it becomes a free block. *)
Definition alloc_split (m : memory) (pHeapInt pFree : ptr) (cb : Z) : option (ptr * memory) :=
  let pNew := u64 (pFree + cb + sizeof_BLOCK) in
  core_pNext ← rdw m (Core_pNext pFree);
  m ← wrw m (Core_pNext pNew) core_pNext;
  core_pNext ← rdw m (Core_pNext pFree);
  m ← set_block_prev m core_pNext pNew;
  m ← wrw m (Core_pPrev pNew) pFree;
  m ← wrw m (Core_pHeap pNew) pHeapInt;
  m ← wrw m (Core_fFlags pNew) (Z.lor RTHEAPSIMPLEBLOCK_FLAGS_MAGIC RTHEAPSIMPLEBLOCK_FLAGS_FREE);
  pNext ← rdw m (Free_pNext pFree);
  m ← wrw m (Free_pNext pNew) pNext;
  pNext ← rdw m (Free_pNext pNew);
  m ← set_free_prev m pHeapInt pNext pNew;
  pPrev ← rdw m (Free_pPrev pFree);
  m ← wrw m (Free_pPrev pNew) pPrev;
  pPrev ← rdw m (Free_pPrev pNew);
  m ← set_free_next m pHeapInt pPrev pNew;
  newcb ← block_cb m pHeapInt pNew;
  m ← wrw m (Free_cb pNew) newcb;
  fFlags ← rdw m (Core_fFlags pFree);
  m ← wrw m (Core_fFlags pFree) (Z.land fFlags RTHEAPSIMPLEBLOCK_FLAGS_MAGIC_MASK);
  m ← wrw m (Core_pNext pFree) pNew;
  freecb ← rdw m (Free_cb pFree);
  m ← add_cbFree m pHeapInt (- freecb);
  newcb ← rdw m (Free_cb pNew);
  m ← add_cbFree m pHeapInt newcb;
  Some (pFree, m).

(** [pFree] is used as it is. *)
Definition alloc_whole (m : memory) (pHeapInt pFree : ptr) : option (ptr * memory) :=
  pNext ← rdw m (Free_pNext pFree);
  pPrev ← rdw m (Free_pPrev pFree);
  m ← set_free_prev m pHeapInt pNext pPrev;
  pPrev ← rdw m (Free_pPrev pFree);
  pNext ← rdw m (Free_pNext pFree);
  m ← set_free_next m pHeapInt pPrev pNext;
  freecb ← rdw m (Free_cb pFree);
  m ← add_cbFree m pHeapInt (- freecb);
  fFlags ← rdw m (Core_fFlags pFree);
  m ← wrw m (Core_fFlags pFree) (Z.land fFlags RTHEAPSIMPLEBLOCK_FLAGS_MAGIC_MASK);
  Some (pFree, m).

Definition alloc_take (m : memory) (pHeapInt pFree : ptr) (cb : Z) : option (ptr * memory) :=
  freecb ← rdw m (Free_cb pFree);
  if u64 (cb + RT_ALIGN_Z sizeof_FREE RTHEAPSIMPLE_ALIGNMENT) <=? freecb
  then alloc_split m pHeapInt pFree cb else alloc_whole m pHeapInt pFree.

(** The search for a fitting block, from the lower end of the heap. *)
Fixpoint heap_alloc_loop (n : nat) (m : memory) (pHeapInt : ptr) (cb uAlignment : Z) (pFree : ptr) :
    option (ptr * memory) :=
  match n with
  | O => None
  | S n =>
      if pFree =? NULL then Some (NULL, m)
      else
        freecb ← rdw m (Free_cb pFree);
        pNext ← rdw m (Free_pNext pFree);
        if freecb <? cb then heap_alloc_loop n m pHeapInt cb uAlignment pNext
        else
          let offAlign := Z.land (u64 (pFree + sizeof_BLOCK)) (u64 (uAlignment - 1)) in
          if offAlign =? 0 then alloc_take m pHeapInt pFree cb
          else
            let offAlign := u64 (uAlignment - offAlign) in
            if u64 (freecb - offAlign) <? cb then heap_alloc_loop n m pHeapInt cb uAlignment pNext
            else
              '(pFree, m) ← alloc_align m pHeapInt pFree offAlign;
              alloc_take m pHeapInt pFree cb
  end.

Definition rtHeapSimpleAllocBlock (m : memory) (pHeapInt : ptr) (cb uAlignment : Z) :
    option (ptr * memory) :=
  pFreeHead ← rdw m (Heap_pFreeHead pHeapInt);
  heap_alloc_loop (S (size m)) m pHeapInt cb uAlignment pFreeHead.

(** The size and alignment that are used for a request. *)
Definition adjust_cb (cb : Z) : Z :=
  if cb <? RTHEAPSIMPLE_MIN_BLOCK then RTHEAPSIMPLE_MIN_BLOCK
  else RT_ALIGN_Z cb RTHEAPSIMPLE_ALIGNMENT.

Definition adjust_alignment (cbAlignment : Z) : Z :=
  if cbAlignment =? 0 then RTHEAPSIMPLE_ALIGNMENT
  else if cbAlignment <? RTHEAPSIMPLE_ALIGNMENT then RTHEAPSIMPLE_ALIGNMENT else cbAlignment.

Definition RTHeapSimpleAlloc (m : memory) (hHeap : ptr) (cb cbAlignment : Z) :
    option (ptr * memory) :=
  if negb (VALID_PTR hHeap) then Some (NULL, m)
  else
    '(pBlock, m) ← rtHeapSimpleAllocBlock m hHeap (adjust_cb cb) (adjust_alignment cbAlignment);
    if negb (pBlock =? NULL) then Some (u64 (pBlock + sizeof_BLOCK), m) else Some (NULL, m).

(** [memset(pv, 0, cb)], for a multiple of 8 *)
Fixpoint zero_words (n : nat) (m : memory) (pv : ptr) : option memory :=
  match n with
  | O => Some m
  | S n => m ← wrw m pv 0; zero_words n m (pv + 8)
  end.

Definition RTHeapSimpleAllocZ (m : memory) (hHeap : ptr) (cb cbAlignment : Z) :
    option (ptr * memory) :=
  if negb (VALID_PTR hHeap) then Some (NULL, m)
  else
    '(pBlock, m) ← rtHeapSimpleAllocBlock m hHeap (adjust_cb cb) (adjust_alignment cbAlignment);
    if negb (pBlock =? NULL) then
      let pv := u64 (pBlock + sizeof_BLOCK) in
      m ← zero_words (Z.to_nat (adjust_cb cb / 8)) m pv;
      Some (pv, m)
    else Some (NULL, m).

(** * Freeing *)

(** The next free block from [pRight] on. *)
Fixpoint find_right (n : nat) (m : memory) (pRight : ptr) : option ptr :=
  match n with
  | O => None
  | S n =>
      if pRight =? NULL then Some NULL
      else
        fFlags ← rdw m (Core_fFlags pRight);
        if RTHEAPSIMPLEBLOCK_IS_FREE fFlags then Some pRight
        else pNext ← rdw m (Core_pNext pRight); find_right n m pNext
  end.

(** The free blocks to the left and right of [pFree]. *)
Definition find_neighbours (m : memory) (pHeapInt pFree : ptr) : option (ptr * ptr) :=
  pFreeTail ← rdw m (Heap_pFreeTail pHeapInt);
  if negb (pFreeTail =? NULL) then
    pNext ← rdw m (Core_pNext pFree);
    pRight ← find_right (S (size m)) m pNext;
    if pRight =? NULL then Some (pFreeTail, pRight)
    else pLeft ← rdw m (Free_pPrev pRight); Some (pLeft, pRight)
  else Some (NULL, NULL).

(** [pFree->Core.fFlags |= RTHEAPSIMPLEBLOCK_FLAGS_FREE] *)
Definition set_free_flag (m : memory) (pFree : ptr) : option memory :=
  fFlags ← rdw m (Core_fFlags pFree);
  wrw m (Core_fFlags pFree) (Z.lor fFlags RTHEAPSIMPLEBLOCK_FLAGS_FREE).

(** The block is merged with the free block before it, or linked into the list.  Which block is
    free now, and the memory. *)
Definition heap_free_left (m : memory) (pHeapInt pFree pLeft pRight : ptr) : option (ptr * memory) :=
  if pLeft =? NULL then
    m ← set_free_flag m pFree;
    m ← wrw m (Free_pPrev pFree) NULL;
    m ← wrw m (Free_pNext pFree) pRight;
    m ← set_free_prev m pHeapInt pRight pFree;
    m ← wrw m (Heap_pFreeHead pHeapInt) pFree;
    Some (pFree, m)
  else
    pNext ← rdw m (Core_pNext pLeft);
    if pNext =? pFree then
      pNext ← rdw m (Core_pNext pFree);
      m ← wrw m (Core_pNext pLeft) pNext;
      pNext ← rdw m (Core_pNext pFree);
      m ← set_block_prev m pNext pLeft;
      leftcb ← rdw m (Free_cb pLeft);
      m ← add_cbFree m pHeapInt (- leftcb);
      Some (pLeft, m)
    else
      m ← set_free_flag m pFree;
      m ← wrw m (Free_pNext pFree) pRight;
      m ← wrw m (Free_pPrev pFree) pLeft;
      m ← wrw m (Free_pNext pLeft) pFree;
      m ← set_free_prev m pHeapInt pRight pFree;
      Some (pFree, m).

(** It is merged with the free block behind it. *)
Definition heap_free_right (m : memory) (pHeapInt pFree pRight : ptr) : option memory :=
  if negb (pRight =? NULL) then
    pPrev ← rdw m (Core_pPrev pRight);
    if pPrev =? pFree then
      pNext ← rdw m (Core_pNext pRight);
      m ← wrw m (Core_pNext pFree) pNext;
      pNext ← rdw m (Core_pNext pRight);
      m ← set_block_prev m pNext pFree;
      pNext ← rdw m (Free_pNext pRight);
      m ← wrw m (Free_pNext pFree) pNext;
      pNext ← rdw m (Free_pNext pRight);
      m ← set_free_prev m pHeapInt pNext pFree;
      rightcb ← rdw m (Free_cb pRight);
      add_cbFree m pHeapInt (- rightcb)
    else Some m
  else Some m.

Definition rtHeapSimpleFreeBlock (m : memory) (pHeapInt pBlock : ptr) : option memory :=
  let pFree := pBlock in
  '(pLeft, pRight) ← find_neighbours m pHeapInt pFree;
  if pLeft =? pFree then Some m
  else
    '(pFree, m) ← heap_free_left m pHeapInt pFree pLeft pRight;
    m ← heap_free_right m pHeapInt pFree pRight;
    cb ← block_cb m pHeapInt pFree;
    m ← wrw m (Free_cb pFree) cb;
    add_cbFree m pHeapInt cb.

Definition RTHeapSimpleFree (m : memory) (hHeap pv : ptr) : option memory :=
  if pv =? NULL then Some m
  else
    let pBlock := u64 (pv - sizeof_BLOCK) in
    pHeapInt ← rdw m (Core_pHeap pBlock);
    rtHeapSimpleFreeBlock m pHeapInt pBlock.

(** * Queries *)

Definition RTHeapSimpleSize (m : memory) (hHeap pv : ptr) : option Z :=
  if pv =? NULL then Some 0
  else if negb (VALID_PTR pv) then Some 0
  else if negb (RT_ALIGN_Z pv RTHEAPSIMPLE_ALIGNMENT =? pv) then Some 0
  else
    let pBlock := u64 (pv - sizeof_BLOCK) in
    pHeapInt ← rdw m (Core_pHeap pBlock);
    block_cb m pHeapInt pBlock.

Definition RTHeapSimpleGetHeapSize (m : memory) (hHeap : ptr) : option Z :=
  if hHeap =? NULL then Some 0
  else if negb (VALID_PTR hHeap) then Some 0 else rdw m (Heap_cbHeap hHeap).

Definition RTHeapSimpleGetFreeSize (m : memory) (hHeap : ptr) : option Z :=
  if hHeap =? NULL then Some 0
  else if negb (VALID_PTR hHeap) then Some 0 else rdw m (Heap_cbFree hHeap).

(** * The consistency check of strict builds *)

Definition ASSERT_ALIGN (a : ptr) : bool := Z.land a (RTHEAPSIMPLE_ALIGNMENT - 1) =? 0.

Definition ASSERT_PREV (m : memory) (pHeapInt pBlock : ptr) : option bool :=
  pPrev ← rdw m (Core_pPrev pBlock);
  Some (ASSERT_ALIGN pPrev
        && if negb (pPrev =? NULL)
           then (pPrev <? pBlock) && (pHeapInt + sizeof_INTERNAL <=? pPrev)
           else pBlock =? pHeapInt + sizeof_INTERNAL).

Definition ASSERT_NEXT (m : memory) (pHeapInt pBlock : ptr) : option bool :=
  pNext ← rdw m (Core_pNext pBlock);
  pvEnd ← rdw m (Heap_pvEnd pHeapInt);
  Some (ASSERT_ALIGN pNext
        && if negb (pNext =? NULL) then (pNext <? pvEnd) && (pBlock <? pNext) else true).

(** [ASSERT_BLOCK] and [ASSERT_BLOCK_USED], by what the flags must satisfy. *)
Definition assert_block (valid : Z → bool) (m : memory) (pHeapInt pBlock : ptr) : option bool :=
  fFlags ← rdw m (Core_fFlags pBlock);
  pHeap ← rdw m (Core_pHeap pBlock);
  pvEnd ← rdw m (Heap_pvEnd pHeapInt);
  next ← ASSERT_NEXT m pHeapInt pBlock;
  prev ← ASSERT_PREV m pHeapInt pBlock;
  Some (valid fFlags && (pHeap =? pHeapInt) && (pHeapInt + sizeof_INTERNAL <=? pBlock)
        && (pBlock <? pvEnd) && next && prev).

Definition ASSERT_FREE_PREV (m : memory) (pHeapInt pBlock : ptr) : option bool :=
  pPrev ← rdw m (Free_pPrev pBlock);
  pFreeHead ← rdw m (Heap_pFreeHead pHeapInt);
  core_pPrev ← rdw m (Core_pPrev pBlock);
  Some (ASSERT_ALIGN pPrev
        && if negb (pPrev =? NULL)
           then (pFreeHead <=? pPrev) && (pPrev <? pBlock) && (pPrev <=? core_pPrev)
           else pBlock =? pFreeHead).

Definition ASSERT_FREE_NEXT (m : memory) (pHeapInt pBlock : ptr) : option bool :=
  pNext ← rdw m (Free_pNext pBlock);
  pFreeTail ← rdw m (Heap_pFreeTail pHeapInt);
  core_pNext ← rdw m (Core_pNext pBlock);
  Some (ASSERT_ALIGN pNext
        && if negb (pNext =? NULL)
           then (pNext <=? pFreeTail) && (pBlock <? pNext) && (core_pNext <=? pNext)
           else pBlock =? pFreeTail).

Definition ASSERT_FREE_CB (m : memory) (pHeapInt pBlock : ptr) : option bool :=
  cbCalc ← block_cb m pHeapInt pBlock;
  cb ← rdw m (Free_cb pBlock);
  Some (cb =? cbCalc).

Definition ASSERT_BLOCK_FREE (m : memory) (pHeapInt pBlock : ptr) : option bool :=
  block ← assert_block RTHEAPSIMPLEBLOCK_IS_VALID m pHeapInt pBlock;
  fFlags ← rdw m (Core_fFlags pBlock);
  pFreeHead ← rdw m (Heap_pFreeHead pHeapInt);
  pFreeTail ← rdw m (Heap_pFreeTail pHeapInt);
  next ← ASSERT_FREE_NEXT m pHeapInt pBlock;
  prev ← ASSERT_FREE_PREV m pHeapInt pBlock;
  size ← ASSERT_FREE_CB m pHeapInt pBlock;
  Some (block && RTHEAPSIMPLEBLOCK_IS_VALID_FREE fFlags && (pFreeHead <=? pBlock)
        && (pBlock <=? pFreeTail) && next && prev && size).

Fixpoint assert_loop (n : nat) (m : memory) (pHeapInt pBlock pPrev pPrevFree : ptr) : option bool :=
  match n with
  | O => None
  | S n =>
      if pBlock =? NULL then
        pFreeTail ← rdw m (Heap_pFreeTail pHeapInt); Some (pFreeTail =? pPrevFree)
      else
        fFlags ← rdw m (Core_fFlags pBlock);
        '(ok, pPrevFree) ←
          (if RTHEAPSIMPLEBLOCK_IS_FREE fFlags then
             ok ← ASSERT_BLOCK_FREE m pHeapInt pBlock;
             free_pPrev ← rdw m (Free_pPrev pBlock);
             pFreeHead ← rdw m (Heap_pFreeHead pHeapInt);
             Some (ok && (free_pPrev =? pPrevFree)
                   && (negb (pPrevFree =? NULL) || (pFreeHead =? pBlock)), pBlock)
           else
             ok ← assert_block RTHEAPSIMPLEBLOCK_IS_VALID_USED m pHeapInt pBlock;
             Some (ok, pPrevFree));
        core_pPrev ← rdw m (Core_pPrev pBlock);
        pNext ← rdw m (Core_pNext pBlock);
        rest ← assert_loop n m pHeapInt pNext pBlock pPrevFree;
        Some (ok && ((pPrev =? NULL) || (pPrev =? core_pPrev)) && rest)
  end.

Definition rtHeapSimpleAssertAll (m : memory) (pHeapInt : ptr) : option bool :=
  assert_loop (S (size m)) m pHeapInt (u64 (pHeapInt + sizeof_INTERNAL)) NULL NULL.
