(* ===== verification/HeapRep.v ===== *)
(** How the memory of a simple heap represents a sequence of blocks, and the lemmas about changing
    a part of it.

    A block is the flag that says whether it is free, and its size; where it is follows
    from the sizes before it.  [seg] says that the blocks lie in memory from an address on,
    with their links; the links out of the segment are its parameters.  [hctx] is a heap with a
    gap: the anchor, the blocks on the left and the blocks on the right of a region, where
    anything may be.  The operations open a gap around the blocks they change, change the links
    into the gap one by one, and close it. *)

From S2P Require Import Prelude HeapSimple.
Local Open Scope Z_scope.

Abbreviation blk := (bool * Z)%type.

(** The end of the blocks that start at [a]. *)
Fixpoint hend (a : Z) (bs : list blk) : Z :=
  match bs with
  | [] => a
  | b :: bs' => hend (a + 32 + b.2) bs'
  end.

(** The first and the last free block, and the last block; or else what is given. *)
Fixpoint first_free (a : Z) (bs : list blk) (nf : Z) : Z :=
  match bs with
  | [] => nf
  | b :: bs' => if b.1 then a else first_free (a + 32 + b.2) bs' nf
  end.

Fixpoint last_free (a : Z) (bs : list blk) (pf : Z) : Z :=
  match bs with
  | [] => pf
  | b :: bs' => last_free (a + 32 + b.2) bs' (if b.1 then a else pf)
  end.

Fixpoint last_blk (a : Z) (bs : list blk) (pv : Z) : Z :=
  match bs with
  | [] => pv
  | b :: bs' => last_blk (a + 32 + b.2) bs' a
  end.

Definition hd_blk (a : Z) (bs : list blk) (nx : Z) : Z :=
  match bs with [] => nx | _ => a end.

Definition flags_of (free : bool) : Z :=
  if free then Z.lor RTHEAPSIMPLEBLOCK_FLAGS_MAGIC RTHEAPSIMPLEBLOCK_FLAGS_FREE
  else RTHEAPSIMPLEBLOCK_FLAGS_MAGIC.

Definition free_total (bs : list blk) : Z := lsum (λ b : blk, if b.1 then b.2 else 0) bs.

Definition bok (b : blk) : Prop := 0 ≤ b.2 ∧ (32 | b.2) ∧ (b.1 = true → 32 ≤ b.2).

(** The area of an allocation. *)
Fixpoint in_data (a : Z) (bs : list blk) (x : Z) : Prop :=
  match bs with
  | [] => False
  | b :: bs' => (b.1 = false ∧ a + 32 ≤ x < a + 32 + b.2) ∨ in_data (a + 32 + b.2) bs' x
  end.

(** The words of the block at [a]. *)
Definition hdr_at (m : memory) (base a : Z) (b : blk) (pNext pPrev fNext fPrev : Z) : Prop :=
  m !! Core_pNext a = Some pNext ∧ m !! Core_pPrev a = Some pPrev
  ∧ m !! Core_pHeap a = Some base ∧ m !! Core_fFlags a = Some (flags_of b.1)
  ∧ (b.1 = true → m !! Free_pNext a = Some fNext ∧ m !! Free_pPrev a = Some fPrev
                  ∧ m !! Free_cb a = Some b.2).

(** [pv], [pf]: the block and the free block before; [nx], [nf]: those behind. *)
Fixpoint seg (m : memory) (base a pv pf : Z) (bs : list blk) (nx nf : Z) : Prop :=
  match bs with
  | [] => True
  | b :: bs' =>
      let a' := a + 32 + b.2 in
      hdr_at m base a b (hd_blk a' bs' nx) pv (first_free a' bs' nf) pf
      ∧ seg m base a' a (if b.1 then a else pf) bs' nx nf
  end.

Section lists.
Implicit Types (bs l r us : list blk).

Lemma hend_app a l r : hend a (l ++ r) = hend (hend a l) r.
Proof. revert a. induction l as [|b l IH]; intros a; [done|]. apply IH. Qed.

Lemma first_free_app a l r nf : first_free a (l ++ r) nf = first_free a l (first_free (hend a l) r nf).
Proof. revert a. induction l as [|b l IH]; intros a; [done|]. simpl. by rewrite IH. Qed.

Lemma last_free_app a l r pf : last_free a (l ++ r) pf = last_free (hend a l) r (last_free a l pf).
Proof. revert a pf. induction l as [|b l IH]; intros a pf; [done|]. apply IH. Qed.

Lemma last_blk_app a l r pv : last_blk a (l ++ r) pv = last_blk (hend a l) r (last_blk a l pv).
Proof. revert a pv. induction l as [|b l IH]; intros a pv; [done|]. apply IH. Qed.

Lemma hd_blk_app a l r nx : hd_blk a (l ++ r) nx = hd_blk a l (hd_blk (hend a l) r nx).
Proof. by destruct l. Qed.

Lemma in_data_app a l r x : in_data a (l ++ r) x ↔ in_data a l x ∨ in_data (hend a l) r x.
Proof. revert a. induction l as [|b l IH]; intros a; simpl; [tauto|]. rewrite IH. tauto. Qed.

Lemma free_total_app l r : free_total (l ++ r) = free_total l + free_total r.
Proof. apply lsum_app. Qed.

Lemma hend_ge a bs : Forall bok bs → a ≤ hend a bs.
Proof.
  intros H. revert a. induction H as [|b bs [? _] _ IH]; intros a; simpl; [lia|].
  specialize (IH (a + 32 + b.2)). lia.
Qed.

Lemma hend_div a bs : Forall bok bs → (32 | a) → (32 | hend a bs).
Proof.
  intros H. revert a. induction H as [|b bs (_&?&_) _ IH]; intros a Ha; simpl; [done|].
  apply IH. repeat apply Z.divide_add_r; done.
Qed.

Lemma in_data_range a bs x : Forall bok bs → in_data a bs x → a + 32 ≤ x < hend a bs.
Proof.
  intros H. revert a. induction H as [|b bs [Hb _] H IH]; intros a; simpl; [done|].
  pose proof (hend_ge (a + 32 + b.2) bs H). intros [[_ ?]|Hx]; [lia|]. apply IH in Hx. lia.
Qed.

Abbreviation all_used := (Forall (λ b : blk, b.1 = false)).

Lemma first_free_used a us nf : all_used us → first_free a us nf = nf.
Proof. intros H. revert a. induction H as [|b us Hb _ IH]; intros a; simpl; [done|]. by rewrite Hb. Qed.

Lemma last_free_used a us pf : all_used us → last_free a us pf = pf.
Proof. intros H. revert a. induction H as [|b us Hb _ IH]; intros a; simpl; [done|]. by rewrite Hb. Qed.

Lemma seg_used m base a pv pf us nx nf pf' nf' :
  all_used us → seg m base a pv pf us nx nf → seg m base a pv pf' us nx nf'.
Proof.
  intros H. revert a pv. induction H as [|b us Hb _ IH]; intros a pv; simpl; [done|].
  rewrite Hb. intros [(?&?&?&?&_) ?]. split; [|by eapply IH]. split_and!; try done; congruence.
Qed.

Lemma last_free_cases l :
  all_used l ∨ ∃ l1 c us, l = l1 ++ (true, c) :: us ∧ all_used us.
Proof.
  induction l as [|b l [IH|(l1&c&us&->&?)]] using rev_ind; [by left|..].
  all: destruct b as [[] c'].
  - right. exists l, c', []. split; [done|constructor].
  - left. apply Forall_app. split; [done|]. by repeat constructor.
  - right. exists (l1 ++ (true, c) :: us), c', []. split; [done|constructor].
  - right. exists l1, c, (us ++ [(false, c')]). rewrite <- app_assoc. split; [done|].
    apply Forall_app. split; [done|]. by repeat constructor.
Qed.

Lemma first_free_cases l :
  all_used l ∨ ∃ us c l2, l = us ++ (true, c) :: l2 ∧ all_used us.
Proof.
  induction l as [|b l IH]; [by left|]. destruct b as [[] c'].
  - right. exists [], c', l. split; [done|constructor].
  - destruct IH as [?|(us&c&l2&->&?)]; [left; by constructor|].
    right. exists ((false, c') :: us), c, l2. split; [done|by constructor].
Qed.

Lemma seg_app m base a pv pf l r nx nf :
  seg m base a pv pf (l ++ r) nx nf
  ↔ seg m base a pv pf l (hd_blk (hend a l) r nx) (first_free (hend a l) r nf)
    ∧ seg m base (hend a l) (last_blk a l pv) (last_free a l pf) r nx nf.
Proof.
  revert a pv pf. induction l as [|b l IH]; intros a pv pf; simpl; [tauto|].
  rewrite IH, hd_blk_app, first_free_app. tauto.
Qed.

(** What a segment depends on. *)
Lemma seg_frame m m' base a pv pf bs nx nf :
  Forall bok bs → seg m base a pv pf bs nx nf →
  (∀ x, a ≤ x < hend a bs → ¬ in_data a bs x → m' !! x = m !! x) →
  seg m' base a pv pf bs nx nf.
Proof.
  intros Hok. revert a pv pf. induction Hok as [|b bs (Hb&_&Hf) Hok IH]; intros a pv pf; simpl; [done|].
  intros [(H1&H2&H3&H4&H5) Hs] Hfr. pose proof (hend_ge (a + 32 + b.2) bs Hok) as Hge.
  assert (Hw : ∀ x, a ≤ x < a + 32 ∨ b.1 = true ∧ a ≤ x < a + 64 → m' !! x = m !! x).
  { intros x Hx. apply Hfr; [destruct Hx as [?|[?%Hf ?]]; lia|].
    intros [[Hu ?]|Hd%in_data_range]; [destruct Hx as [?|[? ?]]; [lia|congruence]| |done].
    destruct Hx as [?|[?%Hf ?]]; lia. }
  split.
  - unfold hdr_at, Core_pNext, Core_pPrev, Core_pHeap, Core_fFlags, Free_pNext, Free_pPrev, Free_cb in *.
    split_and!; [rewrite Hw by lia; done..|]. intros Ht. specialize (H5 Ht).
    rewrite !Hw by (right; split; [done|lia]). done.
  - apply IH; [done|]. intros x Hx Hd. apply Hfr; [lia|]. intros [[_ ?]|?]; [lia|done].
Qed.

Lemma seg_insert_out m base a pv pf bs nx nf x v :
  Forall bok bs → x < a ∨ hend a bs ≤ x →
  seg m base a pv pf bs nx nf → seg (<[x := v]> m) base a pv pf bs nx nf.
Proof.
  intros Hok Hx Hs. eapply seg_frame; [done|done|]. intros y Hy _. apply lookup_insert_ne. lia.
Qed.

End lists.

Abbreviation all_used := (Forall (λ b : blk, b.1 = false)).

(** * A heap with a gap *)

(** [m0]: the memory outside of the heap, and in the allocations on both sides of the gap, is as it
    is there.  [E]: the end of the heap. *)
Record hctx (m0 m : memory) (base E : Z) (l : list blk) (A B : Z) (r : list blk)
    (nx nf pv pf cbf : Z) : Prop := {
  hc_base : 0 < base;
  hc_div : (32 | base);
  hc_left : Forall bok l;
  hc_right : Forall bok r;
  hc_A : A = hend (base + 64) l;
  hc_AB : A ≤ B;
  hc_Bdiv : (32 | B);
  hc_E : E = hend B r;
  hc_top : E < 2 ^ 64;
  hc_map : ∀ x, base ≤ x < E → (8 | x) → is_Some (m !! x);
  hc_l : seg m base (base + 64) NULL NULL l nx nf;
  hc_r : seg m base B pv pf r NULL NULL;
  hc_magic : m !! Heap_uMagic base = Some RTHEAPSIMPLE_MAGIC;
  hc_cbHeap : m !! Heap_cbHeap base = Some (E - base);
  hc_pvEnd : m !! Heap_pvEnd base = Some E;
  hc_cbFree : m !! Heap_cbFree base = Some cbf;
  hc_head : m !! Heap_pFreeHead base = Some (first_free (base + 64) l nf);
  hc_tail : m !! Heap_pFreeTail base = Some (last_free B r pf);
  hc_frame : ∀ x, x < base ∨ E ≤ x ∨ in_data (base + 64) l x ∨ in_data B r x → m !! x = m0 !! x
}.

Lemma div32_8 x : (32 | x) → (8 | x).
Proof. intros [k ->]. exists (4 * k). lia. Qed.

Lemma div8_add x k : (8 | x) → (8 | k) → (8 | x + k).
Proof. apply Z.divide_add_r. Qed.

Lemma wrw_ok m p v : is_Some (m !! p) → wrw m p v = Some (<[p := v]> m).
Proof. intros [x Hx]. unfold wrw. by rewrite Hx. Qed.

Ltac hunfold :=
  unfold Core_pNext, Core_pPrev, Core_pHeap, Core_fFlags, Free_pNext, Free_pPrev, Free_cb, Free_Alignment,
    Heap_uMagic, Heap_cbHeap, Heap_pvEnd, Heap_cbFree, Heap_pFreeHead, Heap_pFreeTail,
    Heap_auAlignment, sizeof_BLOCK, sizeof_FREE, sizeof_INTERNAL, NULL in *.

(** Divisibility of a member's address. *)
Ltac hdiv :=
  repeat first
    [ assumption | apply Z.divide_refl
    | apply div32_8; assumption
    | apply Z.divide_sub_r
    | apply Z.divide_add_r
    | apply Z.mod_divide; [done|reflexivity] ].

Section hctx.
Context (m0 m : memory) (base E : Z) (l : list blk) (A B : Z) (r : list blk) (nx nf pv pf cbf : Z).
Hypothesis (H : hctx m0 m base E l A B r nx nf pv pf cbf).

Lemma hctx_bounds : base + 64 ≤ A ∧ A ≤ B ∧ B ≤ E ∧ (32 | A) ∧ (32 | B) ∧ (8 | base).
Proof.
  destruct H. subst A E. split_and!; try done.
  - by apply hend_ge.
  - by apply hend_ge.
  - apply hend_div; [done|]. apply Z.divide_add_r; [done|]. by exists 2.
  - by apply div32_8.
Qed.

(** Where the frame is. *)
Lemma hctx_outside x :
  x < base ∨ E ≤ x ∨ in_data (base + 64) l x ∨ in_data B r x → x < base ∨ base + 96 ≤ x < A ∨ B ≤ x.
Proof.
  pose proof hctx_bounds. destruct H. intros [?|[?|[Hd|Hd]]]; [lia|lia|..];
    (apply in_data_range in Hd; [lia|done]).
Qed.

Lemma hctx_rd x : base ≤ x < E → (8 | x) → is_Some (m !! x).
Proof. apply H. Qed.

(** A write into the gap. *)
Lemma hctx_mid x v :
  A ≤ x < B → (8 | x) →
  wrw m x v = Some (<[x := v]> m) ∧ hctx m0 (<[x := v]> m) base E l A B r nx nf pv pf cbf.
Proof.
  intros Hx Hd. pose proof hctx_bounds as (?&?&?&?&?&?).
  split; [apply wrw_ok, H; [lia|done]|]. destruct H.
  split; hunfold; try done; try (rewrite lookup_insert_ne by lia; done).
  - intros y Hy Hyd. destruct (decide (y = x)) as [->|]; [rewrite lookup_insert_eq; eauto|].
    rewrite lookup_insert_ne by done. eauto.
  - apply seg_insert_out; [done|lia|done].
  - apply seg_insert_out; [done|lia|done].
  - intros y Hy. rewrite lookup_insert_ne; [by apply hc_frame0|]. intros <-.
    apply hctx_outside in Hy. lia.
Qed.

(** A write into the anchor. *)
Lemma anchor_write x v :
  base ≤ x < base + 64 → (8 | x) →
  wrw m x v = Some (<[x := v]> m)
  ∧ (∀ y, base + 64 ≤ y → <[x := v]> m !! y = m !! y)
  ∧ (∀ y, base ≤ y < E → (8 | y) → is_Some (<[x := v]> m !! y))
  ∧ seg (<[x := v]> m) base (base + 64) NULL NULL l nx nf
  ∧ seg (<[x := v]> m) base B pv pf r NULL NULL
  ∧ (∀ y, y < base ∨ E ≤ y ∨ in_data (base + 64) l y ∨ in_data B r y → <[x := v]> m !! y = m0 !! y).
Proof.
  intros Hx Hd. pose proof hctx_bounds as (?&?&?&?&?&?). destruct H. split_and!.
  - apply wrw_ok. apply hc_map0; [lia|done].
  - intros y Hy. apply lookup_insert_ne. lia.
  - intros y Hy Hyd. destruct (decide (y = x)) as [->|]; [rewrite lookup_insert_eq; eauto|].
    rewrite lookup_insert_ne by done. eauto.
  - apply seg_insert_out; [done|lia|done].
  - apply seg_insert_out; [done|lia|done].
  - intros y Hy. rewrite lookup_insert_ne; [by apply hc_frame0|]. intros <-.
    apply hctx_outside in Hy. lia.
Qed.

Lemma hctx_cbFree d :
  ∃ m', add_cbFree m base d = Some m' ∧ hctx m0 m' base E l A B r nx nf pv pf (u64 (cbf + d))
        ∧ ∀ x, A ≤ x < B → m' !! x = m !! x.
Proof.
  pose proof hctx_bounds as (?&?&?&?&?&?).
  destruct (anchor_write (Heap_cbFree base) (u64 (cbf + d))) as (Hw&Hs&Hm&Hl&Hr&Hf);
    [hunfold; lia|hunfold; hdiv|].
  unfold add_cbFree, rdw. rewrite (hc_cbFree _ _ _ _ _ _ _ _ _ _ _ _ _ H). cbn [mbind option_bind].
  rewrite Hw. eexists. split; [done|]. split; [|intros x Hx; apply Hs; lia].
  destruct H. split; hunfold; try done; try (rewrite lookup_insert_ne by lia; done).
  by rewrite lookup_insert_eq.
Qed.

End hctx.

(** * The links into the gap *)

(** A single word of the blocks on one side is changed. *)
(** The words of one block, after writes. *)
Ltac hlook := repeat first [rewrite lookup_insert_eq | rewrite lookup_insert_ne by lia].

Ltac hwords :=
  unfold hdr_at; hunfold; cbn [fst snd] in *;
  repeat match goal with
  | |- _ ∧ _ => split
  | |- _ = true → _ => let H := fresh in intros H; repeat match goal with H' : _ = true → _ |- _ => specialize (H' H) end; destruct_and?
  end; hlook; try done.

Lemma bok_free c : bok (true, c) → 32 ≤ c.
Proof. intros (_&_&H). by apply H. Qed.

(** The words of the last and of the first free block, with what is around them. *)
Lemma seg_last_free m base a pv pf l1 c us nx nf X :
  Forall bok (l1 ++ (true, c) :: us) → all_used us →
  seg m base a pv pf (l1 ++ (true, c) :: us) nx nf →
  let x := Free_pNext (hend a l1) in
  seg (<[x := X]> m) base a pv pf (l1 ++ (true, c) :: us) nx X
  ∧ a ≤ x < hend a (l1 ++ (true, c) :: us) ∧ ¬ in_data a (l1 ++ (true, c) :: us) x.
Proof.
  intros [Hok1 [Hc Hok2]%Forall_cons]%Forall_app Hu Hs x. subst x.
  apply bok_free in Hc as Hc'. pose proof (hend_ge a l1 Hok1) as H1.
  pose proof (hend_ge (hend a l1 + 32 + c) us Hok2) as H2. cbn [snd] in *.
  apply seg_app in Hs as [Hs1 Hs2]. simpl in Hs1, Hs2. destruct Hs2 as [(Ha&Hb&Hd&He&Hf) Hs2].
  rewrite hend_app. cbn [hend snd]. hunfold. split_and!; [|lia|lia|].
  - apply seg_app. cbn [seg fst snd hend hd_blk first_free]. split; [|split].
    + apply seg_insert_out; [done|lia|done].
    + specialize (Hf eq_refl). destruct Hf as (Hf1&Hf2&Hf3). rewrite (first_free_used _ _ _ Hu).
      hwords.
    + eapply seg_used; [done|]. apply seg_insert_out; [done|lia|done].
  - rewrite in_data_app. cbn [in_data fst snd].
    intros [Hx|[[? _]|Hx]]; [apply in_data_range in Hx; [lia|done]|done|].
    apply in_data_range in Hx; [lia|done].
Qed.

Lemma seg_first_free m base a pv pf us c l2 nx nf X :
  Forall bok (us ++ (true, c) :: l2) → all_used us →
  seg m base a pv pf (us ++ (true, c) :: l2) nx nf →
  let x := Free_pPrev (hend a us) in
  seg (<[x := X]> m) base a pv X (us ++ (true, c) :: l2) nx nf
  ∧ a ≤ x < hend a (us ++ (true, c) :: l2) ∧ ¬ in_data a (us ++ (true, c) :: l2) x.
Proof.
  intros [Hok1 [Hc Hok2]%Forall_cons]%Forall_app Hu Hs x. subst x.
  apply bok_free in Hc as Hc'. pose proof (hend_ge a us Hok1) as H1.
  pose proof (hend_ge (hend a us + 32 + c) l2 Hok2) as H2. cbn [snd] in *.
  apply seg_app in Hs as [Hs1 Hs2]. simpl in Hs1, Hs2. destruct Hs2 as [(Ha&Hb&Hd&He&Hf) Hs2].
  rewrite hend_app. cbn [hend snd]. hunfold. split_and!; [|lia|lia|].
  - apply seg_app. cbn [seg fst snd hend hd_blk first_free]. split; [|split].
    + eapply seg_used; [done|]. apply seg_insert_out; [done|lia|done].
    + specialize (Hf eq_refl). destruct Hf as (Hf1&Hf2&Hf3). rewrite (last_free_used _ _ _ Hu).
      hwords.
    + apply seg_insert_out; [done|lia|done].
  - rewrite in_data_app. cbn [in_data fst snd].
    intros [Hx|[[? _]|Hx]]; [apply in_data_range in Hx; [lia|done]|done|].
    apply in_data_range in Hx; [lia|done].
Qed.

Lemma seg_block_prev m base a pv pf b bs nx nf X :
  Forall bok (b :: bs) → seg m base a pv pf (b :: bs) nx nf →
  seg (<[Core_pPrev a := X]> m) base a X pf (b :: bs) nx nf
  ∧ ¬ in_data a (b :: bs) (Core_pPrev a).
Proof.
  intros [(Hb&_&Hb') Hok]%Forall_cons [(Ha&Hp&Hd&He&Hf) Hs]. split.
  - cbn [seg]. split; [|apply seg_insert_out; [done|hunfold; lia|done]]. hwords.
  - hunfold. cbn [in_data]. intros [[_ ?]|Hx]; [lia|]. apply in_data_range in Hx; [lia|done].
Qed.

Lemma seg_block_next m base a pv pf bs b nx nf X :
  Forall bok (bs ++ [b]) → seg m base a pv pf (bs ++ [b]) nx nf →
  seg (<[Core_pNext (hend a bs) := X]> m) base a pv pf (bs ++ [b]) X nf
  ∧ ¬ in_data a (bs ++ [b]) (Core_pNext (hend a bs)).
Proof.
  intros [Hok [(Hb&_&Hb') _]%Forall_cons]%Forall_app [Hs1 Hs2]%seg_app.
  pose proof (hend_ge a bs Hok). simpl in Hs1, Hs2.
  destruct Hs2 as [(Ha&Hp&Hd&He&Hf) _]. split.
  - apply seg_app. cbn [seg hd_blk first_free hend]. split; [|split; [|done]].
    + apply seg_insert_out; [done|hunfold; lia|done].
    + hwords.
  - rewrite in_data_app. hunfold. cbn [in_data]. intros [Hx|[[_ ?]|[]]]; [|lia].
    apply in_data_range in Hx; [lia|done].
Qed.

Section ports.
Context (m0 m : memory) (base E : Z) (l : list blk) (A B : Z) (r : list blk) (nx nf pv pf cbf : Z).
Hypothesis (H : hctx m0 m base E l A B r nx nf pv pf cbf).

(** A write into the blocks on the left, or on the right. *)
Lemma hctx_write_left x v nx' nf' :
  base + 64 ≤ x < A → (8 | x) → ¬ in_data (base + 64) l x →
  seg (<[x := v]> m) base (base + 64) NULL NULL l nx' nf' →
  first_free (base + 64) l nf' = first_free (base + 64) l nf →
  wrw m x v = Some (<[x := v]> m)
  ∧ hctx m0 (<[x := v]> m) base E l A B r nx' nf' pv pf cbf
  ∧ ∀ y, A ≤ y < B → <[x := v]> m !! y = m !! y.
Proof.
  intros Hx Hd Hnd Hs Hff. pose proof (hctx_bounds _ _ _ _ _ _ _ _ _ _ _ _ _ H) as (?&?&?&?&?&?).
  split; [apply wrw_ok, H; [lia|done]|]. split; [|intros y Hy; apply lookup_insert_ne; lia].
  destruct H. split; try done; try (rewrite lookup_insert_ne by (hunfold; lia); done).
  - intros y Hy Hyd. destruct (decide (y = x)) as [->|]; [rewrite lookup_insert_eq; eauto|].
    rewrite lookup_insert_ne by done. eauto.
  - apply seg_insert_out; [done|lia|done].
  - rewrite lookup_insert_ne by (hunfold; lia). by rewrite Hff.
  - intros y Hy. rewrite lookup_insert_ne; [by apply hc_frame0|]. intros <-.
    destruct Hy as [?|[?|[?|Hy]]]; [lia|lia|done|]. apply in_data_range in Hy; [lia|done].
Qed.

Lemma hctx_write_right x v pv' pf' :
  B ≤ x < E → (8 | x) → ¬ in_data B r x →
  seg (<[x := v]> m) base B pv' pf' r NULL NULL →
  last_free B r pf' = last_free B r pf →
  wrw m x v = Some (<[x := v]> m)
  ∧ hctx m0 (<[x := v]> m) base E l A B r nx nf pv' pf' cbf
  ∧ ∀ y, A ≤ y < B → <[x := v]> m !! y = m !! y.
Proof.
  intros Hx Hd Hnd Hs Hff. pose proof (hctx_bounds _ _ _ _ _ _ _ _ _ _ _ _ _ H) as (?&?&?&?&?&?).
  split; [apply wrw_ok, H; [lia|done]|]. split; [|intros y Hy; apply lookup_insert_ne; lia].
  destruct H. split; try done; try (rewrite lookup_insert_ne by (hunfold; lia); done).
  - intros y Hy Hyd. destruct (decide (y = x)) as [->|]; [rewrite lookup_insert_eq; eauto|].
    rewrite lookup_insert_ne by done. eauto.
  - apply seg_insert_out; [done|lia|done].
  - rewrite lookup_insert_ne by (hunfold; lia). by rewrite Hff.
  - intros y Hy. rewrite lookup_insert_ne; [by apply hc_frame0|]. intros <-.
    destruct Hy as [?|[?|[Hy|?]]]; [lia|lia| |done]. apply in_data_range in Hy; [lia|done].
Qed.

(** The link of the last free block on the left, or the head of the list. *)
Lemma hctx_set_nf X :
  ∃ m', set_free_next m base (last_free (base + 64) l NULL) X = Some m'
        ∧ hctx m0 m' base E l A B r nx X pv pf cbf ∧ ∀ y, A ≤ y < B → m' !! y = m !! y.
Proof.
  pose proof (hctx_bounds _ _ _ _ _ _ _ _ _ _ _ _ _ H) as (?&?&?&?&?&?). unfold set_free_next.
  destruct (last_free_cases l) as [Hu|(l1&c&us&Hl&Hu)].
  - rewrite (last_free_used _ _ _ Hu). cbn [Z.eqb NULL negb].
    destruct (anchor_write _ _ _ _ _ _ _ _ _ _ _ _ _ H (Heap_pFreeHead base) X)
      as (Hw&Hs&Hm&Hl&Hr&Hf); [hunfold; lia|hunfold; hdiv|].
    rewrite Hw. eexists. split; [done|]. split; [|intros y Hy; apply Hs; lia].
    destruct H. split; try done; try (rewrite lookup_insert_ne by (hunfold; lia); done).
    + by eapply seg_used.
    + by rewrite lookup_insert_eq, (first_free_used _ _ _ Hu).
  - pose proof (hc_left _ _ _ _ _ _ _ _ _ _ _ _ _ H) as Hok. rewrite Hl in Hok.
    pose proof (hc_l _ _ _ _ _ _ _ _ _ _ _ _ _ H) as Hs. rewrite Hl in Hs.
    destruct (seg_last_free _ _ _ _ _ _ _ _ _ _ X Hok Hu Hs) as (Hs'&Hx&Hnd).
    assert (Hlf : last_free (base + 64) l NULL = hend (base + 64) l1).
    { rewrite Hl, last_free_app. cbn [last_free fst]. by apply last_free_used. }
    apply Forall_app in Hok as [Hok1 _]. pose proof (hend_ge (base + 64) l1 Hok1).
    assert (0 < base) by apply H. rewrite Hlf, (proj2 (Z.eqb_neq _ NULL)) by (hunfold; lia). cbn [negb].
    edestruct hctx_write_left as (Hw&Hc&Hg).
    6: { rewrite Hw. eexists. split; [done|]. split; [exact Hc|done]. }
    + rewrite (hc_A _ _ _ _ _ _ _ _ _ _ _ _ _ H), Hl. exact Hx.
    + hunfold. apply Z.divide_add_r; [|by exists 4]. apply div32_8, hend_div; [done|].
      apply Z.divide_add_r; [apply H|by exists 2].
    + by rewrite Hl.
    + rewrite Hl. exact Hs'.
    + by rewrite Hl, !first_free_app.
Qed.

(** The link of the first free block on the right, or the tail of the list. *)
Lemma hctx_set_pf X :
  ∃ m', set_free_prev m base (first_free B r NULL) X = Some m'
        ∧ hctx m0 m' base E l A B r nx nf pv X cbf ∧ ∀ y, A ≤ y < B → m' !! y = m !! y.
Proof.
  pose proof (hctx_bounds _ _ _ _ _ _ _ _ _ _ _ _ _ H) as (?&?&?&?&?&?). unfold set_free_prev.
  destruct (first_free_cases r) as [Hu|(us&c&l2&Hl&Hu)].
  - rewrite (first_free_used _ _ _ Hu). cbn [Z.eqb NULL negb].
    destruct (anchor_write _ _ _ _ _ _ _ _ _ _ _ _ _ H (Heap_pFreeTail base) X)
      as (Hw&Hs&Hm&Hl&Hr&Hf); [hunfold; lia|hunfold; hdiv|].
    rewrite Hw. eexists. split; [done|]. split; [|intros y Hy; apply Hs; lia].
    destruct H. split; try done; try (rewrite lookup_insert_ne by (hunfold; lia); done).
    + by eapply seg_used.
    + by rewrite lookup_insert_eq, (last_free_used _ _ _ Hu).
  - pose proof (hc_right _ _ _ _ _ _ _ _ _ _ _ _ _ H) as Hok. rewrite Hl in Hok.
    pose proof (hc_r _ _ _ _ _ _ _ _ _ _ _ _ _ H) as Hs. rewrite Hl in Hs.
    destruct (seg_first_free _ _ _ _ _ _ _ _ _ _ X Hok Hu Hs) as (Hs'&Hx&Hnd).
    assert (Hlf : first_free B r NULL = hend B us).
    { rewrite Hl, first_free_app. cbn [first_free fst]. by apply first_free_used. }
    apply Forall_app in Hok as [Hok1 _]. pose proof (hend_ge B us Hok1).
    assert (0 < base) by apply H. rewrite Hlf, (proj2 (Z.eqb_neq _ NULL)) by (hunfold; lia). cbn [negb].
    edestruct hctx_write_right as (Hw&Hc&Hg).
    6: { rewrite Hw. eexists. split; [done|]. split; [exact Hc|done]. }
    + rewrite (hc_E _ _ _ _ _ _ _ _ _ _ _ _ _ H), Hl. exact Hx.
    + hunfold. apply Z.divide_add_r; [|by exists 5]. apply div32_8, hend_div; done.
    + by rewrite Hl.
    + rewrite Hl. exact Hs'.
    + by rewrite Hl, !last_free_app.
Qed.

(** The link of the first block on the right, if there is one. *)
Lemma hctx_set_pv X :
  ∃ m', set_block_prev m (hd_blk B r NULL) X = Some m'
        ∧ hctx m0 m' base E l A B r nx nf X pf cbf ∧ ∀ y, A ≤ y < B → m' !! y = m !! y.
Proof.
  pose proof (hctx_bounds _ _ _ _ _ _ _ _ _ _ _ _ _ H) as (?&?&?&?&?&?). unfold set_block_prev.
  assert (0 < base) by apply H.
  pose proof (hc_right _ _ _ _ _ _ _ _ _ _ _ _ _ H) as Hok.
  pose proof (hc_r _ _ _ _ _ _ _ _ _ _ _ _ _ H) as Hs.
  pose proof (hc_E _ _ _ _ _ _ _ _ _ _ _ _ _ H) as HE.
  assert (Hcase : r = [] ∨ ∃ b r', r = b :: r') by (destruct r; eauto).
  destruct Hcase as [Er|(b&r'&Er)].
  - replace (hd_blk B r NULL) with NULL by (by rewrite Er). cbn [Z.eqb NULL negb]. exists m. split; [done|]. split; [|done].
    destruct H. split; try done. by rewrite Er.
  - replace (hd_blk B r NULL) with B by (by rewrite Er).
    rewrite (proj2 (Z.eqb_neq _ NULL)) by (hunfold; lia). cbn [negb].
    edestruct (hctx_write_right (Core_pPrev B) X X pf) as (Hw&Hc&Hg).
    6: { rewrite Hw. eexists. split; [done|]. split; [exact Hc|done]. }
    + rewrite Er in HE. cbn [hend] in HE. rewrite Er in Hok.
      apply Forall_cons in Hok as [[Hb _] Hok]. pose proof (hend_ge (B + 32 + b.2) r' Hok). hunfold. lia.
    + hunfold. hdiv.
    + rewrite Er in Hok, Hs |- *. by eapply seg_block_prev.
    + rewrite Er in Hok, Hs |- *. by eapply seg_block_prev.
    + done.
Qed.

(** The link of the last block on the left. *)
Lemma hctx_set_nx X :
  l ≠ [] →
  ∃ m', wrw m (Core_pNext (last_blk (base + 64) l NULL)) X = Some m'
        ∧ hctx m0 m' base E l A B r X nf pv pf cbf ∧ ∀ y, A ≤ y < B → m' !! y = m !! y.
Proof.
  intros Hne. pose proof (hctx_bounds _ _ _ _ _ _ _ _ _ _ _ _ _ H) as (?&?&?&?&?&?).
  pose proof (hc_left _ _ _ _ _ _ _ _ _ _ _ _ _ H) as Hok.
  pose proof (hc_l _ _ _ _ _ _ _ _ _ _ _ _ _ H) as Hs.
  pose proof (hc_A _ _ _ _ _ _ _ _ _ _ _ _ _ H) as HA.
  assert (Hcase : ∃ l' b, l = l' ++ [b]).
  { clear -Hne. destruct l as [|b' l' _] using rev_ind; [done|eauto]. }
  destruct Hcase as (l'&b'&El).
  assert (Hlb : last_blk (base + 64) l NULL = hend (base + 64) l') by (by rewrite El, last_blk_app).
  rewrite El in Hok, Hs. destruct (seg_block_next _ _ _ _ _ _ _ _ _ X Hok Hs) as [Hs' Hnd].
  apply Forall_app in Hok as [Hok1 [[? _] _]%Forall_cons].
  pose proof (hend_ge (base + 64) l' Hok1). rewrite Hlb.
  edestruct (hctx_write_left (Core_pNext (hend (base + 64) l')) X X nf) as (Hw&Hc&Hg).
  6: { rewrite Hw. eexists. split; [done|]. split; [exact Hc|done]. }
  - rewrite HA, El, hend_app. cbn [hend]. hunfold. lia.
  - hunfold. apply div32_8, hend_div; [done|]. apply Z.divide_add_r; [apply H|by exists 2].
  - by rewrite El.
  - rewrite El. exact Hs'.
  - done.
Qed.

End ports.

(** * Whole heaps *)

(** The memory is a heap from [base] to [E] with the blocks [bs]. *)
Definition heap (m : memory) (base E : Z) (bs : list blk) : Prop :=
  hctx m m base E [] (base + 64) (base + 64) bs NULL (first_free (base + 64) bs NULL) NULL NULL
    (free_total bs).

(** What lies outside of the heap, and in the allocations among [l] and [r], is the same. *)
Definition keeps (m m' : memory) (base E : Z) (l : list blk) (B : Z) (r : list blk) : Prop :=
  ∀ x, x < base ∨ E ≤ x ∨ in_data (base + 64) l x ∨ in_data B r x → m' !! x = m !! x.

Lemma heap_open m base E l mid r :
  heap m base E (l ++ mid ++ r) →
  let A := hend (base + 64) l in
  let B := hend A mid in
  hctx m m base E l A B r (hd_blk A (mid ++ r) NULL) (first_free A (mid ++ r) NULL)
    (last_blk A mid (last_blk (base + 64) l NULL)) (last_free A mid (last_free (base + 64) l NULL))
    (free_total (l ++ mid ++ r))
  ∧ seg m base A (last_blk (base + 64) l NULL) (last_free (base + 64) l NULL) mid
      (hd_blk B r NULL) (first_free B r NULL)
  ∧ Forall bok mid.
Proof.
  intros [] A B. apply seg_app in hc_r0 as [Hl [Hm Hr]%seg_app].
  apply Forall_app in hc_right0 as [Hokl [Hokm Hokr]%Forall_app].
  assert (Hdiv : (32 | base + 64)) by (apply Z.divide_add_r; [done|by exists 2]).
  split_and!; [|done|done]. split; try done.
  - by apply hend_ge.
  - apply hend_div; [done|]. by apply hend_div.
  - by rewrite hc_E0, !hend_app.
  - by rewrite hc_head0, first_free_app.
  - by rewrite hc_tail0, !last_free_app.
Qed.

Lemma heap_close m0 m base E l A B r nx nf pv pf cbf mid :
  hctx m0 m base E l A B r nx nf pv pf cbf → Forall bok mid → B = hend A mid →
  seg m base A (last_blk (base + 64) l NULL) (last_free (base + 64) l NULL) mid
    (hd_blk B r NULL) (first_free B r NULL) →
  l = [] ∨ nx = hd_blk A (mid ++ r) NULL → nf = first_free A (mid ++ r) NULL →
  r = [] ∨ pv = last_blk A mid (last_blk (base + 64) l NULL) →
  pf = last_free A mid (last_free (base + 64) l NULL) → cbf = free_total (l ++ mid ++ r) →
  heap m base E (l ++ mid ++ r) ∧ keeps m0 m base E l B r.
Proof.
  intros [] Hok HB Hs Hnx Hnf Hpv Hpf Hcbf. split; [|done].
  assert (Hdiv : (32 | base + 64)) by (apply Z.divide_add_r; [done|by exists 2]).
  split; try done.
  - apply Forall_app; split; [done|]. by apply Forall_app.
  - by rewrite !hend_app, <- hc_A0, <- HB.
  - apply seg_app. split.
    + rewrite <- hc_A0, <- Hnf. destruct Hnx as [->|<-]; done.
    + rewrite <- hc_A0. apply seg_app. rewrite <- HB. split; [done|].
      rewrite <- Hpf. destruct Hpv as [->|<-]; done.
  - by rewrite hc_cbFree0, Hcbf.
  - by rewrite hc_head0, Hnf, hc_A0, !first_free_app.
  - by rewrite hc_tail0, Hpf, !last_free_app, <- hc_A0, <- HB.
Qed.

Lemma heap_bounds m base E bs :
  heap m base E bs →
  0 < base ∧ (32 | base) ∧ base + 64 ≤ E ∧ E < 2 ^ 64 ∧ E = hend (base + 64) bs ∧ Forall bok bs.
Proof.
  intros H. pose proof (hctx_bounds _ _ _ _ _ _ _ _ _ _ _ _ _ H). destruct H. split_and!; try done. lia.
Qed.

(** What is read of a block. *)
Lemma heap_block m base E l b r :
  heap m base E (l ++ b :: r) →
  let A := hend (base + 64) l in let B := A + 32 + b.2 in
  hdr_at m base A b (hd_blk B r NULL) (last_blk (base + 64) l NULL) (first_free B r NULL)
    (last_free (base + 64) l NULL)
  ∧ base + 64 ≤ A ∧ B ≤ E ∧ (32 | A) ∧ bok b.
Proof.
  intros H A B. pose proof (heap_bounds _ _ _ _ H) as (?&?&?&?&HE&Hok).
  apply (heap_open m base E l [b] r) in H as (Hc&[Hs _]&_).
  apply Forall_app in Hok as [Hl [Hb Hr]%Forall_cons]. rewrite hend_app in HE. cbn [hend] in HE.
  pose proof (hend_ge (base + 64) l Hl). pose proof (hend_ge (hend (base + 64) l + 32 + b.2) r Hr).
  split_and!; [done|done|subst A B; lia| |done].
  apply hend_div; [done|]. apply Z.divide_add_r; [done|by exists 2].
Qed.

(** There are not more blocks than words. *)
Lemma blocks_length (m : memory) base bs :
  (32 | base) → Forall bok bs →
  (∀ x, base ≤ x < hend (base + 64) bs → (8 | x) → is_Some (m !! x)) → (length bs < S (size m))%nat.
Proof.
  intros Hdb Hok Hm.
  assert (Hlen : ∀ a l, Forall bok l → a + 32 * Z.of_nat (length l) ≤ hend a l).
  { intros a l Hl. revert a. induction Hl as [|b l [? _] _ IH]; intros a; cbn [length hend]; [lia|].
    specialize (IH (a + 32 + b.2)). lia. }
  specialize (Hlen (base + 64) bs Hok).
  set (ws := (λ k, base + 8 * Z.of_nat k) <$> seq 0 (length bs)).
  assert (Hnd : NoDup ws) by (apply NoDup_fmap_2_strong; [intros; lia|apply NoDup_seq]).
  assert (Hsub : list_to_set (C:=gset Z) ws ⊆ dom m).
  { intros x Hx. apply elem_of_list_to_set, list_elem_of_fmap in Hx as (k&->&Hk%elem_of_seq).
    apply elem_of_dom. apply Hm; [lia|]. apply Z.divide_add_r; [by apply div32_8|].
    by apply Z.divide_factor_l. }
  apply subseteq_size in Hsub. rewrite size_list_to_set, size_dom in Hsub by done.
  subst ws. rewrite length_fmap, length_seq in Hsub. lia.
Qed.

Lemma heap_length m base E bs : heap m base E bs → (length bs < S (size m))%nat.
Proof.
  intros H. pose proof (heap_bounds _ _ _ _ H) as (?&Hdb&?&_&HE&Hok).
  apply (blocks_length m base); [done|done|]. rewrite <- HE. apply H.
Qed.
