(* ===== verification/HeapOps.v ===== *)
(** The operations of the simple heap, on the sequences of blocks: allocation and freeing. *)

From S2P Require Import Prelude HeapSimple HeapRep.
Local Open Scope Z_scope.

(** * Steps in the gap *)

(** Reading and writing words of the gap, behind writes and changes of links. *)
Ltac hgap :=
  repeat first
    [ rewrite lookup_insert_eq
    | rewrite lookup_insert_ne by lia
    | match goal with
      | Hg : ∀ y, _ ≤ y < _ → ?m !! y = _ |- context [?m !! _] => rewrite Hg by lia
      end ].

(** The next read of the program, whose value [E] says. *)
Ltac hread :=
  match goal with
  | |- context [rdw ?m ?x] =>
      let v := fresh "v" in let Hv := fresh "Hv" in
      evar (v : Z); assert (Hv : m !! x = Some v) by (hgap; subst v; eassumption || reflexivity);
      subst v; change (rdw m x) with (m !! x); rewrite Hv; clear Hv; cbn [mbind option_bind]
  end.

(** The next write into the gap; [H] is the context. *)
Ltac hwrite H :=
  match goal with
  | |- context [wrw ?m ?x ?v] =>
      let Hw := fresh "Hw" in let H' := fresh "H'" in
      destruct (hctx_mid _ _ _ _ _ _ _ _ _ _ _ _ _ H x v) as [Hw H'];
      [lia|hdiv|]; rewrite Hw; clear Hw H; rename H' into H; cbn [mbind option_bind]
  end.

(** The words of a block in the gap. *)
Ltac hhdr :=
  unfold hdr_at; hunfold; cbn [fst snd];
  repeat match goal with
  | |- _ ∧ _ => split
  | |- false = true → _ => by intros
  | |- true = true → _ => intros _
  end; hgap; try done.

(** The change of a link, by the lemma [lem] about it. *)
Ltac hport H lem :=
  let m' := fresh "m" in let Hw := fresh "Hw" in let H' := fresh "H'" in let Hg := fresh "Hg" in
  destruct lem as (m'&Hw&H'&Hg); unfold NULL in Hw, H'; cbn [last_free] in Hw; rewrite Hw; clear Hw H; rename H' into H;
  cbn [mbind option_bind].

Ltac hset_nf H :=
  match goal with
  | |- context [set_free_next ?m ?base ?p ?X] => hport H (hctx_set_nf _ _ _ _ _ _ _ _ _ _ _ _ _ H X)
  end.
Ltac hset_pf H :=
  match goal with
  | |- context [set_free_prev ?m ?base ?p ?X] => hport H (hctx_set_pf _ _ _ _ _ _ _ _ _ _ _ _ _ H X)
  end.
Ltac hset_pv H :=
  match goal with
  | |- context [set_block_prev ?m ?p ?X] => hport H (hctx_set_pv _ _ _ _ _ _ _ _ _ _ _ _ _ H X)
  end.
Ltac hadd_cb H :=
  match goal with
  | |- context [add_cbFree ?m ?base ?d] => hport H (hctx_cbFree _ _ _ _ _ _ _ _ _ _ _ _ _ H d)
  end.

Lemma free_total_range a bs : Forall bok bs → 0 ≤ free_total bs ≤ hend a bs - a.
Proof.
  intros H. revert a. unfold free_total. induction H as [|b bs [? _] _ IH]; intros a; simpl; [lia|].
  specialize (IH (a + 32 + b.2)). destruct b.1; lia.
Qed.

Lemma heap_total m base E bs : heap m base E bs → 0 ≤ free_total bs < 2 ^ 64.
Proof.
  intros H. apply heap_bounds in H as (?&_&?&?&HE&Hok).
  pose proof (free_total_range (base + 64) bs Hok). lia.
Qed.

Lemma hctx_totals m0 m base E l A B r nx nf pv pf cbf :
  hctx m0 m base E l A B r nx nf pv pf cbf → 0 ≤ free_total l ∧ 0 ≤ free_total r.
Proof.
  intros []. split; [apply (free_total_range (base + 64))|apply (free_total_range B)]; done.
Qed.

Lemma free_total_cons b bs : free_total (b :: bs) = (if b.1 then b.2 else 0) + free_total bs.
Proof. done. Qed.

Lemma free_total_nil : free_total [] = 0.
Proof. done. Qed.

Lemma u64_add_l x y : u64 (u64 x + y) = u64 (x + y).
Proof. unfold u64. by rewrite Z.add_mod_idemp_l. Qed.

(** The sum of the free blocks. *)
Ltac hcb :=
  rewrite ?u64_add_l, ?free_total_app, ?free_total_cons, ?free_total_nil in *; cbn [fst snd] in *;
  rewrite u64_small by lia; lia.

Lemma flags_is_free b : RTHEAPSIMPLEBLOCK_IS_FREE (flags_of b) = b.
Proof. by destruct b. Qed.

Lemma flags_clear b : Z.land (flags_of b) RTHEAPSIMPLEBLOCK_FLAGS_MAGIC_MASK = flags_of false.
Proof. by destruct b. Qed.

Lemma flags_set b : Z.lor (flags_of b) RTHEAPSIMPLEBLOCK_FLAGS_FREE = flags_of true.
Proof. by destruct b. Qed.

(** * Allocation *)

Lemma alloc_whole_spec m base E l c r :
  heap m base E (l ++ (true, c) :: r) →
  let A := hend (base + 64) l in
  ∃ m', alloc_whole m base A = Some (A, m') ∧ heap m' base E (l ++ (false, c) :: r)
        ∧ keeps m m' base E l (A + 32 + c) r.
Proof.
  intros Hh A. pose proof (heap_total _ _ _ _ Hh) as Htot.
  pose proof (heap_block _ _ _ _ _ _ Hh) as (_&HA&HB&HdA&Hc). apply bok_free in Hc as Hc'.
  apply (heap_open m base E l [(true, c)] r) in Hh as (H&[(W1&W2&W3&W4&W5) _]&_).
  destruct (W5 eq_refl) as (W6&W7&W8). clear W5. fold A in HA, HB, HdA, H, W1, W2, W3, W4, W6, W7, W8.
  cbn [fst snd hd_blk first_free last_free last_blk hend app] in *.
  apply div32_8 in HdA as Hd8.
  pose proof (hctx_totals _ _ _ _ _ _ _ _ _ _ _ _ _ H). unfold alloc_whole. hunfold.
  do 2 hread. hset_pf H. do 2 hread. hset_nf H. hread. hadd_cb H. hread. hwrite H.
  eexists. split; [done|]. rewrite flags_clear in *.
  apply (heap_close m _ base E l A (A + 32 + c) r _ _ _ _ _ [(false, c)]) in H; try done.
  - apply Forall_singleton. split_and!; [apply Hc..|done].
  - cbn [seg hend fst snd hd_blk first_free app]. split; [|done]. hhdr.
  - by right.
  - by right.
  - hcb.
Qed.

(** The size of the last block of the gap. *)
Lemma hctx_block_cb m0 m base E l A B r nx nf pv pf cbf p :
  hctx m0 m base E l A B r nx nf pv pf cbf → m !! p = Some (hd_blk B r NULL) → 0 ≤ p → p + 32 ≤ B →
  block_cb m base p = Some (B - p - 32).
Proof.
  intros H Hp H0 HpB. pose proof (hctx_bounds _ _ _ _ _ _ _ _ _ _ _ _ _ H) as (?&?&?&?&?&?).
  destruct H. unfold block_cb, rdw. hunfold. rewrite Hp. cbn [mbind option_bind].
  destruct r as [|b r]; cbn [hd_blk hend] in *.
  - rewrite hc_pvEnd. cbn [negb Z.eqb mbind option_bind]. f_equal. rewrite hc_E. apply u64_small. lia.
  - rewrite (proj2 (Z.eqb_neq B 0)) by lia. cbn [negb mbind option_bind]. f_equal. apply u64_small. lia.
Qed.

Lemma alloc_split_spec m base E l c r cb :
  heap m base E (l ++ (true, c) :: r) → 32 ≤ cb → (32 | cb) → cb + 64 ≤ c →
  let A := hend (base + 64) l in
  ∃ m', alloc_split m base A cb = Some (A, m')
        ∧ heap m' base E (l ++ (false, cb) :: (true, c - cb - 32) :: r)
        ∧ keeps m m' base E l (A + 32 + c) r.
Proof.
  intros Hh Hcb Hcbd Hfit A. pose proof (heap_total _ _ _ _ Hh) as Htot.
  pose proof (heap_bounds _ _ _ _ Hh) as (Hb0&_&_&HbE&_).
  pose proof (heap_block _ _ _ _ _ _ Hh) as (_&HA&HB&HdA&Hc).
  apply (heap_open m base E l [(true, c)] r) in Hh as (H&[(W1&W2&W3&W4&W5) _]&_).
  destruct (W5 eq_refl) as (W6&W7&W8). clear W5. fold A in HA, HB, HdA, H, W1, W2, W3, W4, W6, W7, W8.
  cbn [fst snd hd_blk first_free last_free last_blk hend app] in *.
  apply div32_8 in HdA as Hd8. apply div32_8 in Hcbd as Hcb8.
  pose proof (hctx_totals _ _ _ _ _ _ _ _ _ _ _ _ _ H) as Htt. unfold alloc_split.
  replace (u64 (A + cb + sizeof_BLOCK)) with (A + cb + 32) by (rewrite u64_small; hunfold; lia).
  set (N := A + cb + 32). assert (HN : N = A + 32 + cb) by lia.
  assert (HdN : (8 | N)) by (unfold N; hdiv). clearbody N. hunfold.
  hread. hwrite H. hread. hset_pv H. do 3 hwrite H. hread. hwrite H. hread. hset_pf H.
  hread. hwrite H. hread. hset_nf H.
  erewrite (hctx_block_cb _ _ _ _ _ _ _ _ _ _ _ _ _ N H); [|hgap; reflexivity|lia|lia].
  cbn [mbind option_bind]. hwrite H. hread. do 2 hwrite H. rewrite flags_clear in H |- *. hread.
  hadd_cb H. hread. hadd_cb H. eexists. split; [done|].
  apply (heap_close m _ base E l A (A + 32 + c) r _ _ _ _ _ [(false, cb); (true, c - cb - 32)]) in H.
  - done.
  - destruct Hc as (_&Hdc&_). cbn [snd] in Hdc. repeat constructor; cbn [fst snd]; try lia; try done.
    hdiv.
  - cbn [hend snd]. lia.
  - cbn [seg hend fst snd hd_blk first_free app]. rewrite <- HN.
    replace (N + 32 + (c - cb - 32)) with (A + 32 + c) by lia. split; [|split; [|done]]; hhdr.
    f_equal. lia.
  - by right.
  - cbn [first_free fst snd app]. lia.
  - right. cbn [last_blk snd]. lia.
  - cbn [last_free fst snd]. lia.
  - hcb.
Qed.

(** The alignment of the first block: what is skipped becomes a used block. *)
Lemma alloc_align_head m base E c r off :
  heap m base E ((true, c) :: r) → 32 ≤ off → (32 | off) → off + 32 ≤ c →
  let A := base + 64 in
  ∃ m', alloc_align m base A off = Some (A + off, m')
        ∧ heap m' base E ((false, off - 32) :: (true, c - off) :: r)
        ∧ keeps m m' base E [] (A + 32 + c) r.
Proof.
  intros Hh Hoff Hoffd Hfit A. pose proof (heap_total _ _ _ _ Hh) as Htot.
  pose proof (heap_bounds _ _ _ _ Hh) as (Hb0&_&_&HbE&_).
  pose proof (heap_block _ _ _ [] _ _ Hh) as (_&HA&HB&HdA&Hc).
  apply (heap_open m base E [] [(true, c)] r) in Hh as (H&[(W1&W2&W3&W4&W5) _]&_).
  destruct (W5 eq_refl) as (W6&W7&W8). clear W5. cbn [hend] in *.
  fold A in HA, HB, HdA, H, W1, W2, W3, W4, W6, W7, W8.
  cbn [fst snd hd_blk first_free last_free last_blk hend app] in *.
  apply div32_8 in HdA as Hd8. apply div32_8 in Hoffd as Hoff8.
  destruct (hctx_rd _ _ _ _ _ _ _ _ _ _ _ _ _ H (A + 56)) as [va W9]; [lia|hdiv|].
  pose proof (hctx_totals _ _ _ _ _ _ _ _ _ _ _ _ _ H) as Htt. unfold alloc_align.
  replace (u64 (A + off)) with (A + off) by (rewrite u64_small; lia).
  replace (u64 (base + sizeof_INTERNAL)) with A by (unfold A; rewrite u64_small; hunfold; lia).
  remember (A + off) as N eqn:HN. assert (HdN : (8 | N)) by (rewrite HN; hdiv). hunfold.
  do 8 hread. cbn [negb Z.eqb]. do 4 hwrite H. hadd_cb H. do 8 hwrite H.
  hread. hset_pv H. hwrite H. hread. hwrite H. hread. hset_pf H. hread. hset_nf H.
  eexists. split; [done|].
  apply (heap_close m _ base E [] A (A + 32 + c) r _ _ _ _ _ [(false, off - 32); (true, c - off)]) in H.
  - done.
  - destruct Hc as (_&Hdc&_). cbn [snd] in Hdc. repeat constructor; cbn [fst snd]; try lia; try done; hdiv.
  - cbn [hend snd]. lia.
  - cbn [seg hend fst snd hd_blk first_free last_blk last_free app].
    replace (A + 32 + (off - 32)) with N by lia.
    replace (N + 32 + (c - off)) with (A + 32 + c) by lia. split; [|split; [|done]]; hhdr.
    f_equal. apply u64_small. lia.
  - by left.
  - cbn [first_free fst snd app]. lia.
  - right. cbn [last_blk snd]. lia.
  - cbn [last_free fst snd]. lia.
  - hcb.
Qed.

(** The alignment of a block behind a used one, which gets what is skipped. *)
Lemma alloc_align_prev m base E l c0 c r off :
  heap m base E (l ++ (false, c0) :: (true, c) :: r) → 32 ≤ off → (32 | off) → off + 32 ≤ c →
  let A := hend (base + 64) l + 32 + c0 in
  ∃ m', alloc_align m base A off = Some (A + off, m')
        ∧ heap m' base E (l ++ (false, c0 + off) :: (true, c - off) :: r)
        ∧ keeps m m' base E (l ++ [(false, c0)]) (A + 32 + c) r.
Proof.
  intros Hh Hoff Hoffd Hfit A. pose proof (heap_total _ _ _ _ Hh) as Htot.
  pose proof (heap_bounds _ _ _ _ Hh) as (Hb0&_&_&HbE&_).
  pose proof (heap_block _ _ _ l _ _ Hh) as (_&HA0&_&HdA0&Hc0).
  replace (l ++ (false, c0) :: (true, c) :: r) with ((l ++ [(false, c0)]) ++ (true, c) :: r) in Hh
    by (by rewrite <- app_assoc).
  pose proof (heap_block _ _ _ (l ++ [(false, c0)]) _ _ Hh) as (_&HA&HB&HdA&Hc).
  rewrite <- app_assoc in Hh. rewrite hend_app in HA, HB, HdA. cbn [hend snd] in HA, HB, HdA.
  apply (heap_open m base E l [(false, c0); (true, c)] r) in Hh
    as (H&[(V1&V2&V3&V4&_) [(W1&W2&W3&W4&W5) _]]&_).
  destruct (W5 eq_refl) as (W6&W7&W8). clear W5. cbn [hend] in *.
  remember (hend (base + 64) l) as A0 eqn:HeqA0.
  cbn [fst snd hd_blk first_free last_free last_blk hend app] in *.
  assert (HA0A : A = A0 + 32 + c0) by done. clearbody A.
  rewrite <- HA0A in HA, HB, HdA, H, V1, W1, W2, W3, W4, W6, W7, W8.
  apply div32_8 in HdA as Hd8. apply div32_8 in HdA0 as Hd80. apply div32_8 in Hoffd as Hoff8.
  assert (Hc0' : 0 ≤ c0) by apply Hc0.
  destruct (hctx_rd _ _ _ _ _ _ _ _ _ _ _ _ _ H (A + 56)) as [va W9]; [lia|hdiv|].
  pose proof (hctx_totals _ _ _ _ _ _ _ _ _ _ _ _ _ H) as Htt. unfold alloc_align.
  replace (u64 (A + off)) with (A + off) by (rewrite u64_small; lia).
  remember (A + off) as N eqn:HN. assert (HdN : (8 | N)) by (rewrite HN; hdiv). hunfold.
  do 8 hread. rewrite (proj2 (Z.eqb_neq A0 0)) by lia. cbn [negb].
  hwrite H. hadd_cb H. do 8 hwrite H.
  hread. hset_pv H. hwrite H. hread. hwrite H. hread. hset_pf H. hread. hset_nf H.
  eexists. split; [done|].
  match type of H with hctx _ ?m' _ _ _ _ _ _ _ _ _ _ _ =>
    assert (Hdat : ∀ x, A0 + 32 ≤ x < A → m' !! x = m !! x) by (intros x Hx; hgap; done) end.
  apply (heap_close m _ base E l A0 (A + 32 + c) r _ _ _ _ _ [(false, c0 + off); (true, c - off)]) in H.
  - destruct H as [Hh Hk]. split; [exact Hh|]. intros x. rewrite in_data_app, <- HeqA0.
    cbn [in_data fst snd]. intros Hx. destruct (decide (A0 + 32 ≤ x < A)) as [?|Hnx]; [by apply Hdat|].
    apply Hk. rewrite HA0A in Hnx. tauto.
  - destruct Hc as (_&Hdc&_), Hc0 as (_&Hdc0&_). cbn [snd] in Hdc, Hdc0.
    repeat constructor; cbn [fst snd]; try lia; try done; hdiv.
  - cbn [hend snd]. lia.
  - cbn [seg hend fst snd hd_blk first_free last_blk last_free app].
    replace (A0 + 32 + (c0 + off)) with N by lia.
    replace (N + 32 + (c - off)) with (A + 32 + c) by lia. split; [|split; [|done]]; hhdr.
    f_equal. apply u64_small. lia.
  - by right.
  - cbn [first_free fst snd app]. lia.
  - right. cbn [last_blk snd]. lia.
  - cbn [last_free fst snd]. lia.
  - hcb.
Qed.

(** The blocks an allocation takes from a free block, and what becomes of the block before it. *)
Definition take_blocks (cb c : Z) : list blk :=
  if cb + 64 <=? c then [(false, cb); (true, c - cb - 32)] else [(false, c)].

Fixpoint donate (pre : list blk) (off : Z) : list blk :=
  match pre with
  | [] => [(false, off - 32)]
  | [b] => [(b.1, b.2 + off)]
  | b :: pre' => b :: donate pre' off
  end.

Lemma donate_snoc l b off : donate (l ++ [b]) off = l ++ [(b.1, b.2 + off)].
Proof.
  induction l as [|b' l IH]; [done|]. cbn [app donate]. rewrite IH.
  destruct l; done.
Qed.

Lemma hend_donate a pre off : hend a (donate pre off) = hend a pre + off.
Proof.
  destruct pre as [|b pre _] using rev_ind; [cbn; lia|].
  rewrite donate_snoc, !hend_app. cbn. lia.
Qed.

Lemma in_data_donate a pre off x : 0 ≤ off → in_data a pre x → in_data a (donate pre off) x.
Proof.
  intros Hoff. destruct pre as [|b pre _] using rev_ind; [done|].
  rewrite donate_snoc, !in_data_app. cbn. intros [?|[[? ?]|?]]; [by left| |done].
  right. left. split; [done|lia].
Qed.

Lemma keeps_trans m m1 m2 base E l l' B r :
  keeps m m1 base E l B r → keeps m1 m2 base E l' B r →
  (∀ x, in_data (base + 64) l x → in_data (base + 64) l' x) → keeps m m2 base E l B r.
Proof.
  intros H1 H2 Hs x Hx. rewrite H2; [by apply H1|].
  destruct Hx as [?|[?|[?|?]]]; [by left|by right; left|right; right; left; by apply Hs|by right; right; right].
Qed.

Lemma alloc_take_spec m base E l c r cb :
  heap m base E (l ++ (true, c) :: r) → 32 ≤ cb → (32 | cb) → cb ≤ c →
  let A := hend (base + 64) l in
  ∃ m', alloc_take m base A cb = Some (A, m') ∧ heap m' base E (l ++ take_blocks cb c ++ r)
        ∧ keeps m m' base E l (A + 32 + c) r.
Proof.
  intros Hh Hcb Hcbd Hfit A. pose proof (heap_block _ _ _ l _ _ Hh) as ((_&_&_&_&W)&HA&HB&_).
  destruct (W eq_refl) as (_&_&W8). fold A in W8, HA, HB. cbn [snd] in *.
  pose proof (heap_bounds _ _ _ _ Hh) as (?&_&_&?&_).
  unfold alloc_take, rdw. rewrite W8. cbn [mbind option_bind].
  change (RT_ALIGN_Z sizeof_FREE RTHEAPSIMPLE_ALIGNMENT) with 64. rewrite u64_small by lia.
  unfold take_blocks. destruct (Z.leb_spec (cb + 64) c).
  - by apply alloc_split_spec.
  - by apply alloc_whole_spec.
Qed.

(** * The search *)

(** How far a block at [A] must move up for the alignment. *)
Definition off_of (A uAlignment : Z) : Z :=
  let offAlign := Z.land (u64 (A + sizeof_BLOCK)) (u64 (uAlignment - 1)) in
  if offAlign =? 0 then 0 else u64 (uAlignment - offAlign).

(** The test of the source: the second subtraction can wrap. *)
Definition fits (A c cb uAlignment : Z) : bool :=
  (cb <=? c) && ((off_of A uAlignment =? 0) || (cb <=? u64 (c - off_of A uAlignment))).

(** The first free block that passes it, with what is before and behind. *)
Fixpoint find_fit (cb uAlignment a : Z) (bs : list blk) : option (list blk * Z * list blk) :=
  match bs with
  | [] => None
  | b :: bs' =>
      if b.1 && fits a b.2 cb uAlignment then Some ([], b.2, bs')
      else '(pre, c, post) ← find_fit cb uAlignment (a + 32 + b.2) bs'; Some (b :: pre, c, post)
  end.

Lemma find_fit_Some cb al a bs pre c post :
  find_fit cb al a bs = Some (pre, c, post) →
  bs = pre ++ (true, c) :: post ∧ fits (hend a pre) c cb al = true.
Proof.
  revert a pre. induction bs as [|b bs IH]; intros a pre; cbn [find_fit]; [done|].
  destruct (b.1 && fits a b.2 cb al) eqn:E.
  - intros [= <- <- <-]. apply andb_prop in E as [E1 E2]. split; [|done].
    cbn [app]. f_equal. destruct b. simpl in E1. by subst.
  - destruct (find_fit _ _ _ _) as [[[pre' c'] post']|] eqn:Ef; [|done]. intros [= <- <- <-].
    apply IH in Ef as [-> Hf]. done.
Qed.

(** Allocation from the block at [A]. *)
Definition alloc_at (m : memory) (pHeapInt : ptr) (cb uAlignment A : Z) : option (ptr * memory) :=
  if off_of A uAlignment =? 0 then alloc_take m pHeapInt A cb
  else '(pFree, m) ← alloc_align m pHeapInt A (off_of A uAlignment); alloc_take m pHeapInt pFree cb.

(** The alignments that may be asked for. *)
Definition pow2_align (al : Z) : Prop := ∃ k, 5 ≤ k < 64 ∧ al = 2 ^ k.

Lemma off_of_spec A al :
  pow2_align al → 0 ≤ A → A + 32 < 2 ^ 64 → (32 | A) →
  let o := Z.land (u64 (A + sizeof_BLOCK)) (u64 (al - 1)) in
  0 ≤ off_of A al < al ∧ (al | A + off_of A al + 32) ∧ (32 | off_of A al)
  ∧ (off_of A al = 0 ∨ 32 ≤ off_of A al)
  ∧ (o =? 0) = (off_of A al =? 0) ∧ (o ≠ 0 → off_of A al = u64 (al - o)).
Proof.
  intros (k&Hk&->) HA HA2 HdA. unfold off_of. hunfold. cbv zeta.
  assert (Hp : 0 < 2 ^ k < 2 ^ 64).
  { split; [by apply Z.pow_pos_nonneg; lia|by apply Z.pow_lt_mono_r; lia]. }
  assert (H32 : (32 | 2 ^ k)).
  { exists (2 ^ (k - 5)). change 32 with (2 ^ 5). rewrite <- Z.pow_add_r by lia. f_equal. lia. }
  rewrite (u64_small (A + 32)), (u64_small (2 ^ k - 1)) by lia.
  replace (2 ^ k - 1) with (Z.ones k) by (rewrite Z.ones_equiv; lia).
  rewrite Z.land_ones by lia. set (o := (A + 32) mod 2 ^ k).
  assert (Ho : 0 ≤ o < 2 ^ k) by (apply Z.mod_pos_bound; lia).
  assert (Hdo : (32 | o)).
  { unfold o. rewrite Z.mod_eq by lia. apply Z.divide_sub_r; [hdiv|].
    by apply Z.divide_mul_l. }
  assert (Hdal : (2 ^ k | A + 32 - o)).
  { unfold o. exists ((A + 32) / 2 ^ k). rewrite (Z.mod_eq (A + 32)) by lia. lia. }
  destruct (Z.eqb_spec o 0) as [E|E].
  - rewrite E, Z.sub_0_r in Hdal. rewrite Z.add_0_r. split_and!; first [done | lia | by apply Z.divide_0_r | by left].
  - rewrite u64_small by lia. assert (Hd : (32 | 2 ^ k - o)) by (by apply Z.divide_sub_r).
    assert (32 ≤ 2 ^ k - o) by (apply Z.divide_pos_le; [lia|done]).
    assert ((2 ^ k | A + (2 ^ k - o) + 32)).
    { replace (A + (2 ^ k - o) + 32) with (A + 32 - o + 2 ^ k) by lia.
      by apply Z.divide_add_r, Z.divide_refl. }
    split_and!; first [done | lia | symmetry; apply Z.eqb_neq; lia].
Qed.

Lemma heap_alloc_loop_spec n m base E l r cb al :
  heap m base E (l ++ r) → pow2_align al → (length r < n)%nat →
  let A := hend (base + 64) l in
  heap_alloc_loop n m base cb al (first_free A r NULL)
  = match find_fit cb al A r with
    | Some (pre, c, post) => alloc_at m base cb al (hend A pre)
    | None => Some (NULL, m)
    end.
Proof.
  intros Hh Hal. revert n l Hh. induction r as [|b r IH]; intros n l Hh Hn; cbn [first_free find_fit].
  { by destruct n; [simpl in Hn; lia|]. }
  pose proof (heap_block _ _ _ l _ _ Hh) as ((_&_&_&_&W)&HA&HB&HdA&Hb).
  pose proof (heap_bounds _ _ _ _ Hh) as (?&_&_&?&_).
  replace (l ++ b :: r) with ((l ++ [b]) ++ r) in Hh by (by rewrite <- app_assoc).
  simpl in Hn. pose proof (λ n, IH n _ Hh) as IH2. rewrite hend_app in IH2. cbn [hend] in IH2.
  set (A := hend (base + 64) l) in *. destruct b as [[] c]; cbn [fst snd andb] in *.
  - destruct (W eq_refl) as (W1&_&W3). destruct n as [|n]; [lia|]. cbn [heap_alloc_loop].
    rewrite (proj2 (Z.eqb_neq A NULL)) by (hunfold; lia). unfold rdw. rewrite W1, W3.
    cbn [mbind option_bind].
    assert (Hc0 : 0 ≤ c) by apply Hb.
    pose proof (off_of_spec A al Hal ltac:(lia) ltac:(lia) HdA) as (Ho&_&_&_&Ho0&Ho1).
    unfold fits. rewrite <- Ho0. unfold alloc_at in *.
    destruct (Z.ltb_spec c cb), (Z.leb_spec cb c); try lia; cbn [andb].
    + rewrite IH2 by lia. by destruct (find_fit _ _ _ _) as [[[? ?] ?]|].
    + destruct (_ =? 0) eqn:E0; cbn [orb hend].
      * by rewrite <- Ho0.
      * apply Z.eqb_neq in E0 as E0'. rewrite <- (Ho1 E0').
        destruct (Z.ltb_spec (u64 (c - off_of A al)) cb), (Z.leb_spec cb (u64 (c - off_of A al))); try lia.
        -- rewrite IH2 by lia. by destruct (find_fit _ _ _ _) as [[[? ?] ?]|].
        -- cbn [hend]. by rewrite <- Ho0.
  - rewrite IH2 by lia. by destruct (find_fit _ _ _ _) as [[[? ?] ?]|].
Qed.

(** No two free blocks are next to each other; [p]: whether there is a free block before. *)
Fixpoint separate (p : bool) (bs : list blk) : Prop :=
  match bs with
  | [] => True
  | b :: bs' => p && b.1 = false ∧ separate b.1 bs'
  end.

Fixpoint last_flag (p : bool) (bs : list blk) : bool :=
  match bs with
  | [] => p
  | b :: bs' => last_flag b.1 bs'
  end.

Lemma separate_app p l r : separate p (l ++ r) ↔ separate p l ∧ separate (last_flag p l) r.
Proof. revert p. induction l as [|b l IH]; intros p; simpl; [tauto|]. rewrite IH. tauto. Qed.

Lemma last_flag_app p l r : last_flag p (l ++ r) = last_flag (last_flag p l) r.
Proof. revert p. induction l as [|b l IH]; intros p; simpl; [done|]. apply IH. Qed.

Lemma separate_used bs : separate true bs → separate false bs.
Proof. destruct bs; simpl; [done|]. by intros [? ?]. Qed.

(** What an allocation does to the blocks: the address of the block, and the new blocks. *)
Definition spec_alloc (base cb uAlignment : Z) (bs : list blk) : option (Z * list blk) :=
  '(pre, c, post) ← find_fit cb uAlignment (base + 64) bs;
  let A := hend (base + 64) pre in
  let off := off_of A uAlignment in
  Some (A + off, (if off =? 0 then pre else donate pre off) ++ take_blocks cb (c - off) ++ post).

(** The subtraction in the test does not wrap for the block that is taken. *)
Definition no_wrap (base cb uAlignment : Z) (bs : list blk) : Prop :=
  ∀ pre c post, find_fit cb uAlignment (base + 64) bs = Some (pre, c, post) →
    off_of (hend (base + 64) pre) uAlignment ≤ c.

(** Every block has the default alignment. *)
Lemma off_of_default A : 0 ≤ A → A + 32 < 2 ^ 64 → (32 | A) → off_of A 32 = 0.
Proof.
  intros H0 H1 Hd. destruct (off_of_spec A 32) as (Ho&_&_&[?|?]&_); [by exists 5|done..|lia].
Qed.

Lemma default_no_wrap m base E bs cb : heap m base E bs → no_wrap base cb 32 bs.
Proof.
  intros Hh pre c post Hf. apply find_fit_Some in Hf as [-> _].
  pose proof (heap_block _ _ _ _ _ _ Hh) as (_&HA&HB&HdA&Hc). apply bok_free in Hc as Hc'.
  pose proof (heap_bounds _ _ _ _ Hh) as (?&_&_&?&_). cbn [snd] in *.
  rewrite off_of_default by (done || lia). lia.
Qed.

(** The block that is found has room for the request behind the aligned address. *)
Lemma find_fit_room m base E bs cb al pre c post :
  heap m base E bs → pow2_align al → no_wrap base cb al bs →
  find_fit cb al (base + 64) bs = Some (pre, c, post) →
  let A := hend (base + 64) pre in let off := off_of A al in
  bs = pre ++ (true, c) :: post ∧ cb + off ≤ c
  ∧ (off = 0 ∨ 32 ≤ off) ∧ (32 | off) ∧ (al | A + off + 32)
  ∧ base + 64 ≤ A ∧ (32 | A) ∧ A + 32 + c ≤ E.
Proof.
  intros Hh Hal Hnw Hf A off. specialize (Hnw _ _ _ Hf). apply find_fit_Some in Hf as [-> Hfit].
  pose proof (heap_block _ _ _ _ _ _ Hh) as (_&HA&HB&HdA&Hc). apply bok_free in Hc as Hc'.
  pose proof (heap_bounds _ _ _ _ Hh) as (?&_&_&?&_). cbn [snd] in *.
  fold A in HA, HB, HdA, Hnw, Hfit.
  destruct (off_of_spec A al Hal ltac:(lia) ltac:(lia) HdA) as (H1&H2&H3&H4&_). fold off in H1, H2, H3, H4, Hnw.
  split; [done|]. split; [|done].
  unfold fits in Hfit. fold off in Hfit. apply andb_prop in Hfit as [Hf1 Hf2].
  apply Z.leb_le in Hf1. apply orb_prop in Hf2 as [Hf2|Hf2].
  - apply Z.eqb_eq in Hf2. lia.
  - apply Z.leb_le in Hf2. rewrite u64_small in Hf2 by lia. lia.
Qed.

Lemma alloc_at_spec m base E pre c post cb al :
  let A := hend (base + 64) pre in
  let off := off_of A al in
  heap m base E (pre ++ (true, c) :: post) → 32 ≤ cb → (32 | cb) → cb + off ≤ c →
  off = 0 ∨ 32 ≤ off → (32 | off) → last_flag false pre = false →
  ∃ m', alloc_at m base cb al A = Some (A + off, m')
        ∧ heap m' base E ((if off =? 0 then pre else donate pre off) ++ take_blocks cb (c - off) ++ post)
        ∧ keeps m m' base E pre (A + 32 + c) post.
Proof.
  intros A off Hh Hcb Hcbd Hfit Hoff Hoffd Hlast. unfold alloc_at. fold off.
  destruct (Z.eqb_spec off 0) as [E0|E0].
  { rewrite E0, Z.sub_0_r, Z.add_0_r. apply alloc_take_spec; [done..|lia]. }
  destruct Hoff as [?|Hoff]; [done|].
  assert (Hal : ∃ m1, alloc_align m base A off = Some (A + off, m1)
            ∧ heap m1 base E (donate pre off ++ (true, c - off) :: post)
            ∧ keeps m m1 base E pre (A + 32 + c) post).
  { destruct pre as [|[f c0] pre _] using rev_ind.
    - apply alloc_align_head; [done..|lia].
    - rewrite last_flag_app in Hlast. cbn in Hlast. subst f. rewrite donate_snoc.
      rewrite <- !app_assoc in *. cbn [fst snd app] in *.
      assert (HA : A = hend (base + 64) pre + 32 + c0) by (unfold A; by rewrite hend_app).
      destruct (alloc_align_prev m base E pre c0 c post off) as (m1&E1&Hh1&Hk1); [done..|lia|].
      rewrite <- HA in E1, Hk1. eauto. }
  destruct Hal as (m1&E1&Hh1&Hk1). rewrite E1. cbn [mbind option_bind].
  destruct (alloc_take_spec m1 base E _ _ _ cb Hh1 Hcb Hcbd) as (m2&E2&Hh2&Hk2); [lia|].
  rewrite hend_donate in E2, Hk2. fold A in E2, Hk2.
  replace (A + off + 32 + (c - off)) with (A + 32 + c) in Hk2 by lia.
  exists m2. split; [done|]. split; [done|]. eapply keeps_trans; [done|done|].
  intros x. apply in_data_donate. lia.
Qed.

Lemma separate_donate off : ∀ pre r,
  last_flag false pre = false → separate false (pre ++ r) → separate false (donate pre off ++ r).
Proof.
  intros pre r. destruct pre as [|b pre _] using rev_ind; [by intros _ ?|].
  rewrite donate_snoc, last_flag_app, <- !app_assoc. cbn [last_flag app]. intros Hb.
  rewrite !separate_app. cbn [separate fst]. tauto.
Qed.

Lemma alloc_block_spec m base E bs cb al :
  heap m base E bs → separate false bs → 32 ≤ cb → (32 | cb) → pow2_align al →
  no_wrap base cb al bs →
  match spec_alloc base cb al bs with
  | Some (p, bs') =>
      ∃ m' pre c post, rtHeapSimpleAllocBlock m base cb al = Some (p, m')
        ∧ heap m' base E bs' ∧ separate false bs'
        ∧ bs = pre ++ (true, c) :: post ∧ keeps m m' base E pre (hend (base + 64) pre + 32 + c) post
  | None => rtHeapSimpleAllocBlock m base cb al = Some (NULL, m)
  end.
Proof.
  intros Hh Hsep Hcb Hcbd Hal Hnw. unfold rtHeapSimpleAllocBlock, rdw.
  pose proof (heap_length _ _ _ _ Hh) as Hlen.
  rewrite (hc_head _ _ _ _ _ _ _ _ _ _ _ _ _ Hh). cbn [mbind option_bind first_free].
  pose proof (heap_alloc_loop_spec _ m base E [] bs cb al Hh Hal Hlen) as Hl. cbn [hend] in Hl.
  rewrite Hl. unfold spec_alloc.
  destruct (find_fit cb al (base + 64) bs) as [[[pre c] post]|] eqn:Ef; [|done].
  cbn [mbind option_bind].
  destruct (find_fit_room m base E bs cb al pre c post Hh Hal Hnw Ef) as (Hbs&Hroom&Hoff&Hoffd&_).
  assert (Hlf : last_flag false pre = false).
  { rewrite Hbs in Hsep. apply separate_app in Hsep as [_ [Hx _]]. cbn in Hx.
    by destruct (last_flag false pre). }
  destruct (alloc_at_spec m base E pre c post cb al) as (m'&E'&Hh'&Hk'); [by rewrite <- Hbs|done..|].
  exists m', pre, c, post. rewrite Hbs in Hsep. split_and!; try done.
  assert (Hsep' : separate false (pre ++ take_blocks cb (c - off_of (hend (base + 64) pre) al) ++ post)).
  { apply separate_app in Hsep as [H1 [H2 H3]]. apply separate_app. split; [done|].
    unfold take_blocks. rewrite Hlf. destruct (_ <=? _); cbn [separate app fst] in *; [tauto|].
    split; [done|]. by apply separate_used. }
  destruct (_ =? 0); [done|]. by apply separate_donate.
Qed.

(** * Freeing *)

Lemma find_right_spec n m base E l r :
  heap m base E (l ++ r) → (length r < n)%nat →
  find_right n m (hd_blk (hend (base + 64) l) r NULL) = Some (first_free (hend (base + 64) l) r NULL).
Proof.
  revert n l. induction r as [|b r IH]; intros n l Hh Hn; (destruct n as [|n]; [simpl in Hn; lia|]);
    [done|].
  pose proof (heap_block _ _ _ _ _ _ Hh) as ((W1&_&_&W4&_)&HA&_).
  pose proof (heap_bounds _ _ _ _ Hh) as (?&_).
  cbn [find_right hd_blk first_free]. rewrite (proj2 (Z.eqb_neq _ NULL)) by (hunfold; lia).
  unfold rdw. rewrite W4. cbn [mbind option_bind]. rewrite flags_is_free.
  destruct b as [[] c]; cbn [fst snd] in *; [done|]. rewrite W1. cbn [mbind option_bind].
  replace (l ++ (false, c) :: r) with ((l ++ [(false, c)]) ++ r) in Hh by (by rewrite <- app_assoc).
  specialize (IH n _ Hh). rewrite hend_app in IH. apply IH. simpl in Hn. lia.
Qed.

Lemma find_neighbours_spec m base E l c r :
  heap m base E (l ++ (false, c) :: r) →
  let A := hend (base + 64) l in
  find_neighbours m base A = Some (last_free (base + 64) l NULL, first_free (A + 32 + c) r NULL).
Proof.
  intros Hh A. unfold find_neighbours.
  pose proof (heap_length _ _ _ _ Hh) as Hlen. rewrite length_app in Hlen. simpl in Hlen.
  pose proof (heap_block _ _ _ _ _ _ Hh) as ((W1&_)&HA&HB&_). cbn [fst snd] in *. fold A in W1, HA, HB.
  pose proof (heap_bounds _ _ _ _ Hh) as (Hb0&_&_&_&_&Hok).
  unfold rdw. rewrite (hc_tail _ _ _ _ _ _ _ _ _ _ _ _ _ Hh). cbn [mbind option_bind].
  rewrite last_free_app. cbn [last_free fst snd]. fold A. rewrite W1. cbn [mbind option_bind].
  replace (l ++ (false, c) :: r) with ((l ++ [(false, c)]) ++ r) in Hh by (by rewrite <- app_assoc).
  pose proof (find_right_spec (S (size m)) m base E _ r Hh) as Hr. rewrite hend_app in Hr.
  cbn [hend snd] in Hr. fold A in Hr. rewrite Hr by lia. cbn [mbind option_bind].
  destruct (first_free_cases r) as [Hu|(us&c'&r'&->&Hu)].
  - rewrite (last_free_used _ _ _ Hu), (first_free_used _ _ _ Hu). cbn [Z.eqb NULL negb].
    destruct (Z.eqb_spec (last_free (base + 64) l NULL) NULL) as [->|]; done.
  - rewrite last_free_app, first_free_app. cbn [last_free first_free fst snd].
    rewrite (first_free_used _ _ _ Hu).
    replace ((l ++ [(false, c)]) ++ us ++ (true, c') :: r')
      with ((l ++ (false, c) :: us) ++ (true, c') :: r') in Hh by (by rewrite <- !app_assoc).
    pose proof (heap_block _ _ _ _ _ _ Hh) as ((_&_&_&_&W)&HA'&_). destruct (W eq_refl) as (_&W7&_).
    rewrite hend_app in W7, HA'. cbn [hend snd] in W7, HA'. fold A in W7, HA'.
    rewrite last_free_app in W7. cbn [last_free fst] in W7. fold A in W7.
    rewrite (last_free_used _ _ _ Hu) in W7.
    replace (negb _) with true; [|symmetry; apply negb_true_iff, Z.eqb_neq].
    + rewrite (proj2 (Z.eqb_neq (hend (A + 32 + c) us) NULL)) by (hunfold; lia).
      rewrite W7. done.
    + destruct (last_free_cases r') as [Hu'|(r1&c1&us'&->&Hu')].
      * rewrite (last_free_used _ _ _ Hu'). hunfold. lia.
      * rewrite last_free_app. cbn [last_free fst]. rewrite (last_free_used _ _ _ Hu').
        apply Forall_app in Hok as [_ [_ [_ [_ [Hok _]%Forall_app]%Forall_cons]%Forall_app]%Forall_cons].
        pose proof (hend_ge (hend (A + 32 + c) us + 32 + c') r1 Hok).
        assert (0 ≤ c') by (apply (heap_block _ _ _ _ _ _ Hh)). hunfold. lia.
Qed.

(** The first block on the right becomes part of the gap. *)
Lemma hctx_absorb m0 m base E l A B b r nx nf pv pf cbf :
  hctx m0 m base E l A B (b :: r) nx nf pv pf cbf →
  let B' := B + 32 + b.2 in
  hctx m0 m base E l A B' r nx nf B (if b.1 then B else pf) cbf
  ∧ hdr_at m base B b (hd_blk B' r NULL) pv (first_free B' r NULL) pf ∧ bok b.
Proof.
  intros [] B'. destruct hc_r as [Hhdr Hs]. apply Forall_cons in hc_right as [Hb Hok].
  assert (0 ≤ b.2) by apply Hb. split; [|done]. split; try done.
  - lia.
  - destruct Hb as (_&Hd&_). subst B'. hdiv.
  - intros x Hx. apply hc_frame. cbn [in_data]. tauto.
Qed.

(** A free block at [F] that reaches to [B], but for its size, and the sum of the free blocks. *)
Definition open_free (m0 m : memory) (base E : Z) (l : list blk) (F B : Z) (r : list blk) : Prop :=
  hctx m0 m base E l F B r F F F F (free_total l + free_total r)
  ∧ m !! Core_pNext F = Some (hd_blk B r NULL) ∧ m !! Core_pPrev F = Some (last_blk (base + 64) l NULL)
  ∧ m !! Core_pHeap F = Some base ∧ m !! Core_fFlags F = Some (flags_of true)
  ∧ m !! Free_pNext F = Some (first_free B r NULL)
  ∧ m !! Free_pPrev F = Some (last_free (base + 64) l NULL) ∧ F + 64 ≤ B.

Lemma open_free_finish m0 m base E l F B r :
  open_free m0 m base E l F B r →
  ∃ m', (cb ← block_cb m base F; m ← wrw m (Free_cb F) cb; add_cbFree m base cb) = Some m'
        ∧ heap m' base E (l ++ (true, B - F - 32) :: r) ∧ keeps m0 m' base E l B r.
Proof.
  intros (H&W1&W2&W3&W4&W6&W7&HF). pose proof (hctx_totals _ _ _ _ _ _ _ _ _ _ _ _ _ H) as Htt.
  pose proof (hctx_bounds _ _ _ _ _ _ _ _ _ _ _ _ _ H) as (HbA&_&HBE&HdF&HdB&_).
  assert (Hb0 : 0 < base ∧ E < 2 ^ 64) by (split; apply H).
  assert (Hsum : free_total l + (B - F - 32) + free_total r < 2 ^ 64).
  { destruct H. pose proof (free_total_range (base + 64) l hc_left).
    pose proof (free_total_range B r hc_right). lia. }
  apply div32_8 in HdF as Hd8. hunfold.
  rewrite (hctx_block_cb _ _ _ _ _ _ _ _ _ _ _ _ _ F H W1) by lia. cbn [mbind option_bind].
  hwrite H.
  destruct (hctx_cbFree _ _ _ _ _ _ _ _ _ _ _ _ _ H (B - F - 32)) as (m'&Hw&H'&Hg).
  exists m'. split; [done|]. clear H Hw.
  apply (heap_close m0 _ base E l F B r _ _ _ _ _ [(true, B - F - 32)]) in H'; try done.
  - repeat constructor; cbn [fst snd]; try lia. hdiv.
  - cbn [hend snd]. lia.
  - cbn [seg hend fst snd hd_blk first_free app]. split; [|done]. hhdr.
  - by right.
  - by right.
  - hcb.
Qed.

Lemma last_blk_range a l pv : Forall bok l → l ≠ [] → a ≤ last_blk a l pv < hend a l.
Proof.
  intros Hok. revert a pv. induction Hok as [|b l [Hb _] Hok IH]; intros a pv Hne; [done|].
  cbn [last_blk hend]. destruct l as [|b' l]; [simpl; lia|].
  specialize (IH (a + 32 + b.2) a ltac:(done)). lia.
Qed.

(** The block becomes free, alone or as a part of the free block before it. *)
Lemma free_left_spec m base E l c r :
  heap m base E (l ++ (false, c) :: r) → 32 ≤ c →
  let A := hend (base + 64) l in let B := A + 32 + c in
  ∃ F m' l', heap_free_left m base A (last_free (base + 64) l NULL) (first_free B r NULL) = Some (F, m')
    ∧ open_free m m' base E l' F B r ∧ F = hend (base + 64) l'
    ∧ (l' = l ∧ last_flag false l = false ∨ ∃ cl, l = l' ++ [(true, cl)]).
Proof.
  intros Hh Hc32 A B. pose proof (heap_total _ _ _ _ Hh) as Htot.
  pose proof (heap_bounds _ _ _ _ Hh) as (Hb0&_&_&HbE&_&Hok).
  apply Forall_app in Hok as [Hokl _].
  assert (Hlast : last_flag false l = false ∨ ∃ l' cl, l = l' ++ [(true, cl)]).
  { destruct l as [|[[] cl] l' _] using rev_ind; [by left|right; eauto|left].
    by rewrite last_flag_app. }
  destruct Hlast as [Hlast|(l'&cl&->)].
  - pose proof (heap_block _ _ _ _ _ _ Hh) as (_&HA&HB&HdA&Hc).
    apply (heap_open m base E l [(false, c)] r) in Hh as (H&[(W1&W2&W3&W4&_) _]&_).
    fold A in HA, HB, HdA, H, W1, W2, W3, W4.
    cbn [fst snd hd_blk first_free last_free last_blk hend app] in *.
    apply div32_8 in HdA as Hd8.
    pose proof (hctx_totals _ _ _ _ _ _ _ _ _ _ _ _ _ H) as Htt. fold B in HB, H, W1.
    assert (HBA : B = A + 32 + c) by done. clearbody B. unfold heap_free_left, set_free_flag.
    destruct (Z.eqb_spec (last_free (base + 64) l NULL) NULL) as [E0|E0].
    + hunfold. hread. rewrite flags_set. do 3 hwrite H. hset_pf H.
      destruct (hctx_set_nf _ _ _ _ _ _ _ _ _ _ _ _ _ H A) as (m2&Hw&H2&Hg2). clear H.
      hunfold. rewrite E0 in Hw. cbv [set_free_next Z.eqb negb] in Hw. hunfold. rewrite Hw.
      cbn [mbind option_bind]. exists A, m2, l. split; [done|]. split; [|split; [done|by left]].
      unfold open_free. hunfold. split_and!; try (hgap; done); try lia.
      * rewrite free_total_app, free_total_cons in H2. exact H2.
      * hgap. by rewrite E0.
    + assert (Hnext : ∃ v, m !! Core_pNext (last_free (base + 64) l NULL) = Some v ∧ v ≠ A).
      { destruct (last_free_cases l) as [Hu|(l1&c1&us&El&Hu)]; [by rewrite (last_free_used _ _ _ Hu) in E0|].
        pose proof (hc_l _ _ _ _ _ _ _ _ _ _ _ _ _ H) as Hs. rewrite El in Hs.
        apply seg_app in Hs as [_ [(Hn&_) _]]. rewrite El, last_free_app. cbn [last_free fst].
        rewrite (last_free_used _ _ _ Hu). eexists. split; [exact Hn|].
        destruct us as [|u us].
        { rewrite El, last_flag_app in Hlast. by cbn in Hlast. }
        cbn [hd_blk]. unfold A. rewrite El, hend_app. rewrite El in Hokl.
        apply Forall_app in Hokl as [_ [_ [[? _] Hus]%Forall_cons]%Forall_cons]. cbn [hend snd] in *.
        pose proof (hend_ge (hend (base + 64) l1 + 32 + c1 + 32 + u.2) us Hus). lia. }
      destruct Hnext as (v&Hv&Hne). rewrite (Hv : rdw m _ = Some v). cbn [mbind option_bind].
      rewrite (proj2 (Z.eqb_neq v A) Hne). hunfold. hread. rewrite flags_set. do 3 hwrite H.
      destruct (hctx_set_nf _ _ _ _ _ _ _ _ _ _ _ _ _ H A) as (m2&Hw&H2&Hg2). clear H.
      unfold set_free_next in Hw. hunfold. rewrite (proj2 (Z.eqb_neq _ 0) E0) in Hw. cbn [negb] in Hw.
      hunfold. rewrite Hw. cbn [mbind option_bind]. hset_pf H2.
      eexists A, _, l. split; [done|]. split; [|split; [done|by left]].
      unfold open_free. hunfold. split_and!; try (hgap; done); try lia.
      rewrite free_total_app, free_total_cons in H2. exact H2.
  - set (A0 := hend (base + 64) l').
    assert (HA0 : A = A0 + 32 + cl) by (unfold A, A0; by rewrite hend_app).
    rewrite <- app_assoc in Hh. cbn [app] in Hh.
    pose proof (heap_block _ _ _ _ _ _ Hh) as (_&HA&_&HdA&Hcl). apply bok_free in Hcl.
    apply (heap_open m base E l' [(true, cl); (false, c)] r) in Hh
      as (H&[(V1&V2&V3&V4&V5) [(W1&W2&W3&W4&_) _]]&_).
    destruct (V5 eq_refl) as (V6&V7&V8). clear V5. fold A0 in HA, HdA, H, V1, V2, V3, V4, V6, V7, V8, W1, W2, W3, W4.
    cbn [fst snd hd_blk first_free last_free last_blk hend app] in *. rewrite <- HA0 in *.
    fold B in H, V6, W1.
    apply div32_8 in HdA as Hd8.
    pose proof (hctx_totals _ _ _ _ _ _ _ _ _ _ _ _ _ H) as Htt.
    assert (HBA : B = A + 32 + c) by done. clearbody B. clearbody A. unfold heap_free_left.
    rewrite last_free_app. cbn [last_free fst]. fold A0.
    assert (HA0d : A0 = hend (base + 64) l') by done. clearbody A0. hunfold.
    rewrite (proj2 (Z.eqb_neq A0 0)) by lia. do 2 hread. rewrite Z.eqb_refl. hwrite H. hread.
    hset_pv H. hread. hadd_cb H. eexists A0, _, l'. split; [done|]. split; [|split; [done|right; eauto]].
    unfold open_free. hunfold. split_and!; try (hgap; done); try lia.
    replace (free_total l' + free_total r) with (u64 (free_total (l' ++ (true, cl) :: (false, c) :: r) + - cl));
      [done|].
    rewrite ?free_total_app, ?free_total_cons, ?free_total_nil in *. cbn [fst snd] in *. rewrite u64_small by lia. lia.
Qed.


(** What is behind it is used, or a free block that it takes in. *)
Lemma free_right_none m0 m base E l F B r :
  open_free m0 m base E l F B r → separate true r →
  heap_free_right m base F (first_free B r NULL) = Some m.
Proof.
  intros (H&_&_&_&_&_&_&HF) Hsep. unfold heap_free_right.
  pose proof (hctx_bounds _ _ _ _ _ _ _ _ _ _ _ _ _ H) as (HbA&_&HBE&_).
  assert (Hb0 : 0 < base) by apply H.
  destruct (first_free_cases r) as [Hu|(us&c&r'&Hr&Hu)].
  { by rewrite (first_free_used _ _ _ Hu). }
  pose proof (hc_right _ _ _ _ _ _ _ _ _ _ _ _ _ H) as Hok.
  pose proof (hc_r _ _ _ _ _ _ _ _ _ _ _ _ _ H) as Hs. rewrite Hr in Hok, Hs, Hsep |- *.
  apply Forall_app in Hok as [Hok _]. pose proof (hend_ge B us Hok).
  rewrite first_free_app. cbn [first_free fst]. rewrite (first_free_used _ _ _ Hu).
  apply seg_app in Hs as [_ [(_&W&_) _]].
  destruct (Z.eqb_spec (hend B us) NULL) as [?|_]; [done|]. cbn [negb].
  rewrite (W : rdw m _ = _). cbn [mbind option_bind].
  assert (Hne : us ≠ []) by (intros ->; by destruct Hsep).
  pose proof (last_blk_range B us F Hok Hne).
  by rewrite (proj2 (Z.eqb_neq _ F)) by lia.
Qed.

Lemma free_right_merge m0 m base E l F B c r :
  open_free m0 m base E l F B ((true, c) :: r) →
  ∃ m', heap_free_right m base F B = Some m' ∧ open_free m0 m' base E l F (B + 32 + c) r.
Proof.
  intros (H&W1&W2&W3&W4&W6&W7&HF).
  pose proof (hctx_bounds _ _ _ _ _ _ _ _ _ _ _ _ _ H) as (HbA&_&HBE&HdF&HdB&_).
  assert (Hb0 : 0 < base ∧ E < 2 ^ 64) by (split; apply H).
  assert (Htot : free_total l + (c + free_total r) < 2 ^ 64).
  { destruct H. pose proof (free_total_range (base + 64) l hc_left).
    pose proof (free_total_range B _ hc_right) as Hx. rewrite free_total_cons in Hx. cbn [fst snd] in Hx. lia. }
  pose proof (hctx_totals _ _ _ _ _ _ _ _ _ _ _ _ _ H) as Htt.
  apply hctx_absorb in H as (H&(V1&V2&V3&V4&V5)&Hc). destruct (V5 eq_refl) as (V6&V7&V8).
  apply bok_free in Hc. cbn [fst snd] in *. remember (B + 32 + c) as B' eqn:HB'.
  rewrite free_total_cons in *. cbn [fst snd] in *.
  pose proof (hctx_totals _ _ _ _ _ _ _ _ _ _ _ _ _ H) as Htt'.
  apply div32_8 in HdF as Hd8. apply div32_8 in HdB as HdB8.
  unfold heap_free_right. hunfold. rewrite (proj2 (Z.eqb_neq B 0)) by lia. cbn [negb].
  do 2 hread. rewrite Z.eqb_refl. hwrite H. hread. hset_pv H. hread. hwrite H. hread. hset_pf H. hread.
  destruct (hctx_cbFree _ _ _ _ _ _ _ _ _ _ _ _ _ H (- c)) as (m'&Hw&H'&Hg'). clear H.
  exists m'. split; [done|].
  unfold open_free. hunfold. split_and!; try (hgap; done); try lia.
  replace (free_total l + free_total r) with (u64 (free_total l + (c + free_total r) + - c)); [done|].
  rewrite u64_small; lia.
Qed.

(** What freeing does to the blocks around the freed one. *)
Definition merge_left (l : list blk) (c : Z) : list blk * Z :=
  match last l with
  | Some (true, cl) => (removelast l, cl + 32 + c)
  | _ => (l, c)
  end.

Definition merge_right (c : Z) (r : list blk) : Z * list blk :=
  match r with
  | (true, cr) :: r' => (c + 32 + cr, r')
  | _ => (c, r)
  end.

Definition spec_free (l : list blk) (c : Z) (r : list blk) : list blk :=
  let '(l', c) := merge_left l c in
  let '(c, r') := merge_right c r in
  l' ++ (true, c) :: r'.

Lemma free_block_spec m base E l c r :
  heap m base E (l ++ (false, c) :: r) → separate false (l ++ (false, c) :: r) → 32 ≤ c →
  let A := hend (base + 64) l in
  ∃ m', rtHeapSimpleFreeBlock m base A = Some m' ∧ heap m' base E (spec_free l c r)
        ∧ separate false (spec_free l c r) ∧ keeps m m' base E l (A + 32 + c) r.
Proof.
  intros Hh Hsep Hc A. unfold rtHeapSimpleFreeBlock.
  pose proof (find_neighbours_spec m base E l c r Hh) as Hn. cbv zeta in Hn. fold A in Hn.
  rewrite Hn. cbn [mbind option_bind].
  pose proof (heap_bounds _ _ _ _ Hh) as (Hb0&_&_&_&_&Hok). apply Forall_app in Hok as [Hokl _].
  assert (HA : base + 64 ≤ A) by (by apply hend_ge).
  assert (Hll : last_free (base + 64) l NULL < A).
  { destruct (last_free_cases l) as [Hu|(l1&c1&us&El&Hu)].
    - rewrite (last_free_used _ _ _ Hu). hunfold. lia.
    - unfold A. rewrite El in Hokl |- *. rewrite last_free_app, hend_app. cbn [last_free hend fst snd].
      rewrite (last_free_used _ _ _ Hu).
      apply Forall_app in Hokl as [_ [[? _] Hus]%Forall_cons]. cbn [snd] in *.
      pose proof (hend_ge (hend (base + 64) l1 + 32 + c1) us Hus). lia. }
  rewrite (proj2 (Z.eqb_neq _ A)) by lia.
  destruct (free_left_spec m base E l c r Hh Hc) as (F&m1&l'&E1&Hof&HF&Hl). fold A in E1, Hof.
  rewrite E1. cbn [mbind option_bind].
  assert (Hml : ∃ cm, merge_left l c = (l', cm) ∧ A + 32 + c - F - 32 = cm ∧ separate false l' ∧ last_flag false l' = false
            ∧ ∀ x, in_data (base + 64) l x → in_data (base + 64) l' x).
  { apply separate_app in Hsep as [Hsl _]. destruct Hl as [[-> Hlf]|[cl ->]].
    - exists c. unfold merge_left. split_and!; [|lia|done|done|done].
      destruct l as [|[[] ?] l0 _] using rev_ind; [done| |by rewrite last_snoc].
      by rewrite last_flag_app in Hlf.
    - exists (cl + 32 + c). unfold merge_left. rewrite last_snoc, removelast_last.
      apply separate_app in Hsl as [Hsl [Hx _]]. cbn in Hx.
      split_and!; [done| |done|by destruct (last_flag false l')|].
      + unfold A. rewrite hend_app. cbn [hend snd]. lia.
      + intros x [?|[[? _]|[]]]%in_data_app; done. }
  destruct Hml as (cm&Hml&Hcm&Hsl'&Hlf'&Hdl).
  apply separate_app in Hsep as [_ [_ Hsr]]. cbn [fst] in Hsr.
  assert (Hfin : ∃ m2 B' r' cr, heap_free_right m1 base F (first_free (A + 32 + c) r NULL) = Some m2
            ∧ open_free m m2 base E l' F B' r' ∧ merge_right cm r = (cr, r') ∧ B' - F - 32 = cr
            ∧ separate true r' ∧ ∀ x, in_data (A + 32 + c) r x → in_data B' r' x).
  { destruct r as [|[[] cr] r'].
    - exists m1, (A + 32 + c), [], cm. split_and!; done.
    - destruct (free_right_merge _ _ _ _ _ _ _ _ _ Hof) as (m2&E2&Hof2).
      exists m2, (A + 32 + c + 32 + cr), r', (cm + 32 + cr). cbn [first_free fst].
      destruct Hsr as [_ Hsr]. cbn [fst] in Hsr. split_and!; try done; [lia|].
      intros x [[? _]|?]; done.
    - exists m1, (A + 32 + c), ((false, cr) :: r'), cm. split_and!; try done.
      apply (free_right_none m m1 base E l'); [done|]. destruct Hsr. by split. }
  destruct Hfin as (m2&B'&r'&cr&E2&Hof2&Hmr&Hcr&Hsr'&Hdr). rewrite E2. cbn [mbind option_bind].
  destruct (open_free_finish _ _ _ _ _ _ _ _ Hof2) as (m3&E3&Hh3&Hk3).
  exists m3. split; [exact E3|]. unfold spec_free. rewrite Hml, Hmr. rewrite Hcr in Hh3.
  split_and!; [done| |].
  - apply separate_app. split; [done|]. rewrite Hlf'. cbn. done.
  - intros x Hx. apply Hk3. destruct Hx as [?|[?|[?|?]]]; [by left|by right; left|..]; right; right;
      [left; by apply Hdl|right; by apply Hdr].
Qed.
