(* ===== verification/HeapSpec.v ===== *)
(** The simple heap seen by its clients: its initialisation, the requests, relocation, and the
    consistency check; the heap as a transition system, and the theorems about the states it
    reaches.

    To a client a heap is a map from the addresses of its allocations to what they contain. *)

From S2P Require Import Prelude HeapSimple HeapRep HeapOps.
Local Open Scope Z_scope.

(** * Rounding *)

Lemma mask_round x : 0 ≤ x < 2 ^ 64 → Z.land x 0xffffffffffffffe0 = x - x mod 32.
Proof.
  intros Hx. change 0xffffffffffffffe0 with (Z.ldiff (Z.ones 64) (Z.ones 5)).
  replace (Z.land x (Z.ldiff (Z.ones 64) (Z.ones 5))) with (Z.ldiff (Z.land x (Z.ones 64)) (Z.ones 5)).
  - rewrite Z.land_ones by lia. rewrite Z.mod_small by lia. rewrite Z.ldiff_ones_r by lia.
    rewrite Z.shiftl_mul_pow2, Z.shiftr_div_pow2 by lia. change (2 ^ 5) with 32.
    rewrite (Z.mod_eq x 32) by lia. lia.
  - apply Z.bits_inj'. intros i Hi. rewrite Z.ldiff_spec, !Z.land_spec, Z.ldiff_spec.
    by rewrite andb_assoc.
Qed.

Lemma mod32_range x : 0 ≤ x mod 32 < 32.
Proof. by apply Z.mod_pos_bound. Qed.

Lemma round_div x : (32 | x - x mod 32).
Proof. exists (x / 32). rewrite (Z.mod_eq x 32) by lia. lia. Qed.

(** The size that is used for a request. *)
Lemma adjust_cb_spec cb :
  0 ≤ cb ≤ 2 ^ 64 - 32 → 32 ≤ adjust_cb cb ∧ (32 | adjust_cb cb) ∧ cb ≤ adjust_cb cb < cb + 32 + 32.
Proof.
  intros Hcb. unfold adjust_cb, RT_ALIGN_Z, RTHEAPSIMPLE_MIN_BLOCK, RTHEAPSIMPLE_ALIGNMENT. hunfold.
  destruct (Z.ltb_spec cb 32).
  - split_and!; [lia|by exists 1|lia|lia].
  - change (Z.lxor (32 - 1) 0xffffffffffffffff) with 0xffffffffffffffe0.
    rewrite u64_small, mask_round by lia. pose proof (mod32_range (cb + (32 - 1))).
    pose proof (round_div (cb + (32 - 1))) as Hd.
    assert (Hpos : 0 < cb + (32 - 1) - (cb + (32 - 1)) mod 32) by lia.
    pose proof (Z.divide_pos_le _ _ Hpos Hd). split_and!; [lia|done|lia|lia].
Qed.

(** The alignments a client may ask for: none, or a power of two. *)
Definition align_arg (al : Z) : Prop := al = 0 ∨ ∃ k, 0 ≤ k < 64 ∧ al = 2 ^ k.

Lemma adjust_alignment_spec al : align_arg al → pow2_align (adjust_alignment al) ∧ (al ≠ 0 → (al | adjust_alignment al)).
Proof.
  unfold adjust_alignment, RTHEAPSIMPLE_ALIGNMENT. hunfold. intros [->|(k&Hk&->)].
  - cbn [Z.eqb]. split; [by exists 5|done].
  - assert (0 < 2 ^ k) by (apply Z.pow_pos_nonneg; lia).
    rewrite (proj2 (Z.eqb_neq (2 ^ k) 0)) by lia. destruct (Z.ltb_spec (2 ^ k) 32) as [H1|H1].
    + split; [by exists 5|]. intros _. change 32 with (2 ^ 5) in *.
      assert (k < 5) by (apply (Z.pow_lt_mono_r_iff 2); lia).
      exists (2 ^ (5 - k)). rewrite <- Z.pow_add_r by lia. f_equal. lia.
    + split; [|done]. exists k. split; [|done]. change 32 with (2 ^ 5) in H1.
      assert (5 ≤ k) by (apply (Z.pow_le_mono_r_iff 2); lia). lia.
Qed.

(** * Initialisation *)

(** The memory from [p] of [cb] bytes is there. *)
Definition memory_mapped (m : memory) (p cb : Z) : Prop :=
  ∀ x, p ≤ x < p + cb → (8 | x) → is_Some (m !! x).

(** The heap is at the first multiple of 32, and its size is one. *)
Definition heap_base (pv : Z) : Z := pv + (- pv) mod 32.
Definition heap_end (pv cb : Z) : Z :=
  heap_base pv + (cb - (- pv) mod 32 - (cb - (- pv) mod 32) mod 32).

Lemma heap_base_spec pv cb :
  4096 ≤ cb →
  pv ≤ heap_base pv < pv + 32 ∧ (32 | heap_base pv) ∧ (32 | heap_end pv cb)
  ∧ heap_base pv + 4032 ≤ heap_end pv cb ∧ heap_end pv cb ≤ pv + cb < heap_end pv cb + 32.
Proof.
  intros Hcb. unfold heap_end, heap_base. set (o := (- pv) mod 32).
  assert (Ho : 0 ≤ o < 32) by (by apply Z.mod_pos_bound).
  assert (Hd : (32 | pv + o)).
  { unfold o. exists (- ((- pv) / 32)). rewrite (Z.mod_eq (- pv) 32) by lia. lia. }
  pose proof (mod32_range (cb - o)). pose proof (round_div (cb - o)).
  split_and!; try lia; try done. by apply Z.divide_add_r.
Qed.

Lemma memory_mapped_wrw m p cb x v :
  memory_mapped m p cb → p ≤ x < p + cb → (8 | x) →
  wrw m x v = Some (<[x := v]> m) ∧ memory_mapped (<[x := v]> m) p cb.
Proof.
  intros Hm Hx Hd. split; [by apply wrw_ok, Hm|]. intros y Hy Hyd.
  destruct (decide (y = x)) as [->|]; [rewrite lookup_insert_eq; eauto|].
  rewrite lookup_insert_ne by done. by apply Hm.
Qed.

Ltac hmapw H :=
  match goal with
  | |- context [wrw ?m ?x ?v] =>
      let Hw := fresh "Hw" in let H' := fresh "H'" in
      destruct (memory_mapped_wrw _ _ _ x v H) as [Hw H']; [lia|hdiv|];
      rewrite Hw; clear Hw H; rename H' into H; cbn [mbind option_bind]
  end.

Lemma valid_ptr_min p : 0 ≤ p < 2 ^ 64 → VALID_PTR p = true → 4096 ≤ p.
Proof.
  intros Hp [H _]%andb_prop. apply Z.leb_le in H. unfold u64 in H.
  destruct (Z.le_gt_cases 4096 p); [done|]. rewrite Z.mod_small in H by lia. lia.
Qed.

(** A new heap is one free block. *)
Lemma init_spec m pv cb :
  VALID_PTR pv = true → 0 ≤ pv → pv + cb < 2 ^ 64 → 4096 ≤ cb → memory_mapped m pv cb →
  let base := heap_base pv in let E := heap_end pv cb in
  ∃ m', RTHeapSimpleInit m pv cb = Some (VINF_SUCCESS, Some base, m')
        ∧ heap m' base E [(true, E - base - 96)]
        ∧ ∀ x, x < base ∨ E ≤ x → m' !! x = m !! x.
Proof.
  intros Hv Hpv Htop Hcb Hm base E. pose proof (valid_ptr_min pv ltac:(lia) Hv). unfold RTHeapSimpleInit, PAGE_SIZE.
  rewrite (proj2 (Z.leb_le 4096 cb)) by done. rewrite Hv. cbn [negb].
  rewrite u64_small by lia. rewrite (proj2 (Z.ltb_lt cb (pv + (cb - 1)))) by lia. cbn [negb].
  pose proof (heap_base_spec pv cb Hcb) as (Hb&Hdb&HdE&HbE&HE). fold base E in Hb, Hdb, HdE, HbE, HE.
  assert (Hstart : (if negb (Z.land pv 31 =? 0)
            then (u64 (pv + (32 - Z.land pv 31)), u64 (cb - (32 - Z.land pv 31))) else (pv, cb))
          = (base, cb - (base - pv))).
  { change 31 with (Z.ones 5). rewrite Z.land_ones by lia. change (2 ^ 5) with 32. unfold base, heap_base.
    pose proof (mod32_range pv). destruct (Z.eqb_spec (pv mod 32) 0) as [E0|E0]; cbn [negb].
    - rewrite (Z.mod_opp_l_z pv 32) by lia. f_equal; lia.
    - rewrite (Z.mod_opp_l_nz pv 32) by lia. rewrite !u64_small by lia. f_equal; lia. }
  rewrite Hstart. cbn iota. unfold RTHEAPSIMPLE_ALIGNMENT. hunfold.
  change (Z.lxor (32 - 1) 0xffffffffffffffff) with 0xffffffffffffffe0.
  rewrite mask_round by lia.
  assert (Hbp : base - pv = (- pv) mod 32) by (unfold base, heap_base; lia).
  assert (HEb : E = base + (cb - (- pv) mod 32 - (cb - (- pv) mod 32) mod 32)) by done.
  rewrite Hbp. replace (cb - (- pv) mod 32 - (cb - (- pv) mod 32) mod 32) with (E - base) by lia.
  rewrite !(u64_small (base + _)) by lia. rewrite u64_small by lia.
  replace (base + (E - base)) with E by lia. clear HEb Hbp. clearbody base E.
  assert (Hmap : memory_mapped m base (E - base)) by (intros x Hx; apply Hm; lia). clear Hm Hstart.
  apply div32_8 in Hdb as Hd8.
  do 14 hmapw Hmap. unfold rdw. hlook. cbn [mbind option_bind]. hmapw Hmap.
  eexists. split; [done|]. split.
  - split; hunfold; try done; try (hlook; done); try lia.
    + repeat constructor; cbn [fst snd]; try lia. hdiv.
    + hdiv.
    + cbn [hend snd]. lia.
    + intros x Hx Hxd. apply Hmap; [lia|done].
    + cbn [seg hd_blk first_free fst snd]. split; [|done].
      unfold hdr_at. hunfold. cbn [fst snd]. split_and!; [hlook; done..|]. intros _.
      split_and!; hlook; [done..|]. f_equal. lia.
    + hlook. rewrite free_total_cons, free_total_nil. cbn [fst snd]. f_equal. lia.
  - intros x Hx. hlook. done.
Qed.

(** * The consistency check *)

Lemma div32_land x : (32 | x) → (Z.land x (RTHEAPSIMPLE_ALIGNMENT - 1) =? 0) = true.
Proof.
  intros [k ->]. change (RTHEAPSIMPLE_ALIGNMENT - 1) with (Z.ones 5). rewrite Z.land_ones by lia.
  apply Z.eqb_eq. apply Z.mod_divide; [done|]. by exists k.
Qed.

Lemma div_null : (32 | NULL).
Proof. by exists 0. Qed.

Lemma first_free_range a bs :
  Forall bok bs → 0 < a → (32 | a) →
  (first_free a bs NULL = NULL ∧ all_used bs ∨ a ≤ first_free a bs NULL ≤ hend a bs - 64)
  ∧ (32 | first_free a bs NULL).
Proof.
  intros Hok Ha Hd. destruct (first_free_cases bs) as [Hu|(us&c&r&->&Hu)].
  - rewrite (first_free_used _ _ _ Hu). split; [by left|by apply div_null].
  - rewrite first_free_app. cbn [first_free fst]. rewrite (first_free_used _ _ _ Hu).
    apply Forall_app in Hok as [Hok1 [Hc Hok2]%Forall_cons]. apply bok_free in Hc.
    pose proof (hend_ge a us Hok1). rewrite hend_app. cbn [hend snd].
    pose proof (hend_ge (hend a us + 32 + c) r Hok2). split; [right; lia|by apply hend_div].
Qed.

Lemma last_free_range a bs pv :
  Forall bok bs → 0 < a → (32 | a) →
  (last_free a bs NULL = NULL ∧ all_used bs
   ∨ first_free a bs NULL ≤ last_free a bs NULL ∧ a ≤ last_free a bs NULL ≤ hend a bs - 64
     ∧ last_free a bs NULL ≤ last_blk a bs pv)
  ∧ (32 | last_free a bs NULL).
Proof.
  intros Hok Ha Hd. destruct (last_free_cases bs) as [Hu|(l&c&us&->&Hu)].
  - rewrite (last_free_used _ _ _ Hu). split; [by left|by apply div_null].
  - rewrite last_free_app, first_free_app, last_blk_app. cbn [last_free first_free last_blk fst].
    rewrite (last_free_used _ _ _ Hu).
    apply Forall_app in Hok as [Hok1 [Hc Hok2]%Forall_cons]. apply bok_free in Hc.
    pose proof (hend_ge a l Hok1). rewrite hend_app. cbn [hend snd].
    pose proof (hend_ge (hend a l + 32 + c) us Hok2). split; [right|by apply hend_div].
    split_and!; [|lia|lia|].
    + destruct (first_free_cases l) as [Hu1|(us1&c1&l1&->&Hu1)].
      * by rewrite (first_free_used _ _ _ Hu1).
      * rewrite first_free_app. cbn [first_free fst]. rewrite (first_free_used _ _ _ Hu1), hend_app.
        apply Forall_app in Hok1 as [_ [[? _] Hl1]%Forall_cons]. cbn [hend snd] in *.
        pose proof (hend_ge (hend a us1 + 32 + c1) l1 Hl1). lia.
    + destruct us as [|u us]; [simpl; lia|].
      pose proof (last_blk_range (hend a l + 32 + c) (u :: us) (hend a l) Hok2). specialize (H1 ltac:(done)). lia.
Qed.

Lemma last_blk_div a bs : Forall bok bs → (32 | a) → (32 | last_blk a bs NULL).
Proof.
  intros Hok Ha. destruct bs as [|b bs _] using rev_ind; [by apply div_null|].
  rewrite last_blk_app. cbn [last_blk]. apply Forall_app in Hok as [Hok _]. by apply hend_div.
Qed.

(** Everything the check looks at, for the block behind [l]. *)
Lemma assert_block_ok (valid : Z → bool) m base E l b r :
  heap m base E (l ++ b :: r) → valid (flags_of b.1) = true →
  assert_block valid m base (hend (base + 64) l) = Some true.
Proof.
  intros Hh Hv. pose proof (heap_bounds _ _ _ _ Hh) as (Hb0&Hdb&_&_&HE&Hok).
  pose proof (heap_block _ _ _ _ _ _ Hh) as ((W1&W2&W3&W4&_)&HA&HB&HdA&Hb).
  pose proof (hc_pvEnd _ _ _ _ _ _ _ _ _ _ _ _ _ Hh) as Hend.
  apply Forall_app in Hok as [Hokl [_ Hokr]%Forall_cons]. assert (0 ≤ b.2) by apply Hb.
  assert (Hd64 : (32 | base + 64)) by hdiv.
  pose proof (last_blk_div _ _ Hokl Hd64) as Hdl. rewrite hend_app in HE. cbn [hend] in HE.
  set (A := hend (base + 64) l) in *. set (B := A + 32 + b.2) in *.
  assert (HdB : (32 | B)) by (destruct Hb as (_&?&_); unfold B; hdiv).
  unfold assert_block, ASSERT_NEXT, ASSERT_PREV, rdw. rewrite W1, W2, W3, W4, Hend.
  cbn [mbind option_bind]. rewrite Hv, Z.eqb_refl. unfold ASSERT_ALIGN.
  rewrite (div32_land _ Hdl). rewrite (div32_land (hd_blk B r NULL)) by (destruct r; [apply div_null|done]).
  cbn [andb]. f_equal. rewrite (proj2 (Z.leb_le (base + sizeof_INTERNAL) A)) by (hunfold; lia).
  rewrite (proj2 (Z.ltb_lt A E)) by lia. cbn [andb].
  apply andb_true_intro. split.
  - destruct r as [|b' r']; [done|]. cbn [hd_blk]. rewrite (proj2 (Z.eqb_neq B NULL)) by (hunfold; lia).
    cbn [negb]. apply Forall_cons in Hokr as [[? _] Hokr]. cbn [hend] in HE.
    pose proof (hend_ge (B + 32 + b'.2) r' Hokr). apply andb_true_intro. split; apply Z.ltb_lt; lia.
  - destruct (decide (l = [])) as [->|Hne]; [cbn; apply Z.eqb_refl|].
    pose proof (last_blk_range (base + 64) l NULL Hokl Hne) as Hr. fold A in Hr.
    rewrite (proj2 (Z.eqb_neq _ NULL)) by (hunfold; lia). cbn [negb].
    apply andb_true_intro. split; [apply Z.ltb_lt|apply Z.leb_le; hunfold]; lia.
Qed.

Lemma heap_block_cb m base E l b r :
  heap m base E (l ++ b :: r) → block_cb m base (hend (base + 64) l) = Some b.2.
Proof.
  intros Hh. pose proof (heap_block _ _ _ _ _ _ Hh) as ((W1&_)&HA&HB&_&Hb).
  pose proof (heap_bounds _ _ _ _ Hh) as (Hb0&_&_&_&_). assert (Hb2 : 0 ≤ b.2) by apply Hb.
  apply (heap_open m base E l [b] r) in Hh as (H&_). cbn [hend] in H.
  rewrite (hctx_block_cb _ _ _ _ _ _ _ _ _ _ _ _ _ (hend (base + 64) l) H W1) by lia. f_equal. lia.
Qed.

Lemma assert_free_ok m base E l c r :
  heap m base E (l ++ (true, c) :: r) →
  ASSERT_BLOCK_FREE m base (hend (base + 64) l) = Some true.
Proof.
  intros Hh. pose proof (heap_bounds _ _ _ _ Hh) as (Hb0&Hdb&_&_&HE&Hok).
  pose proof (heap_block _ _ _ _ _ _ Hh) as ((W1&W2&W3&W4&W5)&HA&HB&HdA&Hb).
  destruct (W5 eq_refl) as (W6&W7&W8). apply bok_free in Hb as Hc. cbn [fst snd] in *.
  pose proof (hc_head _ _ _ _ _ _ _ _ _ _ _ _ _ Hh) as Hhead.
  pose proof (hc_tail _ _ _ _ _ _ _ _ _ _ _ _ _ Hh) as Htail.
  unfold ASSERT_BLOCK_FREE, ASSERT_FREE_NEXT, ASSERT_FREE_PREV, ASSERT_FREE_CB.
  rewrite (heap_block_cb _ _ _ _ _ _ Hh), (assert_block_ok _ _ _ _ _ _ _ Hh eq_refl).
  apply Forall_app in Hok as [Hokl [_ Hokr]%Forall_cons].
  assert (Hd64 : (32 | base + 64)) by hdiv.
  destruct (last_free_range (base + 64) l NULL Hokl ltac:(lia) Hd64) as [HL HdL].
  cbn [first_free] in Hhead. rewrite last_free_app in Htail. rewrite first_free_app in Hhead.
  cbn [last_free first_free fst snd] in Hhead, Htail.
  set (A := hend (base + 64) l) in *. remember (A + 32 + c) as B eqn:HeqB.
  assert (HdB : (32 | B)) by (destruct Hb as (_&?&_); rewrite HeqB; hdiv).
  destruct (first_free_range B r Hokr ltac:(lia) HdB) as [HR HdR].
  unfold rdw. rewrite W1, W2, W4, W6, W7, W8, Hhead, Htail. cbn [mbind option_bind].
  unfold ASSERT_ALIGN. rewrite (div32_land _ HdL), (div32_land _ HdR), Z.eqb_refl.
  change (RTHEAPSIMPLEBLOCK_IS_VALID_FREE (flags_of true)) with true. cbn [andb].
  assert (HhA : first_free (base + 64) l A ≤ A
    ∧ (last_free (base + 64) l NULL = NULL → first_free (base + 64) l A = A)
    ∧ (last_free (base + 64) l NULL ≠ NULL → first_free (base + 64) l A ≤ last_free (base + 64) l NULL)).
  { destruct (first_free_cases l) as [Hu|(us&c1&l1&El&Hu)].
    - rewrite (first_free_used _ _ _ Hu), (last_free_used _ _ _ Hu). split_and!; [lia|done|done].
    - assert (Hff : first_free (base + 64) l A = first_free (base + 64) l NULL).
      { by rewrite El, !first_free_app. }
      rewrite Hff. destruct HL as [[HL Hu']|HL]; [|split_and!; [lia|hunfold; lia|lia]].
      rewrite El in Hu'. by apply Forall_app in Hu' as [_ [? _]%Forall_cons]. }
  assert (HtA : A ≤ last_free B r A
    ∧ (first_free B r NULL = NULL → last_free B r A = A)
    ∧ (first_free B r NULL ≠ NULL → first_free B r NULL ≤ last_free B r A)).
  { destruct (last_free_cases r) as [Hu|(l1&c1&us&El&Hu)].
    - rewrite (first_free_used _ _ _ Hu), (last_free_used _ _ _ Hu). split_and!; [lia|done|done].
    - assert (Hff : last_free B r A = last_free B r NULL) by (by rewrite El, !last_free_app).
      rewrite Hff. destruct (last_free_range B r NULL Hokr ltac:(lia) HdB) as [[[_ Hu']|HL'] _].
      + rewrite El in Hu'. by apply Forall_app in Hu' as [_ [? _]%Forall_cons].
      + split_and!; [lia| |lia]. destruct HR as [[_ Hu']|HR]; [|hunfold; lia].
        rewrite El in Hu'. by apply Forall_app in Hu' as [_ [? _]%Forall_cons]. }
  f_equal. repeat (apply andb_true_intro; split); try (apply Z.leb_le; lia); [| |done].
  - destruct (Z.eqb_spec (first_free B r NULL) NULL) as [E0|E0]; cbn [negb].
    + apply Z.eqb_eq. symmetry. by apply HtA.
    + destruct HR as [[? _]|HR]; [done|].
      repeat (apply andb_true_intro; split); [apply Z.leb_le; by apply HtA|apply Z.ltb_lt; lia|].
      apply Z.leb_le. destruct r; cbn [hd_blk]; hunfold; lia.
  - destruct (Z.eqb_spec (last_free (base + 64) l NULL) NULL) as [E0|E0]; cbn [negb].
    + apply Z.eqb_eq. symmetry. by apply HhA.
    + destruct HL as [[? _]|HL]; [done|].
      repeat (apply andb_true_intro; split); [apply Z.leb_le; by apply HhA|apply Z.ltb_lt; lia|].
      apply Z.leb_le. lia.
Qed.

Lemma assert_loop_ok n m base E l r :
  heap m base E (l ++ r) → (length r < n)%nat →
  assert_loop n m base (hd_blk (hend (base + 64) l) r NULL) (last_blk (base + 64) l NULL)
    (last_free (base + 64) l NULL) = Some true.
Proof.
  revert n l. induction r as [|b r IH]; intros n l Hh Hn; (destruct n as [|n]; [simpl in Hn; lia|]);
    cbn [assert_loop hd_blk].
  - rewrite app_nil_r in Hh. pose proof (hc_tail _ _ _ _ _ _ _ _ _ _ _ _ _ Hh) as Ht.
    cbn [Z.eqb NULL]. unfold rdw. rewrite Ht. cbn [mbind option_bind]. by rewrite Z.eqb_refl.
  - pose proof (heap_bounds _ _ _ _ Hh) as (Hb0&Hdb&_&_&_&Hok).
    pose proof (heap_block _ _ _ _ _ _ Hh) as ((W1&W2&W3&W4&W5)&HA&_).
    pose proof (hc_head _ _ _ _ _ _ _ _ _ _ _ _ _ Hh) as Hhead.
    apply Forall_app in Hok as [Hokl _].
    assert (IH1 := IH n (l ++ [b])). rewrite <- app_assoc in IH1. specialize (IH1 Hh).
    rewrite hend_app, last_blk_app, last_free_app in IH1. cbn [hend last_blk last_free] in IH1.
    set (A := hend (base + 64) l) in *. rewrite (proj2 (Z.eqb_neq A NULL)) by (hunfold; lia).
    assert (Hprev : (last_blk (base + 64) l NULL =? NULL) || (last_blk (base + 64) l NULL =? last_blk (base + 64) l NULL) = true)
      by (by rewrite Z.eqb_refl, orb_true_r).
    unfold rdw. rewrite W4. cbn [mbind option_bind]. rewrite flags_is_free.
    destruct b as [[] c]; cbn [fst snd] in *.
    + destruct (W5 eq_refl) as (_&W7&_).
      pose proof (assert_free_ok m base E l c r Hh) as Hchk. fold A in Hchk. rewrite Hchk.
      cbn [mbind option_bind]. rewrite W7, Hhead. cbn [mbind option_bind].
      rewrite W2, W1. cbn [mbind option_bind]. rewrite IH1 by (simpl in Hn; lia). cbn [mbind option_bind].
      rewrite Hprev, Z.eqb_refl. cbn [andb]. rewrite andb_true_r. f_equal.
      destruct (Z.eqb_spec (last_free (base + 64) l NULL) NULL) as [E0|]; [|done]. cbn [negb orb].
      destruct (last_free_range (base + 64) l NULL Hokl ltac:(lia) ltac:(hdiv)) as [[[_ Hu]|HL] _];
        [|hunfold; lia].
      rewrite first_free_app, (first_free_used _ _ _ Hu). cbn [first_free fst]. by rewrite andb_true_r, Z.eqb_refl.
    + pose proof (assert_block_ok RTHEAPSIMPLEBLOCK_IS_VALID_USED m base E l (false, c) r Hh eq_refl) as Hchk.
      fold A in Hchk. rewrite Hchk. cbn [mbind option_bind].
      rewrite W2, W1. cbn [mbind option_bind]. rewrite IH1 by (simpl in Hn; lia). cbn [mbind option_bind].
      by rewrite Hprev.
Qed.

(** The check of strict builds passes. *)
Lemma assert_all_ok m base E bs :
  heap m base E bs → base + 64 < E → rtHeapSimpleAssertAll m base = Some true.
Proof.
  intros Hh HE'. pose proof (heap_length _ _ _ _ Hh) as Hlen.
  pose proof (heap_bounds _ _ _ _ Hh) as (?&_&?&?&HE&_).
  unfold rtHeapSimpleAssertAll. rewrite u64_small by (hunfold; lia).
  pose proof (assert_loop_ok _ m base E [] bs Hh Hlen) as Hl. cbn [hend last_blk last_free] in Hl.
  destruct bs as [|b bs]; [simpl in HE; lia|]. exact Hl.
Qed.

(** * The map of allocations *)

(** There is an allocation of [c] bytes at [pv], among the blocks from [a] on. *)
Fixpoint alloc_in (a : Z) (bs : list blk) (pv c : Z) : Prop :=
  match bs with
  | [] => False
  | b :: bs' => (b = (false, c) ∧ pv = a + 32) ∨ alloc_in (a + 32 + b.2) bs' pv c
  end.

Abbreviation allocated base := (alloc_in (base + 64)).

Lemma alloc_in_app a l r pv c :
  alloc_in a (l ++ r) pv c ↔ alloc_in a l pv c ∨ alloc_in (hend a l) r pv c.
Proof. revert a. induction l as [|b l IH]; intros a; simpl; [tauto|]. rewrite IH. tauto. Qed.

Lemma alloc_in_split a bs pv c :
  alloc_in a bs pv c ↔ ∃ l r, bs = l ++ (false, c) :: r ∧ pv = hend a l + 32.
Proof.
  revert a. induction bs as [|b bs IH]; intros a; simpl.
  - split; [done|]. by intros ([|]&r&?&_).
  - rewrite IH. split.
    + intros [[-> ->]|(l&r&->&->)]; [by exists [], bs|by exists (b :: l), r].
    + intros ([|b' l]&r&[= -> ->]&->); [by left|right]. by exists l, r.
Qed.

Lemma alloc_in_data a bs pv c x : alloc_in a bs pv c → pv ≤ x < pv + c → in_data a bs x.
Proof.
  revert a. induction bs as [|b bs IH]; intros a; simpl; [done|].
  intros [[-> ->]|H] Hx; [left; simpl; split; [done|lia]|right; by apply IH].
Qed.

(** The words at [pv]. *)
Definition holds (m : memory) (pv : ptr) (ws : list Z) : Prop :=
  ∀ i w, ws !! i = Some w → m !! (pv + 8 * Z.of_nat i) = Some w.

(** The memory is a heap with the allocations [A], and what they contain.  [exact]: there are no
    other used blocks. *)
Definition hrep (exact : bool) (m : memory) (base E : Z) (A : gmap Z (list Z)) : Prop :=
  base + 128 ≤ E ∧ (∀ p, base ≤ p < E → VALID_PTR p = true) ∧
  ∃ bs, heap m base E bs ∧ separate false bs
    ∧ (∀ pv ws, A !! pv = Some ws →
         ∃ c, allocated base bs pv c ∧ 32 ≤ c ∧ 8 * Z.of_nat (length ws) ≤ c ∧ holds m pv ws)
    ∧ (exact = true → ∀ pv c, allocated base bs pv c → is_Some (A !! pv)).

(** Two places in a sequence of blocks. *)
Lemma blocks_order (l l' r r' : list blk) b b' :
  l ++ b :: r = l' ++ b' :: r' →
  (l = l' ∧ b = b' ∧ r = r') ∨ (∃ k, l' = l ++ b :: k ∧ r = k ++ b' :: r') ∨ (∃ k, l = l' ++ b' :: k ∧ r' = k ++ b :: r).
Proof.
  revert l'. induction l as [|x l IH]; intros [|y l']; cbn [app]; intros [= -> H].
  - left. by subst.
  - right. left. exists l'. by subst.
  - right. right. exists l. by subst.
  - destruct (IH l' H) as [(->&->&->)|[(k&->&->)|(k&->&->)]]; [by left|right; left|right; right]; by exists k.
Qed.

(** Allocations do not overlap. *)
Lemma allocated_disjoint m base E bs pv c pv' c' :
  heap m base E bs → allocated base bs pv c → allocated base bs pv' c' → pv ≠ pv' →
  pv + c ≤ pv' - 32 ∨ pv' + c' ≤ pv - 32.
Proof.
  intros Hh (l&r&E1&->)%alloc_in_split (l'&r'&E2&->)%alloc_in_split Hne. pose proof (heap_bounds _ _ _ _ Hh) as (_&_&_&_&_&Hok).
  rewrite E1 in E2, Hok. destruct (blocks_order _ _ _ _ _ _ E2) as [(->&_&_)|[(k&->&->)|(k&->&->)]]; [done|..].
  - left. apply Forall_app in Hok as [_ [_ [Hk _]%Forall_app]%Forall_cons].
    rewrite hend_app. cbn [hend snd]. pose proof (hend_ge (hend (base + 64) l + 32 + c) k Hk). lia.
  - right. rewrite <- app_assoc in Hok.
    apply Forall_app in Hok as [_ [_ [Hk _]%Forall_app]%Forall_cons].
    rewrite hend_app. cbn [hend snd]. pose proof (hend_ge (hend (base + 64) l' + 32 + c') k Hk). lia.
Qed.

(** An allocation is at one place only. *)
Lemma allocated_inj m base E bs pv c c' :
  heap m base E bs → allocated base bs pv c → allocated base bs pv c' → c = c'.
Proof.
  intros Hh (l&r&E1&->)%alloc_in_split (l'&r'&E2&Hpv)%alloc_in_split. pose proof (heap_bounds _ _ _ _ Hh) as (_&_&_&_&_&Hok).
  rewrite E1 in E2, Hok. destruct (blocks_order _ _ _ _ _ _ E2) as [(_&Hb&_)|[(k&->&->)|(k&->&->)]].
  - by injection Hb.
  - apply Forall_app in Hok as [_ [[? _] [Hk _]%Forall_app]%Forall_cons].
    rewrite hend_app in Hpv. cbn [hend snd] in *. pose proof (hend_ge (hend (base + 64) l + 32 + c) k Hk). lia.
  - rewrite <- app_assoc in Hok. apply Forall_app in Hok as [_ [[? _] [Hk _]%Forall_app]%Forall_cons].
    rewrite hend_app in Hpv. cbn [hend snd] in *. pose proof (hend_ge (hend (base + 64) l' + 32 + c') k Hk). lia.
Qed.

(** The area of an allocation is in the heap, and aligned. *)
Lemma allocated_range m base E bs pv c :
  heap m base E bs → allocated base bs pv c →
  base + 96 ≤ pv ∧ pv + c ≤ E ∧ (32 | pv) ∧ 0 ≤ c.
Proof.
  intros Hh (l&r&->&->)%alloc_in_split. pose proof (heap_block _ _ _ _ _ _ Hh) as (_&HA&HB&HdA&Hb).
  cbn [snd] in *. split_and!; [lia|lia|hdiv|apply Hb].
Qed.

(** * Requests *)

(** The words that are in memory at [pv]. *)
Definition words (m : memory) (pv : ptr) (n : nat) : list Z :=
  (λ i, default 0 (m !! (pv + 8 * Z.of_nat i))) <$> seq 0 n.

Lemma length_words m pv n : length (words m pv n) = n.
Proof. unfold words. by rewrite length_fmap, length_seq. Qed.

Lemma holds_words m pv n :
  (∀ i, (i < n)%nat → is_Some (m !! (pv + 8 * Z.of_nat i))) → holds m pv (words m pv n).
Proof.
  intros Hm i w. unfold words. rewrite list_lookup_fmap.
  destruct (seq 0 n !! i) as [k|] eqn:E; [|done]. apply lookup_seq in E as [-> Hi].
  intros [= <-]. destruct (Hm i Hi) as [w Hw]. simpl. by rewrite Hw.
Qed.

Lemma holds_frame m m' pv ws :
  (∀ x, pv ≤ x < pv + 8 * Z.of_nat (length ws) → m' !! x = m !! x) → holds m pv ws → holds m' pv ws.
Proof.
  intros Hf H i w Hi. rewrite Hf; [by apply H|]. apply lookup_lt_Some in Hi. lia.
Qed.

Lemma alloc_in_donate a pre off pv c :
  0 ≤ off → alloc_in a pre pv c → ∃ c', c ≤ c' ∧ alloc_in a (donate pre off) pv c'.
Proof.
  intros Hoff. destruct pre as [|b pre _] using rev_ind; [done|]. rewrite donate_snoc, alloc_in_app.
  intros [H|[[-> ->]|[]]].
  - exists c. split; [done|]. apply alloc_in_app. by left.
  - exists (c + off). split; [lia|]. apply alloc_in_app. right. by left.
Qed.

(** The condition on an alignment above the default one. *)
Definition align_small (cb al : Z) : Prop := adjust_alignment al ≤ adjust_cb cb + 32.

Lemma small_no_wrap m base E bs cb al :
  heap m base E bs → pow2_align al → al ≤ cb + 32 → no_wrap base cb al bs.
Proof.
  intros Hh Hal Hsm pre c post Hf. apply find_fit_Some in Hf as [-> Hfit].
  pose proof (heap_block _ _ _ _ _ _ Hh) as (_&HA&HB&HdA&Hc). apply bok_free in Hc as Hc'.
  pose proof (heap_bounds _ _ _ _ Hh) as (?&_&_&?&_). cbn [snd] in *.
  destruct (off_of_spec (hend (base + 64) pre) al Hal ltac:(lia) ltac:(lia) HdA) as (H1&_&H2&_).
  unfold fits in Hfit. apply andb_prop in Hfit as [Hcb%Z.leb_le _].
  destruct Hal as (k&Hk&->).
  assert (Hd : (32 | 2 ^ k - off_of (hend (base + 64) pre) (2 ^ k))).
  { apply Z.divide_sub_r; [|done]. exists (2 ^ (k - 5)). change 32 with (2 ^ 5).
    rewrite <- Z.pow_add_r by lia. f_equal. lia. }
  apply Z.divide_pos_le in Hd; [lia|lia].
Qed.

(** No free block has room for the request. *)
Definition no_room (base cb al : Z) (bs : list blk) : Prop :=
  ∀ l c r, bs = l ++ (true, c) :: r → c < cb + off_of (hend (base + 64) l) al.

Lemma find_fit_None cb al a bs :
  find_fit cb al a bs = None → ∀ l c r, bs = l ++ (true, c) :: r → fits (hend a l) c cb al = false.
Proof.
  revert a. induction bs as [|b bs IH]; intros a; cbn [find_fit]; [by intros _ []|].
  destruct (b.1 && fits a b.2 cb al) eqn:Eb; [done|].
  destruct (find_fit _ _ _ bs) as [[[? ?] ?]|] eqn:Ef; [done|]. intros _ [|b' l] c r [= -> ->].
  - done.
  - by apply (IH _ Ef l c r).
Qed.

Lemma find_fit_no_room m base E bs cb al :
  heap m base E bs → pow2_align al → al ≤ cb + 32 →
  find_fit cb al (base + 64) bs = None → no_room base cb al bs.
Proof.
  intros Hh Hal Hsm Hf l c r ->. pose proof (find_fit_None _ _ _ _ Hf l c r eq_refl) as Hfit.
  pose proof (heap_block _ _ _ _ _ _ Hh) as (_&HA&HB&HdA&Hc). apply bok_free in Hc as Hc'.
  pose proof (heap_bounds _ _ _ _ Hh) as (?&_&_&?&_). cbn [snd] in *.
  destruct (off_of_spec (hend (base + 64) l) al Hal ltac:(lia) ltac:(lia) HdA) as (H1&_&H2&_).
  unfold fits in Hfit. destruct (Z.leb_spec cb c) as [Hcb|]; [|lia]. cbn [andb] in Hfit.
  apply orb_false_iff in Hfit as [_ Hfit]. apply Z.leb_gt in Hfit.
  destruct Hal as (k&Hk&->).
  assert (Hd : (32 | 2 ^ k - off_of (hend (base + 64) l) (2 ^ k))).
  { apply Z.divide_sub_r; [|done]. exists (2 ^ (k - 5)). change 32 with (2 ^ 5).
    rewrite <- Z.pow_add_r by lia. f_equal. lia. }
  apply Z.divide_pos_le in Hd; [|lia]. rewrite u64_small in Hfit by lia. lia.
Qed.

(** An allocation behind a free block, and one in front of it. *)
Lemma allocated_cases a l c0 r pv c :
  alloc_in a (l ++ (true, c0) :: r) pv c ↔ alloc_in a l pv c ∨ alloc_in (hend a l + 32 + c0) r pv c.
Proof. rewrite alloc_in_app. simpl. naive_solver. Qed.

Lemma allocated_not_free m base E l c0 r pv c :
  heap m base E (l ++ (true, c0) :: r) → allocated base (l ++ (true, c0) :: r) pv c →
  let A := hend (base + 64) l in pv + c ≤ A ∨ A + 32 + c0 < pv.
Proof.
  intros Hh. pose proof (heap_bounds _ _ _ _ Hh) as (_&_&_&_&_&[Hl [_ Hr]%Forall_cons]%Forall_app).
  intros [(l1&l2&->&->)%alloc_in_split|(l1&l2&->&->)%alloc_in_split]%allocated_cases.
  - left. rewrite hend_app. cbn [hend snd]. apply Forall_app in Hl as [_ [_ Hl2]%Forall_cons].
    apply (hend_ge _ _ Hl2).
  - right. apply Forall_app in Hr as [Hl1 _]. pose proof (hend_ge (hend (base + 64) l + 32 + c0) l1 Hl1). lia.
Qed.

(** What the blocks of an allocation are to a client: the new allocation, the old ones. *)
Lemma alloc_in_take a cb c post pv k :
  alloc_in a (take_blocks cb c ++ post) pv k ↔
  (pv = a + 32 ∧ k = if cb + 64 <=? c then cb else c) ∨ alloc_in (a + 32 + c) post pv k.
Proof.
  unfold take_blocks. case_match; simpl.
  - replace (a + 32 + cb + 32 + (c - cb - 32)) with (a + 32 + c) by lia. naive_solver.
  - naive_solver.
Qed.

Lemma alloc_rep m base E bs cb al :
  heap m base E bs → separate false bs → 32 ≤ cb → (32 | cb) → pow2_align al → al ≤ cb + 32 →
  (rtHeapSimpleAllocBlock m base cb al = Some (NULL, m) ∧ no_room base cb al bs)
  ∨ ∃ p m' bs' k, rtHeapSimpleAllocBlock m base cb al = Some (p, m') ∧ base + 64 ≤ p ∧ (al | p + 32)
      ∧ heap m' base E bs' ∧ separate false bs' ∧ allocated base bs' (p + 32) k ∧ cb ≤ k
      ∧ (∀ c, ¬ allocated base bs (p + 32) c)
      ∧ (∀ pv c, allocated base bs pv c →
           (∃ c', c ≤ c' ∧ allocated base bs' pv c') ∧ ∀ x, pv ≤ x < pv + c → m' !! x = m !! x)
      ∧ (al = 32 → ∀ pv c, allocated base bs' pv c → pv = p + 32 ∨ allocated base bs pv c)
      ∧ ¬ no_room base cb al bs.
Proof.
  intros Hh Hsep Hcb Hcbd Hal Hsm. pose proof (small_no_wrap _ _ _ _ _ _ Hh Hal Hsm) as Hnw.
  pose proof (alloc_block_spec m base E bs cb al Hh Hsep Hcb Hcbd Hal Hnw) as Hs.
  unfold spec_alloc in Hs.
  destruct (find_fit cb al (base + 64) bs) as [[[pre c] post]|] eqn:Ef; cbn [mbind option_bind] in Hs.
  2: { left. split; [done|]. by apply (find_fit_no_room m base E). }
  right. destruct (find_fit_room m base E bs cb al pre c post Hh Hal Hnw Ef)
    as (Hbs&Hroom&Hoff&Hoffd&Hdal&HA&HdA&HB).
  set (A := hend (base + 64) pre) in *.
  assert (Hal32 : al = 32 → off_of A al = 0).
  { intros ->. pose proof (heap_bounds _ _ _ _ Hh) as (?&_&_&?&_). apply off_of_default; [lia|lia|done]. }
  set (off := off_of A al) in *.
  destruct Hs as (m'&pre0&c0&post0&Ha&Hh'&Hsep'&Hbs0&Hk).
  assert (Hhe : hend (base + 64) (if off =? 0 then pre else donate pre off) = A + off).
  { destruct (Z.eqb_spec off 0) as [->|]; [unfold A; lia|by rewrite hend_donate]. }
  eexists (A + off), m', _, (if cb + 64 <=? c - off then cb else c - off).
  split_and!; [done|lia|done|exact Hh'|done| | | | | |].
  - apply alloc_in_app. right. rewrite Hhe. apply alloc_in_take. by left.
  - destruct (cb + 64 <=? c - off); lia.
  - intros c' Hc'. rewrite Hbs in Hh, Hc'.
    destruct (allocated_range _ _ _ _ _ _ Hh Hc') as (_&_&_&?).
    destruct (allocated_not_free _ _ _ _ _ _ _ _ Hh Hc') as [Hx|Hx]; fold A in Hx; lia.
  - intros pv c' Hc'. split.
    + rewrite Hbs in Hc'. apply allocated_cases in Hc'. fold A in Hc'. destruct Hc' as [Hc'|Hc'].
      * destruct (Z.eqb_spec off 0) as [E0|E0].
        -- exists c'. split; [done|]. apply alloc_in_app. by left.
        -- destruct (alloc_in_donate _ _ off _ _ ltac:(lia) Hc') as (k&?&?).
           exists k. split; [done|]. apply alloc_in_app. by left.
      * exists c'. split; [done|]. apply alloc_in_app. right. rewrite Hhe. apply alloc_in_take. right.
        replace (A + off + 32 + (c - off)) with (A + 32 + c) by lia. done.
    + intros x Hx. apply Hk. right. right. rewrite Hbs0 in Hc'. apply allocated_cases in Hc'.
      destruct Hc' as [Hc'|Hc']; [left|right]; by eapply alloc_in_data.
  - intros E32 pv c' Hc'. specialize (Hal32 E32). rewrite Hal32 in Hc'. cbn [Z.eqb] in Hc'.
    apply alloc_in_app in Hc'. rewrite Hbs, allocated_cases. destruct Hc' as [Hc'|Hc']; [by right; left|].
    apply alloc_in_take in Hc'. fold A in Hc' |- *. destruct Hc' as [[-> _]|Hc']; [left; lia|right; right].
    by replace (A + 32 + (c - 0)) with (A + 32 + c) in Hc' by lia.
  - intros Hno. pose proof (Hno _ _ _ Hbs) as Hno'. fold A off in Hno'. lia.
Qed.

(** A freed block is no allocation any more; the others are what they were. *)
Lemma alloc_in_spec_free a l c r pv k :
  alloc_in a (spec_free l c r) pv k ↔ alloc_in a l pv k ∨ alloc_in (hend a l + 32 + c) r pv k.
Proof.
  unfold spec_free.
  assert (Hl : ∀ l' c', merge_left l c = (l', c') →
    hend a l' + 32 + c' = hend a l + 32 + c ∧ (alloc_in a l' pv k ↔ alloc_in a l pv k)).
  { unfold merge_left. intros l' c'. destruct l as [|b l _] using rev_ind; [by intros [= <- <-]|].
    rewrite last_snoc. destruct b as [[] cl]; [|by intros [= <- <-]].
    rewrite removelast_last. intros [= <- <-]. rewrite hend_app, alloc_in_app. cbn [hend snd alloc_in].
    split; [lia|]. naive_solver. }
  destruct (merge_left l c) as [l' c'] eqn:E1. destruct (Hl _ _ eq_refl) as [He Ha].
  assert (Hr : ∀ c'' r', merge_right c' r = (c'', r') →
    (alloc_in (hend a l' + 32 + c'') r' pv k ↔ alloc_in (hend a l' + 32 + c') r pv k)).
  { unfold merge_right. intros c'' r'. destruct r as [|[[] cr] r]; try by intros [= <- <-].
    intros [= <- <-]. cbn [alloc_in snd].
    replace (hend a l' + 32 + (c' + 32 + cr)) with (hend a l' + 32 + c' + 32 + cr) by lia. naive_solver. }
  destruct (merge_right c' r) as [c'' r'] eqn:E2. rewrite allocated_cases, (Hr _ _ eq_refl), He. tauto.
Qed.

Lemma free_rep m base E bs h pv c :
  heap m base E bs → separate false bs → allocated base bs pv c → 32 ≤ c →
  ∃ m' bs', RTHeapSimpleFree m h pv = Some m' ∧ heap m' base E bs' ∧ separate false bs'
    ∧ (∀ pv' c', allocated base bs' pv' c' ↔ allocated base bs pv' c' ∧ pv' ≠ pv)
    ∧ ∀ pv' c' x, allocated base bs pv' c' → pv' ≠ pv → pv' ≤ x < pv' + c' → m' !! x = m !! x.
Proof.
  intros Hh Hsep Ha Hc. destruct (allocated_range _ _ _ _ _ _ Hh Ha) as (H1&H2&_).
  apply alloc_in_split in Ha as (l&r&->&Hpv).
  pose proof (heap_bounds _ _ _ _ Hh) as (Hb0&_&_&Htop&_&[Hl [_ Hr]%Forall_cons]%Forall_app).
  pose proof (heap_block _ _ _ _ _ _ Hh) as ((_&_&W3&_)&_).
  destruct (free_block_spec m base E l c r Hh Hsep Hc) as (m'&Hf&Hh'&Hsep'&Hk).
  assert (Hsplit : ∀ pv' c', allocated base (l ++ (false, c) :: r) pv' c' → pv' ≠ pv →
            allocated base l pv' c' ∨ alloc_in (hend (base + 64) l + 32 + c) r pv' c').
  { intros pv' c' H Hne. apply alloc_in_app in H as [H|H]; [by left|].
    cbn [alloc_in snd] in H. destruct H as [[_ H]|H]; [congruence|by right]. }
  exists m', (spec_free l c r). split_and!; [|done|done| |].
  - unfold RTHeapSimpleFree. rewrite (proj2 (Z.eqb_neq pv NULL)) by (hunfold; lia).
    rewrite u64_small by (hunfold; lia). unfold sizeof_BLOCK. rewrite Hpv, Z.add_simpl_r.
    unfold rdw. rewrite W3. exact Hf.
  - intros pv' c'. rewrite alloc_in_spec_free. split; [|by intros [H ?]; apply Hsplit].
    intros H. split.
    + apply alloc_in_app. cbn [alloc_in snd]. tauto.
    + destruct H as [H|H]; apply alloc_in_split in H as (l1&l2&E1&->).
      * rewrite E1 in Hpv, Hl. apply Forall_app in Hl as [_ [[? _] Hl]%Forall_cons].
        rewrite hend_app in Hpv. cbn [hend snd] in *. pose proof (hend_ge (hend (base + 64) l1 + 32 + c') l2 Hl). lia.
      * rewrite E1 in Hr. apply Forall_app in Hr as [Hr _]. pose proof (hend_ge (hend (base + 64) l + 32 + c) l1 Hr). lia.
  - intros pv' c' x H Hne Hx. apply Hk. right. right.
    destruct (Hsplit _ _ H Hne) as [H'|H']; [left|right]; by eapply alloc_in_data.
Qed.

(** * The contents *)

(** A heap does not depend on what the allocations contain. *)
Lemma heap_data m m' base E bs :
  heap m base E bs → (∀ x, ¬ in_data (base + 64) bs x → m' !! x = m !! x) →
  (∀ x, is_Some (m !! x) → is_Some (m' !! x)) → heap m' base E bs.
Proof.
  intros Hh Hf Hs. pose proof (heap_bounds _ _ _ _ Hh) as (Hb0&Hdb&HbE&_&HE&Hok).
  assert (Hlow : ∀ x, x < base + 64 → m' !! x = m !! x).
  { intros x Hx. apply Hf. intros H. apply in_data_range in H; [lia|done]. }
  destruct Hh as [? ? ? ? ? ? ? ? ? Hmap Hsl Hsr Hmagic Hcb Hend Hfree Hhead Htail _].
  split; try done; try (rewrite Hlow by (hunfold; lia); done).
  - intros x Hx Hd. by apply Hs, Hmap.
  - eapply seg_frame; [done|done|]. intros x _ Hx. by apply Hf.
Qed.

Lemma is_Some_insert (m : memory) x v y : is_Some (m !! y) → is_Some (<[x := v]> m !! y).
Proof. intros H. destruct (decide (x = y)) as [->|]; [rewrite lookup_insert_eq; eauto|by rewrite lookup_insert_ne]. Qed.

(** A client writes to its allocation. *)
Lemma write_rep m base E bs pv c x v :
  heap m base E bs → allocated base bs pv c → pv ≤ x < pv + c → (8 | x) →
  wrw m x v = Some (<[x := v]> m) ∧ heap (<[x := v]> m) base E bs.
Proof.
  intros Hh Ha Hx Hd. destruct (allocated_range _ _ _ _ _ _ Hh Ha) as (?&?&_). split.
  - apply wrw_ok, (hc_map _ _ _ _ _ _ _ _ _ _ _ _ _ Hh); [lia|done].
  - apply (heap_data m); [done| |intros y; apply is_Some_insert].
    intros y Hy. rewrite lookup_insert_ne; [done|]. intros <-. apply Hy. by eapply alloc_in_data.
Qed.

Lemma zero_words_spec n m pv :
  (∀ i, (i < n)%nat → is_Some (m !! (pv + 8 * Z.of_nat i))) →
  ∃ m', zero_words n m pv = Some m' ∧ holds m' pv (replicate n 0)
    ∧ (∀ x, x < pv ∨ pv + 8 * Z.of_nat n ≤ x → m' !! x = m !! x)
    ∧ (∀ x, is_Some (m !! x) → is_Some (m' !! x)).
Proof.
  revert m pv. induction n as [|n IH]; intros m pv Hm; cbn [zero_words].
  - exists m. split_and!; [done|by intros ?|done|done].
  - rewrite wrw_ok by (rewrite <- (Z.add_0_r pv); apply (Hm 0%nat); lia). cbn [mbind option_bind].
    destruct (IH (<[pv := 0]> m) (pv + 8)) as (m'&Hz&Hh&Hf&Hs).
    { intros i Hi. apply is_Some_insert.
      replace (pv + 8 + 8 * Z.of_nat i) with (pv + 8 * Z.of_nat (S i)) by lia. apply Hm. lia. }
    exists m'. split_and!; [done| | |].
    + intros [|i] w Hw; cbn in Hw.
      * injection Hw as <-. rewrite Hf by lia. rewrite Z.add_0_r. apply lookup_insert_eq.
      * apply Hh in Hw. by replace (pv + 8 * Z.of_nat (S i)) with (pv + 8 + 8 * Z.of_nat i) by lia.
    + intros x Hx. rewrite Hf by lia. apply lookup_insert_ne. lia.
    + intros x Hx. by apply Hs, is_Some_insert.
Qed.

(** The size of an allocation. *)
Lemma size_rep m base E bs h pv c :
  heap m base E bs → allocated base bs pv c → VALID_PTR pv = true →
  RTHeapSimpleSize m h pv = Some c.
Proof.
  intros Hh Ha Hv. destruct (allocated_range _ _ _ _ _ _ Hh Ha) as (H1&H2&Hd&_).
  pose proof (heap_bounds _ _ _ _ Hh) as (Hb0&_&_&Htop&_).
  apply alloc_in_split in Ha as (l&r&->&Hpv).
  pose proof (heap_block _ _ _ _ _ _ Hh) as ((_&_&W3&_)&_&HB&_&Hb). cbn [snd] in *. assert (0 ≤ c) by apply Hb.
  unfold RTHeapSimpleSize. rewrite (proj2 (Z.eqb_neq pv NULL)) by (hunfold; lia). rewrite Hv. cbn [negb].
  assert (Hal : RT_ALIGN_Z pv RTHEAPSIMPLE_ALIGNMENT = pv).
  { unfold RT_ALIGN_Z, RTHEAPSIMPLE_ALIGNMENT, sizeof_BLOCK. destruct Hd as [k Hk].
    change (Z.lxor (32 - 1) 0xffffffffffffffff) with 0xffffffffffffffe0.
    assert (pv + 31 < 2 ^ 64).
    { destruct (heap_bounds _ _ _ _ Hh) as (_&[kb Hkb]&_&_&HE&Hok).
      assert (HdE : (32 | E)) by (rewrite HE; apply hend_div; [done|clear -Hkb; exists (kb + 2); lia]).
      destruct HdE as [ke Hke]. lia. }
    assert ((pv + (32 - 1)) mod 32 = 31) by (rewrite Hk, Z.add_comm, Z_mod_plus_full; done).
    rewrite u64_small by lia. rewrite mask_round by lia. lia. }
  rewrite Hal, Z.eqb_refl. cbn [negb]. rewrite u64_small by (hunfold; lia).
  unfold sizeof_BLOCK. rewrite Hpv, Z.add_simpl_r. unfold rdw. rewrite W3. cbn [mbind option_bind].
  exact (heap_block_cb _ _ _ _ _ _ Hh).
Qed.
