(* ===== verification/HeapClient.v ===== *)
(** The clients of a simple heap: the requests they may make, the states that a heap reaches, and
    the theorems about those.

    To a client a heap is a map from the addresses of its allocations to what they contain; every
    request does to this map what one expects of independent arrays. *)

From S2P Require Import Prelude HeapSimple HeapRep HeapOps HeapSpec.
Local Open Scope Z_scope.

(** * What a client does *)

Inductive hop : Type :=
| HAlloc (zero : bool) (cb cbAlignment : Z)
| HFree (pv : ptr)
| HSize (pv : ptr)
| HFreeSize
| HWrite (pv : ptr) (i : nat) (v : Z)
| HRead (pv : ptr) (i : nat).

Definition run_hop (hHeap : ptr) (o : hop) (m : memory) : option (Z * memory) :=
  match o with
  | HAlloc false cb al => RTHeapSimpleAlloc m hHeap cb al
  | HAlloc true cb al => RTHeapSimpleAllocZ m hHeap cb al
  | HFree pv => m ← RTHeapSimpleFree m hHeap pv; Some (0, m)
  | HSize pv => cb ← RTHeapSimpleSize m hHeap pv; Some (cb, m)
  | HFreeSize => cb ← RTHeapSimpleGetFreeSize m hHeap; Some (cb, m)
  | HWrite pv i v => m ← wrw m (pv + 8 * Z.of_nat i) v; Some (v, m)
  | HRead pv i => v ← rdw m (pv + 8 * Z.of_nat i); Some (v, m)
  end.

Abbreviation allocs := (gmap Z (list Z)).

(** The words of a request for [cb] bytes. *)
Definition nwords (cb : Z) : nat := Z.to_nat ((cb + 7) / 8).

(** What a client may do.  The requests it may make have at most [2^64 - 32] bytes and an
    alignment that is zero or a power of two, at most 32 more than the rounded size; the heap
    takes others and then goes wrong ([heap_size_wraps], [heap_align_wraps]).  With [exact]
    no alignment is above 32 either ([heap_aligned_leak]). *)
Definition hop_ok (exact : bool) (A : allocs) (o : hop) : Prop :=
  match o with
  | HAlloc _ cb al =>
      0 ≤ cb ≤ 2 ^ 64 - 32 ∧ align_arg al ∧ align_small cb al ∧ (exact = true → al ≤ 32)
  | HFree pv | HSize pv => pv = NULL ∨ is_Some (A !! pv)
  | HFreeSize => True
  | HWrite pv i _ | HRead pv i => ∃ ws, A !! pv = Some ws ∧ (i < length ws)%nat
  end.

(** The allocations afterwards.  What a new one contains is left to the memory. *)
Definition hghost (m' : memory) (A : allocs) (o : hop) (r : Z) : allocs :=
  match o with
  | HAlloc _ cb _ => if r =? NULL then A else <[r := words m' r (nwords cb)]> A
  | HFree pv => delete pv A
  | HWrite pv i v => alter (λ ws, <[i := v]> ws) pv A
  | _ => A
  end.

(** [ws] is at [pv] in the heap, aligned, and away from all other allocations. *)
Definition fresh_area (base E : Z) (A : allocs) (al pv : Z) (ws : list Z) : Prop :=
  A !! pv = None ∧ base < pv ∧ pv + 8 * Z.of_nat (length ws) ≤ E ∧ (32 | pv) ∧ (al ≠ 0 → (al | pv))
  ∧ ∀ pv' ws', A !! pv' = Some ws' →
      pv + 8 * Z.of_nat (length ws) ≤ pv' ∨ pv' + 8 * Z.of_nat (length ws') ≤ pv.

(** The specification: what the operations are to a map of independent arrays. *)
Definition hspec (base E : Z) (A : allocs) (o : hop) (r : Z) (A' : allocs) : Prop :=
  match o with
  | HAlloc zero cb al =>
      (r = NULL ∧ A' = A)
      ∨ ∃ ws, length ws = nwords cb ∧ (zero = true → ws = replicate (nwords cb) 0)
          ∧ fresh_area base E A al r ws ∧ A' = <[r := ws]> A
  | HFree pv => A' = delete pv A
  | HSize pv => A' = A ∧ (if pv =? NULL then r = 0
                          else ∃ ws, A !! pv = Some ws ∧ 8 * Z.of_nat (length ws) ≤ r)
  | HFreeSize => A' = A ∧ 0 ≤ r ≤ E - base - 96
  | HWrite pv i v => ∃ ws, A !! pv = Some ws ∧ A' = <[pv := <[i := v]> ws]> A
  | HRead pv i => A' = A ∧ ∃ ws, A !! pv = Some ws ∧ ws !! i = Some r
  end.

(** * Helpers *)

Lemma nwords_le cb : 0 ≤ cb ≤ 2 ^ 64 - 32 → cb ≤ 8 * Z.of_nat (nwords cb) ≤ adjust_cb cb.
Proof.
  intros Hcb. destruct (adjust_cb_spec cb Hcb) as (H1&[k Hk]&H2). unfold nwords.
  pose proof (Z.div_mod (cb + 7) 8 ltac:(done)). pose proof (Z.mod_pos_bound (cb + 7) 8 ltac:(done)).
  assert (0 ≤ (cb + 7) / 8) by (apply Z.div_pos; lia). rewrite Z2Nat.id by done.
  assert ((cb + 7) / 8 ≤ 4 * k); [|lia]. apply Z.lt_succ_r, Z.div_lt_upper_bound; lia.
Qed.

Lemma words_holds m pv ws : holds m pv ws → words m pv (length ws) = ws.
Proof.
  intros H. apply list_eq. intros i. unfold words. rewrite list_lookup_fmap.
  destruct (ws !! i) as [w|] eqn:E.
  - pose proof (lookup_lt_Some _ _ _ E). rewrite lookup_seq_lt by done. simpl. by rewrite (H i w E).
  - rewrite lookup_seq_ge by (by apply lookup_ge_None in E). done.
Qed.

Lemma holds_lookup m pv ws i w : holds m pv ws → ws !! i = Some w → rdw m (pv + 8 * Z.of_nat i) = Some w.
Proof. intros H. apply H. Qed.

Lemma holds_insert m pv ws i v :
  holds m pv ws → (i < length ws)%nat → holds (<[pv + 8 * Z.of_nat i := v]> m) pv (<[i := v]> ws).
Proof.
  intros H Hi j w Hj. destruct (decide (i = j)) as [<-|Hne].
  - rewrite list_lookup_insert_eq in Hj by done. injection Hj as <-. apply lookup_insert_eq.
  - rewrite list_lookup_insert_ne in Hj by done. rewrite lookup_insert_ne by lia. by apply H.
Qed.

(** * Every operation does what its specification says *)

Section hrep.
Context (ex : bool) (m : memory) (base E : Z) (A : allocs).

(** An operation that changes nothing but the contents. *)
Lemma hrep_data m' (A' : allocs) bs :
  hrep ex m base E A → heap m' base E bs → separate false bs →
  (∀ pv ws, A' !! pv = Some ws →
     ∃ c, allocated base bs pv c ∧ 32 ≤ c ∧ 8 * Z.of_nat (length ws) ≤ c ∧ holds m' pv ws) →
  (ex = true → ∀ pv c, allocated base bs pv c → is_Some (A' !! pv)) →
  hrep ex m' base E A'.
Proof. intros (HE&Hv&_) Hh Hsep HA Hex. split; [done|]. split; [done|]. by exists bs. Qed.

(** The request itself, with or without zeroing. *)
Lemma run_alloc zero cb al p m1 :
  hrep ex m base E A → 0 ≤ p → p + 32 + adjust_cb cb ≤ E → E < 2 ^ 64 →
  0 ≤ cb ≤ 2 ^ 64 - 32 → 0 < p → (8 | p) →
  rtHeapSimpleAllocBlock m base (adjust_cb cb) (adjust_alignment al) = Some (p, m1) →
  (∀ x, base ≤ x < E → (8 | x) → is_Some (m1 !! x)) → base ≤ p →
  ∃ m2, run_hop base (HAlloc zero cb al) m = Some (p + 32, m2)
    ∧ (∀ x, x < p + 32 ∨ p + 32 + adjust_cb cb ≤ x → m2 !! x = m1 !! x)
    ∧ (∀ x, is_Some (m1 !! x) → is_Some (m2 !! x))
    ∧ (zero = true → words m2 (p + 32) (nwords cb) = replicate (nwords cb) 0).
Proof.
  intros (HE&Hv&_) Hp HpE Htop Hcb Hp0 Hp8 Hrun Hmap Hb.
  destruct (adjust_cb_spec cb Hcb) as (H1&[k Hk]&H2). pose proof (nwords_le cb Hcb) as [_ Hn].
  assert (Hvb : VALID_PTR base = true) by (apply Hv; lia).
  destruct zero; cbn [run_hop]; unfold RTHeapSimpleAlloc, RTHeapSimpleAllocZ;
    rewrite Hvb, Hrun; cbn [negb mbind option_bind];
    rewrite (proj2 (Z.eqb_neq p NULL)) by (hunfold; lia); cbn [negb];
    unfold sizeof_BLOCK; rewrite u64_small by lia.
  2: { exists m1. by split_and!. }
  replace (Z.to_nat (adjust_cb cb / 8)) with (Z.to_nat (4 * k)).
  2: { rewrite Hk. replace (k * 32) with (4 * k * 8) by lia. by rewrite Z.div_mul. }
  destruct (zero_words_spec (Z.to_nat (4 * k)) m1 (p + 32)) as (m2&Hz&Hh&Hf&Hs).
  { intros i Hi. apply Hmap; [lia|]. repeat apply Z.divide_add_r; [done|by exists 4|]. by apply Z.divide_factor_l. }
  rewrite Hz. cbn [mbind option_bind]. exists m2. split_and!; [done| |done|].
  - intros x Hx. apply Hf. lia.
  - intros _. rewrite <- (words_holds m2 (p + 32) (replicate (nwords cb) 0)); [by rewrite length_replicate|].
    intros i w [-> Hi]%lookup_replicate. apply Hh. apply lookup_replicate. split; [done|lia].
Qed.

Lemma alloc_step zero cb al :
  hrep ex m base E A → hop_ok ex A (HAlloc zero cb al) →
  ∃ r m', run_hop base (HAlloc zero cb al) m = Some (r, m')
    ∧ hspec base E A (HAlloc zero cb al) r (hghost m' A (HAlloc zero cb al) r)
    ∧ hrep ex m' base E (hghost m' A (HAlloc zero cb al) r).
Proof.
  intros Hr (Hcb&Hal&Hsm&Hal32). pose proof Hr as (HE&Hv&bs&Hh&Hsep&HA&Hex).
  destruct (adjust_cb_spec cb Hcb) as (H32&Hd&_). destruct (adjust_alignment_spec al Hal) as [Hp2 Hdv].
  pose proof (heap_bounds _ _ _ _ Hh) as (Hb0&_&_&Htop&_).
  destruct (alloc_rep m base E bs _ _ Hh Hsep H32 Hd Hp2 Hsm)
    as [[Hrun _]|(p&m1&bs'&k&Hrun&Hp&Hpal&Hh1&Hsep1&Hnew&Hk&Hfresh&Hold&Hexact&_)].
  { exists NULL, m. split_and!; [|by left|done].
    assert (Hvb : VALID_PTR base = true) by (apply Hv; lia).
    destruct zero; cbn [run_hop]; unfold RTHeapSimpleAlloc, RTHeapSimpleAllocZ; by rewrite Hvb, Hrun. }
  destruct (allocated_range _ _ _ _ _ _ Hh1 Hnew) as (_&HpE&Hd32&_).
  assert (Hp8 : (8 | p)) by (replace p with (p + 32 - 32) by lia; apply Z.divide_sub_r; [by apply div32_8|by exists 4]).
  destruct (run_alloc zero cb al p m1 Hr ltac:(lia) ltac:(lia) Htop Hcb ltac:(lia) Hp8 Hrun) as (m2&Hrun2&Hf&Hs&Hz);
    [apply (hc_map _ _ _ _ _ _ _ _ _ _ _ _ _ Hh1)|lia|].
  exists (p + 32), m2. split; [done|]. cbn [hghost]. rewrite (proj2 (Z.eqb_neq (p + 32) NULL)) by (hunfold; lia).
  pose proof (nwords_le cb Hcb) as [_ Hn].
  assert (Hnone : A !! (p + 32) = None).
  { destruct (A !! (p + 32)) as [ws|] eqn:E1; [|done]. destruct (HA _ _ E1) as (c&Hc&_). by apply Hfresh in Hc. }
  assert (Hmove : ∀ pv ws, A !! pv = Some ws → ∃ c, allocated base bs' pv c ∧ 32 ≤ c
            ∧ 8 * Z.of_nat (length ws) ≤ c ∧ holds m1 pv ws ∧ (pv + c ≤ p ∨ p + 32 + k ≤ pv - 32)).
  { intros pv ws Hpv. destruct (HA _ _ Hpv) as (c&Hc&Hc32&Hlen&Hholds).
    destruct (Hold _ _ Hc) as [(c'&Hcc&Hc') Hkeep]. exists c'. split_and!; [done|lia|lia| |].
    - eapply holds_frame; [|done]. intros x Hx. apply Hkeep. lia.
    - assert (Hne : pv ≠ p + 32) by congruence.
      pose proof (allocated_disjoint _ _ _ _ _ _ _ _ Hh1 Hc' Hnew Hne). lia. }
  split.
  - right. exists (words m2 (p + 32) (nwords cb)). rewrite length_words. split_and!; [done|done| |done].
    split_and!; [done|lia|rewrite length_words; lia|done|intros H0; by eapply Z.divide_trans, Hpal; apply Hdv|].
    intros pv' ws' Hpv'. rewrite length_words. destruct (Hmove _ _ Hpv') as (c&_&_&?&_&?). lia.
  - apply (hrep_data m2 _ bs'); [done| |done| |].
    + apply (heap_data m1); [done| |done]. intros x Hx. apply Hf.
      destruct (decide (x < p + 32 ∨ p + 32 + adjust_cb cb ≤ x)); [done|]. exfalso. apply Hx.
      eapply alloc_in_data; [done|]. lia.
    + intros pv ws. rewrite lookup_insert_Some. intros [[<- <-]|[Hne Hpv]].
      * exists k. rewrite length_words. split_and!; [done|lia|lia|]. apply holds_words.
        intros i Hi. apply Hs, (hc_map _ _ _ _ _ _ _ _ _ _ _ _ _ Hh1); [lia|].
        apply Z.divide_add_r; [by apply div32_8|by apply Z.divide_factor_l].
      * destruct (Hmove _ _ Hpv) as (c&?&?&?&Hholds&?). exists c. split_and!; [done..|].
        eapply holds_frame; [|done]. intros x Hx. apply Hf. lia.
    + intros Hex1 pv c Hc. assert (E32 : adjust_alignment al = 32).
      { unfold adjust_alignment, RTHEAPSIMPLE_ALIGNMENT, sizeof_BLOCK. specialize (Hal32 Hex1).
        destruct (Z.eqb_spec al 0); [done|]. destruct (Z.ltb_spec al 32); [done|lia]. }
      destruct (Hexact E32 _ _ Hc) as [->|Hc1].
      * rewrite lookup_insert_eq. eauto.
      * apply lookup_insert_is_Some. destruct (decide (p + 32 = pv)); [by left|right]. split; [done|]. by eapply Hex.
Qed.
End hrep.

Section hrep.
Context (ex : bool) (m : memory) (base E : Z) (A : allocs).

Lemma free_step pv :
  hrep ex m base E A → pv = NULL ∨ is_Some (A !! pv) →
  ∃ m', RTHeapSimpleFree m base pv = Some m' ∧ hrep ex m' base E (delete pv A).
Proof.
  intros Hr Hpv. pose proof Hr as (HE&Hv&bs&Hh&Hsep&HA&Hex).
  pose proof (heap_bounds _ _ _ _ Hh) as (Hb0&_).
  destruct (decide (pv = NULL)) as [->|Hne].
  { exists m. split; [done|]. rewrite delete_id; [done|].
    destruct (A !! NULL) as [ws|] eqn:E0; [|done]. destruct (HA _ _ E0) as (c&Hc&_).
    apply (allocated_range _ _ _ _ _ _ Hh) in Hc. hunfold. lia. }
  destruct Hpv as [|[ws Hws]]; [done|]. destruct (HA _ _ Hws) as (c&Hc&Hc32&_).
  destruct (free_rep m base E bs base pv c Hh Hsep Hc Hc32) as (m'&bs'&Hf&Hh'&Hsep'&Hall&Hdata).
  exists m'. split; [done|]. apply (hrep_data ex m base E A m' _ bs'); [done..| |].
  - intros pv' ws'. rewrite lookup_delete_Some. intros [Hd Hpv'].
    destruct (HA _ _ Hpv') as (c'&Hc'&?&?&?). exists c'. split_and!; [by apply Hall|done|done|].
    eapply holds_frame; [|done]. intros x Hx. eapply Hdata; [exact Hc'|done|lia].
  - intros Hx pv' c' Hc'. apply Hall in Hc' as [Hc' Hd]. rewrite lookup_delete_ne by done. by eapply Hex.
Qed.

Lemma size_step pv :
  hrep ex m base E A → pv = NULL ∨ is_Some (A !! pv) →
  ∃ r, RTHeapSimpleSize m base pv = Some r
    ∧ (if pv =? NULL then r = 0 else ∃ ws, A !! pv = Some ws ∧ 8 * Z.of_nat (length ws) ≤ r).
Proof.
  intros (HE&Hv&bs&Hh&_&HA&_) Hpv. destruct (Z.eqb_spec pv NULL) as [->|Hne]; [by exists 0|].
  destruct Hpv as [|[ws Hws]]; [done|]. destruct (HA _ _ Hws) as (c&Hc&?&?&_).
  pose proof (allocated_range _ _ _ _ _ _ Hh Hc) as (?&?&_).
  exists c. rewrite (size_rep m base E bs base pv c Hh Hc) by (apply Hv; lia). eauto.
Qed.

(** The free space: what the blocks say. *)
Lemma free_size_rep bs :
  hrep ex m base E A → heap m base E bs → RTHeapSimpleGetFreeSize m base = Some (free_total bs).
Proof.
  intros (HE&Hv&_) Hh. pose proof (heap_bounds _ _ _ _ Hh) as (Hb0&_).
  unfold RTHeapSimpleGetFreeSize. rewrite (proj2 (Z.eqb_neq base NULL)) by (hunfold; lia).
  rewrite Hv by lia. apply (hc_cbFree _ _ _ _ _ _ _ _ _ _ _ _ _ Hh).
Qed.

Lemma free_size_step :
  hrep ex m base E A → ∃ r, RTHeapSimpleGetFreeSize m base = Some r ∧ 0 ≤ r ≤ E - base - 96.
Proof.
  intros Hr. pose proof Hr as (HE&_&bs&Hh&_). exists (free_total bs).
  split; [by apply free_size_rep|]. pose proof (heap_bounds _ _ _ _ Hh) as (_&_&_&_&HE'&Hok).
  destruct bs as [|b bs]; [cbn in HE'; lia|]. apply Forall_cons in Hok as [[? _] Hok].
  pose proof (free_total_range (base + 64 + 32 + b.2) bs Hok). rewrite free_total_cons. cbn [hend] in HE'.
  destruct b.1; lia.
Qed.

Lemma write_step pv i v ws :
  hrep ex m base E A → A !! pv = Some ws → (i < length ws)%nat →
  let x := pv + 8 * Z.of_nat i in
  wrw m x v = Some (<[x := v]> m) ∧ hrep ex (<[x := v]> m) base E (<[pv := <[i := v]> ws]> A).
Proof.
  intros Hr Hws Hi x. pose proof Hr as (HE&Hv&bs&Hh&Hsep&HA&Hex).
  destruct (HA _ _ Hws) as (c&Hc&?&?&Hholds).
  destruct (allocated_range _ _ _ _ _ _ Hh Hc) as (_&_&Hd&_).
  destruct (write_rep m base E bs pv c x v Hh Hc) as [Hw Hh'].
  { unfold x. lia. }
  { apply Z.divide_add_r; [by apply div32_8|by apply Z.divide_factor_l]. }
  split; [done|]. apply (hrep_data ex m base E A _ _ bs); [done..| |].
  - intros pv' ws'. rewrite lookup_insert_Some. intros [[<- <-]|[Hne Hpv']].
    + exists c. rewrite length_insert. split_and!; [done..|]. by apply holds_insert.
    + destruct (HA _ _ Hpv') as (c'&Hc'&?&?&?). exists c'. split_and!; [done..|].
      eapply holds_frame; [|done]. intros y Hy. apply lookup_insert_ne.
      pose proof (allocated_disjoint _ _ _ _ _ _ _ _ Hh Hc Hc' Hne). unfold x. lia.
  - intros Hx pv' c' Hc'. apply lookup_insert_is_Some.
    destruct (decide (pv = pv')); [by left|right]. split; [done|]. by eapply Hex.
Qed.

Lemma read_step pv i ws :
  hrep ex m base E A → A !! pv = Some ws → (i < length ws)%nat →
  ∃ w, rdw m (pv + 8 * Z.of_nat i) = Some w ∧ ws !! i = Some w.
Proof.
  intros (_&_&bs&_&_&HA&_) Hws Hi. destruct (HA _ _ Hws) as (c&_&_&_&Hholds).
  destruct (lookup_lt_is_Some_2 ws i Hi) as [w Hw]. exists w. split; [by apply Hholds|done].
Qed.

(** Every operation has a result, and does what it is specified to do. *)
Lemma hop_step o :
  hrep ex m base E A → hop_ok ex A o →
  ∃ r m', run_hop base o m = Some (r, m') ∧ hspec base E A o r (hghost m' A o r)
    ∧ hrep ex m' base E (hghost m' A o r).
Proof.
  intros Hr Ho. destruct o as [zero cb al|pv|pv| |pv i v|pv i].
  - by apply alloc_step.
  - destruct (free_step pv Hr Ho) as (m'&Hf&Hr'). exists 0, m'. cbn [run_hop]. by rewrite Hf.
  - destruct (size_step pv Hr Ho) as (r&Hf&Hr'). exists r, m. cbn [run_hop]. by rewrite Hf.
  - destruct (free_size_step Hr) as (r&Hf&Hr'). exists r, m. cbn [run_hop]. by rewrite Hf.
  - destruct Ho as (ws&Hws&Hi). destruct (write_step pv i v ws Hr Hws Hi) as [Hw Hr'].
    exists v, (<[pv + 8 * Z.of_nat i := v]> m). cbn [run_hop hghost hspec]. rewrite Hw.
    replace (alter (λ ws, <[i := v]> ws) pv A) with (<[pv := <[i := v]> ws]> A).
    2: { symmetry. apply map_eq. intros k. destruct (decide (k = pv)) as [->|].
         - by rewrite lookup_alter_eq, lookup_insert_eq, Hws.
         - by rewrite lookup_alter_ne, lookup_insert_ne. }
    split_and!; [done|by exists ws|done].
  - destruct Ho as (ws&Hws&Hi). destruct (read_step pv i ws Hr Hws Hi) as (w&Hw&Hw').
    exists w, m. cbn [run_hop hghost hspec]. rewrite Hw. split_and!; [done|done|by exists ws|done].
Qed.
End hrep.

(** * Relocation *)

(** A pointer into the heap, after the heap has moved by [d]. *)
Definition reloc (d p : Z) : Z := if p =? NULL then NULL else p + d.

Lemma reloc_NULL d : reloc d NULL = NULL.
Proof. done. Qed.

Lemma reloc_pos d p : p ≠ 0 → reloc d p = p + d.
Proof. intros H. unfold reloc. by rewrite (proj2 (Z.eqb_neq p NULL)). Qed.

Section shift.
Context (d : Z).

Lemma hend_shift a bs : hend (a + d) bs = hend a bs + d.
Proof.
  revert a. induction bs as [|b bs IH]; intros a; cbn [hend]; [done|].
  rewrite <- IH. f_equal. lia.
Qed.

Lemma in_data_shift a bs x : in_data (a + d) bs (x + d) ↔ in_data a bs x.
Proof.
  revert a. induction bs as [|b bs IH]; intros a; cbn [in_data]; [done|].
  replace (a + d + 32 + b.2) with (a + 32 + b.2 + d) by lia. rewrite IH.
  assert ((a + d + 32 ≤ x + d < a + 32 + b.2 + d) ↔ a + 32 ≤ x < a + 32 + b.2) by lia. tauto.
Qed.

Lemma hd_blk_shift a bs : a ≠ 0 → hd_blk (a + d) bs NULL = reloc d (hd_blk a bs NULL).
Proof. intros Ha. destruct bs; [done|]. cbn [hd_blk]. by rewrite reloc_pos. Qed.

Lemma first_free_shift a bs :
  Forall bok bs → 0 < a → first_free (a + d) bs NULL = reloc d (first_free a bs NULL).
Proof.
  intros Hok. revert a. induction Hok as [|b bs [Hb _] _ IH]; intros a Ha; cbn [first_free]; [done|].
  destruct b.1; [rewrite reloc_pos; lia|]. rewrite <- IH by lia. f_equal. lia.
Qed.

Lemma last_free_shift a bs pf :
  Forall bok bs → 0 < a → last_free (a + d) bs (reloc d pf) = reloc d (last_free a bs pf).
Proof.
  intros Hok. revert a pf. induction Hok as [|b bs [Hb _] _ IH]; intros a pf Ha; cbn [last_free]; [done|].
  rewrite <- IH by lia. f_equal; [lia|]. destruct b.1; [rewrite reloc_pos; lia|done].
Qed.

Lemma alloc_in_shift a bs pv c : alloc_in (a + d) bs (pv + d) c ↔ alloc_in a bs pv c.
Proof.
  revert a. induction bs as [|b bs IH]; intros a; cbn [alloc_in]; [done|].
  replace (a + d + 32 + b.2) with (a + 32 + b.2 + d) by lia. rewrite IH.
  assert (pv + d = a + d + 32 ↔ pv = a + 32) by lia. tauto.
Qed.

(** A pointer that is still valid when it has been moved. *)
Definition movable (v : Z) : Prop := v = NULL ∨ v ≠ 0 ∧ 0 ≤ v + d < 2 ^ 64.

Lemma relocate_it_ok m p v :
  m !! p = Some v → movable v → relocate_it m p (u64 d) = Some (<[p := reloc d v]> m).
Proof.
  intros Hp Hv. unfold relocate_it, rdw. rewrite Hp. cbn [mbind option_bind].
  destruct Hv as [->|[Hv Hr]].
  - cbn. by rewrite insert_id.
  - rewrite reloc_pos, (proj2 (Z.eqb_neq v NULL)) by done. cbn [negb]. rewrite wrw_ok by eauto.
    unfold u64 at 1. unfold u64. rewrite Zplus_mod_idemp_r. by rewrite Z.mod_small.
Qed.

(** The step for one block. *)
Lemma relocate_block m base A b pNext pPrev fNext fPrev :
  hdr_at m base A b pNext pPrev fNext fPrev → movable pNext → movable pPrev → movable base →
  movable fNext → movable fPrev → bok b → base ≠ 0 →
  ∃ m', (m ← relocate_it m (Core_pNext A) (u64 d);
         m ← relocate_it m (Core_pPrev A) (u64 d);
         m ← relocate_it m (Core_pHeap A) (u64 d);
         fFlags ← rdw m (Core_fFlags A);
         if RTHEAPSIMPLEBLOCK_IS_FREE fFlags then
           m ← relocate_it m (Free_pNext A) (u64 d); relocate_it m (Free_pPrev A) (u64 d)
         else Some m) = Some m'
    ∧ hdr_at m' (base + d) A b (reloc d pNext) (reloc d pPrev) (reloc d fNext) (reloc d fPrev)
    ∧ (∀ x, x < A ∨ (if b.1 then A + 64 else A + 32) ≤ x → m' !! x = m !! x)
    ∧ (∀ x, is_Some (m !! x) → is_Some (m' !! x)).
Proof.
  intros (W1&W2&W3&W4&W5) V1 V2 V3 V4 V5 Hb Hbase. hunfold.
  rewrite (relocate_it_ok m _ pNext W1 V1). cbn [mbind option_bind].
  rewrite (relocate_it_ok _ _ pPrev) by (hlook; done). cbn [mbind option_bind].
  rewrite (relocate_it_ok _ _ base) by (hlook; done). cbn [mbind option_bind].
  rewrite (reloc_pos d base) by done.
  unfold rdw. hlook. rewrite W4. cbn [mbind option_bind]. rewrite flags_is_free. destruct b as [[] c]; cbn [fst] in *.
  - destruct (W5 eq_refl) as (W6&W7&W8).
    rewrite (relocate_it_ok _ _ fNext) by (hlook; done). cbn [mbind option_bind].
    rewrite (relocate_it_ok _ _ fPrev) by (hlook; done).
    eexists. split; [done|]. split; [|split].
    + unfold hdr_at. hunfold. cbn [fst snd]. split_and!; [hlook; done..|]. intros _. split_and!; hlook; done.
    + intros x Hx. hlook. done.
    + intros x Hx. by do 5 apply is_Some_insert.
  - eexists. split; [done|]. split; [|split].
    + unfold hdr_at. hunfold. cbn [fst snd]. split_and!; [hlook; done..|]. by intros.
    + intros x Hx. hlook. done.
    + intros x Hx. by do 3 apply is_Some_insert.
Qed.
End shift.

Section relocate.
Context (mo : memory) (base E d : Z).
Context (Hb0 : 0 < base) (Hb1 : 0 < base + d) (Htop : E + d < 2 ^ 64).

(** A pointer of the heap. *)
Lemma movable_range v : v = NULL ∨ base ≤ v ≤ E → movable d v.
Proof using Hb0 Hb1 Htop. unfold movable. intros [->|]; [by left|right; lia]. Qed.

(** The loop over the blocks, from [A] on: it is in the new place already, with the old pointers. *)
Lemma relocate_loop_ok r : ∀ n m h A pv pf,
  Forall bok r → base + 64 ≤ A → (32 | A) → hend A r = E → (length r < n)%nat →
  h + 64 ≤ A + d → m !! Heap_pvEnd h = Some (E + d) →
  (∀ x, A ≤ x < E → m !! (x + d) = mo !! x) → seg mo base A pv pf r NULL NULL →
  pv = NULL ∨ base ≤ pv ≤ E → pf = NULL ∨ base ≤ pf ≤ E →
  ∃ m', relocate_loop n m h (hd_blk (A + d) r NULL) (u64 d) = Some m'
    ∧ seg m' (base + d) (A + d) (reloc d pv) (reloc d pf) r NULL NULL
    ∧ (∀ x, x < A + d ∨ E + d ≤ x ∨ in_data (A + d) r x → m' !! x = m !! x)
    ∧ (∀ x, is_Some (m !! x) → is_Some (m' !! x)).
Proof using Hb0 Hb1 Htop.
  induction r as [|b r IH]; intros n m h A pv pf Hok HA HdA HE Hn Hh Hend Hcp Hseg Hpv Hpf;
    (destruct n as [|n]; [simpl in Hn; lia|]); cbn [relocate_loop hd_blk].
  { unfold rdw. rewrite Hend. cbn. by exists m. }
  apply Forall_cons in Hok as [Hb Hok]. cbn [seg] in Hseg. destruct Hseg as [Hhdr Hseg]. cbn [hend] in HE.
  set (A' := A + 32 + b.2) in *. assert (Hb2 : 0 ≤ b.2) by apply Hb.
  assert (HdA' : (32 | A')) by (destruct Hb as (_&?&_); unfold A'; hdiv).
  pose proof (hend_ge A' r Hok) as HA'E.
  assert (Hfree : b.1 = true → 32 ≤ b.2) by apply Hb.
  change (rdw m (Heap_pvEnd h)) with (m !! Heap_pvEnd h). rewrite Hend. cbn [mbind option_bind].
  rewrite (proj2 (Z.eqb_neq (A + d) NULL)) by (hunfold; lia).
  rewrite (proj2 (Z.ltb_lt (A + d) (E + d))) by lia. cbn [negb andb].
  assert (Hhdr' : hdr_at m base (A + d) b (hd_blk A' r NULL) pv (first_free A' r NULL) pf).
  { destruct Hhdr as (W1&W2&W3&W4&W5). unfold hdr_at. hunfold.
    replace (A + d + 8) with (A + 8 + d) by lia. replace (A + d + 16) with (A + 16 + d) by lia.
    replace (A + d + 24) with (A + 24 + d) by lia.
    rewrite !Hcp by lia. split_and!; [done..|]. intros Hf. specialize (Hfree Hf).
    replace (A + d + 32) with (A + 32 + d) by lia. replace (A + d + 40) with (A + 40 + d) by lia.
    replace (A + d + 48) with (A + 48 + d) by lia. rewrite !Hcp by lia. by apply W5. }
  pose proof (first_free_range A' r Hok ltac:(lia) HdA') as [Hff _].
  destruct (relocate_block d m base (A + d) b _ _ _ _ Hhdr') as (m1&Hrun&Hnew&Hf1&Hs1);
    [apply movable_range..|done|lia|].
  { destruct r as [|b' r']; [by left|right; cbn [hd_blk]; lia]. }
  { done. }
  { right; lia. }
  { destruct Hff as [[-> _]|]; [by left|right; lia]. }
  { done. }
  destruct (IH n m1 h A' A (if b.1 then A else pf)) as (m'&Hloop&Hseg'&Hf'&Hs'); try done.
  - lia.
  - simpl in Hn. lia.
  - lia.
  - rewrite Hf1; [done|hunfold; left; lia].
  - intros x Hx. rewrite Hf1; [apply Hcp; lia|]. right. destruct b.1; lia.
  - right; lia.
  - destruct b.1; [right; lia|done].
  - exists m'. split; [|split; [|split]].
    + revert Hrun Hloop. destruct Hnew as (W1&_). rewrite (hd_blk_shift d A' r) by lia.
      destruct (relocate_it m _ _) as [m2|]; cbn [mbind option_bind]; [|done].
      destruct (relocate_it m2 _ _) as [m3|]; cbn [mbind option_bind]; [|done].
      destruct (relocate_it m3 _ _) as [m4|]; cbn [mbind option_bind]; [|done].
      destruct (rdw m4 _) as [fl|]; cbn [mbind option_bind]; [|done].
      intros ->. cbn [mbind option_bind]. unfold rdw. rewrite W1. by cbn [mbind option_bind].
    + cbn [seg]. replace (A + d + 32 + b.2) with (A' + d) by lia. split.
      * rewrite (hd_blk_shift d A' r), (first_free_shift d A' r) by (done || lia).
        destruct Hnew as (W1&W2&W3&W4&W5). unfold hdr_at. hunfold. rewrite !Hf' by lia.
        split_and!; [done..|]. intros Hf. specialize (Hfree Hf). rewrite !Hf' by lia. by apply W5.
      * destruct b.1; rewrite !(reloc_pos d A) in Hseg' by lia; done.
    + intros x Hx. cbn [in_data] in Hx. replace (A + d + 32 + b.2) with (A' + d) in Hx by lia.
      assert (Hx' : x < A' + d ∨ E + d ≤ x ∨ in_data (A' + d) r x) by (destruct Hx as [|[|[[]|]]]; [left; lia|tauto|left; lia|tauto]).
      rewrite Hf' by done. apply Hf1.
      destruct Hx as [Hx|[Hx|[[Hb1' Hx]|Hx]]].
      * left. lia.
      * right. destruct b.1; lia.
      * right. rewrite Hb1'. lia.
      * right. apply in_data_range in Hx as [Hx _]; [|done]. destruct b.1; lia.
    + intros x Hx. by apply Hs', Hs1.
Qed.
End relocate.

(** A heap that has been moved is a heap again, with the same blocks. *)
Lemma relocate_spec mo m base E bs d :
  heap mo base E bs → base + 64 < E → VALID_PTR (base + d) = true →
  0 < base + d → E + d < 2 ^ 64 → (32 | d) → (∀ x, base ≤ x < E → m !! (x + d) = mo !! x) →
  ∃ m', RTHeapSimpleRelocate m (base + d) (u64 d) = Some (VINF_SUCCESS, m')
    ∧ heap m' (base + d) (E + d) bs
    ∧ ∀ x, x < base + d ∨ E + d ≤ x ∨ in_data (base + 64 + d) bs x → m' !! x = m !! x.
Proof.
  intros Hh Hbig Hv Hb1 Htop Hdd Hcp. pose proof (heap_bounds _ _ _ _ Hh) as (Hb0&Hdb&HbE&HE64&HE&Hok).
  pose proof (heap_length _ _ _ _ Hh) as _.
  destruct Hh as [_ _ _ _ _ _ _ _ _ Hmap _ Hseg Hmagic Hcb Hend Hfree Hhead Htail _].
  assert (Hd64 : (32 | base + 64)) by hdiv.
  pose proof (first_free_range (base + 64) bs Hok ltac:(lia) Hd64) as [Hff _].
  pose proof (last_free_range (base + 64) bs NULL Hok ltac:(lia) Hd64) as [Hlf _].
  hunfold. cbn [last_free first_free] in *. unfold RTHeapSimpleRelocate. rewrite Hv. hunfold. cbn [negb]. unfold rdw at 1 2 3.
  assert (Hc : ∀ k v, 0 ≤ k < 64 → mo !! (base + k) = Some v → m !! (base + d + k) = Some v).
  { intros k v Hk Hm. replace (base + d + k) with (base + k + d) by lia. rewrite Hcp by lia. done. }
  rewrite Hcp, Hmagic by lia. cbn [mbind option_bind]. rewrite Z.eqb_refl. cbn [negb].
  rewrite (Hc 16 _ ltac:(lia) Hend), (Hc 8 _ ltac:(lia) Hcb). cbn [mbind option_bind].
  replace (base + d - E + (E - base)) with d by lia. rewrite Z.eqb_refl. cbn [negb].
  assert (Hmv : ∀ v, v = NULL ∨ base ≤ v ≤ E → movable d v) by (intros; by apply (movable_range base E)).
  rewrite (relocate_it_ok d m _ E (Hc 16 _ ltac:(lia) Hend)) by (apply Hmv; right; lia). cbn [mbind option_bind].
  rewrite (relocate_it_ok d _ _ (first_free (base + 64) bs 0)).
  2: { hlook. apply (Hc 32); [lia|done]. }
  2: { apply Hmv. destruct Hff as [[-> _]|]; [by left|right; lia]. }
  cbn [mbind option_bind]. rewrite (relocate_it_ok d _ _ (last_free (base + 64) bs 0)).
  2: { hlook. apply (Hc 40); [lia|done]. }
  2: { apply Hmv. destruct Hlf as [[-> _]|]; [by left|right; lia]. }
  cbn [mbind option_bind]. rewrite u64_small by lia. rewrite (reloc_pos d E) by lia.
  set (m1 := <[base + d + 40 := _]> _).
  assert (Hm1 : ∀ x, x ≠ base + d + 16 → x ≠ base + d + 32 → x ≠ base + d + 40 → m1 !! x = m !! x).
  { intros x ? ? ?. unfold m1. hlook. done. }
  assert (Hmap1 : ∀ x, base + d ≤ x < E + d → (8 | x) → is_Some (m1 !! x)).
  { intros x Hx Hx8. unfold m1. do 3 apply is_Some_insert. replace x with (x - d + d) by lia.
    rewrite Hcp by lia. apply Hmap; [lia|]. apply Z.divide_sub_r; [done|by apply div32_8]. }
  assert (HdEd : hend (base + d + 64) bs = E + d).
  { replace (base + d + 64) with (base + 64 + d) by lia. by rewrite hend_shift, <- HE. }
  assert (Hlen : (length bs < S (size m1))%nat).
  { apply (blocks_length m1 (base + d)); [hdiv|done|]. by rewrite HdEd. }
  destruct (relocate_loop_ok mo base E d Hb0 Hb1 Htop bs (S (size m1)) m1 (base + d) (base + 64) NULL NULL)
    as (m'&Hloop&Hseg'&Hf'&Hs'); try done; try lia; try (by left).
  { unfold m1. hunfold. hlook. done. }
  { intros x Hx. rewrite Hm1 by lia. apply Hcp. lia. }
  assert (Hhd : hd_blk (base + 64 + d) bs NULL = base + d + 64) by (destruct bs; [cbn in HE|cbn]; lia).
  rewrite Hhd in Hloop. rewrite Hloop. cbn [mbind option_bind].
  replace (base + 64 + d) with (base + d + 64) in * by lia.
  exists m'. split; [done|]. split.
  - split; hunfold; try done; try lia; try (rewrite Hf' by lia); try (unfold m1; hlook; done); try hdiv.
    + intros x Hx Hx8. apply Hs'. apply Hmap1; [lia|done].
    + rewrite Hm1 by lia. rewrite <- (Z.add_0_r (base + d)). apply Hc; [lia|]. by rewrite Z.add_0_r.
    + rewrite Hm1 by lia. rewrite (Hc 8 _ ltac:(lia) Hcb). f_equal. lia.
    + rewrite Hm1 by lia. apply Hc; [lia|done].
    + unfold m1. hlook. cbn [first_free]. replace (base + d + 64) with (base + 64 + d) by lia.
      f_equal. symmetry. apply first_free_shift; [done|lia].
    + unfold m1. hlook. cbn [last_free]. replace (base + d + 64) with (base + 64 + d) by lia.
      f_equal. symmetry. apply (last_free_shift d _ _ NULL); [done|lia].
  - intros x Hx.
    assert (Hge : in_data (base + d + 64) bs x → base + d + 64 ≤ x) by (intros H; apply in_data_range in H; [lia|done]).
    rewrite Hf' by (destruct Hx as [|[|]]; [left; lia|tauto|tauto]).
    apply Hm1; intros ->; destruct Hx as [|[|Hx]]; try lia; apply Hge in Hx; lia.
Qed.

#[local] Instance shift_inj d : Inj (=) (=) (λ p : Z, p + d).
Proof. intros x y H. lia. Qed.

(** The allocations of a heap that has moved. *)
Definition moved (d : Z) (A : allocs) : allocs := kmap (λ p, p + d) A.

(** The memory behind [base] is at [base + d] now. *)
Definition copied (mo m : memory) (base E d : Z) : Prop :=
  ∀ x, base ≤ x < E → m !! (x + d) = mo !! x.

Lemma relocate_rep ex mo m base E A d :
  hrep ex mo base E A → copied mo m base E d →
  0 < base + d → E + d < 2 ^ 64 → (32 | d) → (∀ p, base + d ≤ p < E + d → VALID_PTR p = true) →
  ∃ m', RTHeapSimpleRelocate m (base + d) (u64 d) = Some (VINF_SUCCESS, m')
    ∧ hrep ex m' (base + d) (E + d) (moved d A).
Proof.
  intros (HE&_&bs&Hh&Hsep&HA&Hex) Hcp Hb1 Htop Hd Hv.
  destruct (relocate_spec mo m base E bs d Hh) as (m'&Hrun&Hh'&Hf); try done; try lia; [apply Hv; lia|].
  exists m'. split; [done|]. split; [lia|]. split; [done|]. exists bs. split_and!; [done|done| |].
  - intros pv ws (p&->&Hp)%lookup_kmap_Some; [|apply _]. destruct (HA _ _ Hp) as (c&Hc&?&?&Hholds).
    exists c. replace (base + d + 64) with (base + 64 + d) by lia.
    split_and!; [by apply alloc_in_shift|done|done|].
    destruct (allocated_range _ _ _ _ _ _ Hh Hc) as (?&?&_).
    intros i w Hi. pose proof (lookup_lt_Some _ _ _ Hi).
    replace (p + d + 8 * Z.of_nat i) with (p + 8 * Z.of_nat i + d) by lia. rewrite Hf.
    + rewrite Hcp by lia. by apply Hholds.
    + right. right. apply in_data_shift. eapply alloc_in_data; [done|lia].
  - intros Hx pv c Hc. replace pv with (pv - d + d) in * by lia.
    replace (base + d + 64) with (base + 64 + d) in Hc by lia. apply alloc_in_shift in Hc.
    unfold moved. rewrite (lookup_kmap (λ p, p + d)). by eapply Hex.
Qed.

(** * The states of a heap *)

(** The memory for a heap: not in an unusable part of the address space. *)
Definition area_ok (pvMemory cbMemory : Z) : Prop :=
  0 ≤ pvMemory ∧ pvMemory + cbMemory < 2 ^ 64
  ∧ ∀ p, pvMemory ≤ p < pvMemory + cbMemory → VALID_PTR p = true.

(** What a heap and its clients get to: where the heap is, the memory, the allocations.
    [exact]: without large alignments. *)
Inductive hreach (exact : bool) : Z → Z → memory → allocs → Prop :=
| hreach_init pvMemory cbMemory m0 h m :
    area_ok pvMemory cbMemory → memory_mapped m0 pvMemory cbMemory →
    RTHeapSimpleInit m0 pvMemory cbMemory = Some (VINF_SUCCESS, Some h, m) →
    hreach exact h (heap_end pvMemory cbMemory) m ∅
| hreach_step base E m A o r m' :
    hreach exact base E m A → hop_ok exact A o → run_hop base o m = Some (r, m') →
    hreach exact base E m' (hghost m' A o r)
| hreach_move base E m A d m1 m' :
    hreach exact base E m A → copied m m1 base E d → 0 < base + d → (32 | d) →
    area_ok (base + d) (E - base) →
    RTHeapSimpleRelocate m1 (base + d) (u64 d) = Some (VINF_SUCCESS, m') →
    hreach exact (base + d) (E + d) m' (moved d A).

Lemma heap_init_rep ex pv cb m0 :
  area_ok pv cb → memory_mapped m0 pv cb → 4096 ≤ cb →
  ∃ m, RTHeapSimpleInit m0 pv cb = Some (VINF_SUCCESS, Some (heap_base pv), m)
    ∧ hrep ex m (heap_base pv) (heap_end pv cb) ∅.
Proof.
  intros (Hpv&Htop&Hval) Hm Hcb.
  destruct (init_spec m0 pv cb) as (m&Hi&Hh&_); [apply Hval; lia|done..|].
  pose proof (heap_base_spec pv cb Hcb) as (?&?&?&?&?). exists m. split; [done|].
  split; [lia|]. split; [intros p Hp; apply Hval; lia|].
  exists [(true, heap_end pv cb - heap_base pv - 96)]. split_and!; [done|done| |].
  - intros ? ?. by rewrite lookup_empty.
  - intros _ ? ?. cbn [alloc_in]. naive_solver.
Qed.

Lemma hreach_hrep ex base E m A : hreach ex base E m A → hrep ex m base E A.
Proof.
  induction 1 as [pv cb m0 h m Ha Hm Hi|base E m A o r m' _ IH Ho Hr|base E m A d m1 m' _ IH Hcp Hb Hd (_&Htop&Hv) Hr].
  - assert (Hcb : 4096 ≤ cb).
    { unfold RTHeapSimpleInit, PAGE_SIZE in Hi. destruct (Z.leb_spec 4096 cb); [done|]. by cbn in Hi. }
    destruct (heap_init_rep ex pv cb m0 Ha Hm Hcb) as (m1&Hi'&Hrep). rewrite Hi' in Hi. by injection Hi as <- <-.
  - destruct (hop_step ex m _ _ A o IH Ho) as (r1&m1&Hr1&_&Hrep). rewrite Hr in Hr1.
    by injection Hr1 as <- <-.
  - destruct (relocate_rep ex m m1 base E A d IH Hcp Hb) as (m2&Hr2&Hrep); [lia|done|intros p Hp; apply Hv; lia|].
    rewrite Hr in Hr2. by injection Hr2 as <-.
Qed.

(** The default alignment. *)
Lemma adjust_default al : align_arg al → al ≤ 32 → adjust_alignment al = 32.
Proof.
  intros _ Hal. unfold adjust_alignment, RTHEAPSIMPLE_ALIGNMENT, sizeof_BLOCK.
  destruct (Z.eqb_spec al 0); [done|]. destruct (Z.ltb_spec al 32); [done|lia].
Qed.

(** Whether there is room decides whether an allocation succeeds. *)
Lemma alloc_null_iff ex m base E A zero cb al r m' bs :
  hrep ex m base E A → hop_ok ex A (HAlloc zero cb al) →
  run_hop base (HAlloc zero cb al) m = Some (r, m') → heap m base E bs → separate false bs →
  (r = NULL ↔ no_room base (adjust_cb cb) (adjust_alignment al) bs) ∧ (r = NULL → m' = m).
Proof.
  intros Hr Ho Hrun Hh Hsep. pose proof Ho as (Hcb&Hal&Hsm&_). pose proof Hr as (HE&Hv&_).
  destruct (adjust_cb_spec cb Hcb) as (H32&Hd&_). destruct (adjust_alignment_spec al Hal) as [Hp2 _].
  pose proof (heap_bounds _ _ _ _ Hh) as (Hb0&_&_&Htop&_).
  assert (Hvb : VALID_PTR base = true) by (apply Hv; lia).
  destruct (alloc_rep m base E bs _ _ Hh Hsep H32 Hd Hp2 Hsm)
    as [[Hb Hno]|(p&m1&bs'&k&Hb&Hp&_&Hh1&_&Hnew&_&_&_&_&Hroom)].
  - destruct zero; cbn [run_hop] in Hrun; unfold RTHeapSimpleAlloc, RTHeapSimpleAllocZ in Hrun;
      rewrite Hvb, Hb in Hrun; injection Hrun as <- <-; by split.
  - destruct (allocated_range _ _ _ _ _ _ Hh1 Hnew) as (_&HpE&_&?).
    assert (r ≠ NULL); [|by split; [split; intros ?; exfalso; auto|]].
    intros ->. destruct zero; cbn [run_hop] in Hrun;
      unfold RTHeapSimpleAlloc, RTHeapSimpleAllocZ in Hrun; rewrite Hvb, Hb in Hrun;
      cbn [negb mbind option_bind] in Hrun; rewrite (proj2 (Z.eqb_neq p NULL)) in Hrun by (hunfold; lia);
      cbn [negb] in Hrun; unfold sizeof_BLOCK in Hrun; rewrite u64_small in Hrun by lia.
    + destruct (zero_words _ _ _); cbn [mbind option_bind] in Hrun; [|done].
      injection Hrun as ? _. hunfold. lia.
    + injection Hrun as ? _. hunfold. lia.
Qed.

(** A heap without allocations is one free block. *)
Lemma all_free a bs : separate false bs → (∀ pv c, ¬ alloc_in a bs pv c) → bs ≠ [] → ∃ c, bs = [(true, c)].
Proof.
  destruct bs as [|[[] c] [|[[] c'] bs]]; intros Hs Ha Hne; cbn [fst separate] in Hs; try done.
  - by exists c.
  - by destruct Hs as (_&?&_).
  - destruct (Ha (a + 32 + c + 32) c'). cbn [alloc_in snd]. tauto.
  - destruct (Ha (a + 32) c). cbn [alloc_in]. tauto.
  - destruct (Ha (a + 32) c). cbn [alloc_in]. tauto.
  - destruct (Ha (a + 32) c). cbn [alloc_in]. tauto.
Qed.

Lemma empty_blocks m base E : hrep true m base E ∅ → heap m base E [(true, E - base - 96)].
Proof.
  intros (HE&_&bs&Hh&Hsep&_&Hex). pose proof (heap_bounds _ _ _ _ Hh) as (_&_&_&_&HE'&_).
  destruct (all_free (base + 64) bs Hsep) as [c ->].
  - intros pv c Hc. destruct (Hex eq_refl _ _ Hc) as [? H]. by rewrite lookup_empty in H.
  - intros ->. cbn in HE'. lia.
  - cbn [hend snd] in HE'. by replace (E - base - 96) with c by lia.
Qed.

(** Freeing a block that is free. *)
Lemma find_neighbours_free m base E l c r :
  heap m base E (l ++ (true, c) :: r) →
  let A := hend (base + 64) l in
  find_neighbours m base A = Some (A, first_free (A + 32 + c) r NULL).
Proof.
  intros Hh A. pose proof (heap_length _ _ _ _ Hh) as Hlen.
  pose proof (heap_bounds _ _ _ _ Hh) as (Hb0&_&_&_&_&Hok).
  pose proof (heap_block _ _ _ _ _ _ Hh) as ((W1&_)&HA&_&_&Hb).
  pose proof (hc_tail _ _ _ _ _ _ _ _ _ _ _ _ _ Hh) as Ht. rewrite last_free_app in Ht. cbn [last_free fst snd] in Ht.
  assert (Hr := Hh). rewrite cons_middle, app_assoc in Hr.
  assert (Hright := find_right_spec (S (size m)) m base E (l ++ [(true, c)]) r Hr).
  rewrite hend_app in Hright. cbn [hend snd] in Hright, W1. fold A in Hright, Ht, W1, HA.
  unfold find_neighbours, rdw. rewrite Ht, W1. cbn [mbind option_bind].
  rewrite Hright by (rewrite length_app in Hlen; simpl in Hlen; lia). cbn [mbind option_bind].
  apply Forall_app in Hok as [Hokl [[? _] Hokr]%Forall_cons]. cbn [snd] in *.
  destruct (first_free_cases r) as [Hu|(us&c1&r1&->&Hu)].
  - rewrite (first_free_used _ _ _ Hu), (last_free_used _ _ _ Hu). rewrite (proj2 (Z.eqb_neq A NULL)) by (hunfold; lia).
    done.
  - apply Forall_app in Hokr as [Hus _]. pose proof (hend_ge (A + 32 + c) us Hus).
    rewrite first_free_app. cbn [first_free fst]. rewrite (first_free_used _ _ _ Hu).
    rewrite (proj2 (Z.eqb_neq (hend (A + 32 + c) us) NULL)) by (hunfold; lia).
    destruct (last_free_cases (us ++ (true, c1) :: r1)) as [Hu'|(l2&c2&us2&E2&Hu2)].
    { by apply Forall_app in Hu' as [_ [? _]%Forall_cons]. }
    assert (Hne : last_free (A + 32 + c) (us ++ (true, c1) :: r1) A ≠ NULL).
    { rewrite E2, last_free_app. cbn [last_free fst].
      rewrite (last_free_used _ _ _ Hu2). pose proof (heap_bounds _ _ _ _ Hh) as (_&_&_&_&_&Hok2).
      rewrite E2 in Hok2. apply Forall_app in Hok2 as [_ [_ [Hl2 _]%Forall_app]%Forall_cons].
      pose proof (hend_ge (A + 32 + c) l2 Hl2). hunfold. lia. }
    rewrite (proj2 (Z.eqb_neq _ _) Hne). cbn [negb].
    assert (Hh2 := Hh). replace (l ++ (true, c) :: us ++ (true, c1) :: r1)
      with ((l ++ (true, c) :: us) ++ (true, c1) :: r1) in Hh2 by (by rewrite <- app_assoc).
    apply heap_block in Hh2 as ((_&_&_&_&W5)&_). destruct (W5 eq_refl) as (_&W7&_).
    rewrite hend_app, last_free_app in W7. cbn [hend last_free fst snd] in W7. fold A in W7.
    rewrite (last_free_used _ _ _ Hu) in W7. by rewrite W7.
Qed.

(** * The theorems *)

(** C23. Whatever sequence of operations clients perform, moves of the heap included, the
    consistency check of the heap passes; every allocation is aligned to 32 bytes, inside the
    heap, away from the others, and contains what its client has put there.  This is for the
    requests of [hop_ok]: at most [2^64 - 32] bytes, with an alignment that is zero or a power
    of two and at most 32 more than the size rounded up to a multiple of 32, frees and
    accesses of allocations that exist.  Outside of that it is false of the code: a larger
    alignment can return memory outside of the heap ([heap_align_wraps]), and a larger size
    wraps to zero ([heap_size_wraps]). *)
Theorem heap_invariant ex base E m A :
  hreach ex base E m A →
  rtHeapSimpleAssertAll m base = Some true
  ∧ (∀ pv ws, A !! pv = Some ws →
       (32 | pv) ∧ base < pv ∧ pv + 8 * Z.of_nat (length ws) ≤ E ∧ holds m pv ws)
  ∧ (∀ pv ws pv' ws', A !! pv = Some ws → A !! pv' = Some ws' → pv < pv' →
       pv + 8 * Z.of_nat (length ws) < pv').
Proof.
  intros (HE&_&bs&Hh&_&HA&_)%hreach_hrep. split_and!.
  - apply (assert_all_ok m base E bs); [done|lia].
  - intros pv ws Hpv. destruct (HA _ _ Hpv) as (c&Hc&?&?&?).
    destruct (allocated_range _ _ _ _ _ _ Hh Hc) as (?&?&?&_). split_and!; [done|lia|lia|done].
  - intros pv ws pv' ws' Hpv Hpv' Hlt.
    destruct (HA _ _ Hpv) as (c&Hc&?&?&_), (HA _ _ Hpv') as (c'&Hc'&?&_).
    assert (Hne : pv ≠ pv') by lia. pose proof (allocated_disjoint _ _ _ _ _ _ _ _ Hh Hc Hc' Hne). lia.
Qed.

(** C12. The heap implements a map of independent arrays: every operation of [hop_ok] has a
    result, without touching memory that is not there, and changes the map as it is specified
    to, the allocations that it is not about staying what they are.  [hop_ok] are frees, size
    queries and accesses of allocations that exist, and requests of at most [2^64 - 32] bytes
    with an alignment that is zero or a power of two, at most 32 more than the size rounded up
    to a multiple of 32; for other requests it is false of the code ([heap_align_wraps],
    [heap_size_wraps]). *)
Theorem heap_refines ex base E m A o :
  hreach ex base E m A → hop_ok ex A o →
  ∃ r m' A', run_hop base o m = Some (r, m') ∧ hspec base E A o r A' ∧ hreach ex base E m' A'.
Proof.
  intros Hr Ho. destruct (hop_step ex m base E A o (hreach_hrep _ _ _ _ _ Hr) Ho) as (r&m'&Hrun&Hspec&_).
  exists r, m', (hghost m' A o r). split_and!; [done|done|by eapply hreach_step].
Qed.

(** C36. A request of at most [2^64 - 32] bytes, with an alignment that is zero or a power of
    two and at most 32 more than the size rounded up to a multiple of 32 ([hop_ok]), fails if
    and only if no free block has room for it, aligned; then nothing has changed.  With a
    larger alignment the test for room can wrap around and the request succeed without room
    ([heap_align_wraps]). *)
Theorem heap_alloc_complete ex base E m A zero cb al r m' :
  hreach ex base E m A → hop_ok ex A (HAlloc zero cb al) →
  run_hop base (HAlloc zero cb al) m = Some (r, m') →
  ∃ bs, heap m base E bs
    ∧ (r = NULL ↔ no_room base (adjust_cb cb) (adjust_alignment al) bs) ∧ (r = NULL → m' = m).
Proof.
  intros Hr%hreach_hrep Ho Hrun. pose proof Hr as (_&_&bs&Hh&Hsep&_).
  exists bs. split; [done|]. by eapply alloc_null_iff.
Qed.

(** C13. When everything has been freed, and none of the requests before had an alignment above
    32 ([hreach true]), all of the memory is available again, in one piece, however the heap
    has been used otherwise: its free size is what it was at first, and it takes any such request of
    that size.  A larger alignment can cost memory for good: where the first free block is also
    the first block of the heap, the bytes skipped become a used block of their own, which
    nobody frees ([heap_aligned_leak]). *)
Theorem heap_all_freed base E m :
  hreach true base E m ∅ →
  RTHeapSimpleGetFreeSize m base = Some (E - base - 96)
  ∧ ∀ zero cb al, hop_ok true ∅ (HAlloc zero cb al) → adjust_cb cb ≤ E - base - 96 →
      ∃ r m', run_hop base (HAlloc zero cb al) m = Some (r, m') ∧ r ≠ NULL.
Proof.
  intros Hr%hreach_hrep. pose proof (empty_blocks _ _ _ Hr) as Hh. split.
  - rewrite (free_size_rep true m base E ∅ _ Hr Hh), free_total_cons, free_total_nil. cbn [fst snd]. f_equal. lia.
  - intros zero cb al Ho Hcb. destruct (hop_step true m base E ∅ _ Hr Ho) as (r&m'&Hrun&_).
    exists r, m'. split; [done|]. intros Hnull.
    assert (Hsep : separate false [(true, E - base - 96)]) by done.
    destruct (alloc_null_iff _ _ _ _ _ _ _ _ _ _ _ Hr Ho Hrun Hh Hsep) as [[Hno _] _].
    specialize (Hno Hnull [] _ [] eq_refl). destruct Ho as (_&Hal&_&Hal32).
    rewrite (adjust_default al Hal (Hal32 eq_refl)) in Hno. cbn [hend] in Hno.
    pose proof (heap_bounds _ _ _ _ Hh) as (?&?&?&?&_). destruct Hr as [? _]. rewrite off_of_default in Hno; [lia|lia|lia|hdiv].
Qed.

(** C38. A heap whose memory is elsewhere now works again when it has been told the distance: all
    pointers are moved, the contents of the allocations are not.  For another distance there is
    an error, and nothing changes.  The distance is a multiple of 32, and the heap has been used
    with the operations of [hop_ok]. *)
Theorem heap_relocate ex base E m A d m1 :
  hreach ex base E m A → copied m m1 base E d → 0 < base + d → (32 | d) →
  area_ok (base + d) (E - base) →
  (∃ m', RTHeapSimpleRelocate m1 (base + d) (u64 d) = Some (VINF_SUCCESS, m')
     ∧ hreach ex (base + d) (E + d) m' (moved d A))
  ∧ ∀ off, off ≠ u64 d → RTHeapSimpleRelocate m1 (base + d) off = Some (VERR_INVALID_PARAMETER, m1).
Proof.
  intros Hr Hcp Hb Hd Ha. pose proof Ha as (_&Htop&Hv). pose proof (hreach_hrep _ _ _ _ _ Hr) as Hrep. split.
  - destruct (relocate_rep ex m m1 base E A d Hrep Hcp Hb) as (m'&Hrun&_); [lia|done|intros p Hp; apply Hv; lia|].
    exists m'. split; [done|]. by eapply hreach_move.
  - intros off Hoff. destruct Hrep as (HE&_&bs&[_ _ _ _ _ _ _ _ _ _ _ _ Hmagic Hcb Hend _ _ _ _]&_).
    unfold RTHeapSimpleRelocate, rdw. hunfold. rewrite Hv by lia. cbn [negb].
    replace (base + d + 16) with (base + 16 + d) by lia. replace (base + d + 8) with (base + 8 + d) by lia.
    rewrite !Hcp, Hmagic, Hend, Hcb by lia. cbn [mbind option_bind]. rewrite Z.eqb_refl. cbn [negb].
    replace (base + d - E + (E - base)) with d by lia. by rewrite (proj2 (Z.eqb_neq _ _)) by congruence.
Qed.

(** Freeing what is the start of a free block - the second time, for instance, when the block
    has not been merged with one before it - is noticed: nothing happens. *)
Lemma heap_double_free m base E h l c r :
  heap m base E (l ++ (true, c) :: r) →
  RTHeapSimpleFree m h (hend (base + 64) l + 32) = Some m.
Proof.
  intros Hh. pose proof (find_neighbours_free _ _ _ _ _ _ Hh) as Hn.
  pose proof (heap_bounds _ _ _ _ Hh) as (Hb0&_&_&Htop&_).
  pose proof (heap_block _ _ _ _ _ _ Hh) as ((_&_&W3&_)&HA&HB&_&Hb). apply bok_free in Hb. cbn [snd] in HB.
  unfold RTHeapSimpleFree. rewrite (proj2 (Z.eqb_neq _ NULL)) by (hunfold; lia).
  unfold sizeof_BLOCK. rewrite Z.add_simpl_r, u64_small by lia. unfold rdw. rewrite W3. cbn [mbind option_bind].
  unfold rtHeapSimpleFreeBlock. rewrite Hn. cbn [mbind option_bind]. by rewrite Z.eqb_refl.
Qed.

(** * Examples *)

(** [n] zeroed words at [pv]. *)
Definition zero_memory (pv : ptr) (n : Z) : memory :=
  list_to_map ((λ k, (pv + 8 * k, 0)) <$> seqZ 0 n).

Lemma zero_memory_lookup pv n k : 0 ≤ k < n → zero_memory pv n !! (pv + 8 * k) = Some 0.
Proof.
  intros Hk. apply elem_of_list_to_map_1.
  - rewrite <- list_fmap_compose. apply NoDup_fmap_2; [|apply NoDup_seqZ]. intros x y; simpl; lia.
  - apply list_elem_of_fmap. exists k. split; [done|]. apply elem_of_seqZ. lia.
Qed.

Lemma zero_memory_mapped pv n : (8 | pv) → memory_mapped (zero_memory pv n) pv (8 * n).
Proof.
  intros [p ->] x Hx [y ->].
  replace (y * 8) with (p * 8 + 8 * (y - p)) by lia. rewrite zero_memory_lookup by lia. eauto.
Qed.

(** Addresses of the lower half. *)
Lemma VALID_PTR_low p : 4096 ≤ p < 2 ^ 47 → VALID_PTR p = true.
Proof.
  intros Hp. unfold VALID_PTR. rewrite u64_small by lia. rewrite (proj2 (Z.leb_le 0x2000 (p + 0x1000))) by lia.
  assert (Hz : Z.land p 0xffff800000000000 = 0); [|by rewrite Hz].
  change 0xffff800000000000 with (Z.shiftl 0x1ffff 47). apply Z.bits_inj'. intros i Hi.
  rewrite Z.land_spec, Z.bits_0, Z.shiftl_spec by done. destruct (Z.ltb_spec i 47).
  - rewrite (Z.testbit_neg_r 0x1ffff) by lia. apply andb_false_r.
  - rewrite <- (Z.mod_small p (2 ^ 47)) by lia. rewrite Z.mod_pow2_bits_high by lia. done.
Qed.

Lemma area_ok_low pv cb : 4096 ≤ pv → pv + cb < 2 ^ 47 → area_ok pv cb.
Proof. intros H1 H2. split; [lia|]. split; [lia|]. intros p Hp. apply VALID_PTR_low. lia. Qed.

(** A heap in a page and a half; its memory starts at an odd place. *)
Definition ex_pv : Z := 0x10000008.
Definition ex_cb : Z := 6144.
Definition ex_base : Z := heap_base ex_pv.
Definition ex_end : Z := heap_end ex_pv ex_cb.

Lemma ex_reach ex : ∃ m, hreach ex ex_base ex_end m ∅.
Proof.
  destruct (heap_init_rep ex ex_pv ex_cb (zero_memory ex_pv (ex_cb / 8))) as (m&Hi&_); [by apply area_ok_low| | |].
  - apply zero_memory_mapped. by exists (ex_pv / 8).
  - done.
  - exists m. eapply hreach_init, Hi; [by apply area_ok_low|].
    apply zero_memory_mapped. by exists (ex_pv / 8).
Qed.

Lemma heap_invariant_witness :
  ∃ m, hreach true ex_base ex_end m ∅ ∧ rtHeapSimpleAssertAll m ex_base = Some true.
Proof.
  destruct (ex_reach true) as [m Hm]. exists m. split; [done|].
  by apply (heap_invariant true ex_base ex_end m ∅).
Defined.

(** 100 bytes, at a multiple of 64. *)
Lemma ex_request ex : (ex = true → False) → hop_ok ex ∅ (HAlloc true 100 64).
Proof.
  intros Hex. split; [done|]. split; [right; by exists 6|]. split; [by vm_compute|]. by intros []%Hex.
Qed.

Lemma heap_refines_witness :
  ∃ m, hreach false ex_base ex_end m ∅
    ∧ ∃ r m' A', run_hop ex_base (HAlloc true 100 64) m = Some (r, m')
        ∧ hspec ex_base ex_end ∅ (HAlloc true 100 64) r A' ∧ hreach false ex_base ex_end m' A'.
Proof.
  destruct (ex_reach false) as [m Hm]. exists m. split; [done|].
  apply (heap_refines false ex_base ex_end m ∅ (HAlloc true 100 64) Hm). by apply ex_request.
Defined.

Lemma heap_alloc_complete_witness :
  ∃ m r m', run_hop ex_base (HAlloc true 100 64) m = Some (r, m')
    ∧ ∃ bs, heap m ex_base ex_end bs
        ∧ (r = NULL ↔ no_room ex_base (adjust_cb 100) (adjust_alignment 64) bs) ∧ (r = NULL → m' = m).
Proof.
  destruct (ex_reach false) as [m Hm]. assert (Ho : hop_ok false ∅ (HAlloc true 100 64)) by (by apply ex_request).
  destruct (hop_step false m _ _ ∅ _ (hreach_hrep _ _ _ _ _ Hm) Ho) as (r&m'&Hrun&_).
  exists m, r, m'. split; [done|].
  apply (heap_alloc_complete false ex_base ex_end m ∅ true 100 64 r m' Hm Ho Hrun).
Defined.

Lemma heap_all_freed_witness :
  ∃ m, hreach true ex_base ex_end m ∅ ∧ RTHeapSimpleGetFreeSize m ex_base = Some 6016.
Proof.
  destruct (ex_reach true) as [m Hm]. exists m. split; [done|].
  apply (heap_all_freed ex_base ex_end m Hm).
Defined.

(** A memory that is empty but for the copy. *)
Definition move_memory (d : Z) (m : memory) : memory := kmap (λ p, p + d) m.

Lemma move_memory_copied m base E d : copied m (move_memory d m) base E d.
Proof. intros x _. apply (lookup_kmap (λ p, p + d)). Qed.

Lemma heap_relocate_witness :
  ∃ m m', hreach true ex_base ex_end m ∅
    ∧ RTHeapSimpleRelocate (move_memory (- 0x8000000) m) (ex_base + - 0x8000000) (u64 (- 0x8000000))
      = Some (VINF_SUCCESS, m').
Proof.
  destruct (ex_reach true) as [m Hm].
  destruct (heap_relocate true ex_base ex_end m ∅ (- 0x8000000) (move_memory (- 0x8000000) m) Hm) as [(m'&Hr&_) _].
  - apply move_memory_copied.
  - done.
  - by exists (- 0x400000).
  - by apply area_ok_low.
  - by exists m, m'.
Defined.

Lemma heap_double_free_example :
  ∃ m, hreach true ex_base ex_end m ∅ ∧ RTHeapSimpleFree m ex_base (ex_base + 96) = Some m.
Proof.
  destruct (ex_reach true) as [m Hm]. exists m. split; [done|].
  apply (heap_double_free m ex_base ex_end ex_base [] (ex_end - ex_base - 96) []).
  apply empty_blocks, hreach_hrep, Hm.
Defined.

(** * Requests that the heap takes, and should not *)

(** The state after [RTHeapSimpleInit]. *)
Definition init_memory (m : memory) (pv : ptr) (cb : Z) : memory :=
  match RTHeapSimpleInit m pv cb with Some (_, _, m) => m | None => ∅ end.

(** Two pages at 0x20000000, of which the first is the heap, and 16 words that belong to someone
    else and that contain 7. *)
Definition wrap_memory : memory :=
  init_memory (zero_memory 0x20000000 512) 0x20000000 4096
  ∪ ((λ _, 7) <$> zero_memory 0x2000ffe0 16).

(** The test whether there is room at an alignment, [pFree->cb - offAlign < cb], wraps around when
    the distance to the next multiple is more than the block has: the address that comes out is
    outside the heap, and what is there is written over. *)
Lemma heap_align_wraps :
  rdw wrap_memory (Heap_pvEnd 0x20000000) = Some 0x20001000
  ∧ rdw wrap_memory 0x2000fff0 = Some 7
  ∧ ((λ '(p, m'), (p, rdw m' 0x2000fff0)) <$> RTHeapSimpleAlloc wrap_memory 0x20000000 32 0x10000)
    = Some (0x20010000, Some 0x20000000).
Proof. split_and!; vm_compute; reflexivity. Qed.

(** The size of a request is rounded up modulo [2 ^ 64]: a request for almost all of the address
    space succeeds, with no bytes, and the block behind it overlaps the links of this one.  It
    ends up as its own successor: whoever walks the blocks does not come to an end. *)
Lemma heap_size_wraps :
  adjust_cb (2 ^ 64 - 1) = 0
  ∧ ((λ '(p, m'), (p, RTHeapSimpleSize m' 0x20000000 p, rdw m' (Core_pNext 0x20000060)))
       <$> RTHeapSimpleAlloc (init_memory (zero_memory 0x20000000 512) 0x20000000 4096)
             0x20000000 (2 ^ 64 - 1) 0)
    = Some (0x20000060, Some 0, Some 0x20000060).
Proof. split_and!; vm_compute; reflexivity. Qed.

(** An aligned request that the first block of the heap serves: the 32 bytes skipped become a
    used block that no client knows.  After the only allocation has been freed the heap has 32
    bytes less than at first, and refuses the request for all of it that it took before. *)
Lemma heap_aligned_leak :
  let m0 := init_memory (zero_memory 0x20000000 512) 0x20000000 4096 in
  RTHeapSimpleGetFreeSize m0 0x20000000 = Some 4000
  ∧ (fst <$> RTHeapSimpleAlloc m0 0x20000000 4000 0) = Some 0x20000060
  ∧ (('(p, m) ← RTHeapSimpleAlloc m0 0x20000000 100 64; m ← RTHeapSimpleFree m 0x20000000 p;
      cb ← RTHeapSimpleGetFreeSize m 0x20000000; r ← RTHeapSimpleAlloc m 0x20000000 4000 0;
      Some (p, cb, fst r)) = Some (0x20000080, 3968, NULL)).
Proof. split_and!; vm_compute; reflexivity. Qed.
